(* ===== verification/_CoqProject ===== *)
-Q . S2P
Prelude.v
GoStrings.v
GoFloat.v
GoPath.v
GoUrl.v
FileSys.v
Context.v
Services.v
S3.v
Cache.v
Db.v
Unzip.v
Metadata.v
Archive.v
Utils.v
Icon.v
Notifications.v
Packager.v
Push.v
PushSync.v
Auth.v
Submit.v
Pull.v
Healthcheck.v
Gzip.v
Mux.v
Memcache.v
Routes.v
Frame.v
Simulated.v
PushCorrect.v
StoreCorrect.v
InputCorrect.v
ServerCorrect.v
MemcacheCorrect.v
MemcacheMulti.v
AmqpWire.v
AmqpSpec.v
AmqpFrame.v
AmqpAlloc.v
AmqpConfirms.v
AmqpChannel.v
AmqpConsumers.v
AmqpHeartbeat.v
AmqpTransfer.v
AmqpCorrect.v
AmqpOpen.v
AmqpNotify.v
AmzSign.v
AmzCanonical.v
AmzS3.v
AmzS3Correct.v
AmzMulti.v
AmzMultiCorrect.v
GoRegexp.v
GoRegexpParse.v
MuxRoute.v
MuxCorrect.v
MuxTotal.v
MuxBundler.v
PqBuf.v
PqErrors.v
PqEncode.v
PqConn.v
PqCopy.v
PqSession.v
PqRows.v
PqSync.v
PqCodec.v
PqTime.v
GoUtf8.v
PqOpen.v
PqSettings.v
PqStartup.v
PqSql.v
PqDecode.v
PqCorrect.v
PqNotify.v
PqNotifyCorrect.v
PqListener.v
