(* ===== verification/Prelude.v ===== *)
(** * siphon-bundler, verified

    The bundler is the server that keeps the files of Siphon apps.  A developer's
    client pushes an archive of changed files ([/push]); devices pull the assets
    and the bundle they miss ([/pull]); a submission to an app store takes a
    snapshot ([/submit]).  File names and hashes are rows of a PostgreSQL table,
    contents are objects in S3 with memcached in front, and devices hear of a new
    version over RabbitMQ.  The program is [src/src/siphon/bundler] with
    [src/src/main.go]; the libraries it links are under [src/src/github.com] and
    [src/src/gopkg.in], and those that carry behaviour of their own are modelled too.

    ** How the code is modelled

    Code runs in the state monad [M W A] of this file: a state [W] in, an
    [outcome] (a returned value, or a crash: a panic, or the end of the process)
    and a state out.  A Go function with an error result returns [result A] or
    [option error]; a panic is a [Crash], which [recover] of [net/http] turns into
    a closed connection.  Loops are structural recursions over the slice they
    range over, or have fuel that is proved to suffice.  Theorems about runs go
    through the predicate [wp m Q C s]: started in [s], [m] either returns with [Q]
    or crashes with [C]; [C := λ _ _, False] says that it returns.

    The outside world is a set of classes ([Services]): operations on an abstract
    state ([PgOps], [McOps], [S3Ops], [MqOps], ...) and, separately, laws over a
    view of that state ([PgLaws], [McLaws], [S3Laws]).  Components are verified
    against the laws.  [Simulated] has executable services that satisfy them, on
    which every theorem with hypotheses is run; [MemcacheCorrect] and
    [AmzS3Correct] prove of the modelled client libraries what [McLaws] and
    [S3Laws] ask, over networks that can fail, and [PqSql] proves of the PostgreSQL
    driver that a query returns what the server's engine says.

    ** Files

    - Foundations: [Prelude] (errors, the monad, [wp], tactics and the hint
      databases), [GoStrings], [GoFloat], [GoPath], [GoUrl] (Go's [strings],
      [strconv], [path] and [net/url] packages), [FileSys] (files, directories and
      symbolic links), [Services] (the world and its laws).
    - The stores: [S3] ([s3.go]), [Cache] ([cache.go]), [Db] ([db.go]).
    - What clients send: [Unzip] ([unzip.go]), [Archive] ([archive.go]), [Metadata]
      ([metadata.go]), [Icon] ([icon.go]), [Utils] ([utils.go]).
    - The handlers: [Push] ([push.go]), [Submit] ([submit.go]), [Pull] ([pull.go]),
      [Healthcheck] ([healthcheck.go]), with [Packager] ([packager.go]) and
      [Notifications] ([notifications.go]).
    - The server: [Auth] ([auth.go]), [Routes] ([routes.go], [main.go]), and the
      libraries requests pass through: [Context] (gorilla/context), [Mux] (the part of
      gorilla/mux the bundler uses, on plain values), [MuxRoute] (the whole of it, over a
      store of routers and routes) with [GoRegexp] and [GoRegexpParse] (Go's [regexp]),
      [Gzip] (nytimes/gziphandler).
    - Client libraries: [Memcache] and [MemcacheMulti] (bradfitz/gomemcache);
      gopkg.in/amz.v3 as [AmzSign] ([aws/sign.go], [aws/aws.go]) with [AmzCanonical] (its
      texts read back), [AmzS3] ([s3/s3.go], [aws/attempt.go]) and [AmzMulti]
      ([s3/multi.go]);
      streadway/amqp in layers, [AmqpWire] (values: [read.go], [write.go]),
      [AmqpSpec] (the 62 methods of [spec091.go]), [AmqpFrame] (frames), [AmqpAlloc]
      (channel numbers: [allocator.go]), [AmqpConfirms] (publisher confirmations:
      [confirms.go]), [AmqpChannel] (connections and channels: [connection.go],
      [channel.go]), [AmqpConsumers] (consumers and their goroutines: [consumers.go]),
      [AmqpHeartbeat] (the heartbeater and the registration of listeners:
      [connection.go], [channel.go], [delivery.go]), [AmqpOpen] (URIs and the handshake:
      [uri.go], [auth.go], [connection.go]); lib/pq likewise, [PqBuf] (messages:
      [buf.go], [error.go]), [PqErrors] (error codes), [PqEncode] (values: [encode.go]),
      [PqConn] (a session: [conn.go]), [PqCopy] ([copy.go]), [PqOpen] (settings and the
      start of a session: [conn.go], [url.go], [user_posix.go]) over [GoUtf8] (runes),
      [PqNotify] and [PqListener] (LISTEN and NOTIFY, goroutine by goroutine:
      [notify.go]).
    - Proofs across components: [PushSync] (what a push does to rows and objects),
      [Frame] (what every handler keeps), [AmqpTransfer] (messages cut into frames
      and put together), [AmqpNotify] (the bundler's notifications over the AMQP
      client), [PqSession], [PqRows] and [PqSync] (the conversation of a connection
      with a server, and staying in step with it), [PqCodec], [PqTime] and [PqDecode]
      (how the server reads and writes values), [PqSettings] and [PqStartup] (opening a
      connection), [PqSql] (queries of [database/sql] over it), [Simulated] (the
      simulated deployment), and the theorems themselves in the files [...Correct], in
      [MuxTotal] and [MuxBundler], and at the end of [MemcacheMulti], [AmqpConsumers],
      [AmqpHeartbeat], [AmqpNotify] and [PqListener].

    A definition has the name of the Go function it translates; a method of a type
    is in the Module of that type's file; [X_] is a Go function whose name is taken
    in Rocq or by its own Module ([Push_], [Set_]); a [_go] or [_loop] is the loop
    of the function it is named after.  Each record has the fields of its struct.

    ** What is proved

    Each theorem's comment states its conditions in full; the ones that recur are
    [PgStable] (no result stream of PostgreSQL breaks off: the code never looks at
    [rows.Err]) and that a server or broker follows its protocol.

    - [PushCorrect] (C1, C2): a push makes the rows of the app those of the pushed
      listing, and every row keeps an object with its content; the exceptions (an
      ignored error, the reserved names of footers, a removal that fails) are stated.
    - [StoreCorrect] (C3-C5): the cache returns only what S3 holds and is never
      stale after a write; adding a row never overwrites one.  Beside them: the other
      SQL functions act on exactly the rows they name, removals, isolation of apps and
      submissions, retries, look-ups.
    - [InputCorrect] (C6-C8): unpacking is confined to the archive's directory, except
      through symbolic links ([unzip_link_escapes]); the comparison is the
      difference of two listings; a Siphonfile cannot inject into the packager's
      command line.  Beside them: which metadata is accepted; values of a request are
      isolated.
    - [ServerCorrect] (C9-C12): what [ServeHTTP] does with every request, an
      unauthorised request changes nothing, a submission is not made twice, a submission
      is a complete snapshot.  Beside them: the middleware, no handler ends the process,
      the status of a failed push, a pull only reads.
    - [MemcacheCorrect] (C13, C14): the client implements the cache interface; idle
      connections never hold unread bytes.  [MemcacheMulti] (C15): a look-up of many
      keys is exact in every order of its goroutines.
    - [PqCorrect] (C16-C21): a query returns what the server's engine says, an error
      after some of the rows included; whatever is done on a connection but COPY, it is
      in step with the server or marked as bad; COPY transfers the rows it is given; a
      session opens with every kind of password; settings are read back as written, and
      values are decoded to what the server sent.  Beside them: timestamps, byte strings
      and identifiers are read back.
    - [PqNotifyCorrect] (C22, C23): every interleaving of the goroutines of a
      [ListenerConn] is one its documentation allows, and none of them is stuck on
      another.  [PqListener] (C24): a server that reads the texts of the queries listens
      on the channels that were asked for, across reconnections; and what a [Close]
      without a connection leaves.
    - [AmqpCorrect] (C25-C28): frames are read back as written and reading is total;
      confirmations are in order, once each; a published message arrives as it was.
      Beside them: channel numbers behave like a set.  [AmqpConsumers] (C29, C30): the
      consumers of a channel are queues, in every interleaving, and all that was
      accepted is received; beside them, a delivery does not wait for the application,
      whatever the comment on [send] says.  [AmqpHeartbeat] (C31): how long a connection
      is silent.
    - [AmqpNotify] (C32): the bytes of a whole notification, from the bundler through
      the client library to the wire, heartbeats included, with a broker that accepts.
    - [AmzS3Correct] (C33-C35): the S3 client implements the object store and ends
      after at most 25 requests; the text that is signed determines the request, up to
      the order of the values of a key.  Beside them: signatures do not depend on the
      order of the headers.  [AmzMultiCorrect] (C36): a multipart upload makes an object
      of a file, and sends no part that is already there.
    - [MuxBundler] (C37): the bundler's routes, built from the whole of gorilla/mux,
      dispatch every request as [Mux] says.  [MuxCorrect] (C38, C39): a URL that a
      template of the stated kind builds is matched by it, and its variables come back.
      [MuxTotal] (C40): building routers, matching and building URLs end.

    ** Bounds and fuel

    - Reading AMQP fields, arrays and tables: unread bytes plus one, since every
      value takes at least one byte ([consumes_Frame] shows it is enough on every
      input).  Receiving: one round per byte at most.
    - Receiving from PostgreSQL: [msg_fuel], the unread bytes plus two, since every
      round takes a saved message or at least five bytes ([ahead_fuel] shows it is
      enough for everything that waits); [startup] and [DialOpen] have as many rounds
      as they are given, enough when there are more than messages ([startup_serves]).
    - [resequence]: the size of the sequencer plus one, each round removes an entry;
      [Multiple] and [send_body] have exactly the rounds the source makes, and
      answer "does not return" where the source loops for ever.
    - A regular expression is parsed with one more than the length of its text
      ([parse_fuel]: more makes no difference) and a repetition is tried once per byte
      that is left.  Going up through the parents of a route or down through subrouters
      takes one round per router ([depth], [Match]; C40).
    - [PutAll] makes at most one round per byte of the file, and one for an empty file;
      [ListParts] has as many rounds as it is given, enough when they are 26 times one
      more than the pages.
    - Symbolic links are followed [max_links] = 40 times, as the kernel does; S3 is
      tried [maxAttempts] = 3 times by the wrapper and in [rounds] = 25 rounds by
      the client, both as in the source.
    - Integers of the wire protocols keep their width ([be], [signed], [uint64]).

    ** Not modelled

    - Log lines and file modes; the time at which buffered response bytes are
      flushed; goroutines that serve requests concurrently (requests are served one
      after the other, every method that holds a mutex is one step).
    - Codecs of Go's standard library (zip, JSON, PNG, base64, RSA, gzip) and the
      services themselves: parameters with the laws the code relies on.
    - lib/pq: that short messages and requests share one buffer (it shows only when a
      request is made while rows are open), deadlines, a full [Notify] channel; the TLS
      handshake, the check of certificates, the calendar, floats and MD5 are
      parameters.  database/sql: its pool of connections.
    - gorilla/mux: patterns with flags, word boundaries, Unicode or POSIX classes are
      answered with an error; regular expressions go byte by byte; [url.Parse] and
      [URL.String] are parameters.  gomemcache: deadlines.  gziphandler: the pool of
      compressors.
    - amz.v3: the table of the other regions; [RetryAttempts], which changes the package's
      retry strategy; the hash functions, the XML documents of
      the multipart API and the calendar are parameters.
    - streadway/amqp: what a read deadline does to a connection; a heartbeat between two
      frames of one message (the heartbeater writes while a call waits for its answer);
      the TLS client and [url.Parse] are parameters.
    - golang.org/x/tools and golang/lint are tools of the developers, in the tree but
      not in the server. *)

From Corelib Require Export ssreflect.
From Stdlib Require Export Ascii.
From stdpp Require Export gmap strings list fin_maps pretty.
#[export] Set Warnings "-rewrite-rw,-clear-no-such-hyp".
#[global] Open Scope general_if_scope.
#[export] Set SsrOldRewriteGoalsOrder.

(** ** Go errors

    Sentinel errors are compared by identity in the source ([err ==
    memcache.ErrCacheMiss], [err == errAppEmpty]), so each is a constructor of
    its own; everything built by [errors.New] or [fmt.Errorf] is [ErrorS]. *)
Inductive errno := ENOENT | EEXIST | ENOTDIR | EISDIR | ELOOP | EIO.

(** [pq.Error]: what PostgreSQL says about a failure. *)
Record pgError := mkPgError {
  pg_Severity : string;
  pg_Code : string;
  pg_Message : string;
  pg_Detail : string;
  pg_Hint : string;
  pg_Position : string;
  pg_InternalPosition : string;
  pg_InternalQuery : string;
  pg_Where : string;
  pg_Schema : string;
  pg_Table : string;
  pg_Column : string;
  pg_DataTypeName : string;
  pg_Constraint : string;
  pg_File : string;
  pg_Line : string;
  pg_Routine : string;
}.
#[export] Instance pgError_eq_dec : EqDecision pgError.
Proof. solve_decision. Defined.

Inductive error :=
| ErrCacheMiss
| ErrCASConflict
| ErrNotStored
| ErrServerError
| ErrNoStats
| ErrMalformedKey
| ErrNoServers
| errAppEmpty
| EOF
| ErrUnexpectedEOF
| DNSError (msg : string)
| OpError (op msg : string)
| AmqpError (code : Z) (reason : string) (server recover : bool)
| PathError (op path : string) (e : errno)
| S3Error (status : Z) (code message : string)
| ErrBadConn
| PqError (e : pgError)
| ErrorS (msg : string).

#[export] Instance errno_eq_dec : EqDecision errno.
Proof. solve_decision. Defined.
#[export] Instance error_eq_dec : EqDecision error.
Proof. solve_decision. Defined.

(** [err.Error()] *)
Definition errno_string (e : errno) : string :=
  match e with
  | ENOENT => "no such file or directory"
  | EEXIST => "file exists"
  | ENOTDIR => "not a directory"
  | EISDIR => "is a directory"
  | ELOOP => "too many levels of symbolic links"
  | EIO => "input/output error"
  end.
Definition error_string (e : error) : string :=
  match e with
  | ErrCacheMiss => "memcache: cache miss"
  | ErrCASConflict => "memcache: compare-and-swap conflict"
  | ErrNotStored => "memcache: item not stored"
  | ErrServerError => "memcache: server error"
  | ErrNoStats => "memcache: no statistics available"
  | ErrMalformedKey => "malformed: key is too long or contains invalid characters"
  | ErrNoServers => "memcache: no servers configured or available"
  | errAppEmpty => "This app has not been pushed yet."
  | EOF => "EOF"
  | ErrUnexpectedEOF => "unexpected EOF"
  | DNSError msg => msg
  | OpError op msg => op +:+ ": " +:+ msg
  | AmqpError code reason _ _ => "Exception (" +:+ pretty code +:+ ") Reason: " +:+ reason
  | PathError op path e => op +:+ " " +:+ path +:+ ": " +:+ errno_string e
  | S3Error _ _ message => message
  | ErrBadConn => "driver: bad connection"
  | PqError e => "pq: " +:+ pg_Message e
  | ErrorS msg => msg
  end.

(** A Go function with results [(T, error)]. *)
Inductive result (A : Type) :=
| Ok (a : A)
| Err (e : error).
Arguments Ok {A} _.
Arguments Err {A} _.

Definition is_ok {A} (r : result A) : bool :=
  match r with Ok _ => true | Err _ => false end.

(** How a goroutine can end without returning: a run-time panic (recovered per
    connection by [net/http]) or [log.Fatal], which ends the process. *)
Inductive crash := Panic (why : string) | Fatal (why : string).

Inductive outcome (A : Type) :=
| Ret (a : A)
| Crash (c : crash).
Arguments Ret {A} _.
Arguments Crash {A} _.

(** ** The state monad of handlers: explicit world passing with panics.
    Go errors are ordinary values, as in the source. *)
Definition M (W A : Type) : Type := W → outcome A * W.

#[export] Instance M_ret W : MRet (M W) := λ A a w, (Ret a, w).
#[export] Instance M_bind W : MBind (M W) := λ A B f m w,
  match m w with
  | (Ret a, w') => f a w'
  | (Crash c, w') => (Crash c, w')
  end.

Definition get {W} : M W W := λ w, (Ret w, w).
Definition gets {W A} (f : W → A) : M W A := λ w, (Ret (f w), w).
Definition modify {W} (f : W → W) : M W () := λ w, (Ret tt, f w).
Definition throw {W A} (c : crash) : M W A := λ w, (Crash c, w).
Definition nil_deref : crash := Panic "invalid memory address or nil pointer dereference".

(** [defer d; m]: [d] runs when [m] returns and when it panics; after
    [log.Fatal] nothing runs. *)
Definition defer {W A} (d : M W ()) (m : M W A) : M W A := λ w,
  match m w with
  | (Crash (Fatal s), w') => (Crash (Fatal s), w')
  | (o, w') =>
      match d w' with
      | (Ret _, w'') => (o, w'')
      | (Crash c, w'') => (Crash c, w'')
      end
  end.

(** [if err := m; err != nil { return err }; k] *)
Definition try_then {W} (m k : M W (option error)) : M W (option error) :=
  e ← m; match e with Some e => mret (Some e) | None => k end.

(** [x, err := m; if err != nil { return nil, err }; k x] *)
Definition bindR {W A B} (m : M W (result A)) (k : A → M W (result B)) : M W (result B) :=
  r ← m; match r with Ok a => k a | Err e => mret (Err e) end.

(** [for _, x := range l { body; if err != nil { return err } }; return nil] *)
Fixpoint range_err {W A} (l : list A) (body : A → M W (option error)) : M W (option error) :=
  match l with
  | [] => mret None
  | x :: l => try_then (body x) (range_err l body)
  end.

(** The same loop with an accumulator threaded through the body. *)
Fixpoint range_acc {W A B} (l : list A) (b : B) (body : A → B → M W (result B)) : M W (result B) :=
  match l with
  | [] => mret (Ok b)
  | x :: l => bindR (body x b) (λ b, range_acc l b body)
  end.

(** The loop over a handler [s] whose fields the body updates: the body ends one
    round ([None]) or returns from the method ([Some e]). *)
Fixpoint range_st {W S A} (l : list A) (s : S) (body : A → S → M W (option error * S)) :
    M W (option error * S) :=
  match l with
  | [] => mret (None, s)
  | x :: l =>
      r ← body x s;
      match r with
      | (Some e, s) => mret (Some e, s)
      | (None, s) => range_st l s body
      end
  end.

(** Go's error-propagating assignment. *)
Declare Scope go_scope.
Delimit Scope go_scope with go.
Notation "x '←?' m ; k" := (bindR m (λ x, k))
  (at level 20, m at level 100, k at level 200, right associativity) : go_scope.
Notation "' x '←?' m ; k" := (bindR m (λ x, k))
  (at level 20, x pattern, m at level 100, k at level 200, right associativity, only parsing) : go_scope.
#[global] Open Scope go_scope.

(** Facts that close the common side conditions of the components. *)
Create HintDb siphon.

(** ** Weakest preconditions: [Q] for a normal return, [C] for a crash. *)
Definition wp {W A} (m : M W A) (Q : A → W → Prop) (C : crash → W → Prop) (w : W) : Prop :=
  match m w with
  | (Ret a, w') => Q a w'
  | (Crash c, w') => C c w'
  end.

Section wp.
Context {W : Type}.
Implicit Types (w : W).

Lemma wp_ret {A} (a : A) Q C w : Q a w → wp (mret a) Q C w.
Proof. done. Qed.

Lemma wp_bind {A B} (m : M W A) (f : A → M W B) Q C w :
  wp m (λ a w', wp (f a) Q C w') C w → wp (m ≫= f) Q C w.
Proof. rewrite /wp /mbind /M_bind. by destruct (m w) as [[a|c] w']. Qed.

Lemma wp_get Q C w : Q w w → wp (W:=W) get Q C w.
Proof. done. Qed.

Lemma wp_gets {A} (f : W → A) Q C w : Q (f w) w → wp (gets f) Q C w.
Proof. done. Qed.

Lemma wp_modify (f : W → W) Q C w : Q tt (f w) → wp (modify f) Q C w.
Proof. done. Qed.

Lemma wp_throw {A} c Q C w : C c w → wp (A:=A) (throw c) Q C w.
Proof. done. Qed.

Lemma wp_mono {A} (m : M W A) (Q Q' : A → W → Prop) (C C' : crash → W → Prop) w :
  wp m Q C w → (∀ a w', Q a w' → Q' a w') → (∀ c w', C c w' → C' c w') → wp m Q' C' w.
Proof. rewrite /wp. destruct (m w) as [[a|c] w']; eauto. Qed.

(** Remember which run the postcondition is about. *)
Lemma wp_run {A} (m : M W A) (Q : A → W → Prop) (C : crash → W → Prop) w :
  wp m (λ a w', m w = (Ret a, w') → Q a w') (λ c w', m w = (Crash c, w') → C c w') w → wp m Q C w.
Proof. rewrite /wp. destruct (m w) as [[a|c] w']; auto. Qed.

(** Reading a specification off a run. *)
Lemma wp_ret_inv {A} (m : M W A) Q C w a w' : wp m Q C w → m w = (Ret a, w') → Q a w'.
Proof. rewrite /wp => Hm E. by rewrite E in Hm. Qed.
Lemma wp_crash_inv {A} (m : M W A) Q C w c w' : wp m Q C w → m w = (Crash c, w') → C c w'.
Proof. rewrite /wp => Hm E. by rewrite E in Hm. Qed.

(** Reading it off either outcome. *)
Lemma wp_inv {A} (m : M W A) (Q : A → W → Prop) (C : crash → W → Prop) w o w' :
  wp m Q C w → m w = (o, w') → match o with Ret a => Q a w' | Crash c => C c w' end.
Proof. rewrite /wp => Hm E. rewrite E in Hm. by destruct o. Qed.

Lemma bind_run {A B} (m : M W A) (k : A → M W B) w a w' :
  m w = (Ret a, w') → (m ≫= k) w = k a w'.
Proof. rewrite /mbind /M_bind => ->. done. Qed.

Lemma run_split {A} (m : M W A) w o : (m w).1 = o → m w = (o, (m w).2).
Proof. intros <-. apply surjective_pairing. Qed.

(** A computation that cannot crash returns. *)
Lemma wp_total {A} (m : M W A) (Q : A → W → Prop) w o w' :
  wp m Q (λ _ _, False) w → m w = (o, w') → ∃ a, o = Ret a ∧ Q a w'.
Proof. intros Hm E. apply (wp_inv _ _ _ _ _ _ Hm) in E. destruct o; [eauto|done]. Qed.

Lemma wp_try_then (m k : M W (option error)) Q C w :
  wp m (λ e w', match e with Some e => Q (Some e) w' | None => wp k Q C w' end) C w →
  wp (try_then m k) Q C w.
Proof.
  intros H. apply wp_bind. eapply wp_mono; [exact H| |done]. by intros [e|] w'.
Qed.

Lemma wp_bindR {A B} (m : M W (result A)) (k : A → M W (result B)) Q C w :
  wp m (λ r w', match r with Ok a => wp (k a) Q C w' | Err e => Q (Err e) w' end) C w →
  wp (bindR m k) Q C w.
Proof.
  intros H. apply wp_bind. eapply wp_mono; [exact H| |done]. by intros [a|e] w'.
Qed.

Lemma wp_defer {A} (d : M W ()) (m : M W A) Q C w :
  wp m (λ a w', wp d (λ _ w'', Q a w'') C w')
       (λ c w', match c with Fatal _ => C c w' | Panic _ => wp d (λ _ w'', C c w'') C w' end) w →
  wp (defer d m) Q C w.
Proof.
  rewrite /wp /defer. destruct (m w) as [[a|[s|s]] w']; simpl; try done;
    by destruct (d w') as [[]].
Qed.

(** Loop rule: the invariant is indexed by the elements already processed. *)
Lemma wp_range_err {A} (I : list A → W → Prop) (l : list A) body Q C w :
  I [] w →
  (∀ pre x post w', l = pre ++ x :: post → I pre w' →
     wp (body x) (λ e w'', match e with
                           | Some e => Q (Some e) w''
                           | None => I (pre ++ [x]) w'' end) C w') →
  (∀ w', I l w' → Q None w') →
  wp (range_err l body) Q C w.
Proof.
  intros Hinit Hstep Hpost.
  assert (∀ suf pre w', l = pre ++ suf → I pre w' → wp (range_err suf body) Q C w') as Hgen.
  { induction suf as [|x suf IH]; intros pre w' -> HI; simpl.
    - apply wp_ret, Hpost. by rewrite app_nil_r.
    - apply wp_try_then. eapply wp_mono; [by eapply Hstep| |done].
      intros [e|] w''; [done|]. intros HI'. eapply IH; [|exact HI']. by rewrite -app_assoc. }
  by apply (Hgen l []).
Qed.

Lemma wp_range_st {A S} (I : list A → S → W → Prop) (l : list A) s0 body Q C w :
  I [] s0 w →
  (∀ pre x post s w', l = pre ++ x :: post → I pre s w' →
     wp (body x s) (λ r w'', match r.1 with
                             | Some _ => Q r w''
                             | None => I (pre ++ [x]) r.2 w'' end) C w') →
  (∀ s w', I l s w' → Q (None, s) w') →
  wp (range_st l s0 body) Q C w.
Proof.
  intros Hinit Hstep Hpost.
  assert (∀ suf pre s w', l = pre ++ suf → I pre s w' → wp (range_st suf s body) Q C w') as Hgen.
  { induction suf as [|x suf IH]; intros pre s w' -> HI; simpl.
    - apply wp_ret, Hpost. by rewrite app_nil_r in HI |- *.
    - apply wp_bind. eapply wp_mono; [by eapply Hstep| |done].
      intros [[e|] s'] w''; simpl; [by intros; apply wp_ret|].
      intros HI'. eapply IH; [|exact HI']. by rewrite -app_assoc. }
  by apply (Hgen l []).
Qed.

(** A loop whose body leaves the world alone. *)
Lemma wp_range_acc_pure {A B} (l : list A) (b : B) body (Q : result B → W → Prop) C w :
  (∀ x b (Q' : result B → W → Prop), (∀ r, Q' r w) → wp (body x b) Q' C w) →
  (∀ r, Q r w) → wp (range_acc l b body) Q C w.
Proof.
  intros Hb HQ. revert b. induction l as [|x l IH]; intros b; simpl; [apply wp_ret, HQ|].
  apply wp_bindR, Hb. intros [b'|e]; [apply IH|apply HQ].
Qed.
End wp.

(** Symbolic execution of one monadic step. *)
Ltac wp_step :=
  match goal with
  | |- wp (mret _) _ _ _ => apply wp_ret
  | |- wp (get) _ _ _ => apply wp_get
  | |- wp (gets _) _ _ _ => apply wp_gets
  | |- wp (modify _) _ _ _ => apply wp_modify
  | |- wp (throw _) _ _ _ => apply wp_throw
  | |- wp (try_then _ _) _ _ _ => apply wp_try_then
  | |- wp (bindR _ _) _ _ _ => apply wp_bindR
  | |- wp (mbind _ _) _ _ _ => apply wp_bind
  end.
Ltac wp_steps := repeat (wp_step; cbn beta iota).
