(* ===== verification/GoStrings.v ===== *)
(** * Go's [strings] package

    The functions of Go's standard [strings] package that the bundler and its
    libraries call, on byte strings ([string] is a list of 8-bit [ascii], which
    is what a Go string is), and the facts about them the components share. *)

From S2P Require Import Prelude.


(** [strings.HasPrefix] is [String.prefix]. *)
Definition HasPrefix (s p : string) : bool := String.prefix p s.

(** What follows a prefix, when it is one. *)
Fixpoint strip_prefix (p s : string) : option string :=
  match p, s with
  | EmptyString, _ => Some s
  | String a p', String b s' => if decide (a = b) then strip_prefix p' s' else None
  | String _ _, EmptyString => None
  end.

(** What precedes a suffix, when it is one. *)
Fixpoint strip_suffix (p s : string) : option string :=
  if decide (s = p) then Some EmptyString
  else match s with
       | EmptyString => None
       | String c s' => String c <$> strip_suffix p s'
       end.

(** [strings.HasSuffix] *)
Definition HasSuffix (s p : string) : bool := bool_decide (is_Some (strip_suffix p s)).

(** [strings.Contains] *)
Fixpoint Contains (s sub : string) : bool :=
  String.prefix sub s ||
  match s with
  | EmptyString => false
  | String _ s' => Contains s' sub
  end.

(** Membership of a byte. *)
Fixpoint has_char (c : ascii) (s : string) : bool :=
  match s with
  | EmptyString => false
  | String d s' => bool_decide (c = d) || has_char c s'
  end.

(** [strings.Split(s, sep)] for a one-byte separator. *)
Fixpoint Split (s : string) (sep : ascii) : list string :=
  match s with
  | EmptyString => [EmptyString]
  | String c s' =>
      if decide (c = sep) then EmptyString :: Split s' sep
      else match Split s' sep with
           | [] => [String c EmptyString]
           | x :: xs => String c x :: xs
           end
  end.

(** Every byte satisfies a test. *)
Fixpoint all_chars (f : ascii → bool) (s : string) : bool :=
  match s with "" => true | String c s => f c && all_chars f s end.

(** The text before and after the first occurrence of a byte. *)
Fixpoint take_until (c : ascii) (s : string) : option (string * string) :=
  match s with
  | EmptyString => None
  | String d s' =>
      if decide (d = c) then Some ("", s')
      else match take_until c s' with
           | Some (a, b) => Some (String d a, b)
           | None => None
           end
  end.

(** [strings.Join] *)
Fixpoint Join (l : list string) (sep : string) : string :=
  match l with
  | [] => ""
  | [x] => x
  | x :: l' => x +:+ sep +:+ Join l' sep
  end.

(** [strings.Replace(s, old, new, n)], [old] not empty; [n = None] is the source's
    [-1] (no limit). [skip] counts the bytes of a match still to be dropped. *)
Fixpoint replace_go (skip : nat) (old new : string) (n : option nat) (s : string) : string :=
  match s with
  | EmptyString => EmptyString
  | String c s' =>
      match skip with
      | S k => replace_go k old new n s'
      | O =>
          if String.prefix old s && bool_decide (n ≠ Some 0)
          then new +:+ replace_go (String.length old - 1) old new (Nat.pred <$> n) s'
          else String c (replace_go 0 old new n s')
      end
  end.
Definition Replace (s old new : string) (n : option nat) : string :=
  replace_go 0 old new n s.

(** [strings.ToLower], [strings.ToUpper] on ASCII letters. *)
Definition lower_ascii (c : ascii) : ascii :=
  let n := nat_of_ascii c in
  if bool_decide (65 ≤ n ∧ n ≤ 90)%nat then ascii_of_nat (n + 32) else c.
Definition upper_ascii (c : ascii) : ascii :=
  let n := nat_of_ascii c in
  if bool_decide (97 ≤ n ∧ n ≤ 122)%nat then ascii_of_nat (n - 32) else c.
Fixpoint string_map (f : ascii → ascii) (s : string) : string :=
  match s with
  | EmptyString => EmptyString
  | String c s' => String (f c) (string_map f s')
  end.
Definition ToLower : string → string := string_map lower_ascii.
Definition ToUpper : string → string := string_map upper_ascii.

Definition slash : ascii := "/"%char.
Definition squote : ascii := "'"%char.
(** The line feed that ends every line the bundler writes. *)
Definition nl : string := String (ascii_of_nat 10) EmptyString.
Definition crlf : string := String (ascii_of_nat 13) nl.
Definition dquote : string := String (ascii_of_nat 34) EmptyString.

(** ** Lemmas *)
#[local] Arguments String.append !_ _ / : simpl nomatch.

Lemma str_app_nil_l s : "" +:+ s = s.
Proof. done. Qed.

Lemma str_app_nil_r s : s +:+ "" = s.
Proof. induction s as [|c s IH]; [done|]. simpl. by rewrite IH. Qed.

Lemma str_app_assoc a b c : a +:+ (b +:+ c) = (a +:+ b) +:+ c.
Proof. induction a as [|x a IH]; [done|]. simpl. by rewrite IH. Qed.

Lemma str_app_cons x a b : String x a +:+ b = String x (a +:+ b).
Proof. done. Qed.

Lemma str_length_app a b : String.length (a +:+ b) = String.length a + String.length b.
Proof. induction a as [|x a IH]; [done|]. simpl. by rewrite IH. Qed.

Lemma str_app_inj_l p a b : p +:+ a = p +:+ b → a = b.
Proof. induction p as [|x p IH]; [done|]. simpl. intros [=]. by apply IH. Qed.

Lemma str_app_inj_r p a b : a +:+ p = b +:+ p → a = b.
Proof.
  revert b. induction a as [|x a IH]; intros [|y b]; simpl; intros H; simplify_eq; try done.
  - apply (f_equal String.length) in H. rewrite /= str_length_app in H. lia.
  - apply (f_equal String.length) in H. rewrite /= str_length_app in H. lia.
  - f_equal. by apply IH.
Qed.

Lemma str_app_eq_nil a b : a +:+ b = "" → a = "" ∧ b = "".
Proof. by destruct a. Qed.

Lemma strip_prefix_app p s : strip_prefix p (p +:+ s) = Some s.
Proof. induction p as [|c p IH]; [done|]. simpl. by rewrite decide_True. Qed.

Lemma strip_prefix_Some p s r : strip_prefix p s = Some r ↔ s = p +:+ r.
Proof.
  split; [|intros ->; apply strip_prefix_app].
  revert s. induction p as [|c p IH]; intros [|d s]; simpl; intros H; simplify_eq; try done.
  case_decide; [|done]. subst. f_equal. by apply IH.
Qed.

Lemma prefix_strip p s : String.prefix p s = bool_decide (is_Some (strip_prefix p s)).
Proof.
  revert s. induction p as [|c p IH]; intros [|d s]; simpl.
  - done.
  - done.
  - done.
  - destruct (ascii_dec c d) as [->|Hne].
    + rewrite decide_True //.
    + by rewrite decide_False.
Qed.

Lemma HasPrefix_true s p : HasPrefix s p = true ↔ ∃ r, s = p +:+ r.
Proof.
  rewrite /HasPrefix prefix_strip bool_decide_eq_true. unfold is_Some.
  by setoid_rewrite strip_prefix_Some.
Qed.

Lemma HasPrefix_app p r : HasPrefix (p +:+ r) p = true.
Proof. apply HasPrefix_true. eauto. Qed.

Lemma strip_suffix_app p s : strip_suffix p (s +:+ p) = Some s.
Proof.
  induction s as [|c s IH]; cbn [strip_suffix String.append].
  - destruct p; cbn [strip_suffix]; by case_decide.
  - rewrite decide_False.
    + by rewrite IH.
    + intros H. apply (f_equal String.length) in H. rewrite /= str_length_app in H. lia.
Qed.

Lemma strip_suffix_Some p s r : strip_suffix p s = Some r ↔ s = r +:+ p.
Proof.
  split; [|intros ->; apply strip_suffix_app].
  revert r. induction s as [|c s IH]; intros r; cbn [strip_suffix]; case_decide as Hd; intros H;
    simplify_eq; try done.
  apply fmap_Some in H as (r' & H & ->). simpl. f_equal. by apply IH.
Qed.

Lemma HasSuffix_true s p : HasSuffix s p = true ↔ ∃ r, s = r +:+ p.
Proof.
  rewrite /HasSuffix bool_decide_eq_true. unfold is_Some.
  by setoid_rewrite strip_suffix_Some.
Qed.

Lemma Contains_true s sub : Contains s sub = true ↔ ∃ a b, s = a +:+ sub +:+ b.
Proof.
  split.
  - induction s as [|c s IH]; cbn [Contains]; rewrite orb_true_iff.
    + intros [H|H]; [|done]. apply (HasPrefix_true "" sub) in H as [r ->]. by exists "", r.
    + intros [H|H].
      * apply (HasPrefix_true (String c s) sub) in H as [r ->]. by exists "", r.
      * destruct (IH H) as (a & b & ->). by exists (String c a), b.
  - intros (a & b & ->). induction a as [|c a IH]; simpl.
    + destruct (sub +:+ b) eqn:E; cbn [Contains]; rewrite -E;
        rewrite (HasPrefix_app sub b : String.prefix sub (sub +:+ b) = true); done.
    + rewrite IH. apply orb_true_r.
Qed.

Lemma Contains_cons_false c s sub :
  Contains (String c s) sub = false → Contains s sub = false.
Proof. cbn [Contains]. by intros [_ ?]%orb_false_iff. Qed.

Lemma has_char_app c a b : has_char c (a +:+ b) = has_char c a || has_char c b.
Proof. induction a as [|d a IH]; [done|]. simpl. by rewrite IH orb_assoc. Qed.

Lemma has_char_true c s : has_char c s = true ↔ ∃ a b, s = a +:+ String c b.
Proof.
  split.
  - induction s as [|d s IH]; simpl; [done|]. rewrite orb_true_iff bool_decide_eq_true.
    intros [->|H]; [by exists "", s|]. destruct (IH H) as (a & b & ->). by exists (String d a), b.
  - intros (a & b & ->). rewrite has_char_app /=. by rewrite bool_decide_eq_true_2 // orb_true_r.
Qed.

Lemma all_chars_app f a b : all_chars f (a +:+ b) = all_chars f a && all_chars f b.
Proof. induction a as [|c a IH]; [done|]. by rewrite /= IH andb_assoc. Qed.
Lemma all_chars_has f d s : all_chars f s = true → f d = false → has_char d s = false.
Proof.
  intros Hs Hd. induction s as [|c s IH]; [done|]. cbn in *. apply andb_true_iff in Hs as [Hc Hs].
  rewrite (IH Hs) orb_false_r. apply bool_decide_eq_false. congruence.
Qed.

(** Two decompositions around the first occurrence of a byte agree. *)
Lemma first_char_inj c a a' b b' :
  has_char c a = false → has_char c a' = false →
  a +:+ String c b = a' +:+ String c b' → a = a' ∧ b = b'.
Proof.
  revert a'. induction a as [|x a IH]; intros [|x' a']; simpl; intros H1 H2 H;
    injection H; intros; subst.
  - done.
  - rewrite bool_decide_eq_true_2 // in H2.
  - rewrite bool_decide_eq_true_2 // in H1.
  - apply orb_false_iff in H1 as [_ H1], H2 as [_ H2].
    destruct (IH a' H1 H2) as [-> ->]; done.
Qed.

Lemma Split_not_nil s c : Split s c ≠ [].
Proof. destruct s; simpl; [done|]. case_decide; [done|]. by destruct (Split s c). Qed.

Lemma Join_Split s c : Join (Split s c) (String c "") = s.
Proof.
  induction s as [|d s IH]; [done|]. cbn [Split]. case_decide as H.
  - subst. destruct (Split s c) as [|x xs] eqn:E; [by destruct (Split_not_nil s c)|].
    change (String c (Join (x :: xs) (String c "")) = String c s). by rewrite IH.
  - destruct (Split s c) as [|x xs] eqn:E; [by destruct (Split_not_nil s c)|].
    rewrite -IH. by destruct xs.
Qed.

Lemma Split_no_sep s c x : x ∈ Split s c → has_char c x = false.
Proof.
  revert x. induction s as [|d s IH]; intros x; cbn [Split].
  - by intros ->%list_elem_of_singleton.
  - case_decide as H.
    + intros [->|Hx]%elem_of_cons; [done|]. by apply IH.
    + destruct (Split s c) as [|y ys] eqn:E.
      * intros ->%list_elem_of_singleton. simpl. by rewrite bool_decide_eq_false_2.
      * intros [->|Hx]%elem_of_cons; simpl.
        -- rewrite bool_decide_eq_false_2 //. apply IH. left.
        -- apply IH. by right.
Qed.

Lemma Split_no_char s c : has_char c s = false → Split s c = [s].
Proof.
  induction s as [|d s IH]; [done|]. cbn [has_char Split].
  intros [H1 H2]%orb_false_iff. apply bool_decide_eq_false_1 in H1.
  rewrite decide_False; [|done]. by rewrite IH.
Qed.

Lemma Split_app x s c : has_char c x = false → Split (x +:+ String c s) c = x :: Split s c.
Proof.
  induction x as [|d x IH]; cbn [has_char String.append Split].
  - intros _. by rewrite decide_True.
  - intros [H1 H2]%orb_false_iff. apply bool_decide_eq_false_1 in H1.
    rewrite decide_False; [|done]. by rewrite IH.
Qed.

Lemma Split_Join l c :
  l ≠ [] → Forall (λ x, has_char c x = false) l → Split (Join l (String c "")) c = l.
Proof.
  intros Hne Hl. induction Hl as [|x l Hx Hl IH]; [done|].
  destruct l as [|y l]; [by apply Split_no_char|].
  cbn [Join]. cbn [String.append]. rewrite Split_app //. f_equal. by apply IH.
Qed.

(** With the searched text absent, [Replace] is the identity. *)
Lemma Replace_absent s old new n : Contains s old = false → Replace s old new n = s.
Proof.
  rewrite /Replace. induction s as [|c s IH]; [done|]. intros H.
  pose proof H as [Hp _]%orb_false_iff. cbn [replace_go]. rewrite Hp /=. f_equal.
  apply IH. by eapply Contains_cons_false.
Qed.

Lemma Contains_app_false s a b : Contains s a = false → Contains s (a +:+ b) = false.
Proof.
  intros H. apply not_true_iff_false. intros (x & y & ->)%Contains_true.
  apply not_true_iff_false in H. apply H, Contains_true. exists x, (b +:+ y).
  by rewrite !str_app_assoc.
Qed.

(** ** Splitting at the first occurrence *)
Lemma take_until_app c a b : has_char c a = false → take_until c (a +:+ String c b) = Some (a, b).
Proof.
  induction a as [|d a IH]; cbn [has_char String.append take_until].
  - by rewrite decide_True.
  - intros [Hd Ha]%orb_false_iff. apply bool_decide_eq_false in Hd.
    rewrite decide_False; [|congruence]. by rewrite IH.
Qed.

Lemma take_until_length c s a b :
  take_until c s = Some (a, b) → String.length s = S (String.length a + String.length b).
Proof.
  revert a. induction s as [|d s IH]; intros a; cbn [take_until]; [done|].
  case_decide; [intros [= <- <-]; done|]. destruct (take_until c s) as [[x y]|]; [|done].
  intros [= <- <-]. simpl. by rewrite (IH x).
Qed.
