(* ===== verification/GoFloat.v ===== *)
(** * Go's [strconv.ParseFloat]

    The decimal reader of Go's standard library, as far as its callers look at the
    result: whether there is an error (the Siphonfile's version), and the sign of
    the value (the quality values of an Accept-Encoding header). *)

From S2P Require Import Prelude GoStrings.

(** ** [strconv.ParseFloat(s, 64)]: is the error nil? *)
Definition is_digit (c : ascii) : bool :=
  let n := nat_of_ascii c in bool_decide (48 ≤ n ∧ n ≤ 57)%nat.
Definition digit_val (c : ascii) : Z := (Z.of_nat (nat_of_ascii c) - 48)%Z.

(** The special values, without regard to case. *)
Definition special (s : string) : bool :=
  bool_decide (ToLower s ∈ ["+inf"; "+infinity"; "-inf"; "-infinity"; "inf"; "infinity"; "nan"]).

(** Reads digits: their value, how many, and the rest. *)
Fixpoint read_digits (s : string) (acc : Z) (n : nat) : Z * nat * string :=
  match s with
  | String c s' =>
      if is_digit c then read_digits s' (acc * 10 + digit_val c)%Z (S n) else (acc, n, s)
  | EmptyString => (acc, n, s)
  end.

(** Exponent digits; the value stops growing once it reaches 10000. *)
Fixpoint read_exp (s : string) (acc : Z) (n : nat) : Z * nat * string :=
  match s with
  | String c s' =>
      if is_digit c
      then read_exp s' (if decide (acc < 10000)%Z then acc * 10 + digit_val c else acc)%Z (S n)
      else (acc, n, s)
  | EmptyString => (acc, n, s)
  end.

Definition strip_sign (s : string) : bool * string :=
  match s with
  | String c s' =>
      if decide (c = "+"%char) then (false, s')
      else if decide (c = "-"%char) then (true, s') else (false, s)
  | EmptyString => (false, s)
  end.

(** The exponent part, when there is one: its value and the rest. *)
Definition read_exponent (s : string) : option (Z * string) :=
  match s with
  | String c s' =>
      if decide (c = "e"%char ∨ c = "E"%char) then
        let '(neg, s'') := strip_sign s' in
        let '(e, n, rest) := read_exp s'' 0 0 in
        if decide (n = 0) then None else Some ((if neg then - e else e)%Z, rest)
      else Some (0%Z, s)
  | EmptyString => Some (0%Z, s)
  end.

(** Mantissa and decimal exponent of a whole string in decimal notation. *)
Definition read_float (s : string) : option (Z * Z) :=
  let '(_, s) := strip_sign s in
  let '(m, n1, s) := read_digits s 0 0 in
  let '(m, n2, s) :=
    match s with
    | String c s' => if decide (c = "."%char) then read_digits s' m 0 else (m, 0, s)
    | EmptyString => (m, 0, s)
    end in
  if decide (n1 + n2 = 0) then None
  else match read_exponent s with
       | Some (e, EmptyString) => Some (m, e - Z.of_nat n2)%Z
       | _ => None
       end.

(** The value rounds to infinity: at least [2^1024 - 2^970]. *)
Definition overflows (m e : Z) : bool :=
  let bound := (2 ^ 1024 - 2 ^ 970)%Z in
  if decide (0 ≤ e)%Z then bool_decide (bound ≤ m * 10 ^ e)%Z
  else bool_decide (bound * 10 ^ (- e) ≤ m)%Z.

Definition ParseFloat_ok (s : string) : bool :=
  special s || match read_float s with Some (m, e) => negb (overflows m e) | None => false end.

(** The sign of the value returned for an accepted string: the decimal value may
    round to zero (at most half the least denormal, [2^-1075]). *)
Inductive fsign := FNeg | FZero | FPos | FNaN.

Definition underflows (m e : Z) : bool :=
  bool_decide (m = 0)%Z ||
  (bool_decide (e < 0)%Z && bool_decide (m * 2 ^ 1075 ≤ 10 ^ (- e))%Z).

Definition ParseFloat_sign (s : string) : fsign :=
  if special s then
    if decide (ToLower s = "nan") then FNaN
    else if (strip_sign s).1 then FNeg else FPos
  else
    match read_float s with
    | Some (m, e) =>
        if underflows m e then FZero else if (strip_sign s).1 then FNeg else FPos
    | None => FZero
    end.

(** Bytes a shell passes through unchanged. *)
Definition shell_safe_char (c : ascii) : bool :=
  is_digit c || bool_decide (c ∈ ["+"; "-"; "."]%char) ||
  bool_decide (97 ≤ nat_of_ascii (lower_ascii c) ∧ nat_of_ascii (lower_ascii c) ≤ 122)%nat.
Fixpoint shell_safe (s : string) : bool :=
  match s with
  | EmptyString => true
  | String c s' => shell_safe_char c && shell_safe s'
  end.

(** A string is shell-safe when its lower-case form is one of the special values. *)
Lemma shell_safe_lower s t : ToLower s = t → shell_safe (ToLower s) = true → shell_safe s = true.
Proof.
  intros _. induction s as [|c s IH]; [done|]. cbn [ToLower string_map shell_safe].
  rewrite !andb_true_iff. intros [Hc Hs]. split; [|by apply IH]. clear -Hc. revert Hc.
  by destruct c as [[][][][][][][][]]; vm_compute.
Qed.

Lemma read_digits_safe s acc n m k rest :
  read_digits s acc n = (m, k, rest) → shell_safe rest = true → shell_safe s = true.
Proof.
  revert acc n. induction s as [|c s IH]; intros acc n; simpl; [by intros [= _ _ <-]|].
  destruct (is_digit c) eqn:Hd; [|by intros [= _ _ <-]].
  intros E Hr. rewrite (IH _ _ E Hr). by rewrite /shell_safe_char Hd.
Qed.

Lemma read_exp_safe s acc n m k rest :
  read_exp s acc n = (m, k, rest) → shell_safe rest = true → shell_safe s = true.
Proof.
  revert acc n. induction s as [|c s IH]; intros acc n; simpl; [by intros [= _ _ <-]|].
  destruct (is_digit c) eqn:Hd; [|by intros [= _ _ <-]].
  intros E Hr. rewrite (IH _ _ E Hr). by rewrite /shell_safe_char Hd.
Qed.

Lemma strip_sign_safe s b rest : strip_sign s = (b, rest) → shell_safe rest = true → shell_safe s = true.
Proof.
  destruct s as [|c s]; simpl; [by intros [= _ <-]|]. repeat case_decide; subst.
  - by intros [= _ <-] ->.
  - by intros [= _ <-] ->.
  - by intros [= _ <-].
Qed.

Lemma read_exponent_safe s e rest :
  read_exponent s = Some (e, rest) → shell_safe rest = true → shell_safe s = true.
Proof.
  destruct s as [|c s]; simpl; [by intros [= _ <-]|]. case_decide as Hc; [|by intros [= _ <-]].
  destruct (strip_sign s) as [neg s'] eqn:Es. destruct (read_exp s' 0 0) as [[m k] r] eqn:Ee.
  case_decide; [done|]. intros [= _ ->] Hr.
  rewrite (strip_sign_safe _ _ _ Es); [|by eapply read_exp_safe]. by destruct Hc as [-> | ->].
Qed.

Lemma ParseFloat_safe s : ParseFloat_ok s = true → shell_safe s = true.
Proof.
  rewrite /ParseFloat_ok orb_true_iff /special bool_decide_eq_true. intros [Hs|Hf].
  { eapply shell_safe_lower; [done|]. revert Hs. generalize (ToLower s) as t. intros t Ht.
    set_unfold in Ht. by repeat destruct Ht as [->|Ht]. }
  destruct (read_float s) as [[m e]|] eqn:Er; [|done]. clear Hf. revert Er. rewrite /read_float.
  destruct (strip_sign s) as [neg s1] eqn:E1. destruct (read_digits s1 0 0) as [[m1 n1] s2] eqn:E2.
  assert (shell_safe s2 = true → shell_safe s = true) as H2.
  { intros ?. eapply strip_sign_safe; [done|]. by eapply read_digits_safe. }
  destruct s2 as [|c s3].
  { by intros _; apply H2. }
  case_decide as Hc.
  - subst c. destruct (read_digits s3 m1 0) as [[m2 n2] s4] eqn:E3. case_decide; [done|].
    destruct (read_exponent s4) as [[e' []]|] eqn:E4; try done. intros _. apply H2. simpl.
    eapply read_digits_safe; [done|]. by eapply read_exponent_safe.
  - case_decide; [done|]. destruct (read_exponent _) as [[e' []]|] eqn:E4; try done. intros _.
    apply H2. by eapply read_exponent_safe.
Qed.
