(* ===== verification/GoPath.v ===== *)
(** * Go's [path] and [path/filepath] packages (Unix)

    Lexical path processing as the bundler uses it: [Clean], [Join], [Dir],
    [Ext] and [Rel], with the facts from which path confinement follows. *)

From S2P Require Import Prelude GoStrings.


(** The components of a path that name something. *)
Definition comps (p : string) : list string :=
  filter (λ c, c ≠ "" ∧ c ≠ ".") (Split p slash).

Definition rooted (p : string) : bool := HasPrefix p "/".

(** [path.Clean]'s scan: [st] is the output so far, last component first. *)
Fixpoint clean_go (r : bool) (st l : list string) : list string :=
  match l with
  | [] => st
  | c :: l =>
      if decide (c = "..") then
        match st with
        | [] => clean_go r (if r then [] else [".."]) l
        | t :: st' => if decide (t = "..") then clean_go r (".." :: st) l else clean_go r st' l
        end
      else clean_go r (c :: st) l
  end.

Definition clean_comps (p : string) : list string := rev (clean_go (rooted p) [] (comps p)).

Definition unroot (r : bool) (l : list string) : string :=
  let out := (if r then "/" else "") +:+ Join l "/" in
  if decide (out = "") then "." else out.

(** [path.Clean], [filepath.Clean] *)
Definition Clean (p : string) : string := unroot (rooted p) (clean_comps p).

Fixpoint drop_empty (l : list string) : list string :=
  match l with
  | "" :: l => drop_empty l
  | _ => l
  end.

(** [path.Join], [filepath.Join] *)
Definition PathJoin (elem : list string) : string :=
  match drop_empty elem with
  | [] => ""
  | l => Clean (Join l "/")
  end.

(** [filepath.Dir] *)
Definition Dir (p : string) : string :=
  match removelast (Split p slash) with
  | [] => Clean ""
  | l => Clean (Join l "/" +:+ "/")
  end.

(** [path.Ext]: from the last dot of the last path element. *)
Definition Ext (p : string) : string :=
  let x := List.last (Split p slash) "" in
  match Split x "."%char with
  | [_] => ""
  | l => "." +:+ List.last l ""
  end.

Fixpoint drop_common (a b : list string) : list string * list string :=
  match a, b with
  | x :: a', y :: b' => if decide (x = y) then drop_common a' b' else (a, b)
  | _, _ => (a, b)
  end.

(** [filepath.Rel] *)
Definition Rel (basepath targpath : string) : result string :=
  let base := Clean basepath in
  let targ := Clean targpath in
  if decide (targ = base) then Ok "."
  else
    let base := if decide (base = ".") then "" else base in
    if decide (rooted base = rooted targ) then
      let '(b, t) := drop_common (comps base) (comps targ) in
      match b with
      | ".." :: _ => Err (ErrorS ("Rel: can't make " +:+ targ +:+ " relative to " +:+ base))
      | _ => Ok (Join (replicate (length b) ".." ++ t) "/")
      end
    else Err (ErrorS ("Rel: can't make " +:+ targ +:+ " relative to " +:+ base)).

(** ** Lemmas *)
#[local] Arguments String.append !_ _ / : simpl nomatch.

Lemma Split_app_sep a b c : Split (a +:+ String c b) c = Split a c ++ Split b c.
Proof.
  induction a as [|x a IH]; cbn [String.append Split].
  - by rewrite decide_True.
  - case_decide; [by rewrite IH|]. rewrite IH.
    destruct (Split a c) eqn:E; [by destruct (Split_not_nil a c)|]. done.
Qed.

Lemma comps_app a b : comps (a +:+ "/" +:+ b) = comps a ++ comps b.
Proof. rewrite /comps (Split_app_sep a b slash : Split (a +:+ "/" +:+ b) slash = _). apply filter_app. Qed.

Lemma Split_substring s c x : x ∈ Split s c → ∃ a b, s = a +:+ x +:+ b.
Proof.
  revert x. induction s as [|d s IH]; intros x; cbn [Split].
  - intros ->%list_elem_of_singleton. by exists "", "".
  - case_decide as H.
    + intros [->|Hx]%elem_of_cons; [by exists "", (String d s)|].
      destruct (IH x Hx) as (a & b & ->). by exists (String d a), b.
    + destruct (Split s c) as [|y ys] eqn:E; [by destruct (Split_not_nil s c)|].
      intros [->|Hx]%elem_of_cons.
      * exists "". exists (match ys with [] => "" | _ => String c (Join ys (String c "")) end).
        rewrite -{1}(Join_Split s c) E. simpl. destruct ys; [by rewrite str_app_nil_r|done].
      * destruct (IH x) as (a & b & ->); [by right|]. by exists (String d a), b.
Qed.

Definition no_dotdot (l : list string) : Prop := ".." ∉ l.

Lemma comps_no_dotdot p : Contains p ".." = false → no_dotdot (comps p).
Proof.
  intros H [_ Hin]%list_elem_of_filter.
  apply Split_substring in Hin as (a & b & ->).
  assert (Contains (a +:+ ".." +:+ b) ".." = true) as Ht by (apply Contains_true; eauto).
  by rewrite Ht in H.
Qed.

Lemma clean_go_no_dotdot r st l : no_dotdot l → clean_go r st l = rev l ++ st.
Proof.
  revert st. induction l as [|c l IH]; intros st H; [done|]. simpl.
  apply not_elem_of_cons in H as [Hc Hl].
  rewrite decide_False; [|done]. rewrite IH //. by rewrite -app_assoc.
Qed.

Lemma clean_comps_no_dotdot p : no_dotdot (comps p) → clean_comps p = comps p.
Proof.
  intros H. by rewrite /clean_comps clean_go_no_dotdot // app_nil_r rev_involutive.
Qed.

(** A component as it appears in a cleaned path. *)
Definition good_comp (c : string) : Prop := c ≠ "" ∧ c ≠ "." ∧ has_char slash c = false.

Lemma comps_good p : Forall good_comp (comps p).
Proof.
  apply Forall_forall. intros c [[H1 H2] Hin]%list_elem_of_filter.
  split; [done|]. split; [done|]. by eapply Split_no_sep.
Qed.

Lemma clean_go_good r st l :
  Forall good_comp st → Forall good_comp l → Forall good_comp (clean_go r st l).
Proof.
  revert st. induction l as [|c l IH]; intros st Hst Hl; [done|].
  apply Forall_cons in Hl as [Hc Hl]. simpl. case_decide; [|by apply IH; [constructor|]].
  subst. destruct st as [|t st].
  - apply IH; [|done]. destruct r; [done|]. by constructor.
  - case_decide; apply IH; try done; [by constructor|]. by apply Forall_cons in Hst as [_ ?].
Qed.

Lemma clean_comps_good p : Forall good_comp (clean_comps p).
Proof.
  rewrite /clean_comps. apply Forall_rev, clean_go_good; [constructor|apply comps_good].
Qed.

Lemma filter_good l : Forall good_comp l → filter (λ c, c ≠ "" ∧ c ≠ ".") l = l.
Proof.
  induction 1 as [|c l (H1 & H2 & _) _ IH]; [done|].
  rewrite filter_cons decide_True //. by rewrite IH.
Qed.

Lemma comps_Join_good l : Forall good_comp l → comps (Join l "/") = l.
Proof.
  intros H. destruct (decide (l = [])) as [->|Hne]; [done|].
  rewrite /comps (Split_Join l slash) //; [|by eapply Forall_impl; [done|]; intros ? (? & ? & ?)].
  by apply filter_good.
Qed.

Lemma comps_unroot r l : Forall good_comp l → comps (unroot r l) = l.
Proof.
  intros H. rewrite /unroot. case_decide as E.
  - destruct r; [done|]. rewrite str_app_nil_l in E.
    destruct l as [|x l]; [done|]. exfalso. apply Forall_cons in H as [(Hx & _) _].
    destruct l; simpl in E; [done|]. by apply str_app_eq_nil in E as [-> _].
  - destruct r.
    + rewrite -{2}(comps_Join_good l H). apply (comps_app "").
    + rewrite str_app_nil_l. by apply comps_Join_good.
Qed.

(** The components of a cleaned path are the ones the scan left. *)
Lemma comps_Clean p : comps (Clean p) = clean_comps p.
Proof. apply comps_unroot, clean_comps_good. Qed.

Lemma rooted_Clean p : rooted p = true → rooted (Clean p) = true.
Proof.
  intros H. rewrite /Clean /unroot H. case_decide as E; [done|].
  rewrite /rooted. apply HasPrefix_app.
Qed.

Lemma rooted_app a b : rooted a = true → rooted (a +:+ b) = true.
Proof.
  rewrite /rooted !HasPrefix_true. intros [r ->]. exists (r +:+ b). by rewrite str_app_assoc.
Qed.

Lemma rooted_not_nil a : rooted a = true → a ≠ "".
Proof. by intros H ->. Qed.

(** Joining under a rooted directory. *)
Lemma PathJoin_rooted d n : rooted d = true → PathJoin [d; n] = Clean (d +:+ "/" +:+ n).
Proof.
  intros H. rewrite /PathJoin. by destruct d.
Qed.

Lemma PathJoin3_rooted d m n :
  rooted d = true → PathJoin [d; m; n] = Clean (d +:+ "/" +:+ (m +:+ "/" +:+ n)).
Proof. intros H. rewrite /PathJoin. by destruct d. Qed.

Lemma comps_PathJoin d n :
  rooted d = true →
  comps (PathJoin [d; n]) = rev (clean_go true [] (comps d ++ comps n)).
Proof.
  intros H. rewrite PathJoin_rooted // comps_Clean /clean_comps comps_app.
  by rewrite (rooted_app d).
Qed.

(** Confinement: without a [..] component, the joined path stays below [d]. *)
Lemma comps_PathJoin_confined d n :
  rooted d = true → no_dotdot (comps d) → no_dotdot (comps n) →
  comps (PathJoin [d; n]) = comps d ++ comps n.
Proof.
  intros Hr Hd Hn. rewrite comps_PathJoin // clean_go_no_dotdot.
  - by rewrite app_nil_r rev_involutive.
  - rewrite /no_dotdot elem_of_app. by intros [?|?].
Qed.

Lemma no_dotdot_Clean p : no_dotdot (comps p) → comps (Clean p) = comps p.
Proof. intros H. by rewrite comps_Clean clean_comps_no_dotdot. Qed.

Lemma rooted_PathJoin d n : rooted d = true → rooted (PathJoin [d; n]) = true.
Proof. intros H. rewrite PathJoin_rooted //. by apply rooted_Clean, rooted_app. Qed.

(** The directory part of a cleaned rooted path. *)
Lemma comps_Dir l :
  Forall good_comp l → no_dotdot l → l ≠ [] →
  comps (Dir (unroot true l)) = removelast l ∧ rooted (Dir (unroot true l)) = true.
Proof.
  intros Hg Hdd Hne.
  assert (Split (unroot true l) slash = "" :: l) as Hs.
  { rewrite /unroot. case_decide as E; [done|].
    change (Split ("" +:+ String slash (Join l "/")) slash = "" :: l).
    rewrite Split_app //. f_equal. apply (Split_Join l slash); [done|].
    eapply Forall_impl; [exact Hg|]. by intros c (_ & _ & ?). }
  rewrite /Dir Hs. destruct l as [|x l _] using rev_ind; [done|].
  change ("" :: l ++ [x]) with (("" :: l) ++ [x]). rewrite !removelast_last.
  apply Forall_app in Hg as [Hg _].
  assert (no_dotdot l) as Hdd' by (intros Hin; apply Hdd, elem_of_app; by left).
  assert (comps (Join ("" :: l) "/" +:+ "/") = l) as Hc.
  { rewrite (comps_app (Join ("" :: l) "/") "") app_nil_r.
    destruct l as [|y l]; [reflexivity|].
    by rewrite (comps_app "" (Join (y :: l) "/") : comps (Join ("" :: y :: l) "/") = _) comps_Join_good. }
  split.
  - rewrite no_dotdot_Clean Hc //.
  - apply rooted_Clean. destruct l as [|y l]; [done|]. apply (HasPrefix_app "/").
Qed.

Lemma Clean_unroot p : rooted p = true → Clean p = unroot true (clean_comps p).
Proof. intros H. by rewrite /Clean H. Qed.

Lemma comps_Dir_PathJoin d n :
  rooted d = true → no_dotdot (comps d ++ comps n) → comps d ++ comps n ≠ [] →
  comps (Dir (PathJoin [d; n])) = removelast (comps d ++ comps n) ∧
  rooted (Dir (PathJoin [d; n])) = true.
Proof.
  intros Hr Hdd Hne. rewrite PathJoin_rooted // Clean_unroot; [|by apply rooted_app].
  rewrite clean_comps_no_dotdot comps_app //. apply comps_Dir; try done.
  apply Forall_app; split; apply comps_good.
Qed.

(** ** Names without a [../] inside *)

Lemma Split_not_last s c xs y x :
  Split s c = xs ++ [y] → x ∈ xs → ∃ a b, s = a +:+ x +:+ String c b.
Proof.
  revert xs x. induction s as [|d s IH]; intros xs x; cbn [Split].
  - destruct xs as [|z [|]]; [by intros _ ?%elem_of_nil|done..].
  - case_decide as Hd.
    + destruct xs as [|z xs]; [by intros _ ?%elem_of_nil|]. intros [= <- E].
      intros [->|Hx]%elem_of_cons; [exists "", s; by subst|].
      destruct (IH xs x E Hx) as (a & b & ->). by exists (String d a), b.
    + destruct (Split s c) as [|z zs] eqn:E; [by destruct (Split_not_nil s c)|].
      destruct xs as [|z' xs]; [by intros _ ?%elem_of_nil|]. intros [= <- ->] Hx.
      apply elem_of_cons in Hx as [->|Hx].
      * destruct (IH (z :: xs) z eq_refl) as (a & b & Hs); [by left|].
        pose proof (Split_no_sep s c z) as Hz. rewrite E in Hz. specialize (Hz ltac:(by left)).
        assert (s = z +:+ String c (Join (xs ++ [y]) (String c ""))) as Hs'.
        { rewrite -{1}(Join_Split s c) E. by destruct xs. }
        exists "", (Join (xs ++ [y]) (String c "")). by rewrite {1}Hs'.
      * destruct (IH (z :: xs) x eq_refl) as (a & b & ->); [by right|]. by exists (String d a), b.
Qed.

(** A name without [../] has at most one [..], and then as its last component. *)
Lemma comps_no_dotdot_slash p :
  Contains p "../" = false →
  ∃ l, no_dotdot l ∧ (comps p = l ∨ comps p = l ++ [".."]).
Proof.
  intros Hc. rewrite /comps. destruct (exists_last (Split_not_nil p slash)) as (xs & y & E).
  assert (no_dotdot xs) as Hxs.
  { intros Hin. destruct (Split_not_last _ _ _ _ _ E Hin) as (a & b & ->).
    assert (Contains (a +:+ ".." +:+ String slash b) "../" = true); [|congruence].
    apply Contains_true. by exists a, b. }
  rewrite E filter_app. set (P := λ c : string, c ≠ "" ∧ c ≠ ".").
  assert (no_dotdot (filter P xs)) as Hf by (intros [_ ?]%list_elem_of_filter; done).
  destruct (decide (y = "..")) as [->|Hy]; [by exists (filter P xs); eauto|].
  exists (filter P xs ++ filter P [y]). split; [|by left].
  rewrite /no_dotdot elem_of_app. intros [?|[_ Hin]%list_elem_of_filter]; [done|].
  apply list_elem_of_singleton in Hin. congruence.
Qed.

Lemma clean_go_app r st l1 l2 : clean_go r st (l1 ++ l2) = clean_go r (clean_go r st l1) l2.
Proof.
  revert st. induction l1 as [|c l1 IH]; intros st; [done|]. simpl.
  case_decide; [|by apply IH]. destruct st; [apply IH|]. case_decide; apply IH.
Qed.

(** Joining such a name below [d/m] stays below [d]. *)
Lemma comps_PathJoin3_below d m n :
  rooted d = true → no_dotdot (comps d) → comps m = [m] → m ≠ ".." → Contains n "../" = false →
  comps d `prefix_of` comps (PathJoin [d; m; n]).
Proof.
  intros Hr Hd Hm Hmd Hn. rewrite PathJoin3_rooted // comps_Clean /clean_comps !comps_app.
  rewrite (rooted_app d) // Hm. destruct (comps_no_dotdot_slash n Hn) as (l & Hl & Hc).
  assert (no_dotdot (comps d ++ [m] ++ l)) as Hdd.
  { rewrite /no_dotdot !elem_of_app list_elem_of_singleton. naive_solver. }
  destruct Hc as [-> | ->].
  - rewrite clean_go_no_dotdot // app_nil_r rev_involutive. by eexists.
  - replace (comps d ++ [m] ++ l ++ [".."]) with ((comps d ++ [m] ++ l) ++ [".."])
      by by rewrite -!app_assoc.
    rewrite clean_go_app (clean_go_no_dotdot true [] (_ ++ _)) // app_nil_r.
    destruct (exists_last (l := m :: l)) as (xs & y & E); [done|].
    change ([m] ++ l) with (m :: l). rewrite E app_assoc rev_app_distr /=.
    assert (y ≠ "..") as Hy.
    { intros ->. apply Hdd. change ([m] ++ l) with (m :: l). rewrite E !elem_of_app. right. right. by left. }
    rewrite decide_False // rev_involutive. by eexists.
Qed.
