(* ===== verification/GoUrl.v ===== *)
(** * Go's [net/url]: escaping

    [url.QueryEscape], and the facts about texts made byte by byte that escaping and
    signing share. *)

From S2P Require Import Prelude GoStrings.

Definition alnum (c : ascii) : bool :=
  has_char c "ABCDEFGHIJKLMNOPQRSTUVWXYZabcdefghijklmnopqrstuvwxyz0123456789".
Definition hexd (digits : string) (n : N) : ascii := default "0"%char (String.get (N.to_nat n) digits).
Definition hex_upper : string := "0123456789ABCDEF".
Definition percent (c : ascii) : string :=
  String "%"%char (String (hexd hex_upper (N.shiftr (N_of_ascii c) 4))
    (String (hexd hex_upper (N.land (N_of_ascii c) 15)) "")).
Fixpoint flat_map_str (f : ascii → string) (s : string) : string :=
  match s with "" => "" | String c s => f c +:+ flat_map_str f s end.

Definition query_char (c : ascii) : string :=
  if decide (c = " "%char) then "+"
  else if alnum c || has_char c "-_.~" then String c "" else percent c.
Definition QueryEscape : string → string := flat_map_str query_char.

(** ** Lemmas *)

(** A fact about one byte, checked for all 256. *)
Ltac all_bytes c := destruct c as [[] [] [] [] [] [] [] []]; vm_compute; try done.

Lemma flat_map_str_app f a b : flat_map_str f (a +:+ b) = flat_map_str f a +:+ flat_map_str f b.
Proof. induction a as [|c a IH]; [done|]. rewrite /= IH. by rewrite str_app_assoc. Qed.

Lemma all_chars_flat p q f s :
  (∀ c, p c = true → all_chars q (f c) = true) → all_chars p s = true → all_chars q (flat_map_str f s) = true.
Proof.
  intros Hf. induction s as [|c s IH]; [done|]. cbn. intros [Hc Hs]%andb_true_iff.
  by rewrite all_chars_app Hf // IH.
Qed.
Lemma all_chars_any s : all_chars (λ _, true) s = true.
Proof. by induction s. Qed.
Lemma all_chars_Join p l sep :
  all_chars p sep = true → Forall (λ x, all_chars p x = true) l → all_chars p (Join l sep) = true.
Proof.
  intros Hsep Hl. induction Hl as [|x l Hx Hl IH]; [done|]. destruct l; [done|].
  cbn [Join]. by rewrite !all_chars_app Hx Hsep.
Qed.

Lemma take_until_Some c s a b : take_until c s = Some (a, b) → s = a +:+ String c b.
Proof.
  revert a. induction s as [|x s IH]; intros a; cbn; [done|]. case_decide; [by intros [= <- <-]; subst|].
  destruct (take_until c s) as [[a' b']|]; [|done]. intros [= <- <-]. by rewrite (IH a').
Qed.

(** Two decompositions around the last occurrence of a byte agree. *)
Lemma last_char_inj c a a' b b' :
  has_char c b = false → has_char c b' = false →
  a +:+ String c b = a' +:+ String c b' → a = a' ∧ b = b'.
Proof.
  intros Hb Hb'. revert a'. induction a as [|x a IH]; intros [|x' a'] H; injection H; intros; subst; try done.
  - by rewrite has_char_app /= bool_decide_eq_true_2 // orb_true_r in Hb.
  - by rewrite has_char_app /= bool_decide_eq_true_2 // orb_true_r in Hb'.
  - destruct (IH a') as [-> ->]; done.
Qed.
