(* ===== verification/FileSys.v ===== *)
(** * The file system behind [os] and [io/ioutil]

    A tree of regular files, directories and symbolic links, keyed by the
    canonical component list of a path, with the operations of Go's [os] and
    [ioutil] packages that the bundler calls.  Symbolic links are followed the
    way the kernel follows them, at most [max_links] times. *)

From S2P Require Import Prelude GoStrings GoPath.

Inductive node :=
| NFile (content : string)
| NDir
| NLink (target : string).

#[export] Instance node_eq_dec : EqDecision node.
Proof. solve_decision. Defined.

Record fsys := mkFs {
  fs_nodes : gmap (list string) node;
  fs_cwd : list string;
}.

(** The kernel's limit on symbolic links followed in one lookup. *)
Definition max_links : nat := 40.

(** The root directory always exists. *)
Definition node_at (f : gmap (list string) node) (cp : list string) : option node :=
  match cp with [] => Some NDir | _ => f !! cp end.

(** Path walk: [cur] is canonical, [todo] the components left.  The result is the
    canonical path of the object, which need not exist if only its last component
    is missing. *)
Fixpoint walk (n : nat) (f : gmap (list string) node) : list string → list string → errno + list string :=
  fix go (cur todo : list string) {struct todo} : errno + list string :=
    match todo with
    | [] => inr cur
    | c :: rest =>
        if decide (c = "..") then go (removelast cur) rest
        else
          let p := cur ++ [c] in
          match f !! p with
          | Some NDir => go p rest
          | Some (NFile _) => if decide (rest = []) then inr p else inl ENOTDIR
          | None => if decide (rest = []) then inr p else inl ENOENT
          | Some (NLink t) =>
              match n with
              | O => inl ELOOP
              | S n' => walk n' f (if rooted t then [] else cur) (comps t ++ rest)
              end
          end
    end.

Definition start_dir (f : fsys) (p : string) : list string :=
  if rooted p then [] else fs_cwd f.

Definition resolve (f : fsys) (p : string) : errno + list string :=
  walk max_links (fs_nodes f) (start_dir f p) (comps p).

(** [os.Stat] *)
Definition Stat (f : fsys) (p : string) : result node :=
  match resolve f p with
  | inl e => Err (PathError "stat" p e)
  | inr cp =>
      match node_at (fs_nodes f) cp with
      | Some n => Ok n
      | None => Err (PathError "stat" p ENOENT)
      end
  end.

(** [os.IsNotExist] *)
Definition IsNotExist (e : error) : bool :=
  match e with PathError _ _ ENOENT => true | _ => false end.

(** [ioutil.ReadFile] *)
Definition ReadFile (f : fsys) (p : string) : result string :=
  match resolve f p with
  | inl e => Err (PathError "open" p e)
  | inr cp =>
      match node_at (fs_nodes f) cp with
      | Some (NFile b) => Ok b
      | Some _ => Err (PathError "read" p EISDIR)
      | None => Err (PathError "open" p ENOENT)
      end
  end.

Definition set_node (f : fsys) (cp : list string) (n : node) : fsys :=
  mkFs (<[cp := n]> (fs_nodes f)) (fs_cwd f).

(** [ioutil.WriteFile]; also [os.OpenFile(O_CREATE|O_TRUNC)] followed by a copy. *)
Definition WriteFile (f : fsys) (p b : string) : option error * fsys :=
  match resolve f p with
  | inl e => (Some (PathError "open" p e), f)
  | inr cp =>
      match node_at (fs_nodes f) cp with
      | Some NDir => (Some (PathError "open" p EISDIR), f)
      | Some (NLink _) => (Some (PathError "open" p ELOOP), f)
      | _ => (None, set_node f cp (NFile b))
      end
  end.

(** [os.MkdirAll] on the components of a cleaned path. *)
Fixpoint mkdir_go (f : fsys) (p : string) (cur todo : list string) : option error * fsys :=
  match todo with
  | [] => (None, f)
  | c :: rest =>
      if decide (c = "..") then mkdir_go f p (removelast cur) rest
      else
        match fs_nodes f !! (cur ++ [c]) with
        | None => mkdir_go (set_node f (cur ++ [c]) NDir) p (cur ++ [c]) rest
        | Some NDir => mkdir_go f p (cur ++ [c]) rest
        | Some (NFile _) => (Some (PathError "mkdir" p ENOTDIR), f)
        | Some (NLink _) =>
            match walk max_links (fs_nodes f) cur [c] with
            | inr q => if decide (node_at (fs_nodes f) q = Some NDir) then mkdir_go f p q rest
                       else (Some (PathError "mkdir" p EEXIST), f)
            | inl e => (Some (PathError "mkdir" p e), f)
            end
        end
  end.
Definition MkdirAll (f : fsys) (p : string) : option error * fsys :=
  mkdir_go f p (start_dir f p) (comps p).

(** [os.Symlink(target, p)] *)
Definition Symlink (f : fsys) (target p : string) : option error * fsys :=
  match List.last (comps p) "", removelast (comps p) with
  | "", _ => (Some (PathError "symlink" p EEXIST), f)
  | c, dir =>
      match walk max_links (fs_nodes f) (start_dir f p) dir with
      | inl e => (Some (PathError "symlink" p e), f)
      | inr d =>
          match node_at (fs_nodes f) d, fs_nodes f !! (d ++ [c]) with
          | Some NDir, None => (None, set_node f (d ++ [c]) (NLink target))
          | Some NDir, Some _ => (Some (PathError "symlink" p EEXIST), f)
          | Some _, _ => (Some (PathError "symlink" p ENOTDIR), f)
          | None, _ => (Some (PathError "symlink" p ENOENT), f)
          end
      end
  end.

(** [os.RemoveAll]: the object itself (a link is not followed) and all below it. *)
Definition RemoveAll (f : fsys) (p : string) : option error * fsys :=
  if decide (p = "") then (None, f) else
  match List.last (comps p) "", removelast (comps p) with
  | "", _ => (Some (PathError "remove" p EIO), f)
  | c, dir =>
      match walk max_links (fs_nodes f) (start_dir f p) dir with
      | inl ENOENT => (None, f)
      | inl e => (Some (PathError "remove" p e), f)
      | inr d => (None, mkFs (filter (λ kv, ¬ (d ++ [c]) `prefix_of` kv.1) (fs_nodes f)) (fs_cwd f))
      end
  end.

(** ** Lemmas *)
#[global] Arguments walk : simpl never.

Section walk.
Implicit Types (f : gmap (list string) node) (cur todo cp : list string).

(** Unfolding one component of a walk. *)
Lemma walk_cons n f cur c rest :
  walk n f cur (c :: rest) =
    if decide (c = "..") then walk n f (removelast cur) rest
    else match f !! (cur ++ [c]) with
         | Some NDir => walk n f (cur ++ [c]) rest
         | Some (NFile _) => if decide (rest = []) then inr (cur ++ [c]) else inl ENOTDIR
         | None => if decide (rest = []) then inr (cur ++ [c]) else inl ENOENT
         | Some (NLink t) =>
             match n with
             | O => inl ELOOP
             | S n' => walk n' f (if rooted t then [] else cur) (comps t ++ rest)
             end
         end.
Proof. by destruct n. Qed.

Lemma walk_nil n f cur : walk n f cur [] = inr cur.
Proof. by destruct n. Qed.

(** Storing a regular file where there was none, or another regular file,
    changes no successful lookup. *)
Lemma walk_set_file n f cur todo cp q b :
  walk n f cur todo = inr q →
  (∀ x, f !! cp = Some x → ∃ b', x = NFile b') →
  walk n (<[cp := NFile b]> f) cur todo = inr q.
Proof.
  intros Hw Hcp. revert cur todo Hw. induction n as [n IHn] using lt_wf_ind.
  intros cur todo. revert cur. induction todo as [|c rest IH]; intros cur.
  { by rewrite !walk_nil. }
  rewrite !walk_cons. case_decide; [by apply IH|].
  destruct (decide (cp = cur ++ [c])) as [->|Hne].
  - rewrite lookup_insert_eq. destruct (f !! (cur ++ [c])) as [x|] eqn:E.
    + destruct (Hcp x) as [b' ->]; [done|]. by case_decide.
    + by case_decide.
  - rewrite lookup_insert_ne //. destruct (f !! (cur ++ [c])) as [[]|]; try done; [by apply IH|].
    destruct n as [|n']; [done|]. apply IHn. lia.
Qed.

(** Nodes on a walk whose way is free of links. *)
Definition link_free f (pre todo : list string) : Prop :=
  ∀ k c t, todo !! k = Some c → f !! (pre ++ take (S k) todo) = Some (NLink t) → False.

Lemma walk_link_free n f cur todo q :
  no_dotdot todo → link_free f cur todo → walk n f cur todo = inr q → q = cur ++ todo.
Proof.
  revert cur. induction todo as [|c rest IH]; intros cur Hdd Hlf.
  { rewrite walk_nil app_nil_r. by intros [= ->]. }
  apply not_elem_of_cons in Hdd as [Hc Hdd]. rewrite walk_cons decide_False //.
  pose proof (Hlf 0 c) as H0. simpl in H0. rewrite take_0 in H0.
  assert (link_free f (cur ++ [c]) rest) as Hlf'.
  { intros k d t Hk. rewrite -app_assoc. apply (Hlf (S k) d). done. }
  destruct (f !! (cur ++ [c])) as [[b| |t]|] eqn:E.
  - case_decide; [subst; by intros [= <-]|done].
  - intros H. apply IH in H as ->; try done. by rewrite -app_assoc.
  - by destruct (H0 t eq_refl eq_refl).
  - case_decide; [subst; by intros [= <-]|done].
Qed.
End walk.

Lemma resolve_set_file f p q cp b :
  resolve f p = inr q →
  (∀ x, fs_nodes f !! cp = Some x → ∃ b', x = NFile b') →
  resolve (set_node f cp (NFile b)) p = inr q.
Proof. apply walk_set_file. Qed.

(** A successful write is read back. *)
Lemma WriteFile_ReadFile f p b f' : WriteFile f p b = (None, f') → ReadFile f' p = Ok b.
Proof.
  rewrite /WriteFile /ReadFile. destruct (resolve f p) as [|cp] eqn:Hr; [done|].
  destruct (node_at (fs_nodes f) cp) as [[b'| |t]|] eqn:Hn; try done; intros [= <-];
    (destruct cp as [|c cp]; [by simplify_eq/=|]); simpl in Hn;
    rewrite (resolve_set_file _ _ _ _ _ Hr); simpl;
    try (by rewrite lookup_insert_eq); intros x Hx; rewrite Hn in Hx; naive_solver.
Qed.

(** A write leaves every other file as it was. *)
Lemma WriteFile_frame f p b f' q c :
  WriteFile f p b = (None, f') → ReadFile f q = Ok c → resolve f q ≠ resolve f p →
  ReadFile f' q = Ok c.
Proof.
  rewrite /WriteFile /ReadFile. destruct (resolve f p) as [|cp] eqn:Hr; [done|].
  intros Hw Hq Hne. destruct (resolve f q) as [|cq] eqn:Hrq; [done|].
  assert (∃ n, f' = set_node f cp (NFile b) ∧ node_at (fs_nodes f) cp = n ∧
               cp ≠ [] ∧ (∀ x, fs_nodes f !! cp = Some x → ∃ b', x = NFile b'))
    as (n & -> & Hn & Hcp & Hx).
  { destruct (node_at (fs_nodes f) cp) as [[b'| |t]|] eqn:Hn; try done; injection Hw as <-;
      (destruct cp as [|x cp]; [done|]); simpl in Hn; eexists; (split; [done|]); rewrite Hn; naive_solver. }
  rewrite (resolve_set_file _ _ _ _ _ Hrq Hx).
  destruct cq as [|y cq]; [done|]. simpl. rewrite lookup_insert_ne //. congruence.
Qed.
