(* ===== verification/Context.v ===== *)
(** * gorilla/context: per-request values

    [src/github.com/gorilla/context/context.go].  The package keeps two global
    maps guarded by one mutex, [data] (request to values) and [datat] (request to
    the time of its first value).  A request is identified by its address, here
    a natural number.  Every exported function locks, acts on the maps and
    unlocks, so each is one atomic step on the state below. *)

From S2P Require Import Prelude.

(** Keys and values are [interface{}]: the dynamic type is part of the key, so
    the bundler's [int] keys never collide with mux's [contextKey]s. *)
Inductive ctxkey := KInt (n : Z) | KMux (n : Z).
Inductive ctxval := VStr (s : string) | VVars (m : gmap string string) | VRoute (idx : nat).

#[export] Instance ctxkey_eq_dec : EqDecision ctxkey.
Proof. solve_decision. Defined.
#[export] Instance ctxval_eq_dec : EqDecision ctxval.
Proof. solve_decision. Defined.
#[export] Instance ctxkey_countable : Countable ctxkey.
Proof.
  refine (inj_countable' (λ k, match k with KInt n => inl n | KMux n => inr n end)
            (λ s, match s with inl n => KInt n | inr n => KMux n end) _). by intros [].
Defined.

Module Context.

Record store := mkStore {
  data : gmap nat (gmap ctxkey ctxval);
  datat : gmap nat Z;
}.

Definition empty : store := mkStore ∅ ∅.

(** [Set(r, key, val)] at time [now]. *)
Definition Set_ (now : Z) (r : nat) (key : ctxkey) (val : ctxval) (s : store) : store :=
  let s := match data s !! r with
           | None => mkStore (<[r := ∅]> (data s)) (<[r := now]> (datat s))
           | Some _ => s
           end in
  mkStore (alter (λ m, <[key := val]> m) r (data s)) (datat s).

(** [Get]: [None] is Go's [nil]. *)
Definition Get (r : nat) (key : ctxkey) (s : store) : option ctxval :=
  match data s !! r with
  | Some ctx => ctx !! key
  | None => None
  end.

Definition GetOk (r : nat) (key : ctxkey) (s : store) : option ctxval * bool :=
  match data s !! r with
  | Some ctx => (ctx !! key, bool_decide (is_Some (ctx !! key)))
  | None => (None, false)
  end.

Definition GetAll (r : nat) (s : store) : option (gmap ctxkey ctxval) := data s !! r.

Definition GetAllOk (r : nat) (s : store) : gmap ctxkey ctxval * bool :=
  match data s !! r with
  | Some ctx => (ctx, true)
  | None => (∅, false)
  end.

Definition Delete (r : nat) (key : ctxkey) (s : store) : store :=
  match data s !! r with
  | Some ctx => mkStore (<[r := delete key ctx]> (data s)) (datat s)
  | None => s
  end.

Definition clear (r : nat) (s : store) : store :=
  mkStore (delete r (data s)) (delete r (datat s)).

Definition Clear : nat → store → store := clear.

(** [Purge(maxAge)] at time [now]; the loop over [data] clears the requests whose
    first value is older than [maxAge] seconds.  Reading [datat] of a request
    that has no entry gives the zero value. *)
Definition Purge (now maxAge : Z) (s : store) : nat * store :=
  if decide (maxAge ≤ 0)%Z then (size (data s), empty)
  else
    let min := (now - maxAge)%Z in
    foldr (λ r '(count, s),
             if decide (default 0%Z (datat s !! r) < min)%Z then (S count, clear r s) else (count, s))
          (0, s) (elements (dom (data s))).

(** The two maps always describe the same requests. *)
Definition wf (s : store) : Prop := dom (data s) = dom (datat s).

Lemma lookup_Set now r key val s r' :
  data (Set_ now r key val s) !! r' =
    if decide (r = r') then Some (<[key := val]> (default ∅ (data s !! r'))) else data s !! r'.
Proof.
  rewrite /Set_. case_decide as H.
  - subst. destruct (data s !! r') as [m|] eqn:E; simpl.
    + by rewrite lookup_alter_eq E.
    + by rewrite lookup_alter_eq lookup_insert_eq.
  - destruct (data s !! r) as [m|] eqn:E; simpl.
    + by rewrite lookup_alter_ne.
    + by rewrite lookup_alter_ne // lookup_insert_ne.
Qed.

Lemma Get_Set_eq now r key val s : Get r key (Set_ now r key val s) = Some val.
Proof. by rewrite /Get lookup_Set decide_True // lookup_insert_eq. Qed.

Lemma Get_Set_ne now r key val s r' key' :
  (r, key) ≠ (r', key') → Get r' key' (Set_ now r key val s) = Get r' key' s.
Proof.
  intros H. rewrite /Get lookup_Set. case_decide; [|done]. subst.
  rewrite lookup_insert_ne; [|congruence]. by destruct (data s !! r').
Qed.

Lemma Get_clear_eq r key s : Get r key (clear r s) = None.
Proof. by rewrite /Get lookup_delete_eq. Qed.

Lemma Get_clear_ne r r' key s : r ≠ r' → Get r' key (clear r s) = Get r' key s.
Proof. intros H. by rewrite /Get lookup_delete_ne. Qed.

Lemma wf_Set now r key val s : wf s → wf (Set_ now r key val s).
Proof.
  rewrite /wf /Set_ => H. destruct (data s !! r) as [m|] eqn:E; simpl.
  - by rewrite dom_alter_L.
  - by rewrite dom_alter_L !dom_insert_L H.
Qed.

Lemma wf_clear r s : wf s → wf (clear r s).
Proof. rewrite /wf /clear /= => H. by rewrite !dom_delete_L H. Qed.

Lemma wf_Delete r key s : wf s → wf (Delete r key s).
Proof.
  rewrite /wf /Delete => H. destruct (data s !! r) as [m|] eqn:E; [|done]. simpl.
  rewrite dom_insert_lookup_L //.
Qed.

(** [s'] has the values that [s] has for every request but [r]. *)
Definition same_others (r : nat) (s s' : store) : Prop :=
  ∀ r', r' ≠ r → data s' !! r' = data s !! r' ∧ datat s' !! r' = datat s !! r'.

#[global] Instance same_others_po r : PreOrder (same_others r).
Proof.
  split; [by intros s r'|]. intros s1 s2 s3 E1 E2 r' Hr.
  destruct (E1 r' Hr), (E2 r' Hr). split; by etrans.
Qed.

Lemma same_others_Set now r key val s : same_others r s (Set_ now r key val s).
Proof.
  intros r' Hr. rewrite lookup_Set decide_False //. split; [done|].
  rewrite /Set_. destruct (data s !! r); [done|]. by rewrite /= lookup_insert_ne.
Qed.

Lemma same_others_clear r s : same_others r s (clear r s).
Proof. intros r' Hr. by rewrite /= !lookup_delete_ne. Qed.

Lemma same_others_Get r s s' r' key :
  same_others r s s' → r' ≠ r → Get r' key s' = Get r' key s.
Proof. intros E Hr. rewrite /Get. by destruct (E r' Hr) as [-> _]. Qed.

(** One pass of the purge loop over a list of distinct requests. *)
Lemma purge_loop min l s :
  NoDup l →
  let '(count, s') := foldr (λ r '(count, s),
      if decide (default 0%Z (datat s !! r) < min)%Z then (S count, clear r s) else (count, s)) (0, s) l in
  (∀ r, data s' !! r =
     if decide (r ∈ l ∧ (default 0%Z (datat s !! r) < min)%Z) then None else data s !! r) ∧
  (∀ r, datat s' !! r =
     if decide (r ∈ l ∧ (default 0%Z (datat s !! r) < min)%Z) then None else datat s !! r) ∧
  count = length (filter (λ r, (default 0%Z (datat s !! r) < min)%Z) l).
Proof.
  induction 1 as [|x l Hx Hl IH].
  { simpl. split_and!; try done; intros r; rewrite decide_False //; set_solver. }
  simpl foldr. destruct (foldr _ _ l) as [count s']. destruct IH as (Hd & Ht & Hc).
  assert (datat s' !! x = datat s !! x) as Hxt by (rewrite Ht; case_decide; set_solver).
  rewrite Hxt filter_cons. case_decide as Hold.
  - simpl. split_and!; [| |by rewrite Hc].
    + intros r. destruct (decide (r = x)) as [->|Hne].
      * rewrite lookup_delete_eq decide_True //. set_solver.
      * rewrite lookup_delete_ne // Hd. repeat case_decide; set_solver.
    + intros r. destruct (decide (r = x)) as [->|Hne].
      * rewrite lookup_delete_eq decide_True //. set_solver.
      * rewrite lookup_delete_ne // Ht. repeat case_decide; set_solver.
  - split_and!; [| |done].
    + intros r. rewrite Hd. repeat case_decide; set_solver.
    + intros r. rewrite Ht. repeat case_decide; set_solver.
Qed.
End Context.
