(* ===== verification/Services.v ===== *)
(** * The world the bundler runs in

    The services outside the repository (PostgreSQL, memcached, S3, the packager
    process, the Django front end, RabbitMQ), the parts of Go's run time and
    standard library the code only calls, and the state a request handler acts
    on.  Each service is an abstract state with operations (a class); what the
    code relies on is a separate class of laws over a {i view} of that state. *)

From S2P Require Import Prelude GoStrings GoPath FileSys Context.

(** ** Service operations *)

(** A column value and a result set of [database/sql]: the rows streamed so far
    and the error, if any, that ended the stream ([rows.Err()]). *)
Inductive sqlval := SText (s : string) | SInt (z : Z) | SNull.
Record sqlrows := mkRows {
  rows_data : list (list sqlval);
  rows_err : option error;
}.

(** [db.Query(sql, args...)] on the database named by a data source URL. *)
Class PgOps (T : Type) := {
  db_query : string → string → list string → T → result sqlrows * T;
}.

(** The memcache client as [cache.go] uses it, by server address. *)
Class McOps (T : Type) := {
  mc_get : string → string → T → result string * T;
  mc_set : string → string → string → T → option error * T;
  mc_delete : string → string → T → option error * T;
}.

(** The S3 client ([Bucket.Put], [Bucket.Get], [Bucket.Del], [Bucket.PutBucket]),
    by bucket name. *)
Class S3Ops (T : Type) := {
  s3_put : string → string → string → T → option error * T;
  s3_get : string → string → T → result string * T;
  s3_del : string → string → T → option error * T;
  s3_put_bucket : string → T → option error * T;
}.

(** [exec.Command("bash", "-c", script).Run()]: standard output, or standard
    error when the exit status is not zero.  The process may change files. *)
Class ExecOps (T : Type) := {
  sh_run : string → fsys → T → (string + string) * (fsys * T);
}.

(** An HTTP PUT with headers and a body: status and body of the response. *)
Class WebOps (T : Type) := {
  web_put : string → list (string * string) → string → T → result (Z * result string) * T;
}.

(** The AMQP client. *)
Class MqOps (T : Type) := {
  mq_dial : string → T → option error * T;
  mq_channel : T → option error * T;
  mq_exchange_declare : string → string → bool → bool → bool → bool → T → option error * T;
  mq_publish : string → string → bool → bool → string → string → T → option error * T;
  mq_close : T → T;
}.

(** ** Run time and standard library *)

(** An entry of a zip archive: its name, whether it is a directory or a symbolic
    link, the error of [file.Open] if it fails, and otherwise the bytes read from
    it with the error that ended the reading, if any. *)
Record zipentry := mkZip {
  z_name : string;
  z_dir : bool;
  z_link : bool;
  z_open : option error;
  z_bytes : string;
  z_read : option error;
}.

(** The handshake token of [auth.go]. *)
Record handshake := mkHandshake {
  hs_action : string;
  hs_app_id : string;
  hs_user_id : string;
  hs_submission_id : string;
}.

(** [metadata.go] *)
Record PlatformMetadata := mkPlatform {
  Language : string;
  StoreName : string;
}.
Record Metadata := mkMetadata {
  BaseVersion : string;
  DisplayName : string;
  FacebookAppID : string;
  IOS : PlatformMetadata;
  Android : PlatformMetadata;
}.

(** [packager.go] *)
Record FooterPath := mkFooter {
  f_ios : string;
  f_android : string;
}.

(** [icon.go] *)
Record IconData := mkIcon {
  ic_name : string;
  ic_platform : string;
  ic_height : Z;
  ic_width : Z;
  ic_format : string;
}.

(** An HTTP request, as parsed by [net/http]. *)
Record request := mkRequest {
  rq_id : nat;
  rq_method : string;
  rq_path : string;
  rq_form : gmap string string;
  rq_postform : gmap string string;
  rq_header : gmap string string;
  rq_body : string;
}.

(** Pure functions of the standard library that the code calls and whose inner
    workings none of the properties depend on.  A JSON [null] decoded into a
    pointer or a map leaves it [nil], which is [None]. *)
Class GoLib := {
  json_listing : string → result (option (gmap string string));
  json_metadata : string → result Metadata;
  json_footer : string → result (option FooterPath);
  json_handshake : string → result (option handshake);
  json_asset_hashes : string → result (option (gmap string string));
  json_hashes : gmap string string → result string;
  json_icons : list IconData → result string;
  png_config : string → result (Z * Z);
  zip_read : string → result (list zipentry);
  zip_write : list (string * string) → string;
  gzip_bytes : string → string;
  base64_decode : string → string * option error;
  pem_decode : string → option string;
  (** [x509.ParsePKIXPublicKey]; [None] is a key that is not an RSA key. *)
  parse_pkix : string → result (option string);
  sha256_sum : string → string;
  rsa_verify : string → string → string → option error;
  query_escape : string → string;
  url_encode : list (string * string) → string;
  (** [url.String()] of a request's URL with another path. *)
  url_string : request → string → string;
  (** [http.NewRequest] accepts the URL. *)
  url_valid : string → bool;
  (** The random part of a temporary directory's name. *)
  temp_suffix : fsys → string → option string;
  (** The order in which [range] visits a map: any permutation, drawn anew (the
      first argument) for each loop. *)
  map_range : nat → gmap string string → list (string * string);
  map_range_perm : ∀ n m, map_range n m ≡ₚ map_to_list m;
}.

(** ** Forms and responses *)
Definition FormValue (r : request) (k : string) : string := default "" (rq_form r !! k).
Definition PostFormValue (r : request) (k : string) : string := default "" (rq_postform r !! k).

(** The response under construction: the header map, the status line with the
    headers as they were when it was sent, the bytes sent, and, under the gzip
    wrapper, the bytes written to the compressor. *)
Record response := mkResponse {
  rs_header : gmap string (list string);
  rs_sent : option (Z * gmap string (list string));
  rs_body : string;
  rs_gzip : option string;
}.

Definition new_response : response := mkResponse ∅ None "" None.

Definition rs_status (r : response) : option Z := fst <$> rs_sent r.

(** [w.Header().Set], [w.Header().Add] *)
Definition HeaderSet (k v : string) (r : response) : response :=
  mkResponse (<[k := [v]]> (rs_header r)) (rs_sent r) (rs_body r) (rs_gzip r).
Definition HeaderAdd (k v : string) (r : response) : response :=
  mkResponse (<[k := default [] (rs_header r !! k) ++ [v]]> (rs_header r))
    (rs_sent r) (rs_body r) (rs_gzip r).

(** [w.WriteHeader]: only the first call has an effect. *)
Definition WriteHeader (code : Z) (r : response) : response :=
  match rs_sent r with
  | Some _ => r
  | None => mkResponse (rs_header r) (Some (code, rs_header r)) (rs_body r) (rs_gzip r)
  end.

(** [w.Write]: sends status 200 if none was sent. *)
Definition Write_ (b : string) (r : response) : response :=
  let r := WriteHeader 200 r in
  match rs_gzip r with
  | None => mkResponse (rs_header r) (rs_sent r) (rs_body r +:+ b) None
  | Some z => mkResponse (rs_header r) (rs_sent r) (rs_body r) (Some (z +:+ b))
  end.

(** [http.Error] *)
Definition HttpError (msg : string) (code : Z) (r : response) : response :=
  Write_ (msg +:+ nl)
    (WriteHeader code
       (HeaderSet "X-Content-Type-Options" "nosniff"
          (HeaderSet "Content-Type" "text/plain; charset=utf-8" r))).

(** ** The world *)
Class Services := {
  pgT : Type;
  mcT : Type;
  s3T : Type;
  exT : Type;
  webT : Type;
  mqT : Type;
  svc_pg :: PgOps pgT;
  svc_mc :: McOps mcT;
  svc_s3 :: S3Ops s3T;
  svc_ex :: ExecOps exT;
  svc_web :: WebOps webT;
  svc_mq :: MqOps mqT;
  svc_lib :: GoLib;
}.

Section world.
Context `{Services}.

Record World := mkWorld {
  w_env : gmap string string;
  w_fs : fsys;
  w_pg : pgT;
  w_mc : mcT;
  w_s3 : s3T;
  w_ex : exT;
  w_web : webT;
  w_mq : mqT;
  w_ctx : Context.store;
  w_resp : response;
  w_now : Z;
  w_tick : nat;
}.

Definition set_fs (x : fsys) (w : World) : World :=
  mkWorld (w_env w) x (w_pg w) (w_mc w) (w_s3 w) (w_ex w) (w_web w) (w_mq w) (w_ctx w) (w_resp w) (w_now w) (w_tick w).
Definition set_pg (x : pgT) (w : World) : World :=
  mkWorld (w_env w) (w_fs w) x (w_mc w) (w_s3 w) (w_ex w) (w_web w) (w_mq w) (w_ctx w) (w_resp w) (w_now w) (w_tick w).
Definition set_mc (x : mcT) (w : World) : World :=
  mkWorld (w_env w) (w_fs w) (w_pg w) x (w_s3 w) (w_ex w) (w_web w) (w_mq w) (w_ctx w) (w_resp w) (w_now w) (w_tick w).
Definition set_s3 (x : s3T) (w : World) : World :=
  mkWorld (w_env w) (w_fs w) (w_pg w) (w_mc w) x (w_ex w) (w_web w) (w_mq w) (w_ctx w) (w_resp w) (w_now w) (w_tick w).
Definition set_ex (x : exT) (w : World) : World :=
  mkWorld (w_env w) (w_fs w) (w_pg w) (w_mc w) (w_s3 w) x (w_web w) (w_mq w) (w_ctx w) (w_resp w) (w_now w) (w_tick w).
Definition set_web (x : webT) (w : World) : World :=
  mkWorld (w_env w) (w_fs w) (w_pg w) (w_mc w) (w_s3 w) (w_ex w) x (w_mq w) (w_ctx w) (w_resp w) (w_now w) (w_tick w).
Definition set_mq (x : mqT) (w : World) : World :=
  mkWorld (w_env w) (w_fs w) (w_pg w) (w_mc w) (w_s3 w) (w_ex w) (w_web w) x (w_ctx w) (w_resp w) (w_now w) (w_tick w).
Definition set_ctx (x : Context.store) (w : World) : World :=
  mkWorld (w_env w) (w_fs w) (w_pg w) (w_mc w) (w_s3 w) (w_ex w) (w_web w) (w_mq w) x (w_resp w) (w_now w) (w_tick w).
Definition set_resp (x : response) (w : World) : World :=
  mkWorld (w_env w) (w_fs w) (w_pg w) (w_mc w) (w_s3 w) (w_ex w) (w_web w) (w_mq w) (w_ctx w) x (w_now w) (w_tick w).
Definition set_tick (x : nat) (w : World) : World :=
  mkWorld (w_env w) (w_fs w) (w_pg w) (w_mc w) (w_s3 w) (w_ex w) (w_web w) (w_mq w) (w_ctx w) (w_resp w) (w_now w) x.

(** A request handler and the monad it runs in. *)
Abbreviation MW := (M World).

(** [os.Getenv] *)
Definition getenv (w : World) (k : string) : string := default "" (w_env w !! k).
Definition Getenv (k : string) : MW string := gets (λ w, getenv w k).

(** Lift an operation of a component of the world. *)
Definition on_pg {A} (op : pgT → A * pgT) : MW A := λ w,
  let '(a, s) := op (w_pg w) in (Ret a, set_pg s w).
Definition on_mc {A} (op : mcT → A * mcT) : MW A := λ w,
  let '(a, s) := op (w_mc w) in (Ret a, set_mc s w).
Definition on_s3 {A} (op : s3T → A * s3T) : MW A := λ w,
  let '(a, s) := op (w_s3 w) in (Ret a, set_s3 s w).
Definition on_web {A} (op : webT → A * webT) : MW A := λ w,
  let '(a, s) := op (w_web w) in (Ret a, set_web s w).
Definition on_mq {A} (op : mqT → A * mqT) : MW A := λ w,
  let '(a, s) := op (w_mq w) in (Ret a, set_mq s w).
Definition on_fs {A} (op : fsys → A * fsys) : MW A := λ w,
  let '(a, s) := op (w_fs w) in (Ret a, set_fs s w).
Definition on_resp (f : response → response) : MW () := modify (λ w, set_resp (f (w_resp w)) w).
Definition on_ctx (f : Context.store → Context.store) : MW () := modify (λ w, set_ctx (f (w_ctx w)) w).
Definition read_fs {A} (op : fsys → A) : MW A := gets (λ w, op (w_fs w)).

(** [context.Get(r, key)] and the assertion [.(string)] on it. *)
Definition ctx_get (r : request) (key : ctxkey) : MW (option ctxval) :=
  gets (λ w, Context.Get (rq_id r) key (w_ctx w)).
Definition ctx_set (r : request) (key : ctxkey) (val : ctxval) : MW () := λ w,
  (Ret tt, set_ctx (Context.Set_ (w_now w) (rq_id r) key val (w_ctx w)) w).
Definition as_string (v : option ctxval) : MW string :=
  match v with
  | Some (VStr s) => mret s
  | _ => throw (Panic "interface conversion")
  end.
Definition ctx_string (r : request) (key : ctxkey) : MW string :=
  v ← ctx_get r key; as_string v.

(** [exec.Cmd.Run] *)
Definition run_sh (script : string) : MW (string + string) := λ w,
  let '(r, (f, s)) := sh_run script (w_fs w) (w_ex w) in (Ret r, set_ex s (set_fs f w)).

(** [for k, v := range m] visits the pairs in an order drawn for this loop. *)
Definition range_map (m : gmap string string) : MW (list (string * string)) := λ w,
  (Ret (map_range (w_tick w) m), set_tick (S (w_tick w)) w).

(** [ioutil.TempDir("", prefix)] *)
Definition TempDir (prefix : string) : MW (result string) := λ w,
  let base := if decide (getenv w "TMPDIR" = "") then "/tmp" else getenv w "TMPDIR" in
  match temp_suffix (w_fs w) prefix with
  | Some sfx =>
      let d := PathJoin [base; prefix +:+ sfx] in
      (Ret (Ok d), set_fs (set_node (w_fs w) (comps d) NDir) w)
  | None => (Ret (Err (PathError "mkdir" base EIO)), w)
  end.
End world.

Abbreviation MW := (M World).

(** Keys for gorilla/context ([auth.go]). *)
Definition AppIDKey : ctxkey := KInt 1000.
Definition UserIDKey : ctxkey := KInt 1001.
Definition SubmissionIDKey : ctxkey := KInt 1002.
Definition HandshakeTokenKey : ctxkey := KInt 1003.
Definition HandshakeSignatureKey : ctxkey := KInt 1004.

(** ** Laws of the object stores

    S3: a stored object is read back (strong read-after-write consistency, which
    S3 documents); a failed PUT may or may not have stored the object; the
    client's [Del] reports no error even when the service refused, so a
    successful call may leave the object. *)
Class S3Laws (T : Type) `{S3Ops T} := {
  s3_view : T → gmap (string * string) string;
  s3_put_law : ∀ b k v s, match s3_put b k v s with
    | (None, s') => s3_view s' = <[(b, k) := v]> (s3_view s)
    | (Some _, s') => s3_view s' = s3_view s ∨ s3_view s' = <[(b, k) := v]> (s3_view s)
    end;
  s3_get_law : ∀ b k s, match s3_get b k s with
    | (Ok v, s') => s3_view s' = s3_view s ∧ s3_view s !! (b, k) = Some v
    | (Err _, s') => s3_view s' = s3_view s
    end;
  s3_del_law : ∀ b k s, let '(_, s') := s3_del b k s in
    s3_view s' = s3_view s ∨ s3_view s' = delete (b, k) (s3_view s);
  s3_put_bucket_law : ∀ b s, s3_view (s3_put_bucket b s).2 = s3_view s;
}.

(** memcached: it may evict at any time, so a view only shrinks on its own; a hit
    is a stored value; a miss or a failure tells nothing about later calls. *)
Class McLaws (T : Type) `{McOps T} := {
  mc_view : string → T → gmap string string;
  mc_get_law : ∀ h k s, match mc_get h k s with
    | (Ok v, s') => mc_view h s !! k = Some v ∧ mc_view h s' ⊆ mc_view h s
    | (Err _, s') => mc_view h s' ⊆ mc_view h s
    end;
  mc_set_law : ∀ h k v s, match mc_set h k v s with
    | (None, s') => mc_view h s' ⊆ <[k := v]> (mc_view h s)
    | (Some _, s') => mc_view h s' ⊆ mc_view h s ∨ mc_view h s' ⊆ <[k := v]> (mc_view h s)
    end;
  mc_delete_law : ∀ h k s, match mc_delete h k s with
    | (None, s') => mc_view h s' ⊆ delete k (mc_view h s)
    | (Some e, s') => mc_view h s' ⊆ mc_view h s ∧
        (e = ErrCacheMiss → mc_view h s' ⊆ delete k (mc_view h s))
    end;
}.

(** ** World lemmas *)
Section world_lemmas.
Context `{Services}.
Implicit Types (w : World).

Lemma set_s3_id w : set_s3 (w_s3 w) w = w.
Proof. by destruct w. Qed.
Lemma set_mc_id w : set_mc (w_mc w) w = w.
Proof. by destruct w. Qed.
Lemma set_pg_id w : set_pg (w_pg w) w = w.
Proof. by destruct w. Qed.

Lemma set_tick_id w : set_tick (w_tick w) w = w.
Proof. by destruct w. Qed.
Lemma set_web_id w : set_web (w_web w) w = w.
Proof. by destruct w. Qed.
Lemma set_ctx_id w : set_ctx (w_ctx w) w = w.
Proof. by destruct w. Qed.
Lemma set_fs_id w : set_fs (w_fs w) w = w.
Proof. by destruct w. Qed.
Lemma set_resp_id w : set_resp (w_resp w) w = w.
Proof. by destruct w. Qed.

Lemma wp_on_pg {A} (op : pgT → A * pgT) Q C w :
  (∀ a s, op (w_pg w) = (a, s) → Q a (set_pg s w)) → wp (on_pg op) Q C w.
Proof. rewrite /wp /on_pg => HQ. destruct (op (w_pg w)) eqn:E. by apply HQ. Qed.
Lemma wp_on_mc {A} (op : mcT → A * mcT) Q C w :
  (∀ a s, op (w_mc w) = (a, s) → Q a (set_mc s w)) → wp (on_mc op) Q C w.
Proof. rewrite /wp /on_mc => HQ. destruct (op (w_mc w)) eqn:E. by apply HQ. Qed.
Lemma wp_on_s3 {A} (op : s3T → A * s3T) Q C w :
  (∀ a s, op (w_s3 w) = (a, s) → Q a (set_s3 s w)) → wp (on_s3 op) Q C w.
Proof. rewrite /wp /on_s3 => HQ. destruct (op (w_s3 w)) eqn:E. by apply HQ. Qed.
Lemma wp_on_fs {A} (op : fsys → A * fsys) Q C w :
  (∀ a s, op (w_fs w) = (a, s) → Q a (set_fs s w)) → wp (on_fs op) Q C w.
Proof. rewrite /wp /on_fs => HQ. destruct (op (w_fs w)) eqn:E. by apply HQ. Qed.
Lemma wp_on_web {A} (op : webT → A * webT) Q C w :
  (∀ a s, Q a (set_web s w)) → wp (on_web op) Q C w.
Proof. rewrite /wp /on_web => HQ. destruct (op (w_web w)). by apply HQ. Qed.
Lemma wp_on_mq {A} (op : mqT → A * mqT) Q C w :
  (∀ a s, Q a (set_mq s w)) → wp (on_mq op) Q C w.
Proof. rewrite /wp /on_mq => HQ. destruct (op (w_mq w)). by apply HQ. Qed.
Lemma wp_on_resp f Q C w : Q tt (set_resp (f (w_resp w)) w) → wp (on_resp f) Q C w.
Proof. done. Qed.
Lemma wp_on_ctx f Q C w : Q tt (set_ctx (f (w_ctx w)) w) → wp (on_ctx f) Q C w.
Proof. done. Qed.
Lemma wp_read_fs {A} (op : fsys → A) Q C w : Q (op (w_fs w)) w → wp (read_fs op) Q C w.
Proof. done. Qed.
Lemma wp_Getenv k Q C w : Q (getenv w k) w → wp (Getenv k) Q C w.
Proof. done. Qed.
Lemma wp_ctx_get r k Q C w :
  Q (Context.Get (rq_id r) k (w_ctx w)) w → wp (ctx_get r k) Q C w.
Proof. done. Qed.
Lemma wp_ctx_set r k v Q C w :
  Q tt (set_ctx (Context.Set_ (w_now w) (rq_id r) k v (w_ctx w)) w) → wp (ctx_set r k v) Q C w.
Proof. done. Qed.
Lemma wp_ctx_string r k Q C w :
  (∀ s, Context.Get (rq_id r) k (w_ctx w) = Some (VStr s) → Q s w) →
  (∀ c, C c w) → wp (ctx_string r k) Q C w.
Proof.
  intros HQ HC. apply wp_bind, wp_ctx_get. destruct (Context.Get _ _ _) as [[]|];
    [by apply wp_ret, HQ|apply wp_throw, HC..].
Qed.
Lemma wp_run_sh s Q C w :
  (∀ r f x, Q r (set_ex x (set_fs f w))) → wp (run_sh s) Q C w.
Proof. rewrite /wp /run_sh => HQ. destruct (sh_run _ _ _) as [r [f x]]. by apply HQ. Qed.
Lemma wp_range_map m Q C w :
  (∀ l, l ≡ₚ map_to_list m → Q l (set_tick (S (w_tick w)) w)) → wp (range_map m) Q C w.
Proof. rewrite /wp /range_map => HQ. apply HQ, map_range_perm. Qed.
Lemma wp_TempDir pre Q C w :
  (∀ r f, Q r (set_fs f w)) → (∀ e, Q (Err e) w) → wp (TempDir pre) Q C w.
Proof. rewrite /wp /TempDir => HQ HQ'. by destruct (temp_suffix _ _). Qed.
End world_lemmas.
