(* ===== verification/S3.v ===== *)
(** * The S3 wrapper of the bundler

    [src/src/siphon/bundler/s3.go]: the bucket of the current environment and
    the three operations on it, each tried up to [maxAttempts] times. *)

From S2P Require Import Prelude GoStrings Services.

Definition maxAttempts : nat := 3.

(** [getBucketName] *)
Definition bucket_name (env : string) : string :=
  if decide (env = "" ∨ env = "testing") then "siphon-files-testing"
  else if decide (env = "staging") then "siphon-files-staging"
  else "siphon-files".

(** [S3.Bucket(name)] of the client library, for a region (US East) without a
    bucket endpoint of its own: some bytes are refused, the name is kept. *)
Definition s3_Bucket (name : string) : result string :=
  if has_char "/"%char name || has_char ":"%char name || has_char "@"%char name
  then Err (ErrorS ("bad S3 bucket: " +:+ name))
  else Ok name.

Section s3.
Context `{Services}.

Definition getBucketName : MW string :=
  env ← Getenv "SIPHON_ENV"; mret (bucket_name env).

(** [S3Wrapper]: the bucket is [nil] until [Open]. *)
Record S3Wrapper := mkS3 { bucket : option string }.

Definition NewS3Wrapper : S3Wrapper := mkS3 None.

Definition Open (w : S3Wrapper) : MW (result S3Wrapper) :=
  name ← getBucketName;
  mret (match s3_Bucket name with
        | Ok b => Ok (mkS3 (Some b))
        | Err e => Err e
        end).

(** [for i := 0; i < n; i++ { err = op; if err == nil { return nil } }; return err] *)
Fixpoint retry (n : nat) (op : MW (option error)) (err : option error) : MW (option error) :=
  match n with
  | O => mret err
  | S n =>
      e ← op;
      match e with
      | None => mret None
      | Some e => retry n op (Some e)
      end
  end.

Fixpoint retry_get (n : nat) (op : MW (result string)) (err : error) : MW (result string) :=
  match n with
  | O => mret (Err err)
  | S n =>
      r ← op;
      match r with
      | Ok b => mret (Ok b)
      | Err e => retry_get n op e
      end
  end.

(** A method called on a wrapper that was not opened dereferences [nil]. *)
Definition with_bucket {A} (w : S3Wrapper) (k : string → MW A) : MW A :=
  match bucket w with Some b => k b | None => throw nil_deref end.

Definition WriteKey (w : S3Wrapper) (key b : string) : MW (option error) :=
  with_bucket w (λ bk, retry maxAttempts (on_s3 (s3_put bk key b)) None).

Definition DeleteKey (w : S3Wrapper) (key : string) : MW (option error) :=
  with_bucket w (λ bk, retry maxAttempts (on_s3 (s3_del bk key)) None).

Definition GetKey (w : S3Wrapper) (key : string) : MW (result string) :=
  with_bucket w (λ bk, retry_get maxAttempts (on_s3 (s3_get bk key)) (ErrorS "")).

(** [CreateBuckets]: a refused bucket name leaves [bucket] nil, and the call on it
    panics. *)
Definition CreateBuckets : MW (option error) :=
  name ← getBucketName;
  match s3_Bucket name with
  | Err _ => throw nil_deref
  | Ok b => on_s3 (s3_put_bucket b)
  end.

(** ** Properties *)
Lemma s3_Bucket_ok env : s3_Bucket (bucket_name env) = Ok (bucket_name env).
Proof. rewrite /bucket_name. by repeat case_decide. Qed.

Lemma wp_Open x Q C w :
  Q (Ok (mkS3 (Some (bucket_name (getenv w "SIPHON_ENV"))))) w → wp (Open x) Q C w.
Proof. intros HQ. rewrite /wp /Open /= s3_Bucket_ok. exact HQ. Qed.

Context `{!S3Laws s3T}.

Definition blobs (w : World) : gmap (string * string) string := s3_view (w_s3 w).

(** A retried operation preserves what each attempt preserves. *)
Lemma wp_retry (I : s3T → Prop) (Q : option error → World → Prop) C n op err w :
  (∀ s, I s → wp op (λ e w', match e with
                             | None => Q None w'
                             | Some e => ∃ s', w' = set_s3 s' w ∧ I s' ∧ Q (Some e) w' end) C
               (set_s3 s w)) →
  (n = 0 → ∀ s, I s → Q err (set_s3 s w)) →
  (∀ s e, I s → Q (Some e) (set_s3 s w)) →
  ∀ s, I s → wp (retry n op err) Q C (set_s3 s w).
Proof.
  intros Hop Herr Hs. revert err Herr. induction n as [|n IH]; intros err Herr s HI; simpl.
  { apply wp_ret. by apply Herr. }
  apply wp_bind. eapply wp_mono; [by apply Hop| |done].
  intros [e|] w'; [|done]. intros (s' & -> & HI' & HQ). apply IH; [by intros; apply Hs|done].
Qed.

Lemma wp_retry_get (I : s3T → Prop) (Q : result string → World → Prop) C n op err w :
  (∀ s, I s → wp op (λ r w', match r with
                             | Ok b => Q (Ok b) w'
                             | Err e => ∃ s', w' = set_s3 s' w ∧ I s' end) C (set_s3 s w)) →
  (∀ s e, I s → Q (Err e) (set_s3 s w)) →
  ∀ s, I s → wp (retry_get n op err) Q C (set_s3 s w).
Proof.
  intros Hop Hs. revert err. induction n as [|n IH]; intros err s HI; simpl.
  { apply wp_ret. by apply Hs. }
  apply wp_bind. eapply wp_mono; [by apply Hop| |done].
  intros [b|e] w'; [done|]. intros (s' & -> & HI'). by apply IH.
Qed.

(** [WriteKey]: on success the object is stored; on failure it may be. Nothing
    else changes. *)
Lemma wp_WriteKey bk k v Q C w :
  (∀ s, s3_view s = <[(bk, k) := v]> (blobs w) → Q None (set_s3 s w)) →
  (∀ s e, s3_view s = blobs w ∨ s3_view s = <[(bk, k) := v]> (blobs w) → Q (Some e) (set_s3 s w)) →
  wp (WriteKey (mkS3 (Some bk)) k v) Q C w.
Proof.
  intros Hok Herr. rewrite /WriteKey /with_bucket -{1}(set_s3_id w).
  set (I := λ s, s3_view s = blobs w ∨ s3_view s = <[(bk, k) := v]> (blobs w)).
  assert (∀ s, I s → wp (on_s3 (s3_put bk k v))
    (λ e w', match e with None => Q None w'
             | Some e => ∃ s', w' = set_s3 s' w ∧ I s' ∧ Q (Some e) w' end) C (set_s3 s w)) as Hop.
  { intros s HI. apply wp_on_s3. intros e s' Hput. pose proof (s3_put_law bk k v s) as Hl.
    simpl in Hput. rewrite Hput in Hl.
    assert (<[(bk, k) := v]> (s3_view s) = <[(bk, k) := v]> (blobs w)) as Hins.
    { destruct HI as [-> | ->]; [done|]. by rewrite insert_insert_eq. }
    destruct e as [e|].
    - exists s'. split; [done|]. assert (I s') as HI'; [|split; [done|by apply Herr]].
      rewrite /I. destruct Hl as [-> | ->]; [done|]. by right.
    - apply Hok. by rewrite Hl. }
  apply (wp_retry I); try done. by left.
Qed.

Lemma wp_GetKey bk k Q C w :
  (∀ s v, s3_view s = blobs w → blobs w !! (bk, k) = Some v → Q (Ok v) (set_s3 s w)) →
  (∀ s e, s3_view s = blobs w → Q (Err e) (set_s3 s w)) →
  wp (GetKey (mkS3 (Some bk)) k) Q C w.
Proof.
  intros Hok Herr. rewrite /GetKey /with_bucket -{1}(set_s3_id w).
  apply (wp_retry_get (λ s, s3_view s = blobs w)); try done.
  intros s HI. apply wp_on_s3. intros r s' Hg. pose proof (s3_get_law bk k s) as Hl.
  simpl in Hg. rewrite Hg in Hl. destruct r as [v|e].
  - destruct Hl as [Hv Hk]. apply Hok; congruence.
  - exists s'. split; [done|]. congruence.
Qed.

Lemma wp_DeleteKey bk k Q C w :
  (∀ s e, s3_view s = blobs w ∨ s3_view s = delete (bk, k) (blobs w) → Q e (set_s3 s w)) →
  wp (DeleteKey (mkS3 (Some bk)) k) Q C w.
Proof.
  intros HQ. rewrite /DeleteKey /with_bucket -{1}(set_s3_id w).
  set (I := λ s, s3_view s = blobs w ∨ s3_view s = delete (bk, k) (blobs w)).
  apply (wp_retry I); try (by intros; apply HQ); [|by left].
  intros s HI. apply wp_on_s3. intros e s' Hd. pose proof (s3_del_law bk k s) as Hl.
  simpl in Hd. rewrite Hd in Hl.
  assert (I s') as HI'.
  { assert (delete (bk, k) (s3_view s) = delete (bk, k) (blobs w)) as Hdel.
    { destruct HI as [-> | ->]; [done|]. by rewrite delete_delete_eq. }
    rewrite /I. destruct Hl as [-> | ->]; [done|]. by right. }
  destruct e as [e|]; [|by apply HQ]. exists s'. split; [done|]. split; [done|]. by apply HQ.
Qed.
End s3.
