(* ===== verification/Cache.v ===== *)
(** * The file cache: memcached in front of S3

    [src/src/siphon/bundler/cache.go].  A [Cache] reads from memcached first and
    from S3 on a miss, and writes to both.  What it promises its clients (push,
    pull, submit, the packager) is stated against S3, the durable store: a read
    returns what S3 holds as long as memcached is {i coherent} with it, and every
    operation that reports success keeps it coherent. *)

From S2P Require Import Prelude GoStrings Services S3.

Module Cache.

(** [BundleFooterFile] *)
Definition BundleFooterFile (platform : string) : string := "bundle-footer-" +:+ platform.

Section cache.
Context `{Services}.

Record Cache := mkCache {
  appID : string;
  submissionID : string;
  mc : option string;
  s3 : S3Wrapper;
}.

Definition NewCache (appID submissionID : string) : MW (result Cache) :=
  env ← Getenv "SIPHON_ENV";
  mc ← (if decide (env ≠ "testing") then
          host ← Getenv "MEMCACHED_BUNDLER_PORT_11211_TCP_ADDR";
          mret (Some (host +:+ ":11211"))
        else mret None);
  bindR (Open NewS3Wrapper) (λ s3,
  mret (Ok (mkCache appID submissionID mc s3))).

Definition prefixed (c : Cache) (key : string) : string :=
  if decide (submissionID c = "") then appID c +:+ "/" +:+ key
  else appID c +:+ "/" +:+ submissionID c +:+ "/" +:+ key.

Definition cacheMiss (c : Cache) (k : string) : MW (result string) :=
  bindR (GetKey (s3 c) k) (λ b,
  match mc c with
  | None => mret (Ok b)
  | Some h =>
      err ← on_mc (mc_set h k b);
      match err with
      | Some e => mret (Err e)
      | None => mret (Ok b)
      end
  end).

Definition Get (c : Cache) (key : string) : MW (result string) :=
  let k := prefixed c key in
  match mc c with
  | Some h =>
      r ← on_mc (mc_get h k);
      match r with
      | Err e => if decide (e = ErrCacheMiss) then cacheMiss c k else mret (Err e)
      | Ok v => mret (Ok v)
      end
  | None => cacheMiss c k
  end.

Definition Set_ (c : Cache) (key b : string) : MW (option error) :=
  let k := prefixed c key in
  try_then (WriteKey (s3 c) k b)
    (match mc c with
     | Some h => on_mc (mc_set h k b)
     | None => mret None
     end).

Definition GetBundleFooter (c : Cache) (name : string) : MW (result string) := Get c name.
Definition SetBundleFooter (c : Cache) (b name : string) : MW (option error) := Set_ c name b.

Definition Delete (c : Cache) (key : string) : MW (option error) :=
  let k := prefixed c key in
  try_then (DeleteKey (s3 c) k)
    (match mc c with
     | Some h =>
         err ← on_mc (mc_delete h k);
         match err with
         | Some e => if decide (e = ErrCacheMiss) then mret None else mret (Some e)
         | None => mret None
         end
     | None => mret None
     end).

(** ** Specification *)
Context `{!S3Laws s3T} `{!McLaws mcT}.
Implicit Types (w : World) (c : Cache).

Definition memo (h : string) (w : World) : gmap string string := mc_view h (w_mc w).

(** The bucket of an opened cache. *)
Definition bk (c : Cache) : string := default "" (bucket (s3 c)).
Definition opened (c : Cache) : Prop := s3 c = mkS3 (Some (bk c)).

(** The durable content of a key of this cache. *)
Definition content (c : Cache) (w : World) (key : string) : option string :=
  blobs w !! (bk c, prefixed c key).

(** Memcached holds only values that S3 holds, except possibly for the keys in [ex]. *)
Definition coherent (ex : gset string) (c : Cache) (w : World) : Prop :=
  match mc c with
  | None => True
  | Some h => ∀ k v, k ∉ ex → memo h w !! k = Some v → blobs w !! (bk c, k) = Some v
  end.

(** The operations of a cache touch only the two object stores. *)
Definition stores_only (w w' : World) : Prop := ∃ m s, w' = set_mc m (set_s3 s w).

Lemma stores_only_refl w : stores_only w w.
Proof. exists (w_mc w), (w_s3 w). by destruct w. Qed.
Lemma stores_only_trans w1 w2 w3 : stores_only w1 w2 → stores_only w2 w3 → stores_only w1 w3.
Proof. intros (m & s & ->) (m' & s' & ->). by exists m', s'. Qed.
Lemma stores_only_s3 s w : stores_only w (set_s3 s w).
Proof. exists (w_mc w), s. by destruct w. Qed.
Lemma stores_only_mc m w : stores_only w (set_mc m w).
Proof. exists m, (w_s3 w). by destruct w. Qed.

Lemma coherent_weaken ex ex' c w : ex ⊆ ex' → coherent ex c w → coherent ex' c w.
Proof. rewrite /coherent. destruct (mc c); [|done]. set_solver. Qed.

(** Two caches over the same stores. *)
Lemma coherent_same ex c c' w : mc c' = mc c → bk c' = bk c → coherent ex c w → coherent ex c' w.
Proof. rewrite /coherent. by intros -> ->. Qed.

(** Coherence only depends on the two views, and memcached may forget. *)
Lemma coherent_mono ex c w w' :
  coherent ex c w → blobs w' = blobs w →
  (∀ h, mc c = Some h → memo h w' ⊆ memo h w) → coherent ex c w'.
Proof.
  rewrite /coherent. destruct (mc c) as [h|]; [|done]. intros Hc Hb Hm k v Hk Hv.
  rewrite Hb. apply Hc; [done|]. by eapply lookup_weaken; [|apply Hm].
Qed.

Lemma coherent_insert ex c w w' k b :
  coherent ex c w → (blobs w' = blobs w ∧ blobs w !! (bk c, k) = Some b ∨
                     blobs w' = <[(bk c, k) := b]> (blobs w)) →
  (∀ h, mc c = Some h → memo h w' ⊆ <[k := b]> (memo h w)) → coherent ex c w'.
Proof.
  rewrite /coherent. destruct (mc c) as [h|]; [|done]. intros Hc Hb Hm k' v Hk' Hv.
  assert (<[k := b]> (memo h w) !! k' = Some v) as Hi by (by eapply lookup_weaken; [|apply Hm]).
  destruct (decide (k' = k)) as [->|Hne].
  - rewrite lookup_insert_eq in Hi. injection Hi as ->.
    destruct Hb as [[-> ?]| ->]; [done|]. by rewrite lookup_insert_eq.
  - rewrite lookup_insert_ne // in Hi.
    destruct Hb as [[-> ?]| ->]; [by apply Hc|]. rewrite lookup_insert_ne; [by apply Hc|congruence].
Qed.

(** Losing track of one key. *)
Lemma coherent_except ex c w w' k :
  coherent ex c w →
  (∀ k', k' ≠ k → blobs w' !! (bk c, k') = blobs w !! (bk c, k')) →
  (∀ h k', mc c = Some h → k' ≠ k → memo h w' !! k' = None ∨ memo h w' !! k' = memo h w !! k') →
  coherent ({[k]} ∪ ex) c w'.
Proof.
  rewrite /coherent. destruct (mc c) as [h|]; [|done]. intros Hc Hb Hm k' v Hk' Hv.
  rewrite Hb; [|set_solver]. apply Hc; [set_solver|].
  destruct (Hm h k' eq_refl) as [E|E]; [set_solver| |]; congruence.
Qed.

Lemma subseteq_cases (m m' : gmap string string) k : m' ⊆ m → m' !! k = None ∨ m' !! k = m !! k.
Proof.
  intros Hs. destruct (m' !! k) as [v|] eqn:E; [right|by left]. symmetry. by eapply lookup_weaken.
Qed.

(** Setting a key in memcached to what S3 holds. *)
Lemma wp_memo_set ex c h k b (Q : option error → World → Prop) C w :
  mc c = Some h → coherent ex c w → blobs w !! (bk c, k) = Some b →
  (∀ e m, let w' := set_mc m w in
     coherent ex c w' → Q e w') →
  wp (on_mc (mc_set h k b)) Q C w.
Proof.
  intros Hmc Hc Hb HQ. apply wp_on_mc. intros e m Hop.
  pose proof (mc_set_law h k b (w_mc w)) as Hl. rewrite Hop in Hl. apply HQ. destruct e as [e|].
  - destruct Hl as [Hl|Hl].
    + eapply coherent_mono; [done|done|]. intros h' Hh'. by assert (h' = h) as -> by congruence.
    + eapply (coherent_insert _ _ w _ k b); [done|by left|].
      intros h' Hh'. by assert (h' = h) as -> by congruence.
  - eapply (coherent_insert _ _ w _ k b); [done|by left|].
    intros h' Hh'. by assert (h' = h) as -> by congruence.
Qed.

(** Reading through to S3: the value returned is the one S3 holds, and recording
    it in memcached keeps coherence. *)
Lemma wp_cacheMiss ex c k Q C w :
  opened c → coherent ex c w →
  (∀ w' r, stores_only w w' → blobs w' = blobs w → coherent ex c w' →
     (∀ v, r = Ok v → blobs w !! (bk c, k) = Some v) → Q r w') →
  wp (cacheMiss c k) Q C w.
Proof.
  intros Ho Hc HQ. rewrite /cacheMiss Ho. apply wp_bindR, wp_GetKey.
  - intros s v Hs Hv.
    assert (coherent ex c (set_s3 s w)) as Hc' by (eapply coherent_mono; [done|exact Hs|done]).
    destruct (mc c) as [h|] eqn:Hmc.
    + apply wp_bind. eapply wp_memo_set; [done|done|by rewrite /blobs /= Hs|].
      intros e m w' He. assert (stores_only w w') as Hst by (by exists m, s).
      destruct e; apply wp_ret, HQ; try done; naive_solver.
    + apply wp_ret, HQ; try done; [apply stores_only_s3|naive_solver].
  - intros s e Hs. apply HQ; try done; [apply stores_only_s3|by eapply coherent_mono].
Qed.

Lemma wp_Get ex c key Q C w :
  opened c → coherent ex c w → prefixed c key ∉ ex →
  (∀ w' r, stores_only w w' → blobs w' = blobs w → coherent ex c w' →
     (∀ v, r = Ok v → content c w key = Some v) → Q r w') →
  wp (Get c key) Q C w.
Proof.
  intros Ho Hc Hex HQ. rewrite /Get. destruct (mc c) as [h|] eqn:Hmc; [|by apply (wp_cacheMiss ex)].
  apply wp_bind, wp_on_mc. intros r m Hop.
  pose proof (mc_get_law h (prefixed c key) (w_mc w)) as Hl. rewrite Hop in Hl.
  assert (∀ (Hm : mc_view h m ⊆ mc_view h (w_mc w)), coherent ex c (set_mc m w)) as Hc'.
  { intros Hm. eapply coherent_mono; [done|done|]. intros h' Hh'. by assert (h' = h) as -> by congruence. }
  destruct r as [v|e].
  - destruct Hl as [Hv Hm]. apply wp_ret, HQ; [apply stores_only_mc|done|by apply Hc'|].
    intros v' [= <-]. rewrite /coherent Hmc in Hc. by apply Hc.
  - case_decide.
    + apply (wp_cacheMiss ex); [done|by apply Hc'|].
      intros w' r Hs Hb Hcw Hr. by apply HQ.
    + apply wp_ret, HQ; [apply stores_only_mc|done|by apply Hc'|done].
Qed.

(** [Set]: on success the key holds the new value in S3 and coherence is kept; on
    failure only that key may have changed and only it may be incoherent. *)
Lemma wp_Set ex c key b Q C w :
  opened c → coherent ex c w →
  (∀ w', stores_only w w' → blobs w' = <[(bk c, prefixed c key) := b]> (blobs w) →
     coherent ex c w' → Q None w') →
  (∀ w' e, stores_only w w' →
     blobs w' = blobs w ∨ blobs w' = <[(bk c, prefixed c key) := b]> (blobs w) →
     coherent ({[prefixed c key]} ∪ ex) c w' → Q (Some e) w') →
  wp (Set_ c key b) Q C w.
Proof.
  intros Ho Hc Hok Herr. rewrite /Set_ {1}Ho. set (k := prefixed c key) in *.
  assert (∀ w', (blobs w' = blobs w ∨ blobs w' = <[(bk c, k) := b]> (blobs w)) →
    ∀ k', k' ≠ k → blobs w' !! (bk c, k') = blobs w !! (bk c, k')) as Hother.
  { intros w' [-> | ->] k' Hne; [done|]. rewrite lookup_insert_ne //. congruence. }
  apply wp_try_then, wp_WriteKey.
  - intros s Hs. destruct (mc c) as [h|] eqn:Hmc.
    + apply wp_on_mc. intros e m Hop.
      pose proof (mc_set_law h k b (w_mc w)) as Hl. rewrite Hop in Hl. destruct e as [e|].
      * apply Herr; [by exists m, s|by right|]. eapply coherent_except; [done|apply Hother; by right|].
        intros h' k' Hh' Hne. assert (h' = h) as -> by congruence.
        destruct Hl as [Hl|Hl]; [by apply subseteq_cases|].
        destruct (subseteq_cases _ _ k' Hl) as [E|E]; [by left|right].
        rewrite -(lookup_insert_ne (memo h w) k k' b) //.
      * apply Hok; [by exists m, s|done|]. eapply (coherent_insert _ _ w); [done|by right|].
        intros h' Hh'. by assert (h' = h) as -> by congruence.
    + apply wp_ret, Hok; [apply stores_only_s3|done|]. by rewrite /coherent Hmc.
  - intros s e Hs. apply Herr; [apply stores_only_s3|done|].
    eapply coherent_except; [done|by apply Hother|]. intros. by right.
Qed.

(** [Delete]: on success nothing stale is left in memcached. *)
Lemma wp_Delete ex c key Q C w :
  opened c → coherent ex c w →
  (∀ w' (e : option error), stores_only w w' →
     blobs w' = blobs w ∨ blobs w' = delete (bk c, prefixed c key) (blobs w) →
     coherent (match e with Some _ => {[prefixed c key]} ∪ ex | None => ex end) c w' → Q e w') →
  wp (Delete c key) Q C w.
Proof.
  intros Ho Hc HQ. rewrite /Delete {1}Ho. set (k := prefixed c key) in *.
  assert (∀ w', (blobs w' = blobs w ∨ blobs w' = delete (bk c, k) (blobs w)) →
    ∀ k', k' ≠ k → blobs w' !! (bk c, k') = blobs w !! (bk c, k')) as Hother.
  { intros w' [-> | ->] k' Hne; [done|]. rewrite lookup_delete_ne //. congruence. }
  assert (∀ h m s, mc c = Some h → (s3_view s = blobs w ∨ s3_view s = delete (bk c, k) (blobs w)) →
    mc_view h m ⊆ delete k (memo h w) → coherent ex c (set_mc m (set_s3 s w))) as Hgone.
  { intros h m s Hmc Hs Hl. rewrite /coherent Hmc. intros k' v Hk' Hv.
    destruct (subseteq_cases _ _ k' Hl) as [E|E]; [rewrite /memo /= in Hv; congruence|].
    destruct (decide (k' = k)) as [->|Hne].
    { rewrite lookup_delete_eq in E. rewrite /memo /= in Hv. congruence. }
    rewrite lookup_delete_ne // in E. rewrite (Hother (set_mc m (set_s3 s w))) //.
    rewrite /coherent Hmc in Hc. apply Hc; [done|]. rewrite /memo /= in Hv. congruence. }
  apply wp_try_then, wp_DeleteKey. intros s [e|] Hs.
  { apply HQ; [apply stores_only_s3|done|].
    eapply coherent_except; [done|by apply Hother|]. intros. by right. }
  destruct (mc c) as [h|] eqn:Hmc; [|apply wp_ret, HQ; [apply stores_only_s3|done|by rewrite /coherent Hmc]].
  apply wp_bind, wp_on_mc. intros e m Hop.
  pose proof (mc_delete_law h k (w_mc w)) as Hl. simpl in Hop. rewrite Hop in Hl. destruct e as [e|].
  - destruct Hl as [Hl Hmiss]. case_decide as He; apply wp_ret, HQ; try (by exists m, s); try done.
    + by apply (Hgone h); [..|apply Hmiss].
    + eapply coherent_except; [done|by apply Hother|].
      intros h' k' Hh' Hne. assert (h' = h) as -> by congruence. by apply subseteq_cases.
  - apply wp_ret, HQ; try (by exists m, s); [done|]. by apply (Hgone h).
Qed.

(** Within one cache, different keys are different objects. *)
Lemma prefixed_key_inj c k k' : prefixed c k = prefixed c k' → k = k'.
Proof.
  rewrite /prefixed. case_decide; intros E; repeat apply str_app_inj_l in E; done.
Qed.

(** An object of the app itself is no object of one of its submissions. *)
Lemma prefixed_dev_sub c c' k k' :
  appID c' = appID c → submissionID c = "" → submissionID c' ≠ "" → has_char slash k = false →
  prefixed c k ≠ prefixed c' k'.
Proof.
  intros Ha Hs Hs' Hk. rewrite /prefixed decide_True // decide_False // Ha. intros E.
  do 2 apply str_app_inj_l in E. subst k. by rewrite has_char_app orb_true_r in Hk.
Qed.

Lemma content_insert c w w' k b k' :
  blobs w' = <[(bk c, prefixed c k) := b]> (blobs w) →
  content c w' k' = if decide (k' = k) then Some b else content c w k'.
Proof.
  intros E. rewrite /content E. case_decide; subst; [by rewrite lookup_insert_eq|].
  rewrite lookup_insert_ne //. intros [= Ek]. by apply prefixed_key_inj in Ek.
Qed.

Lemma content_delete c w w' k k' :
  blobs w' = delete (bk c, prefixed c k) (blobs w) →
  content c w' k' = if decide (k' = k) then None else content c w k'.
Proof.
  intros E. rewrite /content E. case_decide; subst; [by rewrite lookup_delete_eq|].
  rewrite lookup_delete_ne //. intros [= Ek]. by apply prefixed_key_inj in Ek.
Qed.

Lemma content_same c w w' k : blobs w' = blobs w → content c w' k = content c w k.
Proof. by rewrite /content => ->. Qed.

(** The cache of an app or submission in the current environment; [NewCache]
    cannot fail, because the bucket names are legal. *)
Definition env_cache (app sub : string) (w : World) : Cache :=
  mkCache app sub
    (if decide (getenv w "SIPHON_ENV" = "testing") then None
     else Some (getenv w "MEMCACHED_BUNDLER_PORT_11211_TCP_ADDR" +:+ ":11211"))
    (mkS3 (Some (bucket_name (getenv w "SIPHON_ENV")))).

Lemma opened_env app sub w : opened (env_cache app sub w).
Proof. done. Qed.

Lemma env_cache_same app sub w w' : w_env w' = w_env w → env_cache app sub w' = env_cache app sub w.
Proof. rewrite /env_cache /getenv. by intros ->. Qed.

Lemma wp_NewCache app sub Q C w :
  Q (Ok (env_cache app sub w)) w → wp (NewCache app sub) Q C w.
Proof.
  intros HQ. rewrite /NewCache. apply wp_bind, wp_Getenv, wp_bind.
  rewrite /env_cache in HQ. destruct (decide (getenv w "SIPHON_ENV" = "testing")) as [Ht|Ht].
  - rewrite decide_False; [|tauto]. by apply wp_ret, wp_bindR, wp_Open, wp_ret.
  - rewrite decide_True //. by apply wp_bind, wp_Getenv, wp_ret, wp_bindR, wp_Open, wp_ret.
Qed.

(** Keys of different apps, submissions and names are different objects, as long
    as none of the parts contains a slash. *)
Lemma prefixed_inj c c' k k' :
  has_char slash (appID c) = false → has_char slash (appID c') = false →
  has_char slash (submissionID c) = false → has_char slash (submissionID c') = false →
  has_char slash k = false → has_char slash k' = false →
  prefixed c k = prefixed c' k' →
  appID c = appID c' ∧ submissionID c = submissionID c' ∧ k = k'.
Proof.
  intros Ha Ha' Hs Hs' Hk Hk'. rewrite /prefixed.
  assert (∀ a b : string, has_char slash (a +:+ "/" +:+ b) = true) as Hsl.
  { intros a b. rewrite has_char_app. by rewrite orb_true_r. }
  repeat case_decide; intros E; apply (first_char_inj slash) in E as [-> E]; try done.
  - split_and!; congruence.
  - subst k. by rewrite Hsl in Hk.
  - subst k'. by rewrite Hsl in Hk'.
  - by apply (first_char_inj slash) in E as [-> ->].
Qed.
End cache.
End Cache.
