(* ===== verification/Db.v ===== *)
(** * The file table

    [src/src/siphon/bundler/db.go]: which files (name and SHA-256 hash) an app or
    a submission consists of, in one PostgreSQL table.  The functions build the
    SQL text exactly as the source does; what PostgreSQL does with those texts is
    the class [PgLaws], over a view of the table as a finite map from
    (app, submission, name) to hash.  That the view is a map is what the two
    partial unique indexes of [CreateTables] enforce. *)

From S2P Require Import Prelude GoStrings Services.

Module Db.

Definition filesTable : string := "files".

(** [subClause] *)
Definition subClause (submissionID : string) : string :=
  if decide (submissionID ≠ "") then "submission_id = '" +:+ submissionID +:+ "'"
  else "(submission_id is null or submission_id='')".

(** The SQL texts. *)
Definition insert_sql : string :=
  "INSERT INTO " +:+ filesTable +:+ " (submission_id, app_id, name, hash) " +:+
  "VALUES ($1, $2, $3, $4)".
Definition update_sql (clause : string) : string :=
  "UPDATE " +:+ filesTable +:+ " SET hash = $1 WHERE app_id = $2 AND " +:+ clause +:+
  " AND name = $3".
Definition delete_sql (clause : string) : string :=
  "DELETE FROM " +:+ filesTable +:+ " WHERE app_id = $1 AND " +:+ clause +:+ " AND name = $2".
Definition select_sql (clause like : string) : string :=
  "SELECT name, hash FROM " +:+ filesTable +:+ " WHERE app_id = $1 AND " +:+ clause +:+
  " AND name LIKE " +:+ like.
Definition count_sql (col : string) : string :=
  "SELECT count(*) FROM " +:+ filesTable +:+ " WHERE " +:+ col +:+ " = $1".

(** [ANY(ARRAY[$2, $3, ...])] *)
Definition any_array (n : nat) : string :=
  "ANY(ARRAY[" +:+ Join ((λ i, "$" +:+ pretty (i + 2)) <$> seq 0 n) ", " +:+ "])".

(** [rows.Scan(&name, &hash)] and [rows.Scan(&count)] *)
Definition scan_string (v : sqlval) : result string :=
  match v with
  | SText s => Ok s
  | SInt z => Ok (pretty z)
  | SNull => Err (ErrorS "sql: Scan error")
  end.
Definition scan_name_hash (row : list sqlval) : result (string * string) :=
  match row with
  | [a; b] =>
      match scan_string a, scan_string b with
      | Ok n, Ok h => Ok (n, h)
      | Err e, _ | _, Err e => Err e
      end
  | _ => Err (ErrorS "sql: expected 2 destination arguments in Scan")
  end.
Definition scan_count (rows : list (list sqlval)) : result Z :=
  match rows with
  | [SInt z] :: _ => Ok z
  | _ => Err (ErrorS "sql: Scan error")
  end.

(** [for rows.Next() { rows.Scan(...); files[name] = hash }] *)
Fixpoint scan_files (rows : list (list sqlval)) (files : gmap string string) :
    result (gmap string string) :=
  match rows with
  | [] => Ok files
  | r :: rows =>
      match scan_name_hash r with
      | Err _ => Err (ErrorS "Failed to retrieve current app files.")
      | Ok (n, h) => scan_files rows (<[n := h]> files)
      end
  end.

Section db.
Context `{Services}.

(** The drivers [database/sql] knows: the import of lib/pq registers its own. *)
Definition sql_drivers : list string := ["postgres"].

(** [sql.Open]: it looks the driver up and does not connect, so a handle is the data
    source URL. *)
Definition sql_Open (driverName dataSourceName : string) : result string :=
  if decide (driverName ∈ sql_drivers) then Ok dataSourceName
  else Err (ErrorS ("sql: unknown driver " +:+ driverName +:+ " (forgotten import?)")).

(** [OpenDB] *)
Definition OpenDB : MW string :=
  user ← Getenv "POSTGRES_BUNDLER_ENV_POSTGRES_USER";
  pass ← Getenv "POSTGRES_BUNDLER_ENV_POSTGRES_PASSWORD";
  addr ← Getenv "POSTGRES_BUNDLER_PORT_5432_TCP_ADDR";
  db ← Getenv "POSTGRES_BUNDLER_ENV_POSTGRES_DB";
  let url := "postgres://" +:+ user +:+ ":" +:+ pass +:+ "@" +:+ addr +:+ "/" +:+ db +:+
             "?sslmode=disable" in
  match sql_Open "postgres" url with
  | Err _ => throw (Fatal "Error opening DB connection")
  | Ok db => mret db
  end.

Definition Query (db sql : string) (args : list string) : MW (result sqlrows) :=
  on_pg (db_query db sql args).

(** [rows.Close()] after [rows, err := db.Query(...)]: when the query failed [rows]
    is nil and the call dereferences it, before [err] is looked at. *)
Definition CloseRows (r : result sqlrows) : MW () :=
  match r with
  | Ok _ => mret tt
  | Err _ => throw nil_deref
  end.

Definition AddFile (db appID submissionID name hash : string) : MW (option error) :=
  r ← Query db insert_sql [submissionID; appID; name; hash];
  CloseRows r;;
  match r with
  | Err _ => mret (Some (ErrorS ("Failed to save file: " +:+ name)))
  | Ok _ => mret None
  end.

Definition UpdateFile (db appID submissionID name hash : string) : MW (option error) :=
  r ← Query db (update_sql (subClause submissionID)) [hash; appID; name];
  CloseRows r;;
  match r with
  | Err _ => mret (Some (ErrorS ("Failed to update file: " +:+ name)))
  | Ok _ => mret None
  end.

Definition DeleteFile (db appID submissionID name : string) : MW (option error) :=
  r ← Query db (delete_sql (subClause submissionID)) [appID; name];
  CloseRows r;;
  match r with
  | Err _ => mret (Some (ErrorS ("Failed to delete file: " +:+ name)))
  | Ok _ => mret None
  end.

(** [GetFilteredFiles].  [rows.Err()] is never looked at, so a stream that breaks
    off is taken for a complete one. *)
Definition GetFilteredFiles (db appID submissionID like : string) : MW (result (gmap string string)) :=
  let like := if decide (like = "") then "%" else like in
  r ← Query db (select_sql (subClause submissionID) "$2") [appID; like];
  match r with
  | Err _ => mret (Err (ErrorS "Failed to retrieve current app files."))
  | Ok rows => mret (scan_files (rows_data rows) ∅)
  end.

Definition GetFiles (db appID submissionID : string) : MW (result (gmap string string)) :=
  GetFilteredFiles db appID submissionID "".

Definition GetFile (db appID submissionID name : string) : MW (result string) :=
  bindR (GetFilteredFiles db appID submissionID name) (λ files,
  match files !! name with
  | Some hash => mret (Ok hash)
  | None => mret (Err (ErrorS ("[GetFile] not found: " +:+ name)))
  end).

(** [GetSliceFilteredFiles] *)
Definition GetSliceFilteredFiles (db appID submissionID : string) (like : list string) :
    MW (result (gmap string string)) :=
  let '(like, likeStr) :=
    if decide (like = []) then (["%"], "") else (like, any_array (length like)) in
  r ← Query db (select_sql (subClause submissionID) likeStr) (appID :: like);
  match r with
  | Err _ => mret (Err (ErrorS "Failed to retrieve current app files."))
  | Ok rows => mret (scan_files (rows_data rows) ∅)
  end.

Definition resourceExists (db name resourceID : string) : MW (result bool) :=
  let failed := ErrorS ("Failed to check for '" +:+ name +:+ "' existence: " +:+ resourceID) in
  r ← Query db (count_sql name) [resourceID];
  match r with
  | Err _ => mret (Err failed)
  | Ok rows =>
      match scan_count (rows_data rows) with
      | Err _ => mret (Err failed)
      | Ok count => mret (Ok (bool_decide (0 < count)%Z))
      end
  end.

Definition AppExists (db appID : string) : MW (result bool) := resourceExists db "app_id" appID.
Definition SubmissionExists (db submissionID : string) : MW (result bool) :=
  resourceExists db "submission_id" submissionID.

Definition MakeSnapshot (db appID submissionID : string) : MW (option error) :=
  r ← GetFiles db appID "";
  match r with
  | Err _ => mret (Some (ErrorS "Problem retrieving files for the snapshot"))
  | Ok files =>
      l ← range_map files;
      range_err l (λ '(name, hash),
        err ← AddFile db appID submissionID name hash;
        match err with
        | Some _ => mret (Some (ErrorS "Problem retrieving files for the snapshot"))
        | None => mret None
        end)
  end.

(** The statements of [CreateTables]. *)
Definition create_table_sql : string :=
  "CREATE TABLE IF NOT EXISTS " +:+ filesTable +:+ " (id bigserial PRIMARY KEY, " +:+
  "app_id varchar(64) NOT NULL, submission_id varchar(64) DEFAULT null, " +:+
  "name text NOT NULL, hash text NOT NULL)".
Definition create_unique_sql : string :=
  "DO $$ BEGIN " +:+
  "IF (SELECT to_regclass('files_unique_name_1')) IS NULL THEN " +:+
  "CREATE UNIQUE INDEX files_unique_name_1 ON " +:+ filesTable +:+
  " (app_id, submission_id, name) WHERE submission_id IS NOT null; END IF; " +:+
  "IF (SELECT to_regclass('files_unique_name_2')) IS NULL THEN " +:+
  "CREATE UNIQUE INDEX files_unique_name_2 ON " +:+ filesTable +:+
  " (app_id, name) WHERE submission_id IS null; END IF; END $$;".
Definition create_index_sql (indexName cols : string) : string :=
  "DO $$ BEGIN IF (SELECT to_regclass('" +:+ indexName +:+ "')) IS NULL THEN CREATE INDEX " +:+
  indexName +:+ " ON " +:+ filesTable +:+ "(" +:+ cols +:+ "); END IF; END $$;".

(** [CreateTables]; white space and SQL comments of the statements are left out.
    A statement that fails panics in [rows.Close] before [log.Fatalf]. *)
Definition must_query (db sql what : string) : MW () :=
  r ← Query db sql [];
  CloseRows r;;
  match r with
  | Err _ => throw (Fatal what)
  | Ok _ => mret tt
  end.

Definition indices : gmap string string :=
  list_to_map [("files_app_id_index", "app_id"); ("files_name_index", "name");
               ("files_submission_id_index", "submission_id")].

Definition CreateTables : MW () :=
  db ← OpenDB;
  must_query db create_table_sql "Error creating table";;
  must_query db create_unique_sql "Error creating unique indexes";;
  l ← range_map indices;
  (fix loop (l : list (string * string)) : MW () :=
     match l with
     | [] => mret tt
     | (indexName, cols) :: l =>
         must_query db (create_index_sql indexName cols) ("Error creating index " +:+ indexName);;
         loop l
     end) l.
End db.

(** ** What PostgreSQL does with these statements *)

(** A key of the table: app, submission ([None] is SQL NULL), name. *)
Abbreviation fkey := (string * option string * string)%type.

(** The rows [subClause] selects. *)
Definition sub_matches (sub : string) (so : option string) : bool :=
  match so with
  | None => bool_decide (sub = "")
  | Some s => bool_decide (s = sub)
  end.

(** SQL's LIKE for patterns whose only special character is the percent sign. *)
Fixpoint like_match (p s : string) {struct p} : bool :=
  match p with
  | EmptyString => bool_decide (s = "")
  | String c p' =>
      if decide (c = "%"%char) then
        (fix any (s : string) : bool :=
           like_match p' s || match s with EmptyString => false | String _ s' => any s' end) s
      else match s with
           | EmptyString => false
           | String d s' => bool_decide (c = d) && like_match p' s'
           end
  end.
Definition plain_pattern (p : string) : bool :=
  negb (has_char "_"%char p) && negb (has_char "\"%char p).

Definition row_sel (app sub : string) (P : string → bool) (k : fkey) : bool :=
  bool_decide (k.1.1 = app) && sub_matches sub k.1.2 && P k.2.

(** The table after UPDATE and DELETE, and the rows of a SELECT. *)
Definition upd_rows (app sub name hash : string) (m : gmap fkey string) : gmap fkey string :=
  map_imap (λ k v, Some (if row_sel app sub (λ n, bool_decide (n = name)) k then hash else v)) m.
Definition del_rows (app sub name : string) (m : gmap fkey string) : gmap fkey string :=
  filter (λ kv, row_sel app sub (λ n, bool_decide (n = name)) kv.1 = false) m.
Definition sel_rows (app sub : string) (P : string → bool) (m : gmap fkey string) : list (string * string) :=
  (λ kv, (kv.1.2, kv.2)) <$> map_to_list (filter (λ kv, row_sel app sub P kv.1 = true) m).
Definition to_row (nh : string * string) : list sqlval := [SText nh.1; SText nh.2].

(** A result set for a query whose complete answer is [full]. *)
Definition answers (rs : sqlrows) (full : list (list sqlval)) : Prop :=
  match rows_err rs with
  | None => rows_data rs ≡ₚ full
  | Some _ => ∃ rest, rows_data rs ++ rest ≡ₚ full
  end.

(** PostgreSQL's behaviour on the statements above.  A statement that reports an
    error may have been applied (the connection can break after the commit).  The
    submission's text is spliced into the SQL, so the laws about [subClause] only
    speak of texts without a quote. *)
Class PgLaws (T : Type) `{PgOps T} := {
  pg_view : string → T → gmap fkey string;
  pg_insert_law : ∀ db sub app name hash s,
    let '(r, s') := db_query db insert_sql [sub; app; name; hash] s in
    let applied := pg_view db s !! (app, Some sub, name) = None ∧
                   pg_view db s' = <[(app, Some sub, name) := hash]> (pg_view db s) in
    match r with
    | Ok _ => applied
    | Err _ => pg_view db s' = pg_view db s ∨ applied
    end;
  pg_update_law : ∀ db sub app name hash s, has_char squote sub = false →
    let '(r, s') := db_query db (update_sql (subClause sub)) [hash; app; name] s in
    let applied := pg_view db s' = upd_rows app sub name hash (pg_view db s) in
    match r with
    | Ok _ => applied
    | Err _ => pg_view db s' = pg_view db s ∨ applied
    end;
  pg_delete_law : ∀ db sub app name s, has_char squote sub = false →
    let '(r, s') := db_query db (delete_sql (subClause sub)) [app; name] s in
    let applied := pg_view db s' = del_rows app sub name (pg_view db s) in
    match r with
    | Ok _ => applied
    | Err _ => pg_view db s' = pg_view db s ∨ applied
    end;
  pg_select_law : ∀ db sub app like s,
    has_char squote sub = false → plain_pattern like = true →
    let '(r, s') := db_query db (select_sql (subClause sub) "$2") [app; like] s in
    pg_view db s' = pg_view db s ∧
    ∀ rs, r = Ok rs → answers rs (to_row <$> sel_rows app sub (like_match like) (pg_view db s));
  pg_select_any_law : ∀ db sub app likes s,
    has_char squote sub = false → forallb plain_pattern likes = true → likes ≠ [] →
    let '(r, s') := db_query db (select_sql (subClause sub) (any_array (length likes))) (app :: likes) s in
    pg_view db s' = pg_view db s ∧
    ∀ rs, r = Ok rs →
      answers rs (to_row <$> sel_rows app sub (λ n, existsb (λ p, like_match p n) likes) (pg_view db s));
  pg_count_app_law : ∀ db app s,
    let '(r, s') := db_query db (count_sql "app_id") [app] s in
    pg_view db s' = pg_view db s ∧
    ∀ rs, r = Ok rs →
      answers rs [[SInt (Z.of_nat (size (filter (λ kv : fkey * string, kv.1.1.1 = app) (pg_view db s))))]];
  pg_count_sub_law : ∀ db sub s,
    let '(r, s') := db_query db (count_sql "submission_id") [sub] s in
    pg_view db s' = pg_view db s ∧
    ∀ rs, r = Ok rs →
      answers rs [[SInt (Z.of_nat (size (filter (λ kv : fkey * string, kv.1.1.2 = Some sub) (pg_view db s))))]];
}.

(** No result stream breaks off: the assumption under which ignoring
    [rows.Err()] is harmless. *)
Class PgStable (T : Type) `{PgOps T} :=
  pg_stable : ∀ db sql args s rs s', db_query db sql args s = (Ok rs, s') → rows_err rs = None.

(** ** Properties *)
Section files.
Context (app sub : string).
Implicit Types (m : gmap fkey string).

(** The dev rows of an app are all stored with an empty submission, never NULL:
    this is how [AddFile] writes them. *)
Definition no_null (m : gmap fkey string) : Prop := ∀ n, m !! (app, None, n) = None.

Lemma row_sel_true P k :
  row_sel app sub P k = true ↔ k.1.1 = app ∧ sub_matches sub k.1.2 = true ∧ P k.2 = true.
Proof. rewrite /row_sel !andb_true_iff bool_decide_eq_true. tauto. Qed.

Lemma sub_matches_true so :
  sub_matches sub so = true ↔ so = Some sub ∨ so = None ∧ sub = "".
Proof.
  rewrite /sub_matches. destruct so; rewrite bool_decide_eq_true; naive_solver.
Qed.

(** Under [no_null], a selected key of the map is the key [AddFile] writes. *)
Lemma row_sel_key m P k v :
  no_null m → m !! k = Some v → row_sel app sub P k = true →
  k = (app, Some sub, k.2) ∧ P k.2 = true.
Proof.
  intros Hnn Hk (Ha & Hs & HP)%row_sel_true. destruct k as [[a so] n]; simpl in *. subst a.
  apply sub_matches_true in Hs as [-> | [-> _]]; [done|]. by rewrite Hnn in Hk.
Qed.

Lemma elem_of_sel_rows m P n h :
  no_null m →
  (n, h) ∈ sel_rows app sub P m ↔ m !! (app, Some sub, n) = Some h ∧ P n = true.
Proof.
  intros Hnn. rewrite /sel_rows list_elem_of_fmap. split.
  - intros ([k v] & [= -> ->] & Hin). apply elem_of_map_to_list in Hin.
    apply map_lookup_filter_Some in Hin as [Hk Hsel]. simpl in *.
    destruct (row_sel_key m P k v) as [E ?]; [done..|]. by rewrite -E.
  - intros [Hk HP]. exists ((app, Some sub, n), h). split; [done|].
    apply elem_of_map_to_list, map_lookup_filter_Some. split; [done|].
    apply row_sel_true. simpl. rewrite bool_decide_eq_true_2 //.
Qed.

Lemma sel_rows_NoDup m P : no_null m → NoDup (sel_rows app sub P m).*1.
Proof.
  intros Hnn. rewrite /sel_rows -list_fmap_compose.
  assert (∀ x y, x ∈ map_to_list (filter (λ kv, row_sel app sub P kv.1 = true) m) →
                 y ∈ map_to_list (filter (λ kv, row_sel app sub P kv.1 = true) m) →
                 x.1.2 = y.1.2 → x = y) as Hinj.
  { intros [k v] [k' v'] Hk Hk' E. simpl in E.
    apply elem_of_map_to_list, map_lookup_filter_Some in Hk as [Hk Hs], Hk' as [Hk' Hs'].
    destruct (row_sel_key m P k v) as [E1 _]; [done..|].
    destruct (row_sel_key m P k' v') as [E2 _]; [done..|]. simpl in *.
    assert (k = k') as -> by (rewrite E1 E2 E; done). congruence. }
  revert Hinj. generalize (NoDup_map_to_list (filter (λ kv, row_sel app sub P kv.1 = true) m)).
  generalize (map_to_list (filter (λ kv, row_sel app sub P kv.1 = true) m)) as l. clear.
  induction 1 as [|x l Hx Hl IH]; intros Hinj; [constructor|]. rewrite fmap_cons. constructor.
  - intros (y & E & Hy)%list_elem_of_fmap. apply Hx.
    rewrite (Hinj x y) //; [by left|by right].
  - apply IH. intros. apply Hinj; [by right..|done].
Qed.

(** The scan loop over complete rows builds the map the rows describe. *)
Lemma scan_files_rows (l : list (string * string)) (m : gmap string string) :
  scan_files (to_row <$> l) m = Ok (foldl (λ a nh, <[nh.1 := nh.2]> a) m l).
Proof. revert m. induction l as [|[n h] l IH]; intros m; [done|]. apply IH. Qed.

Lemma foldl_insert_lookup (l : list (string * string)) (m : gmap string string) n :
  NoDup l.*1 →
  foldl (λ a nh, <[nh.1 := nh.2]> a) m l !! n =
    match list_to_map (M:=gmap string string) l !! n with Some h => Some h | None => m !! n end.
Proof.
  revert m. induction l as [|[k h] l IH]; intros m; [done|].
  rewrite fmap_cons => /NoDup_cons [Hk Hl]. simpl. rewrite IH //.
  destruct (decide (n = k)) as [->|Hne].
  - rewrite lookup_insert_eq. rewrite not_elem_of_list_to_map_1 //. by rewrite lookup_insert_eq.
  - rewrite !lookup_insert_ne //.
Qed.

Lemma scan_files_complete m P data :
  no_null m → data ≡ₚ to_row <$> sel_rows app sub P m →
  ∃ files, scan_files data ∅ = Ok files ∧
    ∀ n, files !! n = if P n then m !! (app, Some sub, n) else None.
Proof.
  intros Hnn Hp. apply Permutation_map_inv in Hp as (l & -> & Hp).
  change (map to_row l) with (to_row <$> l). rewrite scan_files_rows. eexists. split; [done|].
  assert (NoDup l.*1) as Hnd by (by rewrite -Hp; apply sel_rows_NoDup).
  intros n. rewrite foldl_insert_lookup //.
  destruct (list_to_map l !! n) as [h|] eqn:E.
  - apply elem_of_list_to_map in E; [|done]. rewrite -Hp in E.
    apply elem_of_sel_rows in E as [-> ->]; done.
  - rewrite lookup_empty. destruct (P n) eqn:HP; [|done].
    destruct (m !! (app, Some sub, n)) as [h|] eqn:Hm; [|done].
    apply not_elem_of_list_to_map_2 in E. destruct E. rewrite -Hp.
    apply list_elem_of_fmap. exists (n, h). split; [done|]. by apply elem_of_sel_rows.
Qed.

Lemma upd_rows_lookup m name hash k :
  upd_rows app sub name hash m !! k =
    if row_sel app sub (λ n, bool_decide (n = name)) k then (λ _, hash) <$> m !! k else m !! k.
Proof. rewrite /upd_rows map_lookup_imap. case_match; by destruct (m !! k). Qed.

Lemma del_rows_lookup m name k :
  del_rows app sub name m !! k =
    if row_sel app sub (λ n, bool_decide (n = name)) k then None else m !! k.
Proof.
  rewrite /del_rows. destruct (row_sel _ _ _ k) eqn:Es.
  - apply map_lookup_filter_None. right. intros v _. by rewrite Es.
  - destruct (m !! k) as [v|] eqn:E; [by apply map_lookup_filter_Some|].
    apply map_lookup_filter_None. by left.
Qed.

(** [no_null] is kept by every statement. *)
Lemma no_null_insert m app' sub' name hash :
  no_null m → no_null (<[(app', Some sub', name) := hash]> m).
Proof. intros Hnn n. rewrite lookup_insert_ne //. Qed.
End files.

Section upd.
Implicit Types (m : gmap fkey string).
Lemma no_null_upd app app' sub name hash m : no_null app m → no_null app (upd_rows app' sub name hash m).
Proof. intros Hnn n. rewrite upd_rows_lookup Hnn. by case_match. Qed.
Lemma no_null_del app app' sub name m : no_null app m → no_null app (del_rows app' sub name m).
Proof. intros Hnn n. rewrite del_rows_lookup Hnn. by case_match. Qed.

(** On a row [AddFile] wrote, UPDATE and DELETE act on that row alone. *)
Lemma sel_name app sub name m k :
  no_null app m → is_Some (m !! k) →
  row_sel app sub (λ n, bool_decide (n = name)) k = true → k = (app, Some sub, name).
Proof.
  intros Hnn [v Hk] Hs. destruct k as [[a so] n].
  apply row_sel_true in Hs as (Ha & Hs & Hn%bool_decide_eq_true). simpl in *. subst a n.
  apply sub_matches_true in Hs as [->|[-> ->]]; [done|]. by rewrite Hnn in Hk.
Qed.

Lemma row_sel_self app sub name :
  row_sel app sub (λ n, bool_decide (n = name)) (app, Some sub, name) = true.
Proof. apply row_sel_true. split_and!; [done| |by apply bool_decide_eq_true]. by apply bool_decide_eq_true. Qed.

Lemma upd_rows_insert app sub name hash m :
  no_null app m → is_Some (m !! (app, Some sub, name)) →
  upd_rows app sub name hash m = <[(app, Some sub, name) := hash]> m.
Proof.
  intros Hnn [v Hv]. apply map_eq. intros k. rewrite upd_rows_lookup.
  destruct (decide (k = (app, Some sub, name))) as [->|Hne].
  - by rewrite row_sel_self Hv lookup_insert_eq.
  - rewrite lookup_insert_ne //. destruct (row_sel _ _ _ k) eqn:Es; [|done].
    destruct (m !! k) eqn:Ek; [|done]. destruct Hne. by eapply sel_name.
Qed.

Lemma del_rows_delete app sub name m :
  no_null app m → del_rows app sub name m = delete (app, Some sub, name) m.
Proof.
  intros Hnn. apply map_eq. intros k. rewrite del_rows_lookup.
  destruct (decide (k = (app, Some sub, name))) as [->|Hne].
  - by rewrite row_sel_self lookup_delete_eq.
  - rewrite lookup_delete_ne //. destruct (row_sel _ _ _ k) eqn:Es; [|done].
    destruct (m !! k) eqn:Ek; [|done]. destruct Hne. by eapply sel_name.
Qed.

Lemma like_match_all s : like_match "%" s = true.
Proof. simpl. induction s as [|c s IH]; [done|]. done. Qed.

Lemma like_match_literal p s :
  has_char "%"%char p = false → like_match p s = bool_decide (s = p).
Proof.
  revert s. induction p as [|c p IH]; intros s; simpl; [done|].
  rewrite orb_false_iff bool_decide_eq_false => -[Hc Hp]. rewrite decide_False //.
  destruct s as [|d s]; [done|]. rewrite IH //.
  rewrite -bool_decide_and. apply bool_decide_ext. naive_solver.
Qed.
End upd.

(** ** Specifications of the operations *)
Section spec.
Context `{Services} `{!PgLaws pgT}.
Implicit Types (w : World) (db app sub name hash : string).

Definition table (db : string) (w : World) : gmap fkey string := pg_view db (w_pg w).

Lemma wp_Query db sql args Q C w :
  (∀ r s, db_query db sql args (w_pg w) = (r, s) → Q r (set_pg s w)) → wp (Query db sql args) Q C w.
Proof. apply wp_on_pg. Qed.

(** A writing statement returns nil or panics: the error return is not reached. *)
Lemma wp_close_then db sql args (msg : string) (P : sqlrows + error → pgT → Prop) Q C w :
  (∀ r s, db_query db sql args (w_pg w) = (r, s) →
     P (match r with Ok x => inl x | Err e => inr e end) s) →
  (∀ x s, P (inl x) s → Q None (set_pg s w)) →
  (∀ e s, P (inr e) s → C nil_deref (set_pg s w)) →
  wp (r ← Query db sql args; CloseRows r;;
      match r with Err _ => mret (Some (ErrorS msg)) | Ok _ => mret None end) Q C w.
Proof.
  intros HP HQ HC. apply wp_bind, wp_Query. intros r s Hq. apply HP in Hq.
  destruct r as [x|e]; apply wp_bind; simpl; [by apply wp_ret, wp_ret, (HQ x)|].
  by apply wp_throw, (HC e).
Qed.

Lemma wp_AddFile db app sub name hash Q C w :
  (∀ s, table db w !! (app, Some sub, name) = None →
        pg_view db s = <[(app, Some sub, name) := hash]> (table db w) → Q None (set_pg s w)) →
  (∀ s, pg_view db s = table db w ∨
        table db w !! (app, Some sub, name) = None ∧
        pg_view db s = <[(app, Some sub, name) := hash]> (table db w) → C nil_deref (set_pg s w)) →
  wp (AddFile db app sub name hash) Q C w.
Proof.
  intros HQ HC. eapply (wp_close_then _ _ _ _ (λ r s,
    let applied := table db w !! (app, Some sub, name) = None ∧
                   pg_view db s = <[(app, Some sub, name) := hash]> (table db w) in
    match r with inl _ => applied | inr _ => pg_view db s = table db w ∨ applied end)).
  - intros r s Hq. pose proof (pg_insert_law db sub app name hash (w_pg w)) as Hl.
    rewrite Hq in Hl. by destruct r.
  - intros _ s [? ?]. by apply HQ.
  - intros _ s Hs. by apply HC.
Qed.

Lemma wp_UpdateFile db app sub name hash Q C w :
  has_char squote sub = false →
  (∀ s, pg_view db s = upd_rows app sub name hash (table db w) → Q None (set_pg s w)) →
  (∀ s, pg_view db s = table db w ∨ pg_view db s = upd_rows app sub name hash (table db w) →
        C nil_deref (set_pg s w)) →
  wp (UpdateFile db app sub name hash) Q C w.
Proof.
  intros Hsq HQ HC. eapply (wp_close_then _ _ _ _ (λ r s,
    let applied := pg_view db s = upd_rows app sub name hash (table db w) in
    match r with inl _ => applied | inr _ => pg_view db s = table db w ∨ applied end)).
  - intros r s Hq. pose proof (pg_update_law db sub app name hash (w_pg w) Hsq) as Hl.
    rewrite Hq in Hl. by destruct r.
  - intros _ s ?. by apply HQ.
  - intros _ s Hs. by apply HC.
Qed.

Lemma wp_DeleteFile db app sub name Q C w :
  has_char squote sub = false →
  (∀ s, pg_view db s = del_rows app sub name (table db w) → Q None (set_pg s w)) →
  (∀ s, pg_view db s = table db w ∨ pg_view db s = del_rows app sub name (table db w) →
        C nil_deref (set_pg s w)) →
  wp (DeleteFile db app sub name) Q C w.
Proof.
  intros Hsq HQ HC. eapply (wp_close_then _ _ _ _ (λ r s,
    let applied := pg_view db s = del_rows app sub name (table db w) in
    match r with inl _ => applied | inr _ => pg_view db s = table db w ∨ applied end)).
  - intros r s Hq. pose proof (pg_delete_law db sub app name (w_pg w) Hsq) as Hl.
    rewrite Hq in Hl. by destruct r.
  - intros _ s ?. by apply HQ.
  - intros _ s Hs. by apply HC.
Qed.

Context `{!PgStable pgT}.

Lemma wp_GetFilteredFiles db app sub like Q C w :
  no_null app (table db w) → has_char squote sub = false → plain_pattern like = true →
  (∀ s files, pg_view db s = table db w →
     (∀ n, files !! n = if like_match (if decide (like = "") then "%" else like) n
                        then table db w !! (app, Some sub, n) else None) → Q (Ok files) (set_pg s w)) →
  (∀ s e, pg_view db s = table db w → Q (Err e) (set_pg s w)) →
  wp (GetFilteredFiles db app sub like) Q C w.
Proof.
  intros Hnn Hsq Hlike HQ HE. rewrite /GetFilteredFiles.
  set (like' := if decide (like = "") then "%" else like).
  assert (plain_pattern like' = true) as Hlike' by (rewrite /like'; by case_decide).
  apply wp_bind, wp_Query. intros r s Hq.
  pose proof (pg_select_law db sub app like' (w_pg w) Hsq Hlike') as Hl. rewrite Hq in Hl.
  destruct Hl as [Hv Hrows]. destruct r as [rs|e]; [|by apply wp_ret, HE].
  specialize (Hrows rs eq_refl). rewrite /answers (pg_stable _ _ _ _ _ _ Hq) in Hrows.
  destruct (scan_files_complete app sub _ _ _ Hnn Hrows) as (files & -> & Hf).
  by apply wp_ret, HQ.
Qed.

Lemma wp_GetFiles db app sub Q C w :
  no_null app (table db w) → has_char squote sub = false →
  (∀ s files, pg_view db s = table db w →
     (∀ n, files !! n = table db w !! (app, Some sub, n)) → Q (Ok files) (set_pg s w)) →
  (∀ s e, pg_view db s = table db w → Q (Err e) (set_pg s w)) →
  wp (GetFiles db app sub) Q C w.
Proof.
  intros Hnn Hsq HQ HE. apply wp_GetFilteredFiles; try done.
  intros s files Hs Hf. apply HQ; [done|]. intros n. rewrite Hf.
  exact (f_equal (λ b : bool, if b then _ else _) (like_match_all n)).
Qed.

Lemma wp_GetFile db app sub name Q C w :
  no_null app (table db w) → has_char squote sub = false → plain_pattern name = true →
  has_char "%"%char name = false → name ≠ "" →
  (∀ s r, pg_view db s = table db w →
     (∀ h, r = Ok h → table db w !! (app, Some sub, name) = Some h) → Q r (set_pg s w)) →
  wp (GetFile db app sub name) Q C w.
Proof.
  intros Hnn Hsq Hp Hpc Hne HQ. apply wp_bindR, wp_GetFilteredFiles; try done.
  - intros s files Hs Hf. specialize (Hf name).
    rewrite decide_False // like_match_literal // bool_decide_eq_true_2 // in Hf.
    destruct (files !! name) as [h|] eqn:E; apply wp_ret, HQ; try done. intros h' [= <-]. congruence.
  - intros s e Hs. by apply HQ.
Qed.

Lemma wp_GetSliceFilteredFiles db app sub likes Q C w :
  no_null app (table db w) → has_char squote sub = false →
  forallb plain_pattern likes = true → likes ≠ [] →
  (∀ s files, pg_view db s = table db w →
     (∀ n, files !! n = if existsb (λ p, like_match p n) likes
                        then table db w !! (app, Some sub, n) else None) → Q (Ok files) (set_pg s w)) →
  (∀ s e, pg_view db s = table db w → Q (Err e) (set_pg s w)) →
  wp (GetSliceFilteredFiles db app sub likes) Q C w.
Proof.
  intros Hnn Hsq Hp Hne HQ HE. rewrite /GetSliceFilteredFiles decide_False //.
  apply wp_bind, wp_Query. intros r s Hq.
  pose proof (pg_select_any_law db sub app likes (w_pg w) Hsq Hp Hne) as Hl. rewrite Hq in Hl.
  destruct Hl as [Hv Hrows]. destruct r as [rs|e]; [|by apply wp_ret, HE].
  specialize (Hrows rs eq_refl). rewrite /answers (pg_stable _ _ _ _ _ _ Hq) in Hrows.
  destruct (scan_files_complete app sub _ _ _ Hnn Hrows) as (files & -> & Hf).
  by apply wp_ret, HQ.
Qed.

(** A count of the rows selected by a key predicate. *)
Lemma wp_resourceExists (P : fkey → Prop) `{!∀ k, Decision (P k)} db col id Q C w :
  (let '(r, s') := db_query db (count_sql col) [id] (w_pg w) in
   pg_view db s' = table db w ∧
   ∀ rs, r = Ok rs →
     answers rs [[SInt (Z.of_nat (size (filter (λ kv : fkey * string, P kv.1) (table db w))))]]) →
  (∀ s b, pg_view db s = table db w → (b = true ↔ ∃ k v, table db w !! k = Some v ∧ P k) →
     Q (Ok b) (set_pg s w)) →
  (∀ s e, pg_view db s = table db w → Q (Err e) (set_pg s w)) →
  wp (resourceExists db col id) Q C w.
Proof.
  intros Hl HQ HE. apply wp_bind, wp_Query. intros r s Hq. rewrite Hq in Hl.
  destruct Hl as [Hv Hrows]. destruct r as [rs|e]; [|by apply wp_ret, HE].
  specialize (Hrows rs eq_refl). rewrite /answers (pg_stable _ _ _ _ _ _ Hq) in Hrows.
  apply Permutation_singleton_r in Hrows as ->. simpl. apply wp_ret, HQ; [done|].
  rewrite bool_decide_eq_true. split.
  - intros Hpos. destruct (map_choose (filter (λ kv : fkey * string, P kv.1) (table db w))) as (k & v & Hk).
    { intros E. by rewrite E map_size_empty in Hpos. }
    apply map_lookup_filter_Some in Hk as [Hk HP]. eauto.
  - intros (k & v & Hk & HP).
    assert (filter (λ kv : fkey * string, P kv.1) (table db w) ≠ ∅) as Hne%map_size_non_empty_iff; [|lia].
    intros E. assert (filter (λ kv : fkey * string, P kv.1) (table db w) !! k = Some v) as Hl
      by by apply map_lookup_filter_Some.
    by rewrite E in Hl.
Qed.

Lemma wp_AppExists db app Q C w :
  (∀ s b, pg_view db s = table db w → (b = true ↔ ∃ so n v, table db w !! (app, so, n) = Some v) →
     Q (Ok b) (set_pg s w)) →
  (∀ s e, pg_view db s = table db w → Q (Err e) (set_pg s w)) →
  wp (AppExists db app) Q C w.
Proof.
  intros HQ HE. eapply (wp_resourceExists (λ k, k.1.1 = app)); [apply pg_count_app_law| |done].
  intros s b Hs Hb. apply HQ; [done|]. rewrite Hb. split.
  - intros ([[a so] n] & v & ? & <-). eauto.
  - intros (so & n & v & ?). by exists (app, so, n), v.
Qed.

Lemma wp_SubmissionExists db sub Q C w :
  (∀ s b, pg_view db s = table db w → (b = true ↔ ∃ a n v, table db w !! (a, Some sub, n) = Some v) →
     Q (Ok b) (set_pg s w)) →
  (∀ s e, pg_view db s = table db w → Q (Err e) (set_pg s w)) →
  wp (SubmissionExists db sub) Q C w.
Proof.
  intros HQ HE. eapply (wp_resourceExists (λ k, k.1.2 = Some sub)); [apply pg_count_sub_law| |done].
  intros s b Hs Hb. apply HQ; [done|]. rewrite Hb. split.
  - intros ([[a so] n] & v & ? & ?). simpl in *. subst. eauto.
  - intros (a & n & v & ?). by exists (a, Some sub, n), v.
Qed.

(** The table after copying the files [l] to a submission. *)
Definition snap_rows app sub (l : list (string * string)) (m : gmap fkey string) : gmap fkey string :=
  foldl (λ a nh, <[(app, Some sub, nh.1) := nh.2]> a) m l.

Lemma snap_rows_snoc app sub l nh m :
  snap_rows app sub (l ++ [nh]) m = <[(app, Some sub, nh.1) := nh.2]> (snap_rows app sub l m).
Proof. by rewrite /snap_rows foldl_app. Qed.

Lemma snap_rows_other app sub l m k :
  (∀ n, k ≠ (app, Some sub, n)) → snap_rows app sub l m !! k = m !! k.
Proof.
  intros Hk. revert m. induction l as [|nh l IH]; intros m; [done|]. simpl. rewrite IH.
  by rewrite lookup_insert_ne.
Qed.

Lemma snap_rows_lookup app sub l m n :
  NoDup l.*1 →
  snap_rows app sub l m !! (app, Some sub, n) =
    match list_to_map (M:=gmap string string) l !! n with
    | Some h => Some h | None => m !! (app, Some sub, n) end.
Proof.
  revert m. induction l as [|[k h] l IH]; intros m; [done|].
  rewrite fmap_cons => /NoDup_cons [Hk Hl]. simpl. rewrite IH //.
  destruct (decide (n = k)) as [->|Hne].
  - rewrite lookup_insert_eq. rewrite not_elem_of_list_to_map_1 //. by rewrite lookup_insert_eq.
  - rewrite lookup_insert_ne //. rewrite lookup_insert_ne //. congruence.
Qed.

(** [MakeSnapshot]: on success every dev row has its copy; whatever happens, only
    rows of the submission are added. *)
Lemma wp_MakeSnapshot db app sub Q C w :
  no_null app (table db w) →
  (∀ w' s t, w' = set_pg s (set_tick t w) →
     (∀ n, match table db w !! (app, Some "", n) with
           | Some h => pg_view db s !! (app, Some sub, n) = Some h
           | None => pg_view db s !! (app, Some sub, n) = table db w !! (app, Some sub, n) end) →
     (∀ k, (∀ n, k ≠ (app, Some sub, n)) → pg_view db s !! k = table db w !! k) → Q None w') →
  (∀ w' s t e, w' = set_pg s (set_tick t w) → pg_view db s = table db w → Q (Some e) w') →
  (∀ w' s t, w' = set_pg s (set_tick t w) →
     (∀ k, (∀ n, k ≠ (app, Some sub, n)) → pg_view db s !! k = table db w !! k) → C nil_deref w') →
  wp (MakeSnapshot db app sub) Q C w.
Proof.
  intros Hnn HQ HE HC. apply wp_bind, wp_GetFiles; [done|done| |].
  2:{ intros s e Hs. apply wp_ret. eapply (HE _ s (w_tick w)); [by destruct w|done]. }
  intros s files Hs Hf. apply wp_bind, wp_range_map. intros l Hl.
  set (t := S _). set (w1 := set_tick t w).
  set (I := λ (pre : list (string * string)) w', ∃ s', w' = set_pg s' w1 ∧
    pg_view db s' = snap_rows app sub pre (table db w)).
  apply (wp_range_err I).
  - exists s. by split.
  - intros pre [n h] post w' Hsplit (s' & -> & Hs'). apply wp_bind, wp_AddFile.
    + intros s2 Hfresh Hs2. apply wp_ret. exists s2. split; [done|].
      rewrite snap_rows_snoc Hs2. by rewrite /table /= Hs'.
    + intros s2 Hs2. eapply (HC _ s2 t); [done|]. intros k Hk. simpl in Hs2.
      destruct Hs2 as [-> | [_ ->]]; [|rewrite lookup_insert_ne; [|done]];
        rewrite /table /= Hs'; by apply snap_rows_other.
  - intros w' (s' & -> & Hs'). eapply (HQ _ s' t); [done| |].
    + intros n. rewrite Hs'.
      assert (NoDup l.*1) as Hnd by (rewrite Hl; apply NoDup_fst_map_to_list).
      rewrite snap_rows_lookup // -Hf.
      assert (list_to_map l = files) as ->.
      { rewrite -(list_to_map_to_list files). by apply list_to_map_proper. }
      by destruct (files !! n).
    + intros k Hk. rewrite Hs'. by apply snap_rows_other.
Qed.
End spec.
End Db.
