(* ===== verification/Unzip.v ===== *)
(** * Unpacking the archive a client pushes

    [src/src/siphon/bundler/unzip.go].  File permissions are not modelled. *)

From S2P Require Import Prelude GoStrings GoPath FileSys Services.

Module Unzip.

(** [extractFile] *)
Definition extractFile (file : zipentry) (dest : string) (f : fsys) : option error * fsys :=
  if Contains (z_name file) ".." then (Some (ErrorS ("Bad zip listing name: " +:+ z_name file)), f)
  else
    let name := Clean (Replace (z_name file) "../" "" None) in
    let filePath := PathJoin [dest; name] in
    if z_dir file then MkdirAll f filePath
    else
      match MkdirAll f (Dir filePath) with
      | (Some err, f) => (Some err, f)
      | (None, f) =>
          if z_link file then
            match z_read file with
            | Some err => (Some err, f)
            | None => Symlink f (z_bytes file) filePath
            end
          else
            match WriteFile f filePath (z_bytes file) with
            | (Some err, f) => (Some err, f)
            | (None, f) => (z_read file, f)
            end
      end.

(** The loop of [Unzip]. *)
Fixpoint unzip_files (files : list zipentry) (dest : string) (f : fsys) : option error * fsys :=
  match files with
  | [] => (None, f)
  | file :: files =>
      match z_open file with
      | Some err => (Some err, f)
      | None =>
          match extractFile file dest f with
          | (Some err, f) => (Some err, f)
          | (None, f) => unzip_files files dest f
          end
      end
  end.

Section unzip.
Context `{GoLib}.

(** [Unzip] *)
Definition Unzip_ (src dest : string) (f : fsys) : option error * fsys :=
  match ReadFile f src with
  | Err err => (Some err, f)
  | Ok b =>
      match zip_read b with
      | Err err => (Some err, f)
      | Ok files => unzip_files files dest f
      end
  end.
End unzip.

(** ** Confinement *)
Section confined.
Implicit Types (f : fsys) (d cp : list string).

(** [d] is an existing directory reached without links, with no link below it. *)
Record tree_ok (d : list string) (f : fsys) : Prop := {
  tree_chain : ∀ cp, cp `prefix_of` d → cp ≠ [] → fs_nodes f !! cp = Some NDir;
  tree_links : ∀ cp t, d `prefix_of` cp → fs_nodes f !! cp ≠ Some (NLink t);
}.

(** Between [f] and [f'], only nodes below [d] changed. *)
Definition only_below (d : list string) (f f' : fsys) : Prop :=
  ∀ cp, ¬ d `prefix_of` cp → fs_nodes f' !! cp = fs_nodes f !! cp.

Lemma only_below_refl d f : only_below d f f.
Proof. by intros cp. Qed.
Lemma only_below_trans d f1 f2 f3 : only_below d f1 f2 → only_below d f2 f3 → only_below d f1 f3.
Proof. intros H1 H2 cp Hcp. by rewrite H2 // H1. Qed.

(** A path below [d] meets no link. *)
Lemma tree_link_free d rel f : tree_ok d f → link_free (fs_nodes f) [] (d ++ rel).
Proof.
  intros [Hc Hl] k c t Hk E. simpl in E.
  destruct (decide (S k ≤ length d)) as [Hle|Hgt].
  - rewrite take_app_le // in E. rewrite (Hc (take (S k) d)) // in E; [apply prefix_take|].
    destruct d; simpl in *; [lia|done].
  - rewrite take_app_ge in E; [|lia]. eapply Hl; [|exact E]. by eexists.
Qed.

Lemma resolve_below d rel f p q :
  tree_ok d f → rooted p = true → comps p = d ++ rel → no_dotdot (d ++ rel) →
  resolve f p = inr q → q = d ++ rel.
Proof.
  intros Ht Hr Hp Hdd. rewrite /resolve /start_dir Hr Hp.
  intros Hw. apply walk_link_free in Hw; [done|done|]. by apply tree_link_free.
Qed.

Lemma set_node_tree d f cp n :
  tree_ok d f → (∀ t, n ≠ NLink t) → (cp `prefix_of` d → n = NDir) → tree_ok d (set_node f cp n).
Proof.
  intros [Hc Hl] Hn Hp. split; simpl.
  - intros cp' Hcp' Hne. destruct (decide (cp = cp')) as [->|Hne'].
    + rewrite lookup_insert_eq. by rewrite Hp.
    + rewrite lookup_insert_ne //. by apply Hc.
  - intros cp' t Hcp'. destruct (decide (cp = cp')) as [->|Hne'].
    + rewrite lookup_insert_eq. intros [= E]. by apply (Hn t).
    + rewrite lookup_insert_ne //. by apply Hl.
Qed.

Lemma removelast_prefix (l : list string) : removelast l `prefix_of` l.
Proof.
  destruct l as [|x l] using rev_ind; [done|]. rewrite removelast_last. by eexists.
Qed.

Lemma no_dotdot_prefix (l l' : list string) : l `prefix_of` l' → no_dotdot l' → no_dotdot l.
Proof. intros [k ->] H Hin. apply H, elem_of_app. by left. Qed.

(** [MkdirAll] below [d] creates directories below [d] only. *)
Lemma mkdir_below d f p cur todo e f' :
  tree_ok d f → no_dotdot todo →
  (∀ k, (k ≤ length todo)%nat → cur ++ take k todo `prefix_of` d ∨ d `prefix_of` cur ++ take k todo) →
  mkdir_go f p cur todo = (e, f') →
  tree_ok d f' ∧ only_below d f f' ∧ fs_cwd f' = fs_cwd f.
Proof.
  revert f cur. induction todo as [|c rest IH]; intros f cur Ht Hdd Hpre; simpl.
  { intros [= <- <-]. done. }
  apply not_elem_of_cons in Hdd as [Hc Hdd]. rewrite decide_False //.
  assert (∀ k, (k ≤ length rest)%nat → (cur ++ [c]) ++ take k rest `prefix_of` d ∨
                d `prefix_of` (cur ++ [c]) ++ take k rest) as Hpre'.
  { intros k Hk. rewrite -app_assoc. apply (Hpre (S k)). simpl. lia. }
  pose proof (Hpre 1 ltac:(simpl; lia)) as H1. simpl in H1. rewrite take_0 in H1.
  destruct (fs_nodes f !! (cur ++ [c])) as [[b| |t]|] eqn:E.
  - intros [= <- <-]. done.
  - by apply IH.
  - exfalso. destruct H1 as [H1|H1].
    + rewrite (tree_chain d f Ht) // in E. by destruct cur.
    + by apply (tree_links d f Ht (cur ++ [c]) t).
  - intros Hm. destruct H1 as [H1|H1].
    { rewrite (tree_chain d f Ht) // in E. by destruct cur. }
    apply IH in Hm as (Ht' & Hob & Hcwd); [|by apply set_node_tree|done|done].
    split_and!; [done| |done]. eapply only_below_trans; [|done].
    intros cp Hcp. simpl. rewrite lookup_insert_ne //. by intros <-.
Qed.

Lemma MkdirAll_below d rel f p e f' :
  tree_ok d f → rooted p = true → comps p = d ++ rel → no_dotdot (d ++ rel) →
  MkdirAll f p = (e, f') → tree_ok d f' ∧ only_below d f f' ∧ fs_cwd f' = fs_cwd f.
Proof.
  intros Ht Hr Hp Hdd. rewrite /MkdirAll /start_dir Hr Hp. intros Hm.
  eapply (mkdir_below d); [exact Ht|exact Hdd| |exact Hm].
  intros k Hk. simpl. destruct (decide (k ≤ length d)) as [Hle|Hgt].
  - left. rewrite take_app_le //. apply prefix_take.
  - right. rewrite take_app_ge; [|lia]. by eexists.
Qed.

Lemma WriteFile_below d rel f p b e f' :
  tree_ok d f → rooted p = true → comps p = d ++ rel → no_dotdot (d ++ rel) → d ≠ [] →
  WriteFile f p b = (e, f') → tree_ok d f' ∧ only_below d f f' ∧ fs_cwd f' = fs_cwd f.
Proof.
  intros Ht Hr Hp Hdd Hd. rewrite /WriteFile. destruct (resolve f p) as [er|q] eqn:Eq.
  { by intros [= <- <-]. }
  apply (resolve_below d rel) in Eq as ->; [|done..].
  destruct (d ++ rel) as [|x l] eqn:Edr; [by destruct d|]. simpl node_at. rewrite -Edr in Hdd |- *.
  assert (∀ n, fs_nodes f !! (d ++ rel) = n → n ≠ Some NDir → rel ≠ []) as Hrel.
  { intros n Hn Hnd ->. apply Hnd. rewrite -Hn app_nil_r. by apply (tree_chain d f Ht). }
  assert (∀ n, fs_nodes f !! (d ++ rel) = n → n ≠ Some NDir →
     tree_ok d (set_node f (d ++ rel) (NFile b)) ∧ only_below d f (set_node f (d ++ rel) (NFile b))) as Hset.
  { intros n Hn Hnd. specialize (Hrel n Hn Hnd). split.
    - apply set_node_tree; [done|done|]. intros [k Hk]. destruct rel; [done|].
      apply (f_equal length) in Hk. rewrite !length_app /= in Hk. lia.
    - intros cp Hcp. simpl. rewrite lookup_insert_ne //. intros <-. apply Hcp. by eexists. }
  destruct (fs_nodes f !! (d ++ rel)) as [[b'| |t]|] eqn:En; intros [= <- <-]; try done.
  - by destruct (Hset _ eq_refl) as [? ?].
  - by destruct (Hset _ eq_refl) as [? ?].
Qed.

(** Every entry that is not a link is unpacked below the destination. *)
Lemma extractFile_below dest file f e f' :
  rooted dest = true → no_dotdot (comps dest) → comps dest ≠ [] → tree_ok (comps dest) f →
  z_link file = false → extractFile file dest f = (e, f') →
  tree_ok (comps dest) f' ∧ only_below (comps dest) f f'.
Proof.
  intros Hr Hdd Hne Ht Hl. rewrite /extractFile Hl.
  destruct (Contains (z_name file) "..") eqn:Hc; [by intros [= <- <-]|].
  rewrite Replace_absent; [|by apply (Contains_app_false _ ".." "/")].
  assert (no_dotdot (comps (z_name file))) as Hn by (by apply comps_no_dotdot).
  set (n := Clean (z_name file)).
  assert (comps n = comps (z_name file)) as Hcn by (by apply no_dotdot_Clean).
  assert (no_dotdot (comps dest ++ comps n)) as Hdn.
  { rewrite Hcn /no_dotdot elem_of_app. by intros [?|?]. }
  assert (comps (PathJoin [dest; n]) = comps dest ++ comps n) as Hp.
  { apply comps_PathJoin_confined; [done..|by rewrite Hcn]. }
  pose proof (rooted_PathJoin dest n Hr) as Hrp.
  destruct (comps_Dir_PathJoin dest n Hr Hdn) as [Hpd Hrd]; [by destruct (comps dest)|].
  destruct (z_dir file).
  { intros Hm. by apply (MkdirAll_below (comps dest) (comps n)) in Hm as (? & ? & ?). }
  destruct (MkdirAll f (Dir (PathJoin [dest; n]))) as [e1 f1] eqn:Hm.
  assert (tree_ok (comps dest) f1 ∧ only_below (comps dest) f f1) as [Ht1 Hob1].
  { destruct (decide (comps n = [])) as [E|E].
    - rewrite E app_nil_r in Hpd. rewrite /MkdirAll /start_dir Hrd Hpd in Hm.
      apply (mkdir_below (comps dest)) in Hm as (? & ? & ?); try done.
      + eapply no_dotdot_prefix; [apply removelast_prefix|done].
      + intros k _. left. simpl. etrans; [apply prefix_take|apply removelast_prefix].
    - rewrite removelast_app // in Hpd.
      apply (MkdirAll_below (comps dest) (removelast (comps n))) in Hm as (? & ? & ?); try done.
      eapply no_dotdot_prefix; [|exact Hdn]. apply prefix_app, removelast_prefix. }
  destruct e1 as [e1|]; [by intros [= <- <-]|].
  destruct (WriteFile f1 (PathJoin [dest; n]) (z_bytes file)) as [e2 f2] eqn:Hw.
  apply (WriteFile_below (comps dest) (comps n)) in Hw as (Ht2 & Hob2 & _); try done.
  intros H2. assert (f' = f2) as -> by (destruct e2; congruence).
  split; [done|]. by eapply only_below_trans.
Qed.

Lemma unzip_files_below dest files f e f' :
  rooted dest = true → no_dotdot (comps dest) → comps dest ≠ [] → tree_ok (comps dest) f →
  Forall (λ z, z_link z = false) files → unzip_files files dest f = (e, f') →
  tree_ok (comps dest) f' ∧ only_below (comps dest) f f'.
Proof.
  intros Hr Hdd Hne Ht Hl. revert f Ht. induction Hl as [|z files Hz Hl IH]; intros f Ht; simpl.
  { by intros [= <- <-]. }
  destruct (z_open z); [by intros [= <- <-]|].
  destruct (extractFile z dest f) as [[e1|] f1] eqn:E;
    apply extractFile_below in E as [Ht1 Hob1]; try done.
  - by intros [= <- <-].
  - intros Hu. apply IH in Hu as [Ht2 Hob2]; [|done]. split; [done|]. by eapply only_below_trans.
Qed.
End confined.
End Unzip.
