(* ===== verification/Metadata.v ===== *)
(** * The Siphonfile

    [src/src/siphon/bundler/metadata.go]: decoding and validation of an app's
    metadata. *)

From S2P Require Import Prelude GoStrings GoFloat Services.

Module Metadata.

Definition MetadataName : string := "Siphonfile".

Section metadata.
Context `{GoLib}.

Definition quoted (s : string) : string := dquote +:+ s +:+ dquote.

Definition too_long (s : string) (n : nat) : bool := bool_decide (n < String.length s)%nat.

(** [ParseMetadata] *)
Definition ParseMetadata (b : string) : result Metadata :=
  match json_metadata b with
  | Err _ => Err (ErrorS ("The format of your " +:+ MetadataName +:+ " is invalid. " +:+
                          "Please check the documentation."))
  | Ok m =>
      if decide (BaseVersion m = "") then
        Err (ErrorS ("The " +:+ quoted "base_version" +:+ " key in your " +:+ MetadataName +:+
                     " is empty, it should be a string like " +:+ quoted "0.1" +:+ "."))
      else if negb (ParseFloat_ok (BaseVersion m)) then
        Err (ErrorS ("The " +:+ quoted "base_version" +:+ " key in your " +:+ MetadataName +:+
                     " is not in the correct format, it should be a string like " +:+
                     quoted "0.1" +:+ "."))
      else if too_long (DisplayName m) 32 then
        Err (ErrorS ("The " +:+ quoted "display_name" +:+ " key in your " +:+ MetadataName +:+
                     " is too long. The maximum is 32 characters."))
      else if too_long (FacebookAppID m) 32 then
        Err (ErrorS ("The " +:+ quoted "facebook_app_id" +:+ " key in your " +:+ MetadataName +:+
                     " is too long. You can find the app ID in your app's dashboard at " +:+
                     "https://developers.facebook.com"))
      else if too_long (StoreName (IOS m)) 255 then
        Err (ErrorS ("The iOS " +:+ quoted "store_name" +:+ " key in your " +:+ MetadataName +:+
                     " is too long. The maximum is 255 characters."))
      else if too_long (Language (IOS m)) 7 then
        Err (ErrorS ("The iOS " +:+ quoted "language" +:+ " key in your " +:+ MetadataName +:+
                     " is too long. The maximum is 7 characters."))
      else if too_long (StoreName (Android m)) 30 then
        Err (ErrorS ("The Android " +:+ quoted "store_name" +:+ " key in your " +:+ MetadataName +:+
                     " is too long. The maximum is 30 characters."))
      else if too_long (Language (Android m)) 7 then
        Err (ErrorS ("The Android " +:+ quoted "language" +:+ " key in your " +:+ MetadataName +:+
                     " is too long. The maximum is 7 characters."))
      else Ok m
  end.
End metadata.

(** ** Properties *)

(** What an accepted Siphonfile satisfies. *)
Record valid (m : Metadata) : Prop := {
  valid_version : BaseVersion m ≠ "" ∧ ParseFloat_ok (BaseVersion m) = true;
  valid_display : (String.length (DisplayName m) ≤ 32)%nat;
  valid_facebook : (String.length (FacebookAppID m) ≤ 32)%nat;
  valid_ios_store : (String.length (StoreName (IOS m)) ≤ 255)%nat;
  valid_ios_lang : (String.length (Language (IOS m)) ≤ 7)%nat;
  valid_android_store : (String.length (StoreName (Android m)) ≤ 30)%nat;
  valid_android_lang : (String.length (Language (Android m)) ≤ 7)%nat;
}.

Lemma too_long_false s n : too_long s n = false ↔ (String.length s ≤ n)%nat.
Proof. rewrite /too_long bool_decide_eq_false. lia. Qed.

End Metadata.
