(* ===== verification/Archive.v ===== *)
(** * The pushed archive

    [src/src/siphon/bundler/archive.go]: the unpacked POST payload, its listing
    (file name to SHA-256, as the client reports them) and the comparison of the
    listing with the files the server has. *)

From S2P Require Import Prelude GoStrings GoPath FileSys Services Unzip Metadata.

Module Archive.

Definition diffsDir : string := "diffs".
Definition listingFile : string := "listing.json".

(** [Archive]; the listing is [nil] until it has been parsed. *)
Record Archive := mkArchive {
  tempDir : string;
  listing : option (gmap string string);
}.

Record ArchiveComparison := mkComparison {
  added : list string;
  changed : list string;
  removed : list string;
}.

(** [for k := range m], [m[k]] on a map that may be [nil]. *)
Definition nil_map (m : option (gmap string string)) : gmap string string := default ∅ m.

(** The security check of [parseListingFile], in the order of the loop. *)
Fixpoint check_listing (l : list (string * string)) : option error :=
  match l with
  | [] => None
  | (name, sha) :: l =>
      if Contains name "../" then Some (ErrorS ("Bad listing name: " +:+ name))
      else if decide (sha = "") then Some (ErrorS ("Bad listing SHA: " +:+ sha))
      else check_listing l
  end.

(** The first loop of [Compare]. *)
Fixpoint compare_loop (files : gmap string string) (l : list (string * string))
    (added changed : list string) : list string * list string :=
  match l with
  | [] => (added, changed)
  | (name, sha) :: l =>
      match files !! name with
      | None => compare_loop files l (added ++ [name]) changed
      | Some serverSha =>
          if decide (sha ≠ serverSha) then compare_loop files l added (changed ++ [name])
          else compare_loop files l added changed
      end
  end.

(** The last loop of [Compare]. *)
Fixpoint removals (listing : gmap string string) (l : list (string * string))
    (removed : list string) : list string :=
  match l with
  | [] => removed
  | (name, _) :: l =>
      match listing !! name with
      | None => removals listing l (removed ++ [name])
      | Some _ => removals listing l removed
      end
  end.

Section archive.
Context `{Services}.

(** [NewArchive] *)
Definition NewArchive : Archive := mkArchive "" None.

(** [parseListingFile]: a listing file that cannot be opened or read gives no
    bytes, which is not JSON. *)
Definition parseListingFile (a : Archive) : MW (option error * Archive) :=
  match listing a with
  | Some _ => mret (None, a)
  | None =>
      let p := PathJoin [tempDir a; listingFile] in
      r ← read_fs (λ f, ReadFile f p);
      let b := match r with Ok b => b | Err _ => "" end in
      match json_listing b with
      | Err err => mret (Some err, a)
      | Ok l =>
          order ← range_map (nil_map l);
          match check_listing order with
          | Some err => mret (Some err, a)
          | None => mret (None, mkArchive (tempDir a) l)
          end
      end
  end.

Definition diffPath (a : Archive) (name : string) : string :=
  PathJoin [tempDir a; diffsDir; name].

Definition diffExists (a : Archive) (name : string) (f : fsys) : bool :=
  match Stat f (diffPath a name) with
  | Err err => if IsNotExist err then false else true
  | Ok _ => true
  end.

(** [GetHash] *)
Definition GetHash (a : Archive) (name : string) : string :=
  match nil_map (listing a) !! name with
  | None => ""
  | Some h => h
  end.

(** [GetContent] *)
Definition GetContent (a : Archive) (name : string) (f : fsys) : result string :=
  ReadFile f (diffPath a name).

(** [GetMetadata]: [None] is a nil slice. *)
Definition GetMetadata (a : Archive) : MW (result (option string)) :=
  ex ← read_fs (diffExists a Metadata.MetadataName);
  if negb ex then mret (Ok None)
  else
    r ← read_fs (GetContent a Metadata.MetadataName);
    match r with
    | Err err => mret (Err err)
    | Ok b => mret (Ok (Some b))
    end.

(** [Compare] *)
Definition Compare (a : Archive) (files : gmap string string) :
    MW (result ArchiveComparison * Archive) :=
  r ← parseListingFile a;
  let '(err, a) := r in
  match err with
  | Some err => mret (Err err, a)
  | None =>
      order ← range_map (nil_map (listing a));
      let '(added, changed) := compare_loop files order [] [] in
      f ← gets w_fs;
      if forallb (λ name, diffExists a name f) (added ++ changed) then
        order' ← range_map files;
        mret (Ok (mkComparison added changed (removals (nil_map (listing a)) order' [])), a)
      else mret (Err (ErrorS "Listing does not match diffs/ in archive."), a)
  end.

(** [Decompress]: the error of writing the archive out is overwritten by the one
    of unpacking it. *)
Definition Decompress (a : Archive) (b : string) : MW (option error * Archive) :=
  r ← TempDir "bundler-archive";
  match r with
  | Err _ => mret (Some (ErrorS "Failed to decompress the payload."), a)
  | Ok d =>
      let a := mkArchive d (listing a) in
      let src := PathJoin [tempDir a; "archive.zip"] in
      on_fs (λ f, WriteFile f src b);;
      err ← on_fs (Unzip.Unzip_ src (tempDir a));
      match err with
      | Some _ => mret (Some (ErrorS "Failed to decompress the payload."), a)
      | None => mret (None, a)
      end
  end.

(** [Close]: a failure is only logged. *)
Definition Close (a : Archive) : MW () :=
  on_fs (λ f, RemoveAll f (tempDir a));; mret tt.
End archive.

(** ** Properties *)
Section compare.
Implicit Types (files listing : gmap string string).

(** The comparison as a set of names, whatever the order of the loops. *)
Definition is_added listing files n : Prop := is_Some (listing !! n) ∧ files !! n = None.
Definition is_changed listing files n : Prop :=
  ∃ h h', listing !! n = Some h ∧ files !! n = Some h' ∧ h ≠ h'.
Definition is_removed listing files n : Prop := listing !! n = None ∧ is_Some (files !! n).

Lemma compare_loop_app files l ad ch :
  compare_loop files l ad ch =
    (ad ++ (compare_loop files l [] []).1, ch ++ (compare_loop files l [] []).2).
Proof.
  revert ad ch. induction l as [|[n h] l IH]; intros ad ch; simpl; [by rewrite !app_nil_r|].
  destruct (files !! n); [case_decide|]; rewrite IH // (IH [] _) // ?(IH [n]) // ?(IH [] [n]) /=;
    by rewrite -?app_assoc.
Qed.

Lemma removals_app listing l rm : removals listing l rm = rm ++ removals listing l [].
Proof.
  revert rm. induction l as [|[n h] l IH]; intros rm; simpl; [by rewrite app_nil_r|].
  destruct (listing !! n); rewrite IH // (IH [n]). by rewrite -app_assoc.
Qed.

Lemma compare_loop_spec files l ad ch :
  compare_loop files l [] [] = (ad, ch) → NoDup l.*1 →
  (∀ n, n ∈ ad ↔ n ∈ l.*1 ∧ files !! n = None) ∧
  (∀ n, n ∈ ch ↔ ∃ h h', (n, h) ∈ l ∧ files !! n = Some h' ∧ h ≠ h') ∧
  NoDup (ad ++ ch).
Proof.
  revert ad ch. induction l as [|[n h] l IH]; intros ad ch; simpl.
  { intros [= <- <-] _. split_and!; [set_solver..|constructor]. }
  destruct (compare_loop files l [] []) as [ad' ch'] eqn:E.
  intros H [Hn Hnd]%NoDup_cons. destruct (IH _ _ eq_refl Hnd) as (Ha & Hc & Hd). clear IH.
  destruct (files !! n) as [sha|] eqn:Ef; [case_decide as Hne|]; rewrite compare_loop_app E /= in H || idtac;
    injection H as <- <-.
  - split_and!.
    + intros m. rewrite Ha. set_solver.
    + intros m. rewrite elem_of_cons Hc. split.
      * intros [-> |(h1 & h2 & ? & ? & ?)]; [exists h, sha; set_solver|exists h1, h2; set_solver].
      * intros (h1 & h2 & [?|?]%elem_of_cons & ? & ?); simplify_eq; [by left|right; eauto].
    + apply NoDup_app in Hd as (Hd1 & Hd2 & Hd3). apply NoDup_app. split_and!; [done| |].
      * intros m Hm. rewrite elem_of_cons. intros [->|?]; [|by eapply Hd2].
        apply Ha in Hm as [_ ?]. congruence.
      * constructor; [|done]. rewrite Hc. intros (h1 & h2 & Hin & _).
        apply Hn. apply list_elem_of_fmap. by exists (n, h1).
  - split_and!; [| |done].
    + intros m. rewrite Ha. set_solver.
    + intros m. rewrite Hc. split.
      * intros (h1 & h2 & ? & ? & ?). exists h1, h2. set_solver.
      * intros (h1 & h2 & [?|?]%elem_of_cons & ? & ?); simplify_eq; eauto.
  - split_and!.
    + intros m. rewrite elem_of_cons Ha. set_solver.
    + intros m. rewrite Hc. split.
      * intros (h1 & h2 & ? & ? & ?). exists h1, h2. set_solver.
      * intros (h1 & h2 & [?|?]%elem_of_cons & ? & ?); simplify_eq; eauto.
    + simpl. constructor; [|done]. rewrite elem_of_app Ha Hc. intros [[? _]|(h1 & h2 & Hin & _)]; [done|].
      apply Hn. apply list_elem_of_fmap. by exists (n, h1).
Qed.

Lemma removals_spec listing l :
  NoDup l.*1 →
  (∀ n, n ∈ removals listing l [] ↔ n ∈ l.*1 ∧ listing !! n = None) ∧ NoDup (removals listing l []).
Proof.
  induction l as [|[n h] l IH]; simpl; [set_solver by constructor|].
  intros [Hn Hnd]%NoDup_cons. destruct (IH Hnd) as [Hr Hd].
  destruct (listing !! n) eqn:E.
  - split; [|done]. intros m. rewrite Hr elem_of_cons. naive_solver.
  - rewrite removals_app /=. split; [intros m; rewrite elem_of_cons Hr elem_of_cons; naive_solver|].
    constructor; [|done]. by rewrite Hr; intros [? _].
Qed.

Definition comparison_of listing files (comp : ArchiveComparison) : Prop :=
  (∀ n, n ∈ added comp ↔ is_added listing files n) ∧
  (∀ n, n ∈ changed comp ↔ is_changed listing files n) ∧
  (∀ n, n ∈ removed comp ↔ is_removed listing files n) ∧
  NoDup (added comp ++ changed comp) ∧ NoDup (removed comp).

(** Whatever order the maps are visited in. *)
Lemma comparison_of_loops listing files l1 l2 ad ch :
  l1 ≡ₚ map_to_list listing → l2 ≡ₚ map_to_list files →
  compare_loop files l1 [] [] = (ad, ch) →
  comparison_of listing files (mkComparison ad ch (removals listing l2 [])).
Proof.
  intros H1 H2 E.
  assert (NoDup l1.*1) as Hn1 by (rewrite H1; apply NoDup_fst_map_to_list).
  assert (NoDup l2.*1) as Hn2 by (rewrite H2; apply NoDup_fst_map_to_list).
  assert (∀ (m : gmap string string) l n, l ≡ₚ map_to_list m → n ∈ l.*1 ↔ is_Some (m !! n)) as Hdom.
  { intros m l n Hl. rewrite list_elem_of_fmap. split.
    - intros ([k v] & -> & Hin). rewrite Hl elem_of_map_to_list in Hin. by eexists.
    - intros [v Hv]. exists (n, v). split; [done|]. by rewrite Hl elem_of_map_to_list. }
  destruct (compare_loop_spec _ _ _ _ E Hn1) as (Ha & Hc & Hd).
  destruct (removals_spec listing l2 Hn2) as [Hr Hrd].
  split_and!; simpl; try done; intros n.
  - by rewrite Ha Hdom.
  - rewrite Hc. split; intros (h & h' & ? & ? & ?); exists h, h'; by rewrite ?H1 ?elem_of_map_to_list in H *.
  - rewrite Hr Hdom //. rewrite /is_removed. tauto.
Qed.

(** What the security check accepts. *)
Definition listing_ok listing : Prop :=
  map_Forall (λ n h, Contains n "../" = false ∧ h ≠ "") listing.

Lemma check_listing_Forall l :
  check_listing l = None ↔ Forall (λ nh, Contains nh.1 "../" = false ∧ nh.2 ≠ "") l.
Proof.
  induction l as [|[n h] l IH]; simpl; [by split|]. rewrite Forall_cons /=.
  destruct (Contains n "../"); [naive_solver|]. case_decide; naive_solver.
Qed.

Lemma check_listing_ok listing l :
  l ≡ₚ map_to_list listing → check_listing l = None ↔ listing_ok listing.
Proof.
  intros Hl. rewrite check_listing_Forall /listing_ok map_Forall_to_list Hl.
  apply Forall_iff. by intros [].
Qed.
End compare.

Section spec.
Context `{Services}.
Implicit Types (w : World) (a : Archive).

(** The bytes of the listing file; none when it cannot be read. *)
Definition listing_bytes a (f : fsys) : string :=
  match ReadFile f (PathJoin [tempDir a; listingFile]) with Ok b => b | Err _ => "" end.

(** The listing is accepted exactly when it is JSON and passes the check. *)
Lemma wp_parseListingFile a Q C w :
  listing a = None →
  (∀ t l, json_listing (listing_bytes a (w_fs w)) = Ok l → listing_ok (nil_map l) →
     Q (None, mkArchive (tempDir a) l) (set_tick t w)) →
  (∀ t e, (∀ l, json_listing (listing_bytes a (w_fs w)) = Ok l → ¬ listing_ok (nil_map l)) →
     Q (Some e, a) (set_tick t w)) →
  wp (parseListingFile a) Q C w.
Proof.
  intros Hn Hok Herr. rewrite /parseListingFile Hn. apply wp_bind, wp_read_fs.
  rewrite -/(listing_bytes a (w_fs w)). destruct (json_listing _) as [l|e].
  - apply wp_bind, wp_range_map. intros order Ho. destruct (check_listing order) eqn:Ec; apply wp_ret.
    + apply Herr. intros l' [= <-] Hl. apply (check_listing_ok _ _ Ho) in Hl. congruence.
    + apply Hok; [done|]. by apply (check_listing_ok _ _ Ho).
  - apply wp_ret. rewrite -(set_tick_id w). by apply Herr.
Qed.

Lemma wp_Compare a files Q C w :
  listing a = None →
  (∀ t l comp, let a' := mkArchive (tempDir a) l in
     json_listing (listing_bytes a (w_fs w)) = Ok l → listing_ok (nil_map l) →
     comparison_of (nil_map l) files comp →
     (∀ n, n ∈ added comp ∨ n ∈ changed comp → diffExists a' n (w_fs w) = true) →
     Q (Ok comp, a') (set_tick t w)) →
  (∀ t e a', tempDir a' = tempDir a → Q (Err e, a') (set_tick t w)) →
  wp (Compare a files) Q C w.
Proof.
  intros Hn Hok Herr. apply wp_bind, wp_parseListingFile; [done| |].
  2:{ intros t e _. by apply wp_ret, Herr. }
  intros t l Hl Hlok. apply wp_bind, wp_range_map. intros order Ho. simpl in Ho.
  destruct (compare_loop files order [] []) as [ad ch] eqn:Ec. apply wp_bind, wp_gets.
  set (w1 := set_tick _ _). change (w_fs w1) with (w_fs w).
  destruct (forallb _ _) eqn:Ed; [|by apply wp_ret, (Herr (w_tick w1))].
  apply wp_bind, wp_range_map. intros order' Ho'. apply wp_ret, Hok; try done.
  - by eapply comparison_of_loops.
  - intros n Hin. rewrite forallb_forall in Ed. apply Ed. by apply list_elem_of_In, elem_of_app.
Qed.

(** Every file looked up for an accepted name is below the archive's own
    directory. *)
Lemma diffPath_below a name :
  rooted (tempDir a) = true → no_dotdot (comps (tempDir a)) → Contains name "../" = false →
  comps (tempDir a) `prefix_of` comps (diffPath a name).
Proof. intros. by apply comps_PathJoin3_below. Qed.
End spec.
End Archive.
