(* ===== verification/Utils.v ===== *)
(** * Shared helpers of the handlers

    [src/src/siphon/bundler/utils.go]. *)

From S2P Require Import Prelude GoStrings GoPath FileSys Services S3 Cache Archive.

(** [FilterStringSlice] *)
Fixpoint FilterStringSlice (slc : list string) (f : string → bool) : list string :=
  match slc with
  | [] => []
  | s :: slc => if f s then s :: FilterStringSlice slc f else FilterStringSlice slc f
  end.

Section utils.
Context `{Services}.

(** The value a pointer refers to. *)
Definition deref {A} (p : option A) : MW A :=
  match p with Some a => mret a | None => throw nil_deref end.

(** [BufferLine]; the flush that may follow only affects when the bytes leave. *)
Definition BufferLine (msg : string) : MW () :=
  on_resp (Write_ ("siphon: " +:+ msg +:+ nl)).

(** [Cleanup]: a failure is only logged. *)
Definition Cleanup (d : string) : MW () :=
  on_fs (λ f, RemoveAll f d);; mret tt.

(** Where [FilesToTemp] takes the content of a file from. *)
Definition temp_content (archive : option Archive.Archive) (cache : Cache.Cache) (name hash : string) :
    MW (result string) :=
  fb ← match archive with
       | Some a => read_fs (Archive.GetContent a name)
       | None => mret (Err (ErrorS ""))
       end;
  match fb with
  | Ok b => mret (Ok b)
  | Err _ => Cache.Get cache hash
  end.

(** [FilesToTemp].  The errors of [TempDir], [MkdirAll] and [WriteFile] are
    dropped: after [WriteFile] the source tests the [err] of [cache.Get]. *)
Definition FilesToTemp (files : gmap string string) (archive : option Archive.Archive)
    (cache : Cache.Cache) : MW (result string) :=
  r ← TempDir "project-path";
  let d := match r with Ok d => d | Err _ => "" end in
  order ← range_map files;
  err ← range_err order (λ '(name, hash),
    fb ← temp_content archive cache name hash;
    match fb with
    | Err err => Cleanup d;; mret (Some err)
    | Ok b =>
        let p := PathJoin [d; name] in
        on_fs (λ f, MkdirAll f (Dir p));;
        on_fs (λ f, WriteFile f p b);;
        mret None
    end);
  match err with
  | Some err => mret (Err err)
  | None => mret (Ok d)
  end.

(** ** Properties *)
Implicit Types (w : World).

Lemma FilterStringSlice_filter slc f : FilterStringSlice slc f = filter (λ s, f s = true) slc.
Proof.
  induction slc as [|s slc IH]; [done|]. simpl. rewrite filter_cons IH.
  by destruct (f s) eqn:E; case_decide.
Qed.

Context `{!S3Laws s3T}.

(** What the steps of a handler that only build files leave alone: environment,
    database and the objects in S3. *)
Record keeps (w w' : World) : Prop := {
  keeps_env : w_env w' = w_env w;
  keeps_pg : w_pg w' = w_pg w;
  keeps_blobs : blobs w' = blobs w;
  keeps_ctx : w_ctx w' = w_ctx w;
}.

Lemma keeps_refl w : keeps w w.
Proof. done. Qed.
Lemma keeps_trans w1 w2 w3 : keeps w1 w2 → keeps w2 w3 → keeps w1 w3.
Proof. intros [] []. split; congruence. Qed.
Lemma keeps_fs f w : keeps w (set_fs f w).
Proof. done. Qed.
Lemma keeps_resp r w : keeps w (set_resp r w).
Proof. done. Qed.
Lemma keeps_tick t w : keeps w (set_tick t w).
Proof. done. Qed.
Lemma keeps_stores w w' : Cache.stores_only w w' → blobs w' = blobs w → keeps w w'.
Proof. by intros (m & s & ->). Qed.

Lemma wp_BufferLine msg Q C w :
  Q tt (set_resp (Write_ ("siphon: " +:+ msg +:+ nl) (w_resp w)) w) → wp (BufferLine msg) Q C w.
Proof. apply wp_on_resp. Qed.

Lemma wp_Cleanup d Q C w : (∀ f, Q tt (set_fs f w)) → wp (Cleanup d) Q C w.
Proof. intros HQ. apply wp_bind, wp_on_fs. intros. by apply wp_ret, HQ. Qed.

Lemma wp_deref {A} (p : option A) Q C w :
  (∀ a, p = Some a → Q a w) → (p = None → C nil_deref w) → wp (deref p) Q C w.
Proof. destruct p; intros; [apply wp_ret|apply wp_throw]; eauto. Qed.

Context `{!McLaws mcT}.
Import Cache.

(** The content written for a file is the archive's, or else what S3 holds under
    its hash. *)
Lemma wp_temp_content ex archive c name hash Q C w :
  opened c → coherent ex c w → prefixed c hash ∉ ex →
  (∀ w' r, stores_only w w' → blobs w' = blobs w → coherent ex c w' →
     (∀ b, r = Ok b →
        (∃ a, archive = Some a ∧ Archive.GetContent a name (w_fs w) = Ok b) ∨
        content c w hash = Some b) → Q r w') →
  wp (temp_content archive c name hash) Q C w.
Proof.
  intros Ho Hc Hex HQ. apply wp_bind.
  assert (wp (Get c hash) Q C w) as Hget.
  { apply (wp_Get ex); [done..|]. intros w' r ? ? ? Hr. apply HQ; auto. }
  destruct archive as [a|]; [apply wp_read_fs|by apply wp_ret].
  destruct (Archive.GetContent a name (w_fs w)) as [b|e] eqn:E; [|done].
  apply wp_ret, HQ; try done; [apply stores_only_refl|].
  intros b' [= <-]. left. by exists a.
Qed.

(** Building the temporary directory only touches files and memcached. *)
Lemma wp_FilesToTemp files archive c Q C w :
  opened c → coherent ∅ c w →
  (∀ w' r, keeps w w' → w_resp w' = w_resp w → coherent ∅ c w' → Q r w') →
  wp (FilesToTemp files archive c) Q C w.
Proof.
  intros Ho Hc HQ.
  set (I := λ (_ : list (string * string)) w', keeps w w' ∧ w_resp w' = w_resp w ∧ coherent ∅ c w').
  assert (∀ w0 d, I [] w0 →
    wp (order ← range_map files;
        err ← range_err order (λ '(name, hash),
          fb ← temp_content archive c name hash;
          match fb with
          | Err err => Cleanup d;; mret (Some err)
          | Ok b =>
              on_fs (λ f, MkdirAll f (Dir (PathJoin [d; name])));;
              on_fs (λ f, WriteFile f (PathJoin [d; name]) b);; mret None
          end);
        match err with Some err => mret (Err err) | None => mret (Ok d) end) Q C w0) as Hloop.
  { intros w0 d (Hk & Hr & Hc0). apply wp_bind, wp_range_map. intros order _. apply wp_bind.
    apply (wp_range_err I).
    - split_and!; [by eapply keeps_trans; eauto with siphon|done|done].
    - intros pre [name hash] post w1 _ (Hk1 & Hr1 & Hc1). apply wp_bind.
      apply (wp_temp_content ∅); [done|done|set_solver|]. intros w2 r Hs Hb Hc2 _.
      assert (keeps w w2) as Hk2 by (by eapply keeps_trans; [|by apply keeps_stores]).
      assert (w_resp w2 = w_resp w) as Hr2 by (by destruct Hs as (? & ? & ->)).
      destruct r as [b|e].
      + apply wp_bind, wp_on_fs. intros ? f1 _. apply wp_bind, wp_on_fs. intros ? f2 _.
        apply wp_ret. split_and!; [by eapply keeps_trans; eauto with siphon|done|done].
      + apply wp_bind, wp_Cleanup. intros f. apply wp_ret, wp_ret, HQ; [by eapply keeps_trans; eauto with siphon|done|done].
    - intros w1 (? & ? & ?). by apply wp_ret, HQ. }
  apply wp_bind, wp_TempDir; intros; apply Hloop; by split_and!.
Qed.
End utils.
#[export] Hint Resolve keeps_refl keeps_fs keeps_resp keeps_tick : siphon.
