(* ===== verification/Icon.v ===== *)
(** * App icons

    [src/src/siphon/bundler/icon.go]. *)

From S2P Require Import Prelude GoStrings GoPath FileSys Services.

Module Icon.

Definition tabs (n : nat) : string := Nat.iter n (String (ascii_of_nat 9)) "".

Definition unsupported (n : nat) (name : string) : error :=
  ErrorS ("Unsupported icon " +:+ name +:+ " detected." +:+ nl +:+ tabs n +:+
          "All icons must have a png extension.").

(** The directory the icons of a platform are in. *)
Definition icons_prefix (platform : string) : string := PathJoin ["publish"; platform; "icons"].

Section icon.
Context `{Services}.

(** [LoadIconData] *)
Definition LoadIconData (name platform b : string) : result IconData :=
  match png_config b with
  | Err _ => Err (unsupported 3 name)
  | Ok (width, height) => Ok (mkIcon name platform height width "png")
  end.

(** [s[0:n]], which panics when [n] is not an index of [s]. *)
Definition slice_to (s : string) (n : Z) : MW string :=
  if decide (0 ≤ n ≤ Z.of_nat (String.length s))%Z
  then mret (String.substring 0 (Z.to_nat n) s)
  else throw (Panic "slice bounds out of range").

(** The body of the inner loop of [GetIcons]. *)
Definition icon_step (d name platform : string) (icons : list IconData) : MW (result (list IconData)) :=
  let ext := Ext name in
  let prefix := icons_prefix platform in
  if HasPrefix name prefix then
    if decide (ext ≠ ".png") then mret (Err (unsupported 6 name))
    else
      let fPath := PathJoin [d; name] in
      b ←? read_fs (λ f, ReadFile f fPath);
      let iconExtName := match Rel prefix name with Ok r => r | Err _ => "" end in
      iconName ← slice_to iconExtName
        (Z.of_nat (String.length iconExtName) - Z.of_nat (String.length ext));
      match LoadIconData iconName platform b with
      | Err err => mret (Err err)
      | Ok iData => mret (Ok (icons ++ [iData]))
      end
  else mret (Ok icons).

(** [GetIcons] *)
Definition GetIcons (d : string) (files : gmap string string) : MW (result (list IconData)) :=
  order ← range_map files;
  range_acc order [] (λ '(name, _) icons,
    range_acc ["android"; "ios"] icons (icon_step d name)).

(** Looking for icons changes nothing. *)
Lemma wp_icon_step d name platform icons Q C w :
  (∀ r, Q r w) → (∀ cr, C cr w) → wp (icon_step d name platform icons) Q C w.
Proof.
  intros HQ HC. rewrite /icon_step. destruct (HasPrefix _ _); [|apply wp_ret, HQ].
  case_decide; [apply wp_ret, HQ|]. apply wp_bindR, wp_read_fs.
  destruct (ReadFile _ _); [|apply HQ]. apply wp_bind. rewrite /slice_to.
  case_decide; [apply wp_ret|apply wp_throw, HC]. destruct (LoadIconData _ _ _); apply wp_ret, HQ.
Qed.

Lemma wp_GetIcons d files Q C w :
  (∀ t r, Q r (set_tick t w)) → (∀ t cr, C cr (set_tick t w)) → wp (GetIcons d files) Q C w.
Proof.
  intros HQ HC. apply wp_bind, wp_range_map. intros order _.
  apply wp_range_acc_pure; [|by intros]. intros [name hash] icons Q' HQ'.
  apply wp_range_acc_pure; [|done]. intros pl icons' Q'' HQ''. by apply wp_icon_step.
Qed.
End icon.
End Icon.
