(* ===== verification/Notifications.v ===== *)
(** * Notifications over RabbitMQ

    [src/src/siphon/bundler/notifications.go]. *)

From S2P Require Import Prelude GoStrings Services.

Definition amqpExchange : string := "siphon.apps.notifications".
Definition amqpExchangeType : string := "fanout".

(** The message, spliced together without escaping. *)
Definition app_updated_payload (appID userID : string) : string :=
  let q s := dquote +:+ s +:+ dquote in
  "{" +:+ q "type" +:+ ": " +:+ q "app_updated" +:+ ", " +:+ q "app_id" +:+ ": " +:+ q appID +:+
  ", " +:+ q "user_id" +:+ ": " +:+ q userID +:+ "}".

Section notifications.
Context `{Services}.

(** [amqpURI] *)
Definition amqpURI : MW string :=
  host ← Getenv "RABBITMQ_HOST";
  port ← Getenv "RABBITMQ_PORT";
  mret ("amqp://" +:+ host +:+ ":" +:+ port).

(** [PostAppUpdated]: nothing is reported to the caller.  The error of the
    declaration is overwritten by the one of the publication. *)
Definition PostAppUpdated (appID userID : string) : MW () :=
  uri ← amqpURI;
  err ← on_mq (mq_dial uri);
  match err with
  | Some _ => mret tt
  | None =>
      defer (on_mq (λ s, (tt, mq_close s)))
        (err ← on_mq mq_channel;
         match err with
         | Some _ => mret tt
         | None =>
             on_mq (mq_exchange_declare amqpExchange amqpExchangeType true false false false);;
             on_mq (mq_publish amqpExchange "" false false "application/json"
                      (app_updated_payload appID userID));;
             mret tt
         end)
  end.

(** It ends in every case, and touches the broker only. *)
Lemma wp_PostAppUpdated app user Q C w :
  (∀ s, Q tt (set_mq s w)) → wp (PostAppUpdated app user) Q C w.
Proof.
  intros HQ. apply wp_bind. do 2 (apply wp_bind, wp_Getenv). apply wp_ret.
  apply wp_bind, wp_on_mq. intros [e|] s; [by apply wp_ret|].
  apply wp_defer. apply wp_bind, wp_on_mq. intros [e|] s'; [apply wp_ret, wp_on_mq; intros; apply HQ|].
  apply wp_bind, wp_on_mq. intros _ s''. apply wp_bind, wp_on_mq. intros _ s'''.
  apply wp_ret, wp_on_mq. intros. apply HQ.
Qed.
End notifications.
