(* ===== verification/Packager.v ===== *)
(** * The packager

    [src/src/siphon/bundler/packager.go]: the external script that turns a
    directory of app files into bundle footers, one per platform. *)

From S2P Require Import Prelude GoStrings GoPath FileSys Services S3 Cache Db Archive.
From S2P Require Import Utils.

Module Packager.

Definition tmp_marker : string := "siphon-packager-tmp-".

(** The command line of [packager]. *)
Definition packager_script (projectPath baseVersion : string) : string :=
  "source $NVM_DIR/nvm.sh && " +:+
  "siphon-packager.py --footer --project-path " +:+ projectPath +:+
  " --base-version " +:+ baseVersion +:+ " --minify".

Section packager.
Context `{Services}.

(** [cleanup] *)
Definition cleanup (d : string) : MW () :=
  on_fs (λ f, RemoveAll f d);; mret tt.

(** [CleanupFooters]: which directory is removed, if any. *)
Definition footers_dir (f : FooterPath) : option string :=
  if bool_decide (f_ios f ≠ "") && Contains (f_ios f) tmp_marker then
    let d := Dir (f_ios f) in
    if negb (Contains d tmp_marker) then None else Some d
  else if bool_decide (f_android f ≠ "") then
    let d := Dir (f_android f) in
    if negb (Contains (f_android f) tmp_marker) then None else Some d
  else None.
Definition CleanupFooters (f : FooterPath) : MW () :=
  match footers_dir f with
  | Some d => on_fs (λ fs, RemoveAll fs d);; mret tt
  | None => mret tt
  end.

(** [packager] *)
Definition packager (projectPath baseVersion : string) : MW (result string) :=
  r ← run_sh (packager_script projectPath baseVersion);
  match r with
  | inr stderr => mret (Err (ErrorS stderr))
  | inl stdout => mret (Ok stdout)
  end.

(** The testing branch of [MakeBundleFooters]: the [err] tested after each write
    is the one of [TempDir]. *)
Definition dummy_footers (tmpDir : string) (err : option error) : MW (result (option FooterPath)) :=
  let iosFooter := PathJoin [tmpDir; "bundle-footer-ios"] in
  let androidFooter := PathJoin [tmpDir; "bundle-footer-android"] in
  let txt := "Dummy bundle footer for testing." in
  on_fs (λ f, MkdirAll f (Dir iosFooter));;
  on_fs (λ f, WriteFile f iosFooter txt);;
  match err with
  | Some e => cleanup tmpDir;; mret (Err e)
  | None =>
      on_fs (λ f, WriteFile f androidFooter txt);;
      mret (Ok (Some (mkFooter iosFooter androidFooter)))
  end.

(** [MakeBundleFooters] *)
Definition MakeBundleFooters (d baseVersion : string) : MW (result (option FooterPath)) :=
  env ← Getenv "SIPHON_ENV";
  if decide (env = "testing") then
    r ← TempDir tmp_marker;
    match r with
    | Ok tmpDir => dummy_footers tmpDir None
    | Err e => dummy_footers "" (Some e)
    end
  else
    b ←? packager d baseVersion;
    mret (json_footer b).

(** [MakeBundleFootersTmp] *)
Definition MakeBundleFootersTmp (db appID submissionID : string) (archive : option Archive.Archive)
    (baseVersion : string) : MW (result (option FooterPath)) :=
  cache ←? Cache.NewCache appID submissionID;
  files ←? Db.GetFiles db appID submissionID;
  d ←? FilesToTemp files archive cache;
  r ← MakeBundleFooters d baseVersion;
  match r with
  | Err err => Cleanup d;; mret (Err err)
  | Ok f => Cleanup d;; mret (Ok f)
  end.

(** ** Properties *)
Context `{!S3Laws s3T}.
Implicit Types (w : World).

(** The stores and tables a step leaves alone, memcached included. *)
Definition files_only w w' : Prop := ∃ f t x, w' = set_fs f (set_tick t (set_ex x w)).

Lemma files_only_refl w : files_only w w.
Proof. exists (w_fs w), (w_tick w), (w_ex w). by destruct w. Qed.
Lemma files_only_trans w1 w2 w3 : files_only w1 w2 → files_only w2 w3 → files_only w1 w3.
Proof. intros (f & t & x & ->) (f' & t' & x' & ->). by exists f', t', x'. Qed.
Lemma files_only_fs f w : files_only w (set_fs f w).
Proof. exists f, (w_tick w), (w_ex w). by destruct w. Qed.
Lemma files_only_tick t w : files_only w (set_tick t w).
Proof. exists (w_fs w), t, (w_ex w). by destruct w. Qed.
Lemma files_only_sh f x w : files_only w (set_ex x (set_fs f w)).
Proof. exists f, (w_tick w), x. by destruct w. Qed.

Lemma wp_CleanupFooters f Q C w : (∀ fs, Q tt (set_fs fs w)) → wp (CleanupFooters f) Q C w.
Proof.
  intros HQ. rewrite /CleanupFooters. destruct (footers_dir f).
  - apply wp_bind, wp_on_fs. intros. by apply wp_ret, HQ.
  - apply wp_ret. rewrite -(set_fs_id w). apply HQ.
Qed.

Lemma wp_dummy_footers tmpDir err Q C w :
  (∀ w' r, files_only w w' → Q r w') → wp (dummy_footers tmpDir err) Q C w.
Proof.
  intros HQ. apply wp_bind, wp_on_fs. intros ? f1 _. apply wp_bind, wp_on_fs. intros ? f2 _.
  destruct err.
  - apply wp_bind, wp_bind, wp_on_fs. intros ? f3 _.
    apply wp_ret, wp_ret, HQ. exact (files_only_fs f3 w).
  - apply wp_bind, wp_on_fs. intros ? f3 _. apply wp_ret, HQ. exact (files_only_fs f3 w).
Qed.

(** Building footers never panics and only touches files. *)
Lemma wp_MakeBundleFooters d v Q C w :
  (∀ w' r, files_only w w' → Q r w') → wp (MakeBundleFooters d v) Q C w.
Proof.
  intros HQ. apply wp_bind, wp_Getenv. case_decide.
  - apply wp_bind, wp_TempDir.
    + intros [t|e] f; apply wp_dummy_footers; intros w' r Hw'; apply HQ;
        (eapply files_only_trans; [apply files_only_fs|done]).
    + intros e. by apply wp_dummy_footers.
  - apply wp_bindR, wp_bind, wp_run_sh. intros [out|er] f x; apply wp_ret.
    + apply wp_ret, HQ, files_only_sh.
    + apply HQ, files_only_sh.
Qed.

(** Nor does building them from the stored files of an app, but for memcached. *)
Context `{!McLaws mcT} `{!Db.PgLaws pgT} `{!Db.PgStable pgT}.
Lemma wp_MakeBundleFootersTmp db app sub ar v Q C w :
  let c := Cache.env_cache app sub w in
  Db.no_null app (Db.table db w) → has_char squote sub = false → Cache.coherent ∅ c w →
  (∀ w' r, w_env w' = w_env w → Db.table db w' = Db.table db w → blobs w' = blobs w →
     Cache.coherent ∅ c w' → Q r w') →
  wp (MakeBundleFootersTmp db app sub ar v) Q C w.
Proof.
  intros c Hnn Hsq Hc HQ. apply wp_bindR, Cache.wp_NewCache.
  apply wp_bindR, Db.wp_GetFiles; [done|done| |intros; by apply HQ].
  intros s files Hs _. apply wp_bindR, wp_FilesToTemp; [done|done|].
  intros w2 r [He Hp Hb _] _ Hc2.
  assert (Db.table db w2 = Db.table db w) as Ht by by rewrite /Db.table Hp.
  destruct r as [d|e]; [|by apply HQ].
  apply wp_bind, wp_MakeBundleFooters. intros w3 r (f & t & x & ->).
  destruct r; apply wp_bind, wp_Cleanup; intros f'; by apply wp_ret, HQ.
Qed.
End packager.
End Packager.
