(* ===== verification/Push.v ===== *)
(** * /push

    [src/src/siphon/bundler/push.go]: a client sends an archive with the listing
    of its files and the content of those that differ; the handler brings the
    app's rows in the file table and the objects in S3 in line with the listing,
    builds new bundle footers, updates the metadata on the web front end and
    notifies the devices. *)

From S2P Require Import Prelude GoStrings GoPath FileSys Context Services S3 Cache.
From S2P Require Import Db Metadata Archive Utils Icon Notifications Packager.

Module Push.

(** [protectHash], in the order of its loop. *)
Fixpoint protect_loop (l : list (string * string)) (name hash : string) : bool :=
  match l with
  | [] => false
  | (k, v) :: l =>
      if bool_decide (v = hash) && bool_decide (k ≠ name) then true else protect_loop l name hash
  end.

Section push.
Context `{Services}.

(** [MakeJSONHashes]: the files of [HashesResponse]. *)
Definition MakeJSONHashes (appID : string) : MW (result (gmap string string)) :=
  db ← Db.OpenDB;
  files ←? Db.GetFiles db appID "";
  mret (Ok files).

(** [writeHashesResponse] *)
Definition writeHashesResponse (appID : string) : MW () :=
  on_resp (HeaderSet "Content-Type" "application/json");;
  r ← MakeJSONHashes appID;
  match r with
  | Err _ => on_resp (HttpError "Internal error." 500)
  | Ok files =>
      match json_hashes files with
      | Err _ => on_resp (HttpError "Internal error." 500)
      | Ok b => on_resp (Write_ b)
      end
  end.

Definition protectHash (files : gmap string string) (name hash : string) : MW bool :=
  order ← range_map files;
  mret (protect_loop order name hash).

(** [pushHandler]; the response it writes to is the one of the world. *)
Record pushHandler := mkPush {
  p_request : request;
  p_appID : string;
  p_userID : string;
  p_db : string;
  p_cache : Cache.Cache;
  p_archive : option Archive.Archive;
  p_dirty : bool;
  p_metadata : option Metadata;
  p_icons : list IconData;
  p_metadataDirty : bool;
}.
Definition set_p_db (x : string) (h : pushHandler) : pushHandler :=
  mkPush (p_request h) (p_appID h) (p_userID h) x (p_cache h) (p_archive h) (p_dirty h)
    (p_metadata h) (p_icons h) (p_metadataDirty h).
Definition set_p_archive (x : option Archive.Archive) (h : pushHandler) : pushHandler :=
  mkPush (p_request h) (p_appID h) (p_userID h) (p_db h) (p_cache h) x (p_dirty h)
    (p_metadata h) (p_icons h) (p_metadataDirty h).
Definition set_p_dirty (x : bool) (h : pushHandler) : pushHandler :=
  mkPush (p_request h) (p_appID h) (p_userID h) (p_db h) (p_cache h) (p_archive h) x
    (p_metadata h) (p_icons h) (p_metadataDirty h).
Definition set_p_metadata (x : option Metadata) (h : pushHandler) : pushHandler :=
  mkPush (p_request h) (p_appID h) (p_userID h) (p_db h) (p_cache h) (p_archive h) (p_dirty h)
    x (p_icons h) (p_metadataDirty h).
Definition set_p_icons (x : list IconData) (h : pushHandler) : pushHandler :=
  mkPush (p_request h) (p_appID h) (p_userID h) (p_db h) (p_cache h) (p_archive h) (p_dirty h)
    (p_metadata h) x (p_metadataDirty h).
Definition set_p_metadataDirty (x : bool) (h : pushHandler) : pushHandler :=
  mkPush (p_request h) (p_appID h) (p_userID h) (p_db h) (p_cache h) (p_archive h) (p_dirty h)
    (p_metadata h) (p_icons h) x.

Definition newPushHandler (r : request) (appID userID : string) : MW (result pushHandler) :=
  cache ←? Cache.NewCache appID "";
  mret (Ok (mkPush r appID userID "" cache None false None [] false)).

(** [pushHandler.log] *)
Definition log (s : string) : MW () := BufferLine s.

(** [pushHandler.remove]; a failed [GetFiles] leaves [files] nil. *)
Definition remove_step (name : string) (h : pushHandler) : MW (option error * pushHandler) :=
  log ("--> " +:+ name);;
  r ← Db.GetFiles (p_db h) (p_appID h) "";
  let files := match r with Ok files => files | Err _ => ∅ end in
  match files !! name with
  | None => mret (Some (ErrorS ("No hash for file removal: " +:+ name)), h)
  | Some hash =>
      if decide (hash = "") then mret (Some (ErrorS ("No hash for file removal: " +:+ name)), h)
      else
        prot ← protectHash files name hash;
        err ← (if negb prot then Cache.Delete (p_cache h) hash else mret None);
        match err with
        | Some err => mret (Some err, h)
        | None =>
            err ← Db.DeleteFile (p_db h) (p_appID h) "" name;
            match err with
            | Some err => mret (Some err, h)
            | None => mret (None, set_p_dirty true h)
            end
        end
  end.
Definition remove (names : list string) (h : pushHandler) : MW (option error * pushHandler) :=
  range_st names h remove_step.

(** [pushHandler.update] *)
Definition update_step (add : bool) (name : string) (h : pushHandler) : MW (option error * pushHandler) :=
  log ("--> " +:+ name);;
  a ← deref (p_archive h);
  let hash := Archive.GetHash a name in
  b ← read_fs (Archive.GetContent a name);
  if decide (hash = "") then mret (Some (ErrorS ("Hash not found for name: " +:+ name)), h)
  else
    match b with
    | Err err =>
        mret (Some (ErrorS ("Get content for hash " +:+ hash +:+ " failed: " +:+ error_string err)), h)
    | Ok b =>
        err ← Cache.Set_ (p_cache h) hash b;
        match err with
        | Some err => mret (Some err, h)
        | None =>
            err ← (if add then Db.AddFile (p_db h) (p_appID h) "" name hash
                   else Db.UpdateFile (p_db h) (p_appID h) "" name hash);
            match err with
            | Some err => mret (Some err, h)
            | None => mret (None, set_p_dirty true h)
            end
        end
    end.
Definition update (names : list string) (add : bool) (h : pushHandler) :
    MW (option error * pushHandler) :=
  range_st names h (update_step add).

(** [pushHandler.decompress] *)
Definition decompress (r : request) (h : pushHandler) : MW (option error * pushHandler) :=
  let b := rq_body r in
  log "Decompressing...";;
  res ← Archive.Decompress Archive.NewArchive b;
  let '(err, archive) := res in
  match err with
  | Some err => Archive.Close archive;; mret (Some err, h)
  | None => mret (None, set_p_archive (Some archive) h)
  end.

(** [internalError], [expectedError]; what they log is not modelled. *)
Definition internalError : MW () := on_resp (HttpError "Internal error." 500).
Definition expectedError (err : error) : MW () :=
  on_resp (HttpError ("[ERROR] " +:+ error_string err) 500).

(** [pushHandler.putMetadata] *)
Definition putMetadata (h : pushHandler) : MW (option error) :=
  let internal := ErrorS "Internal error while updating app metadata." in
  host ← Getenv "WEB_HOST";
  let endpoint := "https://" +:+ host +:+ "/api/v1/apps/" +:+ p_appID h in
  m ← deref (p_metadata h);
  match json_icons (p_icons h) with
  | Err _ => mret (Some internal)
  | Ok iconsList =>
      let v := [("base_version", BaseVersion m); ("display_name", DisplayName m);
                ("facebook_app_id", FacebookAppID m); ("app_store_name", StoreName (IOS m));
                ("play_store_name", StoreName (Android m)); ("app_store_language", Language (IOS m));
                ("play_store_language", Language (Android m)); ("icons", iconsList)] in
      env ← Getenv "SIPHON_ENV";
      if decide (env = "testing") then mret None
      else if negb (url_valid endpoint) then throw nil_deref
      else
        token ← ctx_string (p_request h) HandshakeTokenKey;
        signature ← ctx_string (p_request h) HandshakeSignatureKey;
        res ← on_web (web_put endpoint
          [("Content-Type", "application/x-www-form-urlencoded");
           ("X-Siphon-Handshake-Token", query_escape token);
           ("X-Siphon-Handshake-Signature", query_escape signature)] (url_encode v));
        match res with
        | Err _ => mret (Some internal)
        | Ok (status, body) =>
            if decide (status ≠ 200%Z) then
              match body with
              | Err _ => mret (Some internal)
              | Ok s => mret (Some (ErrorS ("Problem updating metadata: " +:+ s +:+ " [" +:+
                                            pretty status +:+ "]")))
              end
            else mret None
        end
  end.

(** [pushHandler.loadMetaData] *)
Definition loadMetaData (h : pushHandler) : MW (option error * pushHandler) :=
  let from_cache := ErrorS "Problem loading Siphonfile from the cache." in
  log "Checking your Siphonfile...";;
  a ← deref (p_archive h);
  r ← Archive.GetMetadata a;
  match r with
  | Err _ => mret (Some (ErrorS "Problem loading Siphonfile from the archive."), h)
  | Ok b =>
      let h := match b with Some _ => set_p_metadataDirty true h | None => h end in
      r ← match b with
          | Some b => mret (Ok b)
          | None =>
              r ← Db.GetFile (p_db h) (p_appID h) "" Metadata.MetadataName;
              match r with
              | Err _ => mret (Err from_cache)
              | Ok hash =>
                  r ← Cache.Get (p_cache h) hash;
                  match r with
                  | Err _ => mret (Err from_cache)
                  | Ok res => mret (Ok res)
                  end
              end
          end;
      match r with
      | Err err => mret (Some err, h)
      | Ok b =>
          match Metadata.ParseMetadata b with
          | Err err => mret (Some err, h)
          | Ok metadata => mret (None, set_p_metadata (Some metadata) h)
          end
      end
  end.

(** Which [return] ended [handle] (the source returns nothing). *)
Inductive push_exit :=
| XDecompress | XMetadata | XCompare | XAdd | XChange | XRemove | XCache | XNoChanges
| XFiles | XIcons | XFooters | XPut | XReadFooter | XSetFooter | XDone.

(** The part of [handle] that processes additions, changes and removals. *)
Definition apply_comparison (comp : Archive.ArchiveComparison) (h : pushHandler) :
    MW (option push_exit * pushHandler) :=
  r ← (if decide (0 < length (Archive.added comp))%nat
       then log "Adding files...";; update (Archive.added comp) true h
       else mret (None, h));
  match r with
  | (Some _, h) => internalError;; mret (Some XAdd, h)
  | (None, h) =>
      r ← (if decide (0 < length (Archive.changed comp))%nat
           then log "Updating files...";; update (Archive.changed comp) false h
           else mret (None, h));
      match r with
      | (Some _, h) => internalError;; mret (Some XChange, h)
      | (None, h) =>
          r ← (if decide (0 < length (Archive.removed comp))%nat
               then log "Removing deleted files...";; remove (Archive.removed comp) h
               else mret (None, h));
          match r with
          | (Some _, h) => internalError;; mret (Some XRemove, h)
          | (None, h) => mret (None, h)
          end
      end
  end.

(** The part of [handle] that brings rows and objects in line with the listing. *)
Definition handle_sync (h : pushHandler) : MW (option push_exit * pushHandler) :=
  r ← Db.GetFiles (p_db h) (p_appID h) "";
  let files := match r with Ok files => files | Err _ => ∅ end in
  a ← deref (p_archive h);
  r ← Archive.Compare a files;
  let '(comp, a) := r in
  let h := set_p_archive (Some a) h in
  match comp with
  | Err _ => internalError;; mret (Some XCompare, h)
  | Ok comp => apply_comparison comp h
  end.

(** Storing the footer of one platform, when the packager made one. *)
Definition store_footer (h : pushHandler) (f : FooterPath) (path platform : string) :
    MW (option push_exit) :=
  if decide (path ≠ "") then
    ftr ← read_fs (λ fs, ReadFile fs path);
    match ftr with
    | Err _ => internalError;; Packager.CleanupFooters f;; mret (Some XReadFooter)
    | Ok ftr =>
        err ← Cache.SetBundleFooter (p_cache h) ftr (Cache.BundleFooterFile platform);
        match err with
        | Some _ => internalError;; Packager.CleanupFooters f;; mret (Some XSetFooter)
        | None => mret None
        end
    end
  else mret None.

(** The part of [handle] after the footers have been built. *)
Definition handle_finish (h : pushHandler) (f : option FooterPath) : MW push_exit :=
  err ← putMetadata h;
  match err with
  | Some err => expectedError err;; mret XPut
  | None =>
      f ← deref f;
      x ← store_footer h f (f_ios f) "ios";
      match x with
      | Some x => mret x
      | None =>
          x ← store_footer h f (f_android f) "android";
          match x with
          | Some x => mret x
          | None =>
              log "Done.";;
              Packager.CleanupFooters f;;
              PostAppUpdated (p_appID h) (p_userID h);;
              mret XDone
          end
      end
  end.

(** The part of [handle] that builds the footers. *)
Definition handle_publish (h : pushHandler) : MW push_exit :=
  cache ← Cache.NewCache (p_appID h) "";
  match cache with
  | Err err => expectedError err;; mret XCache
  | Ok cache =>
      if negb (p_dirty h) && negb (p_metadataDirty h) then
        log "No changes detected.";; mret XNoChanges
      else
        r ← Db.GetFiles (p_db h) (p_appID h) "";
        let files := match r with Ok files => files | Err _ => ∅ end in
        r ← FilesToTemp files (p_archive h) cache;
        match r with
        | Err _ => internalError;; mret XFiles
        | Ok d =>
            r ← Icon.GetIcons d files;
            match r with
            | Err err => Cleanup d;; expectedError err;; mret XIcons
            | Ok icons =>
                let h := set_p_icons icons h in
                log "Building diffs...";;
                m ← deref (p_metadata h);
                r ← Packager.MakeBundleFooters d (BaseVersion m);
                match r with
                | Err err => Cleanup d;; expectedError err;; mret XFooters
                | Ok f => Cleanup d;; handle_finish h f
                end
            end
        end
  end.

(** [pushHandler.handle] *)
Definition handle (r : request) (h : pushHandler) : MW push_exit :=
  res ← decompress r h;
  match res with
  | (Some _, _) => internalError;; mret XDecompress
  | (None, h) =>
      a ← deref (p_archive h);
      defer (Archive.Close a)
        (res ← loadMetaData h;
         match res with
         | (Some err, _) => expectedError err;; mret XMetadata
         | (None, h) =>
             res ← handle_sync h;
             match res with
             | (Some x, _) => mret x
             | (None, h) => handle_publish h
             end
         end)
  end.

(** [Push] *)
Definition Push_ (r : request) : MW () :=
  appID ← ctx_string r AppIDKey;
  userID ← ctx_string r UserIDKey;
  if decide (rq_method r = "GET") then writeHashesResponse appID
  else if decide (rq_method r = "POST") then
    h ← newPushHandler r appID userID;
    match h with
    | Err _ => on_resp (HttpError "Internal error." 500)
    | Ok h =>
        db ← Db.OpenDB;
        handle r (set_p_db db h);;
        mret tt
    end
  else on_resp (HttpError "Expected GET or POST." 500).
End push.
End Push.
