(* ===== verification/PushSync.v ===== *)
(** * What a push does to the file table and the object store

    Proofs about [Push.handle]: the rows of the app become the listing, every row
    keeps an object behind it, and nothing of another app or of a submission
    changes.  [P hash content] is any relation the client's archive satisfies
    (for instance that the hash is the SHA-256 of the content): whatever it is,
    the stored rows satisfy it too. *)

From S2P Require Import Prelude GoStrings GoPath FileSys Context Services S3 Cache.
From S2P Require Import Db Metadata Archive Utils Icon Notifications Packager Push.

Module PushSync.
Import Push.

Section sync.
Context `{Services} `{!S3Laws s3T} `{!McLaws mcT} `{!Db.PgLaws pgT} `{!Db.PgStable pgT}.
Context (P : string → string → Prop).
Context (db app : string) (c : Cache.Cache).
Implicit Types (w : World) (h : pushHandler).

(** The development rows of the app. *)
Definition dev w (n : string) : option string := Db.table db w !! (app, Some "", n).

(** A row has its object. *)
Definition row_backed w (n : string) : Prop :=
  ∀ hsh, dev w n = Some hsh → ∃ b, Cache.content c w hsh = Some b ∧ P hsh b.
Definition backed w : Prop := ∀ n, row_backed w n.
(** All rows but one have. *)
Definition backed_but w : Prop := ∃ n0, ∀ n, n ≠ n0 → row_backed w n.

(** Nothing but the development rows of the app changed. *)
Definition others w w' : Prop :=
  ∀ k, (∀ n, k ≠ (app, Some "", n)) → Db.table db w' !! k = Db.table db w !! k.

Record safe (B : World → Prop) w w' : Prop := {
  safe_env : w_env w' = w_env w;
  safe_others : others w w';
  safe_nn : Db.no_null app (Db.table db w');
  safe_backed : B w';
}.

Lemma backed_weaken w : backed w → backed_but w.
Proof. intros Hb. exists "". auto. Qed.
Lemma safe_weaken w w' : safe backed w w' → safe backed_but w w'.
Proof. intros []. split; auto using backed_weaken. Qed.
Lemma others_trans w1 w2 w3 : others w1 w2 → others w2 w3 → others w1 w3.
Proof. intros E1 E2 k Hk. rewrite E2 //. by apply E1. Qed.
Lemma safe_trans B1 B2 w1 w2 w3 : safe B1 w1 w2 → safe B2 w2 w3 → safe B2 w1 w3.
Proof. intros [] []. split; [congruence|by eapply others_trans|done..]. Qed.

(** Only the views and the environment matter. *)
Lemma safe_same (B : World → Prop) w w' :
  (∀ w1 w2, Db.table db w2 = Db.table db w1 → blobs w2 = blobs w1 → B w1 → B w2) →
  w_env w' = w_env w → Db.table db w' = Db.table db w → blobs w' = blobs w →
  Db.no_null app (Db.table db w) → B w → safe B w w'.
Proof.
  intros HB He Ht Hb Hn Hw. split; [done|intros k _; by rewrite Ht|by rewrite Ht|by eapply HB].
Qed.

Lemma row_backed_same w w' n :
  Db.table db w' = Db.table db w → blobs w' = blobs w → row_backed w n → row_backed w' n.
Proof.
  intros Ht Hb Hw hsh. rewrite /dev Ht (Cache.content_same _ w w') //. apply Hw.
Qed.
Lemma backed_same w w' :
  Db.table db w' = Db.table db w → blobs w' = blobs w → backed w → backed w'.
Proof. intros ? ? Hw n. by eapply row_backed_same. Qed.

(** Storing an object keeps every row backed. *)
Lemma backed_blob w w' k b :
  Db.table db w' = Db.table db w →
  blobs w' = blobs w ∨ blobs w' = <[(Cache.bk c, Cache.prefixed c k) := b]> (blobs w) →
  P k b → backed w → backed w'.
Proof.
  intros Ht [Hb|Hb] HP Hw; [by eapply backed_same|].
  intros n hsh. rewrite /dev Ht (Cache.content_insert _ _ _ _ _ _ Hb). case_decide; subst; eauto.
  apply Hw.
Qed.

Lemma backed_row w w' n0 hsh b :
  Db.table db w' = <[(app, Some "", n0) := hsh]> (Db.table db w) →
  blobs w' = <[(Cache.bk c, Cache.prefixed c hsh) := b]> (blobs w) →
  P hsh b → backed w → backed w'.
Proof.
  intros Ht Hb HP Hw n hsh'. rewrite /dev Ht (Cache.content_insert _ _ _ _ _ _ Hb).
  case_decide; subst; [eauto|]. destruct (decide (n = n0)) as [->|Hne].
  - rewrite lookup_insert_eq. congruence.
  - rewrite lookup_insert_ne; [|congruence]. apply Hw.
Qed.

Lemma others_insert w w' n hsh :
  Db.table db w' = <[(app, Some "", n) := hsh]> (Db.table db w) → others w w'.
Proof. intros Ht k Hk. by rewrite Ht lookup_insert_ne. Qed.
Lemma others_delete w w' n :
  Db.table db w' = delete (app, Some "", n) (Db.table db w) → others w w'.
Proof. intros Ht k Hk. by rewrite Ht lookup_delete_ne. Qed.

(** The handler of this app, with its archive. *)
Record ours (a : Archive.Archive) h : Prop := {
  ours_db : p_db h = db;
  ours_app : p_appID h = app;
  ours_cache : p_cache h = c;
  ours_archive : p_archive h = Some a;
}.

Lemma ours_dirty a h x : ours a h → ours a (set_p_dirty x h).
Proof. by intros []. Qed.

Context (Hopen : Cache.opened c).

(** The archive's hashes describe its contents. *)
Definition honest (a : Archive.Archive) (f : fsys) : Prop :=
  ∀ n hsh b, Archive.nil_map (Archive.listing a) !! n = Some hsh →
    Archive.GetContent a n f = Ok b → P hsh b.

(** The row written by a step of [update], whether inserted or updated. *)
Lemma wp_write_row add h a name hsh Q C w :
  ours a h → Db.no_null app (Db.table db w) → (add = false → is_Some (dev w name)) →
  (∀ s, Db.pg_view db s = <[(app, Some "", name) := hsh]> (Db.table db w) → Q None (set_pg s w)) →
  (∀ s, Db.pg_view db s = Db.table db w ∨
        Db.pg_view db s = <[(app, Some "", name) := hsh]> (Db.table db w) → C nil_deref (set_pg s w)) →
  wp (if add then Db.AddFile (p_db h) (p_appID h) "" name hsh
      else Db.UpdateFile (p_db h) (p_appID h) "" name hsh) Q C w.
Proof.
  intros [-> -> _ _] Hnn Hadd HQ HC. destruct add.
  - apply Db.wp_AddFile; [by intros; apply HQ|]. intros s [?|[_ ?]]; apply HC; auto.
  - apply Db.wp_UpdateFile; [done|..]; rewrite Db.upd_rows_insert //; by apply Hadd.
Qed.

Lemma wp_update_step add name h a Q C w :
  ours a h → Cache.coherent ∅ c w → Db.no_null app (Db.table db w) → backed w →
  honest a (w_fs w) → (add = false → is_Some (dev w name)) →
  (∀ w', safe backed w w' → w_fs w' = w_fs w → Cache.coherent ∅ c w' →
     Db.table db w' = <[(app, Some "", name) := Archive.GetHash a name]> (Db.table db w) →
     Archive.GetHash a name ≠ "" → Q (None, set_p_dirty true h) w') →
  (∀ w' e, safe backed w w' → Q (Some e, h) w') →
  (∀ w' cr, safe backed w w' → C cr w') →
  wp (update_step add name h) Q C w.
Proof.
  intros Hh Hc Hnn Hb Hhon Hadd HQ HE HC. pose proof Hh as [Hdb Happ Hca Har].
  assert (∀ w', w_env w' = w_env w → Db.table db w' = Db.table db w → blobs w' = blobs w →
    safe backed w w') as Hsame by (intros; by apply safe_same; [apply backed_same|..]).
  apply wp_bind, wp_BufferLine, wp_bind. rewrite Har. apply wp_ret, wp_bind, wp_read_fs.
  set (w1 := set_resp _ w). change (w_fs w1) with (w_fs w).
  case_decide as Hh0; [by apply wp_ret, HE, Hsame|].
  destruct (Archive.GetContent a name (w_fs w)) as [b|e] eqn:Eb; [|by apply wp_ret, HE, Hsame].
  assert (P (Archive.GetHash a name) b) as HP.
  { rewrite /Archive.GetHash in Hh0 *. destruct (_ !! name) eqn:El; [|done]. by eapply Hhon. }
  apply wp_bind. rewrite Hca. apply (Cache.wp_Set ∅); [done|done| |].
  2:{ intros w' e (m & s & ->) Hbl _. apply wp_ret, HE. split; [done|by intros k _|done|].
      by eapply (backed_blob w); [|exact Hbl|..]. }
  intros w' (m & s & ->) Hbl Hc'. apply wp_bind.
  eapply (wp_write_row _ _ a); [done|done|done| |].
  - intros s' Hs'. apply wp_ret, HQ; try done. split; [done|by eapply others_insert|..].
    + rewrite /Db.table /= Hs'. by apply Db.no_null_insert.
    + by eapply (backed_row w).
  - intros s' Hs'. apply HC. destruct Hs' as [Hs'|Hs'].
    + split; [done|intros k _; by rewrite /Db.table /= Hs'|by rewrite /Db.table /= Hs'|].
      eapply (backed_blob w); [done|right; exact Hbl|done|done].
    + split; [done|by eapply others_insert|..].
      * rewrite /Db.table /= Hs'. by apply Db.no_null_insert.
      * by eapply (backed_row w).
Qed.

(** [update]: on success exactly the named rows hold the listed hashes. *)
Lemma wp_update names add h a Q C w :
  ours a h → Cache.coherent ∅ c w → Db.no_null app (Db.table db w) → backed w →
  honest a (w_fs w) → (add = false → ∀ n, n ∈ names → is_Some (dev w n)) →
  (∀ w' h', safe backed w w' → w_fs w' = w_fs w → Cache.coherent ∅ c w' → ours a h' →
     (∀ n, dev w' n = if decide (n ∈ names) then Some (Archive.GetHash a n) else dev w n) →
     Q (None, h') w') →
  (∀ w' h' e, safe backed w w' → Q (Some e, h') w') →
  (∀ w' cr, safe backed w w' → C cr w') →
  wp (update names add h) Q C w.
Proof.
  intros Hh Hc Hnn Hb Hhon Hadd HQ HE HC.
  apply (wp_range_st (λ pre h' w', safe backed w w' ∧ w_fs w' = w_fs w ∧ Cache.coherent ∅ c w' ∧
    ours a h' ∧ (∀ n, dev w' n = if decide (n ∈ pre) then Some (Archive.GetHash a n) else dev w n))).
  - by split_and!.
  - intros pre n post h' w' Hsplit (Hs & Hf & Hc' & Hh' & Hd).
    pose proof Hs as [Henv Hoth Hnn' Hb'].
    apply (wp_update_step _ _ _ a); try done.
    + by rewrite Hf.
    + intros ->. rewrite Hd. case_decide; [done|]. apply Hadd; [done|]. rewrite Hsplit. set_solver.
    + intros w'' Hs' Hf' Hc'' Ht Hne. simpl. split_and!; try done.
      * by eapply safe_trans.
      * congruence.
      * by apply ours_dirty.
      * intros m. rewrite /dev Ht. destruct (decide (m = n)) as [->|Hmn].
        -- rewrite lookup_insert_eq decide_True //. set_solver.
        -- rewrite lookup_insert_ne; [|congruence]. rewrite -/(dev w' m) Hd.
           repeat case_decide; set_solver.
    + intros. apply HE. by eapply safe_trans.
    + intros. apply HC. by eapply safe_trans.
  - intros h' w' (? & ? & ? & ? & ?). by apply HQ.
Qed.

(** [protectHash] is true exactly when another name has the hash. *)
Lemma protect_loop_true l name hsh :
  protect_loop l name hsh = true ↔ ∃ k, (k, hsh) ∈ l ∧ k ≠ name.
Proof.
  induction l as [|[k v] l IH]; simpl; [split; [done|by intros (? & ?%elem_of_nil & _)]|].
  destruct (bool_decide (v = hsh) && bool_decide (k ≠ name)) eqn:E.
  - apply andb_true_iff in E as [->%bool_decide_eq_true Hk%bool_decide_eq_true].
    split; [|done]. intros _. exists k. split; [by left|done].
  - rewrite IH. split; intros (k' & Hin & Hne); exists k'; [split; [by right|done]|].
    apply elem_of_cons in Hin as [[= <- <-]|?]; [|done].
    by rewrite !bool_decide_eq_true_2 in E.
Qed.

Lemma wp_protectHash files name hsh Q C w :
  (∀ t b, (b = true ↔ ∃ k, files !! k = Some hsh ∧ k ≠ name) → Q b (set_tick t w)) →
  wp (protectHash files name hsh) Q C w.
Proof.
  intros HQ. apply wp_bind, wp_range_map. intros l Hl. apply wp_ret, HQ.
  rewrite protect_loop_true. by setoid_rewrite Hl; setoid_rewrite elem_of_map_to_list.
Qed.

(** Deleting the object of a hash no other row has. *)
Lemma backed_delete w w' n0 hsh :
  (∀ n, n ≠ n0 → dev w n ≠ Some hsh) →
  Db.table db w' = Db.table db w ∨ Db.table db w' = delete (app, Some "", n0) (Db.table db w) →
  blobs w' = blobs w ∨ blobs w' = delete (Cache.bk c, Cache.prefixed c hsh) (blobs w) →
  backed w → ∀ n, n ≠ n0 → row_backed w' n.
Proof.
  intros Hun Ht Hb Hw n Hne hsh' Hd.
  assert (dev w n = Some hsh') as Hd'.
  { rewrite /dev in Hd *. destruct Ht as [Ht|Ht]; rewrite Ht in Hd; [done|].
    rewrite lookup_delete_ne // in Hd. congruence. }
  destruct (Hw n hsh' Hd') as (b & Hc & HP). exists b. split; [|done].
  destruct Hb as [Hb|Hb]; [by rewrite (Cache.content_same _ w w')|].
  rewrite (Cache.content_delete _ _ _ _ _ Hb) decide_False //. intros ->. by apply (Hun n).
Qed.

Lemma wp_remove_step name h a Q C w :
  ours a h → Cache.coherent ∅ c w → Db.no_null app (Db.table db w) → backed w →
  (∀ w', safe backed w w' → w_fs w' = w_fs w → Cache.coherent ∅ c w' →
     Db.table db w' = delete (app, Some "", name) (Db.table db w) → Q (None, set_p_dirty true h) w') →
  (∀ w' e, safe backed_but w w' → Q (Some e, h) w') →
  (∀ w' cr, safe backed_but w w' → C cr w') →
  wp (remove_step name h) Q C w.
Proof.
  intros [Hdb Happ Hca Har] Hc Hnn Hb HQ HE HC.
  apply wp_bind, wp_BufferLine, wp_bind. rewrite Hdb Happ. set (w1 := set_resp _ w).
  assert (∀ s t e, Db.pg_view db s = Db.table db w →
    Q (Some e, h) (set_pg s (set_tick t w1))) as Hearly.
  { intros s t e Hs. apply HE, safe_weaken. apply safe_same; try done. apply backed_same. }
  apply Db.wp_GetFiles; [done|done| |].
  2:{ intros s e Hs. apply wp_ret. by apply (Hearly s (w_tick w1)). }
  intros s files Hs Hf. cbn beta iota zeta. destruct (files !! name) as [hsh|] eqn:Ef.
  2:{ apply wp_ret. by apply (Hearly s (w_tick w1)). }
  case_decide as Hh0; [apply wp_ret; by apply (Hearly s (w_tick w1))|].
  apply wp_bind, wp_protectHash. intros t prot Hprot.
  set (w2 := set_tick t _).
  assert (prot = false → ∀ n, n ≠ name → dev w n ≠ Some hsh) as Hun.
  { intros -> n Hne Hd. assert (false = true); [|done]. apply Hprot. exists n.
    split; [|done]. by rewrite Hf. }
  assert (∀ w3, Cache.stores_only w2 w3 →
    (blobs w3 = blobs w ∨ prot = false ∧ blobs w3 = delete (Cache.bk c, Cache.prefixed c hsh) (blobs w)) →
    Cache.coherent ∅ c w3 →
    wp (err ← Db.DeleteFile db app "" name;
        match err with
        | Some err => mret (Some err, h)
        | None => mret (None, set_p_dirty true h)
        end) Q C w3) as Hrow.
  { intros w3 (m & s3' & ->) Hb3 Hc3.
    assert (∀ w4, (Db.table db w4 = Db.table db w ∨
        Db.table db w4 = delete (app, Some "", name) (Db.table db w)) →
      blobs w4 = blobs (set_mc m (set_s3 s3' w2)) → ∀ n, n ≠ name → row_backed w4 n) as Hbut.
    { intros w4 Ht4 Hb4. destruct Hb3 as [Hb3|[Hp Hb3]].
      - intros n Hne hsh' Hd.
        assert (dev w n = Some hsh') as Hd'.
        { rewrite /dev in Hd *. destruct Ht4 as [Ht4|Ht4]; rewrite Ht4 in Hd; [done|].
          rewrite lookup_delete_ne // in Hd. congruence. }
        destruct (Hb n hsh' Hd') as (b & Hcb & HPb). exists b. split; [|done].
        rewrite (Cache.content_same _ w w4) //. congruence.
      - eapply (backed_delete w); [by apply Hun|done| |done]. right. congruence. }
    apply wp_bind, Db.wp_DeleteFile; [done|..].
    - intros s4 Hs4. rewrite /Db.table /= Hs Db.del_rows_delete // in Hs4. apply wp_ret, HQ; try done.
      split; [done|by eapply others_delete|..].
      + rewrite /Db.table /= Hs4. intros n. rewrite lookup_delete_ne //.
      + intros n. destruct (decide (n = name)) as [->|Hne].
        * intros hsh' Hd. rewrite /dev /Db.table /= Hs4 lookup_delete_eq in Hd. done.
        * apply Hbut; [by right|done|done].
    - intros s4 Hs4. apply HC. rewrite /Db.table /= Hs Db.del_rows_delete // in Hs4.
      split; [done| | |exists name; apply Hbut; done].
      + destruct Hs4 as [E|E]; [intros k _; by rewrite /Db.table /= E|by eapply others_delete].
      + rewrite /Db.table /=. destruct Hs4 as [-> | ->]; [done|].
        intros n. rewrite lookup_delete_ne //. }
  apply wp_bind. destruct prot; simpl.
  - apply wp_ret, Hrow; [apply Cache.stores_only_refl|by left|done].
  - rewrite Hca. apply (Cache.wp_Delete ∅); [done|done|]. intros w3 e Hst Hb3 Hc3. destruct e as [e|].
    + apply wp_ret, HE. destruct Hst as (m & s3' & ->).
      split; [done|intros k _; by rewrite /Db.table /= Hs|by rewrite /Db.table /= Hs|].
      exists name. eapply (backed_delete w); [by apply Hun| |exact Hb3|done]. left. done.
    + apply Hrow; [done| |done]. destruct Hb3; auto.
Qed.

(** [remove]: on success the named rows are gone; on failure at most one row may
    have lost its object. *)
Lemma wp_remove names h a Q C w :
  ours a h → Cache.coherent ∅ c w → Db.no_null app (Db.table db w) → backed w →
  (∀ w' h', safe backed w w' → w_fs w' = w_fs w → Cache.coherent ∅ c w' → ours a h' →
     (∀ n, dev w' n = if decide (n ∈ names) then None else dev w n) → Q (None, h') w') →
  (∀ w' h' e, safe backed_but w w' → Q (Some e, h') w') →
  (∀ w' cr, safe backed_but w w' → C cr w') →
  wp (remove names h) Q C w.
Proof.
  intros Hh Hc Hnn Hb HQ HE HC.
  apply (wp_range_st (λ pre h' w', safe backed w w' ∧ w_fs w' = w_fs w ∧ Cache.coherent ∅ c w' ∧
    ours a h' ∧ (∀ n, dev w' n = if decide (n ∈ pre) then None else dev w n))).
  - by split_and!.
  - intros pre n post h' w' Hsplit (Hs & Hf & Hc' & Hh' & Hd).
    pose proof Hs as [Henv Hoth Hnn' Hb'].
    apply (wp_remove_step _ _ a); try done.
    + intros w'' Hs' Hf' Hc'' Ht. simpl. split_and!; try done.
      * by eapply safe_trans.
      * congruence.
      * by apply ours_dirty.
      * intros m. rewrite /dev Ht. destruct (decide (m = n)) as [->|Hmn].
        -- rewrite lookup_delete_eq decide_True //. set_solver.
        -- rewrite lookup_delete_ne; [|congruence]. rewrite -/(dev w' m) Hd.
           repeat case_decide; set_solver.
    + intros. apply HE. by eapply safe_trans.
    + intros. apply HC. by eapply safe_trans.
  - intros h' w' (? & ? & ? & ? & ?). by apply HQ.
Qed.

(** ** The whole synchronisation *)

(** The rows after a push of the listing [l]: exactly [l], unless the query for
    the current rows failed, whose error is ignored. *)
Definition select_failed w : Prop := ∃ e w', Db.GetFiles db app "" w = (Ret (Err e), w').
Definition rows_after (l : gmap string string) w w' : Prop :=
  (∀ n, dev w' n = l !! n) ∨
  select_failed w ∧ ∀ n, dev w' n = match l !! n with Some hsh => Some hsh | None => dev w n end.

(** What the comparison was made with. *)
Definition seen (files : gmap string string) w : Prop :=
  (∀ n, files !! n = dev w n) ∨ select_failed w ∧ files = ∅.

Lemma seen_rows l files comp w :
  seen files w → Archive.comparison_of l files comp →
  (∀ n, n ∈ Archive.changed comp → is_Some (dev w n)) ∧
  ∀ w', (∀ n, dev w' n =
      if decide (n ∈ Archive.removed comp) then None
      else if decide (n ∈ Archive.added comp ∨ n ∈ Archive.changed comp) then l !! n
      else dev w n) → rows_after l w w'.
Proof.
  intros Hseen (Ha & Hc & Hr & _).
  assert (∀ n v, l !! n = Some v → n ∉ Archive.removed comp) as Hnr.
  { intros n v Hv [Hn _]%Hr. congruence. }
  split.
  - intros n (v & v' & _ & Hv & _)%Hc. destruct Hseen as [Hs|[_ ->]]; [|done].
    rewrite -Hs Hv. eauto.
  - intros w' Hw'. destruct Hseen as [Hs|[Hf ->]]; [left|right; split; [done|]]; intros n; rewrite Hw'.
    + destruct (l !! n) as [v|] eqn:El.
      * rewrite decide_False; [|by eapply Hnr]. case_decide as Hd; [done|]. rewrite -Hs.
        destruct (files !! n) as [v'|] eqn:Ef.
        -- destruct (decide (v = v')) as [->|Hne]; [done|]. destruct Hd. right. apply Hc. by exists v, v'.
        -- destruct Hd. left. apply Ha. by split; [eexists|].
      * case_decide as Hd; [done|]. rewrite decide_False.
        -- rewrite -Hs. destruct (files !! n) eqn:Ef; [|done]. destruct Hd. apply Hr. by split; [|eexists].
        -- intros [[[? ?] _]%Ha|(? & ? & ? & _)%Hc]; congruence.
    + rewrite decide_False; [|by intros [_ [? ?%lookup_empty_Some]]%Hr]. destruct (l !! n) as [v|] eqn:El.
      * rewrite decide_True //. left. apply Ha. by split; [eexists|].
      * rewrite decide_False //. intros [[[? ?] _]%Ha|(? & ? & ? & _)%Hc]; congruence.
Qed.

Lemma wp_internalError Q C w :
  (∀ r, Q tt (set_resp r w)) → wp internalError Q C w.
Proof. intros HQ. apply wp_on_resp, HQ. Qed.
Lemma wp_expectedError e Q C w :
  (∀ r, Q tt (set_resp r w)) → wp (expectedError e) Q C w.
Proof. intros HQ. apply wp_on_resp, HQ. Qed.

Lemma backed_but_same w w' :
  Db.table db w' = Db.table db w → blobs w' = blobs w → backed_but w → backed_but w'.
Proof. intros Ht Hb [n0 Hw]. exists n0. intros n Hne. eapply row_backed_same; eauto. Qed.

Lemma safe_resp B w w' r :
  (∀ w1 w2, Db.table db w2 = Db.table db w1 → blobs w2 = blobs w1 → B w1 → B w2) →
  safe B w w' → safe B w (set_resp r w').
Proof. intros HB []. split; [done..|]. by apply (HB w'). Qed.

Lemma safe_from_resp B w w' r : safe B (set_resp r w) w' → safe B w w'.
Proof. by intros []. Qed.

(** The step "when the list is not empty, announce it and process it". *)
Lemma wp_phase {A} (l : list A) msg h (body : MW (option error * pushHandler)) Q C w :
  (l = [] → Q (None, h) w) →
  (l ≠ [] → ∀ r, wp body Q C (set_resp r w)) →
  wp (if decide (0 < length l)%nat then log msg;; body else mret (None, h)) Q C w.
Proof.
  intros H0' H1'. destruct l as [|x l]; simpl.
  - by apply wp_ret, H0'.
  - apply wp_bind, wp_BufferLine. by apply H1'.
Qed.

(** The exits before the rows are in line with the listing. *)
Definition sync_failed (x : push_exit) : bool :=
  match x with XCompare | XAdd | XChange | XRemove => true | _ => false end.

(** Additions, changes and removals, each over the rows the previous left. *)
Lemma wp_apply_comparison comp h a Q C w :
  ours a h → Cache.coherent ∅ c w → Db.no_null app (Db.table db w) → backed w → honest a (w_fs w) →
  NoDup (Archive.added comp ++ Archive.changed comp) →
  (∀ n, n ∈ Archive.changed comp → is_Some (dev w n)) →
  (∀ w' h', safe backed w w' → Cache.coherent ∅ c w' → ours a h' →
     (∀ n, dev w' n =
        if decide (n ∈ Archive.removed comp) then None
        else if decide (n ∈ Archive.added comp ∨ n ∈ Archive.changed comp)
        then Some (Archive.GetHash a n) else dev w n) → Q (None, h') w') →
  (∀ w' x h', safe backed_but w w' → (x ≠ XRemove → backed w') →
     sync_failed x = true → Q (Some x, h') w') →
  (∀ w' cr, safe backed_but w w' → C cr w') →
  wp (apply_comparison comp h) Q C w.
Proof.
  intros Hh Hc Hnn Hb Hhon Hnd Hch HQ HX HC.
  (* One phase: from [w1], reached with [done1] processed, the next list. *)
  assert (∀ w1 w2 h' x, safe backed w w1 → safe backed w1 w2 → x = XAdd ∨ x = XChange →
    wp (internalError;; mret (Some x, h')) Q C w2) as Hfail.
  { intros w1 w2 h' x H1' H2' Hx. pose proof (safe_trans _ _ _ _ _ H1' H2') as H3'.
    apply wp_bind, wp_internalError. intros r. apply wp_ret, HX.
    - apply safe_weaken, safe_resp; [apply backed_same|done].
    - intros _. by apply (backed_same w2); [..|apply H3'].
    - by destruct Hx as [-> | ->]. }
  assert (safe backed w w) as Hw0 by (by apply safe_same; [apply backed_same|..]).
  apply wp_bind. eapply wp_mono with
    (Q := λ r w1, match r with
      | (Some _, h1) => safe backed w w1
      | (None, h1) => safe backed w w1 ∧ w_fs w1 = w_fs w ∧ Cache.coherent ∅ c w1 ∧ ours a h1 ∧
          ∀ n, dev w1 n = if decide (n ∈ Archive.added comp) then Some (Archive.GetHash a n) else dev w n
      end) (C := λ _ w1, safe backed w w1); [| |intros; by apply HC, safe_weaken].
  { apply wp_phase.
    - intros ->. split_and!; try done. 
    - intros _ r. apply (wp_update _ _ _ a); try done.
      all: intros; try split_and!; by eauto using safe_from_resp. }
  intros [[e|] h1] w1; [intros; apply (Hfail w w1); auto|].
  intros (Hs1 & Hf1 & Hc1 & Hh1 & Hd1). pose proof Hs1 as [He1 Ho1 Hn1 Hb1].
  apply wp_bind. eapply wp_mono with
    (Q := λ r w2, match r with
      | (Some _, h2) => safe backed w1 w2
      | (None, h2) => safe backed w1 w2 ∧ Cache.coherent ∅ c w2 ∧ ours a h2 ∧
          ∀ n, dev w2 n = if decide (n ∈ Archive.changed comp) then Some (Archive.GetHash a n) else dev w1 n
      end) (C := λ _ w2, safe backed w1 w2); [| |intros; by apply HC, safe_weaken; eapply safe_trans].
  { apply wp_phase.
    - intros ->. split_and!; try done. 
    - intros _ r. apply (wp_update _ _ _ a); try done.
      1: by rewrite /= Hf1.
      1: intros _ n Hin; change (is_Some (dev w1 n)); rewrite Hd1; case_decide; [done|by apply Hch].
      all: intros; try split_and!; by eauto using safe_from_resp. }
  intros [[e|] h2] w2; [intros; apply (Hfail w1 w2); auto|].
  intros (Hs2 & Hc2 & Hh2 & Hd2). pose proof (safe_trans _ _ _ _ _ Hs1 Hs2) as Hs12.
  pose proof Hs2 as [He2 Ho2 Hn2 Hb2].
  apply wp_bind. eapply wp_mono with
    (Q := λ r w3, match r with
      | (Some _, h3) => safe backed_but w2 w3
      | (None, h3) => safe backed w2 w3 ∧ Cache.coherent ∅ c w3 ∧ ours a h3 ∧
          ∀ n, dev w3 n = if decide (n ∈ Archive.removed comp) then None else dev w2 n
      end) (C := λ _ w3, safe backed_but w2 w3); [| |intros; by apply HC; eapply safe_trans].
  { apply wp_phase.
    - intros ->. split_and!; try done.
    - intros _ r. apply (wp_remove _ _ a); try done.
      all: intros; try split_and!; by eauto using safe_from_resp. }
  intros [[e|] h3] w3.
  - intros Hs3. pose proof (safe_trans _ _ _ _ _ Hs12 Hs3) as Hs13.
    apply wp_bind, wp_internalError. intros r. apply wp_ret, HX; [|done|done].
    apply safe_resp; [apply backed_but_same|done].
  - intros (Hs3 & Hc3 & Hh3 & Hd3). apply wp_ret, HQ; try done; [by eapply safe_trans|].
    intros n. rewrite Hd3 Hd2 Hd1. repeat case_decide; naive_solver.
Qed.

Lemma seen_hashes a l files comp w :
  Archive.nil_map (Archive.listing a) = l → Archive.comparison_of l files comp →
  ∀ n, n ∈ Archive.added comp ∨ n ∈ Archive.changed comp → Some (Archive.GetHash a n) = l !! n.
Proof.
  intros <- (Ha & Hc & _). rewrite /Archive.GetHash.
  by intros n [[[v ->] _]%Ha|(v & v' & -> & _)%Hc].
Qed.

Lemma wp_handle_sync h a Q C w :
  ours a h → Archive.listing a = None → Cache.coherent ∅ c w → Db.no_null app (Db.table db w) →
  backed w →
  (∀ l, json_listing (Archive.listing_bytes a (w_fs w)) = Ok l →
     honest (Archive.mkArchive (Archive.tempDir a) l) (w_fs w)) →
  (∀ w' h' l, json_listing (Archive.listing_bytes a (w_fs w)) = Ok l →
     Archive.listing_ok (Archive.nil_map l) → safe backed w w' → Cache.coherent ∅ c w' →
     ours (Archive.mkArchive (Archive.tempDir a) l) h' →
     rows_after (Archive.nil_map l) w w' → Q (None, h') w') →
  (∀ w' x h', safe backed_but w w' → (x ≠ XRemove → backed w') →
     sync_failed x = true → Q (Some x, h') w') →
  (∀ w' cr, safe backed_but w w' → C cr w') →
  wp (handle_sync h) Q C w.
Proof.
  intros Hh Hl Hc Hnn Hb Hhon HQ HX HC. pose proof Hh as [Hdb Happ Hca Har].
  rewrite /handle_sync Hdb Happ Har.
  apply wp_bind, wp_run. eapply wp_mono with
    (Q := λ r w1, ∃ s, w1 = set_pg s w ∧ Db.pg_view db s = Db.table db w ∧
            (Db.GetFiles db app "" w = (Ret r, w1) →
             seen (match r with Ok files => files | Err _ => ∅ end) w)) (C := λ _ _, False).
  { apply Db.wp_GetFiles; [done|done|..].
    - intros s files Hs Hf. exists s. split_and!; [done..|]. intros _. by left.
    - intros s e Hs. exists s. split_and!; [done..|]. intros Hr. right. split; [|done].
      by exists e, (set_pg s w). }
  2:{ done. }
  intros r w1 (s & -> & Hs & Hseen) Hrun. specialize (Hseen Hrun). cbn zeta.
  set (files := match r with Ok _ => _ | Err _ => _ end) in *. clearbody files.
  set (w1 := set_pg s w). apply wp_bind, wp_ret, wp_bind.
  assert (∀ w2, w_env w2 = w_env w → Db.table db w2 = Db.table db w → blobs w2 = blobs w →
    safe backed w w2) as Hsame by (intros; by apply safe_same; [apply backed_same|..]).
  apply Archive.wp_Compare; [done| |].
  2:{ intros t e a' Ha'. apply wp_bind, wp_internalError. intros rs.
      assert (safe backed w (set_resp rs (set_tick t w1))) as Hsf by by apply Hsame.
      by apply wp_ret, HX; [apply safe_weaken|intros; apply Hsf|]. }
  intros t l comp a' Hj Hok Hcomp Hdiff. destruct (seen_rows _ _ _ _ Hseen Hcomp) as [Hch Hrows].
  assert (safe backed w (set_tick t w1)) as Hsf by by apply Hsame.
  assert (∀ n, dev (set_tick t w1) n = dev w n) as Hdev by (intros n; by rewrite /dev /Db.table /= Hs).
  apply (wp_apply_comparison _ _ a'); try done.
  - by apply Hsf.
  - by apply Hsf.
  - by apply Hhon.
  - apply Hcomp.
  - intros n. rewrite Hdev. apply Hch.
  - intros w' h' Hs' Hc' Hh' Hd. apply (HQ _ _ l); try done; [by eapply safe_trans|].
    apply Hrows. intros n. rewrite Hd. case_decide; [done|]. case_decide; [|done].
    by apply (seen_hashes a' _ files comp w).
  - intros w' x h' Hs'. apply HX. by eapply safe_trans.
  - intros w' cr Hs'. apply HC. by eapply safe_trans.
Qed.

(** ** After the synchronisation *)

(** The reserved names under which footers are stored are no file hashes. *)
Context (Hreserved : ∀ platform b, P (Cache.BundleFooterFile platform) b).

Record published w w' : Prop := {
  pub_safe : safe backed w w';
  pub_table : Db.table db w' = Db.table db w;
}.

Lemma published_trans w1 w2 w3 : published w1 w2 → published w2 w3 → published w1 w3.
Proof. intros [] []. split; [by eapply safe_trans|congruence]. Qed.

Lemma published_same w w' :
  w_env w' = w_env w → Db.table db w' = Db.table db w → blobs w' = blobs w →
  Db.no_null app (Db.table db w) → backed w → published w w'.
Proof. intros. split; [|done]. by apply safe_same; [apply backed_same|..]. Qed.

Lemma published_on w w1 w2 :
  w_env w2 = w_env w1 → Db.table db w2 = Db.table db w1 → blobs w2 = blobs w1 →
  published w w1 → published w w2.
Proof.
  intros He Ht Hb Hp. eapply published_trans; [exact Hp|]. destruct Hp as [[]].
  by apply published_same.
Qed.

Lemma wp_putMetadata h Q C w :
  (∀ e s, Q e (set_web s w)) → (∀ cr s, C cr (set_web s w)) → wp (putMetadata h) Q C w.
Proof.
  intros HQ HC.
  assert (∀ e, Q e w) as HQ0 by (intros; rewrite -(set_web_id w); apply HQ).
  assert (∀ cr, C cr w) as HC0 by (intros; rewrite -(set_web_id w); apply HC).
  apply wp_bind, wp_Getenv, wp_bind, wp_deref; [|intros _; apply HC0]. intros m _.
  destruct (json_icons _) as [ic|]; [|apply wp_ret, HQ0].
  apply wp_bind, wp_Getenv. case_decide; [apply wp_ret, HQ0|].
  destruct (negb _); [apply wp_throw, HC0|].
  apply wp_bind, wp_ctx_string; [|done]. intros tok _.
  apply wp_bind, wp_ctx_string; [|done]. intros sg _.
  apply wp_bind, wp_on_web. intros [[st body]|e] s; [|apply wp_ret, HQ].
  case_decide; [|apply wp_ret, HQ]. destruct body; apply wp_ret, HQ.
Qed.

(** Storing a footer. *)
Lemma wp_store_footer h a f path platform Q C w0 w :
  ours a h → published w0 w → Cache.coherent ∅ c w →
  (∀ w', published w0 w' → Cache.coherent ∅ c w' → Q None w') →
  (∀ w' x, published w0 w' → x = XReadFooter ∨ x = XSetFooter → Q (Some x) w') →
  wp (store_footer h f path platform) Q C w.
Proof.
  intros [_ _ Hca _] Hp Hc HQ HX. rewrite /store_footer. case_decide; [|by apply wp_ret, HQ].
  apply wp_bind, wp_read_fs. destruct (ReadFile _ _) as [b|e].
  2:{ apply wp_bind, wp_internalError. intros r. apply wp_bind, Packager.wp_CleanupFooters.
      intros fs. apply wp_ret, HX; [|by left]. by apply (published_on _ w). }
  apply wp_bind. rewrite Hca.
  assert (∀ w', Cache.stores_only w w' →
     blobs w' = blobs w ∨
     blobs w' = <[(Cache.bk c, Cache.prefixed c (Cache.BundleFooterFile platform)) := b]> (blobs w) →
     published w0 w') as Hst.
  { intros w' (m & s & ->) Hb. eapply published_trans; [done|]. destruct Hp as [[]].
    split; [|done]. split; [done|by intros k _|done|]. eapply (backed_blob w); eauto. }
  apply (Cache.wp_Set ∅); [done|done|..].
  - intros w' Hw' Hb Hc'. apply wp_ret, HQ; [|done]. eauto.
  - intros w' e Hw' Hb _. apply wp_bind, wp_internalError. intros r.
    apply wp_bind, Packager.wp_CleanupFooters. intros fs. apply wp_ret, HX; [|by right].
    by apply (published_on _ w'); [done..|apply Hst].
Qed.

Lemma wp_handle_finish h a f Q C w0 w :
  ours a h → published w0 w → Cache.coherent ∅ c w →
  (∀ w' x, published w0 w' → sync_failed x = false → Q x w') →
  (∀ w' cr, published w0 w' → C cr w') →
  wp (handle_finish h f) Q C w.
Proof.
  intros Hh Hp Hc HQ HC. apply wp_bind, wp_putMetadata.
  2:{ intros cr s. apply HC. by apply (published_on _ w). }
  intros [e|] s.
  { apply wp_bind, wp_expectedError. intros r. apply wp_ret, HQ; [|done]. by apply (published_on _ w). }
  assert (published w0 (set_web s w)) as Hp1 by by apply (published_on _ w).
  apply wp_bind, wp_deref; [|intros _; by apply HC]. intros f' _. apply wp_bind.
  eapply (wp_store_footer _ a); [done|done|done| |].
  2:{ intros w' x Hw' Hx. apply wp_ret, HQ; [done|]. by destruct Hx as [-> | ->]. }
  intros w2 Hp2 Hc2. apply wp_bind. eapply (wp_store_footer _ a); [done|done|done| |].
  2:{ intros w' x Hw' Hx. apply wp_ret, HQ; [done|]. by destruct Hx as [-> | ->]. }
  intros w3 Hp3 Hc3. apply wp_bind, wp_BufferLine, wp_bind, Packager.wp_CleanupFooters. intros fs.
  apply wp_bind, wp_PostAppUpdated. intros q. apply wp_ret, HQ; [|done]. by apply (published_on _ w3).
Qed.

Lemma wp_handle_publish h a Q C w0 w :
  ours a h → c = Cache.env_cache app "" w → published w0 w → Cache.coherent ∅ c w →
  (∀ w' x, published w0 w' → sync_failed x = false → Q x w') →
  (∀ w' cr, published w0 w' → C cr w') →
  wp (handle_publish h) Q C w.
Proof.
  intros Hh Hcw Hp Hc HQ HC. pose proof Hh as [Hdb Happ Hca Har].
  rewrite /handle_publish Hdb Happ Har. apply wp_bind, Cache.wp_NewCache. rewrite -Hcw.
  destruct (_ && _).
  { apply wp_bind, wp_BufferLine, wp_ret, HQ; [|done]. by apply (published_on _ w). }
  pose proof Hp as [[_ _ Hnn _] _].
  apply wp_bind. eapply wp_mono with
    (Q := λ _ w1, published w0 w1 ∧ Cache.coherent ∅ c w1) (C := λ _ _, False); [|clear Hp Hc|done].
  { apply Db.wp_GetFiles; [done|done|..]; intros; (split; [by apply (published_on _ w)|done]). }
  intros r w1 [Hp1 Hc1]. cbn zeta. set (files := match r with Ok _ => _ | Err _ => _ end).
  apply wp_bind, wp_FilesToTemp; [done|done|]. intros w2 r2 [] _ Hc2.
  assert (published w0 w2) as Hp2.
  { apply (published_on _ w1); [done| |done|done]. rewrite /Db.table. by f_equal. }
  destruct r2 as [d|e].
  2:{ apply wp_bind, wp_internalError. intros rs. apply wp_ret, HQ; [|done].
      by apply (published_on _ w2). }
  apply wp_bind, Icon.wp_GetIcons; [|intros; by apply HC, (published_on _ w2)].
  intros t r3. destruct r3 as [icons|e].
  2:{ apply wp_bind, wp_Cleanup. intros fs. apply wp_bind, wp_expectedError. intros rs.
      apply wp_ret, HQ; [|done]. by apply (published_on _ w2). }
  apply wp_bind, wp_BufferLine, wp_bind, wp_deref; [|intros _; by apply HC, (published_on _ w2)].
  intros m _. apply wp_bind, Packager.wp_MakeBundleFooters. intros w3 r4 (f3 & t3 & x3 & ->).
  destruct r4 as [f|e].
  2:{ apply wp_bind, wp_Cleanup. intros fs. apply wp_bind, wp_expectedError. intros rs.
      apply wp_ret, HQ; [|done]. by apply (published_on _ w2). }
  apply wp_bind, wp_Cleanup. intros fs.
  apply (wp_handle_finish _ a _ _ _ w0); try done. by apply (published_on _ w2).
Qed.

(** [loadMetaData] only reads, apart from warming memcached. *)
Lemma wp_loadMetaData h a Q C w :
  ours a h → Cache.coherent ∅ c w → Db.no_null app (Db.table db w) →
  (∀ w' e h', w_env w' = w_env w → w_fs w' = w_fs w → Db.table db w' = Db.table db w →
     blobs w' = blobs w → Cache.coherent ∅ c w' → ours a h' → Q (e, h') w') →
  wp (loadMetaData h) Q C w.
Proof.
  intros Hh Hc Hnn HQ. pose proof Hh as [Hdb Happ Hca Har].
  apply wp_bind, wp_BufferLine, wp_bind. rewrite Har. apply wp_ret, wp_bind, wp_bind, wp_read_fs.
  set (w1 := set_resp _ w).
  destruct (Archive.diffExists _ _ _); simpl.
  - apply wp_bind, wp_read_fs. destruct (Archive.GetContent _ _ _) as [b|e]; apply wp_ret.
    + apply wp_bind, wp_ret. destruct (Metadata.ParseMetadata b); apply wp_ret, HQ; try done; by destruct Hh.
    + by apply wp_ret, HQ.
  - apply wp_ret, wp_bind. rewrite Hdb Happ Hca. apply wp_bind.
    apply Db.wp_GetFile; [done..|]. intros s r Hs _. destruct r as [hsh|e].
    2:{ by apply wp_ret, wp_ret, HQ. }
    apply wp_bind, (Cache.wp_Get ∅); [done|done|set_solver|].
    intros w' r (m & s' & ->) Hb Hc' _. destruct r as [b|e]; apply wp_ret.
    + destruct (Metadata.ParseMetadata b); apply wp_ret, HQ; try done; by destruct Hh.
    + by apply wp_ret, HQ.
Qed.

Lemma wp_decompress r h Q C w :
  (∀ e h' f rs, (e = None → ∃ a, h' = set_p_archive (Some a) h ∧ Archive.listing a = None) →
     Q (e, h') (set_fs f (set_resp rs w))) →
  wp (decompress r h) Q C w.
Proof.
  intros HQ. apply wp_bind, wp_BufferLine, wp_bind. set (w1 := set_resp _ w).
  assert (∀ w2 e f, w2 = set_fs f w1 →
    wp (Archive.Close Archive.NewArchive;; mret (Some e, h)) Q C w2) as Herr.
  { intros w2 e f ->. apply wp_bind, wp_bind, wp_on_fs. intros ? f' _.
    apply wp_ret, wp_ret, HQ. done. }
  apply wp_bind, wp_TempDir.
  2:{ intros e. apply wp_ret. apply (Herr _ _ (w_fs w1)). by destruct w. }
  intros [d|e] f.
  2:{ apply wp_ret. by eapply Herr. }
  apply wp_bind, wp_on_fs. intros ? f1 _. apply wp_bind, wp_on_fs. intros err f2 _.
  destruct err as [e|]; apply wp_ret.
  - apply wp_bind, wp_bind, wp_on_fs. intros ? f' _. by apply wp_ret, wp_ret, HQ.
  - apply wp_ret, HQ. intros _. by eexists.
Qed.

(** The exits after the rows are in line with the listing. *)
Definition synced (x : push_exit) : bool :=
  match x with XDecompress | XMetadata => false | _ => negb (sync_failed x) end.

Definition pushed_listing (r : request) h w (l : option (gmap string string)) : Prop :=
  ∃ h1 w1 a, decompress r h w = (Ret (None, h1), w1) ∧ p_archive h1 = Some a ∧
    json_listing (Archive.listing_bytes a (w_fs w1)) = Ok l.

(** The world in which the rows are read for the comparison. *)
Definition at_sync (r : request) h w w2 : Prop :=
  ∃ h1 w1 h2, decompress r h w = (Ret (None, h1), w1) ∧ loadMetaData h1 w1 = (Ret (None, h2), w2).

Definition honest_push (r : request) h w : Prop :=
  ∀ h1 w1 a l, decompress r h w = (Ret (None, h1), w1) → p_archive h1 = Some a →
    json_listing (Archive.listing_bytes a (w_fs w1)) = Ok l →
    honest (Archive.mkArchive (Archive.tempDir a) l) (w_fs w1).

Lemma wp_handle r h Q C w :
  p_db h = db → p_appID h = app → p_cache h = c → c = Cache.env_cache app "" w →
  Cache.coherent ∅ c w → Db.no_null app (Db.table db w) → backed w → honest_push r h w →
  (∀ w' x, safe backed_but w w' → (x ≠ XRemove → backed w') →
     (synced x = true → ∃ l w2, pushed_listing r h w l ∧ Archive.listing_ok (Archive.nil_map l) ∧
        at_sync r h w w2 ∧ rows_after (Archive.nil_map l) w2 w') → Q x w') →
  (∀ w' cr, safe backed_but w w' → C cr w') →
  wp (handle r h) Q C w.
Proof.
  intros Hdb Happ Hca Hcw Hc Hnn Hb Hhon HQ HC.
  assert (∀ w1 w2, safe backed_but w w1 → w_env w2 = w_env w1 → Db.table db w2 = Db.table db w1 →
    blobs w2 = blobs w1 → safe backed_but w w2) as Hbut.
  { intros w1 w2 [] ? Ht ?. split; [congruence|intros k Hk; rewrite Ht; auto|by rewrite Ht|].
    by eapply backed_but_same. }
  assert (∀ w1, w_env w1 = w_env w → Db.table db w1 = Db.table db w → blobs w1 = blobs w →
    safe backed w w1) as Hsame by (intros; by apply safe_same; [apply backed_same|..]).
  apply wp_bind, wp_run, wp_decompress. intros e h1 f rs Hd Hrun. destruct e as [e|].
  { apply wp_bind, wp_internalError. intros rs'. apply wp_ret.
    assert (safe backed w (set_resp rs' (set_fs f (set_resp rs w)))) as Hs by by apply Hsame.
    by apply HQ; [apply safe_weaken|intros; apply Hs|]. }
  destruct (Hd eq_refl) as (a & -> & Hl). apply wp_bind, wp_ret, wp_defer.
  set (w1 := set_fs f _) in *.
  assert (ours a (set_p_archive (Some a) h)) as Hours by done.
  (* After the body, closing the archive only removes files. *)
  eapply wp_mono with
    (Q := λ x w', safe backed_but w w' ∧ (x ≠ XRemove → backed w') ∧
       (synced x = true → ∃ l w2, pushed_listing r h w l ∧ Archive.listing_ok (Archive.nil_map l) ∧
          at_sync r h w w2 ∧ rows_after (Archive.nil_map l) w2 w'))
    (C := λ _ w', safe backed_but w w').
  2:{ intros x w' (H1' & H2' & H3'). apply wp_bind, wp_on_fs. intros ? f' _. apply wp_ret.
      apply HQ; [by apply (Hbut w')|intros Hx; by apply (backed_same w'); [..|apply H2']|].
      intros Hx. destruct (H3' Hx) as (l & w2 & ? & ? & ? & Hr). by exists l, w2. }
  2:{ intros [s|s] w' Hs; [|by apply HC]. apply wp_bind, wp_on_fs. intros ? f' _. apply wp_ret.
      by apply HC, (Hbut w'). }
  apply wp_bind, wp_run, (wp_loadMetaData _ a); [done|done|done|].
  intros w2 [e|] h2 He2 Hf2 Ht2 Hb2 Hc2 Hh2 Hload.
  { apply wp_bind, wp_expectedError. intros rs'. apply wp_ret.
    assert (safe backed w (set_resp rs' w2)) as Hs by by apply Hsame.
    split_and!; [by apply safe_weaken|intros _; apply Hs|done]. }
  assert (safe backed w w2) as Hs2 by by apply Hsame.
  apply wp_bind, (wp_handle_sync _ a); try done; try apply Hs2.
  - intros l Hj. rewrite Hf2. apply (Hhon (set_p_archive (Some a) h) w1 a l); try done. by rewrite -Hf2.
  - intros w3 h3 l Hj Hok Hs3 Hc3 Hh3 Hrows.
    assert (safe backed w w3) as Hs13 by by eapply safe_trans.
    assert (published w3 w3) as Hp3 by (by apply published_same; [..|apply Hs13|apply Hs13]).
    assert (∀ w4 x, published w3 w4 → sync_failed x = false →
      safe backed_but w w4 ∧ (x ≠ XRemove → backed w4) ∧
      (synced x = true → ∃ l w2, pushed_listing r h w l ∧ Archive.listing_ok (Archive.nil_map l) ∧
         at_sync r h w w2 ∧ rows_after (Archive.nil_map l) w2 w4)) as Hend.
    { intros w4 x [Hp Ht4] Hx. split_and!.
      - by eapply safe_weaken, safe_trans.
      - intros _. apply Hp.
      - intros _. exists l, w2. split_and!; try done.
        + exists (set_p_archive (Some a) h), w1, a. split_and!; try done. by rewrite -Hf2.
        + by exists (set_p_archive (Some a) h), w1, h2.
        + rewrite /rows_after /dev Ht4. exact Hrows. }
    eapply (wp_handle_publish _ _ _ _ w3); [done| |done|done| |].
    + rewrite Hcw. symmetry. apply Cache.env_cache_same, Hs13.
    + intros w4 x Hp Hx. by apply Hend.
    + intros w4 cr [Hp _]. by eapply safe_weaken, safe_trans.
  - intros w3 x h3 Hs3 Hbx Hx. apply wp_ret. split_and!; [by eapply safe_trans|done|].
    intros Hsy. exfalso. by destruct x.
  - intros w3 cr Hs3. by eapply safe_trans.
Qed.
End sync.
End PushSync.
