(* ===== verification/Auth.v ===== *)
(** * Authorisation

    [src/src/siphon/bundler/auth.go]: the handshake token (base64 of JSON, signed
    by the web front end) that every request to /push, /pull and /submit carries,
    and the middleware that checks it before it calls the handler. *)

From S2P Require Import Prelude GoStrings FileSys Context Services.

Module Auth.

Definition key_file : string := "/code/.keys/handshake/handshake.pub".

(** mux's key for the variables of the matched route. *)
Definition varsKey : ctxkey := KMux 0.

Section auth.
Context `{Services}.

(** [decryptToken]: a JSON [null] gives a nil pointer and no error. *)
Definition decryptToken (token : string) : result (option handshake) :=
  match base64_decode token with
  | (_, Some err) => Err err
  | (decodedBytes, None) => json_handshake decodedBytes
  end.

(** [verifyToken] *)
Definition verifyToken (token signature : string) : MW bool :=
  env ← Getenv "SIPHON_ENV";
  if decide (env = "testing") then mret true
  else
    r ← read_fs (λ f, ReadFile f key_file);
    match r with
    | Err _ => mret false
    | Ok b =>
        match pem_decode b with
        | None => throw nil_deref
        | Some der =>
            match parse_pkix der with
            | Err _ => mret false
            | Ok None => throw (Panic "interface conversion")
            | Ok (Some key) =>
                let s := (base64_decode token).1 in
                match rsa_verify key (sha256_sum s) signature with
                | Some _ => mret false
                | None => mret true
                end
            end
        end
    end.

(** [mux.Vars(r)["app_id"]] *)
Definition route_var (r : request) (name : string) : MW string :=
  v ← ctx_get r varsKey;
  match v with
  | Some (VVars vars) => mret (default "" (vars !! name))
  | None => mret ""
  | Some _ => throw (Panic "interface conversion")
  end.

Definition StatusUnauthorized : Z := 401.
Definition unauthorized (msg : string) : MW () := on_resp (HttpError msg StatusUnauthorized).

(** The loop over [validActions]: [Some true] when the action was found and the
    path is its endpoint, [Some false] when the path is another. *)
Fixpoint check_action (actions : list string) (action path : string) : option bool :=
  match actions with
  | [] => None
  | a :: actions =>
      if decide (action = a) then Some (HasPrefix path ("/v1/" +:+ a +:+ "/"))
      else check_action actions action path
  end.

Definition validActions : list string := ["push"; "pull"; "submit"].

(** [AuthMiddleware(h)] applied to a request. *)
Definition AuthMiddleware (h : request → MW ()) (r : request) : MW () :=
  appID ← route_var r "app_id";
  ctx_set r AppIDKey (VStr appID);;
  let token := FormValue r "handshake_token" in
  let signature := FormValue r "handshake_signature" in
  ctx_set r HandshakeTokenKey (VStr token);;
  ctx_set r HandshakeSignatureKey (VStr signature);;
  match decryptToken token with
  | Err _ => unauthorized "Missing or invalid handshake_token."
  | Ok obj =>
      ok ← verifyToken token signature;
      if negb ok then unauthorized "Missing or invalid handshake_token."
      else
        match obj with
        | None => throw nil_deref
        | Some obj =>
            match check_action validActions (hs_action obj) (rq_path r) with
            | Some false => unauthorized "Unauthorized action for this endpoint."
            | None => unauthorized "Missing action."
            | Some true =>
                let next :=
                  if decide (hs_app_id obj ≠ appID)
                  then unauthorized "The handshake_token does not match."
                  else h r in
                if decide (hs_submission_id obj ≠ "") then
                  if decide (hs_user_id obj ≠ "") then unauthorized "Malformed handshake_token."
                  else ctx_set r SubmissionIDKey (VStr (hs_submission_id obj));; next
                else
                  if decide (hs_user_id obj = "") then unauthorized "Malformed handshake_token."
                  else ctx_set r UserIDKey (VStr (hs_user_id obj));; next
            end
        end
  end.

(** ** Properties *)
Implicit Types (w : World) (r : request).

(** What holds of a request that reaches the handler. *)
Record authorised r (obj : handshake) w : Prop := {
  au_token : decryptToken (FormValue r "handshake_token") = Ok (Some obj);
  au_signed : verifyToken (FormValue r "handshake_token") (FormValue r "handshake_signature") w
                = (Ret true, w);
  au_action : hs_action obj ∈ validActions;
  au_path : HasPrefix (rq_path r) ("/v1/" +:+ hs_action obj +:+ "/") = true;
  au_one_id : hs_submission_id obj = "" ↔ hs_user_id obj ≠ "";
  au_app : Context.Get (rq_id r) AppIDKey (w_ctx w) = Some (VStr (hs_app_id obj));
  au_route : ∀ vars, Context.Get (rq_id r) varsKey (w_ctx w) = Some (VVars vars) →
    default "" (vars !! "app_id") = hs_app_id obj;
  au_sub : hs_submission_id obj ≠ "" →
    Context.Get (rq_id r) SubmissionIDKey (w_ctx w) = Some (VStr (hs_submission_id obj));
  au_user : hs_user_id obj ≠ "" →
    Context.Get (rq_id r) UserIDKey (w_ctx w) = Some (VStr (hs_user_id obj));
}.

Lemma check_action_true actions action path :
  check_action actions action path = Some true ↔
  action ∈ actions ∧ HasPrefix path ("/v1/" +:+ action +:+ "/") = true.
Proof.
  induction actions as [|a actions IH]; simpl; [split; [done|by intros [?%elem_of_nil _]]|].
  case_decide as E.
  - subst a. split; [intros [= ->]; split; [by left|done]|by intros [_ ->]].
  - rewrite IH elem_of_cons. naive_solver.
Qed.

(** Verification reads and nothing more; its answer does not depend on the
    values stored for the request. *)
Lemma verifyToken_run t s w w' :
  w_env w' = w_env w → w_fs w' = w_fs w →
  verifyToken t s w' = ((verifyToken t s w).1, w').
Proof.
  rewrite /verifyToken /mbind /M_bind /Getenv /read_fs /gets /getenv. cbv beta iota.
  intros He Hf. rewrite He. case_decide; [done|]. rewrite Hf.
  destruct (ReadFile (w_fs w) key_file) as [b|]; [|done].
  destruct (pem_decode b) as [der|]; [|done].
  destruct (parse_pkix der) as [[key|]|]; [|done|done].
  by destruct (rsa_verify key _ _).
Qed.

(** It never ends the process. *)
Lemma verifyToken_panics t s w cr : (verifyToken t s w).1 = Crash cr → ∃ msg, cr = Panic msg.
Proof.
  rewrite /verifyToken /mbind /M_bind /Getenv /read_fs /gets /getenv. cbv beta iota.
  repeat case_match; try done; intros [= <-]; by eexists.
Qed.

(** The middleware: the handler runs only for an authorised request, in a world
    that differs from the first one in the context of this request only; any other
    request is answered 401, again without touching anything else. *)
Lemma wp_AuthMiddleware h r Q C w :
  (∀ x obj, authorised r obj (set_ctx x w) →
     Context.Get (rq_id r) varsKey x = Context.Get (rq_id r) varsKey (w_ctx w) →
     Context.same_others (rq_id r) (w_ctx w) x → wp (h r) Q C (set_ctx x w)) →
  (∀ x msg, Context.same_others (rq_id r) (w_ctx w) x →
     Q tt (set_resp (HttpError msg StatusUnauthorized (w_resp w)) (set_ctx x w))) →
  (∀ x s, Context.same_others (rq_id r) (w_ctx w) x → C (Panic s) (set_ctx x w)) →
  wp (AuthMiddleware h r) Q C w.
Proof.
  intros Hh Hr Hcr. apply wp_bind.
  eapply wp_mono with
    (Q := λ v w', w' = w ∧ ∀ vars, Context.Get (rq_id r) varsKey (w_ctx w) = Some (VVars vars) →
                    default "" (vars !! "app_id") = v) (C := λ c w', w' = w ∧ ∃ s, c = Panic s).
  { apply wp_bind, wp_ctx_get. destruct (Context.Get _ _ _) as [[]|].
    all: try (apply wp_ret; split; [done|]; by intros ? [= <-]).
    all: apply wp_throw; split; [done|]; by eexists. }
  2:{ intros cr ? [-> [s ->]]. rewrite -(set_ctx_id w). by apply Hcr. }
  intros appID ? [-> Hvars]. do 3 (apply wp_bind, wp_ctx_set; cbv zeta).
  set (w3 := set_ctx _ _). set (s3 := w_ctx w3).
  assert (w3 = set_ctx s3 w) as Hw3 by done.
  assert (Context.Get (rq_id r) AppIDKey s3 = Some (VStr appID)) as Happ.
  { etrans; [by apply Context.Get_Set_ne|]. etrans; [by apply Context.Get_Set_ne|]. apply Context.Get_Set_eq. }
  assert (Context.Get (rq_id r) varsKey s3 = Context.Get (rq_id r) varsKey (w_ctx w)) as Hrv.
  { do 3 (etrans; [by apply Context.Get_Set_ne|]). done. }
  assert (Context.same_others (rq_id r) (w_ctx w) s3) as Ho.
  { do 3 (etrans; [|apply Context.same_others_Set]). done. }
  clearbody s3 w3. subst w3.
  assert (∀ x msg, Context.same_others (rq_id r) (w_ctx w) x →
    wp (unauthorized msg) Q C (set_ctx x w)) as Hun.
  { intros x msg Hx. by apply wp_on_resp, Hr. }
  destruct (decryptToken _) as [obj|] eqn:Et; [|by apply Hun].
  pose proof (λ x, verifyToken_run (FormValue r "handshake_token")
    (FormValue r "handshake_signature") w (set_ctx x w) eq_refl eq_refl) as Hv.
  apply wp_bind. rewrite {1}/wp Hv. destruct (verifyToken _ _ w).1 as [ok|cr] eqn:Ev.
  2:{ apply verifyToken_panics in Ev as [s ->]. by apply Hcr. }
  destruct ok; [|by apply Hun]. cbn [negb]. destruct obj as [obj|]; [|by apply wp_throw, Hcr].
  destruct (check_action _ _ _) as [[]|] eqn:Ea; [|by apply Hun..].
  apply check_action_true in Ea as [Ha Hp].
  assert (∀ k v, k ≠ AppIDKey → k ≠ varsKey →
    (hs_submission_id obj = "" ↔ hs_user_id obj ≠ "") →
    (hs_submission_id obj ≠ "" → k = SubmissionIDKey ∧ v = VStr (hs_submission_id obj)) →
    (hs_user_id obj ≠ "" → k = UserIDKey ∧ v = VStr (hs_user_id obj)) →
    wp (ctx_set r k v;;
        if decide (hs_app_id obj ≠ appID) then unauthorized "The handshake_token does not match."
        else h r) Q C (set_ctx s3 w)) as Hnext.
  { intros k v Hk Hkv Hone Hs Hu. apply wp_bind, wp_ctx_set.
    assert (Context.same_others (rq_id r) (w_ctx w)
      (Context.Set_ (w_now (set_ctx s3 w)) (rq_id r) k v (w_ctx (set_ctx s3 w)))) as Ho'.
    { etrans; [exact Ho|]. apply Context.same_others_Set. }
    case_decide as Hid; [by apply Hun|].
    apply (Hh _ obj); [split; try done|by rewrite Context.Get_Set_ne; [|congruence]|done].
    - by rewrite /= Context.Get_Set_ne; [rewrite Hid|congruence].
    - intros vars. rewrite /= Context.Get_Set_ne; [|congruence]. rewrite Hrv Hid. apply Hvars.
    - intros Hne. destruct (Hs Hne) as [-> ->]. apply Context.Get_Set_eq.
    - intros Hne. destruct (Hu Hne) as [-> ->]. apply Context.Get_Set_eq. }
  destruct (decide (hs_submission_id obj ≠ "")) as [Hsub|Hsub%dec_stable];
    destruct (decide (hs_user_id obj ≠ "")) as [Hu|Hu%dec_stable].
  - by apply Hun.
  - apply Hnext; try done; by rewrite ?Hu.
  - rewrite decide_False //. apply Hnext; try done; by rewrite ?Hsub.
  - rewrite decide_True //. by apply Hun.
Qed.
End auth.
End Auth.
