(* ===== verification/Submit.v ===== *)
(** * /submit

    [src/src/siphon/bundler/submit.go]: makes a snapshot of an app's current files
    under a submission ID: the objects are copied to the submission's name space
    in S3, a footer is built, and the rows are copied in the table. *)

From S2P Require Import Prelude GoStrings GoPath FileSys Context Services S3 Cache.
From S2P Require Import Db Metadata Archive Utils Packager.

Module Submit.

Section submit.
Context `{Services}.

(** [submitHandler] *)
Record submitHandler := mkSubmit {
  s_db : string;
  s_appID : string;
  s_submissionID : string;
  s_metadata : option Metadata;
  s_devCache : Cache.Cache;
  s_submissionCache : Cache.Cache;
}.
Definition set_s_metadata (m : option Metadata) (h : submitHandler) : submitHandler :=
  mkSubmit (s_db h) (s_appID h) (s_submissionID h) m (s_devCache h) (s_submissionCache h).

(** [newSubmitHandler], with the database assigned right after by [Submit].  The
    error of the first [NewCache] is overwritten by the second; then the handler
    has a nil [devCache]. *)
Definition newSubmitHandler (db appID submissionID : string) : MW (result submitHandler) :=
  dev ← Cache.NewCache appID "";
  sub ←? Cache.NewCache appID submissionID;
  match dev with
  | Ok dev => mret (Ok (mkSubmit db appID submissionID None dev sub))
  | Err _ => throw nil_deref
  end.

Definition internalError : MW () := on_resp (HttpError "Internal error." 500).

(** [copyFiles] *)
Definition copyFiles (h : submitHandler) : MW (option error) :=
  let problem := ErrorS "Problem copying files for the snapshot" in
  r ← Db.GetFiles (s_db h) (s_appID h) "";
  match r with
  | Err _ => mret (Some problem)
  | Ok files =>
      order ← range_map files;
      range_err order (λ '(_, hash),
        r ← Cache.Get (s_devCache h) hash;
        match r with
        | Err _ => mret (Some problem)
        | Ok b =>
            err ← Cache.Set_ (s_submissionCache h) hash b;
            match err with
            | Some _ => mret (Some problem)
            | None => mret None
            end
        end)
  end.

(** [loadMetaData] *)
Definition loadMetaData (h : submitHandler) : MW (option error * submitHandler) :=
  let problem := ErrorS "Problem loading Siphonfile from the cache." in
  r ← Db.GetFile (s_db h) (s_appID h) "" Metadata.MetadataName;
  match r with
  | Err _ => mret (Some problem, h)
  | Ok hash =>
      r ← Cache.Get (s_submissionCache h) hash;
      match r with
      | Err _ => mret (Some problem, h)
      | Ok b =>
          match Metadata.ParseMetadata b with
          | Err err => mret (Some err, h)
          | Ok metadata => mret (None, set_s_metadata (Some metadata) h)
          end
      end
  end.

(** Reading a footer and storing it under [name]. *)
Definition store_footer (h : submitHandler) (f : FooterPath) (path name : string) : MW (option error) :=
  ftr ← read_fs (λ fs, ReadFile fs path);
  match ftr with
  | Err err => Packager.CleanupFooters f;; mret (Some err)
  | Ok ftr =>
      err ← Cache.SetBundleFooter (s_submissionCache h) ftr name;
      match err with
      | Some err => Packager.CleanupFooters f;; mret (Some err)
      | None => Packager.CleanupFooters f;; mret None
      end
  end.

(** [makeBundleFooter]; the Android footer is stored under the old-style name. *)
Definition makeBundleFooter (platform : string) (h : submitHandler) : MW (option error) :=
  m ← deref (s_metadata h);
  r ← Packager.MakeBundleFootersTmp (s_db h) (s_appID h) "" None (BaseVersion m);
  match r with
  | Err err => mret (Some err)
  | Ok f =>
      f ← deref f;
      if bool_decide (platform = "ios") && bool_decide (f_ios f ≠ "") then
        store_footer h f (f_ios f) (Cache.BundleFooterFile platform)
      else if bool_decide (platform = "android") && bool_decide (f_android f ≠ "") then
        store_footer h f (f_android f) "bundle-footer"
      else
        Packager.CleanupFooters f;;
        mret (Some (ErrorS "Problem building footer for platform."))
  end.

(** Which [return] ended [handle]. *)
Inductive submit_exit := YCopy | YMetadata | YFooter | YSnapshot | YDone.

(** [handle] *)
Definition handle (r : request) (h : submitHandler) : MW submit_exit :=
  err ← copyFiles h;
  match err with
  | Some _ => internalError;; mret YCopy
  | None =>
      res ← loadMetaData h;
      match res with
      | (Some _, _) => internalError;; mret YMetadata
      | (None, h) =>
          let platform := PostFormValue r "platform" in
          let platform := if decide (platform = "") then "ios" else platform in
          err ← makeBundleFooter platform h;
          match err with
          | Some _ => internalError;; mret YFooter
          | None =>
              err ← Db.MakeSnapshot (s_db h) (s_appID h) (s_submissionID h);
              match err with
              | Some _ => internalError;; mret YSnapshot
              | None => mret YDone
              end
          end
      end
  end.

Definition StatusBadRequest : Z := 400.

(** [Submit] *)
Definition Submit_ (r : request) : MW () :=
  appID ← ctx_string r AppIDKey;
  let submissionID := PostFormValue r "submission_id" in
  if decide (appID = "" ∨ submissionID = "") then
    on_resp (HttpError "App ID and submission ID are required." StatusBadRequest)
  else
    db ← Db.OpenDB;
    ex ← Db.SubmissionExists db submissionID;
    match ex with
    | Err _ => on_resp (HttpError "Internal error." 500)
    | Ok true => on_resp (HttpError "Submission ID already exists." StatusBadRequest)
    | Ok false =>
        ex ← Db.AppExists db appID;
        match ex with
        | Err _ => on_resp (HttpError "Internal error." 500)
        | Ok false => on_resp (HttpError "App ID does not exist." StatusBadRequest)
        | Ok true =>
            v ← ctx_get r SubmissionIDKey;
            if decide (v ≠ Some (VStr submissionID)) then
              on_resp (HttpError "Submission ID does not match the handshake." StatusBadRequest)
            else
              h ← newSubmitHandler db appID submissionID;
              match h with
              | Err _ => on_resp (HttpError "Internal error." 500)
              | Ok h => handle r h;; mret tt
              end
        end
    end.

(** ** Properties *)
Context `{!S3Laws s3T} `{!McLaws mcT} `{!Db.PgLaws pgT} `{!Db.PgStable pgT}.
Implicit Types (w : World) (h : submitHandler).

(** The handler as [newSubmitHandler] makes it. *)
Record ready h w : Prop := {
  rd_dev : s_devCache h = Cache.env_cache (s_appID h) "" w;
  rd_sub : s_submissionCache h = Cache.env_cache (s_appID h) (s_submissionID h) w;
  rd_id : s_submissionID h ≠ "";
  rd_coherent : Cache.coherent ∅ (s_devCache h) w;
  rd_no_null : Db.no_null (s_appID h) (Db.table (s_db h) w);
}.

Definition dev_row h w (n : string) : option string :=
  Db.table (s_db h) w !! (s_appID h, Some "", n).

(** No hash of the app contains a slash, so its objects are apart from those of its
    submissions. *)
Definition plain_hashes h w : Prop :=
  ∀ n hash, dev_row h w n = Some hash → has_char slash hash = false.

(** The object of a hash has been copied. *)
Definition copied h w w' (hash : string) : Prop :=
  ∃ b, Cache.content (s_devCache h) w hash = Some b ∧
       Cache.content (s_submissionCache h) w' hash = Some b.

(** What the steps before the snapshot leave alone. *)
Record staged h w w' : Prop := {
  sg_env : w_env w' = w_env w;
  sg_table : Db.table (s_db h) w' = Db.table (s_db h) w;
  sg_coherent : Cache.coherent ∅ (s_devCache h) w';
}.
Lemma staged_trans h w1 w2 w3 : staged h w1 w2 → staged h w2 w3 → staged h w1 w3.
Proof. intros [] []. split; congruence || done. Qed.

(** The two caches share their stores. *)
Lemma ready_stores h w : ready h w →
  Cache.opened (s_devCache h) ∧ Cache.opened (s_submissionCache h) ∧
  Cache.mc (s_submissionCache h) = Cache.mc (s_devCache h) ∧
  Cache.bk (s_submissionCache h) = Cache.bk (s_devCache h).
Proof. intros [-> -> _ _ _]. done. Qed.

Lemma ready_apart h w k k' : ready h w → has_char slash k = false →
  Cache.prefixed (s_devCache h) k ≠ Cache.prefixed (s_submissionCache h) k'.
Proof. intros [-> -> ? _ _] ?. by apply Cache.prefixed_dev_sub. Qed.

(** [copyFiles]: on success every object of the app's rows has been copied. *)
Lemma wp_copyFiles h Q C w :
  ready h w → plain_hashes h w →
  (∀ w', staged h w w' → (∀ n hash, dev_row h w n = Some hash → copied h w w' hash) → Q None w') →
  (∀ w' e, Q (Some e) w') →
  wp (copyFiles h) Q C w.
Proof.
  intros Hr Hplain HQ HE. destruct (ready_stores _ _ Hr) as (Hod & Hos & Hmc & Hbk).
  pose proof Hr as [_ _ _ Hco Hnn].
  apply wp_bind, Db.wp_GetFiles; [done|done| |intros; apply wp_ret, HE].
  intros s files Hs Hf. apply wp_bind, wp_range_map. intros order Ho.
  set (I := λ (pre : list (string * string)) w', staged h w w' ∧
    (∀ hash, has_char slash hash = false →
       Cache.content (s_devCache h) w' hash = Cache.content (s_devCache h) w hash) ∧
    ∀ n hash, (n, hash) ∈ pre → copied h w w' hash).
  apply (wp_range_err I).
  - split_and!; [by split|done|]. by intros n hash ?%elem_of_nil.
  - intros pre [n hash] post w1 Hsplit (Hst & Hdev & Hcop).
    assert (has_char slash hash = false) as Hsl.
    { apply (Hplain n). rewrite /dev_row -Hf. apply elem_of_map_to_list. rewrite -Ho Hsplit.
      set_solver. }
    apply wp_bind, (Cache.wp_Get ∅); [done|apply Hst|set_solver|].
    intros w2 r Hs2 Hb2 Hc2 Hv. destruct r as [b|e]; [|apply wp_ret, HE].
    specialize (Hv b eq_refl). rewrite Hdev // in Hv. apply wp_bind.
    apply (Cache.wp_Set ∅); [done|by eapply Cache.coherent_same| |intros; apply wp_ret, HE].
    intros w3 Hs3 Hb3 Hc3. apply wp_ret.
    assert (∀ k, Cache.content (s_submissionCache h) w3 k =
      if decide (k = hash) then Some b else Cache.content (s_submissionCache h) w1 k) as Hsub.
    { intros k. rewrite (Cache.content_insert _ w2 w3 hash b) //. by rewrite (Cache.content_same _ w1). }
    split_and!.
    + destruct Hst as [He Ht _], Hs2 as (? & ? & ->), Hs3 as (? & ? & ->).
      split; [done|done|by eapply Cache.coherent_same].
    + intros k Hk. rewrite -Hdev // -(Cache.content_same _ w1 w2) // /Cache.content Hb3.
      rewrite lookup_insert_ne //. intros [= _ E]. by apply (ready_apart _ _ k hash Hr).
    + intros n' hash' [Hin|[= -> ->]%list_elem_of_singleton]%elem_of_app.
      * destruct (Hcop n' hash' Hin) as (b' & Hd' & Hs'). rewrite /copied Hsub.
        case_decide; [subst; by exists b|by exists b'].
      * exists b. by rewrite Hsub decide_True.
  - intros w1 (Hst & _ & Hcop). apply HQ; [done|]. intros n hash Hn. apply (Hcop n).
    by rewrite Ho elem_of_map_to_list Hf.
Qed.

(** The names under which footers are stored. *)
Definition footer_name (platform : string) : string :=
  if decide (platform = "android") then "bundle-footer" else Cache.BundleFooterFile platform.

(** A step that changes no object of the submission except the one of [name]. *)
Definition only_object h name w w' : Prop :=
  staged h w w' ∧ ∀ k, k ≠ name →
    Cache.content (s_submissionCache h) w' k = Cache.content (s_submissionCache h) w k.

Lemma only_object_trans h name w1 w2 w3 :
  only_object h name w1 w2 → only_object h name w2 w3 → only_object h name w1 w3.
Proof.
  intros [H1' E1] [H2' E2]. split; [by eapply staged_trans|]. intros k Hk. by rewrite E2 // E1.
Qed.
Lemma only_object_quiet h name w w' : staged h w w' → blobs w' = blobs w → only_object h name w w'.
Proof. intros Hs Hb. split; [done|]. intros k _. by apply Cache.content_same. Qed.

(** [loadMetaData] only reads. *)
Lemma wp_submit_loadMetaData h Q C w :
  ready h w →
  (∀ w' e h', staged h w w' → blobs w' = blobs w →
     (e = None → ∃ m, h' = set_s_metadata (Some m) h) → Q (e, h') w') →
  wp (loadMetaData h) Q C w.
Proof.
  intros Hr HQ. destruct (ready_stores _ _ Hr) as (Hod & Hos & Hmc & Hbk).
  pose proof Hr as [_ _ _ Hco Hnn].
  apply wp_bind, Db.wp_GetFile; [done..|]. intros s r Hs _. destruct r as [hash|e].
  2:{ by apply wp_ret, HQ. }
  apply wp_bind, (Cache.wp_Get ∅); [done|by eapply Cache.coherent_same|set_solver|].
  intros w2 r (m2 & s2 & ->) Hb2 Hc2 _.
  assert (staged h w (set_mc m2 (set_s3 s2 (set_pg s w)))) as Hst.
  { split; [done|done|by eapply Cache.coherent_same]. }
  destruct r as [b|e]; [|by apply wp_ret, HQ].
  destruct (Metadata.ParseMetadata b); apply wp_ret, HQ; eauto; done.
Qed.

Lemma wp_submit_store_footer h f path name Q C w :
  ready h w → (∀ w', only_object h name w w' → Q None w') → (∀ w' e, Q (Some e) w') →
  wp (store_footer h f path name) Q C w.
Proof.
  intros Hr HQ HE. destruct (ready_stores _ _ Hr) as (Hod & Hos & Hmc & Hbk).
  pose proof Hr as [_ _ _ Hco _].
  apply wp_bind, wp_read_fs. destruct (ReadFile _ _) as [b|e].
  2:{ apply wp_bind, Packager.wp_CleanupFooters. intros. apply wp_ret, HE. }
  apply wp_bind, (Cache.wp_Set ∅); [done|by eapply Cache.coherent_same|..].
  - intros w2 Hs2 Hb2 Hc2. apply wp_bind, Packager.wp_CleanupFooters. intros fs. apply wp_ret, HQ.
    split.
    + destruct Hs2 as (? & ? & ->). split; [done|done|by eapply Cache.coherent_same].
    + intros k Hk. change (Cache.content (s_submissionCache h) w2 k = Cache.content (s_submissionCache h) w k).
      rewrite (Cache.content_insert _ w w2 name b) //. by rewrite decide_False.
  - intros w2 e _ _ _. apply wp_bind, Packager.wp_CleanupFooters. intros. apply wp_ret, HE.
Qed.

Lemma ready_staged h w w' : ready h w → staged h w w' → ready h w'.
Proof.
  intros [Hd Hs Hi Hc Hn] [He Ht Hc']. split; try done.
  - rewrite Hd. symmetry. by apply Cache.env_cache_same.
  - rewrite Hs. symmetry. by apply Cache.env_cache_same.
  - by rewrite Ht.
Qed.

Lemma wp_makeBundleFooter platform h Q C w :
  ready h w → (∀ w', only_object h (footer_name platform) w w' → Q None w') → (∀ w' e, Q (Some e) w') →
  (∀ w' cr, C cr w') → wp (makeBundleFooter platform h) Q C w.
Proof.
  intros Hr HQ HE HC. pose proof Hr as [Hd _ _ Hco Hnn].
  apply wp_bind, wp_deref; [|intros _; apply HC]. intros m _. apply wp_bind.
  rewrite Hd in Hco. apply Packager.wp_MakeBundleFootersTmp; [done|done|done|].
  intros w2 r He Ht Hb Hc. destruct r as [f|e]; [|apply wp_ret, HE].
  assert (staged h w w2) as Hst by (split; [done|done|by rewrite Hd]).
  assert (∀ name, (∀ w', only_object h name w w' → Q None w') → ∀ f path,
    wp (store_footer h f path name) Q C w2) as Hstore.
  { intros name HQ' f' path. apply wp_submit_store_footer; [by eapply ready_staged| |done].
    intros w3 Ho. apply HQ'. eapply only_object_trans; [|done]. by apply only_object_quiet. }
  apply wp_bind, wp_deref; [|intros _; apply HC]. intros f' _.
  rewrite /footer_name in HQ. destruct (bool_decide (platform = "ios")) eqn:Ei;
    [apply bool_decide_eq_true in Ei; subst platform|].
  - destruct (bool_decide (f_ios f' ≠ "")); [by apply Hstore|].
    apply wp_bind, Packager.wp_CleanupFooters. intros. apply wp_ret, HE.
  - cbn [andb]. destruct (bool_decide (platform = "android")) eqn:Ea;
      [apply bool_decide_eq_true in Ea; subst platform|].
    + destruct (bool_decide (f_android f' ≠ "")); [by apply Hstore|].
      apply wp_bind, Packager.wp_CleanupFooters. intros. apply wp_ret, HE.
    + apply wp_bind, Packager.wp_CleanupFooters. intros. apply wp_ret, HE.
Qed.

(** The platform a submission is for. *)
Definition platform_of (r : request) : string :=
  if decide (PostFormValue r "platform" = "") then "ios" else PostFormValue r "platform".

(** A submission that succeeds has its own copy of every row and every object. *)
Definition snapshot_of h (r : request) w w' : Prop :=
  ∀ n hash, dev_row h w n = Some hash →
    Db.table (s_db h) w' !! (s_appID h, Some (s_submissionID h), n) = Some hash ∧
    (hash ≠ footer_name (platform_of r) → copied h w w' hash).

Lemma wp_submit_handle r h Q C w :
  ready h w → plain_hashes h w →
  (∀ w', snapshot_of h r w w' →
     (∀ k, (∀ n, k ≠ (s_appID h, Some (s_submissionID h), n)) →
        Db.table (s_db h) w' !! k = Db.table (s_db h) w !! k) → Q YDone w') →
  (∀ w' x, x ≠ YDone → Q x w') → (∀ w' cr, C cr w') →
  wp (handle r h) Q C w.
Proof.
  intros Hr Hp HQ HX HC. apply wp_bind, wp_copyFiles; [done|done| |].
  2:{ intros w1 e. apply wp_bind, wp_on_resp, wp_ret, HX. done. }
  intros w1 Hst1 Hcop. pose proof (ready_staged _ _ _ Hr Hst1) as Hr1.
  apply wp_bind, wp_submit_loadMetaData; [done|]. intros w2 [e|] h2 Hst2 Hb2 Hh2.
  { apply wp_bind, wp_on_resp, wp_ret, HX. done. }
  destruct (Hh2 eq_refl) as [m ->]. pose proof (ready_staged _ _ _ Hr1 Hst2) as Hr2.
  cbv zeta. rewrite -/(platform_of r).
  apply wp_bind, wp_makeBundleFooter; [by destruct Hr2; split| |
    intros; by apply wp_bind, wp_on_resp, wp_ret, HX|done].
  intros w3 [[He3 Ht3 Hc3] Ho]. simpl in Ho, He3, Ht3, Hc3.
  assert (Db.table (s_db h) w3 = Db.table (s_db h) w) as Ht.
  { destruct Hst1, Hst2. congruence. }
  apply wp_bind. pose proof Hr as [_ _ _ _ Hnn].
  apply Db.wp_MakeSnapshot; [simpl; by rewrite Ht|..]; simpl.
  - intros w4 s t -> Hrows Hk. apply wp_ret, HQ.
    + intros n hash Hn. split.
      * specialize (Hrows n). rewrite Ht in Hrows. rewrite /dev_row in Hn. by rewrite Hn in Hrows.
      * intros Hne. destruct (Hcop n hash Hn) as (b & Hd & Hs). exists b. split; [done|].
        change (Cache.content (s_submissionCache h) w3 hash = Some b).
        rewrite Ho // (Cache.content_same _ w1 w2) //.
    + intros k Hk'. rewrite -Ht. by apply Hk.
  - intros; by apply wp_bind, wp_on_resp, wp_ret, HX.
  - intros. apply HC.
Qed.
End submit.
End Submit.
