(* ===== verification/Pull.v ===== *)
(** * /pull

    [src/src/siphon/bundler/pull.go]: a device sends the hashes of the assets it
    has and receives a zip archive with the listing of all assets, the assets that
    differ and the bundle footer. *)

From stdpp Require Import sorting.
From S2P Require Import Prelude GoStrings GoPath FileSys Context Services S3 Cache.
From S2P Require Import Db Utils.

Module Pull.

Definition assetsListingFile : string := "assets-listing".
Definition assetsDir : string := "__siphon_assets".
Definition assetsLike : list string :=
  ["%.png"; "%.jpg"; "%.jpeg"; "%.gif"; "%.psd"; "%.svg"; "%.webp"].

(** The order in which [filepath.Walk] visits the names of a directory tree. *)
Fixpoint path_leb (p q : list string) : bool :=
  match p, q with
  | [], _ => true
  | _ :: _, [] => false
  | x :: p, y :: q =>
      match String.compare x y with
      | Lt => true
      | Gt => false
      | Eq => path_leb p q
      end
  end.
Definition path_le (p q : list string) : Prop := path_leb p q = true.
#[export] Instance path_le_dec p q : Decision (path_le p q).
Proof. rewrite /path_le. apply _. Defined.

(** The files (everything that is not a directory) strictly below a directory,
    relative to it. *)
Definition below (f : fsys) (root : list string) : list (list string) :=
  merge_sort path_le
    (omap (λ kn, match kn.2 with
                 | NDir => None
                 | _ => if decide (root `prefix_of` kn.1 ∧ root ≠ kn.1)
                        then Some (drop (length root) kn.1) else None
                 end) (map_to_list (fs_nodes f))).

Section pull.
Context `{Services}.

(** [pullArchive] *)
Record pullArchive := mkPull {
  a_appID : string;
  a_submissionID : string;
  a_tempDir : string;
  a_assetFiles : gmap string string;
  a_cache : Cache.Cache;
}.
Definition set_assetFiles (x : gmap string string) (a : pullArchive) : pullArchive :=
  mkPull (a_appID a) (a_submissionID a) (a_tempDir a) x (a_cache a).

Definition newPullArchive (appID submissionID : string) : MW (result pullArchive) :=
  d ←? TempDir "pull-archive";
  cache ←? Cache.NewCache appID submissionID;
  mret (Ok (mkPull appID submissionID d ∅ cache)).

Definition getAssetFiles (db : string) (a : pullArchive) : MW (option error * pullArchive) :=
  r ← Db.GetSliceFilteredFiles db (a_appID a) (a_submissionID a) assetsLike;
  match r with
  | Err err => mret (Some err, a)
  | Ok f => mret (None, set_assetFiles f a)
  end.

(** The lines of the listing. *)
Fixpoint listing_text (l : list (string * string)) : string :=
  match l with
  | [] => ""
  | (name, _) :: l => PathJoin ["images"; name] +:+ nl +:+ listing_text l
  end.

(** [writeAssetsListing]: when the file cannot be created, the first write to the
    nil file reports it. *)
Definition writeAssetsListing (a : pullArchive) : MW (option error) :=
  let p := PathJoin [a_tempDir a; assetsListingFile] in
  err ← on_fs (λ f, WriteFile f p "");
  order ← range_map (a_assetFiles a);
  match err with
  | Some _ =>
      match order with
      | [] => mret None
      | _ => mret (Some (ErrorS "invalid argument"))
      end
  | None => on_fs (λ f, WriteFile f p (listing_text order));; mret None
  end.

(** [writeAssets] *)
Definition writeAssets (assetHashes : gmap string string) (a : pullArchive) : MW (option error) :=
  order ← range_map (a_assetFiles a);
  range_err order (λ '(name, hash),
    let prefixedName := PathJoin ["images"; name] in
    if decide (assetHashes !! prefixedName ≠ Some hash) then
      r ← Cache.Get (a_cache a) hash;
      match r with
      | Err err => mret (Some err)
      | Ok b =>
          let p := PathJoin [a_tempDir a; assetsDir; prefixedName] in
          try_then (on_fs (λ f, MkdirAll f (Dir p)))
          (on_fs (λ f, WriteFile f p b))
      end
    else mret None).

(** [writeBundleFooter] *)
Definition writeBundleFooter (platform : string) (a : pullArchive) : MW (option error) :=
  r ← Cache.GetBundleFooter (a_cache a) (Cache.BundleFooterFile platform);
  r ← match r with
      | Ok b => mret (Ok b)
      | Err _ => Cache.GetBundleFooter (a_cache a) "bundle-footer"
      end;
  match r with
  | Err err => mret (Some err)
  | Ok b => on_fs (λ f, WriteFile f (PathJoin [a_tempDir a; "bundle-footer"]) b)
  end.

(** The callback of [filepath.Walk] over the files in order: the entries written
    and the error that stopped the walk, if any (the entry of the file that could
    not be read has been created, empty). *)
Fixpoint zip_walk (f : fsys) (tempDir : string) (names : list (list string)) :
    list (string * string) * option error :=
  match names with
  | [] => ([], None)
  | n :: names =>
      let path := PathJoin [tempDir; Join n "/"] in
      let p := Replace path (tempDir +:+ "/") "" (Some 1) in
      match ReadFile f path with
      | Err err => ([(p, "")], Some err)
      | Ok b => let '(l, err) := zip_walk f tempDir names in ((p, b) :: l, err)
      end
  end.

(** [writeZip]: a missing directory is passed to the callback with a nil [info]. *)
Definition writeZip (a : pullArchive) : MW (option error) :=
  on_resp (HeaderSet "Content-Type" "application/zip");;
  f ← gets w_fs;
  match resolve f (a_tempDir a) with
  | inl _ => throw nil_deref
  | inr root =>
      match node_at (fs_nodes f) root with
      | Some NDir =>
          let '(entries, err) := zip_walk f (a_tempDir a) (below f root) in
          on_resp (Write_ (zip_write entries));;
          mret err
      | _ => throw nil_deref
      end
  end.

(** [assertNotEmpty] *)
Definition assertNotEmpty (db : string) (a : pullArchive) : MW (option error) :=
  r ← Db.GetFiles db (a_appID a) (a_submissionID a);
  match r with
  | Err err => mret (Some err)
  | Ok f => if decide (size f < 1)%nat then mret (Some errAppEmpty) else mret None
  end.

(** [close] *)
Definition close (a : pullArchive) : MW () :=
  on_fs (λ f, RemoveAll f (a_tempDir a));; mret tt.

(** [parseAssetHashes] *)
Definition parseAssetHashes (r : request) : result (gmap string string) :=
  match json_asset_hashes (rq_body r) with
  | Err err => Err err
  | Ok None => Err (ErrorS "Empty struct found for AssetHashes.")
  | Ok (Some h) => Ok h
  end.

Definition internal : MW () := on_resp (HttpError "Internal error." 500).

(** The part of [Pull] after the archive has been made. *)
Definition pull_body (assetHashes : gmap string string) (platform : string) (archive : pullArchive) : MW () :=
  db ← Db.OpenDB;
  err ← assertNotEmpty db archive;
  match err with
  | Some err =>
      if decide (err = errAppEmpty) then on_resp (HttpError (error_string err) 400) else internal
  | None =>
      res ← getAssetFiles db archive;
      match res with
      | (Some _, _) => internal
      | (None, archive) =>
          err ← writeAssetsListing archive;
          match err with
          | Some _ => internal
          | None =>
              err ← writeAssets assetHashes archive;
              match err with
              | Some _ => internal
              | None =>
                  err ← writeBundleFooter platform archive;
                  match err with
                  | Some _ => internal
                  | None =>
                      err ← writeZip archive;
                      match err with
                      | Some _ => internal
                      | None => mret tt
                      end
                  end
              end
          end
      end
  end.

(** [Pull]: the error of [newPullArchive] is ignored and its nil archive used. *)
Definition Pull_ (r : request) : MW () :=
  match parseAssetHashes r with
  | Err _ => on_resp (HttpError "Malformed payload." 500)
  | Ok assetHashes =>
      let submissionID := FormValue r "submission_id" in
      v ← ctx_get r SubmissionIDKey;
      if decide (submissionID ≠ "" ∧ v ≠ Some (VStr submissionID)) then
        on_resp (HttpError "Submission ID does not match the handshake." 401)
      else
        appID ← ctx_string r AppIDKey;
        let platform := FormValue r "platform" in
        let platform := if decide (platform = "") then "ios" else platform in
        archive ← newPullArchive appID submissionID;
        match archive with
        | Err _ => throw nil_deref
        | Ok archive => defer (close archive) (pull_body assetHashes platform archive)
        end
  end.
End pull.
End Pull.
