(* ===== verification/Healthcheck.v ===== *)
(** * /healthcheck

    [src/src/siphon/bundler/healthcheck.go]. *)

From S2P Require Import Prelude GoStrings Services S3 Cache Db Push.

Module Healthcheck.

Definition health_hash : string :=
  "9ad6ddd80b42ed82849ebfc0933cfeb3a1f08f3d2bbfb77cde1fc15d" +:+ "631a0d43".

Section healthcheck.
Context `{Services}.

Definition say (s : string) : MW () := on_resp (Write_ s).

(** [Healthcheck()].  The key passed to the cache already carries the app's
    prefix, to which the cache adds its own. *)
Definition Healthcheck_ (r : request) : MW () :=
  on_resp (HeaderSet "Content-Type" "text/plain");;
  env ← Getenv "SIPHON_ENV";
  let appID := if decide (env = "production") then "FIqjdggmex" else "vezfRWaSSD" in
  let key := appID +:+ "/" +:+ health_hash in
  res ← Push.MakeJSONHashes appID;
  match res with
  | Err err => say ("Hashes error: " +:+ error_string err)
  | Ok files =>
      if decide (size files < 1)%nat then say "Hashes error: zero found"
      else
        s3 ← Open NewS3Wrapper;
        match s3 with
        | Err err => say ("S3 Open() error: " +:+ error_string err)
        | Ok s3 =>
            b ← GetKey s3 key;
            match b with
            | Err err => say ("S3 GetKey() error: " +:+ error_string err)
            | Ok b =>
                if decide (String.length b < 1)%nat then say "S3 GetKey() error: empty response"
                else
                  cache ← Cache.NewCache appID "";
                  match cache with
                  | Err _ => throw nil_deref
                  | Ok cache =>
                      err ← Cache.Set_ cache key b;
                      match err with
                      | Some err => say ("Cache.Set() error: " +:+ error_string err)
                      | None =>
                          b2 ← Cache.Get cache key;
                          match b2 with
                          | Err err => say ("Cache.Get() error: " +:+ error_string err)
                          | Ok b2 =>
                              if decide (String.length b2 ≠ String.length b)
                              then say "Cache.Get() error: lengths do not match"
                              else say "Passed."
                          end
                      end
                  end
            end
        end
  end.
End healthcheck.
End Healthcheck.
