(* ===== verification/Gzip.v ===== *)
(** * nytimes/gziphandler: compressed responses

    [src/src/github.com/nytimes/gziphandler/gzip.go].  A response is compressed
    when the request's Accept-Encoding header gives gzip a quality above zero.  Of
    a quality value only its sign is ever looked at, so that is what is kept. *)

From S2P Require Import Prelude GoStrings GoFloat Services.

Module Gzip.

Definition vary : string := "Vary".
Definition acceptEncoding : string := "Accept-Encoding".
Definition contentEncoding : string := "Content-Encoding".

(** [strings.TrimSpace] on ASCII text. *)
Definition is_space (c : ascii) : bool :=
  bool_decide (nat_of_ascii c ∈ [9; 10; 11; 12; 13; 32]).
Fixpoint trim_left (s : string) : string :=
  match s with
  | String c s' => if is_space c then trim_left s' else s
  | EmptyString => s
  end.
Fixpoint trim_right (s : string) : string :=
  match s with
  | EmptyString => EmptyString
  | String c s' =>
      match trim_right s' with
      | EmptyString => if is_space c then EmptyString else String c EmptyString
      | t => String c t
      end
  end.
Definition TrimSpace (s : string) : string := trim_right (trim_left s).

(** A quality value after clamping to [0, 1]: is it above zero? (NaN is not.) *)
Abbreviation qvalue := bool.
Definition DEFAULT_QVALUE : qvalue := true.

(** [strconv.ParseFloat] of a quality value, clamped.  A syntax error gives zero, a
    range error an infinity. *)
Definition parse_q (s : string) : qvalue * option error :=
  if ParseFloat_ok s then
    (match ParseFloat_sign s with FPos => true | _ => false end, None)
  else
    (match read_float s with
     | Some _ => negb (strip_sign s).1
     | None => false
     end, Some (ErrorS "strconv.ParseFloat")).

(** The loop of [parseCoding], from the second part on.  Every part starts from
    the default, so a parameter after the quality value resets it. *)
Fixpoint coding_params (parts : list string) (q : qvalue) (err : option error) : qvalue * option error :=
  match parts with
  | [] => (q, err)
  | part :: parts =>
      let part := TrimSpace part in
      let '(q, err) :=
        match strip_prefix "q=" part with
        | Some v => parse_q v
        | None => (DEFAULT_QVALUE, err)
        end in
      coding_params parts q err
  end.

(** [parseCoding] *)
Definition parseCoding (s : string) : string * qvalue * option error :=
  match Split s ";"%char with
  | [] => ("", false, Some (ErrorS "empty content-coding"))
  | first :: parts =>
      let coding := ToLower (TrimSpace first) in
      let '(q, err) := coding_params parts DEFAULT_QVALUE None in
      (coding, q, if decide (coding = "") then Some (ErrorS "empty content-coding") else err)
  end.

(** [parseEncodings]: the codings, and the messages of those that are malformed. *)
Fixpoint encodings_loop (l : list string) (c : gmap string qvalue) (e : list string) :
    gmap string qvalue * list string :=
  match l with
  | [] => (c, e)
  | ss :: l =>
      match parseCoding ss with
      | (_, _, Some err) => encodings_loop l c (e ++ [error_string err])
      | (coding, q, None) => encodings_loop l (<[coding := q]> c) e
      end
  end.
Definition parseEncodings (s : string) : gmap string qvalue * option error :=
  let '(c, e) := encodings_loop (Split s ","%char) ∅ [] in
  (c, match e with
      | [] => None
      | _ => Some (ErrorS ("errors while parsing encodings: " +:+ Join e ", "))
      end).

(** [acceptsGzip] *)
Definition acceptsGzip (r : request) : bool :=
  let '(c, _) := parseEncodings (default "" (rq_header r !! acceptEncoding)) in
  default false (c !! "gzip").

Section gzip.
Context `{Services}.

(** The response is redirected to a compressor, and what it produced is sent. *)
Definition gzip_reset (r : response) : response :=
  mkResponse (rs_header r) (rs_sent r) (rs_body r) (Some "").
Definition gzip_close (r : response) : response :=
  match rs_gzip r with
  | None => r
  | Some z =>
      let r := WriteHeader 200 r in
      mkResponse (rs_header r) (rs_sent r) (rs_body r +:+ gzip_bytes z) None
  end.

(** [GzipHandler]: the compressor is not closed when the handler panics. *)
Definition GzipHandler (h : request → MW ()) (r : request) : MW () :=
  on_resp (HeaderAdd vary acceptEncoding);;
  if acceptsGzip r then
    on_resp gzip_reset;;
    on_resp (HeaderSet contentEncoding "gzip");;
    h r;;
    on_resp gzip_close
  else h r.

(** The wrapped handler sees the same world up to the response. *)
Lemma wp_GzipHandler h r Q C w :
  (∀ rs, wp (h r) (λ _ w', Q tt w' ∧ ∀ rs', Q tt (set_resp rs' w')) C (set_resp rs w)) →
  wp (GzipHandler h r) Q C w.
Proof.
  intros Hh. apply wp_bind, wp_on_resp. destruct (acceptsGzip r).
  - do 2 (apply wp_bind, wp_on_resp). apply wp_bind. eapply wp_mono; [apply Hh| |done].
    intros [] w' [_ HQ]. apply wp_on_resp, HQ.
  - eapply wp_mono; [apply Hh| |done]. by intros [] w' [HQ _].
Qed.
End gzip.
End Gzip.
