(* ===== verification/Mux.v ===== *)
(** * gorilla/mux: routing

    [src/src/github.com/gorilla/mux]: [mux.go] (the router), [route.go] (routes and
    their matchers) and [regexp.go] (path templates).  Here is what the bundler
    builds its routes from, as functions on plain values: path templates whose
    variables have the default pattern, and method matchers.  [MuxRoute] has the
    whole package; a template variable with a pattern of its own is answered with an
    error here. *)

From S2P Require Import Prelude GoStrings GoPath Context Services.

Module Mux.

(** ** Path templates ([regexp.go]) *)

(** [braceIndices] *)
Fixpoint brace_go (s : string) (i level idx : Z) (idxs : list (Z * Z)) : result (list (Z * Z)) :=
  match s with
  | EmptyString =>
      if decide (level ≠ 0)%Z then Err (ErrorS "mux: unbalanced braces") else Ok idxs
  | String c s =>
      if decide (c = "{"%char) then
        let level := (level + 1)%Z in
        brace_go s (i + 1) level (if decide (level = 1)%Z then i else idx) idxs
      else if decide (c = "}"%char) then
        let level := (level - 1)%Z in
        if decide (level = 0)%Z then brace_go s (i + 1) level idx (idxs ++ [(idx, i + 1)%Z])
        else if decide (level < 0)%Z then Err (ErrorS "mux: unbalanced braces")
        else brace_go s (i + 1) level idx idxs
      else brace_go s (i + 1) level idx idxs
  end.
Definition braceIndices (s : string) : result (list (Z * Z)) := brace_go s 0 0 0 [].

(** [s[a:b]] *)
Definition substr (s : string) (a b : Z) : string :=
  String.substring (Z.to_nat a) (Z.to_nat (b - a)) s.

(** The default patterns: one or more bytes that are not a slash ([matchHost]: a
    dot), or any number that are neither [?] nor [&]. *)
Inductive patt := PNotSlash | PNotDot | PNotQuery.
Definition patt_char (p : patt) (c : ascii) : bool :=
  match p with
  | PNotSlash => bool_decide (c ≠ "/"%char)
  | PNotDot => bool_decide (c ≠ "."%char)
  | PNotQuery => bool_decide (c ≠ "?"%char ∧ c ≠ "&"%char)
  end.
Definition patt_min (p : patt) : nat :=
  match p with PNotQuery => 0 | _ => 1 end.

(** The parts of an expanded regexp: quoted text, a capturing group, the optional
    slash of [strictSlash], a default pattern outside a group, the end anchor. *)
Inductive rnode :=
| RLit (s : string)
| RGroup (p : patt)
| ROptSlash
| RClass (p : patt)
| REnd.

(** [routeRegexp] *)
Record routeRegexp := mkRegexp {
  rr_template : string;
  rr_matchHost : bool;
  rr_matchQuery : bool;
  rr_strictSlash : bool;
  rr_regexp : list rnode;
  rr_reverse : string;
  rr_varsN : list string;
}.

(** The loop of [newRouteRegexp] over the brace pairs. *)
Fixpoint template_loop (tpl : string) (dflt : patt) (idxs : list (Z * Z)) (endp : Z)
    (pattern : list rnode) (reverse : string) (varsN : list string) :
    result (Z * list rnode * string * list string) :=
  match idxs with
  | [] => Ok (endp, pattern, reverse, varsN)
  | (a, b) :: idxs =>
      let raw := substr tpl endp a in
      match Split (substr tpl (a + 1) (b - 1)) ":"%char with
      | [name] =>
          if decide (name = "") then Err (ErrorS "mux: missing name or pattern")
          else template_loop tpl dflt idxs b (pattern ++ [RLit raw; RGroup dflt])
                 (reverse +:+ raw +:+ "%s") (varsN ++ [name])
      | _ => Err (ErrorS "mux: pattern of its own")
      end
  end.

(** [newRouteRegexp] *)
Definition newRouteRegexp (tpl : string) (matchHost matchPrefix matchQuery strictSlash : bool) :
    result routeRegexp :=
  match braceIndices tpl with
  | Err e => Err e
  | Ok idxs =>
      let template := tpl in
      let dflt := if matchQuery then PNotQuery else if matchHost then PNotDot else PNotSlash in
      let matchPrefix := if matchQuery then matchPrefix else if matchHost then false else matchPrefix in
      let strictSlash := if matchPrefix || matchHost || matchQuery then false else strictSlash in
      let endSlash := strictSlash && HasSuffix tpl "/" in
      let tpl := if endSlash then substr tpl 0 (Z.of_nat (String.length tpl) - 1) else tpl in
      match template_loop tpl dflt idxs 0 [] "" [] with
      | Err e => Err e
      | Ok (endp, pattern, reverse, varsN) =>
          let raw := substr tpl endp (Z.of_nat (String.length tpl)) in
          let emptyQuery :=
            match Split template "="%char with _ :: q :: _ => bool_decide (q = "") | _ => false end in
          Ok (mkRegexp template matchHost matchQuery strictSlash
            (pattern ++ [RLit raw] ++ (if strictSlash then [ROptSlash] else []) ++
             (if matchQuery && emptyQuery then [RClass dflt] else []) ++
             (if matchPrefix then [] else [REnd]))
            (reverse +:+ raw +:+ (if endSlash then "/" else "")) varsN)
      end
  end.

(** How many leading bytes a pattern can take. *)
Fixpoint span (p : patt) (s : string) : nat :=
  match s with
  | String c s' => if patt_char p c then S (span p s') else 0
  | EmptyString => 0
  end.

(** The longest prefix of at most [n] bytes after which [f] matches, and what it
    captured. *)
Fixpoint take_longest (min : nat) (f : string → option (list string)) (s : string) (n : nat) :
    option (nat * list string) :=
  if decide (n < min)%nat then None
  else match f (String.substring n (String.length s - n) s) with
       | Some l => Some (n, l)
       | None => match n with O => None | S n => take_longest min f s n end
       end.

(** Greedy matching with backtracking from the start of the string, as Go's
    regexps do: the captured groups of the preferred match. *)
Fixpoint re_match (re : list rnode) : string → option (list string) :=
  match re with
  | [] => λ _, Some []
  | RLit l :: re => λ s,
      match strip_prefix l s with Some s' => re_match re s' | None => None end
  | REnd :: re => λ s, if decide (s = "") then re_match re s else None
  | ROptSlash :: re => λ s,
      match match strip_prefix "/" s with Some s' => re_match re s' | None => None end with
      | Some l => Some l
      | None => re_match re s
      end
  | RGroup p :: re => λ s,
      match take_longest (patt_min p) (re_match re) s (span p s) with
      | Some (n, l) => Some (String.substring 0 n s :: l)
      | None => None
      end
  | RClass p :: re => λ s,
      match take_longest (patt_min p) (re_match re) s (span p s) with
      | Some (_, l) => Some l
      | None => None
      end
  end.

(** ** Routes ([route.go]) *)

(** The matchers the bundler uses: a path template, a list of methods. *)
Inductive matcher := MPath (rr : routeRegexp) | MMethods (l : list string).

(** [matchInArray] *)
Fixpoint matchInArray (arr : list string) (value : string) : bool :=
  match arr with
  | [] => false
  | v :: arr => if decide (v = value) then true else matchInArray arr value
  end.

(** [routeRegexp.Match] on a path, [methodMatcher.Match] *)
Definition matcher_match (m : matcher) (req : request) : bool :=
  match m with
  | MPath rr => bool_decide (is_Some (re_match (rr_regexp rr) (rq_path req)))
  | MMethods l => matchInArray l (rq_method req)
  end.

Section mux.
Context `{Services}.

Definition handler : Type := request → MW ().

(** [Route]; the group of regexps holds the path only. *)
Record Route := mkRoute {
  rt_handler : option handler;
  rt_matchers : list matcher;
  rt_path : option routeRegexp;
  rt_strictSlash : bool;
  rt_buildOnly : bool;
  rt_err : option error;
}.

(** [RouteMatch]: the index of the route, its handler, the variables. *)
Record RouteMatch := mkMatch {
  m_route : option nat;
  m_handler : option handler;
  m_vars : option (gmap string string);
}.
Definition new_match : RouteMatch := mkMatch None None None.

(** [addMatcher] *)
Definition addMatcher (m : matcher) (r : Route) : Route :=
  match rt_err r with
  | None => mkRoute (rt_handler r) (rt_matchers r ++ [m]) (rt_path r) (rt_strictSlash r)
              (rt_buildOnly r) (rt_err r)
  | Some _ => r
  end.

Fixpoint trim_right_slash (s : string) : string :=
  match s with
  | EmptyString => EmptyString
  | String c s' =>
      match trim_right_slash s' with
      | EmptyString => if decide (c = slash) then EmptyString else String c EmptyString
      | t => String c t
      end
  end.

(** [addRegexpMatcher] for a path. *)
Definition addRegexpMatcher (tpl : string) (matchPrefix : bool) (r : Route) : option error * Route :=
  match rt_err r with
  | Some e => (Some e, r)
  | None =>
      if negb (HasPrefix tpl "/") then (Some (ErrorS "mux: path must start with a slash"), r)
      else
        let tpl := match rt_path r with
                   | Some p => trim_right_slash (rr_template p) +:+ tpl
                   | None => tpl
                   end in
        match newRouteRegexp tpl false matchPrefix false (rt_strictSlash r) with
        | Err e => (Some e, r)
        | Ok rr =>
            (None, addMatcher (MPath rr)
               (mkRoute (rt_handler r) (rt_matchers r) (Some rr) (rt_strictSlash r)
                  (rt_buildOnly r) (rt_err r)))
        end
  end.

(** [Route.Path], [Route.Handler], [Route.Methods] *)
Definition Path (tpl : string) (r : Route) : Route :=
  let '(err, r) := addRegexpMatcher tpl false r in
  mkRoute (rt_handler r) (rt_matchers r) (rt_path r) (rt_strictSlash r) (rt_buildOnly r) err.
Definition Handler (h : handler) (r : Route) : Route :=
  match rt_err r with
  | None => mkRoute (Some h) (rt_matchers r) (rt_path r) (rt_strictSlash r) (rt_buildOnly r) (rt_err r)
  | Some _ => r
  end.
Definition Methods (methods : list string) (r : Route) : Route :=
  addMatcher (MMethods (ToUpper <$> methods)) r.

(** [setMatch]: the path variables.  [strictSlash] is never set on the bundler's
    routes, so the redirect it asks for is not modelled. *)
Definition setMatch (req : request) (p : routeRegexp) (vars : gmap string string) : gmap string string :=
  match re_match (rr_regexp p) (rq_path req) with
  | None => vars
  | Some pathVars => foldl (λ m kv, <[kv.1 := kv.2]> m) vars (zip (rr_varsN p) pathVars)
  end.

(** [Route.Match] of the route with index [i]. *)
Definition Route_Match (i : nat) (r : Route) (req : request) (m : RouteMatch) : bool * RouteMatch :=
  if rt_buildOnly r || bool_decide (is_Some (rt_err r)) then (false, m)
  else if negb (forallb (λ x, matcher_match x req) (rt_matchers r)) then (false, m)
  else
    let route := match m_route m with None => Some i | Some j => Some j end in
    let h := match m_handler m with None => rt_handler r | Some h => Some h end in
    let vars := default ∅ (m_vars m) in
    let vars := match rt_path r with Some p => setMatch req p vars | None => vars end in
    (true, mkMatch route h (Some vars)).

(** ** The router ([mux.go]) *)

(** [Router] *)
Record Router := mkRouter {
  ro_notFound : option handler;
  ro_routes : list Route;
  ro_strictSlash : bool;
  ro_keepContext : bool;
}.

Definition NewRouter : Router := mkRouter None [] false false.

(** [Router.NewRoute], [Router.Handle]; [f] is what the caller chains after it. *)
Definition NewRoute (ro : Router) : Route := mkRoute None [] None (ro_strictSlash ro) false None.
Definition Handle (path : string) (h : handler) (f : Route → Route) (ro : Router) : Router :=
  mkRouter (ro_notFound ro) (ro_routes ro ++ [f (Handler h (Path path (NewRoute ro)))])
    (ro_strictSlash ro) (ro_keepContext ro).

(** [Router.Match] *)
Fixpoint match_routes (i : nat) (routes : list Route) (req : request) (m : RouteMatch) : bool * RouteMatch :=
  match routes with
  | [] => (false, m)
  | route :: routes =>
      match Route_Match i route req m with
      | (true, m) => (true, m)
      | (false, m) => match_routes (S i) routes req m
      end
  end.
Definition Router_Match (ro : Router) (req : request) (m : RouteMatch) : bool * RouteMatch :=
  match_routes 0 (ro_routes ro) req m.

Definition varsKey : ctxkey := KMux 0.
Definition routeKey : ctxkey := KMux 1.

(** [setVars], [setCurrentRoute], [Vars], [CurrentRoute]: the type assertions panic on a
    value of another type. *)
Definition setVars (req : request) (v : gmap string string) : MW () := ctx_set req varsKey (VVars v).
Definition setCurrentRoute (req : request) (i : nat) : MW () := ctx_set req routeKey (VRoute i).
Definition conversion_panic : crash := Panic "interface conversion".
Definition Vars (req : request) : MW (option (gmap string string)) :=
  rv ← ctx_get req varsKey;
  match rv with
  | Some (VVars v) => mret (Some v)
  | Some _ => throw conversion_panic
  | None => mret None
  end.
Definition CurrentRoute (req : request) : MW (option nat) :=
  rv ← ctx_get req routeKey;
  match rv with
  | Some (VRoute i) => mret (Some i)
  | Some _ => throw conversion_panic
  | None => mret None
  end.

(** [cleanPath] *)
Definition cleanPath (p : string) : string :=
  if decide (p = "") then "/"
  else
    let p := if HasPrefix p "/" then p else "/" +:+ p in
    let np := Clean p in
    if HasSuffix p "/" && bool_decide (np ≠ "/") then np +:+ "/" else np.

(** [http.NotFoundHandler] *)
Definition NotFound : handler := λ _, on_resp (HttpError "404 page not found" 404).

(** [context.Clear(req)] *)
Definition clear_context (req : request) : MW () := on_ctx (Context.Clear (rq_id req)).

(** [context.ClearHandler] *)
Definition ClearHandler (h : handler) : handler := λ req, defer (clear_context req) (h req).

(** [Router.ServeHTTP] *)
Definition ServeHTTP (ro : Router) (req : request) : MW () :=
  let p := cleanPath (rq_path req) in
  if decide (p ≠ rq_path req) then
    on_resp (HeaderSet "Location" (url_string req p));;
    on_resp (WriteHeader 301)
  else
    let '(ok, m) := Router_Match ro req new_match in
    (if ok then
       setVars req (default ∅ (m_vars m));;
       setCurrentRoute req (default 0 (m_route m))
     else mret tt);;
    let h := match (if ok then m_handler m else None) with
             | Some h => h
             | None => default NotFound (ro_notFound ro)
             end in
    if ro_keepContext ro then h req
    else defer (clear_context req) (h req).
End mux.

(** ** Properties *)
#[local] Arguments String.append !_ _ / : simpl nomatch.

Lemma substring_all s : String.substring 0 (String.length s) s = s.
Proof. induction s as [|c s IH]; [done|]. simpl. by rewrite IH. Qed.

Lemma substring_split n s :
  (n ≤ String.length s)%nat →
  s = String.substring 0 n s +:+ String.substring n (String.length s - n) s.
Proof.
  revert n. induction s as [|c s IH]; intros [|n] Hn; simpl in *; try lia; try done.
  - by rewrite substring_all.
  - f_equal. apply IH. lia.
Qed.

Lemma span_length p s : (span p s ≤ String.length s)%nat.
Proof. induction s as [|c s IH]; simpl; [done|]. destruct (patt_char p c); lia. Qed.

Lemma span_no_slash n s :
  (n ≤ span PNotSlash s)%nat → has_char slash (String.substring 0 n s) = false.
Proof.
  revert n. induction s as [|c s IH]; intros [|n] Hn; try done. simpl in *.
  destruct (bool_decide (c ≠ "/"%char)) eqn:E; [|lia]. apply bool_decide_eq_true in E.
  rewrite IH; [|lia]. by rewrite bool_decide_eq_false_2.
Qed.

Lemma span_app v t : has_char slash v = false → span PNotSlash (v +:+ String slash t) = String.length v.
Proof.
  induction v as [|c v IH]; [done|]. cbn [has_char]. intros [Hc Hv]%orb_false_iff.
  apply bool_decide_eq_false in Hc. simpl. rewrite bool_decide_eq_true_2; [by rewrite IH|].
  by intros ->.
Qed.

Lemma take_longest_Some min f s n k l :
  take_longest min f s n = Some (k, l) →
  (min ≤ k ≤ n)%nat ∧ f (String.substring k (String.length s - k) s) = Some l.
Proof.
  induction n as [|n IH]; cbn [take_longest]; (case_decide; [done|]).
  - destruct (f (String.substring 0 _ _)) as [l'|] eqn:E; [|done].
    intros ?. simplify_eq. split; [lia|done].
  - destruct (f (String.substring (S n) _ _)) as [l'|] eqn:E.
    + intros ?. simplify_eq. split; [lia|done].
    + intros Ht. destruct (IH Ht). split; [lia|done].
Qed.

(** One variable between a literal prefix and a closing slash. *)
Lemma re_match_var pre s l :
  re_match [RLit pre; RGroup PNotSlash; RLit "/"; REnd] s = Some l ↔
  ∃ v, l = [v] ∧ s = pre +:+ v +:+ "/" ∧ v ≠ "" ∧ has_char slash v = false.
Proof.
  cbn [re_match]. split.
  - destruct (strip_prefix pre s) as [t|] eqn:Ep; [|done]. apply strip_prefix_Some in Ep as ->.
    destruct (take_longest _ _ _ _) as [[n l']|] eqn:Et; [|done]. intros [= <-].
    apply take_longest_Some in Et as [Hn Hf]. simpl in Hn.
    pose proof (span_length PNotSlash t) as Hlen.
    destruct (strip_prefix "/" _) as [r|] eqn:Es; [|done]. apply strip_prefix_Some in Es.
    case_decide; [|done]. injection Hf as <-. subst r.
    exists (String.substring 0 n t). split_and!; [done| | |].
    + f_equal. rewrite {1}(substring_split n t); [|lia]. by rewrite Es.
    + intros E. pose proof (substring_split n t ltac:(lia)) as Ht. rewrite E Es in Ht.
      rewrite Ht /= in Hn. lia.
    + apply span_no_slash. lia.
  - intros (v & -> & -> & Hv & Hs). rewrite strip_prefix_app.
    change (v +:+ "/") with (v +:+ String slash ""). rewrite span_app //.
    assert (∀ n, String.substring (String.length v) n (v +:+ String slash "") = String.substring 0 n "/")
      as Hsub.
    { intros n. clear. induction v as [|c v IH]; [done|]. apply IH. }
    assert (String.substring 0 (String.length v) (v +:+ String slash "") = v) as Hsub0.
    { clear. induction v as [|c v IH]; [done|]. simpl. by rewrite IH. }
    assert (String.length (v +:+ String slash "") - String.length v = 1) as Hl.
    { rewrite str_length_app /=. lia. }
    assert (take_longest (patt_min PNotSlash)
      (λ s0, match strip_prefix "/" s0 with
             | Some s' => if decide (s' = "") then Some [] else None | None => None end)
      (v +:+ String slash "") (String.length v) = Some (String.length v, [])) as Ht.
    { destruct (String.length v) as [|n] eqn:En; [by destruct v|].
      cbn [take_longest]. case_decide; [simpl in *; lia|]. by rewrite Hl Hsub. }
    rewrite Ht. by rewrite Hsub0.
Qed.

Lemma re_match_lit l s : re_match [RLit l; REnd] s = Some [] ↔ s = l.
Proof.
  cbn [re_match]. destruct (strip_prefix l s) as [t|] eqn:E.
  - apply strip_prefix_Some in E as ->. case_decide; subst.
    + by rewrite str_app_nil_r.
    + split; [done|]. intros E. apply (f_equal String.length) in E. rewrite str_length_app in E.
      destruct t; [done|]. simpl in E. lia.
  - split; [done|]. intros ->. rewrite -{2}(str_app_nil_r l) strip_prefix_app in E. done.
Qed.

Section serve.
Context `{Services}.

(** What [ServeHTTP] stores is what the handler reads. *)
Lemma wp_Vars_stored req v i Q C w :
  (∀ x, Q (Some v, Some i) (set_ctx x w)) →
  wp (setVars req v;; setCurrentRoute req i;; a ← Vars req; b ← CurrentRoute req; mret (a, b)) Q C w.
Proof.
  intros HQ. unfold setVars, setCurrentRoute, Vars, CurrentRoute. apply wp_bind, wp_ctx_set, wp_bind, wp_ctx_set.
  apply wp_bind, wp_bind, wp_ctx_get. cbn [w_ctx set_ctx]. rewrite Context.Get_Set_ne; [|naive_solver].
  rewrite Context.Get_Set_eq. apply wp_ret, wp_bind, wp_bind, wp_ctx_get. cbn [w_ctx set_ctx].
  rewrite Context.Get_Set_eq. apply wp_ret, wp_ret, HQ.
Qed.

(** [ClearHandler] clears the values of the request however its handler ends, unless
    the process ends. *)
Lemma wp_ClearHandler (h : handler) req Q C w :
  wp (h req) (λ _ w', Q tt (set_ctx (Context.Clear (rq_id req) (w_ctx w')) w'))
    (λ c w', match c with
             | Fatal _ => C c w'
             | Panic _ => C c (set_ctx (Context.Clear (rq_id req) (w_ctx w')) w')
             end) w →
  wp (ClearHandler h req) Q C w.
Proof.
  intros Hh. apply wp_defer. eapply wp_mono; [exact Hh| |].
  - intros [] w' HQ. by apply wp_on_ctx.
  - intros [s|s] w' HC; [|done]. by apply wp_on_ctx.
Qed.

(** Serving a request leaves nothing of it behind in the context, however the
    handler ends, and never touches the values of other requests through the
    router itself. *)
Lemma wp_ServeHTTP ro req Q C w :
  ro_keepContext ro = false →
  (∀ rs, Q tt (set_resp rs w)) →
  (∀ (h : handler) x, wp (h req) (λ _ w', Q tt (set_ctx (Context.Clear (rq_id req) (w_ctx w')) w'))
            (λ c w', match c with
                     | Fatal _ => C c w'
                     | Panic _ => C c (set_ctx (Context.Clear (rq_id req) (w_ctx w')) w')
                     end) (set_ctx x w)) →
  wp (ServeHTTP ro req) Q C w.
Proof.
  intros Hk Hr Hh. rewrite /ServeHTTP. case_decide.
  { apply wp_bind, wp_on_resp, wp_on_resp. apply Hr. }
  destruct (Router_Match ro req new_match) as [ok m]. apply wp_bind.
  set (h := match _ with Some h => h | None => _ end). rewrite Hk.
  assert (∀ x, wp (defer (clear_context req) (h req)) Q C (set_ctx x w)) as Hd.
  { intros x. apply wp_ClearHandler, Hh. }
  destruct ok.
  - apply wp_bind, wp_ctx_set, wp_ctx_set. apply Hd.
  - apply wp_ret. rewrite -(set_ctx_id w). apply Hd.
Qed.
End serve.
End Mux.
