(* ===== verification/Memcache.v ===== *)
(** * bradfitz/gomemcache: the memcache client

    [src/src/github.com/bradfitz/gomemcache/memcache]: [memcache.go] (the client,
    its pool of idle connections and the text protocol) and [selector.go] (which
    server a key lives on).  The network is modelled byte by byte: a connection has
    the bytes the server sent that have not been read yet, and every operation on
    it can fail, before or after the server has seen the request. *)

From S2P Require Import Prelude GoStrings.

Module Memcache.

(** ** Keys and decimal numbers *)

(** [legalKey] *)
Definition legal_char (c : ascii) : bool :=
  let n := nat_of_ascii c in negb (bool_decide (n ≤ 32)%nat || bool_decide (126 < n)%nat).
Definition legalKey (key : string) : bool :=
  if decide (250 < String.length key)%nat then false else all_chars legal_char key.

(** [resumableError] *)
Definition resumableError (err : error) : bool :=
  match err with
  | ErrCacheMiss | ErrCASConflict | ErrNotStored | ErrMalformedKey => true
  | _ => false
  end.

Definition space : ascii := " "%char.
Definition newline : ascii := ascii_of_nat 10.

(** The result lines. *)
Definition resultOK : string := "OK" +:+ crlf.
Definition resultStored : string := "STORED" +:+ crlf.
Definition resultNotStored : string := "NOT_STORED" +:+ crlf.
Definition resultExists : string := "EXISTS" +:+ crlf.
Definition resultNotFound : string := "NOT_FOUND" +:+ crlf.
Definition resultDeleted : string := "DELETED" +:+ crlf.
Definition resultEnd : string := "END" +:+ crlf.
Definition resultTouched : string := "TOUCHED" +:+ crlf.
Definition resultClientErrorPrefix : string := "CLIENT_ERROR ".

(** An unsigned decimal number below a bound. *)
Fixpoint dec_go (s : string) (acc : N) : option N :=
  match s with
  | EmptyString => Some acc
  | String c s' =>
      let n := nat_of_ascii c in
      if bool_decide (48 ≤ n ∧ n ≤ 57)%nat then dec_go s' (acc * 10 + N.of_nat (n - 48)) else None
  end.
Definition dec (bound : N) (s : string) : option N :=
  if decide (s = "") then None
  else match dec_go s 0 with
       | Some n => if decide (n < bound)%N then Some n else None
       | None => None
       end.

(** [Item] *)
Record Item := mkItem {
  Key : string;
  Value : string;
  Flags : N;
  Expiration : Z;
  casid : N;
}.

(** [scanGetResponseLine], for lines of the two shapes it is written for, with
    single spaces: the item without its value, and the declared size, an [int] and
    so possibly signed. *)
Definition dec_int (s : string) : option Z :=
  match strip_prefix "-" s with
  | Some s' => Z.opp ∘ Z.of_N <$> dec (2 ^ 63 + 1) s'
  | None =>
      match strip_prefix "+" s with
      | Some s' => Z.of_N <$> dec (2 ^ 63) s'
      | None => Z.of_N <$> dec (2 ^ 63) s
      end
  end.
Definition scanGetResponseLine (line : string) : result (Item * Z) :=
  let unexpected := Err (ErrorS ("memcache: unexpected line in get response: " +:+ line)) in
  match strip_suffix crlf line with
  | None => unexpected
  | Some l =>
      match Split l space with
      | ["VALUE"; key; flags; size; cas] =>
          match dec (2 ^ 32) flags, dec_int size, dec (2 ^ 64) cas with
          | Some f, Some n, Some c => Ok (mkItem key "" f 0 c, n)
          | _, _, _ => unexpected
          end
      | ["VALUE"; key; flags; size] =>
          match dec (2 ^ 32) flags, dec_int size with
          | Some f, Some n => Ok (mkItem key "" f 0 0, n)
          | _, _ => unexpected
          end
      | _ => unexpected
      end
  end.

(** ** The network *)

(** What happens to an operation: it works, it fails before it has an effect, or
    the server acts on it and the answer is lost. *)
Inductive fault := FOk | FBefore | FAfter.

(** A server: a state and its answer to the bytes of one request. *)
Class Server (srv : Type) := {
  reply : srv → string → string * srv;
}.

Section client.
Context {srv : Type} `{!Server srv}.

(** Servers by address; open connections with their address and unread bytes. *)
Record net := mkNet {
  n_srvs : gmap string srv;
  n_conns : gmap nat (string * string);
  n_next : nat;
  n_faults : list fault;
}.

(** [Client]: the addresses of its selector, and the idle connections. *)
Record Client := mkClient {
  addrs : list string;
  freeconn : gmap string (list nat);
}.

Record cst := mkCst { st_client : Client; st_net : net }.

Definition set_net (n : net) (s : cst) : cst := mkCst (st_client s) n.
Definition set_free (f : gmap string (list nat)) (s : cst) : cst :=
  mkCst (mkClient (addrs (st_client s)) f) (st_net s).

Abbreviation MC := (M cst).

Definition next_fault : MC fault := λ s,
  let n := st_net s in
  (Ret (default FOk (head (n_faults n))),
   set_net (mkNet (n_srvs n) (n_conns n) (n_next n) (tail (n_faults n))) s).

Definition io_error : error := ErrorS "i/o timeout".

(** [net.DialTimeout] *)
Definition net_dial (addr : string) : MC (result nat) :=
  f ← next_fault;
  n ← gets st_net;
  match f, n_srvs n !! addr with
  | FOk, Some _ =>
      modify (set_net (mkNet (n_srvs n) (<[n_next n := (addr, "")]> (n_conns n)) (S (n_next n)) (n_faults n)));;
      mret (Ok (n_next n))
  | _, _ => mret (Err io_error)
  end.

(** Writing a request and flushing it. *)
Definition flush (cn : nat) (bytes : string) : MC (option error) :=
  f ← next_fault;
  n ← gets st_net;
  match f, n_conns n !! cn with
  | FBefore, _ | _, None => mret (Some io_error)
  | _, Some (addr, buf) =>
      match n_srvs n !! addr with
      | None => mret (Some io_error)
      | Some s =>
          let '(out, s') := reply s bytes in
          let lost := match f with FAfter => true | _ => false end in
          modify (set_net (mkNet (<[addr := s']> (n_srvs n))
            (<[cn := (addr, if lost then buf else buf +:+ out)]> (n_conns n)) (n_next n) (n_faults n)));;
          mret (if lost then Some io_error else None)
      end
  end.

(** [ReadSlice]: up to and including the next line feed. *)
Definition ReadLine (cn : nat) : MC (result string) :=
  f ← next_fault;
  n ← gets st_net;
  match f, n_conns n !! cn with
  | FOk, Some (addr, buf) =>
      match take_until newline buf with
      | Some (a, b) =>
          modify (set_net (mkNet (n_srvs n) (<[cn := (addr, b)]> (n_conns n)) (n_next n) (n_faults n)));;
          mret (Ok (a +:+ String newline ""))
      | None => mret (Err io_error)
      end
  | _, _ => mret (Err io_error)
  end.

(** [ioutil.ReadAll(io.LimitReader(r, k))] *)
Definition ReadN (cn k : nat) : MC (result string) :=
  f ← next_fault;
  n ← gets st_net;
  match f, n_conns n !! cn with
  | FOk, Some (addr, buf) =>
      modify (set_net (mkNet (n_srvs n)
        (<[cn := (addr, String.substring k (String.length buf - k) buf)]> (n_conns n))
        (n_next n) (n_faults n)));;
      mret (Ok (String.substring 0 k buf))
  | _, _ => mret (Err io_error)
  end.

Definition conn_close (cn : nat) : MC () :=
  modify (λ s, let n := st_net s in
    set_net (mkNet (n_srvs n) (delete cn (n_conns n)) (n_next n) (n_faults n)) s).

(** ** Connections *)

Definition maxIdleConnsPerAddr : nat := 2.

(** [putFreeConn] *)
Definition putFreeConn (addr : string) (cn : nat) : MC () :=
  c ← gets st_client;
  let freelist := default [] (freeconn c !! addr) in
  if decide (maxIdleConnsPerAddr ≤ length freelist)%nat then conn_close cn
  else modify (set_free (<[addr := freelist ++ [cn]]> (freeconn c))).

(** [getFreeConn]: the connection freed last. *)
Definition getFreeConn (addr : string) : MC (option nat) :=
  c ← gets st_client;
  match freeconn c !! addr with
  | None => mret None
  | Some freelist =>
      match last freelist with
      | None => mret None
      | Some cn =>
          modify (set_free (<[addr := removelast freelist]> (freeconn c)));;
          mret (Some cn)
      end
  end.

(** [getConn] *)
Definition getConn (addr : string) : MC (result nat) :=
  cn ← getFreeConn addr;
  match cn with
  | Some cn => mret (Ok cn)
  | None => net_dial addr
  end.

(** [condRelease] *)
Definition condRelease (addr : string) (cn : nat) (err : option error) : MC () :=
  match err with
  | None => putFreeConn addr cn
  | Some e => if resumableError e then putFreeConn addr cn else conn_close cn
  end.

(** [withAddrRw]: the deferred release sees the error returned, nil after a panic.
    [A] is what the callback assigns to variables of its caller. *)
Definition released {A} (addr : string) (cn : nat) (m : MC (option error * A)) : MC (option error * A) :=
  λ s,
  match m s with
  | (Ret r, s) => (condRelease addr cn r.1;; mret r) s
  | (Crash c, s) => (condRelease addr cn None;; throw c) s
  end.
Definition withAddr {A} (addr : string) (dflt : A) (fn : nat → MC (option error * A)) :
    MC (option error * A) :=
  r ← getConn addr;
  match r with
  | Err e => mret (Some e, dflt)
  | Ok cn => released addr cn (fn cn)
  end.
Definition withAddrRw (addr : string) (fn : nat → MC (option error)) : MC (option error) :=
  r ← withAddr addr tt (λ cn, e ← fn cn; mret (e, tt));
  mret r.1.

(** ** Servers ([selector.go]) *)

(** [crc32.ChecksumIEEE] *)
Definition crc_step (c : N) : N :=
  if N.testbit c 0 then N.lxor (N.shiftr c 1) 0xEDB88320 else N.shiftr c 1.
Fixpoint crc_go (s : string) (c : N) : N :=
  match s with
  | EmptyString => c
  | String a s' => crc_go s' (Nat.iter 8 crc_step (N.lxor c (N_of_ascii a)))
  end.
Definition ChecksumIEEE (s : string) : N := N.lxor (crc_go s 0xFFFFFFFF) 0xFFFFFFFF.

(** [SetServers], with the resolver's answer for each name. *)
Fixpoint SetServers (resolve : string → result string) (servers naddr : list string) :
    result (list string) :=
  match servers with
  | [] => Ok naddr
  | server :: servers =>
      match resolve server with
      | Err e => Err e
      | Ok a => SetServers resolve servers (naddr ++ [a])
      end
  end.

(** [New]: the error of [SetServers] is dropped, and the list stays empty. *)
Definition New (resolve : string → result string) (servers : list string) : Client :=
  mkClient (match SetServers resolve servers [] with Ok l => l | Err _ => [] end) ∅.

(** [PickServer] *)
Definition PickServer (l : list string) (key : string) : result string :=
  match l with
  | [] => Err ErrNoServers
  | [a] => Ok a
  | _ =>
      let cs := ChecksumIEEE (String.substring 0 256 key) in
      match l !! N.to_nat (cs `mod` N.of_nat (length l))%N with
      | Some a => Ok a
      | None => Err ErrNoServers
      end
  end.

(** ** Operations *)

(** [withKeyAddr], [withKeyRw] *)
Definition withKeyAddr (key : string) (fn : string → MC (option error)) : MC (option error) :=
  if negb (legalKey key) then mret (Some ErrMalformedKey)
  else
    l ← gets (addrs ∘ st_client);
    match PickServer l key with
    | Err e => mret (Some e)
    | Ok addr => fn addr
    end.
Definition withKeyRw (key : string) (fn : nat → MC (option error)) : MC (option error) :=
  withKeyAddr key (λ addr, withAddrRw addr fn).

(** [onItem]: no check of the key here. *)
Definition onItem (item : Item) (fn : nat → Item → MC (option error)) : MC (option error) :=
  l ← gets (addrs ∘ st_client);
  match PickServer l (Key item) with
  | Err e => mret (Some e)
  | Ok addr => withAddrRw addr (λ cn, fn cn item)
  end.

(** [parseGetResponse]; the items passed to the callback are returned, last first.
    Each round reads at least one byte of what is unread.  The limit of the read is
    an [int64] and the sum can wrap around; a limit below one reads nothing. *)
Definition limit (size : Z) : nat :=
  if decide (size + 2 < 2 ^ 63)%Z then Z.to_nat (size + 2) else 0.
Fixpoint parse_go (fuel : nat) (cn : nat) (items : list Item) : MC (option error * list Item) :=
  match fuel with
  | O => mret (Some io_error, items)
  | S fuel =>
      line ← ReadLine cn;
      match line with
      | Err e => mret (Some e, items)
      | Ok line =>
          if decide (line = resultEnd) then mret (None, items)
          else
            match scanGetResponseLine line with
            | Err e => mret (Some e, items)
            | Ok (it, size) =>
                v ← ReadN cn (limit size);
                match v with
                | Err e => mret (Some e, items)
                | Ok v =>
                    if negb (HasSuffix v crlf) then
                      mret (Some (ErrorS "memcache: corrupt get result read"), items)
                    else
                      parse_go fuel cn
                        (mkItem (Key it) (String.substring 0 (Z.to_nat size) v) (Flags it) (Expiration it) (casid it)
                           :: items)
                end
            end
      end
  end.
Definition unread (cn : nat) (s : cst) : string :=
  match n_conns (st_net s) !! cn with Some (_, buf) => buf | None => "" end.
Definition parseGetResponse (cn : nat) : MC (option error * list Item) :=
  n ← gets (λ s, String.length (unread cn s));
  parse_go (S n) cn [].

(** [getFromAddr]; the callback of [Get] keeps the last item. *)
Definition getFromAddr (addr : string) (keys : list string) : MC (option error * option Item) :=
  withAddr addr None (λ cn,
    err ← flush cn ("gets " +:+ Join keys " " +:+ crlf);
    match err with
    | Some e => mret (Some e, None)
    | None =>
        res ← parseGetResponse cn;
        mret (res.1, head res.2)
    end).

(** [Get] *)
Definition Get (key : string) : MC (result Item) :=
  if negb (legalKey key) then mret (Err ErrMalformedKey)
  else
    l ← gets (addrs ∘ st_client);
    match PickServer l key with
    | Err e => mret (Err e)
    | Ok addr =>
        res ← getFromAddr addr [key];
        match res with
        | (Some e, _) => mret (Err e)
        | (None, None) => mret (Err ErrCacheMiss)
        | (None, Some item) => mret (Ok item)
        end
    end.

(** [populateOne] *)
Definition store_line (verb : string) (item : Item) : string :=
  let common := [verb; Key item; pretty (Flags item); pretty (Expiration item);
                 pretty (N.of_nat (String.length (Value item)))] in
  Join (if decide (verb = "cas") then common ++ [pretty (casid item)] else common) " " +:+ crlf.
Definition populateOne (verb : string) (cn : nat) (item : Item) : MC (option error) :=
  if negb (legalKey (Key item)) then mret (Some ErrMalformedKey)
  else
    try_then (flush cn (store_line verb item +:+ Value item +:+ crlf))
      (line ← ReadLine cn;
       match line with
       | Err e => mret (Some e)
       | Ok line =>
           mret (if decide (line = resultStored) then None
                 else if decide (line = resultNotStored) then Some ErrNotStored
                 else if decide (line = resultExists) then Some ErrCASConflict
                 else if decide (line = resultNotFound) then Some ErrCacheMiss
                 else Some (ErrorS ("memcache: unexpected response line from " +:+ verb +:+ ": " +:+ line)))
       end).

(** [Set], [Add], [Replace], [CompareAndSwap] *)
Definition Set_ (item : Item) : MC (option error) := onItem item (populateOne "set").
Definition Add (item : Item) : MC (option error) := onItem item (populateOne "add").
Definition Replace (item : Item) : MC (option error) := onItem item (populateOne "replace").
Definition CompareAndSwap (item : Item) : MC (option error) := onItem item (populateOne "cas").

(** [writeReadLine], [writeExpectf] *)
Definition writeReadLine (cn : nat) (request : string) : MC (result string) :=
  err ← flush cn request;
  match err with
  | Some e => mret (Err e)
  | None => ReadLine cn
  end.
Definition writeExpectf (cn : nat) (expect request : string) : MC (option error) :=
  line ← writeReadLine cn request;
  match line with
  | Err e => mret (Some e)
  | Ok line =>
      mret (if decide (line = resultOK) then None
            else if decide (line = expect) then None
            else if decide (line = resultNotStored) then Some ErrNotStored
            else if decide (line = resultExists) then Some ErrCASConflict
            else if decide (line = resultNotFound) then Some ErrCacheMiss
            else Some (ErrorS ("memcache: unexpected response line: " +:+ line)))
  end.

(** [Delete], [DeleteAll] *)
Definition Delete (key : string) : MC (option error) :=
  withKeyRw key (λ cn, writeExpectf cn resultDeleted ("delete " +:+ key +:+ crlf)).
Definition DeleteAll : MC (option error) :=
  withKeyRw "" (λ cn, writeExpectf cn resultDeleted ("flush_all" +:+ crlf)).

(** [flushAllFromAddr], [Each], [FlushAll] *)
Definition flushAllFromAddr (addr : string) : MC (option error) :=
  withAddrRw addr (λ cn,
    line ← writeReadLine cn ("flush_all" +:+ crlf);
    match line with
    | Err e => mret (Some e)
    | Ok line =>
        mret (if decide (line = resultOK) then None
              else Some (ErrorS ("memcache: unexpected response line from flush_all: " +:+ line)))
    end).
Definition Each (f : string → MC (option error)) : MC (option error) :=
  l ← gets (addrs ∘ st_client); range_err l f.
Definition FlushAll : MC (option error) := Each flushAllFromAddr.

(** [touchFromAddr], [Touch] *)
Definition touchFromAddr (addr : string) (keys : list string) (expiration : Z) : MC (option error) :=
  withAddrRw addr (λ cn,
    range_err keys (λ key,
      line ← writeReadLine cn ("touch " +:+ key +:+ " " +:+ pretty expiration +:+ crlf);
      match line with
      | Err e => mret (Some e)
      | Ok line =>
          mret (if decide (line = resultTouched) then None
                else if decide (line = resultNotFound) then Some ErrCacheMiss
                else Some (ErrorS ("memcache: unexpected response line from touch: " +:+ line)))
      end)).
Definition Touch (key : string) (seconds : Z) : MC (option error) :=
  withKeyAddr key (λ addr, touchFromAddr addr [key] seconds).

(** [incrDecr], [Increment], [Decrement]: slicing a line shorter than two bytes
    panics. *)
Definition incrDecr (verb key : string) (delta : N) : MC (result N) :=
  if negb (legalKey key) then mret (Err ErrMalformedKey)
  else
    l ← gets (addrs ∘ st_client);
    match PickServer l key with
    | Err e => mret (Err e)
    | Ok addr =>
        r ← withAddr addr 0%N (λ cn,
          line ← writeReadLine cn (verb +:+ " " +:+ key +:+ " " +:+ pretty delta +:+ crlf);
          match line with
          | Err e => mret (Some e, 0%N)
          | Ok line =>
              let cut s := String.substring 0 (String.length s - 2) s in
              let oob := Panic "slice bounds out of range" in
              if decide (line = resultNotFound) then mret (Some ErrCacheMiss, 0%N)
              else
                match strip_prefix resultClientErrorPrefix line with
                | Some msg =>
                    if decide (String.length msg < 2)%nat then throw oob
                    else mret (Some (ErrorS ("memcache: client error: " +:+ cut msg)), 0%N)
                | None =>
                    if decide (String.length line < 2)%nat then throw oob
                    else
                      match dec (2 ^ 64) (cut line) with
                      | Some n => mret (None, n)
                      | None => mret (Some (ErrorS ("strconv.ParseUint: parsing " +:+ cut line)), 0%N)
                      end
                end
          end);
        match r with
        | (Some e, _) => mret (Err e)
        | (None, n) => mret (Ok n)
        end
    end.
Definition Increment (key : string) (delta : N) : MC (result N) := incrDecr "incr" key delta.
Definition Decrement (key : string) (delta : N) : MC (result N) := incrDecr "decr" key delta.
End client.

(** ** Decimal round trip *)
#[local] Arguments String.append !_ _ / : simpl nomatch.

Definition is_dec (c : ascii) : bool :=
  let n := nat_of_ascii c in bool_decide (48 ≤ n ∧ n ≤ 57)%nat.

Lemma pretty_digit (x : N) :
  (x < 10)%N → ∃ c, pretty_N_char x = c ∧ nat_of_ascii c = 48 + N.to_nat x.
Proof.
  intros Hx. eexists. split; [done|].
  assert (x = 0 ∨ x = 1 ∨ x = 2 ∨ x = 3 ∨ x = 4 ∨ x = 5 ∨ x = 6 ∨ x = 7 ∨ x = 8 ∨ x = 9)%N as Hc.
  { clear -Hx. lia. }
  by destruct_or! Hc; subst.
Qed.

Lemma digit_range (x : N) : (48 ≤ 48 + N.to_nat (x `mod` 10) ∧ 48 + N.to_nat (x `mod` 10) ≤ 57)%nat.
Proof. pose proof (N.mod_lt x 10 ltac:(done)) as Hm. revert Hm. generalize (x `mod` 10)%N. lia. Qed.

Lemma dec_go_pretty (x : N) s : dec_go (pretty_N_go x s) 0 = dec_go s x.
Proof.
  revert s. induction (N.lt_wf_0 x) as [x _ IH]. intros s.
  destruct (decide (0 < x)%N) as [Hx|Hx].
  - rewrite pretty_N_go_step //. rewrite IH; [|by apply N.div_lt].
    destruct (pretty_digit (x `mod` 10)) as (c & -> & Hc); [by apply N.mod_lt|].
    cbn [dec_go]. rewrite Hc bool_decide_eq_true_2.
    + f_equal. rewrite (Nat.add_comm 48) Nat.add_sub N2Nat.id.
      pose proof (N.div_mod x 10 ltac:(done)). lia.
    + apply digit_range.
  - assert (x = 0)%N as -> by lia. by rewrite pretty_N_go_0.
Qed.

Lemma pretty_go_chars (x : N) s : all_chars is_dec s = true → all_chars is_dec (pretty_N_go x s) = true.
Proof.
  revert s. induction (N.lt_wf_0 x) as [x _ IH]. intros s Hs.
  destruct (decide (0 < x)%N) as [Hx|Hx].
  - rewrite pretty_N_go_step //. apply IH; [by apply N.div_lt|]. cbn [all_chars].
    destruct (pretty_digit (x `mod` 10)) as (c & -> & Hc); [by apply N.mod_lt|].
    rewrite Hs andb_true_r /is_dec Hc. apply bool_decide_eq_true_2, digit_range.
  - assert (x = 0)%N as -> by lia. by rewrite pretty_N_go_0.
Qed.

Lemma pretty_chars (x : N) : all_chars is_dec (pretty x) = true.
Proof. rewrite /pretty /pretty_N. case_decide; [done|]. by apply pretty_go_chars. Qed.

Lemma pretty_not_empty (x : N) : pretty x ≠ "".
Proof.
  rewrite /pretty /pretty_N. case_decide as Hx; [done|]. intros E.
  pose proof (dec_go_pretty x "") as Hd. rewrite E /= in Hd. injection Hd as Hd. lia.
Qed.

Lemma dec_pretty bound (x : N) : (x < bound)%N → dec bound (pretty x) = Some x.
Proof.
  intros Hx. rewrite /dec. rewrite decide_False; [|apply pretty_not_empty].
  assert (dec_go (pretty x) 0 = Some x) as ->.
  { rewrite /pretty /pretty_N. case_decide; [by subst|]. apply dec_go_pretty. }
  by rewrite decide_True.
Qed.

Lemma pretty_no_char (x : N) c : is_dec c = false → has_char c (pretty x) = false.
Proof. apply all_chars_has, pretty_chars. Qed.

Lemma strip_first_none c s : has_char c s = false → strip_prefix (String c "") s = None.
Proof.
  destruct s as [|d s]; [done|]. cbn [has_char strip_prefix]. intros [Hd _]%orb_false_iff.
  apply bool_decide_eq_false in Hd. case_decide; [congruence|done].
Qed.

Lemma dec_int_pretty (x : N) : (x < 2 ^ 63)%N → dec_int (pretty x) = Some (Z.of_N x).
Proof.
  intros Hx. rewrite /dec_int !strip_first_none; [|by apply pretty_no_char..]. by rewrite dec_pretty.
Qed.

(** A legal key has no blank and no control character. *)
Lemma legalKey_no_char k c : legalKey k = true → legal_char c = false → has_char c k = false.
Proof. rewrite /legalKey. case_decide; [done|]. by apply all_chars_has. Qed.

(** ** Lines *)
Lemma substring_pre x y : String.substring 0 (String.length x) (x +:+ y) = x.
Proof. induction x as [|c x IH]; simpl; [by destruct y|]. by rewrite IH. Qed.
Lemma substring_whole s : String.substring 0 (String.length s) s = s.
Proof. induction s as [|c s IH]; simpl; [done|]. by rewrite IH. Qed.
Lemma substring_post x y :
  String.substring (String.length x) (String.length (x +:+ y) - String.length x) (x +:+ y) = y.
Proof.
  rewrite str_length_app Nat.add_comm Nat.add_sub. induction x as [|c x IH]; simpl; [|done].
  apply substring_whole.
Qed.

Lemma has_char_Join c l sep :
  Forall (λ x, has_char c x = false) l → has_char c sep = false → has_char c (Join l sep) = false.
Proof.
  intros Hl Hs. induction Hl as [|x l Hx Hl IH]; [done|]. destruct l as [|y l]; [done|].
  cbn [Join] in *. by rewrite !has_char_app Hx Hs IH.
Qed.

(** A line that scans starts with VALUE. *)
Lemma scan_VALUE line r : scanGetResponseLine line = Ok r → HasPrefix line "VALUE " = true.
Proof.
  rewrite /scanGetResponseLine. destruct (strip_suffix crlf line) as [l|] eqn:E; [|done].
  apply strip_suffix_Some in E as ->. pose proof (Join_Split l space) as Hj.
  destruct (Split l space) as [|v fields]; [done|]. intros Hr.
  assert (v = "VALUE" ∧ fields ≠ []) as [-> Hne].
  { destruct fields as [|? ?]; [by repeat case_match|]. split; [|done]. by repeat case_match; simplify_eq. }
  destruct fields as [|f fields]; [done|]. rewrite -Hj. apply HasPrefix_true.
  by exists (Join (f :: fields) (String space "") +:+ crlf).
Qed.
End Memcache.
