(* ===== verification/Routes.v ===== *)
(** * The server

    [src/src/siphon/bundler/routes.go] and [src/src/main.go]: the route table, the
    start-up, and the loop of [net/http] that serves one request after the other,
    recovering from panics.  Requests are served one at a time here; the source
    serves each connection in a goroutine of its own. *)

From S2P Require Import Prelude GoStrings GoPath FileSys Context Services S3 Cache.
From S2P Require Import Db Push Pull Submit Healthcheck Auth Gzip Mux.

Module Routes.

Section routes.
Context `{Services}.

Definition push_handler : Mux.handler := Gzip.GzipHandler (Auth.AuthMiddleware Push.Push_).
Definition pull_handler : Mux.handler := Gzip.GzipHandler (Auth.AuthMiddleware Pull.Pull_).
Definition submit_handler : Mux.handler := Gzip.GzipHandler (Auth.AuthMiddleware Submit.Submit_).
Definition health_handler : Mux.handler := Gzip.GzipHandler Healthcheck.Healthcheck_.

(** [initRouter] *)
Definition initRouter : Mux.Router :=
  let router := Mux.NewRouter in
  let router := Mux.Handle "/v1/push/{app_id}/" push_handler (Mux.Methods ["GET"; "POST"]) router in
  let router := Mux.Handle "/v1/pull/{app_id}/" pull_handler (Mux.Methods ["POST"]) router in
  let router := Mux.Handle "/v1/submit/{app_id}/" submit_handler (Mux.Methods ["POST"]) router in
  let router := Mux.Handle "/v1/healthcheck/" health_handler (Mux.Methods ["GET"]) router in
  router.

(** Where [Start] listens. *)
Inductive listener := Plain (addr : string) | TLS (addr certFile keyFile : string).

(** [Start] up to the listening socket; the error of [CreateBuckets] is ignored. *)
Definition Start : MW (listener * Mux.Router) :=
  Db.CreateTables;;
  CreateBuckets;;
  let router := initRouter in
  env ← Getenv "SIPHON_ENV";
  if decide (env = "testing") then mret (Plain ":8000", router)
  else mret (TLS ":443" "/code/.keys/getsiphon-com-bundle.crt" "/code/.keys/host.pem", router).

(** [main] *)
Definition main : MW (listener * Mux.Router) := Start.

(** One request: a fresh response; a panic ends the connection, not the server. *)
Definition serve (req : request) : MW response := λ w,
  match Mux.ServeHTTP initRouter req (set_resp new_response w) with
  | (Crash (Fatal s), w') => (Crash (Fatal s), w')
  | (_, w') => (Ret (w_resp w'), w')
  end.

(** The endpoint a request is dispatched to, with its app ID. *)
Inductive endpoint := EPush (app : string) | EPull (app : string) | ESubmit (app : string) | EHealth.

Definition endpoint_of (req : request) (e : endpoint) : Prop :=
  let app_path pre app := rq_path req = pre +:+ app +:+ "/" ∧ app ≠ "" ∧ has_char slash app = false in
  match e with
  | EPush app => app_path "/v1/push/" app ∧ (rq_method req = "GET" ∨ rq_method req = "POST")
  | EPull app => app_path "/v1/pull/" app ∧ rq_method req = "POST"
  | ESubmit app => app_path "/v1/submit/" app ∧ rq_method req = "POST"
  | EHealth => rq_path req = "/v1/healthcheck/" ∧ rq_method req = "GET"
  end.
Definition endpoint_handler (e : endpoint) : Mux.handler :=
  match e with
  | EPush _ => push_handler | EPull _ => pull_handler
  | ESubmit _ => submit_handler | EHealth => health_handler
  end.
Definition endpoint_vars (e : endpoint) : gmap string string :=
  match e with
  | EPush app | EPull app | ESubmit app => {["app_id" := app]}
  | EHealth => ∅
  end.
Definition endpoint_index (e : endpoint) : nat :=
  match e with EPush _ => 0 | EPull _ => 1 | ESubmit _ => 2 | EHealth => 3 end.

(** The route table after the templates have been parsed. *)
Definition var_regexp (tpl pre : string) : Mux.routeRegexp :=
  Mux.mkRegexp tpl false false false [Mux.RLit pre; Mux.RGroup Mux.PNotSlash; Mux.RLit "/"; Mux.REnd]
    (pre +:+ "%s/") ["app_id"].
Definition lit_regexp (tpl : string) : Mux.routeRegexp :=
  Mux.mkRegexp tpl false false false [Mux.RLit tpl; Mux.REnd] tpl [].
Definition route (h : Mux.handler) (rr : Mux.routeRegexp) (methods : list string) : Mux.Route :=
  Mux.mkRoute (Some h) [Mux.MPath rr; Mux.MMethods methods] (Some rr) false false None.

Lemma initRouter_routes :
  initRouter = Mux.mkRouter None
    [route push_handler (var_regexp "/v1/push/{app_id}/" "/v1/push/") ["GET"; "POST"];
     route pull_handler (var_regexp "/v1/pull/{app_id}/" "/v1/pull/") ["POST"];
     route submit_handler (var_regexp "/v1/submit/{app_id}/" "/v1/submit/") ["POST"];
     route health_handler (lit_regexp "/v1/healthcheck/") ["GET"]] false false.
Proof. reflexivity. Qed.

Lemma matchInArray_true l v : Mux.matchInArray l v = true ↔ v ∈ l.
Proof.
  induction l as [|x l IH]; simpl; [by rewrite elem_of_nil|]. rewrite elem_of_cons.
  case_decide; [naive_solver|]. rewrite IH. naive_solver.
Qed.

(** A route with one variable. *)
Lemma var_route_match i h tpl pre methods req :
  match Mux.Route_Match i (route h (var_regexp tpl pre) methods) req Mux.new_match with
  | (true, m) => ∃ app, rq_path req = pre +:+ app +:+ "/" ∧ app ≠ "" ∧ has_char slash app = false ∧
      rq_method req ∈ methods ∧ m = Mux.mkMatch (Some i) (Some h) (Some {["app_id" := app]})
  | (false, m) => m = Mux.new_match ∧
      ¬ (∃ app, rq_path req = pre +:+ app +:+ "/" ∧ app ≠ "" ∧ has_char slash app = false ∧
           rq_method req ∈ methods)
  end.
Proof.
  rewrite /Mux.Route_Match /route. cbn [Mux.rt_buildOnly Mux.rt_err Mux.rt_matchers orb forallb].
  rewrite bool_decide_eq_false_2; [|by intros [? ?]].
  cbn [Mux.matcher_match Mux.rr_regexp var_regexp orb]. rewrite andb_true_r.
  destruct (Mux.re_match _ (rq_path req)) as [l|] eqn:Em.
  - pose proof Em as (app & -> & Hp & Hne & Hsl)%Mux.re_match_var.
    rewrite bool_decide_eq_true_2 //. cbn [andb].
    destruct (Mux.matchInArray methods (rq_method req)) eqn:Ea; cbn [negb].
    + apply matchInArray_true in Ea. exists app. split_and!; try done.
      rewrite /Mux.setMatch. cbn [Mux.rr_regexp var_regexp Mux.rt_path].
      by rewrite Em.
    + split; [done|]. intros (app' & _ & _ & _ & Hin). apply matchInArray_true in Hin. congruence.
  - cbn [andb negb bool_decide]. rewrite bool_decide_eq_false_2; [|by intros [? ?]]. cbn [andb negb].
    split; [done|]. intros (app & Hp & Hne & Hsl & _).
    assert (Mux.re_match [Mux.RLit pre; Mux.RGroup Mux.PNotSlash; Mux.RLit "/"; Mux.REnd] (rq_path req)
      = Some [app]) by (apply Mux.re_match_var; by exists app). congruence.
Qed.

Lemma lit_route_match i h tpl methods req :
  match Mux.Route_Match i (route h (lit_regexp tpl) methods) req Mux.new_match with
  | (true, m) => rq_path req = tpl ∧ rq_method req ∈ methods ∧
      m = Mux.mkMatch (Some i) (Some h) (Some ∅)
  | (false, m) => m = Mux.new_match ∧ ¬ (rq_path req = tpl ∧ rq_method req ∈ methods)
  end.
Proof.
  rewrite /Mux.Route_Match /route. cbn [Mux.rt_buildOnly Mux.rt_err Mux.rt_matchers orb forallb].
  rewrite bool_decide_eq_false_2; [|by intros [? ?]].
  cbn [Mux.matcher_match Mux.rr_regexp lit_regexp orb]. rewrite andb_true_r.
  pose proof (Mux.re_match_lit tpl (rq_path req)) as Hlit.
  destruct (decide (rq_path req = tpl)) as [Hp|Hp].
  - apply Hlit in Hp as Em. rewrite Em bool_decide_eq_true_2 //. cbn [andb].
    destruct (Mux.matchInArray methods (rq_method req)) eqn:Ea; cbn [negb].
    + apply matchInArray_true in Ea. split_and!; try done. rewrite /Mux.setMatch.
      cbn [Mux.rr_regexp lit_regexp Mux.rt_path]. by rewrite Em.
    + split; [done|]. intros [_ Hin%matchInArray_true]. congruence.
  - rewrite bool_decide_eq_false_2; cbn [andb negb]; [by split; [|intros [? _]]|].
    intros [l Hl]. apply Hp. cbn [Mux.re_match] in Hl.
    destruct (strip_prefix tpl (rq_path req)) as [t|] eqn:E; [|done]. case_decide; [|done].
    apply strip_prefix_Some in E as ->. subst t. apply str_app_nil_r.
Qed.

(** Which handler runs for which request: exactly the four endpoints, with the
    app ID taken from the path, which has no slash in it. *)
Lemma dispatch req :
  match Mux.Router_Match initRouter req Mux.new_match with
  | (true, m) => ∃ e, endpoint_of req e ∧
      m = Mux.mkMatch (Some (endpoint_index e)) (Some (endpoint_handler e)) (Some (endpoint_vars e))
  | (false, _) => ∀ e, ¬ endpoint_of req e
  end.
Proof.
  rewrite initRouter_routes /Mux.Router_Match. cbn [Mux.ro_routes Mux.match_routes].
  pose proof (var_route_match 0 push_handler "/v1/push/{app_id}/" "/v1/push/" ["GET"; "POST"] req) as H0'.
  destruct (Mux.Route_Match 0 _ _ _) as [[] m0].
  { destruct H0' as (app & ? & ? & ? & Hm & ->). exists (EPush app). split; [|done].
    split; [done|]. set_solver. }
  destruct H0' as [-> N0].
  pose proof (var_route_match 1 pull_handler "/v1/pull/{app_id}/" "/v1/pull/" ["POST"] req) as H1'.
  destruct (Mux.Route_Match 1 _ _ _) as [[] m1].
  { destruct H1' as (app & ? & ? & ? & Hm & ->). exists (EPull app). split; [|done].
    split; [done|]. set_solver. }
  destruct H1' as [-> N1].
  pose proof (var_route_match 2 submit_handler "/v1/submit/{app_id}/" "/v1/submit/" ["POST"] req) as H2'.
  destruct (Mux.Route_Match 2 _ _ _) as [[] m2].
  { destruct H2' as (app & ? & ? & ? & Hm & ->). exists (ESubmit app). split; [|done].
    split; [done|]. set_solver. }
  destruct H2' as [-> N2].
  pose proof (lit_route_match 3 health_handler "/v1/healthcheck/" ["GET"] req) as H3'.
  destruct (Mux.Route_Match 3 _ _ _) as [[] m3].
  { destruct H3' as (? & Hm & ->). exists EHealth. split; [|done]. split; [done|]. set_solver. }
  destruct H3' as [_ N3].
  intros [app|app|app|].
  - intros [(? & ? & ?) Hm]. apply N0. exists app. split_and!; try done. set_solver.
  - intros [(? & ? & ?) Hm]. apply N1. exists app. split_and!; try done. set_solver.
  - intros [(? & ? & ?) Hm]. apply N2. exists app. split_and!; try done. set_solver.
  - intros [? Hm]. apply N3. split; [done|]. set_solver.
Qed.

(** A request has at most one endpoint. *)
Lemma endpoint_unique req e e' : endpoint_of req e → endpoint_of req e' → e' = e.
Proof.
  assert (∀ pre a a' : string, rq_path req = pre +:+ a +:+ "/" → rq_path req = pre +:+ a' +:+ "/" →
    a' = a) as Hinj.
  { intros pre a a' -> E. by apply str_app_inj_l, str_app_inj_r in E. }
  destruct e, e'; rewrite /endpoint_of /=; intros He He'; destruct_and?; try done;
    first [f_equal; by eapply Hinj
          |match goal with E1 : rq_path _ = _, E2 : rq_path _ = _ |- _ =>
             rewrite E1 in E2; discriminate E2 end].
Qed.

(** Serving a request, endpoint by endpoint. *)
Lemma wp_routes_ServeHTTP req (Q : () → World → Prop) (C : crash → World → Prop) w :
  (∀ rs, Q tt (set_resp rs w)) →
  (∀ rs, Q tt (set_resp rs (set_ctx (Context.Clear (rq_id req) (w_ctx w)) w))) →
  (∀ e x, endpoint_of req e →
     Context.Get (rq_id req) Auth.varsKey x = Some (VVars (endpoint_vars e)) →
     Context.same_others (rq_id req) (w_ctx w) x →
     wp (endpoint_handler e req)
       (λ _ w', Q tt (set_ctx (Context.Clear (rq_id req) (w_ctx w')) w'))
       (λ c w', match c with
                | Fatal _ => C c w'
                | Panic _ => C c (set_ctx (Context.Clear (rq_id req) (w_ctx w')) w')
                end) (set_ctx x w)) →
  wp (Mux.ServeHTTP initRouter req) Q C w.
Proof.
  intros Hr Hnf Hh. rewrite /Mux.ServeHTTP. case_decide.
  { apply wp_bind, wp_on_resp, wp_on_resp. apply Hr. }
  pose proof (dispatch req) as Hd. destruct (Mux.Router_Match _ _ _) as [[] m].
  - destruct Hd as (e & He & ->). apply wp_bind, wp_bind, wp_ctx_set, wp_ctx_set.
    rewrite initRouter_routes. cbn [Mux.ro_keepContext Mux.m_handler Mux.m_vars Mux.m_route default].
    apply wp_defer.
    eapply wp_mono; [apply (Hh e); [done| |]|intros [] w' HQ; by apply wp_on_ctx|].
    + etrans; [by apply Context.Get_Set_ne|]. apply Context.Get_Set_eq.
    + etrans; [|apply Context.same_others_Set]. apply Context.same_others_Set.
    + intros [s|s] w' HC; [|done]. by apply wp_on_ctx.
  - apply wp_bind, wp_ret. rewrite initRouter_routes. cbn [Mux.ro_keepContext Mux.ro_notFound default].
    apply wp_defer, wp_on_resp, wp_on_ctx. apply Hnf.
Qed.

(** ** Authorisation at the door *)

(** The request carries a handshake that is signed and made for its endpoint. *)
Definition handshake_ok (r : request) (w : World) : Prop :=
  ∃ obj, Auth.decryptToken (FormValue r "handshake_token") = Ok (Some obj) ∧
    (Auth.verifyToken (FormValue r "handshake_token") (FormValue r "handshake_signature") w).1
      = Ret true ∧
    hs_action obj ∈ Auth.validActions ∧
    HasPrefix (rq_path r) ("/v1/" +:+ hs_action obj +:+ "/") = true ∧
    (hs_submission_id obj = "" ↔ hs_user_id obj ≠ "") ∧
    ∃ e, endpoint_of r e ∧ endpoint_vars e !! "app_id" = Some (hs_app_id obj).

(** Only the response and the values stored for the request changed. *)
Definition untouched (r : request) (w w' : World) : Prop :=
  ∃ rs x, w' = set_resp rs (set_ctx x w) ∧ Context.same_others (rq_id r) (w_ctx w) x.

(** ... and of these values none is left, unless the context is as it was. *)
Definition left_clean (r : request) (w w' : World) : Prop :=
  ∃ rs x, w' = set_resp rs (set_ctx x w) ∧ Context.same_others (rq_id r) (w_ctx w) x ∧
    (x = w_ctx w ∨ Context.data x !! rq_id r = None ∧ Context.datat x !! rq_id r = None).

Lemma untouched_clear r w w' :
  untouched r w w' → left_clean r w (set_ctx (Context.Clear (rq_id r) (w_ctx w')) w').
Proof.
  intros (rs & x & -> & Hx). exists rs, (Context.Clear (rq_id r) x). split_and!; [done| |].
  - etrans; [exact Hx|]. apply Context.same_others_clear.
  - right. by rewrite /= !lookup_delete_eq.
Qed.

Lemma wp_unauthorised_handler e req h x Q C w :
  ¬ handshake_ok req w → endpoint_of req e → e ≠ EHealth →
  Context.Get (rq_id req) Auth.varsKey x = Some (VVars (endpoint_vars e)) →
  Context.same_others (rq_id req) (w_ctx w) x →
  (∀ w', untouched req w w' → Q tt w') → (∀ s w', untouched req w w' → C (Panic s) w') →
  wp (Gzip.GzipHandler (Auth.AuthMiddleware h) req) Q C (set_ctx x w).
Proof.
  intros Hno He Hne Hx Ho HQ HC. apply Gzip.wp_GzipHandler. intros rs.
  apply Auth.wp_AuthMiddleware.
  - intros y obj [Ht Hs Ha Hp Hone Happ Hroute _ _] Hy _. exfalso. apply Hno. exists obj.
    split_and!; try done.
    + by rewrite (Auth.verifyToken_run _ _ w) in Hs; [|done|done]; injection Hs.
    + exists e. split; [done|].
      rewrite /= Hx in Hy. specialize (Hroute _ Hy). by destruct e; simplify_map_eq.
  - intros y msg Hy. assert (Context.same_others (rq_id req) (w_ctx w) y) by by etrans.
    split; [|intros rs']; apply HQ; by eexists _, _.
  - intros y s Hy. apply HC. eexists _, _. split; [done|]. by etrans.
Qed.

Lemma wp_unauthorised req w :
  ¬ handshake_ok req w → ¬ endpoint_of req EHealth →
  wp (Mux.ServeHTTP initRouter req) (λ _ w', left_clean req w w')
    (λ c w', left_clean req w w' ∧ ∃ s, c = Panic s) w.
Proof.
  intros Hno Hh. apply wp_routes_ServeHTTP.
  - intros rs. exists rs, (w_ctx w). split_and!; [by destruct w|done|by left].
  - intros rs. apply (untouched_clear req w (set_resp rs w)). exists rs, (w_ctx w).
    split; [by destruct w|done].
  - intros e x He Hx Ho.
    assert (e ≠ EHealth) as Hne by by intros ->.
    destruct e; [..|done]; eapply wp_unauthorised_handler; eauto using untouched_clear.
Qed.
End routes.
End Routes.
