(* ===== verification/Frame.v ===== *)
(** * What every request handler keeps

    A predicate on the world that survives each elementary step (a change of the
    files, of a store, of the context, a write to the response) survives every
    handler, whether it returns or panics, and no handler ends the process.  The
    class [Framed] collects the elementary steps; one lemma per operation of the
    program lifts it, found by the hint database [frame]. *)

From S2P Require Import Prelude GoStrings GoPath FileSys Context Services S3 Cache.
From S2P Require Import Db Metadata Archive Utils Icon Notifications Packager Push.
From S2P Require Import Submit Pull Healthcheck Auth Gzip Mux Routes.

Create HintDb frame.

(** The changes the program makes to a response. *)
Inductive resp_op `{Services} : (response → response) → Prop :=
| op_write b : resp_op (Write_ b)
| op_error msg code : resp_op (HttpError msg code)
| op_header_set k v : resp_op (HeaderSet k v)
| op_header_add k v : resp_op (HeaderAdd k v)
| op_status code : resp_op (WriteHeader code)
| op_reset : resp_op Gzip.gzip_reset
| op_close : resp_op Gzip.gzip_close.
#[export] Hint Constructors resp_op : frame.

Section frame.
Context `{Services}.

Class Framed (P : World → Prop) := {
  fr_fs : ∀ x w, P w → P (set_fs x w);
  fr_pg : ∀ x w, P w → P (set_pg x w);
  fr_mc : ∀ x w, P w → P (set_mc x w);
  fr_s3 : ∀ x w, P w → P (set_s3 x w);
  fr_ex : ∀ x w, P w → P (set_ex x w);
  fr_web : ∀ x w, P w → P (set_web x w);
  fr_mq : ∀ x w, P w → P (set_mq x w);
  fr_ctx : ∀ x w, P w → P (set_ctx x w);
  fr_tick : ∀ x w, P w → P (set_tick x w);
  fr_resp : ∀ f w, resp_op f → P w → P (set_resp (f (w_resp w)) w);
}.

Context (P : World → Prop) `{!Framed P}.

(** The computation keeps [P] and does not end the process. *)
Definition kept {A} (m : MW A) : Prop :=
  ∀ w, P w → wp m (λ _ w', P w') (λ c w', P w' ∧ ∀ s, c ≠ Fatal s) w.

Lemma kept_ret {A} (a : A) : kept (mret a).
Proof. by intros w Hw. Qed.
Lemma kept_bind {A B} (m : MW A) (f : A → MW B) : kept m → (∀ a, kept (f a)) → kept (m ≫= f).
Proof.
  intros Hm Hf w Hw. apply wp_bind. eapply wp_mono; [by apply Hm| |done]. intros a w' Hw'. by apply Hf.
Qed.
Lemma kept_throw {A} s : kept (A:=A) (throw (Panic s)).
Proof. by intros w Hw. Qed.
Lemma kept_nil {A} : kept (A:=A) (throw nil_deref).
Proof. by intros w Hw. Qed.
Lemma kept_gets {A} (f : World → A) : kept (gets f).
Proof. by intros w Hw. Qed.
Lemma kept_try_then m k : kept m → kept k → kept (try_then m k).
Proof. intros Hm Hk. apply kept_bind; [done|]. intros [e|]; [apply kept_ret|done]. Qed.
Lemma kept_bindR {A B} (m : MW (result A)) (k : A → MW (result B)) :
  kept m → (∀ a, kept (k a)) → kept (bindR m k).
Proof. intros Hm Hk. apply kept_bind; [done|]. intros [a|e]; [done|apply kept_ret]. Qed.
Lemma kept_range_err {A} (l : list A) body : (∀ x, kept (body x)) → kept (range_err l body).
Proof. intros Hb. induction l as [|x l IH]; simpl; [apply kept_ret|]. by apply kept_try_then. Qed.
Lemma kept_range_acc {A B} (l : list A) (b : B) body :
  (∀ x b, kept (body x b)) → kept (range_acc l b body).
Proof.
  intros Hb. revert b. induction l as [|x l IH]; intros b; simpl; [apply kept_ret|]. by apply kept_bindR.
Qed.
Lemma kept_range_st {S A} (l : list A) (s : S) body : (∀ x s, kept (body x s)) → kept (range_st l s body).
Proof.
  intros Hb. revert s. induction l as [|x l IH]; intros s; simpl; [apply kept_ret|].
  apply kept_bind; [done|]. intros [[e|] s']; [apply kept_ret|apply IH].
Qed.
Lemma kept_defer {A} (d : MW ()) (m : MW A) : kept d → kept m → kept (defer d m).
Proof.
  intros Hd Hm w Hw. apply wp_defer. eapply wp_mono; [by apply Hm|..].
  - intros a w' Hw'. eapply wp_mono; [by apply Hd|done|done].
  - intros [s|s] w' [Hw' Hc]; [|by destruct (Hc s)]. eapply wp_mono; [by apply Hd| |done]. by intros.
Qed.

(** Elementary steps. *)
Lemma kept_Getenv k : kept (Getenv k).
Proof. by apply kept_gets. Qed.
Lemma kept_read_fs {A} (op : fsys → A) : kept (read_fs op).
Proof. by apply kept_gets. Qed.
Lemma kept_on_pg {A} (op : pgT → A * pgT) : kept (on_pg op).
Proof. intros w Hw. apply wp_on_pg. intros. by apply fr_pg. Qed.
Lemma kept_on_mc {A} (op : mcT → A * mcT) : kept (on_mc op).
Proof. intros w Hw. apply wp_on_mc. intros. by apply fr_mc. Qed.
Lemma kept_on_s3 {A} (op : s3T → A * s3T) : kept (on_s3 op).
Proof. intros w Hw. apply wp_on_s3. intros. by apply fr_s3. Qed.
Lemma kept_on_fs {A} (op : fsys → A * fsys) : kept (on_fs op).
Proof. intros w Hw. apply wp_on_fs. intros. by apply fr_fs. Qed.
Lemma kept_on_web {A} (op : webT → A * webT) : kept (on_web op).
Proof. intros w Hw. apply wp_on_web. intros. by apply fr_web. Qed.
Lemma kept_on_mq {A} (op : mqT → A * mqT) : kept (on_mq op).
Proof. intros w Hw. apply wp_on_mq. intros. by apply fr_mq. Qed.
Lemma kept_on_resp f : resp_op f → kept (on_resp f).
Proof. intros Hf w Hw. by apply wp_on_resp, fr_resp. Qed.
Lemma kept_on_ctx f : kept (on_ctx f).
Proof. intros w Hw. by apply wp_on_ctx, fr_ctx. Qed.
Lemma kept_ctx_get r k : kept (ctx_get r k).
Proof. by apply kept_gets. Qed.
Lemma kept_ctx_set r k v : kept (ctx_set r k v).
Proof. intros w Hw. by apply wp_ctx_set, fr_ctx. Qed.
Lemma kept_ctx_string r k : kept (ctx_string r k).
Proof. apply kept_bind; [apply kept_ctx_get|]. intros [[]|]; [apply kept_ret|apply kept_throw..]. Qed.
Lemma kept_run_sh s : kept (run_sh s).
Proof. intros w Hw. apply wp_run_sh. intros. by apply fr_ex, fr_fs. Qed.
Lemma kept_range_map m : kept (range_map m).
Proof. intros w Hw. apply wp_range_map. intros. by apply fr_tick. Qed.
Lemma kept_TempDir pre : kept (TempDir pre).
Proof. intros w Hw. apply wp_TempDir; intros; by try apply fr_fs. Qed.
End frame.

#[export] Hint Resolve kept_ret kept_throw kept_nil kept_gets kept_Getenv kept_read_fs kept_on_pg kept_on_mc
  kept_on_s3 kept_on_fs kept_on_web kept_on_mq kept_on_resp kept_on_ctx kept_ctx_get kept_ctx_set
  kept_ctx_string kept_run_sh kept_range_map kept_TempDir : frame.

(** Follow the structure of a computation; the leaves are in the database. *)
Ltac kept_step :=
  match goal with
  | |- kept _ (let '(_, _) := ?x in _) => destruct x
  | |- kept _ (match ?x with _ => _ end) => destruct x
  | |- kept _ ((let '(_, _) := ?x in _) _) => destruct x
  | |- kept _ (if ?x then _ else _) => destruct x
  | |- ∀ _, _ => intros ?
  | |- kept _ _ => solve [eauto 4 with frame typeclass_instances]
  | |- kept _ (_ ≫= _) => apply kept_bind
  | |- kept _ (try_then _ _) => apply kept_try_then
  | |- kept _ (bindR _ _) => apply kept_bindR
  | |- kept _ (range_err _ _) => apply kept_range_err
  | |- kept _ (range_acc _ _ _) => apply kept_range_acc
  | |- kept _ (range_st _ _ _) => apply kept_range_st
  | |- kept _ (defer _ _) => apply kept_defer
  end.
Ltac kept_tac := repeat (cbv beta zeta; kept_step).

(** ** The operations of the program *)
Section program.
Context `{Services} (P : World → Prop) `{!Framed P}.

Lemma kept_retry n op err : kept P op → kept P (retry n op err).
Proof. intros Hop. revert err. induction n as [|n IH]; intros err; simpl; kept_tac. Qed.
Lemma kept_retry_get n op err : kept P op → kept P (retry_get n op err).
Proof. intros Hop. revert err. induction n as [|n IH]; intros err; simpl; kept_tac. Qed.
Hint Resolve kept_retry kept_retry_get : frame.

Lemma kept_Open x : kept P (Open x).
Proof. rewrite /Open /getBucketName. kept_tac. Qed.
Lemma kept_WriteKey x k b : kept P (WriteKey x k b).
Proof. rewrite /WriteKey /with_bucket. kept_tac. Qed.
Lemma kept_DeleteKey x k : kept P (DeleteKey x k).
Proof. rewrite /DeleteKey /with_bucket. kept_tac. Qed.
Lemma kept_GetKey x k : kept P (GetKey x k).
Proof. rewrite /GetKey /with_bucket. kept_tac. Qed.
Hint Resolve kept_Open kept_WriteKey kept_DeleteKey kept_GetKey : frame.

Lemma kept_NewCache a s : kept P (Cache.NewCache a s).
Proof. rewrite /Cache.NewCache. kept_tac. Qed.
Lemma kept_cacheMiss c k : kept P (Cache.cacheMiss c k).
Proof. rewrite /Cache.cacheMiss. kept_tac. Qed.
Hint Resolve kept_NewCache kept_cacheMiss : frame.
Lemma kept_Get c k : kept P (Cache.Get c k).
Proof. rewrite /Cache.Get. kept_tac. Qed.
Lemma kept_Set c k b : kept P (Cache.Set_ c k b).
Proof. rewrite /Cache.Set_. kept_tac. Qed.
Lemma kept_Delete c k : kept P (Cache.Delete c k).
Proof. rewrite /Cache.Delete. kept_tac. Qed.
Hint Resolve kept_Get kept_Set kept_Delete : frame.
Lemma kept_GetBundleFooter c n : kept P (Cache.GetBundleFooter c n).
Proof. by apply kept_Get. Qed.
Lemma kept_SetBundleFooter c b n : kept P (Cache.SetBundleFooter c b n).
Proof. by apply kept_Set. Qed.
Hint Resolve kept_GetBundleFooter kept_SetBundleFooter : frame.

Lemma kept_Query db sql args : kept P (Db.Query db sql args).
Proof. by apply kept_on_pg. Qed.
Lemma kept_CloseRows r : kept P (Db.CloseRows r).
Proof. rewrite /Db.CloseRows. kept_tac. Qed.
Hint Resolve kept_Query kept_CloseRows : frame.
Lemma kept_OpenDB : kept P Db.OpenDB.
Proof. by intros w Hw. Qed.
Lemma kept_AddFile db a s n h : kept P (Db.AddFile db a s n h).
Proof. rewrite /Db.AddFile. kept_tac. Qed.
Lemma kept_UpdateFile db a s n h : kept P (Db.UpdateFile db a s n h).
Proof. rewrite /Db.UpdateFile. kept_tac. Qed.
Lemma kept_DeleteFile db a s n : kept P (Db.DeleteFile db a s n).
Proof. rewrite /Db.DeleteFile. kept_tac. Qed.
Lemma kept_GetFilteredFiles db a s l : kept P (Db.GetFilteredFiles db a s l).
Proof. rewrite /Db.GetFilteredFiles. kept_tac. Qed.
Lemma kept_GetSliceFilteredFiles db a s l : kept P (Db.GetSliceFilteredFiles db a s l).
Proof. rewrite /Db.GetSliceFilteredFiles. kept_tac. Qed.
Hint Resolve kept_OpenDB kept_AddFile kept_UpdateFile kept_DeleteFile kept_GetFilteredFiles
  kept_GetSliceFilteredFiles : frame.
Lemma kept_GetFiles db a s : kept P (Db.GetFiles db a s).
Proof. by apply kept_GetFilteredFiles. Qed.
Lemma kept_GetFile db a s n : kept P (Db.GetFile db a s n).
Proof. rewrite /Db.GetFile. kept_tac. Qed.
Lemma kept_resourceExists db n i : kept P (Db.resourceExists db n i).
Proof. rewrite /Db.resourceExists. kept_tac. Qed.
Hint Resolve kept_GetFiles kept_GetFile kept_resourceExists : frame.
Lemma kept_MakeSnapshot db a s : kept P (Db.MakeSnapshot db a s).
Proof. rewrite /Db.MakeSnapshot. kept_tac. Qed.
Hint Resolve kept_MakeSnapshot : frame.

Lemma kept_parseListingFile a : kept P (Archive.parseListingFile a).
Proof. rewrite /Archive.parseListingFile. kept_tac. Qed.
Lemma kept_GetMetadata a : kept P (Archive.GetMetadata a).
Proof. rewrite /Archive.GetMetadata. kept_tac. Qed.
Hint Resolve kept_parseListingFile kept_GetMetadata : frame.
Lemma kept_Compare a f : kept P (Archive.Compare a f).
Proof. rewrite /Archive.Compare. kept_tac. Qed.
Lemma kept_Decompress a b : kept P (Archive.Decompress a b).
Proof. rewrite /Archive.Decompress. kept_tac. Qed.
Lemma kept_Close a : kept P (Archive.Close a).
Proof. rewrite /Archive.Close. kept_tac. Qed.
Hint Resolve kept_Compare kept_Decompress kept_Close : frame.

Lemma kept_deref {A} (p : option A) : kept P (deref p).
Proof. rewrite /deref. kept_tac. Qed.
Lemma kept_BufferLine s : kept P (BufferLine s).
Proof. rewrite /BufferLine. kept_tac. Qed.
Lemma kept_Cleanup d : kept P (Cleanup d).
Proof. rewrite /Cleanup. kept_tac. Qed.
Hint Resolve kept_deref kept_BufferLine kept_Cleanup : frame.
Lemma kept_FilesToTemp f a c : kept P (FilesToTemp f a c).
Proof. rewrite /FilesToTemp /temp_content. kept_tac. Qed.
Hint Resolve kept_FilesToTemp : frame.

Lemma kept_GetIcons d f : kept P (Icon.GetIcons d f).
Proof. rewrite /Icon.GetIcons /Icon.icon_step /Icon.slice_to. kept_tac. Qed.
Lemma kept_PostAppUpdated a u : kept P (PostAppUpdated a u).
Proof. rewrite /PostAppUpdated /amqpURI. kept_tac. Qed.
Lemma kept_CleanupFooters f : kept P (Packager.CleanupFooters f).
Proof. rewrite /Packager.CleanupFooters. kept_tac. Qed.
Lemma kept_MakeBundleFooters d v : kept P (Packager.MakeBundleFooters d v).
Proof.
  rewrite /Packager.MakeBundleFooters /Packager.dummy_footers /Packager.packager /Packager.cleanup. kept_tac.
Qed.
Hint Resolve kept_GetIcons kept_PostAppUpdated kept_CleanupFooters kept_MakeBundleFooters : frame.
Lemma kept_MakeBundleFootersTmp db a s ar v : kept P (Packager.MakeBundleFootersTmp db a s ar v).
Proof. rewrite /Packager.MakeBundleFootersTmp. kept_tac. Qed.
Hint Resolve kept_MakeBundleFootersTmp : frame.

(** *** /push *)
Lemma kept_internalError : kept P Push.internalError.
Proof. rewrite /Push.internalError. kept_tac. Qed.
Lemma kept_expectedError e : kept P (Push.expectedError e).
Proof. rewrite /Push.expectedError. kept_tac. Qed.
Lemma kept_log s : kept P (Push.log s).
Proof. by apply kept_BufferLine. Qed.
Lemma kept_MakeJSONHashes a : kept P (Push.MakeJSONHashes a).
Proof. rewrite /Push.MakeJSONHashes. kept_tac. Qed.
Hint Resolve kept_internalError kept_expectedError kept_log kept_MakeJSONHashes : frame.
Lemma kept_writeHashesResponse a : kept P (Push.writeHashesResponse a).
Proof. rewrite /Push.writeHashesResponse. kept_tac. Qed.
Lemma kept_remove ns h : kept P (Push.remove ns h).
Proof. rewrite /Push.remove /Push.remove_step /Push.protectHash. kept_tac. Qed.
Lemma kept_update ns a h : kept P (Push.update ns a h).
Proof. rewrite /Push.update /Push.update_step. kept_tac. Qed.
Lemma kept_putMetadata h : kept P (Push.putMetadata h).
Proof. rewrite /Push.putMetadata. kept_tac. Qed.
Lemma kept_loadMetaData h : kept P (Push.loadMetaData h).
Proof. rewrite /Push.loadMetaData. kept_tac. Qed.
Lemma kept_store_footer h f p pl : kept P (Push.store_footer h f p pl).
Proof. rewrite /Push.store_footer. kept_tac. Qed.
Hint Resolve kept_writeHashesResponse kept_remove kept_update kept_putMetadata kept_loadMetaData
  kept_store_footer : frame.
Lemma kept_handle_sync h : kept P (Push.handle_sync h).
Proof. rewrite /Push.handle_sync /Push.apply_comparison. kept_tac. Qed.
Lemma kept_handle_publish h : kept P (Push.handle_publish h).
Proof. rewrite /Push.handle_publish /Push.handle_finish. kept_tac. Qed.
Hint Resolve kept_handle_sync kept_handle_publish : frame.
(** The part of [handle] after the archive has been unpacked. *)
Lemma kept_handle r h : kept P (Push.handle r h).
Proof. rewrite /Push.handle /Push.decompress. kept_tac. Qed.
Hint Resolve kept_handle : frame.
Lemma kept_Push r : kept P (Push.Push_ r).
Proof. rewrite /Push.Push_ /Push.newPushHandler. kept_tac. Qed.

(** *** /submit, /pull, /healthcheck *)
Lemma kept_Submit r : kept P (Submit.Submit_ r).
Proof.
  rewrite /Submit.Submit_ /Submit.newSubmitHandler /Submit.handle /Submit.copyFiles /Submit.loadMetaData
    /Submit.makeBundleFooter /Submit.store_footer /Submit.internalError /Db.SubmissionExists /Db.AppExists.
  kept_tac.
Qed.
Lemma kept_Pull r : kept P (Pull.Pull_ r).
Proof.
  rewrite /Pull.Pull_ /Pull.pull_body /Pull.newPullArchive /Pull.assertNotEmpty /Pull.getAssetFiles
    /Pull.writeAssetsListing /Pull.writeAssets /Pull.writeBundleFooter /Pull.writeZip /Pull.internal
    /Pull.close. kept_tac.
Qed.
Lemma kept_Healthcheck r : kept P (Healthcheck.Healthcheck_ r).
Proof. rewrite /Healthcheck.Healthcheck_ /Healthcheck.say. kept_tac. Qed.

(** *** The wrappers and the router *)
Lemma kept_AuthMiddleware h r : (∀ r, kept P (h r)) → kept P (Auth.AuthMiddleware h r).
Proof.
  intros Hh. rewrite /Auth.AuthMiddleware /Auth.route_var /Auth.verifyToken /Auth.unauthorized. kept_tac.
Qed.
Lemma kept_GzipHandler h r : (∀ r, kept P (h r)) → kept P (Gzip.GzipHandler h r).
Proof. intros Hh. rewrite /Gzip.GzipHandler. kept_tac. Qed.

Lemma kept_endpoint e r : kept P (Routes.endpoint_handler e r).
Proof.
  destruct e; apply kept_GzipHandler; intros r'; try apply kept_AuthMiddleware;
    eauto using kept_Push, kept_Pull, kept_Submit, kept_Healthcheck.
Qed.
End program.
#[export] Hint Resolve kept_retry kept_retry_get kept_Open kept_WriteKey kept_DeleteKey kept_GetKey
  kept_NewCache kept_cacheMiss kept_Get kept_Set kept_Delete kept_GetBundleFooter kept_SetBundleFooter
  kept_Query kept_CloseRows kept_OpenDB kept_AddFile kept_UpdateFile kept_DeleteFile
  kept_GetFilteredFiles kept_GetSliceFilteredFiles kept_GetFiles kept_GetFile kept_resourceExists
  kept_MakeSnapshot kept_parseListingFile kept_GetMetadata kept_Compare kept_Decompress kept_Close
  kept_deref kept_BufferLine kept_Cleanup kept_FilesToTemp kept_GetIcons kept_PostAppUpdated
  kept_CleanupFooters kept_MakeBundleFooters kept_MakeBundleFootersTmp kept_internalError
  kept_expectedError kept_log kept_MakeJSONHashes kept_writeHashesResponse kept_remove kept_update
  kept_putMetadata kept_loadMetaData kept_store_footer kept_handle_sync kept_handle_publish kept_handle
  kept_Push kept_Submit kept_Pull kept_Healthcheck kept_AuthMiddleware kept_GzipHandler kept_endpoint :
  frame.
