(* ===== verification/Simulated.v ===== *)
(** * A simulated deployment

    Executable services that satisfy the laws the components are verified
    against: a PostgreSQL that parses the statements of [Db], a memcached, an S3,
    a packager, a front end and a broker, and small concrete codecs in the place
    of Go's JSON, zip and PNG packages.  Every law assumed elsewhere is proved of
    them here, so the assumptions can be met, and whole requests can be run. *)

From S2P Require Import Prelude GoStrings GoPath FileSys Context Services S3 Cache.
From S2P Require Import Db.

Module Simulated.

(** ** PostgreSQL *)

(** The table, and for each coming query whether it fails. *)
Record simpg := mkPg {
  pg_rows : gmap Db.fkey string;
  pg_faults : list bool;
}.

(** Reading a submission clause. *)
Definition parse_clause (s : string) : option (string * string) :=
  match strip_prefix (Db.subClause "") s with
  | Some t => Some ("", t)
  | None =>
      match strip_prefix "submission_id = '" s with
      | Some t => take_until squote t
      | None => None
      end
  end.

Definition no_rows : result sqlrows := Ok (mkRows [] None).
Definition syntax_error : result sqlrows := Err (ErrorS "syntax error").

Definition sim_insert (args : list string) (m : gmap Db.fkey string) : result sqlrows * gmap Db.fkey string :=
  match args with
  | [sub; app; name; hash] =>
      match m !! (app, Some sub, name) with
      | None => (no_rows, <[(app, Some sub, name) := hash]> m)
      | Some _ => (Err (ErrorS "duplicate key"), m)
      end
  | _ => (syntax_error, m)
  end.
Definition sim_update (rest : string) (args : list string) (m : gmap Db.fkey string) :
    result sqlrows * gmap Db.fkey string :=
  match parse_clause rest, args with
  | Some (sub, tail), [hash; app; name] =>
      if decide (tail = " AND name = $3") then (no_rows, Db.upd_rows app sub name hash m)
      else (syntax_error, m)
  | _, _ => (syntax_error, m)
  end.
Definition sim_delete (rest : string) (args : list string) (m : gmap Db.fkey string) :
    result sqlrows * gmap Db.fkey string :=
  match parse_clause rest, args with
  | Some (sub, tail), [app; name] =>
      if decide (tail = " AND name = $2") then (no_rows, Db.del_rows app sub name m)
      else (syntax_error, m)
  | _, _ => (syntax_error, m)
  end.
Definition sim_select (rest : string) (args : list string) (m : gmap Db.fkey string) : result sqlrows :=
  match parse_clause rest, args with
  | Some (sub, tail), app :: likes =>
      if decide (tail = " AND name LIKE $2") then
        match likes with
        | [like] => Ok (mkRows (Db.to_row <$> Db.sel_rows app sub (Db.like_match like) m) None)
        | _ => syntax_error
        end
      else if decide (tail = " AND name LIKE " +:+ Db.any_array (length likes)) then
        Ok (mkRows (Db.to_row <$>
              Db.sel_rows app sub (λ n, existsb (λ p, Db.like_match p n) likes) m) None)
      else syntax_error
  | _, _ => syntax_error
  end.
Definition sim_count (sql : string) (args : list string) (m : gmap Db.fkey string) : result sqlrows :=
  match args with
  | [id] =>
      if decide (sql = Db.count_sql "app_id") then
        Ok (mkRows [[SInt (Z.of_nat (size (filter (λ kv : Db.fkey * string, kv.1.1.1 = id) m)))]] None)
      else if decide (sql = Db.count_sql "submission_id") then
        Ok (mkRows [[SInt (Z.of_nat (size (filter (λ kv : Db.fkey * string, kv.1.1.2 = Some id) m)))]] None)
      else syntax_error
  | _ => syntax_error
  end.

Definition sim_exec (sql : string) (args : list string) (m : gmap Db.fkey string) :
    result sqlrows * gmap Db.fkey string :=
  match strip_prefix "INSERT INTO files" sql with
  | Some _ => sim_insert args m
  | None =>
  match strip_prefix "UPDATE files SET hash = $1 WHERE app_id = $2 AND " sql with
  | Some rest => sim_update rest args m
  | None =>
  match strip_prefix "DELETE FROM files WHERE app_id = $1 AND " sql with
  | Some rest => sim_delete rest args m
  | None =>
  match strip_prefix "SELECT name, hash FROM files WHERE app_id = $1 AND " sql with
  | Some rest => (sim_select rest args m, m)
  | None =>
  match strip_prefix "SELECT count(*)" sql with
  | Some _ => (sim_count sql args m, m)
  | None => (no_rows, m)
  end end end end end.

#[export] Instance sim_pg : PgOps simpg := {
  db_query _ sql args s :=
    match pg_faults s with
    | true :: fs => (Err (ErrorS "connection refused"), mkPg (pg_rows s) fs)
    | fs => let '(r, m) := sim_exec sql args (pg_rows s) in (r, mkPg m (tl fs))
    end;
}.

(** ** The laws *)
#[local] Arguments String.append !_ _ / : simpl nomatch.

Lemma parse_subClause sub tail :
  has_char squote sub = false → parse_clause (Db.subClause sub +:+ tail) = Some (sub, tail).
Proof.
  intros Hs. rewrite /parse_clause. destruct (decide (sub = "")) as [->|Hne].
  - by rewrite strip_prefix_app.
  - assert (Db.subClause sub = "submission_id = '" +:+ sub +:+ "'") as ->.
    { rewrite /Db.subClause. by case_decide. }
    rewrite -!str_app_assoc. change (strip_prefix (Db.subClause "") _) with (@None string).
    rewrite strip_prefix_app. by apply take_until_app.
Qed.

Lemma sim_query_cases db sql args s r s' :
  db_query (T:=simpg) db sql args s = (r, s') →
  (∃ e, r = Err e ∧ pg_rows s' = pg_rows s) ∨ (r, pg_rows s') = sim_exec sql args (pg_rows s).
Proof.
  simpl. destruct (pg_faults s) as [|[] fs].
  - destruct (sim_exec _ _ _) as [r0 m]. intros [= <- <-]. by right.
  - intros [= <- <-]. left. eauto.
  - destruct (sim_exec _ _ _) as [r0 m]. intros [= <- <-]. by right.
Qed.

(** How each statement is recognised. *)
Lemma sim_exec_insert args m : sim_exec Db.insert_sql args m = sim_insert args m.
Proof. done. Qed.
Lemma sim_exec_update sub args m :
  has_char squote sub = false →
  sim_exec (Db.update_sql (Db.subClause sub)) args m =
    match args with
    | [hash; app; name] => (no_rows, Db.upd_rows app sub name hash m)
    | _ => (syntax_error, m)
    end.
Proof.
  intros Hs. trans (sim_update (Db.subClause sub +:+ " AND name = $3") args m); [done|].
  rewrite /sim_update parse_subClause //.
Qed.
Lemma sim_exec_delete sub args m :
  has_char squote sub = false →
  sim_exec (Db.delete_sql (Db.subClause sub)) args m =
    match args with
    | [app; name] => (no_rows, Db.del_rows app sub name m)
    | _ => (syntax_error, m)
    end.
Proof.
  intros Hs. trans (sim_delete (Db.subClause sub +:+ " AND name = $2") args m); [done|].
  rewrite /sim_delete parse_subClause //.
Qed.
Lemma sim_exec_select sub like args m :
  sim_exec (Db.select_sql (Db.subClause sub) like) args m =
    (sim_select (Db.subClause sub +:+ " AND name LIKE " +:+ like) args m, m).
Proof. done. Qed.

Lemma any_array_not_var n : Db.any_array n ≠ "$2".
Proof. done. Qed.

#[export] Instance sim_pg_laws : Db.PgLaws simpg.
Proof.
  refine {| Db.pg_view := λ _ s, pg_rows s |}.
  - intros db sub app name hash s. destruct (db_query _ _ _ _) as [r s'] eqn:E.
    apply sim_query_cases in E as [(e & -> & Hs)|E]; [by left|].
    rewrite sim_exec_insert /sim_insert in E.
    destruct (pg_rows s !! (app, Some sub, name)) eqn:El; injection E as -> ->; [by left|done].
  - intros db sub app name hash s Hs. destruct (db_query _ _ _ _) as [r s'] eqn:E.
    apply sim_query_cases in E as [(e & -> & Hs')|E]; [by left|].
    rewrite sim_exec_update // in E. by injection E as -> ->.
  - intros db sub app name s Hs. destruct (db_query _ _ _ _) as [r s'] eqn:E.
    apply sim_query_cases in E as [(e & -> & Hs')|E]; [by left|].
    rewrite sim_exec_delete // in E. by injection E as -> ->.
  - intros db sub app like s Hs _. destruct (db_query _ _ _ _) as [r s'] eqn:E.
    apply sim_query_cases in E as [(e & -> & Hs')|E]; [by split|].
    rewrite sim_exec_select in E. injection E as -> ->. split; [done|].
    intros rs. rewrite /sim_select parse_subClause //. case_decide; [|done]. intros [= <-]. exact (Permutation_refl _).
  - intros db sub app likes s Hs _ Hne. destruct (db_query _ _ _ _) as [r s'] eqn:E.
    apply sim_query_cases in E as [(e & -> & Hs')|E]; [by split|].
    rewrite sim_exec_select in E. injection E as -> ->. split; [done|].
    intros rs. rewrite /sim_select parse_subClause //.
    case_decide as F; [by apply (str_app_inj_l " AND name LIKE ") in F|].
    case_decide; [|done]. intros [= <-]. exact (Permutation_refl _).
  - intros db app s. destruct (db_query _ _ _ _) as [r s'] eqn:E.
    apply sim_query_cases in E as [(e & -> & Hs')|E]; [by split|].
    injection E as -> ->. split; [done|]. intros rs [= <-]. exact (Permutation_refl _).
  - intros db sub s. destruct (db_query _ _ _ _) as [r s'] eqn:E.
    apply sim_query_cases in E as [(e & -> & Hs')|E]; [by split|].
    injection E as -> ->. split; [done|]. intros rs [= <-]. exact (Permutation_refl _).
Defined.

#[export] Instance sim_pg_stable : Db.PgStable simpg.
Proof.
  intros db sql args s rs s' E. apply sim_query_cases in E as [(e & [=] & _)|E].
  revert E. generalize (pg_rows s) as m. intros m. generalize (pg_rows s') as m'. intros m'.
  rewrite /sim_exec /sim_insert /sim_update /sim_delete /sim_select /sim_count.
  repeat case_match; by intros [=]; subst.
Qed.

(** ** memcached and S3 *)
Abbreviation simmc := (gmap string (gmap string string)).
Definition mc_host (h : string) (s : simmc) : gmap string string := default ∅ (s !! h).

#[export] Instance sim_mc : McOps simmc := {
  mc_get h k s :=
    match mc_host h s !! k with Some v => (Ok v, s) | None => (Err ErrCacheMiss, s) end;
  mc_set h k v s := (None, <[h := <[k := v]> (mc_host h s)]> s);
  mc_delete h k s :=
    match mc_host h s !! k with
    | Some _ => (None, <[h := delete k (mc_host h s)]> s)
    | None => (Some ErrCacheMiss, s)
    end;
}.

#[export] Instance sim_mc_laws : McLaws simmc.
Proof.
  refine {| mc_view := mc_host |}.
  - intros h k s. simpl. by destruct (mc_host h s !! k) eqn:E.
  - intros h k v s. simpl. by rewrite /mc_host lookup_insert_eq.
  - intros h k s. simpl. destruct (mc_host h s !! k) eqn:E; simpl.
    + by rewrite {1}/mc_host lookup_insert_eq.
    + split; [done|]. intros _. by rewrite delete_id.
Defined.

Abbreviation sims3 := (gmap (string * string) string).

#[export] Instance sim_s3 : S3Ops sims3 := {
  s3_put b k v s := (None, <[(b, k) := v]> s);
  s3_get b k s :=
    match s !! (b, k) with Some v => (Ok v, s) | None => (Err (S3Error 404 "NoSuchKey" "no such key"), s) end;
  s3_del b k s := (None, delete (b, k) s);
  s3_put_bucket _ s := (None, s);
}.

#[export] Instance sim_s3_laws : S3Laws sims3.
Proof.
  refine {| s3_view := λ s : sims3, s |}; simpl; try done.
  - intros b k s. by destruct (s !! (b, k)).
  - intros b k s. by right.
Defined.

(** ** The packager, the front end and the broker *)
Definition footer_dir : string := "/tmp/siphon-packager-tmp-1".
#[export] Instance sim_exec_ops : ExecOps nat := {
  sh_run script f n :=
    let '(_, f) := MkdirAll f footer_dir in
    let '(_, f) := WriteFile f (footer_dir +:+ "/ios") ("ios:" +:+ script) in
    let '(_, f) := WriteFile f (footer_dir +:+ "/android") ("android:" +:+ script) in
    (inl footer_dir, (f, S n));
}.
#[export] Instance sim_web : WebOps (list string) := {
  web_put url _ body log := (Ok (200%Z, Ok ""), log ++ [url +:+ " " +:+ body]);
}.
#[export] Instance sim_mq : MqOps (list string) := {
  mq_dial _ s := (None, s);
  mq_channel s := (None, s);
  mq_exchange_declare _ _ _ _ _ _ s := (None, s);
  mq_publish _ _ _ _ _ body s := (None, s ++ [body]);
  mq_close s := s;
}.

(** ** Codecs *)

(** [name=hash;name=hash...]; [null] for a nil map. *)
Definition sim_pairs (s : string) : result (option (gmap string string)) :=
  if decide (s = "null") then Ok None
  else if decide (s = "{}") then Ok (Some ∅)
  else
    foldr (λ x acc,
      match Split x "="%char, acc with
      | [n; h], Ok (Some m) => Ok (Some (<[n := h]> m))
      | _, _ => Err (ErrorS "invalid character")
      end) (Ok (Some ∅)) (Split s ";"%char).

(** [name:content|name:content...]; names ending in a slash are directories, an
    arrow marks a symbolic link. *)
Definition sim_entry (x : string) : option zipentry :=
  match Split x ":"%char with
  | [n; c] => Some (mkZip n (HasSuffix n "/") false None c None)
  | _ =>
      match Split x ">"%char with
      | [n; t] => Some (mkZip n false true None t None)
      | _ => None
      end
  end.
Definition sim_zip (s : string) : result (list zipentry) :=
  foldr (λ x acc,
    match sim_entry x, acc with
    | Some e, Ok l => Ok (e :: l)
    | _, _ => Err (ErrorS "zip: not a valid zip file")
    end) (Ok []) (Split s "|"%char).

(** The last octets of the process: a fresh directory name. *)
Definition sim_suffix (f : fsys) (_ : string) : option string := Some (pretty (size (fs_nodes f))).

#[export] Instance sim_lib : GoLib := {
  json_listing := sim_pairs;
  json_metadata s := Ok (mkMetadata s "" "" (mkPlatform "" "") (mkPlatform "" ""));
  json_footer d := Ok (Some (mkFooter (d +:+ "/ios") (d +:+ "/android")));
  json_handshake s :=
    match Split s ","%char with
    | [action; app; user; sub] => Ok (Some (mkHandshake action app user sub))
    | _ => if decide (s = "null") then Ok None else Err (ErrorS "invalid character")
    end;
  json_asset_hashes := sim_pairs;
  json_hashes m := Ok (Join ((λ kv : string * string, kv.1 +:+ "=" +:+ kv.2) <$> map_to_list m) ";");
  json_icons l := Ok (Join (ic_name <$> l) ";");
  png_config _ := Ok (1, 1)%Z;
  zip_read := sim_zip;
  zip_write l := Join ((λ kv : string * string, kv.1 +:+ ":" +:+ kv.2) <$> l) "|";
  gzip_bytes s := "gz(" +:+ s +:+ ")";
  base64_decode s := (s, None);
  pem_decode s := Some s;
  parse_pkix s := Ok (Some s);
  sha256_sum s := s;
  rsa_verify key digest sig :=
    if decide (sig = key +:+ digest) then None else Some (ErrorS "crypto/rsa: verification error");
  query_escape s := s;
  url_encode l := Join ((λ kv : string * string, kv.1 +:+ "=" +:+ kv.2) <$> l) "&";
  url_string _ p := p;
  url_valid _ := true;
  temp_suffix := sim_suffix;
  map_range _ m := map_to_list m;
  map_range_perm _ m := Permutation_refl _;
}.

#[export] Instance sim : Services := {
  pgT := simpg;
  mcT := simmc;
  s3T := sims3;
  exT := nat;
  webT := list string;
  mqT := list string;
}.

(** A world with the given rows, objects and environment. *)
Definition base_fs : fsys :=
  mkFs (list_to_map [(["tmp"], NDir); (["etc"], NDir); (["etc"; "passwd"], NFile "root")]) [].
Definition sim_world (env : list (string * string)) (rows : list (Db.fkey * string))
    (objs : list ((string * string) * string)) : World :=
  mkWorld (list_to_map env) base_fs (mkPg (list_to_map rows) []) ∅ (list_to_map objs) 0 [] []
    Context.empty new_response 1000 0.

(** Memcached starts empty. *)
Lemma sim_coherent ex c env rows objs : Cache.coherent ex c (sim_world env rows objs).
Proof.
  rewrite /Cache.coherent. destruct (Cache.mc c) as [h|]; [|done]. intros k v _.
  by rewrite /Cache.memo /= /mc_host lookup_empty /= lookup_empty.
Qed.

(** A finite table is checked row by row. *)
Lemma map_Forall_dec_run (m : gmap Db.fkey string) (f : Db.fkey → string → bool) :
  forallb (λ kv, f kv.1 kv.2) (map_to_list m) = true → ∀ k v, m !! k = Some v → f k v = true.
Proof.
  rewrite forallb_forall. intros Hf k v Hk. apply (Hf (k, v)).
  by apply list_elem_of_In, elem_of_map_to_list.
Qed.

Lemma no_null_run (app : string) (m : gmap Db.fkey string) :
  forallb (λ kv : Db.fkey * string, match kv.1.1.2 with None => negb (bool_decide (kv.1.1.1 = app)) | Some _ => true end)
    (map_to_list m) = true → Db.no_null app m.
Proof.
  intros Hf n. destruct (m !! (app, None, n)) as [v|] eqn:E; [|done].
  pose proof (map_Forall_dec_run m (λ k _, match k.1.2 with
    | None => negb (bool_decide (k.1.1 = app)) | Some _ => true end) Hf _ _ E) as Hc.
  simpl in Hc. by rewrite bool_decide_eq_true_2 in Hc.
Qed.

Lemma no_null_all_run (m : gmap Db.fkey string) :
  forallb (λ kv : Db.fkey * string, bool_decide (is_Some kv.1.1.2)) (map_to_list m) = true →
  ∀ app, Db.no_null app m.
Proof.
  intros Hf app n. destruct (m !! (app, None, n)) as [v|] eqn:E; [|done].
  pose proof (map_Forall_dec_run m (λ k _, bool_decide (is_Some k.1.2)) Hf _ _ E) as Hc.
  apply bool_decide_eq_true in Hc as [? ?]. done.
Qed.
End Simulated.
