(* ===== verification/PushCorrect.v ===== *)
(** * What /push guarantees

    The main theorems about [Push.handle], read off runs, with runs of the
    simulated deployment that satisfy their hypotheses. *)

From S2P Require Import Prelude GoStrings GoPath FileSys Context Services S3 Cache.
From S2P Require Import Db Metadata Archive Push PushSync Simulated.

Module PushCorrect.
Import Push PushSync.

Section push.
Context `{Services} `{!S3Laws s3T} `{!McLaws mcT} `{!Db.PgLaws pgT} `{!Db.PgStable pgT}.
Implicit Types (w : World) (h : pushHandler).

(** The handler as [Push] builds it, in a world where memcached agrees with S3
    and every development row of the app has its object. *)
Record push_ready (P : string → string → Prop) h w : Prop := {
  ready_cache : p_cache h = Cache.env_cache (p_appID h) "" w;
  ready_coherent : Cache.coherent ∅ (p_cache h) w;
  ready_no_null : Db.no_null (p_appID h) (Db.table (p_db h) w);
  ready_backed : backed P (p_db h) (p_appID h) (p_cache h) w;
  ready_reserved : ∀ platform b, P (Cache.BundleFooterFile platform) b;
}.

Lemma ready_wp (P : string → string → Prop) r h Q C w :
  push_ready P h w → honest_push P r h w →
  (∀ w' x, safe (p_db h) (p_appID h) (backed_but P (p_db h) (p_appID h) (p_cache h)) w w' →
     (x ≠ XRemove → backed P (p_db h) (p_appID h) (p_cache h) w') →
     (synced x = true → ∃ l w2, pushed_listing r h w l ∧ Archive.listing_ok (Archive.nil_map l) ∧
        at_sync r h w w2 ∧
        rows_after (p_db h) (p_appID h) (Archive.nil_map l) w2 w') → Q x w') →
  (∀ w' cr, safe (p_db h) (p_appID h) (backed_but P (p_db h) (p_appID h) (p_cache h)) w w' → C cr w') →
  wp (handle r h) Q C w.
Proof.
  intros [Hc Hco Hnn Hb Hres] Hhon HQ HC.
  eapply (wp_handle P (p_db h) (p_appID h) (p_cache h)); try done. by rewrite Hc.
Qed.

(** C1: Let no result stream of PostgreSQL break off ([PgStable]: the code does not
    look at [rows.Err]), and let every development row have its object when the push
    starts.  After a push that got past the comparison with the listing (that is, one
    that ended with "Done.", with "No changes detected.", or failed later while
    building or publishing the footers), every file of the pushed listing has its
    row with the listed hash; and if the query for the current files did not fail at
    that point -- its error is ignored, and then the rows of removed files stay -- the
    app's rows are exactly the listing.  Rows of other apps and of submissions are
    untouched in every case. *)
Theorem push_syncs_rows r h w x w' :
  push_ready (λ _ _, True) h w → handle r h w = (Ret x, w') → synced x = true →
  ∃ l w2, pushed_listing r h w l ∧ Archive.listing_ok (Archive.nil_map l) ∧ at_sync r h w w2 ∧
    (∀ n hsh, Archive.nil_map l !! n = Some hsh → dev (p_db h) (p_appID h) w' n = Some hsh) ∧
    (¬ select_failed (p_db h) (p_appID h) w2 →
       ∀ n, dev (p_db h) (p_appID h) w' n = Archive.nil_map l !! n) ∧
    others (p_db h) (p_appID h) w w'.
Proof.
  intros Hr Hrun Hx. eapply wp_ret_inv in Hrun; [|eapply (ready_wp (λ _ _, True) r h
    (λ x w', synced x = true → _) (λ _ _, True)); [exact Hr|done| |done]].
  { exact (Hrun Hx). }
  clear x w' Hx Hrun. intros w' x [_ Ho _ _] _ Hs Hx. destruct (Hs Hx) as (l & w2 & Hl & Hok & Hat & Hrows).
  exists l, w2. split_and!; try done.
  - intros n hsh Hn. destruct Hrows as [-> |[_ ->]]; [done|]. by rewrite Hn.
  - intros Hup. by destruct Hrows as [Hr'|[Hf _]].
Qed.

(** C2: Let [P hash content] be any relation that the archive's entries satisfy
    (say, that the hash is the SHA-256 of the content) and that asks nothing of the
    objects called bundle-footer-<platform>: the push stores its footers under these
    names, over a file that a client gave such a hash.  Let no result stream of
    PostgreSQL break off ([PgStable]).  If every development row of the app had an
    object satisfying [P] in S3, then so it is after a push that returns, unless it
    failed while removing files; such a push, and one that panics, can leave one row,
    and no more, without its object.  Rows of other apps and of submissions are
    untouched. *)
Theorem push_keeps_objects (P : string → string → Prop) r h w o w' :
  push_ready P h w → honest_push P r h w → handle r h w = (o, w') →
  backed_but P (p_db h) (p_appID h) (p_cache h) w' ∧
  (∀ x, o = Ret x → x ≠ XRemove → backed P (p_db h) (p_appID h) (p_cache h) w') ∧
  others (p_db h) (p_appID h) w w'.
Proof.
  intros Hr Hhon Hrun.
  assert (wp (handle r h)
    (λ x w', backed_but P (p_db h) (p_appID h) (p_cache h) w' ∧
       (x ≠ XRemove → backed P (p_db h) (p_appID h) (p_cache h) w') ∧ others (p_db h) (p_appID h) w w')
    (λ _ w', backed_but P (p_db h) (p_appID h) (p_cache h) w' ∧ others (p_db h) (p_appID h) w w') w)
    as Hwp.
  { apply (ready_wp P); [done|done| |].
    - intros w1 x1 [] ? _. by split_and!.
    - by intros w1 cr1 []. }
  destruct o as [x|cr].
  - destruct (wp_ret_inv _ _ _ _ _ _ Hwp Hrun) as (Hb & Hx & Ho).
    split_and!; try done. by intros ? [= <-].
  - destruct (wp_crash_inv _ _ _ _ _ _ Hwp Hrun) as [Hb Ho]. by split_and!.
Qed.
End push.

(** ** A push in the simulated deployment *)
Import Simulated.

Definition wit_world : World :=
  sim_world [("SIPHON_ENV", "staging"); ("MEMCACHED_BUNDLER_PORT_11211_TCP_ADDR", "mc");
             ("WEB_HOST", "web")]
    [(("app1", Some "", "old.js"), "h0"); (("app1", Some "", "same.js"), "h9");
     (("app2", Some "", "x.js"), "h0")]
    [(("siphon-files-staging", "app1/h0"), "OLD"); (("siphon-files-staging", "app1/h9"), "SAME")].
Definition wit_request : request :=
  mkRequest 7 "POST" "/v1/push/app1/" ∅ ∅ ∅
    "listing.json:a.js=h1;Siphonfile=h2;same.js=h9|diffs/a.js:AAA|diffs/Siphonfile:0.5".
Definition wit_ctx : Context.store :=
  Context.Set_ 0 7 HandshakeSignatureKey (VStr "sig")
    (Context.Set_ 0 7 HandshakeTokenKey (VStr "tok") Context.empty).
Definition wit_start : World := set_ctx wit_ctx wit_world.
Definition wit_handler : pushHandler :=
  mkPush wit_request "app1" "user1" "db" (Cache.env_cache "app1" "" wit_start) None false None [] false.

(** Rows checked one by one against S3. *)
Lemma backed_run (P : string → string → Prop) (Pb : string → string → bool) db app c (w : World) :
  (∀ hsh b, Pb hsh b = true → P hsh b) →
  forallb (λ kv : Db.fkey * string,
    negb (bool_decide (kv.1.1 = (app, Some ""))) ||
    match Cache.content c w kv.2 with Some b => Pb kv.2 b | None => false end)
    (map_to_list (Db.table db w)) = true → backed P db app c w.
Proof.
  intros HP Hf n hsh Hd.
  pose proof (map_Forall_dec_run _ (λ k v, negb (bool_decide (k.1 = (app, Some ""))) ||
    match Cache.content c w v with Some b => Pb v b | None => false end) Hf _ _ Hd) as Hc.
  simpl in Hc. rewrite bool_decide_eq_true_2 //= in Hc.
  destruct (Cache.content c w hsh) as [b|] eqn:E; [|done]. eauto.
Qed.

Definition any_object (hsh b : string) : Prop := True.

Lemma wit_ready : push_ready any_object wit_handler wit_start.
Proof.
  split; [reflexivity| | | |done].
  - rewrite /Cache.coherent. destruct (Cache.mc _) as [host|] eqn:E; [|done].
    vm_compute in E. injection E as <-. intros k v _ Hk. by vm_compute in Hk.
  - apply no_null_run. by vm_compute.
  - by apply (backed_run _ (λ _ _, true)); [|vm_compute].
Qed.

Lemma push_syncs_rows_witness :
  ∃ w', handle wit_request wit_handler wit_start = (Ret XDone, w') ∧
  ∃ l, pushed_listing wit_request wit_handler wit_start l ∧
    ∀ n hsh, Archive.nil_map l !! n = Some hsh → dev "db" "app1" w' n = Some hsh.
Proof.
  exists (handle wit_request wit_handler wit_start).2.
  assert ((handle wit_request wit_handler wit_start).1 = Ret XDone) as Hx by by vm_compute.
  assert (handle wit_request wit_handler wit_start =
    (Ret XDone, (handle wit_request wit_handler wit_start).2)) as Hrun.
  { rewrite -Hx. apply surjective_pairing. }
  split; [exact Hrun|].
  destruct (push_syncs_rows wit_request wit_handler wit_start XDone _ wit_ready Hrun eq_refl)
    as (l & w2 & Hl & _ & _ & Hrows & _).
  exists l. exact (conj Hl Hrows).
Defined.

(** Here the hash of a text is the text itself. *)
Definition self_hash (hsh b : string) : Prop := HasPrefix hsh "bundle-footer-" = true ∨ hsh = b.
Definition self_hashb (hsh b : string) : bool :=
  HasPrefix hsh "bundle-footer-" || bool_decide (hsh = b).
Lemma self_hash_run hsh b : self_hashb hsh b = true → self_hash hsh b.
Proof. rewrite /self_hashb orb_true_iff bool_decide_eq_true. auto. Qed.

Definition wit_world2 : World :=
  set_ctx wit_ctx (sim_world [("SIPHON_ENV", "staging"); ("MEMCACHED_BUNDLER_PORT_11211_TCP_ADDR", "mc")]
    [(("app1", Some "", "old.js"), "OLD"); (("app1", Some "", "same.js"), "SAME")]
    [(("siphon-files-staging", "app1/OLD"), "OLD"); (("siphon-files-staging", "app1/SAME"), "SAME")]).
Definition wit_request2 : request :=
  mkRequest 7 "POST" "/v1/push/app1/" ∅ ∅ ∅
    "listing.json:a.js=AAA;Siphonfile=0.5;same.js=SAME|diffs/a.js:AAA|diffs/Siphonfile:0.5".
Definition wit_handler2 : pushHandler :=
  mkPush wit_request2 "app1" "user1" "db" (Cache.env_cache "app1" "" wit_world2) None false None [] false.

Lemma wit_ready2 : push_ready self_hash wit_handler2 wit_world2.
Proof.
  split; [reflexivity| | | |intros pl b; left; exact (HasPrefix_app "bundle-footer-" pl)].
  - rewrite /Cache.coherent. destruct (Cache.mc _) as [host|] eqn:E; [|done].
    vm_compute in E. injection E as <-. intros k v _ Hk. by vm_compute in Hk.
  - apply no_null_run. by vm_compute.
  - by apply (backed_run _ self_hashb); [apply self_hash_run|vm_compute].
Qed.

(** The files of an archive checked one by one. *)
Definition honest_check (a : Archive.Archive) (l : option (gmap string string)) (f : fsys) : bool :=
  forallb (λ kv : string * string,
    match Archive.GetContent (Archive.mkArchive (Archive.tempDir a) l) kv.1 f with
    | Ok b => self_hashb kv.2 b
    | Err _ => true
    end) (map_to_list (Archive.nil_map l)).

Lemma honest_run a l f :
  honest_check a l f = true → honest self_hash (Archive.mkArchive (Archive.tempDir a) l) f.
Proof.
  rewrite /honest_check forallb_forall. intros Hf n hsh b Hn Hb. apply self_hash_run.
  specialize (Hf (n, hsh)). rewrite /= Hb in Hf. apply Hf.
  by apply list_elem_of_In, elem_of_map_to_list.
Qed.

Lemma wit_honest2 : honest_push self_hash wit_request2 wit_handler2 wit_world2.
Proof.
  intros h1 w1 a l Hd Ha Hl. apply honest_run.
  assert (match decompress wit_request2 wit_handler2 wit_world2 with
          | (Ret (None, h1), w1) =>
              match p_archive h1 with
              | Some a =>
                  match json_listing (Archive.listing_bytes a (w_fs w1)) with
                  | Ok l => honest_check a l (w_fs w1)
                  | Err _ => true
                  end
              | None => true
              end
          | _ => true
          end = true) as Hrun by by vm_compute.
  by rewrite Hd Ha Hl in Hrun.
Qed.

Lemma push_keeps_objects_witness :
  let w' := (handle wit_request2 wit_handler2 wit_world2).2 in
  (handle wit_request2 wit_handler2 wit_world2).1 = Ret XDone ∧
  backed self_hash "db" "app1" (p_cache wit_handler2) w'.
Proof.
  assert ((handle wit_request2 wit_handler2 wit_world2).1 = Ret XDone) as Hx by by vm_compute.
  split; [exact Hx|].
  destruct (push_keeps_objects self_hash wit_request2 wit_handler2 wit_world2 _ _
    wit_ready2 wit_honest2 (surjective_pairing _)) as (_ & Hb & _).
  exact (Hb XDone Hx ltac:(discriminate)).
Defined.
End PushCorrect.
