(* ===== verification/StoreCorrect.v ===== *)
(** * What the stores guarantee

    Theorems about runs of the file cache ([cache.go]), of the S3 wrapper
    ([s3.go]) and of the file table ([db.go]), with runs of the simulated
    deployment that satisfy their hypotheses. *)

From S2P Require Import Prelude GoStrings FileSys Context Services S3 Cache Db Simulated.

Module StoreCorrect.

(** ** The cache *)
Section cache.
Context `{Services} `{!S3Laws s3T} `{!McLaws mcT}.
Implicit Types (w : World) (c : Cache.Cache).

(** The specifications of the operations, read off a run. *)
Lemma Get_run c key w r w' :
  Cache.opened c → Cache.coherent ∅ c w → Cache.Get c key w = (Ret r, w') →
  ∀ v, r = Ok v → Cache.content c w key = Some v.
Proof.
  intros Ho Hc Hget. refine (wp_ret_inv _ (λ r _, ∀ v, r = Ok v → Cache.content c w key = Some v)
    (λ _ _, True) _ _ _ _ Hget). apply (Cache.wp_Get ∅); [done|done|set_solver|]. by intros ? ? _ _ _ Hr.
Qed.
Lemma Set_run c key b w w' :
  Cache.opened c → Cache.coherent ∅ c w → Cache.Set_ c key b w = (Ret None, w') →
  blobs w' = <[(Cache.bk c, Cache.prefixed c key) := b]> (blobs w) ∧ Cache.coherent ∅ c w'.
Proof.
  intros Ho Hc Hset. refine (wp_ret_inv _ (λ e w', e = None →
    blobs w' = <[(Cache.bk c, Cache.prefixed c key) := b]> (blobs w) ∧ Cache.coherent ∅ c w')
    (λ _ _, True) _ _ _ _ Hset eq_refl). by apply (Cache.wp_Set ∅).
Qed.
Lemma Delete_run c key w w' :
  Cache.opened c → Cache.coherent ∅ c w → Cache.Delete c key w = (Ret None, w') →
  (blobs w' = blobs w ∨ blobs w' = delete (Cache.bk c, Cache.prefixed c key) (blobs w)) ∧
  Cache.coherent ∅ c w'.
Proof.
  intros Ho Hc Hdel. refine (wp_ret_inv _ (λ e w', e = None →
    (blobs w' = blobs w ∨ blobs w' = delete (Cache.bk c, Cache.prefixed c key) (blobs w)) ∧
    Cache.coherent ∅ c w') (λ _ _, True) _ _ _ _ Hdel eq_refl).
  apply (Cache.wp_Delete ∅); [done|done|]. by intros w1 e _ ? Hc' ->.
Qed.

(** C3: [Get] always returns; a value it returns is the one S3 holds for the key,
    whether it came from memcached or from S3; it changes nothing in S3 and leaves
    memcached in agreement with S3. *)
Theorem cache_get_durable c key w o w' :
  Cache.opened c → Cache.coherent ∅ c w → Cache.Get c key w = (o, w') →
  ∃ r, o = Ret r ∧ (∀ v, r = Ok v → Cache.content c w key = Some v) ∧
    blobs w' = blobs w ∧ Cache.coherent ∅ c w' ∧ Cache.stores_only w w'.
Proof.
  intros Ho Hc. apply (wp_total _ (λ r w', (∀ v, r = Ok v → Cache.content c w key = Some v) ∧
    blobs w' = blobs w ∧ Cache.coherent ∅ c w' ∧ Cache.stores_only w w')).
  apply (Cache.wp_Get ∅); [done|done|set_solver|]. by intros.
Qed.

(** C4: After a [Set] that reported no error, S3 holds the new bytes under the key
    and every other key of the cache is as before, and whatever [Get] returns next
    for any key is that content, never a stale value. *)
Theorem cache_set_get c key b key' w w1 w2 r :
  Cache.opened c → Cache.coherent ∅ c w → Cache.Set_ c key b w = (Ret None, w1) →
  Cache.Get c key' w1 = (Ret r, w2) →
  Cache.content c w1 key = Some b ∧
  (∀ k, k ≠ key → Cache.content c w1 k = Cache.content c w k) ∧
  ∀ v, r = Ok v → Some v = if decide (key' = key) then Some b else Cache.content c w key'.
Proof.
  intros Ho Hc Hset Hget. destruct (Set_run _ _ _ _ _ Ho Hc Hset) as [Hb Hc1].
  assert (∀ k, Cache.content c w1 k = if decide (k = key) then Some b else Cache.content c w k) as Hk
    by (intros k; by apply Cache.content_insert).
  split_and!.
  - by rewrite Hk decide_True.
  - intros k Hne. by rewrite Hk decide_False.
  - intros v Hv. rewrite -Hk. symmetry. by apply (Get_run _ _ _ _ _ Ho Hc1 Hget).
Qed.

(** [Delete] removes at most the object of its key; when it reports no error,
    memcached holds nothing stale, so a later [Get] cannot return a deleted value
    that S3 no longer holds. *)
Theorem cache_delete_not_stale c key w w1 w2 r :
  Cache.opened c → Cache.coherent ∅ c w → Cache.Delete c key w = (Ret None, w1) →
  Cache.Get c key w1 = (Ret r, w2) →
  (∀ k, k ≠ key → Cache.content c w1 k = Cache.content c w k) ∧
  (Cache.content c w1 key = None ∨ Cache.content c w1 key = Cache.content c w key) ∧
  ∀ v, r = Ok v → Cache.content c w1 key = Some v.
Proof.
  intros Ho Hc Hdel Hget. destruct (Delete_run _ _ _ _ Ho Hc Hdel) as [Hb Hc1]. split_and!.
  - intros k Hne. destruct Hb as [Hb|Hb]; [by apply Cache.content_same|].
    by rewrite (Cache.content_delete _ _ _ _ k Hb) decide_False.
  - destruct Hb as [Hb|Hb]; [right; by apply Cache.content_same|left].
    by rewrite (Cache.content_delete _ _ _ _ key Hb) decide_True.
  - by apply (Get_run _ _ _ _ _ Ho Hc1 Hget).
Qed.

(** Two caches of different apps or submissions never share an object: when no
    identifier or key contains a slash, a [Set] in one leaves all the contents of
    the other as they were, even if it fails. *)
Theorem cache_isolation c c' key key' b w o w' :
  Cache.opened c → Cache.coherent ∅ c w →
  (Cache.appID c, Cache.submissionID c) ≠ (Cache.appID c', Cache.submissionID c') →
  Forall (λ s, has_char slash s = false)
    [Cache.appID c; Cache.submissionID c; Cache.appID c'; Cache.submissionID c'; key; key'] →
  Cache.Set_ c key b w = (o, w') → Cache.content c' w' key' = Cache.content c' w key'.
Proof.
  intros Ho Hc Hne Hsl Hset. rewrite !Forall_cons in Hsl. destruct Hsl as (?&?&?&?&?&?&_).
  assert (Cache.prefixed c key ≠ Cache.prefixed c' key') as Hk.
  { intros E. apply Cache.prefixed_inj in E as (?&?&?); [congruence|done..]. }
  assert (blobs w' = blobs w ∨ blobs w' = <[(Cache.bk c, Cache.prefixed c key) := b]> (blobs w)) as Hb.
  { apply (wp_total _ (λ _ w', blobs w' = blobs w ∨
      blobs w' = <[(Cache.bk c, Cache.prefixed c key) := b]> (blobs w))) in Hset as (? & -> & Hb); [exact Hb|].
    apply (Cache.wp_Set ∅); [done|done|..]; by auto. }
  rewrite /Cache.content. destruct Hb as [-> | ->]; [done|]. rewrite lookup_insert_ne //. congruence.
Qed.
End cache.

(** ** Retries *)
Section retries.
Context `{Services}.
Implicit Types (w : World) (op : MW (option error)).

(** The world after [i] attempts. *)
Fixpoint after op (i : nat) w : World :=
  match i with O => w | S i => after op i (op w).2 end.
(** What attempt [i] (from 0) returns. *)
Definition attempt op (i : nat) w : outcome (option error) := (op (after op i w)).1.

Lemma retry_first op n err i w :
  (i < n)%nat → (∀ j, (j < i)%nat → ∃ e, attempt op j w = Ret (Some e)) → attempt op i w = Ret None →
  retry n op err w = (Ret None, after op (S i) w).
Proof.
  revert err i w. induction n as [|n IH]; intros err i w Hi Hfail Hok; [lia|].
  rewrite /= /mbind /M_bind. destruct i as [|i].
  - rewrite /attempt /= in Hok |- *. by destruct (op w) as [r w1]; simplify_eq/=.
  - destruct (Hfail 0 ltac:(lia)) as [e He]. rewrite /attempt /= in He.
    destruct (op w) as [r w1] eqn:E. simpl in He. subst r.
    rewrite (IH (Some e) i); [done|lia| |by rewrite /attempt /= E in Hok].
    intros j Hj. destruct (Hfail (S j) ltac:(lia)) as [e' He']. exists e'.
    by rewrite /attempt /= E in He'.
Qed.

Lemma retry_last op n err w e :
  (∀ j, (j < n)%nat → ∃ e, attempt op j w = Ret (Some e)) → attempt op n w = Ret (Some e) →
  retry (S n) op err w = (Ret (Some e), after op (S n) w).
Proof.
  revert err w. induction n as [|n IH]; intros err w Hfail Hok.
  - rewrite /attempt /= in Hok. rewrite /= /mbind /M_bind. by destruct (op w) as [r w1]; simplify_eq/=.
  - destruct (Hfail 0 ltac:(lia)) as [e0 He]. rewrite /attempt /= in He.
    change (retry (S (S n)) op err w) with
      ((e ← op; match e with None => mret None | Some e => retry (S n) op (Some e) end) w).
    rewrite /mbind /M_bind. destruct (op w) as [r w1] eqn:E. simpl in He. subst r.
    rewrite (IH (Some e0)); [by rewrite /= E| |by rewrite /attempt /= E in Hok].
    intros j Hj. destruct (Hfail (S j) ltac:(lia)) as [e' He']. exists e'.
    by rewrite /attempt /= E in He'.
Qed.

(** [WriteKey] stops at the first of its three PUTs that succeeds and then
    reports success; it reports an error, that of the third PUT, only when all
    three failed; it never makes a fourth. *)
Theorem write_key_retries bk key b w :
  let put := on_s3 (s3_put bk key b) in
  let res := WriteKey (mkS3 (Some bk)) key b w in
  (∃ i, (i < 3)%nat ∧ attempt put i w = Ret None ∧ res = (Ret None, after put (S i) w)) ∨
  (∃ e, (∀ i, (i < 3)%nat → attempt put i w ≠ Ret None) ∧ attempt put 2 w = Ret (Some e) ∧
     res = (Ret (Some e), after put 3 w)).
Proof.
  intros put res.
  assert (∀ i, attempt put i w = Ret None ∨ ∃ e, attempt put i w = Ret (Some e)) as Hcases.
  { intros i. rewrite /attempt /put /on_s3. destruct (s3_put _ _ _ _) as [[e|] s]; eauto. }
  destruct (Hcases 0) as [H0|[e0 H0]].
  { left. exists 0. split_and!; [lia|done|]. apply retry_first; [rewrite /maxAttempts; lia|lia|done]. }
  destruct (Hcases 1) as [H1|[e1 H1]].
  { left. exists 1. split_and!; [lia|done|]. apply retry_first; [rewrite /maxAttempts; lia| |done].
    intros [|j] Hj; [eauto|lia]. }
  destruct (Hcases 2) as [H2|[e2 H2]].
  { left. exists 2. split_and!; [lia|done|]. apply retry_first; [rewrite /maxAttempts; lia| |done].
    intros [|[|j]] Hj; [eauto|eauto|lia]. }
  right. exists e2. split_and!; [|done|].
  - intros [|[|[|i]]] Hi; [congruence..|lia].
  - apply retry_last; [|done]. intros [|[|j]] Hj; [eauto|eauto|lia].
Qed.
End retries.

(** ** The file table *)
Section table.
Context `{Services} `{!Db.PgLaws pgT}.
Implicit Types (w : World) (db app sub name hash : string).

(** C5: [AddFile] either returns nil, having added a row that was not there, or
    panics (on the nil result set of a failed query) with the table as it was or
    with that row added; it never overwrites a row and never returns its error. *)
Theorem add_file_never_overwrites db app sub name hash w o w' :
  Db.AddFile db app sub name hash w = (o, w') →
  let k := (app, Some sub, name) in
  let added := Db.table db w !! k = None ∧ Db.table db w' = <[k := hash]> (Db.table db w) in
  (o = Ret None ∧ added) ∨ (o = Crash nil_deref ∧ (Db.table db w' = Db.table db w ∨ added)).
Proof.
  intros Hrun k added.
  pose proof (wp_inv _ (λ e w', e = None ∧ Db.table db w !! k = None ∧
      Db.table db w' = <[k := hash]> (Db.table db w))
    (λ c w', c = nil_deref ∧ (Db.table db w' = Db.table db w ∨ Db.table db w !! k = None ∧
      Db.table db w' = <[k := hash]> (Db.table db w))) _ _ _
    ltac:(by apply Db.wp_AddFile) Hrun) as Ho.
  destruct o as [e|c]; destruct Ho as [-> Ho]; [left|right]; by split.
Qed.

(** On an app whose rows were all written by [AddFile], a completed
    [UpdateFile] changes the hash of exactly the named row and a completed
    [DeleteFile] removes exactly it. *)
Theorem update_delete_one_row db app sub name hash w :
  Db.no_null app (Db.table db w) → has_char squote sub = false →
  is_Some (Db.table db w !! (app, Some sub, name)) →
  (∀ e w', Db.UpdateFile db app sub name hash w = (Ret e, w') →
     e = None ∧ Db.table db w' = <[(app, Some sub, name) := hash]> (Db.table db w)) ∧
  (∀ e w', Db.DeleteFile db app sub name w = (Ret e, w') →
     e = None ∧ Db.table db w' = delete (app, Some sub, name) (Db.table db w)).
Proof.
  intros Hnn Hsq Hrow. split; intros e w' Hrun.
  - refine (wp_ret_inv _ (λ e w', e = None ∧
      Db.table db w' = <[(app, Some sub, name) := hash]> (Db.table db w)) (λ _ _, True) _ _ _ _ Hrun).
    apply Db.wp_UpdateFile; [done| |done]. intros s Hs. split; [done|].
    by rewrite /Db.table /= Hs Db.upd_rows_insert.
  - refine (wp_ret_inv _ (λ e w', e = None ∧
      Db.table db w' = delete (app, Some sub, name) (Db.table db w)) (λ _ _, True) _ _ _ _ Hrun).
    apply Db.wp_DeleteFile; [done| |done]. intros s Hs. split; [done|].
    by rewrite /Db.table /= Hs Db.del_rows_delete.
Qed.

Context `{!Db.PgStable pgT}.

(** [GetFiles] always returns without touching the table, and the map it
    returns is exactly the names and hashes of the app's (or submission's) rows. *)
Theorem get_files_exact db app sub w o w' :
  Db.no_null app (Db.table db w) → has_char squote sub = false →
  Db.GetFiles db app sub w = (o, w') →
  ∃ r, o = Ret r ∧ Db.table db w' = Db.table db w ∧
    ∀ files, r = Ok files → ∀ n, files !! n = Db.table db w !! (app, Some sub, n).
Proof.
  intros Hnn Hsq. apply (wp_total _ (λ r w', Db.table db w' = Db.table db w ∧
    ∀ files, r = Ok files → ∀ n, files !! n = Db.table db w !! (app, Some sub, n))).
  apply Db.wp_GetFiles; [done|done|..].
  - intros s files Hs Hf. split; [done|]. by intros ? [= <-].
  - by intros s e Hs.
Qed.

(** What [AddFile] wrote, [GetFile] reads back, for names without the special
    characters of LIKE. *)
Theorem add_get_file db app sub name hash w w1 w2 r :
  Db.no_null app (Db.table db w) → has_char squote sub = false →
  Db.plain_pattern name = true → has_char "%"%char name = false → name ≠ "" →
  Db.AddFile db app sub name hash w = (Ret None, w1) →
  Db.GetFile db app sub name w1 = (Ret r, w2) →
  ∀ h, r = Ok h → h = hash.
Proof.
  intros Hnn Hsq Hp Hpc Hne Hadd Hget.
  assert (Db.table db w1 = <[(app, Some sub, name) := hash]> (Db.table db w)) as Ht.
  { refine (wp_ret_inv _ (λ _ w1, Db.table db w1 = <[(app, Some sub, name) := hash]> (Db.table db w))
      (λ _ _, True) _ _ _ _ Hadd). by apply Db.wp_AddFile. }
  refine (wp_ret_inv _ (λ r _, ∀ h, r = Ok h → h = hash) (λ _ _, True) _ _ _ _ Hget).
  apply Db.wp_GetFile; try done; [rewrite Ht; by apply Db.no_null_insert|].
  intros s r' _ Hr h ->. specialize (Hr h eq_refl). rewrite Ht lookup_insert_eq in Hr. congruence.
Qed.

(** A snapshot that reports success has copied every development row of the
    app to the submission, with the same hash, and has changed no other row; one
    that fails or panics has changed no row outside the submission either. *)
Theorem make_snapshot_copies db app sub w o w' :
  Db.no_null app (Db.table db w) → Db.MakeSnapshot db app sub w = (o, w') →
  (o = Ret None → ∀ n hash, Db.table db w !! (app, Some "", n) = Some hash →
     Db.table db w' !! (app, Some sub, n) = Some hash) ∧
  (∀ k, (∀ n, k ≠ (app, Some sub, n)) → Db.table db w' !! k = Db.table db w !! k).
Proof.
  intros Hnn Hrun. set (keep := λ w', ∀ k, (∀ n, k ≠ (app, Some sub, n)) →
    Db.table db w' !! k = Db.table db w !! k).
  assert (wp (Db.MakeSnapshot db app sub) (λ e w', (e = None → ∀ n hash,
     Db.table db w !! (app, Some "", n) = Some hash →
     Db.table db w' !! (app, Some sub, n) = Some hash) ∧ keep w') (λ _ w', keep w') w) as Hwp.
  { apply Db.wp_MakeSnapshot; [done|..].
    - intros w1 s t -> Hrows Hk. split; [|done]. intros _ n hash Hn. specialize (Hrows n).
      by rewrite Hn in Hrows.
    - intros w1 s t e -> Hs. split; [done|]. intros k _. by rewrite /Db.table /= Hs.
    - intros w1 s t -> Hk. done. }
  pose proof (wp_inv _ _ _ _ _ _ Hwp Hrun) as Hinv. destruct o as [e|c]; [|done].
  destruct Hinv as [Hc Hk]. split; [|done]. intros [= ->]. by apply Hc.
Qed.

(** [SubmissionExists] and [AppExists] never change the table, and an answer
    is "yes" exactly when the submission, or the app, has a row. *)
Theorem exists_iff_row db id w o w' (sub_check : bool) :
  (if sub_check then Db.SubmissionExists db id else Db.AppExists db id) w = (o, w') →
  Db.table db w' = Db.table db w ∧
  ∃ r, o = Ret r ∧ ∀ b, r = Ok b → (b = true ↔ ∃ app so n v,
    Db.table db w !! (app, so, n) = Some v ∧ if sub_check then so = Some id else app = id).
Proof.
  intros Hrun. set (Q := λ (r : result bool) w', Db.table db w' = Db.table db w ∧
    ∀ b, r = Ok b → (b = true ↔ ∃ app so n v,
      Db.table db w !! (app, so, n) = Some v ∧ if sub_check then so = Some id else app = id)).
  assert (wp (if sub_check then Db.SubmissionExists db id else Db.AppExists db id) Q (λ _ _, False) w) as Hwp.
  { rewrite /Q. destruct sub_check; [apply Db.wp_SubmissionExists|apply Db.wp_AppExists].
    2,4: by intros s e Hs.
    - intros s b Hs Hb. split; [done|]. intros ? [= <-]. rewrite Hb. naive_solver.
    - intros s b Hs Hb. split; [done|]. intros ? [= <-]. rewrite Hb. naive_solver. }
  destruct (wp_total _ _ _ _ _ Hwp Hrun) as (r & -> & Ht & Hb). eauto.
Qed.
End table.

(** *** Runs *)
Import Simulated.

Definition wit_env : list (string * string) :=
  [("SIPHON_ENV", "staging"); ("MEMCACHED_BUNDLER_PORT_11211_TCP_ADDR", "mc")].
Definition wit_world : World :=
  sim_world wit_env [] [(("siphon-files-staging", "app1/k"), "V"); (("siphon-files-staging", "app2/k"), "W")].
Definition wit_cache : Cache.Cache := Cache.env_cache "app1" "" wit_world.

Lemma wit_coherent : Cache.coherent ∅ wit_cache wit_world.
Proof. apply sim_coherent. Qed.

Lemma cache_get_durable_witness :
  Cache.content wit_cache wit_world "k" = Some "V" ∧
  Cache.coherent ∅ wit_cache (Cache.Get wit_cache "k" wit_world).2.
Proof.
  destruct (cache_get_durable wit_cache "k" wit_world _ _ (Cache.opened_env _ _ _) wit_coherent
    (run_split (Cache.Get wit_cache "k") wit_world (Ret (Ok "V")) ltac:(by vm_compute)))
    as (r & Hr & Hv & _ & Hc & _).
  injection Hr as <-. exact (conj (Hv "V" eq_refl) Hc).
Defined.

Lemma cache_set_get_witness :
  let w1 := (Cache.Set_ wit_cache "k" "NEW" wit_world).2 in
  (Cache.Get wit_cache "k" w1).1 = Ret (Ok "NEW") ∧ Cache.content wit_cache w1 "k" = Some "NEW".
Proof.
  intros w1. assert ((Cache.Get wit_cache "k" w1).1 = Ret (Ok "NEW")) as Hg by by vm_compute.
  split; [exact Hg|].
  destruct (cache_set_get wit_cache "k" "NEW" "k" wit_world w1 (Cache.Get wit_cache "k" w1).2 (Ok "NEW")
    (Cache.opened_env _ _ _) wit_coherent
    (run_split (Cache.Set_ wit_cache "k" "NEW") wit_world (Ret None) ltac:(by vm_compute))
    (run_split _ _ _ Hg)) as [Hc _]. exact Hc.
Defined.

Lemma cache_delete_not_stale_witness :
  let w1 := (Cache.Delete wit_cache "k" wit_world).2 in
  Cache.content wit_cache w1 "other" = Cache.content wit_cache wit_world "other" ∧
  (Cache.Get wit_cache "k" w1).1 = Ret (Err (S3Error 404 "NoSuchKey" "no such key")).
Proof.
  intros w1. split; [|by vm_compute].
  destruct (cache_delete_not_stale wit_cache "k" wit_world w1 (Cache.Get wit_cache "k" w1).2
    (Err (S3Error 404 "NoSuchKey" "no such key")) (Cache.opened_env _ _ _) wit_coherent
    (run_split (Cache.Delete wit_cache "k") wit_world (Ret None) ltac:(by vm_compute))
    (run_split (Cache.Get wit_cache "k") w1 _ ltac:(by vm_compute))) as [Hc _].
  exact (Hc "other" ltac:(discriminate)).
Defined.

Lemma cache_isolation_witness :
  let c2 := Cache.env_cache "app2" "" wit_world in
  Cache.content c2 (Cache.Set_ wit_cache "k" "NEW" wit_world).2 "k" = Cache.content c2 wit_world "k".
Proof.
  intros c2.
  apply (cache_isolation wit_cache c2 "k" "k" "NEW" wit_world (Cache.Set_ wit_cache "k" "NEW" wit_world).1).
  - apply Cache.opened_env.
  - exact wit_coherent.
  - vm_compute. discriminate.
  - by repeat constructor.
  - apply surjective_pairing.
Defined.
(** Runs of the file table. *)
Definition wit_rows : World :=
  sim_world wit_env [(("app1", Some "", "a.js"), "h1"); (("app1", Some "", "b.js"), "h2");
                     (("app2", Some "9", "a.js"), "h3")] [].

Lemma wit_rows_no_null app : app = "app1" → Db.no_null app (Db.table "db" wit_rows).
Proof. intros ->. apply no_null_run. by vm_compute. Qed.

Lemma add_file_never_overwrites_witness :
  Db.table "db" (Db.AddFile "db" "app1" "" "a.js" "h9" wit_rows).2 = Db.table "db" wit_rows ∧
  (Db.AddFile "db" "app1" "" "c.js" "h9" wit_rows).1 = Ret None.
Proof.
  split; [|by vm_compute].
  destruct (add_file_never_overwrites "db" "app1" "" "a.js" "h9" wit_rows _ _
    (run_split (Db.AddFile "db" "app1" "" "a.js" "h9") wit_rows (Crash nil_deref) ltac:(by vm_compute)))
    as [[Hr _]|[_ [Ht|[Hn _]]]].
  - discriminate.
  - exact Ht.
  - by vm_compute in Hn.
Defined.

Lemma update_delete_one_row_witness :
  Db.table "db" (Db.DeleteFile "db" "app1" "" "a.js" wit_rows).2 =
    delete ("app1", Some "", "a.js") (Db.table "db" wit_rows).
Proof.
  destruct (update_delete_one_row "db" "app1" "" "a.js" "h9" wit_rows (wit_rows_no_null _ eq_refl)
    eq_refl ltac:(by eexists; vm_compute)) as [_ Hd].
  exact (proj2 (Hd None _ (run_split (Db.DeleteFile "db" "app1" "" "a.js") wit_rows (Ret None)
    ltac:(by vm_compute)))).
Defined.

Lemma get_files_exact_witness :
  ∃ files, (Db.GetFiles "db" "app1" "" wit_rows).1 = Ret (Ok files) ∧
    ∀ n, files !! n = Db.table "db" wit_rows !! ("app1", Some "", n).
Proof.
  destruct (get_files_exact "db" "app1" "" wit_rows _ _ (wit_rows_no_null _ eq_refl) eq_refl
    (surjective_pairing (Db.GetFiles "db" "app1" "" wit_rows))) as (r & Hr & _ & Hf).
  destruct r as [files|e].
  - exists files. exact (conj Hr (Hf files eq_refl)).
  - assert (match (Db.GetFiles "db" "app1" "" wit_rows).1 with Ret r => is_ok r | _ => false end = true)
      as Hok by by vm_compute.
    rewrite Hr in Hok. discriminate.
Defined.

Lemma add_get_file_witness :
  let w1 := (Db.AddFile "db" "app1" "" "Siphonfile" "h9" wit_rows).2 in
  ∃ h, (Db.GetFile "db" "app1" "" "Siphonfile" w1).1 = Ret (Ok h) ∧ h = "h9".
Proof.
  intros w1. exists "h9".
  assert ((Db.GetFile "db" "app1" "" "Siphonfile" w1).1 = Ret (Ok "h9")) as Hg by by vm_compute.
  split; [exact Hg|].
  refine (add_get_file "db" "app1" "" "Siphonfile" "h9" wit_rows w1 _ (Ok "h9")
    (wit_rows_no_null _ eq_refl) eq_refl eq_refl eq_refl ltac:(discriminate) _ (run_split _ _ _ Hg) _ eq_refl).
  apply run_split. by vm_compute.
Defined.

Lemma make_snapshot_copies_witness :
  let w' := (Db.MakeSnapshot "db" "app1" "7" wit_rows).2 in
  Db.table "db" w' !! ("app1", Some "7", "a.js") = Some "h1" ∧
  Db.table "db" w' !! ("app1", Some "", "a.js") = Some "h1".
Proof.
  intros w'.
  assert ((Db.MakeSnapshot "db" "app1" "7" wit_rows).1 = Ret None) as Hr by by vm_compute.
  destruct (make_snapshot_copies "db" "app1" "7" wit_rows (Ret None) w' (wit_rows_no_null _ eq_refl)
    (run_split (Db.MakeSnapshot "db" "app1" "7") wit_rows (Ret None) Hr)) as [Hc Hk].
  split.
  - exact (Hc eq_refl "a.js" "h1" ltac:(by vm_compute)).
  - rewrite (Hk ("app1", Some "", "a.js") ltac:(discriminate)). by vm_compute.
Defined.

Lemma exists_iff_row_witness :
  (Db.SubmissionExists "db" "9" wit_rows).1 = Ret (Ok true) ∧
  ∃ app so n v, Db.table "db" wit_rows !! (app, so, n) = Some v ∧ so = Some "9".
Proof.
  assert ((Db.SubmissionExists "db" "9" wit_rows).1 = Ret (Ok true)) as Hs by by vm_compute.
  split; [exact Hs|].
  destruct (exists_iff_row "db" "9" wit_rows _ _ true (run_split _ _ _ Hs)) as (_ & r & Hr & Hb).
  injection Hr as <-. exact (proj1 (Hb true eq_refl) eq_refl).
Defined.
End StoreCorrect.
