(* ===== verification/InputCorrect.v ===== *)
(** * What is guaranteed about what clients send

    Theorems about the pushed archive ([unzip.go], [archive.go]), the Siphonfile
    ([metadata.go]) and the values kept for a request ([gorilla/context]). *)

From S2P Require Import Prelude GoStrings GoUrl GoFloat GoPath FileSys Context Services.
From S2P Require Import Unzip Metadata Archive Packager Simulated.

Module InputCorrect.

(** ** The archive *)
Section archive.
Context `{Services}.
Implicit Types (w : World) (a : Archive.Archive) (f : fsys).

(** C6: Unpacking an archive without symbolic links into a fresh directory changes
    nothing outside that directory, whatever the names of the entries and however
    the unpacking ends. *)
Theorem unzip_confined src dest f e f' :
  rooted dest = true → no_dotdot (comps dest) → comps dest ≠ [] → Unzip.tree_ok (comps dest) f →
  (∀ b files, ReadFile f src = Ok b → zip_read b = Ok files → Forall (λ z, z_link z = false) files) →
  Unzip.Unzip_ src dest f = (e, f') →
  ∀ cp, ¬ comps dest `prefix_of` cp → fs_nodes f' !! cp = fs_nodes f !! cp.
Proof.
  intros Hr Hdd Hne Ht Hl. rewrite /Unzip.Unzip_.
  destruct (ReadFile f src) as [b|] eqn:Eb; [|by intros [= _ <-]].
  destruct (zip_read b) as [files|] eqn:Ez; [|by intros [= _ <-]].
  intros Hu. by destruct (Unzip.unzip_files_below dest files f e f') as [_ Hb]; eauto.
Qed.

(** C7: [Compare] returns exactly the files that the listing adds to, changes in
    and drops from the files the server has, each once, and only if the archive has
    the new content of every added and changed file; it changes neither files nor
    stores. *)
Theorem compare_is_difference a files w comp a' w' :
  Archive.listing a = None → Archive.Compare a files w = (Ret (Ok comp, a'), w') →
  ∃ l t, json_listing (Archive.listing_bytes a (w_fs w)) = Ok l ∧ w' = set_tick t w ∧
    let listing := Archive.nil_map l in
    (∀ n, n ∈ Archive.added comp ↔ is_Some (listing !! n) ∧ files !! n = None) ∧
    (∀ n, n ∈ Archive.changed comp ↔ ∃ h h', listing !! n = Some h ∧ files !! n = Some h' ∧ h ≠ h') ∧
    (∀ n, n ∈ Archive.removed comp ↔ listing !! n = None ∧ is_Some (files !! n)) ∧
    NoDup (Archive.added comp ++ Archive.changed comp ++ Archive.removed comp) ∧
    (∀ n, n ∈ Archive.added comp ∨ n ∈ Archive.changed comp → Archive.diffExists a' n (w_fs w) = true).
Proof.
  intros Hl Hrun.
  refine (wp_ret_inv _ (λ r w', ∀ comp, r.1 = Ok comp →
    ∃ l t, json_listing (Archive.listing_bytes a (w_fs w)) = Ok l ∧ w' = set_tick t w ∧
      let listing := Archive.nil_map l in
      (∀ n, n ∈ Archive.added comp ↔ is_Some (listing !! n) ∧ files !! n = None) ∧
      (∀ n, n ∈ Archive.changed comp ↔ ∃ h h', listing !! n = Some h ∧ files !! n = Some h' ∧ h ≠ h') ∧
      (∀ n, n ∈ Archive.removed comp ↔ listing !! n = None ∧ is_Some (files !! n)) ∧
      NoDup (Archive.added comp ++ Archive.changed comp ++ Archive.removed comp) ∧
      (∀ n, n ∈ Archive.added comp ∨ n ∈ Archive.changed comp → Archive.diffExists r.2 n (w_fs w) = true))
    (λ _ _, True) _ _ _ _ Hrun comp eq_refl).
  apply Archive.wp_Compare; [done| |done].
  intros t l comp1 a1 Hj Hok (Ha & Hc & Hr & Hn & Hnr) Hd comp2 [= <-].
  exists l, t. cbv zeta. split_and!; try done. rewrite app_assoc. apply NoDup_app. split_and!; [done| |done].
  intros n Hn' [Hl' _]%Hr. apply elem_of_app in Hn' as [[[? ?] _]%Ha|(? & ? & ? & _)%Hc]; congruence.
Qed.

(** Once [parseListingFile] has accepted a listing, the file that is looked up
    for any listed name lies below the archive's own temporary directory, and every
    listed hash is non-empty. *)
Theorem accepted_listing_confined a w a' w' l :
  Archive.listing a = None → Archive.parseListingFile a w = (Ret (None, a'), w') →
  Archive.listing a' = Some l →
  rooted (Archive.tempDir a) = true → no_dotdot (comps (Archive.tempDir a)) →
  ∀ n h, l !! n = Some h →
    comps (Archive.tempDir a) `prefix_of` comps (Archive.diffPath a' n) ∧ h ≠ "".
Proof.
  intros Hl Hrun Hl' Hr Hdd n h Hn.
  pose proof (wp_ret_inv _ (λ r w', r.1 = None → Archive.tempDir r.2 = Archive.tempDir a ∧
    Archive.listing_ok (Archive.nil_map (Archive.listing r.2))) (λ _ _, True) _ _ _
    ltac:(by apply Archive.wp_parseListingFile) Hrun eq_refl) as [Ht Hok].
  rewrite /= in Ht Hok. rewrite Hl' in Hok. destruct (Hok n h Hn) as [Hc Hh]. split; [|done].
  rewrite -Ht in Hr Hdd |- *. by apply Archive.diffPath_below.
Qed.
End archive.

(** The check for ".." in entry names does not confine an archive that contains
    a symbolic link: the link is created as it stands and the next entry is written
    through it, here replacing a file outside the destination. *)
Theorem unzip_link_escapes :
  ∃ files f', Forall (λ z, Contains (z_name z) ".." = false) files ∧
    Unzip.unzip_files files "/tmp/d" Simulated.base_fs = (None, f') ∧
    ReadFile Simulated.base_fs "/etc/passwd" = Ok "root" ∧ ReadFile f' "/etc/passwd" = Ok "evil".
Proof.
  exists [mkZip "x" false true None "/etc" None; mkZip "x/passwd" false false None "evil" None].
  exists (Unzip.unzip_files
    [mkZip "x" false true None "/etc" None; mkZip "x/passwd" false false None "evil" None]
    "/tmp/d" Simulated.base_fs).2.
  split_and!; [by repeat constructor|by vm_compute..].
Qed.

(** ** The Siphonfile *)
Section metadata.
Context `{GoLib}.

(** [ParseMetadata] accepts a Siphonfile when it decodes to metadata whose base
    version is a number and whose texts are within their limits.  Keys it does not
    know are ignored by the decoder, although its comment says that they are
    rejected. *)
Lemma parse_metadata_iff b m :
  Metadata.ParseMetadata b = Ok m ↔ json_metadata b = Ok m ∧ Metadata.valid m.
Proof.
  rewrite /Metadata.ParseMetadata. destruct (json_metadata b) as [m'|e]; [|naive_solver].
  split.
  - case_decide as Hv; [done|]. destruct (ParseFloat_ok _) eqn:Hf; [|done]. cbn [negb].
    repeat match goal with |- context [Metadata.too_long ?s ?n] =>
      destruct (Metadata.too_long s n) eqn:?; [done|] end.
    intros [= <-]. split; [done|]. split; [done|..]; by apply Metadata.too_long_false.
  - intros [[= ->] [[Hv Hf] H1 H2 H3 H4 H5 H6]]. rewrite decide_False // Hf. cbn [negb].
    apply Metadata.too_long_false in H1, H2, H3, H4, H5, H6.
    by rewrite H1 H2 H3 H4 H5 H6.
Qed.

Lemma base_version_safe b m :
  Metadata.ParseMetadata b = Ok m → BaseVersion m ≠ "" ∧ shell_safe (BaseVersion m) = true.
Proof. intros [_ [[? ?] _ _ _ _ _ _]]%parse_metadata_iff. split; [done|]. by apply ParseFloat_safe. Qed.

(** The command of the packager after the prefix that sets up its environment. *)
Definition packager_command (projectPath baseVersion : string) : string :=
  "siphon-packager.py --footer --project-path " +:+ projectPath +:+
  " --base-version " +:+ baseVersion +:+ " --minify".

(** Bytes that a shell takes as they are, in a path and between words. *)
Definition path_char (c : ascii) : bool := shell_safe_char c || bool_decide (c = slash).
Definition command_char (c : ascii) : bool := path_char c || bool_decide (c = " "%char).

Lemma all_chars_mono (P P' : ascii → bool) s :
  (∀ c, P c = true → P' c = true) → all_chars P s = true → all_chars P' s = true.
Proof.
  intros HP. induction s as [|c s IH]; [done|]. cbn. rewrite !andb_true_iff. intros [??]. auto.
Qed.
Lemma all_chars_safe s : all_chars shell_safe_char s = shell_safe s.
Proof. induction s as [|c s IH]; [done|]. cbn. by rewrite IH. Qed.
Lemma all_chars_no_char P c s : P c = false → all_chars P s = true → has_char c s = false.
Proof.
  intros Hc. induction s as [|d s IH]; [done|]. cbn. rewrite andb_true_iff. intros [Hd Hs].
  rewrite IH //. rewrite bool_decide_eq_false_2 //. intros ->. congruence.
Qed.

(** C8: A Siphonfile cannot inject anything into the shell command line of the
    packager, into which its base version is put without quotes: when [ParseMetadata]
    accepts it, and the directory of the project (a temporary directory) is a path
    of letters, digits, signs, points and slashes, the command is one command of
    seven words, the program, its options, the directory and the base version, and
    has no byte that is special to the shell. *)
Theorem no_shell_injection b m d :
  Metadata.ParseMetadata b = Ok m → d ≠ "" → all_chars path_char d = true →
  Packager.packager_script d (BaseVersion m) =
    "source $NVM_DIR/nvm.sh && " +:+ packager_command d (BaseVersion m) ∧
  Split (packager_command d (BaseVersion m)) " " =
    ["siphon-packager.py"; "--footer"; "--project-path"; d; "--base-version"; BaseVersion m; "--minify"] ∧
  "" ∉ Split (packager_command d (BaseVersion m)) " " ∧
  all_chars command_char (packager_command d (BaseVersion m)) = true.
Proof.
  intros [Hne Hs]%base_version_safe Hdne Hd. rewrite -all_chars_safe in Hs.
  assert (has_char " " d = false) as Hsd by by eapply (all_chars_no_char path_char).
  assert (has_char " " (BaseVersion m) = false) as Hsv
    by by eapply (all_chars_no_char shell_safe_char).
  assert (Split (packager_command d (BaseVersion m)) " " =
    ["siphon-packager.py"; "--footer"; "--project-path"; d; "--base-version"; BaseVersion m; "--minify"])
    as Hw.
  { rewrite /packager_command.
    change ("siphon-packager.py" :: "--footer" :: "--project-path" ::
      Split (d +:+ String " " ("--base-version " +:+ BaseVersion m +:+ " --minify")) " " =
      ["siphon-packager.py"; "--footer"; "--project-path"; d; "--base-version"; BaseVersion m; "--minify"]).
    rewrite Split_app //. do 4 f_equal.
    change ("--base-version" :: Split (BaseVersion m +:+ String " " "--minify") " " =
      ["--base-version"; BaseVersion m; "--minify"]).
    by rewrite Split_app. }
  split_and!; [done|done|rewrite Hw; set_solver|]. clear Hw.
  rewrite /packager_command !all_chars_app.
  rewrite (all_chars_mono path_char command_char d) //; [|by intros c; rewrite /command_char => ->].
  rewrite (all_chars_mono shell_safe_char command_char (BaseVersion m)) //.
  by intros c; rewrite /command_char /path_char => ->.
Qed.
End metadata.
(** ** The values of a request *)
Section context.
Implicit Types (s : Context.store) (r : nat).

(** The operations that handlers of concurrent requests interleave; each is atomic
    under the package's mutex. *)
Inductive ctx_op :=
| OSet (now : Z) (r : nat) (key : ctxkey) (val : ctxval)
| ODelete (r : nat) (key : ctxkey)
| OClear (r : nat).
Definition op_request (o : ctx_op) : nat :=
  match o with OSet _ r _ _ | ODelete r _ | OClear r => r end.
Definition ctx_step s (o : ctx_op) : Context.store :=
  match o with
  | OSet now r key val => Context.Set_ now r key val s
  | ODelete r key => Context.Delete r key s
  | OClear r => Context.Clear r s
  end.

Lemma ctx_step_other s o r : op_request o ≠ r → Context.GetAll r (ctx_step s o) = Context.GetAll r s.
Proof.
  rewrite /Context.GetAll. destruct o as [now r' k v|r' k|r']; simpl; intros Hne.
  - rewrite Context.lookup_Set. by case_decide.
  - rewrite /Context.Delete. destruct (Context.data s !! r') eqn:E; [|done]. by rewrite /= lookup_insert_ne.
  - by rewrite /= lookup_delete_ne.
Qed.

Lemma ctx_step_wf s o : Context.wf s → Context.wf (ctx_step s o).
Proof.
  destruct o; [apply Context.wf_Set|apply Context.wf_Delete|apply Context.wf_clear].
Qed.

(** Whatever other requests do, in whatever order, a request reads back the
    value it stored last, until it is cleared; then nothing of it is left.  The two
    tables of the package always cover the same requests. *)
Theorem context_isolated now r key val s ops :
  Context.wf s → Forall (λ o, op_request o ≠ r) ops →
  let s' := foldl ctx_step (Context.Set_ now r key val s) ops in
  Context.Get r key s' = Some val ∧
  (∀ key', key' ≠ key → Context.Get r key' s' = Context.Get r key' s) ∧
  Context.GetAllOk r (Context.Clear r s') = (∅, false) ∧ Context.wf s'.
Proof.
  intros Hwf Hops s'.
  assert (∀ s0, Context.wf s0 → Context.GetAll r (foldl ctx_step s0 ops) = Context.GetAll r s0 ∧
    Context.wf (foldl ctx_step s0 ops)) as Hkeep.
  { induction Hops as [|o ops Ho Hops IH]; intros s0 H0; [done|]. simpl.
    destruct (IH (ctx_step s0 o)) as [-> Hw]; [by apply ctx_step_wf|]. by rewrite ctx_step_other. }
  destruct (Hkeep (Context.Set_ now r key val s)) as [Hg Hw]; [by apply Context.wf_Set|].
  rewrite -/s' /Context.GetAll in Hg Hw. rewrite /Context.Get Hg.
  split_and!; [by apply Context.Get_Set_eq| | |done].
  - intros key' Hne. apply Context.Get_Set_ne. congruence.
  - by rewrite /Context.GetAllOk /= lookup_delete_eq.
Qed.

(** [Purge] with a positive age removes exactly the requests whose first value
    is older than that, keeps the values of the others, and returns how many it
    removed; with any other age it removes all. *)
Theorem purge_removes_old now maxAge s :
  Context.wf s →
  let '(count, s') := Context.Purge now maxAge s in
  let old r := (maxAge ≤ 0 ∨ default 0 (Context.datat s !! r) < now - maxAge)%Z in
  (∀ r, old r → Context.GetAll r s' = None) ∧
  (∀ r, ¬ old r → Context.GetAll r s' = Context.GetAll r s) ∧
  Context.wf s' ∧ count + size (Context.data s') = size (Context.data s).
Proof.
  intros Hwf. rewrite /Context.Purge. case_decide as Ha.
  { simpl. split_and!; [by intros|naive_solver|done|by rewrite map_size_empty; lia]. }
  pose proof (Context.purge_loop (now - maxAge) (elements (dom (Context.data s))) s
    (NoDup_elements _)) as Hl.
  destruct (foldr _ _ _) as [count s']. destruct Hl as (Hd & Ht & Hc). cbv zeta.
  assert (∀ r, Context.data s' !! r =
    if decide (default 0 (Context.datat s !! r) < now - maxAge)%Z then None else Context.data s !! r) as Hd'.
  { intros r. rewrite Hd. destruct (decide (r ∈ dom (Context.data s))) as [Hr|Hr].
    - repeat case_decide; set_solver.
    - rewrite decide_False; [|set_solver]. apply not_elem_of_dom in Hr. rewrite Hr. by case_decide. }
  split_and!.
  - intros r [?|Hr]; [done|]. by rewrite /Context.GetAll Hd' decide_True.
  - intros r Hr. rewrite /Context.GetAll Hd' decide_False //. tauto.
  - apply set_eq. intros r. rewrite !elem_of_dom Hd Ht.
    assert (is_Some (Context.data s !! r) ↔ is_Some (Context.datat s !! r)) as Hs.
    { by rewrite -!elem_of_dom Hwf. }
    case_decide; [|done]. split; by intros [? ?].
  - rewrite Hc -!size_dom /size /set_size /=.
    assert (elements (dom (Context.data s')) ≡ₚ
      filter (λ r, ¬ (default 0 (Context.datat s !! r) < now - maxAge)%Z) (elements (dom (Context.data s)))) as ->.
    { apply NoDup_Permutation; [apply NoDup_elements|apply NoDup_filter, NoDup_elements|].
      intros r. rewrite list_elem_of_filter !elem_of_elements !elem_of_dom Hd'. case_decide; [|tauto].
      split; [by intros [? ?]|tauto]. }
    rewrite -length_app. by rewrite (Permutation_length (filter_app_complement _ _)).
Qed.
End context.
(** ** Runs *)
Import Simulated.

Definition wit_fs : fsys :=
  (WriteFile (set_node base_fs ["tmp"; "d"] NDir) "/tmp/d/archive.zip"
     "listing.json:a.js=h1;b.js=h2|diffs/:|diffs/a.js:AAA").2.

Lemma wit_no_dotdot : no_dotdot (comps "/tmp/d").
Proof.
  assert (comps "/tmp/d" = ["tmp"; "d"]) as -> by by vm_compute.
  intros [[=]|[[=]|Hin%elem_of_nil]%elem_of_cons]%elem_of_cons. done.
Qed.
Lemma wit_outside : ¬ comps "/tmp/d" `prefix_of` ["etc"; "passwd"].
Proof.
  assert (comps "/tmp/d" = ["tmp"; "d"]) as -> by by vm_compute.
  intros Hp%prefix_cons_inv_1. done.
Qed.

Lemma no_links_run (f : fsys) :
  forallb (λ kn, match kn.2 with NLink _ => false | _ => true end) (map_to_list (fs_nodes f)) = true →
  ∀ cp t, fs_nodes f !! cp ≠ Some (NLink t).
Proof.
  rewrite forallb_forall. intros Hf cp t E. specialize (Hf (cp, NLink t)). simpl in Hf.
  discriminate Hf. by apply list_elem_of_In, elem_of_map_to_list.
Qed.

Lemma wit_tree : Unzip.tree_ok ["tmp"; "d"] wit_fs.
Proof.
  split.
  - intros cp Hcp Hne. destruct cp as [|x [|y [|z cp]]]; [done|..].
    + apply prefix_cons_inv_1 in Hcp as ->. by vm_compute.
    + pose proof Hcp as ->%prefix_cons_inv_1. apply prefix_cons_inv_2 in Hcp.
      apply prefix_cons_inv_1 in Hcp as ->. by vm_compute.
    + apply prefix_length in Hcp. simpl in Hcp. lia.
  - intros cp t _. apply no_links_run. by vm_compute.
Qed.

Lemma unzip_confined_witness :
  let res := Unzip.Unzip_ "/tmp/d/archive.zip" "/tmp/d" wit_fs in
  res.1 = None ∧ ReadFile res.2 "/tmp/d/diffs/a.js" = Ok "AAA" ∧
  fs_nodes res.2 !! ["etc"; "passwd"] = fs_nodes wit_fs !! ["etc"; "passwd"].
Proof.
  intros res. split_and!; [by vm_compute|by vm_compute|].
  apply (unzip_confined "/tmp/d/archive.zip" "/tmp/d" wit_fs res.1 res.2 eq_refl).
  - exact wit_no_dotdot.
  - discriminate.
  - exact wit_tree.
  - intros b files Hb Hz.
    assert (match ReadFile wit_fs "/tmp/d/archive.zip" with
            | Ok b => match zip_read b with Ok l => forallb (λ z, negb (z_link z)) l | Err _ => true end
            | Err _ => true end = true) as Hf by by vm_compute.
    rewrite Hb Hz forallb_forall in Hf. apply Forall_forall. intros z Hin%list_elem_of_In.
    by apply negb_true_iff, Hf.
  - apply surjective_pairing.
  - exact wit_outside.
Defined.

(** The same archive, unpacked, in a world. *)
Definition wit_archive_world : World :=
  set_fs (Unzip.Unzip_ "/tmp/d/archive.zip" "/tmp/d" wit_fs).2 (sim_world [] [] []).
Definition wit_archive : Archive.Archive := Archive.mkArchive "/tmp/d" None.
Definition wit_listing : gmap string string := {["a.js" := "h1"; "b.js" := "h2"]}.
Definition wit_files : gmap string string := {["b.js" := "h2"; "c.js" := "h3"]}.
Definition wit_comparison : Archive.ArchiveComparison :=
  Archive.mkComparison ["a.js"] [] ["c.js"].

Lemma compare_is_difference_witness :
  ∃ l, json_listing (Archive.listing_bytes wit_archive (w_fs wit_archive_world)) = Ok l ∧
    ("a.js" ∈ Archive.added wit_comparison ↔ is_Some (Archive.nil_map l !! "a.js") ∧ wit_files !! "a.js" = None).
Proof.
  assert ((Archive.Compare wit_archive wit_files wit_archive_world).1 =
    Ret (Ok wit_comparison, Archive.mkArchive "/tmp/d" (Some wit_listing))) as Hr
    by by vm_compute.
  destruct (compare_is_difference wit_archive wit_files wit_archive_world wit_comparison _ _ eq_refl
    (run_split _ _ _ Hr)) as (l & t & Hl & _ & Ha & _).
  exists l. exact (conj Hl (Ha "a.js")).
Defined.

Lemma accepted_listing_confined_witness :
  comps "/tmp/d" `prefix_of` comps (Archive.diffPath wit_archive "a.js").
Proof.
  assert ((Archive.parseListingFile wit_archive wit_archive_world).1 =
    Ret (None, Archive.mkArchive "/tmp/d" (Some wit_listing))) as Hr by by vm_compute.
  assert (wit_listing !! "a.js" = Some "h1") as Hn by by vm_compute.
  destruct (accepted_listing_confined wit_archive wit_archive_world (Archive.mkArchive "/tmp/d" (Some wit_listing))
    (Archive.parseListingFile wit_archive wit_archive_world).2 wit_listing eq_refl
    (run_split (Archive.parseListingFile wit_archive) wit_archive_world _ Hr)
    eq_refl eq_refl wit_no_dotdot "a.js" "h1" Hn) as [Hp _].
  exact Hp.
Defined.

Lemma no_shell_injection_witness :
  Split (packager_command "/tmp/project-path123" "0.5") " " =
    ["siphon-packager.py"; "--footer"; "--project-path"; "/tmp/project-path123"; "--base-version"; "0.5";
     "--minify"] ∧
  (∃ e, Metadata.ParseMetadata (H:=sim_lib) "0.5; rm -rf /" = Err e).
Proof.
  set (m := mkMetadata "0.5" "" "" (mkPlatform "" "") (mkPlatform "" "")).
  assert (Metadata.ParseMetadata (H:=sim_lib) "0.5" = Ok m) as Hm by by vm_compute.
  split; [|eexists; by vm_compute].
  destruct (no_shell_injection (H:=sim_lib) "0.5" m "/tmp/project-path123" Hm) as (_ & Hs & _);
    [done|by vm_compute|]. exact Hs.
Defined.

Lemma context_isolated_witness :
  Context.Get 1 AppIDKey (foldl ctx_step (Context.Set_ 5 1 AppIDKey (VStr "app1") Context.empty)
    [OSet 6 2 AppIDKey (VStr "app2"); OClear 2; ODelete 3 AppIDKey]) = Some (VStr "app1").
Proof.
  apply (context_isolated 5 1 AppIDKey (VStr "app1") Context.empty
    [OSet 6 2 AppIDKey (VStr "app2"); OClear 2; ODelete 3 AppIDKey]).
  - reflexivity.
  - by repeat constructor.
Defined.

Lemma purge_removes_old_witness :
  let s := Context.Set_ 90 2 AppIDKey (VStr "b") (Context.Set_ 5 1 AppIDKey (VStr "a") Context.empty) in
  (Context.Purge 100 50 s).1 = 1 ∧ Context.GetAll 1 (Context.Purge 100 50 s).2 = None.
Proof.
  intros s. split; [by vm_compute|].
  pose proof (purge_removes_old 100 50 s) as Hp. destruct (Context.Purge 100 50 s) as [count s'].
  apply Hp; [by vm_compute|]. right. by vm_compute.
Defined.
End InputCorrect.
