(* ===== verification/ServerCorrect.v ===== *)
(** * What the server guarantees

    Theorems about whole requests: dispatch and authorisation ([routes.go],
    [auth.go], gorilla/mux), the survival of the process, the status of a push, and
    what /submit and /pull do to the stores. *)

From S2P Require Import Prelude GoStrings GoPath FileSys Context Services S3 Cache.
From S2P Require Import Db Metadata Archive Utils Packager Push PushSync Submit Pull.
From S2P Require Import Auth Gzip Mux Routes Frame Simulated.

Module ServerCorrect.

Section server.
Context `{Services}.
Implicit Types (w : World) (req : request).

(** C9: What the router does with a request.  A path that is not clean is answered
    with a redirection (301) to the clean one, and nothing else happens.  With a
    clean path, a request for one of the four endpoints -- /v1/push/<app>/ (GET, POST),
    /v1/pull/<app>/ and /v1/submit/<app>/ (POST), /v1/healthcheck/ (GET), where <app>
    is a non-empty text without a slash -- runs the handler of this endpoint, with the
    app ID among the variables of the request, and clears the values of the request
    afterwards; any other request is answered 404. *)
Theorem dispatch_exact req w :
  let path := Mux.cleanPath (rq_path req) in
  if decide (path ≠ rq_path req) then
    Mux.ServeHTTP Routes.initRouter req w =
      (Ret tt, set_resp (WriteHeader 301 (HeaderSet "Location" (url_string req path) (w_resp w))) w)
  else
    (∃ e, Routes.endpoint_of req e ∧ (∀ e', Routes.endpoint_of req e' → e' = e) ∧
       Mux.ServeHTTP Routes.initRouter req w =
       Mux.ClearHandler (Routes.endpoint_handler e) req
         (set_ctx (Context.Set_ (w_now w) (rq_id req) Mux.routeKey (VRoute (Routes.endpoint_index e))
                     (Context.Set_ (w_now w) (rq_id req) Mux.varsKey (VVars (Routes.endpoint_vars e))
                        (w_ctx w))) w)) ∨
    (∀ e, ¬ Routes.endpoint_of req e) ∧
    Mux.ServeHTTP Routes.initRouter req w =
      (Ret tt, set_resp (HttpError "404 page not found" 404 (w_resp w))
                 (set_ctx (Context.Clear (rq_id req) (w_ctx w)) w)).
Proof.
  cbv zeta. rewrite /Mux.ServeHTTP. case_decide; [done|].
  pose proof (Routes.dispatch req) as Hd. destruct (Mux.Router_Match _ _ _) as [[] m].
  - left. destruct Hd as (e & He & ->). exists e. split_and!; [done| |].
    + intros e'. by apply Routes.endpoint_unique.
    + by rewrite Routes.initRouter_routes.
  - right. split; [done|]. by rewrite Routes.initRouter_routes.
Qed.

(** C10: A request to another endpoint than /v1/healthcheck/ whose handshake does not
    decode, is not signed, is for another action or another app, or is malformed
    changes nothing but its own response: not a row, not an object, not a file, no
    message is sent, the values that are kept for other requests stay as they are, and
    none of its own are left behind.  (With SIPHON_ENV=testing every handshake counts as
    signed.) *)
Theorem unauthorised_changes_nothing req w o w' :
  ¬ Routes.handshake_ok req w → ¬ Routes.endpoint_of req Routes.EHealth →
  Routes.serve req w = (o, w') →
  o = Ret (w_resp w') ∧ Routes.left_clean req w w'.
Proof.
  intros Hno Hh. rewrite /Routes.serve.
  assert (¬ Routes.handshake_ok req (set_resp new_response w)) as Hno'.
  { intros (obj & ? & Hv & Hrest). apply Hno. exists obj. split; [done|].
    by rewrite (Auth.verifyToken_run _ _ w) in Hv. }
  pose proof (Routes.wp_unauthorised req (set_resp new_response w) Hno' Hh) as Hwp. rewrite /wp in Hwp.
  destruct (Mux.ServeHTTP _ _ _) as [[a|[s|s]] w1].
  - destruct Hwp as (rs & x & -> & Hx). intros [= <- <-]. split; [done|]. by exists rs, x.
  - destruct Hwp as [(rs & x & -> & Hx) _]. intros [= <- <-]. split; [done|]. by exists rs, x.
  - by destruct Hwp as [_ [? ?]].
Qed.

(** The middleware runs the handler it wraps only for a token that decodes,
    whose signature verifies, whose action is the endpoint's, whose app is the
    path's, and that names a user or a submission but not both; the handler then
    finds these in the context and everything else in the world as it was.
    Otherwise the answer is 401 (or the request panics) and nothing else changed. *)
Theorem middleware_guards h req w o w' :
  Auth.AuthMiddleware h req w = (o, w') →
  (∃ x obj, Auth.authorised req obj (set_ctx x w) ∧ h req (set_ctx x w) = (o, w')) ∨
  (∃ x msg, o = Ret tt ∧ w' = set_resp (HttpError msg 401 (w_resp w)) (set_ctx x w)) ∨
  (∃ x cr, o = Crash cr ∧ w' = set_ctx x w).
Proof.
  intros Hrun.
  set (R := λ o w', (∃ x obj, Auth.authorised req obj (set_ctx x w) ∧ h req (set_ctx x w) = (o, w')) ∨
    (∃ x msg, o = Ret tt ∧ w' = set_resp (HttpError msg 401 (w_resp w)) (set_ctx x w)) ∨
    (∃ x cr, o = Crash cr ∧ w' = set_ctx x w)).
  assert (wp (Auth.AuthMiddleware h req) (λ a w', R (Ret a) w') (λ c w', R (Crash c) w') w) as Hwp.
  { apply Auth.wp_AuthMiddleware.
    - intros x obj Ha _ _. rewrite /wp. destruct (h req (set_ctx x w)) as [[a|c] w1] eqn:E;
        left; by exists x, obj.
    - intros x msg _. right. left. by exists x, msg.
    - intros x cr _. right. right. by exists x, (Panic cr). }
  pose proof (wp_inv _ _ _ _ _ _ Hwp Hrun) as Hr. by destruct o.
Qed.

(** *** The process survives *)
#[local] Instance framed_env e : Framed (λ w, w_env w = e).
Proof. by split. Qed.

(** The goroutine that serves a request never reaches [log.Fatal] and never changes
    the configuration.  ([net/http] recovers from its panics; goroutines that the
    libraries start are not part of this.) *)
Lemma server_survives req w :
  ∃ rs w', Routes.serve req w = (Ret rs, w') ∧ w_env w' = w_env w.
Proof.
  rewrite /Routes.serve.
  assert (wp (Mux.ServeHTTP Routes.initRouter req) (λ _ w', w_env w' = w_env w)
    (λ c w', w_env w' = w_env w ∧ ∀ s, c ≠ Fatal s) (set_resp new_response w)) as Hwp.
  { apply Routes.wp_routes_ServeHTTP; [done|done|]. intros e x _ _ _.
    eapply wp_mono; [by apply (kept_endpoint (λ w', w_env w' = w_env w))|done|].
    by intros [s|s] w' [He Hs]. }
  rewrite /wp in Hwp. destruct (Mux.ServeHTTP _ _ _) as [[a|[s|s]] w1].
  - by exists (w_resp w1), w1.
  - destruct Hwp as [He _]. by exists (w_resp w1), w1.
  - destruct Hwp as [_ Hs]. by destruct (Hs s).
Qed.

(** *** The status of a push *)
Definition status_sent (w : World) : Prop := rs_status (w_resp w) = Some 200%Z.

#[local] Instance framed_status : Framed status_sent.
Proof.
  split; try done. intros f w Hf. rewrite /status_sent /rs_status.
  destruct (w_resp w) as [hd [[st hd']|] b z]; [|done]. simpl. intros [= ->].
  by destruct Hf; destruct z.
Qed.

(** A push that reaches [handle] is answered with status 200, whether it ends
    with "Done.", with an error message or in a panic: the progress lines have sent
    the status line before any error is known, so the 500 of [http.Error] is lost. *)
Theorem push_status_always_200 req h w :
  rs_sent (w_resp w) = None → status_sent (Push.handle req h w).2.
Proof.
  intros Hw.
  assert (wp (Push.handle req h) (λ _ w', status_sent w') (λ _ w', status_sent w') w) as Hwp.
  2:{ rewrite /wp in Hwp. by destruct (Push.handle req h w) as [[]]. }
  rewrite /Push.handle. apply wp_bind, wp_bind, wp_BufferLine. set (w1 := set_resp _ w).
  assert (status_sent w1) as H1'.
  { rewrite /status_sent /rs_status /= /Write_ /WriteHeader. destruct (w_resp w) as [hd sent b z].
    simpl in Hw. subst sent. by destruct z. }
  assert (∀ A (m : MW A) w1, status_sent w1 → kept status_sent m →
    wp m (λ _ w', status_sent w') (λ _ w', status_sent w') w1) as Hk.
  { intros A m w2 H2' Hm. eapply wp_mono; [by apply Hm|done|]. by intros c w' [? _]. }
  eapply wp_mono; [apply Hk; [exact H1'|]|intros res w2 H2'; cbv beta; apply Hk; [done|]|done]; kept_tac.
Qed.

(** ** /submit *)
Context `{!S3Laws s3T} `{!McLaws mcT} `{!Db.PgLaws pgT} `{!Db.PgStable pgT}.


(** The data source [OpenDB] makes in this environment. *)
Definition env_db (w : World) : string :=
  "postgres://" +:+ getenv w "POSTGRES_BUNDLER_ENV_POSTGRES_USER" +:+ ":" +:+
  getenv w "POSTGRES_BUNDLER_ENV_POSTGRES_PASSWORD" +:+ "@" +:+
  getenv w "POSTGRES_BUNDLER_PORT_5432_TCP_ADDR" +:+ "/" +:+
  getenv w "POSTGRES_BUNDLER_ENV_POSTGRES_DB" +:+ "?sslmode=disable".
Lemma wp_OpenDB Q C w : Q (env_db w) w → wp Db.OpenDB Q C w.
Proof. done. Qed.

(** C11: Let no result stream of PostgreSQL break off ([PgStable]).  A submission ID under
    which some app has a row is not submitted again: whatever the request to the submit
    handler says otherwise, and whether the handler returns or panics, it changes nothing
    but its response: no row, no object, nothing in memcached, no file, no message.
    (Two requests at the same time are not part of this.) *)
Theorem submit_never_twice req w app n v o w' :
  Db.table (env_db w) w !! (app, Some (PostFormValue req "submission_id"), n) = Some v →
  Submit.Submit_ req w = (o, w') →
  ∃ rs s, w' = set_resp rs (set_pg s w) ∧ Db.table (env_db w) w' = Db.table (env_db w) w.
Proof.
  intros Hrow Hrun.
  set (R := λ w', ∃ rs s, w' = set_resp rs (set_pg s w) ∧ Db.table (env_db w) w' = Db.table (env_db w) w).
  assert (R w) as Hw.
  { exists (w_resp w), (w_pg w). split; [by destruct w|done]. }
  assert (wp (Submit.Submit_ req) (λ _ w', R w') (λ _ w', R w') w) as Hwp.
  2:{ pose proof (wp_inv _ _ _ _ _ _ Hwp Hrun). by destruct o. }
  apply wp_bind, wp_ctx_string; [|done]. intros a _. cbv zeta. case_decide as Hids.
  { apply wp_on_resp. exists (HttpError "App ID and submission ID are required." Submit.StatusBadRequest (w_resp w)), (w_pg w). split; [by destruct w|done]. }
  apply wp_bind, wp_OpenDB, wp_bind, Db.wp_SubmissionExists.
  - intros s b Hs Hb. destruct b.
    + apply wp_on_resp. by eexists _, s.
    + exfalso. assert (false = true) as ?; [|done]. apply Hb. eauto.
  - intros s e Hs. apply wp_on_resp. by eexists _, s.
Qed.

(** ** /pull *)

(** In [w'], reached from [w]: same configuration, rows and objects, and memcached
    agrees with S3. *)
Record reads w w' : Prop := {
  rd_env : w_env w' = w_env w;
  rd_table : Db.table (env_db w) w' = Db.table (env_db w) w;
  rd_blobs : blobs w' = blobs w;
  rd_coherent : ∀ app sub, Cache.coherent ∅ (Cache.env_cache app sub w) w';
}.

Section reading.
Context (w : World) (Hnn : ∀ app, Db.no_null app (Db.table (env_db w) w)).
Abbreviation R := (reads w).

Lemma reads_step w1 w2 :
  R w1 → w_env w2 = w_env w1 → Db.table (env_db w) w2 = Db.table (env_db w) w1 → w_s3 w2 = w_s3 w1 →
  w_mc w2 = w_mc w1 → R w2.
Proof.
  intros [He Ht Hb Hc] He2 Ht2 Hs Hm. split; [congruence..|by rewrite /blobs Hs|].
  intros a sb. eapply Cache.coherent_mono; [apply Hc|by rewrite /blobs Hs|]. intros h _. by rewrite /Cache.memo Hm.
Qed.

Lemma reads_fs {A} (op : fsys → A * fsys) : kept R (on_fs op).
Proof. intros w1 H1'. apply wp_on_fs. intros. by apply (reads_step w1). Qed.
Lemma reads_resp f : kept R (on_resp f).
Proof. intros w1 H1'. apply wp_on_resp. by apply (reads_step w1). Qed.
Lemma reads_map m : kept R (range_map m).
Proof. intros w1 H1'. apply wp_range_map. intros. by apply (reads_step w1). Qed.
Lemma reads_Get c k a sb : c = Cache.env_cache a sb w → kept R (Cache.Get c k).
Proof.
  intros -> w1 [He Ht Hb Hc]. apply (Cache.wp_Get ∅); [done|apply Hc|set_solver|].
  intros w2 r (m & s & ->) Hb2 Hc2 _. split; [done|done|congruence|].
  intros a' s'. by eapply Cache.coherent_same.
Qed.
Lemma reads_GetFiles a sb : has_char squote sb = false → kept R (Db.GetFiles (env_db w) a sb).
Proof.
  intros Hsq w1 H1'. pose proof H1' as [_ Ht _ _].
  apply Db.wp_GetFiles; [by rewrite Ht|done|..]; intros; by apply (reads_step w1).
Qed.
Lemma reads_assets a sb :
  has_char squote sb = false → kept R (Db.GetSliceFilteredFiles (env_db w) a sb Pull.assetsLike).
Proof.
  intros Hsq w1 H1'. pose proof H1' as [_ Ht _ _].
  apply Db.wp_GetSliceFilteredFiles; [by rewrite Ht|done|done|done|..]; intros; by apply (reads_step w1).
Qed.
Hint Resolve reads_fs reads_resp reads_map reads_Get reads_GetFiles reads_assets : frame.

(** The steps on an archive with the cache of this environment. *)
Lemma reads_rest ah pl x :
  Pull.a_cache x = Cache.env_cache (Pull.a_appID x) (Pull.a_submissionID x) w →
  kept R (Pull.writeAssetsListing x) ∧ kept R (Pull.writeAssets ah x) ∧
  kept R (Pull.writeBundleFooter pl x) ∧ kept R (Pull.writeZip x).
Proof.
  intros Hx. rewrite /Pull.writeAssetsListing /Pull.writeAssets /Pull.writeBundleFooter /Pull.writeZip
    /Cache.GetBundleFooter. split_and!; kept_tac.
Qed.

Lemma reads_pull_body ah pl x :
  Pull.a_cache x = Cache.env_cache (Pull.a_appID x) (Pull.a_submissionID x) w →
  has_char squote (Pull.a_submissionID x) = false → kept R (Pull.pull_body ah pl x).
Proof.
  intros Hx Hsq w1 H1'. apply wp_bind, wp_OpenDB.
  assert (env_db w1 = env_db w) as -> by (rewrite /env_db /getenv; by destruct H1' as [-> _ _ _]).
  assert (kept R (Pull.assertNotEmpty (env_db w) x)) as Ha by (rewrite /Pull.assertNotEmpty; kept_tac).
  apply wp_bind. eapply wp_mono; [by apply Ha| |done].
  intros [e|] w2 H2'; [destruct (decide _); by apply reads_resp|].
  apply wp_bind, wp_bind. eapply wp_mono; [by apply reads_assets| |done].
  intros [f|e] w3 H3'; apply wp_ret; [|by apply reads_resp].
  destruct (reads_rest ah pl (Pull.set_assetFiles f x)) as (? & ? & ? & ?); [done|].
  refine ((_ : kept R _) w3 H3'). rewrite /Pull.internal. kept_tac.
Qed.
End reading.

(** A pull changes no row and no object and leaves memcached in agreement with
    S3, whatever it returns and however it ends. *)
Theorem pull_read_only req w o w' :
  (∀ app sub, Cache.coherent ∅ (Cache.env_cache app sub w) w) →
  (∀ app, Db.no_null app (Db.table (env_db w) w)) → has_char squote (FormValue req "submission_id") = false →
  Pull.Pull_ req w = (o, w') →
  Db.table (env_db w) w' = Db.table (env_db w) w ∧ blobs w' = blobs w ∧
  ∀ app sub, Cache.coherent ∅ (Cache.env_cache app sub w) w'.
Proof.
  intros Hc Hnn Hsq Hrun.
  assert (wp (Pull.Pull_ req) (λ _ w', reads w w') (λ _ w', reads w w') w) as Hwp.
  2:{ pose proof (wp_inv _ _ _ _ _ _ Hwp Hrun) as Hr. by destruct o; destruct Hr. }
  assert (reads w w) as Hw by done.
  rewrite /Pull.Pull_. destruct (Pull.parseAssetHashes req) as [ah|]; [|by apply wp_on_resp, (reads_step w w)].
  cbv zeta. apply wp_bind, wp_ctx_get. case_decide; [by apply wp_on_resp, (reads_step w w)|].
  apply wp_bind, wp_ctx_string; [|done]. intros app _. apply wp_bind, wp_bindR, wp_TempDir.
  - intros [d|e] f; [|by apply wp_throw, (reads_step w w)].
    apply wp_bindR, Cache.wp_NewCache, wp_ret. apply wp_defer.
    eapply wp_mono; [apply (reads_pull_body w Hnn); [done|done|by apply (reads_step w w)]|..].
    + intros ? w2 H2'. apply wp_bind, wp_on_fs. intros. by apply wp_ret, (reads_step w w2).
    + intros [s|s] w2 [H2' _]; [|done]. apply wp_bind, wp_on_fs. intros. by apply wp_ret, (reads_step w w2).
  - intros e. by apply wp_throw.
Qed.
End server.

(** ** Runs *)
Import Simulated.

Definition wit_env : list (string * string) :=
  [("SIPHON_ENV", "staging"); ("MEMCACHED_BUNDLER_PORT_11211_TCP_ADDR", "mc"); ("WEB_HOST", "web")].
(** Two apps, one of them with a Siphonfile, and the public key "K". *)
Definition wit_world : World :=
  let w := sim_world wit_env
    [(("app1", Some "", "a.js"), "h1"); (("app1", Some "", "Siphonfile"), "h2"); (("app2", Some "9", "a.js"), "h3")]
    [(("siphon-files-staging", "app1/h1"), "AAA"); (("siphon-files-staging", "app1/h2"), "0.5");
     (("siphon-files-staging", "app1/bundle-footer-ios"), "F")] in
  set_fs (WriteFile (MkdirAll (w_fs w) "/code/.keys/handshake").2 Auth.key_file "K").2 w.
Definition wit_request (path token signature body : string) (post : list (string * string)) : request :=
  mkRequest 7 "POST" path
    (list_to_map ([("handshake_token", token); ("handshake_signature", signature)] ++ post))
    (list_to_map post) ∅ body.

Lemma srv_coherent app sub : Cache.coherent ∅ (Cache.env_cache app sub wit_world) wit_world.
Proof.
  pose proof (sim_coherent ∅ (Cache.env_cache app sub wit_world) wit_env [] []) as Hs.
  rewrite /Cache.coherent in Hs |- *. destruct (Cache.mc _) as [h|]; [|done]. intros k v Hk.
  by rewrite /Cache.memo /= /mc_host lookup_empty /= lookup_empty.
Qed.
Lemma wit_no_null app : Db.no_null app (Db.table (env_db wit_world) wit_world).
Proof. apply no_null_all_run. by vm_compute. Qed.

(** A forged signature. *)
Definition wit_forged : request := wit_request "/v1/push/app1/" "push,app1,user1," "forged" "x" [].

Lemma unauthorised_changes_nothing_witness :
  let w' := (Routes.serve wit_forged wit_world).2 in
  rs_status (w_resp w') = Some 401%Z ∧ Routes.left_clean wit_forged wit_world w'.
Proof.
  intros w'. split; [by vm_compute|].
  eapply (unauthorised_changes_nothing wit_forged wit_world (Routes.serve wit_forged wit_world).1).
  - intros (obj & _ & Hv & _).
    assert ((Auth.verifyToken (FormValue wit_forged "handshake_token")
      (FormValue wit_forged "handshake_signature") wit_world).1 = Ret false) as Hf by by vm_compute.
    rewrite Hf in Hv. discriminate.
  - intros [Hp _]. discriminate Hp.
  - apply surjective_pairing.
Defined.

(** A good one. *)
Definition wit_signed : request := wit_request "/v1/push/app1/" "push,app1,user1," "Kpush,app1,user1," "x" [].
Definition wit_routed : World :=
  set_ctx (Context.Set_ 0 7 Auth.varsKey (VVars {["app_id" := "app1"]}) Context.empty) wit_world.

Lemma middleware_guards_witness :
  ∃ x obj, Auth.authorised wit_signed obj (set_ctx x wit_routed).
Proof.
  assert ((Auth.AuthMiddleware (λ _, mret tt) wit_signed wit_routed).1 = Ret tt) as Hr by by vm_compute.
  assert (rs_status (w_resp (Auth.AuthMiddleware (λ _, mret tt) wit_signed wit_routed).2) = None) as Hs
    by by vm_compute.
  destruct (middleware_guards (λ _, mret tt) wit_signed wit_routed _ _
    (run_split (Auth.AuthMiddleware (λ _, mret tt) wit_signed) wit_routed _ Hr))
    as [(x & obj & Ha & _)|[(x & msg & _ & Hw)|(x & cr & Hc & _)]].
  - exists x, obj. exact Ha.
  - rewrite Hw in Hs. discriminate Hs.
  - discriminate Hc.
Defined.

(** A push whose archive cannot be read. *)
Definition wit_push : Push.pushHandler :=
  Push.mkPush wit_signed "app1" "user1" (env_db wit_world) (Cache.env_cache "app1" "" wit_world)
    None false None [] false.

Lemma push_status_always_200_witness :
  (Push.handle wit_signed wit_push wit_world).1 = Ret Push.XDecompress ∧
  status_sent (Push.handle wit_signed wit_push wit_world).2.
Proof.
  split; [by vm_compute|]. exact (push_status_always_200 wit_signed wit_push wit_world eq_refl).
Defined.




Definition wit_resubmit : request := wit_request "/v1/submit/app1/" "" "" "" [("submission_id", "9")].
Definition wit_submit_world : World :=
  set_ctx (Context.Set_ 0 7 AppIDKey (VStr "app1") Context.empty) wit_world.

Lemma submit_never_twice_witness :
  let w' := (Submit.Submit_ wit_resubmit wit_submit_world).2 in
  rs_status (w_resp w') = Some 400%Z ∧
  Db.table (env_db wit_submit_world) w' = Db.table (env_db wit_submit_world) wit_submit_world.
Proof.
  intros w'. split; [by vm_compute|].
  assert (Db.table (env_db wit_submit_world) wit_submit_world !!
    ("app2", Some (PostFormValue wit_resubmit "submission_id"), "a.js") = Some "h3") as Hn by by vm_compute.
  destruct (submit_never_twice wit_resubmit wit_submit_world "app2" "a.js" "h3" _ _ Hn
    (surjective_pairing (Submit.Submit_ wit_resubmit wit_submit_world))) as (rs & s & _ & Ht).
  exact Ht.
Defined.

Definition wit_pull : request := wit_request "/v1/pull/app1/" "" "" "{}" [].

Lemma pull_read_only_witness :
  let w' := (Pull.Pull_ wit_pull wit_submit_world).2 in
  rs_status (w_resp w') = Some 200%Z ∧ blobs w' = blobs wit_submit_world.
Proof.
  intros w'. split; [by vm_compute|].
  destruct (pull_read_only wit_pull wit_submit_world (Pull.Pull_ wit_pull wit_submit_world).1 w'
    srv_coherent wit_no_null eq_refl (surjective_pairing _)) as (_ & Hb & _).
  exact Hb.
Defined.
End ServerCorrect.
