(* ===== verification/MemcacheCorrect.v ===== *)
(** * The memcache client implements the cache interface

    The client of [Memcache], with its pool of idle connections and a network that
    can fail at every step, satisfies the laws ([McLaws]) that the file cache of the
    bundler is verified against, provided the servers speak memcached's text
    protocol.  The heart of it is the pool invariant: a connection is put back only
    when the whole answer has been read, so a later request can never read the
    answer of an earlier one. *)

From S2P Require Import Prelude GoStrings Services Memcache.

Module MemcacheCorrect.
Import Memcache.

#[local] Arguments String.append !_ _ / : simpl nomatch.

(** ** The protocol *)

(** An answer of one line. *)
Definition one_line (out : string) : Prop := ∃ l, has_char newline l = false ∧ out = l +:+ String newline "".

(** The first line of the answer to [gets] for a key that is there. *)
Definition value_line (k : string) (flags : N) (len : nat) (cas : N) : string :=
  Join ["VALUE"; k; pretty flags; pretty (N.of_nat len); pretty cas] " " +:+ crlf.

Definition set_request (k v : string) (flags : N) (expiration : Z) : string :=
  store_line "set" (mkItem k v flags expiration 0) +:+ v +:+ crlf.

(** A memcached server: what it stores, and its answers to the three commands the
    bundler sends.  It may drop items at any time. *)
Class Memcached (srv : Type) `{Server srv} := {
  items : srv → gmap string string;
  gets_law : ∀ s k, legalKey k = true → match reply s ("gets " +:+ k +:+ crlf) with (out, s') =>
    items s' ⊆ items s ∧
    (out = resultEnd ∨
     (∃ v flags cas, items s !! k = Some v ∧ (flags < 2 ^ 32)%N ∧ (cas < 2 ^ 64)%N ∧
        (Z.of_nat (String.length v) + 2 < 2 ^ 63)%Z ∧
        out = value_line k flags (String.length v) cas +:+ v +:+ crlf +:+ resultEnd) ∨
     (one_line out ∧ HasPrefix out "VALUE " = false)) end;
  set_law : ∀ s k v flags expiration, legalKey k = true →
    match reply s (set_request k v flags expiration) with (out, s') =>
    one_line out ∧ if decide (out = resultStored) then items s' ⊆ <[k := v]> (items s)
                   else items s' ⊆ items s end;
  delete_law : ∀ s k, legalKey k = true → match reply s ("delete " +:+ k +:+ crlf) with (out, s') =>
    one_line out ∧ out ≠ resultOK ∧
    if decide (out = resultDeleted ∨ out = resultNotFound) then items s' ⊆ delete k (items s)
    else items s' ⊆ items s end;
}.

Section client.
Context {srv : Type} `{!Server srv} `{!Memcached srv}.
Abbreviation MC := (M (cst (srv:=srv))).
Implicit Types (s : cst (srv:=srv)) (cn : nat) (a : string).

(** ** The pool *)

(** Idle connections are open, to the right server, with nothing left to read, and
    listed once; a new connection gets a new number. *)
Record wf s : Prop := {
  wf_idle : ∀ a l, freeconn (st_client s) !! a = Some l →
    NoDup l ∧ (length l ≤ maxIdleConnsPerAddr)%nat ∧
    ∀ cn, cn ∈ l → n_conns (st_net s) !! cn = Some (a, "");
  wf_next : ∀ cn x, n_conns (st_net s) !! cn = Some x → (cn < n_next (st_net s))%nat;
}.

(** The connection [cn] to [a] is in use, with [buf] to be read. *)
Record owned cn a (buf : string) s : Prop := {
  ow_wf : wf s;
  ow_conn : n_conns (st_net s) !! cn = Some (a, buf);
  ow_busy : ∀ a' l, freeconn (st_client s) !! a' = Some l → cn ∉ l;
}.

(** The servers and the configuration are as before. *)
Record quiet s s' : Prop := {
  qu_srvs : n_srvs (st_net s') = n_srvs (st_net s);
  qu_addrs : addrs (st_client s') = addrs (st_client s);
}.
Lemma quiet_refl s : quiet s s.
Proof. done. Qed.
Lemma quiet_trans s1 s2 s3 : quiet s1 s2 → quiet s2 s3 → quiet s1 s3.
Proof. intros [] []. split; congruence. Qed.

(** A change of the connections that spares the idle ones. *)
Lemma wf_conns s conns next faults srvs :
  wf s → (∀ a l cn, freeconn (st_client s) !! a = Some l → cn ∈ l → conns !! cn = n_conns (st_net s) !! cn) →
  (∀ cn x, conns !! cn = Some x → (cn < next)%nat) →
  wf (set_net (mkNet srvs conns next faults) s).
Proof.
  intros [Hi Hn] Hc Hb. split; [|done]. simpl. intros a l Hl.
  destruct (Hi a l Hl) as (? & ? & Hin). split_and!; [done..|]. intros cn Hcn.
  rewrite (Hc a l) //. by apply Hin.
Qed.

Lemma owned_conns cn a buf buf' s srvs faults :
  owned cn a buf s →
  owned cn a buf' (set_net (mkNet srvs (<[cn := (a, buf')]> (n_conns (st_net s)))
    (n_next (st_net s)) faults) s).
Proof.
  intros [Hwf Hc Hb]. split; [|by rewrite /= lookup_insert_eq|done]. apply wf_conns; [done|..].
  - intros a' l cn' Hl Hin. rewrite lookup_insert_ne //. intros ->. by apply (Hb a' l).
  - intros cn' x. destruct (decide (cn' = cn)) as [->|Hne].
    + intros _. by eapply wf_next.
    + rewrite lookup_insert_ne //. by apply wf_next.
Qed.

Lemma owned_faults cn a buf s faults :
  owned cn a buf s →
  owned cn a buf (set_net (mkNet (n_srvs (st_net s)) (n_conns (st_net s)) (n_next (st_net s)) faults) s).
Proof. intros [[Hi Hn] Hc Hb]. by split; [split|..]. Qed.
Lemma wf_faults s faults :
  wf s → wf (set_net (mkNet (n_srvs (st_net s)) (n_conns (st_net s)) (n_next (st_net s)) faults) s).
Proof. by intros [Hi Hn]; split. Qed.

(** ** Steps on a connection *)
Lemma wp_ReadLine cn a buf Q C s :
  owned cn a buf s →
  (∀ l rest s', take_until newline buf = Some (l, rest) → owned cn a rest s' → quiet s s' →
     Q (Ok (l +:+ String newline "")) s') →
  (∀ s', owned cn a buf s' → quiet s s' → Q (Err io_error) s') →
  wp (ReadLine cn) Q C s.
Proof.
  intros Ho HQ HE. apply wp_bind. rewrite /next_fault {1}/wp. apply wp_bind, wp_gets. simpl.
  set (fs := tail _). set (f := default FOk _). clearbody fs f.
  rewrite (ow_conn _ _ _ _ Ho). pose proof (owned_faults _ _ _ _ fs Ho) as Hf.
  destruct f; [|by apply wp_ret, HE..].
  destruct (take_until newline buf) as [[l rest]|] eqn:Et; [|by apply wp_ret, HE].
  apply wp_bind, wp_modify, wp_ret, (HQ l rest); [done| |done].
  exact (owned_conns _ _ _ _ _ _ _ Ho).
Qed.

Lemma wp_ReadN cn a buf k Q C s :
  owned cn a buf s →
  (∀ s', owned cn a (String.substring k (String.length buf - k) buf) s' → quiet s s' →
     Q (Ok (String.substring 0 k buf)) s') →
  (∀ s', owned cn a buf s' → quiet s s' → Q (Err io_error) s') →
  wp (ReadN cn k) Q C s.
Proof.
  intros Ho HQ HE. apply wp_bind. rewrite /next_fault {1}/wp. apply wp_bind, wp_gets. simpl.
  set (fs := tail _). set (f := default FOk _). clearbody fs f.
  rewrite (ow_conn _ _ _ _ Ho). pose proof (owned_faults _ _ _ _ fs Ho) as Hf.
  destruct f; [|by apply wp_ret, HE..].
  apply wp_bind, wp_modify, wp_ret, HQ; [|done].
  exact (owned_conns _ _ _ _ _ _ _ Ho).
Qed.

(** What a server's state is after [bytes] may have reached it. *)
Definition served a (bytes : string) s s' : Prop :=
  addrs (st_client s') = addrs (st_client s) ∧
  ∃ sv, n_srvs (st_net s) !! a = Some sv ∧
        n_srvs (st_net s') = <[a := (reply sv bytes).2]> (n_srvs (st_net s)).

Lemma wp_flush cn a buf bytes Q C s :
  owned cn a buf s →
  (∀ s' sv, n_srvs (st_net s) !! a = Some sv → served a bytes s s' →
     owned cn a (buf +:+ (reply sv bytes).1) s' → Q None s') →
  (∀ s', owned cn a buf s' → quiet s s' ∨ served a bytes s s' → Q (Some io_error) s') →
  wp (flush cn bytes) Q C s.
Proof.
  intros Ho HQ HE. apply wp_bind. rewrite /next_fault {1}/wp. apply wp_bind, wp_gets. simpl.
  set (fs := tail _). set (f := default FOk _). clearbody fs f.
  rewrite (ow_conn _ _ _ _ Ho). pose proof (owned_faults _ _ _ _ fs Ho) as Hf.
  destruct f; [|by apply wp_ret, HE; [|left]|].
  - destruct (n_srvs (st_net s) !! a) as [sv|] eqn:Es; [|by apply wp_ret, HE; [|left]].
    destruct (reply sv bytes) as [out sv'] eqn:Er. apply wp_bind, wp_modify, wp_ret, (HQ _ sv); [done|..].
    + split; [done|]. exists sv. by rewrite Er.
    + rewrite Er. exact (owned_conns _ _ _ _ _ _ _ Ho).
  - destruct (n_srvs (st_net s) !! a) as [sv|] eqn:Es; [|by apply wp_ret, HE; [|left]].
    destruct (reply sv bytes) as [out sv'] eqn:Er. apply wp_bind, wp_modify, wp_ret, HE.
    + exact (owned_conns _ _ _ _ _ _ _ Ho).
    + right. split; [done|]. exists sv. by rewrite Er.
Qed.

(** ** Taking and releasing connections *)
Lemma wp_conn_close cn a buf (Q : () → cst → Prop) C s :
  owned cn a buf s → (∀ s', wf s' → quiet s s' → Q tt s') → wp (conn_close cn) Q C s.
Proof.
  intros [Hwf Hc Hb] HQ. apply wp_modify, HQ; [|done]. apply wf_conns; [done|..].
  - intros a' l cn' Hl Hin. rewrite lookup_delete_ne //. intros ->. by apply (Hb a' l).
  - intros cn' x Hx. apply lookup_delete_Some in Hx as [_ Hx]. by eapply wf_next.
Qed.

Lemma wp_putFreeConn cn a (Q : () → cst → Prop) C s :
  owned cn a "" s → (∀ s', wf s' → quiet s s' → Q tt s') → wp (putFreeConn a cn) Q C s.
Proof.
  intros Ho HQ. pose proof Ho as [[Hi Hn] Hc Hb]. apply wp_bind, wp_gets. cbv zeta. case_decide as Hlen.
  { by apply (wp_conn_close cn a ""). }
  apply wp_modify, HQ; [|done]. split; [|done]. simpl. intros a' l Hl.
  destruct (decide (a' = a)) as [->|Hne]; [|rewrite lookup_insert_ne // in Hl; by apply Hi].
  rewrite lookup_insert_eq in Hl. injection Hl as <-.
  destruct (freeconn (st_client s) !! a) as [l|] eqn:El; simpl in *.
  - destruct (Hi a l El) as (Hnd & _ & Hin). split_and!.
    + apply NoDup_app. split_and!; [done| |apply NoDup_singleton].
      intros cn' Hcn' ->%list_elem_of_singleton. by apply (Hb a l).
    + rewrite length_app /=. lia.
    + intros cn' [?| ->%list_elem_of_singleton]%elem_of_app; [by apply Hin|done].
  - split_and!; [apply NoDup_singleton|rewrite /maxIdleConnsPerAddr; lia|].
    by intros cn' ->%list_elem_of_singleton.
Qed.

Lemma wp_condRelease cn a buf err (Q : () → cst → Prop) C s :
  owned cn a buf s → (match err with None => True | Some e => resumableError e = true end → buf = "") →
  (∀ s', wf s' → quiet s s' → Q tt s') → wp (condRelease a cn err) Q C s.
Proof.
  intros Ho Hbuf HQ. rewrite /condRelease. destruct err as [e|].
  - destruct (resumableError e) eqn:E; [|by eapply wp_conn_close].
    rewrite Hbuf // in Ho. by apply wp_putFreeConn.
  - rewrite Hbuf // in Ho. by apply wp_putFreeConn.
Qed.

Lemma wp_getConn a Q C s :
  wf s →
  (∀ cn s', owned cn a "" s' → quiet s s' → Q (Ok cn) s') →
  (∀ s', wf s' → quiet s s' → Q (Err io_error) s') →
  wp (getConn a) Q C s.
Proof.
  intros Hwf HQ HE. pose proof Hwf as [Hi Hn]. apply wp_bind, wp_bind, wp_gets.
  assert (∀ s', s' = s → wp (net_dial a) Q C s') as Hdial.
  { intros ? ->. apply wp_bind. rewrite /next_fault {1}/wp. apply wp_bind, wp_gets. simpl.
    set (fs := tail _). set (f := default FOk _). clearbody fs f.
    pose proof (wf_faults s fs Hwf) as Hf. destruct f; [|by apply wp_ret, HE..].
    destruct (n_srvs (st_net s) !! a) as [sv|]; [|by apply wp_ret, HE].
    assert (n_conns (st_net s) !! n_next (st_net s) = None) as Hfresh.
    { destruct (n_conns (st_net s) !! n_next (st_net s)) as [x|] eqn:E; [|done]. apply Hn in E. lia. }
    assert (∀ a' l, freeconn (st_client s) !! a' = Some l → n_next (st_net s) ∉ l) as Hbusy.
    { intros a' l Hl Hin. destruct (Hi a' l Hl) as (_ & _ & Hin'). by rewrite Hin' in Hfresh. }
    apply wp_bind, wp_modify, wp_ret, HQ; [|done]. split; [|by rewrite /= lookup_insert_eq|done].
    apply wf_conns; [done|..].
    - intros a' l cn Hl Hin. simpl. rewrite lookup_insert_ne //. intros <-. by apply (Hbusy a' l).
    - intros cn x. simpl. destruct (decide (cn = n_next (st_net s))) as [->|Hne]; [lia|].
      rewrite lookup_insert_ne //. intros Hx%Hn. lia. }
  destruct (freeconn (st_client s) !! a) as [l|] eqn:El; [|by apply wp_ret, Hdial].
  destruct (last l) as [cn|] eqn:Ela; [|by apply wp_ret, Hdial].
  apply last_Some in Ela as [l' ->]. rewrite removelast_last.
  destruct (Hi a _ El) as (Hnd & Hlen & Hin). apply NoDup_app in Hnd as (Hnd & Hdis & _).
  apply wp_bind, wp_modify, wp_ret, wp_ret, HQ; [|done]. split.
  - split; [|done]. simpl. intros a' l Hl. destruct (decide (a' = a)) as [->|Hne].
    + rewrite lookup_insert_eq in Hl. injection Hl as <-. split_and!; [done|rewrite length_app /= in Hlen; lia|].
      intros cn' Hcn'. apply Hin. set_solver.
    + rewrite lookup_insert_ne // in Hl. by apply Hi.
  - simpl. apply Hin. set_solver.
  - simpl. intros a' l Hl Hcn. destruct (decide (a' = a)) as [->|Hne].
    + rewrite lookup_insert_eq in Hl. injection Hl as <-. apply (Hdis cn); set_solver.
    + rewrite lookup_insert_ne // in Hl. destruct (Hi a' l Hl) as (_ & _ & Hin').
      assert (n_conns (st_net s) !! cn = Some (a, "")) as E by (apply Hin; set_solver).
      rewrite Hin' // in E. congruence.
Qed.

(** [withAddrRw]: what is returned after a complete answer or a resumable error must
    leave nothing to be read. *)
Lemma wp_withAddr {A} a (d : A) fn Q C s :
  wf s →
  (∀ cn s1, owned cn a "" s1 → quiet s s1 →
     wp (fn cn) (λ r s2, ∃ buf, owned cn a buf s2 ∧
        (match r.1 with None => True | Some e => resumableError e = true end → buf = "") ∧
        ∀ s3, wf s3 → quiet s2 s3 → Q r s3) (λ _ _, False) s1) →
  (∀ s1, wf s1 → quiet s s1 → Q (Some io_error, d) s1) →
  wp (withAddr a d fn) Q C s.
Proof.
  intros Hwf Hfn HE. apply wp_bind, wp_getConn; [done| |intros; by apply wp_ret, HE].
  intros cn s1 Ho Hq. specialize (Hfn cn s1 Ho Hq). rewrite /released /wp in Hfn |- *.
  destruct (fn cn s1) as [[r|c] s2]; [|done]. destruct Hfn as (buf & Ho2 & Hbuf & HQ).
  apply (wp_bind (condRelease a cn r.1) (λ _, mret r) Q C s2).
  eapply wp_condRelease; [done|done|]. intros s3 Hw3 Hq3. by apply wp_ret, HQ.
Qed.

(** ** Requests with an answer of one line *)
Lemma one_line_read out : one_line out →
  ∃ l, take_until newline out = Some (l, "") ∧ l +:+ String newline "" = out.
Proof. intros (l & Hl & ->). exists l. by rewrite take_until_app. Qed.

Lemma wp_readAnswer cn a out Q C s :
  owned cn a out s → one_line out →
  (∀ s', owned cn a "" s' → quiet s s' → Q (Ok out) s') →
  (∀ s', owned cn a out s' → quiet s s' → Q (Err io_error) s') →
  wp (ReadLine cn) Q C s.
Proof.
  intros Ho (l & Hl & Heq)%one_line_read HQ HE. apply (wp_ReadLine cn a out); [done| |done].
  intros l' rest s' Ht. rewrite Hl in Ht. injection Ht as <- <-. rewrite Heq. apply HQ.
Qed.

Lemma served_quiet a bytes s s1 s2 : served a bytes s s1 → quiet s1 s2 → served a bytes s s2.
Proof. intros [Ha (sv & Hs & Hs')] [Hq Hqa]. split; [congruence|]. exists sv. split; congruence. Qed.

Lemma wp_writeReadLine cn a bytes Q C s :
  owned cn a "" s → (∀ sv, one_line (reply sv bytes).1) →
  (∀ s' sv, n_srvs (st_net s) !! a = Some sv → served a bytes s s' → owned cn a "" s' →
     Q (Ok (reply sv bytes).1) s') →
  (∀ s' buf, owned cn a buf s' → quiet s s' ∨ served a bytes s s' → Q (Err io_error) s') →
  wp (writeReadLine cn bytes) Q C s.
Proof.
  intros Ho Hl HQ HE. apply wp_bind. apply (wp_flush cn a ""); [done| |intros; by eapply wp_ret, HE].
  intros s1 sv Hsv Hs1 Ho1. rewrite str_app_nil_l in Ho1.
  apply (wp_readAnswer cn a (reply sv bytes).1); [done|done|..].
  - intros s2 Ho2 Hq. apply (HQ _ sv); [done| |done]. by eapply served_quiet.
  - intros s2 Ho2 Hq. eapply HE; [done|]. right. by eapply served_quiet.
Qed.

(** ** The operations *)

(** What a server at [a] holds; nothing when there is none. *)
Definition held a s : gmap string string :=
  match n_srvs (st_net s) !! a with Some sv => items sv | None => ∅ end.

Lemma held_quiet a s s' : quiet s s' → held a s' = held a s.
Proof. rewrite /held. by intros [-> _]. Qed.
Lemma held_served a bytes s s' sv :
  n_srvs (st_net s) !! a = Some sv → served a bytes s s' →
  held a s = items sv ∧ held a s' = items (reply sv bytes).2.
Proof.
  rewrite /held. intros Hs [_ (sv' & Hs' & ->)]. rewrite Hs in Hs'. injection Hs' as <-.
  by rewrite Hs lookup_insert_eq.
Qed.

Lemma PickServer_one a k : PickServer [a] k = Ok a.
Proof. done. Qed.

(** The state after an operation of a client of the one server [a]. *)
Definition after a s s' : Prop := wf s' ∧ addrs (st_client s') = addrs (st_client s).

Lemma store_line_set item :
  store_line "set" item +:+ Value item +:+ crlf =
    set_request (Key item) (Value item) (Flags item) (Expiration item).
Proof. done. Qed.

Lemma set_answer item sv :
  legalKey (Key item) = true →
  let '(out, sv') := reply sv (store_line "set" item +:+ Value item +:+ crlf) in
  one_line out ∧ if decide (out = resultStored) then items sv' ⊆ <[Key item := Value item]> (items sv)
                 else items sv' ⊆ items sv.
Proof. intros Hk. rewrite store_line_set. by apply set_law. Qed.

Lemma wp_mc_Set a item Q C s :
  wf s → addrs (st_client s) = [a] →
  (∀ s', after a s s' → held a s' ⊆ <[Key item := Value item]> (held a s) → Q None s') →
  (∀ s' e, after a s s' →
     held a s' ⊆ held a s ∨ held a s' ⊆ <[Key item := Value item]> (held a s) → Q (Some e) s') →
  wp (Set_ item) Q C s.
Proof.
  intros Hwf Ha HQ HE. rewrite /Set_ /onItem. apply wp_bind, wp_gets. rewrite /= Ha. apply wp_bind.
  apply wp_withAddr; [done| |].
  2:{ intros s1 Hw1 Hq. apply wp_ret, HE; [by split; [|apply Hq]|]. left. by rewrite (held_quiet _ _ _ Hq). }
  intros cn s1 Ho Hq. apply wp_bind. rewrite /populateOne.
  assert (addrs (st_client s1) = addrs (st_client s)) as Ha1 by apply Hq.
  assert (held a s1 = held a s) as Hh1 by by apply held_quiet.
  destruct (legalKey (Key item)) eqn:Hk; cbn [negb].
  2:{ apply wp_ret, wp_ret. exists "". split_and!; [done..|]. intros s2 Hw2 Hq2. apply wp_ret, HE.
      - split; [done|]. destruct Hq2. congruence.
      - left. by rewrite (held_quiet _ _ _ Hq2) Hh1. }
  set (req := store_line "set" item +:+ Value item +:+ crlf).
  (* However the exchange ends, the server acted on the request or not at all. *)
  assert (∀ s2 e buf, owned cn a buf s2 → quiet s1 s2 ∨ served a req s1 s2 →
    (resumableError e = true → buf = "") →
    wp (mret (Some e, ())) (λ r s2, ∃ buf, owned cn a buf s2 ∧
        (match r.1 with None => True | Some e => resumableError e = true end → buf = "") ∧
        ∀ s3, wf s3 → quiet s2 s3 → wp (mret r.1) Q C s3) (λ _ _, False) s2) as Hfail.
  { intros s2 e buf Ho2 Hs2 Hbuf. apply wp_ret. exists buf. split_and!; [done..|]. intros s3 Hw3 Hq3.
    apply wp_ret, HE.
    - split; [done|]. destruct Hq3, Hs2 as [[]|[]]; congruence.
    - rewrite (held_quiet _ _ _ Hq3). destruct Hs2 as [Hs2|Hs2]; [left; by rewrite (held_quiet _ _ _ Hs2) Hh1|].
      pose proof Hs2 as [_ (sv & Hsv & _)]. destruct (held_served _ _ _ _ _ Hsv Hs2) as [E1 ->].
      pose proof (set_answer item sv Hk) as Hl. rewrite -/req in Hl. destruct (reply sv req) as [out sv'].
      rewrite -Hh1 E1. destruct Hl as [_ Hl]. case_decide; [by right|by left]. }
  apply wp_try_then, (wp_flush cn a ""); [done| |].
  2:{ intros s2 Ho2 Hs2. by eapply Hfail. }
  intros s2 sv Hsv Hs2 Ho2. rewrite str_app_nil_l in Ho2.
  pose proof (set_answer item sv Hk) as Hl. rewrite -/req in Hl Ho2 Hs2.
  assert (one_line (reply sv req).1) as Hone by by destruct (reply sv req), Hl.
  apply wp_bind, (wp_readAnswer cn a _ _ _ _ Ho2 Hone).
  2:{ intros s3 Ho3 Hq3. apply wp_ret. eapply Hfail; [done| |done]. right. by eapply served_quiet. }
  intros s3 Ho3 Hq3. pose proof (served_quiet _ _ _ _ _ Hs2 Hq3) as Hs3. apply wp_ret.
  case_decide as Hst; [|repeat case_decide; by eapply Hfail; [|right|]].
  apply wp_ret. exists "". split_and!; [done..|]. intros s4 Hw4 Hq4. apply wp_ret, HQ.
  - split; [done|]. destruct Hq4, Hs3. congruence.
  - rewrite (held_quiet _ _ _ Hq4). destruct (held_served _ _ _ _ _ Hsv Hs3) as [E1 ->].
    destruct (reply sv req) as [out sv']. simpl in *. destruct Hl as [_ Hl].
    rewrite decide_True // in Hl. by rewrite -Hh1 E1.
Qed.

Lemma wp_mc_Delete a k Q C s :
  wf s → addrs (st_client s) = [a] →
  (∀ s', after a s s' → held a s' ⊆ delete k (held a s) → Q None s') →
  (∀ s' e, after a s s' → held a s' ⊆ held a s →
     (e = ErrCacheMiss → held a s' ⊆ delete k (held a s)) → Q (Some e) s') →
  wp (Delete k) Q C s.
Proof.
  intros Hwf Ha HQ HE. rewrite /Delete /withKeyRw /withKeyAddr.
  destruct (legalKey k) eqn:Hk; cbn [negb]; [|by apply wp_ret, HE].
  apply wp_bind, wp_gets. rewrite /= Ha. apply wp_bind. apply wp_withAddr; [done| |].
  2:{ intros s1 Hw1 Hq. apply wp_ret, HE; [by split; [|apply Hq]|by rewrite (held_quiet _ _ _ Hq)|done]. }
  intros cn s1 Ho Hq. apply wp_bind. set (req := "delete " +:+ k +:+ crlf).
  assert (addrs (st_client s1) = addrs (st_client s)) as Ha1 by apply Hq.
  assert (held a s1 = held a s) as Hh1 by by apply held_quiet.
  assert (∀ sv, let '(out, sv') := reply sv req in one_line out ∧ out ≠ resultOK ∧ items sv' ⊆ items sv ∧
    (out = resultDeleted ∨ out = resultNotFound → items sv' ⊆ delete k (items sv))) as Hlaw.
  { intros sv. pose proof (delete_law sv k Hk) as Hl. rewrite -/req in Hl. destruct (reply sv req) as [out sv'].
    destruct Hl as (? & ? & Hl). split_and!; [done..| |]; case_decide as Hd; try done.
    etrans; [exact Hl|apply delete_subseteq]. }
  apply wp_bind, (wp_writeReadLine cn a req); [done|intros sv; specialize (Hlaw sv); destruct (reply sv req); by destruct Hlaw as [? _]|..].
  - intros s2 sv Hsv Hs2 Ho2. apply wp_ret. destruct (held_served _ _ _ _ _ Hsv Hs2) as [E1 E2].
    specialize (Hlaw sv). destruct (reply sv req) as [out sv']. simpl in *.
    destruct Hlaw as (_ & Hnok & Hsub & Hdel). rewrite decide_False //.
    rewrite -Hh1 E1 in HQ HE. clear Hh1.
    assert (∀ e, (e = ErrCacheMiss → out = resultNotFound) →
      wp (mret (Some e, ())) (λ r s2, ∃ buf, owned cn a buf s2 ∧
        (match r.1 with None => True | Some e => resumableError e = true end → buf = "") ∧
        ∀ s3, wf s3 → quiet s2 s3 → wp (mret r.1) Q C s3) (λ _ _, False) s2) as Hfail.
    { intros e He. apply wp_ret. exists "". split_and!; [done..|]. intros s3 Hw3 Hq3. apply wp_ret, HE.
      - split; [done|]. destruct Hq3, Hs2. congruence.
      - by rewrite (held_quiet _ _ _ Hq3) E2.
      - intros Hm. rewrite (held_quiet _ _ _ Hq3) E2. apply Hdel. right. by apply He. }
    case_decide as Hd; [|repeat case_decide; by apply Hfail].
    apply wp_ret. exists "". split_and!; [done..|]. intros s3 Hw3 Hq3. apply wp_ret, HQ.
    + split; [done|]. destruct Hq3, Hs2. congruence.
    + rewrite (held_quiet _ _ _ Hq3) E2. apply Hdel. by left.
  - intros s2 buf Ho2 Hs2. apply wp_ret, wp_ret. exists buf. split_and!; [done..|]. intros s3 Hw3 Hq3.
    apply wp_ret, HE; [|rewrite (held_quiet _ _ _ Hq3)|done].
    + split; [done|]. destruct Hq3, Hs2 as [[]|[]]; congruence.
    + destruct Hs2 as [Hs2|Hs2]; [by rewrite (held_quiet _ _ _ Hs2) Hh1|].
      pose proof Hs2 as [_ (sv & Hsv & _)]. destruct (held_served _ _ _ _ _ Hsv Hs2) as [E1 ->].
      rewrite -Hh1 E1. specialize (Hlaw sv). destruct (reply sv req). by destruct Hlaw as (_ & _ & ? & _).
Qed.

(** *** Get *)

(** The answers to [gets k] of a server that holds [m]. *)
Definition gets_answer (k : string) (m : gmap string string) (out : string) : Prop :=
  out = resultEnd ∨
  (∃ v flags cas, m !! k = Some v ∧ (flags < 2 ^ 32)%N ∧ (cas < 2 ^ 64)%N ∧
     (Z.of_nat (String.length v) + 2 < 2 ^ 63)%Z ∧
     out = value_line k flags (String.length v) cas +:+ v +:+ crlf +:+ resultEnd) ∨
  (one_line out ∧ HasPrefix out "VALUE " = false).

Lemma fields_no_char c k (flags : N) (len : nat) (cas : N) :
  legalKey k = true → legal_char c = false → is_dec c = false → has_char c "VALUE" = false →
  Forall (λ x, has_char c x = false) ["VALUE"; k; pretty flags; pretty (N.of_nat len); pretty cas].
Proof.
  intros Hk Hc Hd Hv. rewrite !Forall_cons.
  split_and!; [done|by apply legalKey_no_char|by apply pretty_no_char..|by apply Forall_nil].
Qed.

(** The line that announces a value is read and scanned as it was written. *)
Lemma value_line_read k flags len cas rest :
  legalKey k = true →
  ∃ l, take_until newline (value_line k flags len cas +:+ rest) = Some (l, rest) ∧
       l +:+ String newline "" = value_line k flags len cas.
Proof.
  intros Hk. set (L := Join ["VALUE"; k; pretty flags; pretty (N.of_nat len); pretty cas] " ").
  exists (L +:+ String (ascii_of_nat 13) ""). split.
  - assert (value_line k flags len cas +:+ rest =
      (L +:+ String (ascii_of_nat 13) "") +:+ String newline rest) as ->.
    { by rewrite /value_line -/L -!str_app_assoc. }
    rewrite take_until_app // has_char_app orb_false_r.
    apply has_char_Join; [|done]. by apply fields_no_char.
  - by rewrite /value_line -/L -str_app_assoc.
Qed.

Lemma value_line_scan k flags len cas :
  legalKey k = true → (flags < 2 ^ 32)%N → (cas < 2 ^ 64)%N → (Z.of_nat len + 2 < 2 ^ 63)%Z →
  scanGetResponseLine (value_line k flags len cas) = Ok (mkItem k "" flags 0 cas, Z.of_nat len).
Proof.
  intros Hk Hf Hc Hl. rewrite /scanGetResponseLine /value_line strip_suffix_app.
  change " " with (String space ""). rewrite Split_Join; [|done|].
  - rewrite !dec_pretty // dec_int_pretty; [|lia]. by rewrite nat_N_Z.
  - by apply fields_no_char.
Qed.

(** What [parseGetResponse] makes of an answer: unless it fails for good, the whole
    answer has been read and an item has the value the server holds. *)
Definition parsed (k : string) (m : gmap string string) cn a s (res : option error * list Item) s' : Prop :=
  quiet s s' ∧ ∃ buf, owned cn a buf s' ∧
  match res.1 with
  | Some e => resumableError e = false
  | None => buf = "" ∧ ∀ it, head res.2 = Some it → m !! k = Some (Value it)
  end.

Lemma wp_parse_end fuel k m cn a l s0 s C :
  owned cn a resultEnd s → quiet s0 s → (∀ it, head l = Some it → m !! k = Some (Value it)) →
  wp (parse_go (S fuel) cn l) (parsed k m cn a s0) C s.
Proof.
  intros Ho Hq Hl. apply wp_bind, (wp_readAnswer cn a resultEnd); [done|by exists ("END" +:+ String (ascii_of_nat 13) "")|..].
  - intros s1 Ho1 Hq1. cbv beta iota. case_decide; [|done]. apply wp_ret. split; [by eapply quiet_trans|].
    by exists "".
  - intros s1 Ho1 Hq1. apply wp_ret. split; [by eapply quiet_trans|]. by exists resultEnd.
Qed.

Lemma wp_parseGetResponse k m out cn a s C :
  legalKey k = true → gets_answer k m out → owned cn a out s →
  wp (parseGetResponse cn) (parsed k m cn a s) C s.
Proof.
  intros Hk Hans Ho. apply wp_bind, wp_gets.
  assert (unread cn s = out) as -> by by rewrite /unread (ow_conn _ _ _ _ Ho).
  destruct Hans as [->|[(v & flags & cas & Hv & Hf & Hc & Hlen & ->)|[Hone Hpre]]].
  - by apply (wp_parse_end _ k m cn a).
  - set (tail := v +:+ crlf +:+ resultEnd) in *. set (vl := value_line k flags (String.length v) cas) in *.
    destruct (value_line_read k flags (String.length v) cas tail Hk) as (l & Ht & Hl). rewrite -/vl in Ht Hl.
    assert (∃ n, String.length (vl +:+ tail) = S n) as [n ->].
    { apply take_until_length in Ht. eauto. }
    apply wp_bind, (wp_ReadLine cn a (vl +:+ tail)); [done| |].
    2:{ intros s1 Ho1 Hq1. apply wp_ret. split; [done|]. by eexists. }
    intros l' rest s1 Ht'. rewrite Ht in Ht'. injection Ht' as <- <-. rewrite Hl. intros Ho1 Hq1.
    cbv beta iota. case_decide as Hd; [done|]. rewrite value_line_scan //.
    assert (limit (Z.of_nat (String.length v)) = String.length (v +:+ crlf)) as ->.
    { rewrite /limit decide_True // str_length_app /=. lia. }
    assert (tail = (v +:+ crlf) +:+ resultEnd) as Etail by by rewrite /tail str_app_assoc.
    apply wp_bind, (wp_ReadN cn a tail); [done| |].
    2:{ intros s2 Ho2 Hq2. apply wp_ret. split; [by eapply quiet_trans|]. by eexists. }
    intros s2 Ho2 Hq2. rewrite Etail substring_post in Ho2. rewrite Etail substring_pre.
    rewrite (_ : HasSuffix (v +:+ crlf) crlf = true); [|apply HasSuffix_true; by exists v]. cbn [negb].
    rewrite Nat2Z.id substring_pre. apply (wp_parse_end _ k m cn a); [done|by eapply quiet_trans|].
    by intros it [= <-].
  - apply wp_bind, (wp_readAnswer cn a out); [done|done|..].
    + intros s1 Ho1 Hq1. case_decide; [apply wp_ret; split; [done|]; by exists ""|].
      destruct (scanGetResponseLine out) as [r|e] eqn:Es.
      { apply scan_VALUE in Es. congruence. }
      apply wp_ret. split; [done|]. exists "". split; [done|]. simpl.
      revert Es. rewrite /scanGetResponseLine. repeat case_match; by intros [= <-].
    + intros s1 Ho1 Hq1. apply wp_ret. split; [done|]. by eexists.
Qed.

Lemma wp_mc_Get a k Q C s :
  wf s → addrs (st_client s) = [a] →
  (∀ s' r, after a s s' → held a s' ⊆ held a s →
     (∀ it, r = Ok it → held a s !! k = Some (Value it)) → Q r s') →
  wp (Get k) Q C s.
Proof.
  intros Hwf Ha HQ. rewrite /Get. destruct (legalKey k) eqn:Hk; cbn [negb]; [|by apply wp_ret, HQ].
  apply wp_bind, wp_gets. rewrite /= Ha. apply wp_bind, wp_withAddr; [done| |].
  2:{ intros s1 Hw1 Hq. apply wp_ret, HQ; [by split; [|apply Hq]|by rewrite (held_quiet _ _ _ Hq)|done]. }
  intros cn s1 Ho Hq. set (req := "gets " +:+ k +:+ crlf).
  assert (addrs (st_client s1) = addrs (st_client s)) as Ha1 by apply Hq.
  assert (held a s1 = held a s) as Hh1 by by apply held_quiet.
  assert (∀ sv, items (reply sv req).2 ⊆ items sv ∧ gets_answer k (items sv) (reply sv req).1) as Hlaw.
  { intros sv. pose proof (gets_law sv k Hk) as Hl. rewrite -/req in Hl. by destruct (reply sv req). }
  assert (∀ s2, quiet s1 s2 ∨ served a req s1 s2 → addrs (st_client s2) = addrs (st_client s) ∧
    held a s2 ⊆ held a s) as Hreach.
  { intros s2 [Hq2|Hs2].
    - rewrite (held_quiet _ _ _ Hq2) Hh1. split; [by destruct Hq2; congruence|done].
    - pose proof Hs2 as [Ha2 (sv & Hsv & _)]. destruct (held_served _ _ _ _ _ Hsv Hs2) as [E1 ->].
      rewrite -Hh1 E1. split; [congruence|apply Hlaw]. }
  apply wp_bind, (wp_flush cn a "" req); [done| |].
  2:{ intros s2 Ho2 Hs2. destruct (Hreach s2 Hs2) as [Ha2 Hh2]. apply wp_ret. exists "". split_and!; [done..|].
      intros s3 Hw3 Hq3. apply wp_ret, HQ; [|by rewrite (held_quiet _ _ _ Hq3)|done].
      split; [done|]. destruct Hq3. congruence. }
  intros s2 sv Hsv Hs2 Ho2. rewrite str_app_nil_l in Ho2.
  destruct (Hreach s2 (or_intror Hs2)) as [Ha2 Hh2]. destruct (held_served _ _ _ _ _ Hsv Hs2) as [E1 _].
  apply wp_bind. eapply wp_mono with (C := λ _ _, False); [by apply (wp_parseGetResponse k (items sv) (reply sv req).1); [|apply Hlaw|]| |done].
  intros [e l] s3 (Hq3 & buf & Ho3 & Hres). simpl in Hres. apply wp_ret. exists buf. split_and!; [done| |].
  { destruct e as [e|]; simpl; [by rewrite Hres|]. by destruct Hres. }
  intros s4 Hw4 Hq4. pose proof (quiet_trans _ _ _ Hq3 Hq4) as Hq34.
  assert (after a s s4) as Haf by (split; [done|]; destruct Hq34; congruence).
  assert (held a s4 ⊆ held a s) as Hh4 by by rewrite (held_quiet _ _ _ Hq34).
  simpl. destruct e as [e|]; [by apply wp_ret, HQ|]. destruct Hres as [_ Hres].
  destruct (head l) as [it|]; apply wp_ret, HQ; try done. intros it' [= <-]. rewrite -Hh1 E1. by apply Hres.
Qed.

(** A client without servers does nothing. *)
Lemma no_servers_run k item s : addrs (st_client s) = [] →
  (∃ e, Get k s = (Ret (Err e), s)) ∧ (∃ e, Set_ item s = (Ret (Some e), s)) ∧
  (∃ e, e ≠ ErrCacheMiss ∧ Delete k s = (Ret (Some e), s)).
Proof.
  intros Ha. rewrite /Get /Set_ /onItem /Delete /withKeyRw /withKeyAddr.
  assert (∀ B (f : list string → MC B), (gets (addrs ∘ st_client) ≫= f) s = f [] s) as Hg.
  { intros B f. by rewrite /mbind /M_bind /gets /= Ha. }
  split_and!.
  - destruct (legalKey k); cbn [negb]; [rewrite Hg|]; by eexists.
  - rewrite Hg. by eexists.
  - destruct (legalKey k); cbn [negb]; [rewrite Hg|]; eexists; (split; [|done]); done.
Qed.

(** ** The refinement *)

(** The states of a client and its network that the program can reach. *)
Definition client : Type := { s : cst (srv:=srv) | wf s }.

(** Name resolution; [memcache.New] is called with one server name. *)
Context (resolve : string → result string).

Definition at_host (h : string) s : cst :=
  mkCst (mkClient (addrs (New resolve [h])) (freeconn (st_client s))) (st_net s).
Lemma at_host_wf h s : wf s → wf (at_host h s).
Proof. by intros []. Qed.

Definition view (h : string) (s : client) : gmap string string :=
  match resolve h with Ok a => held a (`s) | Err _ => ∅ end.

(** An operation that keeps the pool in order and always returns. *)
Definition safe_op {A} (m : MC A) : Prop :=
  ∀ s, wf s → (length (addrs (st_client s)) ≤ 1)%nat → wp m (λ _ s', wf s') (λ _ _, False) s.

Lemma at_host_addrs h s :
  addrs (st_client (at_host h s)) = match resolve h with Ok a => [a] | Err _ => [] end.
Proof. rewrite /at_host /New /=. by destruct (resolve h). Qed.

Lemma safe_run {A} (m : MC A) h (s : client) : safe_op m →
  ∃ r s', m (at_host h (`s)) = (Ret r, s') ∧ wf s'.
Proof.
  intros Hm. destruct s as [s Hs]. simpl.
  pose proof (Hm (at_host h s) (at_host_wf h s Hs)) as Hw. rewrite at_host_addrs in Hw.
  specialize (Hw ltac:(by destruct (resolve h); simpl; lia)). rewrite /wp in Hw.
  destruct (m (at_host h s)) as [[r|c] s']; [eauto|done].
Qed.

Lemma run_wf {A} (m : MC A) h (s : client) : safe_op m → wf (m (at_host h (`s))).2.
Proof. intros Hm. destruct (safe_run m h s Hm) as (r & s' & -> & Hs'). done. Qed.

Definition run_op {A} (m : MC A) (Hm : safe_op m) (d : A) (h : string) (s : client) : A * client :=
  (match (m (at_host h (`s))).1 with Ret r => r | Crash _ => d end, (m (at_host h (`s))).2 ↾ run_wf m h s Hm).

Lemma addrs_cases s : (length (addrs (st_client s)) ≤ 1)%nat →
  addrs (st_client s) = [] ∨ ∃ a, addrs (st_client s) = [a].
Proof. destruct (addrs (st_client s)) as [|a [|]]; simpl; [eauto|eauto|lia]. Qed.

Lemma safe_Get k : safe_op (Get k).
Proof.
  intros s Hwf [Ha|[a Ha]]%addrs_cases.
  - destruct (no_servers_run k (mkItem k "" 0 0 0) s Ha) as ([e E] & _). by rewrite /wp E.
  - apply (wp_mc_Get a); [done|done|]. by intros s' r [? _].
Qed.
Lemma safe_Set item : safe_op (Set_ item).
Proof.
  intros s Hwf [Ha|[a Ha]]%addrs_cases.
  - destruct (no_servers_run "" item s Ha) as (_ & [e E] & _). by rewrite /wp E.
  - apply (wp_mc_Set a); [done|done|..]; by intros ? [? _] || intros ? ? [? _].
Qed.
Lemma safe_Delete k : safe_op (Delete k).
Proof.
  intros s Hwf [Ha|[a Ha]]%addrs_cases.
  - destruct (no_servers_run k (mkItem k "" 0 0 0) s Ha) as (_ & _ & e & _ & E). by rewrite /wp E.
  - apply (wp_mc_Delete a); [done|done|..]; by intros ? [? _] || intros ? ? [? _].
Qed.

(** The operations as [cache.go] calls them. *)
#[export] Instance client_ops : McOps client := {
  mc_get h k c :=
    let '(r, c') := run_op (Get k) (safe_Get k) (Err io_error) h c in
    (match r with Ok it => Ok (Value it) | Err e => Err e end, c');
  mc_set h k v c := run_op (Set_ (mkItem k v 0 0 0)) (safe_Set _) (Some io_error) h c;
  mc_delete h k c := run_op (Delete k) (safe_Delete k) (Some io_error) h c;
}.

Lemma view_at h a (s : client) : resolve h = Ok a → view h s = held a (at_host h (`s)).
Proof. intros Hr. rewrite /view Hr. done. Qed.
Lemma view_none h e (s : client) : resolve h = Err e → view h s = ∅.
Proof. intros Hr. by rewrite /view Hr. Qed.

(** Reading an operation off its run. *)
Lemma run_op_spec {A} (m : MC A) Hm d h a (s : client) (Q : A → cst → Prop) :
  resolve h = Ok a → wp m Q (λ _ _, False) (at_host h (`s)) →
  ∃ r (s' : client), run_op m Hm d h s = (r, s') ∧ Q r (`s').
Proof.
  intros Hr Hw. eexists _, _. split; [done|]. simpl. rewrite /wp in Hw.
  by destruct (m (at_host h (`s))) as [[r|c] s'].
Qed.

Lemma get_ok h k (s : client) : match mc_get h k s with
  | (Ok v, s') => view h s !! k = Some v ∧ view h s' ⊆ view h s
  | (Err _, s') => view h s' ⊆ view h s end.
Proof.
  cbn [mc_get client_ops]. destruct (resolve h) as [a|e] eqn:Hr.
  - destruct (run_op_spec (Get k) (safe_Get k) (Err io_error) h a s (λ r s',
      held a s' ⊆ view h s ∧ ∀ it, r = Ok it → view h s !! k = Some (Value it)) Hr) as (r & s' & -> & Hh & Hv).
    { apply (wp_mc_Get a); [apply at_host_wf, (proj2_sig s)|by rewrite at_host_addrs Hr|].
      intros s' r _. by rewrite (view_at h a). }
    assert (view h s' ⊆ view h s) by by rewrite {1}/view Hr.
    destruct r as [it|e]; [|done]. split; [|done]. by apply Hv.
  - destruct (run_op _ _ _ _ _) as [r s'] eqn:E. rewrite !(view_none h e) //.
    assert (addrs (st_client (at_host h (`s))) = []) as Ha by by rewrite at_host_addrs Hr.
    destruct (no_servers_run k (mkItem k "" 0 0 0) _ Ha) as ([e' E'] & _).
    apply (f_equal fst) in E. rewrite /= E' /= in E. by subst r.
Qed.

Lemma set_ok h k v (s : client) : match mc_set h k v s with
  | (None, s') => view h s' ⊆ <[k := v]> (view h s)
  | (Some _, s') => view h s' ⊆ view h s ∨ view h s' ⊆ <[k := v]> (view h s) end.
Proof.
  cbn [mc_set client_ops]. destruct (resolve h) as [a|e] eqn:Hr.
  - destruct (run_op_spec (Set_ (mkItem k v 0 0 0)) (safe_Set _) (Some io_error) h a s (λ r s',
      match r with None => held a s' ⊆ <[k := v]> (view h s)
                 | Some _ => held a s' ⊆ view h s ∨ held a s' ⊆ <[k := v]> (view h s) end) Hr)
      as (r & s' & -> & Hh).
    { rewrite (view_at h a) //.
      apply (wp_mc_Set a); [apply at_host_wf, (proj2_sig s)|by rewrite at_host_addrs Hr|..]; by intros. }
    assert (view h s' = held a (`s')) as -> by by rewrite /view Hr. by destruct r.
  - destruct (run_op _ _ _ _ _) as [r s'] eqn:E. rewrite !(view_none h e) //.
    destruct r; [by left|]. apply map_empty_subseteq.
Qed.

Lemma delete_ok h k (s : client) : match mc_delete h k s with
  | (None, s') => view h s' ⊆ delete k (view h s)
  | (Some e, s') => view h s' ⊆ view h s ∧ (e = ErrCacheMiss → view h s' ⊆ delete k (view h s)) end.
Proof.
  cbn [mc_delete client_ops]. destruct (resolve h) as [a|e] eqn:Hr.
  - destruct (run_op_spec (Delete k) (safe_Delete k) (Some io_error) h a s (λ r s',
      match r with None => held a s' ⊆ delete k (view h s)
                 | Some e => held a s' ⊆ view h s ∧ (e = ErrCacheMiss → held a s' ⊆ delete k (view h s)) end) Hr)
      as (r & s' & -> & Hh).
    { rewrite (view_at h a) //.
      apply (wp_mc_Delete a); [apply at_host_wf, (proj2_sig s)|by rewrite at_host_addrs Hr|..]; by intros. }
    assert (view h s' = held a (`s')) as -> by by rewrite /view Hr. by destruct r.
  - destruct (run_op _ _ _ _ _) as [r s'] eqn:E. rewrite !(view_none h e) // delete_empty. by destruct r.
Qed.

(** The interface the file cache is verified against. *)
#[export] Instance client_laws : McLaws client := {
  mc_view := view;
  mc_get_law := get_ok;
  mc_set_law := set_ok;
  mc_delete_law := delete_ok;
}.

(** ** Theorems *)

(** C13: The client implements the interface that the file cache is verified
    against, over a network that can fail at any step: a hit is the value the server
    holds, no operation adds or changes any other item, a successful Set or Delete
    has taken effect, and a Delete that reports a miss leaves no item. *)
Theorem client_implements_cache h k v (c : client) :
  match mc_get h k c with
  | (Ok v', c') => view h c !! k = Some v' ∧ view h c' ⊆ view h c
  | (Err _, c') => view h c' ⊆ view h c
  end ∧
  match mc_set h k v c with
  | (None, c') => view h c' ⊆ <[k := v]> (view h c)
  | (Some _, c') => view h c' ⊆ view h c ∨ view h c' ⊆ <[k := v]> (view h c)
  end ∧
  match mc_delete h k c with
  | (None, c') => view h c' ⊆ delete k (view h c)
  | (Some e, c') => view h c' ⊆ view h c ∧ (e = ErrCacheMiss → view h c' ⊆ delete k (view h c))
  end.
Proof. split_and!; [apply get_ok|apply set_ok|apply delete_ok]. Qed.

(** The requests of a client, and a run of them. *)
Inductive request := RGet (k : string) | RSet (item : Item) | RDelete (k : string).
Definition perform (r : request) : MC () :=
  match r with
  | RGet k => Get k;; mret tt
  | RSet item => Set_ item;; mret tt
  | RDelete k => Delete k;; mret tt
  end.
Fixpoint perform_all (l : list request) : MC () :=
  match l with [] => mret tt | r :: l => perform r;; perform_all l end.

Lemma wp_perform a r (Q : () → cst → Prop) C s :
  wf s → addrs (st_client s) = [a] → (∀ s', after a s s' → Q tt s') → wp (perform r) Q C s.
Proof.
  intros Hwf Ha HQ. destruct r; apply wp_bind.
  - apply (wp_mc_Get a); [done..|]. intros. by apply wp_ret, HQ.
  - apply (wp_mc_Set a); [done..| |]; intros; by apply wp_ret, HQ.
  - apply (wp_mc_Delete a); [done..| |]; intros; by apply wp_ret, HQ.
Qed.

(** C14: Whatever a client of one server is asked and however the network fails, no
    operation panics, every idle connection it keeps is open, to its server, free of
    unread bytes and listed once, and there are at most two of them: no request can
    be answered with what is left of an earlier answer. *)
Theorem pool_never_stale a l s o s' :
  wf s → addrs (st_client s) = [a] → perform_all l s = (o, s') →
  o = Ret tt ∧ ∀ a' idle, freeconn (st_client s') !! a' = Some idle →
    NoDup idle ∧ (length idle ≤ 2)%nat ∧ ∀ cn, cn ∈ idle → n_conns (st_net s') !! cn = Some (a', "").
Proof.
  intros Hwf Ha Hrun.
  assert (∀ l s, wf s → addrs (st_client s) = [a] →
    wp (perform_all l) (λ r s', r = tt ∧ wf s') (λ _ _, False) s) as Hall.
  { clear l s o s' Hwf Ha Hrun. induction l as [|r l IH]; intros s Hwf Ha; [done|]. apply wp_bind, (wp_perform a); [done..|].
    intros s' [Hwf' Ha']. apply IH; [done|congruence]. }
  destruct (wp_total _ _ _ _ _ (Hall l s Hwf Ha) Hrun) as (r & -> & -> & [Hi _]).
  split; [done|]. exact Hi.
Qed.

(** A key with blanks, control characters or more than 250 bytes never reaches a
    server (where it could be read as another command): the three operations fail
    and no server's state changes. *)
Theorem illegal_key_sends_nothing a k v flags expiration cas s :
  legalKey k = false → wf s → addrs (st_client s) = [a] →
  Get k s = (Ret (Err ErrMalformedKey), s) ∧ Delete k s = (Ret (Some ErrMalformedKey), s) ∧
  ∃ e s', Set_ (mkItem k v flags expiration cas) s = (Ret (Some e), s') ∧ n_srvs (st_net s') = n_srvs (st_net s).
Proof.
  intros Hk Hwf Ha. split_and!.
  - by rewrite /Get Hk.
  - by rewrite /Delete /withKeyRw /withKeyAddr Hk.
  - assert (wp (Set_ (mkItem k v flags expiration cas))
      (λ r s', ∃ e, r = Some e ∧ n_srvs (st_net s') = n_srvs (st_net s)) (λ _ _, False) s) as Hwp.
    { apply wp_bind, wp_gets. rewrite /= Ha. apply wp_bind, wp_withAddr; [done| |].
      - intros cn s1 Ho [Hq _]. apply wp_bind. rewrite /populateOne /= Hk. apply wp_ret, wp_ret.
        exists "". split_and!; [done..|]. intros s3 _ [Hq3 _]. apply wp_ret. eexists. split; [done|]. congruence.
      - intros s1 _ [Hq _]. apply wp_ret. by eexists. }
    destruct (Set_ _ s) as [o s'] eqn:E.
    destruct (wp_total _ _ _ _ _ Hwp E) as (r & -> & e & -> & Hs). by exists e, s'.
Qed.

End client.

(** ** A simulated server *)
Definition error_answer : string := "ERROR" +:+ crlf.
Definition cr : ascii := ascii_of_nat 13.

#[export] Instance sim_server : Server (gmap string string) := {
  reply m req :=
    match strip_prefix "gets " req with
    | Some t =>
        match take_until cr t with
        | Some (k, _) =>
            match m !! k with
            | Some v =>
                if decide (Z.of_nat (String.length v) + 2 < 2 ^ 63)%Z
                then (value_line k 0 (String.length v) 0 +:+ v +:+ crlf +:+ resultEnd, m)
                else (resultEnd, m)
            | None => (resultEnd, m)
            end
        | None => (error_answer, m)
        end
    | None =>
    match strip_prefix "set " req with
    | Some t =>
        match take_until space t with
        | Some (k, t) =>
            match take_until newline t with
            | Some (_, body) =>
                match strip_suffix crlf body with
                | Some v => (resultStored, <[k := v]> m)
                | None => (error_answer, m)
                end
            | None => (error_answer, m)
            end
        | None => (error_answer, m)
        end
    | None =>
    match strip_prefix "delete " req with
    | Some t =>
        match take_until cr t with
        | Some (k, _) =>
            match m !! k with
            | Some _ => (resultDeleted, delete k m)
            | None => (resultNotFound, m)
            end
        | None => (error_answer, m)
        end
    | None => (error_answer, m)
    end end end;
}.

Lemma pretty_Z_no_newline (z : Z) : has_char newline (pretty z) = false.
Proof.
  destruct z as [|p|p]; [done|by apply (pretty_no_char (Npos p))|].
  change (pretty (Z.neg p)) with ("-" +:+ pretty (Npos p)). rewrite has_char_app.
  by apply (pretty_no_char (Npos p)).
Qed.

#[export] Instance sim_memcached : Memcached (gmap string string).
Proof.
  refine {| items := λ m, m |}.
  - intros m k Hk. rewrite /reply /sim_server strip_prefix_app.
    change (k +:+ crlf) with (k +:+ String cr nl). rewrite take_until_app; [|by apply (legalKey_no_char k)].
    destruct (m !! k) as [v|] eqn:E; [|by split; [|left]]. case_decide; [|by split; [|left]].
    split; [done|]. right. left. by exists v, 0%N, 0%N.
  - intros m k v flags e Hk. rewrite /reply /sim_server.
    set (hdr := pretty flags +:+ " " +:+ pretty e +:+ " " +:+ pretty (N.of_nat (String.length v)) +:+ String cr "").
    assert (set_request k v flags e = "set " +:+ k +:+ String space (hdr +:+ String newline (v +:+ crlf))) as ->.
    { rewrite /set_request (_ : store_line _ _ = Join ["set"; k; pretty flags; pretty e;
        pretty (N.of_nat (String.length v))] " " +:+ crlf) // /hdr. cbn [Join].
      by rewrite -!str_app_assoc. }
    change (strip_prefix "gets " _) with (@None string). rewrite strip_prefix_app.
    rewrite take_until_app; [|by apply (legalKey_no_char k)]. rewrite take_until_app.
    2:{ rewrite /hdr !has_char_app pretty_Z_no_newline. rewrite !pretty_no_char //. }
    rewrite strip_suffix_app. split; [by exists ("STORED" +:+ String cr "")|]. by case_decide.
  - intros m k Hk. rewrite /reply /sim_server.
    change (strip_prefix "gets " _) with (@None string). change (strip_prefix "set " _) with (@None string).
    rewrite strip_prefix_app.
    change (k +:+ crlf) with (k +:+ String cr nl). rewrite take_until_app; [|by apply (legalKey_no_char k)].
    destruct (m !! k) as [v|] eqn:E.
    + split_and!; [by exists ("DELETED" +:+ String cr "")|done|]. case_decide; [done|]. apply delete_subseteq.
    + split_and!; [by exists ("NOT_FOUND" +:+ String cr "")|done|]. case_decide; [|done]. by rewrite delete_id.
Defined.

(** ** Runs *)
Definition wit_resolve (h : string) : result string := Ok h.
(** One server that holds one item, no connection, and the given faults. *)
Definition wit_state (faults : list fault) : cst (srv := gmap string string) :=
  mkCst (mkClient ["mc"] ∅) (mkNet {["mc" := {["k" := "V"]}]} ∅ 0 faults).
Lemma wit_wf faults : wf (wit_state faults).
Proof. split; simpl; intros *; by rewrite lookup_empty. Qed.
Definition wit_client (faults : list fault) : client := wit_state faults ↾ wit_wf faults.

(** The second operation uses the connection of the first. *)
Lemma client_implements_cache_witness :
  let c := wit_client [] in
  (mc_get (McOps := client_ops wit_resolve) "mc" "k" c).1 = Ok "V" ∧ view wit_resolve "mc" c !! "k" = Some "V".
Proof.
  intros c.
  assert ((mc_get (McOps := client_ops wit_resolve) "mc" "k" c).1 = Ok "V") as Hg by by vm_compute.
  split; [exact Hg|].
  destruct (client_implements_cache wit_resolve "mc" "k" "W" c) as [Hl _].
  destruct (mc_get "mc" "k" c) as [r c']. simpl in Hg. subst r. exact (proj1 Hl).
Defined.

(** A timeout after the server has acted, then a normal request. *)
Definition wit_requests : list request :=
  [RGet "k"; RSet (mkItem "k" "W" 0 0 0); RGet "k"; RDelete "k"].
Lemma pool_never_stale_witness :
  let s := (perform_all wit_requests (wit_state [FOk; FOk; FOk; FAfter])).2 in
  freeconn (st_client s) !! "mc" = Some [1] ∧ NoDup [1] ∧ n_conns (st_net s) !! 1 = Some ("mc", "").
Proof.
  intros s. assert (freeconn (st_client s) !! "mc" = Some [1]) as Hf by by vm_compute.
  split; [exact Hf|].
  destruct (pool_never_stale "mc" wit_requests (wit_state [FOk; FOk; FOk; FAfter]) _ s (wit_wf _) eq_refl
    (surjective_pairing _)) as [_ Hp].
  destruct (Hp "mc" [1] Hf) as (Hnd & _ & Hin).
  exact (conj Hnd (Hin 1 ltac:(by left))).
Defined.

Lemma illegal_key_sends_nothing_witness :
  Get "a b" (wit_state []) = (Ret (Err ErrMalformedKey), wit_state []).
Proof.
  destruct (illegal_key_sends_nothing "mc" "a b" "V" 0 0 0 (wit_state []) eq_refl (wit_wf _) eq_refl) as [Hg _].
  exact Hg.
Defined.

End MemcacheCorrect.
