(* ===== verification/MemcacheMulti.v ===== *)
(** * bradfitz/gomemcache: GetMulti

    [GetMulti] of [src/src/github.com/bradfitz/gomemcache/memcache/memcache.go]: the keys
    are grouped by the server they live on, one goroutine per server asks for its group,
    and the items are collected in one map.  The goroutines run one after the other
    here, in any order: each uses a connection of its own to a server of its own, and
    what they share (the pool, the map) is behind mutexes. *)

From S2P Require Import Prelude GoStrings Services Memcache MemcacheCorrect.

Module MemcacheMulti.
Import Memcache MemcacheCorrect.

#[local] Arguments String.append !_ _ / : simpl nomatch.

Section multi.
Context {srv : Type} `{!Server srv}.
Abbreviation MC := (M (cst (srv:=srv))).

(** [getFromAddr] with a callback that collects the items, last first. *)
Definition getItemsFromAddr (addr : string) (keys : list string) : MC (option error * list Item) :=
  withAddr addr [] (λ cn,
    err ← flush cn ("gets " +:+ Join keys " " +:+ crlf);
    match err with
    | Some e => mret (Some e, [])
    | None => parseGetResponse cn
    end).

(** The first loop: [keyMap[addr] = append(keyMap[addr], key)]. *)
Fixpoint group_keys (l : list string) (keys : list string) (keyMap : gmap string (list string)) :
    result (gmap string (list string)) :=
  match keys with
  | [] => Ok keyMap
  | key :: keys =>
      if negb (legalKey key) then Err ErrMalformedKey
      else match PickServer l key with
           | Err e => Err e
           | Ok addr => group_keys l keys (<[addr := default [] (keyMap !! addr) ++ [key]]> keyMap)
           end
  end.

(** [addItemToMap] for every item, in the order in which they were read. *)
Definition add_items (items : list Item) (m : gmap string Item) : gmap string Item :=
  foldr (λ it m, <[Key it := it]> m) m items.

(** The goroutines and the loop that receives their errors. *)
Fixpoint collect (order : list string) (keyMap : gmap string (list string)) (m : gmap string Item)
    (err : option error) : MC (gmap string Item * option error) :=
  match order with
  | [] => mret (m, err)
  | addr :: order =>
      r ← getItemsFromAddr addr (default [] (keyMap !! addr));
      collect order keyMap (add_items r.2 m) (match r.1 with Some ge => Some ge | None => err end)
  end.

(** [GetMulti]; [order] is the order of the goroutines, a permutation of the servers. *)
Definition GetMulti (order : gmap string (list string) → list string) (keys : list string) :
    MC (option (gmap string Item) * option error) :=
  l ← gets (addrs ∘ st_client);
  match group_keys l keys ∅ with
  | Err e => mret (None, Some e)
  | Ok keyMap =>
      r ← collect (order keyMap) keyMap ∅ None;
      mret (Some r.1, r.2)
  end.

(** The callback of [Get] keeps the item read last. *)
Lemma getFromAddr_items addr keys s :
  getFromAddr addr keys s =
  (r ← getItemsFromAddr addr keys; mret (r.1, head r.2)) s.
Proof.
  rewrite /getFromAddr /getItemsFromAddr /withAddr /mbind /M_bind.
  destruct (getConn addr s) as [[[cn|e]|c] s1]; try done. rewrite /released.
  destruct (flush cn _ s1) as [[[e|]|c] s2]; [|destruct (parseGetResponse cn s2) as [[r|c] s3]|].
  all: rewrite /mret /M_ret /mbind /M_bind /throw /=; by repeat (case_match; simplify_eq).
Qed.

(** ** Answers to several keys *)

(** A value block. *)
Record block := mkBlock { bl_key : string; bl_value : string; bl_flags : N; bl_cas : N }.
Definition block_ok (b : block) : Prop :=
  legalKey (bl_key b) = true ∧ (bl_flags b < 2 ^ 32)%N ∧ (bl_cas b < 2 ^ 64)%N ∧
  (Z.of_nat (String.length (bl_value b)) + 2 < 2 ^ 63)%Z.
Definition block_string (b : block) : string :=
  value_line (bl_key b) (bl_flags b) (String.length (bl_value b)) (bl_cas b) +:+ bl_value b +:+ crlf.
Fixpoint blocks_string (bs : list block) : string :=
  match bs with [] => resultEnd | b :: bs => block_string b +:+ blocks_string bs end.
Definition block_item (b : block) : Item := mkItem (bl_key b) (bl_value b) (bl_flags b) 0 (bl_cas b).

(** The values of [keys] a server holds, and those it still holds afterwards are among
    them; or an error line. *)
Definition multi_answer (keys : list string) (m m' : gmap string string) (out : string) : Prop :=
  (∃ bs, out = blocks_string bs ∧
     (∀ b, b ∈ bs → block_ok b ∧ bl_key b ∈ keys ∧ m !! bl_key b = Some (bl_value b)) ∧
     (∀ k v, k ∈ keys → m' !! k = Some v → ∃ b, b ∈ bs ∧ bl_key b = k)) ∨
  (one_line out ∧ HasPrefix out "VALUE " = false ∧ out ≠ resultEnd).

Class MemcachedMulti `{!Memcached srv} := {
  gets_multi : ∀ sv keys, keys ≠ [] → Forall (λ k, legalKey k = true) keys →
    match reply sv ("gets " +:+ Join keys " " +:+ crlf) with (out, sv') =>
      items sv' ⊆ items sv ∧ multi_answer keys (items sv) (items sv') out end;
}.

Context `{!Memcached srv} `{!MemcachedMulti}.
Implicit Types (s : cst (srv:=srv)) (cn : nat) (a : string).

(** What is read: the items of the blocks, the last first; after an error, some of them. *)
Definition multi_parsed (keys : list string) (m m' : gmap string string) cn a s
    (res : option error * list Item) s' : Prop :=
  quiet s s' ∧ ∃ buf, owned cn a buf s' ∧
  (∀ it, it ∈ res.2 → Key it ∈ keys ∧ m !! Key it = Some (Value it)) ∧
  match res.1 with
  | Some e => resumableError e = false
  | None => buf = "" ∧ ∀ k v, k ∈ keys → m' !! k = Some v → ∃ it, it ∈ res.2 ∧ Key it = k
  end.

Lemma wp_parse_blocks keys m m' cn a bs : ∀ fuel l s0 s C,
  (String.length (blocks_string bs) < fuel)%nat → owned cn a (blocks_string bs) s → quiet s0 s →
  (∀ b, b ∈ bs → block_ok b ∧ bl_key b ∈ keys ∧ m !! bl_key b = Some (bl_value b)) →
  (∀ it, it ∈ l → Key it ∈ keys ∧ m !! Key it = Some (Value it)) →
  (∀ k v, k ∈ keys → m' !! k = Some v → (∃ b, b ∈ bs ∧ bl_key b = k) ∨ (∃ it, it ∈ l ∧ Key it = k)) →
  wp (parse_go fuel cn l) (multi_parsed keys m m' cn a s0) C s.
Proof.
  induction bs as [|b bs IH]; intros fuel l s0 s C Hf Ho Hq Hbs Hl Hall; (destruct fuel as [|fuel]; [lia|]).
  - apply wp_bind, (wp_readAnswer cn a resultEnd); [done|by exists ("END" +:+ String (ascii_of_nat 13) "")|..].
    + intros s1 Ho1 Hq1. cbv beta iota. case_decide; [|done]. apply wp_ret. split; [by eapply quiet_trans|].
      exists "". split; [done|]. split; [done|]. split; [done|]. intros k v Hk Hv. destruct (Hall k v Hk Hv) as [(b & Hb & _)|?]; [|done].
      by apply elem_of_nil in Hb.
    + intros s1 Ho1 Hq1. apply wp_ret. split; [by eapply quiet_trans|]. by exists resultEnd.
  - destruct (Hbs b) as ((Hk & Hfl & Hc & Hlen) & Hin & Hm); [by left|].
    cbn [blocks_string] in Hf, Ho. set (tail := bl_value b +:+ crlf +:+ blocks_string bs).
    set (vl := value_line (bl_key b) (bl_flags b) (String.length (bl_value b)) (bl_cas b)).
    assert (block_string b +:+ blocks_string bs = vl +:+ tail) as Eb.
    { rewrite /block_string -/vl /tail. clearbody vl. by rewrite -!str_app_assoc. }
    rewrite Eb in Hf, Ho.
    destruct (value_line_read (bl_key b) (bl_flags b) (String.length (bl_value b)) (bl_cas b) tail Hk)
      as (l' & Ht & Hl'). rewrite -/vl in Ht Hl'.
    apply wp_bind, (wp_ReadLine cn a (vl +:+ tail)); [done| |].
    2:{ intros s1 Ho1 Hq1. apply wp_ret. split; [by eapply quiet_trans|]. by eexists. }
    intros l2 rest s1 Ht'. rewrite Ht in Ht'. injection Ht' as <- <-. rewrite Hl'. intros Ho1 Hq1.
    cbv beta iota. case_decide as Hd; [done|]. rewrite value_line_scan //.
    assert (limit (Z.of_nat (String.length (bl_value b))) = String.length (bl_value b +:+ crlf)) as ->.
    { rewrite /limit decide_True // str_length_app /=. lia. }
    assert (tail = (bl_value b +:+ crlf) +:+ blocks_string bs) as Etail by by rewrite /tail str_app_assoc.
    apply wp_bind, (wp_ReadN cn a tail); [done| |].
    2:{ intros s2 Ho2 Hq2. apply wp_ret. split; [eauto using quiet_trans|]. by eexists. }
    intros s2 Ho2 Hq2. rewrite Etail substring_post in Ho2. rewrite Etail substring_pre.
    rewrite (_ : HasSuffix (bl_value b +:+ crlf) crlf = true); [|apply HasSuffix_true; by eexists]. cbn [negb].
    rewrite Nat2Z.id substring_pre. apply IH; [|done|eauto using quiet_trans|..].
    + rewrite Etail !str_length_app in Hf. simpl in Hf. lia.
    + intros b' Hb'. apply Hbs. by right.
    + intros it [->|Hit]%elem_of_cons; [done|]. by apply Hl.
    + intros k v Hkk Hv. destruct (Hall k v Hkk Hv) as [(b' & [->|Hb']%elem_of_cons & <-)|(it & Hit & <-)].
      * right. eexists. split; [by left|done].
      * left. eauto.
      * right. exists it. split; [by right|done].
Qed.

Lemma scan_error_final line e : scanGetResponseLine line = Err e → resumableError e = false.
Proof. rewrite /scanGetResponseLine. repeat case_match; by intros [= <-]. Qed.

Lemma wp_parse_multi keys m m' out cn a s C :
  multi_answer keys m m' out → owned cn a out s →
  wp (parseGetResponse cn) (multi_parsed keys m m' cn a s) C s.
Proof.
  intros Hans Ho. apply wp_bind, wp_gets.
  assert (unread cn s = out) as -> by by rewrite /unread (ow_conn _ _ _ _ Ho).
  destruct Hans as [(bs & -> & Hbs & Hall)|(Hone & Hpre & Hend)].
  - apply (wp_parse_blocks keys m m' cn a bs); [lia|done|done|done| |].
    + intros it Hit. by apply elem_of_nil in Hit.
    + intros k v Hk Hv. left. eauto.
  - apply wp_bind, (wp_readAnswer cn a out); [done|done|..].
    + intros s1 Ho1 Hq1. case_decide; [done|].
      destruct (scanGetResponseLine out) as [r|e] eqn:Es.
      { apply scan_VALUE in Es. congruence. }
      apply wp_ret. split; [done|]. exists "". split_and!; [done| |by eapply scan_error_final].
      intros it Hit. by apply elem_of_nil in Hit.
    + intros s1 Ho1 Hq1. apply wp_ret. split; [done|]. eexists. split_and!; [done| |done].
      intros it Hit. by apply elem_of_nil in Hit.
Qed.

(** What asking one server does: other servers are untouched, it holds no more than
    before, and the items are right. *)
Record asked (keys : list string) a s (r : option error * list Item) s' : Prop := {
  as_wf : wf s';
  as_addrs : addrs (st_client s') = addrs (st_client s);
  as_others : ∀ a', a' ≠ a → held a' s' = held a' s;
  as_held : held a s' ⊆ held a s;
  as_sound : ∀ it, it ∈ r.2 → Key it ∈ keys ∧ held a s !! Key it = Some (Value it);
  as_complete : r.1 = None → ∀ k v, k ∈ keys → held a s' !! k = Some v → ∃ it, it ∈ r.2 ∧ Key it = k;
}.

Lemma held_served_other a a' bytes s s' : served a bytes s s' → a' ≠ a → held a' s' = held a' s.
Proof. intros [_ (sv & _ & E)] Hne. by rewrite /held E lookup_insert_ne. Qed.

Lemma asked_quiet keys a s s' e : wf s' → quiet s s' → asked keys a s (Some e, []) s'.
Proof.
  intros Hw Hq. split; try done; try (intros; by rewrite (held_quiet _ _ _ Hq)).
  - apply Hq.
  - intros it Hit. by apply elem_of_nil in Hit.
Qed.

Lemma wp_getItems keys a s C :
  wf s → keys ≠ [] → Forall (λ k, legalKey k = true) keys →
  wp (getItemsFromAddr a keys) (asked keys a s) C s.
Proof.
  intros Hwf Hne Hk. set (req := "gets " +:+ Join keys " " +:+ crlf).
  apply wp_withAddr; [done| |]; [|intros; by apply asked_quiet].
  intros cn s1 Ho Hq. rewrite -/req.
  assert (∀ a', held a' s1 = held a' s) as Hh1 by (intros; by apply held_quiet).
  assert (∀ sv, items (reply sv req).2 ⊆ items sv ∧
    multi_answer keys (items sv) (items (reply sv req).2) (reply sv req).1) as Hlaw.
  { intros sv. pose proof (gets_multi sv keys Hne Hk) as Hl. rewrite -/req in Hl. by destruct (reply sv req). }
  apply wp_bind, (wp_flush cn a "" req); [done| |].
  2:{ intros s2 Ho2 Hs2. apply wp_ret. exists "". split_and!; [done..|]. intros s3 Hw3 Hq3.
      destruct Hs2 as [Hq2|Hs2]; [apply asked_quiet; eauto using quiet_trans|].
      pose proof Hs2 as [Ha2 (sv & Hsv & _)]. destruct (held_served _ _ _ _ _ Hsv Hs2) as [E1 E2].
      split; [done| | | | |done].
      - rewrite (qu_addrs _ _ Hq3) Ha2. apply Hq.
      - intros a' Ha'. rewrite (held_quiet _ _ _ Hq3) (held_served_other _ _ _ _ _ Hs2 Ha') //.
      - rewrite (held_quiet _ _ _ Hq3) E2 -Hh1 E1. apply Hlaw.
      - intros it Hit. by apply elem_of_nil in Hit. }
  intros s2 sv Hsv Hs2 Ho2. rewrite str_app_nil_l in Ho2.
  destruct (held_served _ _ _ _ _ Hsv Hs2) as [E1 E2].
  eapply wp_mono with (C := λ _ _, False); [by apply (wp_parse_multi keys (items sv) (items (reply sv req).2) (reply sv req).1 cn a); [apply Hlaw|]| |done].
  intros [e l] s3 (Hq3 & buf & Ho3 & Hsound & Hres). simpl in Hsound, Hres. exists buf. split_and!; [done| |].
  { destruct e as [e|]; simpl; [by rewrite Hres|]. by destruct Hres. }
  intros s4 Hw4 Hq4. pose proof (quiet_trans _ _ _ Hq3 Hq4) as Hq34. split; [done|..]; simpl.
  - rewrite (qu_addrs _ _ Hq34). destruct Hs2 as [-> _]. apply Hq.
  - intros a' Ha'. rewrite (held_quiet _ _ _ Hq34) (held_served_other _ _ _ _ _ Hs2 Ha') //.
  - rewrite (held_quiet _ _ _ Hq34) E2 -Hh1 E1. apply Hlaw.
  - rewrite -Hh1 E1. done.
  - intros ->. rewrite (held_quiet _ _ _ Hq34) E2. by destruct Hres.
Qed.

(** ** Grouping the keys *)
Lemma group_keys_ok l keys km km' :
  group_keys l keys km = Ok km' →
  Forall (λ k, legalKey k = true) keys ∧ (∀ k, k ∈ keys → ∃ a, PickServer l k = Ok a) ∧
  ∀ a k, k ∈ default [] (km' !! a) ↔ k ∈ default [] (km !! a) ∨ (k ∈ keys ∧ PickServer l k = Ok a).
Proof.
  revert km. induction keys as [|key keys IH]; intros km; simpl.
  { intros [= <-]. split_and!; [done|by intros k ?%elem_of_nil|]. intros a k. rewrite elem_of_nil. naive_solver. }
  destruct (legalKey key) eqn:Hleg; [|done]. cbn [negb].
  destruct (PickServer l key) as [addr|e] eqn:Hp; [|done].
  intros (Hl & Hpick & Hkm)%IH. split_and!; [by constructor| |].
  - intros k [->|Hk]%elem_of_cons; eauto.
  - intros a k. rewrite Hkm lookup_insert elem_of_cons. case_decide as Ha; simpl.
    + subst. rewrite elem_of_app list_elem_of_singleton. naive_solver congruence.
    + split; [naive_solver|]. intros [?|[[->|?] ?]]; [by left| |by right]. congruence.
Qed.

Definition groups_nonempty (km : gmap string (list string)) : Prop := ∀ a ks, km !! a = Some ks → ks ≠ [].
Lemma group_keys_nonempty l keys km km' :
  groups_nonempty km → group_keys l keys km = Ok km' → groups_nonempty km'.
Proof.
  rewrite /groups_nonempty. revert km. induction keys as [|key keys IH]; intros km Hd; simpl; [by intros [= <-]|].
  destruct (legalKey key); [|done]. cbn [negb]. destruct (PickServer l key) as [addr|]; [|done].
  intros Hg. eapply IH; [|exact Hg]. intros a ks. rewrite lookup_insert. case_decide; [|apply Hd].
  intros [= <-]. by intros [_ ?]%app_eq_nil.
Qed.

(** ** Collecting *)
Lemma add_items_lookup l m k :
  add_items l m !! k = match filter (λ it, Key it = k) l with it :: _ => Some it | [] => m !! k end.
Proof.
  induction l as [|it l IH]; [done|]. cbn [add_items foldr]. rewrite filter_cons lookup_insert.
  case_decide; [done|]. apply IH.
Qed.
Lemma add_items_Some l m k it : add_items l m !! k = Some it → (it ∈ l ∧ Key it = k) ∨ m !! k = Some it.
Proof.
  rewrite add_items_lookup. destruct (filter _ l) as [|it' l'] eqn:E; [by right|]. intros [= ->]. left.
  assert (it ∈ filter (λ it, Key it = k) l) as Hin by (rewrite E; by left).
  apply list_elem_of_filter in Hin. naive_solver.
Qed.
Lemma add_items_is_Some l m k :
  (∃ it, it ∈ l ∧ Key it = k) ∨ is_Some (m !! k) → is_Some (add_items l m !! k).
Proof.
  rewrite add_items_lookup. intros [(it & Hin & Hk)|Hm].
  - assert (it ∈ filter (λ it, Key it = k) l) as Hf by by apply list_elem_of_filter.
    destruct (filter _ l); [by apply elem_of_nil in Hf|]. by eexists.
  - destruct (filter _ l); [done|]. by eexists.
Qed.

(** The state of the loop: what was there at the start is an upper bound, items come
    from the servers of their keys, and the groups dealt with are complete. *)
Record collecting (km : gmap string (list string)) s0 (done_ : list string) s
    (r : gmap string Item * option error) : Prop := {
  co_wf : wf s;
  co_addrs : addrs (st_client s) = addrs (st_client s0);
  co_held : ∀ a, held a s ⊆ held a s0;
  co_sound : ∀ k it, r.1 !! k = Some it →
    Key it = k ∧ ∃ a, k ∈ default [] (km !! a) ∧ held a s0 !! k = Some (Value it);
  co_complete : r.2 = None → ∀ a k v, a ∈ done_ → k ∈ default [] (km !! a) → held a s !! k = Some v → is_Some (r.1 !! k);
}.

Lemma collecting_step km s0 done_ s m err a r s' :
  collecting km s0 done_ s (m, err) → asked (default [] (km !! a)) a s r s' →
  collecting km s0 (a :: done_) s' (add_items r.2 m, match r.1 with Some ge => Some ge | None => err end).
Proof.
  intros [Hw Ha Hh Hs Hc] [Hw' Ha' Ho' Hh' Hs' Hc']. simpl in *. split; simpl; [done|congruence|..].
  - intros a'. destruct (decide (a' = a)) as [->|Hne]; [|by rewrite Ho']. by transitivity (held a s).
  - intros k it [(Hin & <-)|Hm]%add_items_Some; [|by apply Hs]. split; [done|].
    apply Hs' in Hin as [Hk Hv]. exists a. split; [done|]. by eapply lookup_weaken.
  - destruct r as [[ge|] its]; [done|]. simpl in *. intros -> a' k v Hin Hk Hv. apply add_items_is_Some.
    destruct (decide (a' = a)) as [->|Hne]; [left; by eapply Hc'|]. right.
    apply elem_of_cons in Hin as [?|Hin]; [done|]. rewrite Ho' // in Hv. by eapply Hc.
Qed.

Lemma wp_collect km s0 order : ∀ done_ s m err C,
  (∀ a, a ∈ order → ∃ ks, km !! a = Some ks) →
  (∀ a ks, km !! a = Some ks → ks ≠ [] ∧ Forall (λ k, legalKey k = true) ks) →
  collecting km s0 done_ s (m, err) →
  wp (collect order km m err) (λ r s', collecting km s0 (rev order ++ done_) s' r) C s.
Proof.
  induction order as [|a order IH]; intros done_ s m err C Hord Hkm Hco; [by apply wp_ret|].
  cbn [collect]. apply wp_bind. destruct (Hord a) as [ks Hks]; [by left|].
  destruct (Hkm a ks Hks) as [Hne Hleg].
  eapply wp_mono; [eapply wp_getItems; [apply Hco|by rewrite Hks..]| |done].
  intros r s' Hr. cbn [rev]. rewrite -app_assoc /=. apply IH; [|done|].
  - intros a' Ha'. apply Hord. by right.
  - by eapply collecting_step.
Qed.
End multi.

(** ** A server that answers several keys

    It drops items that are too long to be sent. *)
Record msrv := mkMsrv { ms_items : gmap string string }.
Definition sendable (v : string) : Prop := (Z.of_nat (String.length v) + 2 < 2 ^ 63)%Z.
#[export] Instance sendable_dec v : Decision (sendable v).
Proof. rewrite /sendable. apply _. Defined.
Definition sim_blocks (m : gmap string string) (keys : list string) : list block :=
  omap (λ k, match m !! k with
             | Some v => if decide (sendable v) then Some (mkBlock k v 0 0) else None
             | None => None end) keys.

#[export] Instance msrv_server : Server msrv := {
  reply sv req :=
    match strip_prefix "gets " req with
    | Some t =>
        match take_until cr t with
        | Some (ks, _) => (blocks_string (sim_blocks (ms_items sv) (Split ks space)),
                           mkMsrv (filter (λ kv, sendable kv.2) (ms_items sv)))
        | None => (error_answer, sv)
        end
    | None => let '(out, m) := reply (ms_items sv) req in (out, mkMsrv m)
    end;
}.

Lemma reply_gets sv keys :
  keys ≠ [] → Forall (λ k, legalKey k = true) keys →
  reply sv ("gets " +:+ Join keys " " +:+ crlf) =
  (blocks_string (sim_blocks (ms_items sv) keys), mkMsrv (filter (λ kv, sendable kv.2) (ms_items sv))).
Proof.
  intros Hne Hk. rewrite /reply /msrv_server strip_prefix_app.
  change (Join keys " " +:+ crlf) with (Join keys " " +:+ String cr nl).
  assert (∀ c, legal_char c = false → Forall (λ k, has_char c k = false) keys) as Hno.
  { intros c Hc. eapply Forall_impl; [exact Hk|]. intros k Hlk. by apply legalKey_no_char. }
  rewrite take_until_app; [|by apply has_char_Join; [apply Hno|]].
  change " " with (String space ""). by rewrite Split_Join; [..|apply Hno].
Qed.

Lemma sim_blocks_spec m keys b :
  b ∈ sim_blocks m keys → bl_key b ∈ keys ∧ m !! bl_key b = Some (bl_value b) ∧ sendable (bl_value b) ∧
  bl_flags b = 0%N ∧ bl_cas b = 0%N.
Proof.
  intros (k & Hk & Hb)%list_elem_of_omap. destruct (m !! k) as [v|] eqn:E; [|done].
  case_decide; [|done]. by injection Hb as <-.
Qed.
Lemma sim_blocks_complete m keys k v :
  k ∈ keys → m !! k = Some v → sendable v → ∃ b, b ∈ sim_blocks m keys ∧ bl_key b = k.
Proof.
  intros Hk Hv Hs. exists (mkBlock k v 0 0). split; [|done]. apply list_elem_of_omap. exists k.
  by rewrite Hv decide_True.
Qed.

#[export] Instance msrv_memcached : Memcached msrv.
Proof.
  refine {| items := ms_items |}.
  - intros sv k Hk. pose proof (reply_gets sv [k] ltac:(done) ltac:(by constructor)) as Hr. cbn [Join] in Hr.
    rewrite Hr. split; [apply map_filter_subseteq|].
    destruct (ms_items sv !! k) as [v|] eqn:E; rewrite /sim_blocks /= E; [|by left].
    case_decide as Hs; [|by left]. right. left. exists v, 0%N, 0%N. split_and!; try done.
    simpl. by rewrite /block_string /= -!str_app_assoc.
  - intros sv k v flags e Hk. pose proof (set_law (ms_items sv) k v flags e Hk) as Hl.
    rewrite /reply /msrv_server. change (strip_prefix "gets " _) with (@None string).
    destruct (reply (ms_items sv) _) as [out m]. exact Hl.
  - intros sv k Hk. pose proof (delete_law (ms_items sv) k Hk) as Hl.
    rewrite /reply /msrv_server. change (strip_prefix "gets " _) with (@None string).
    destruct (reply (ms_items sv) _) as [out m]. exact Hl.
Defined.

#[export] Instance msrv_multi : MemcachedMulti.
Proof.
  split. intros sv keys Hne Hk. rewrite reply_gets //. split; [apply map_filter_subseteq|]. left.
  eexists. split; [done|]. split.
  - intros b (Hin & Hm & Hs & Hf & Hc)%sim_blocks_spec. split; [|done].
    rewrite /block_ok Hf Hc. split_and!; try done. by eapply Forall_forall in Hk.
  - intros k v Hin [Hm Hs]%map_lookup_filter_Some. by eapply sim_blocks_complete.
Defined.

(** ** Claims *)

(** C15: [GetMulti], whatever the order of its goroutines and whatever fails: it returns; an
    item in the map is one that was asked for, with the value its server held; without
    an error, every key that its server still holds is in the map; servers lose at most
    what they drop, and no connection is left with unread bytes. *)
Theorem get_multi_exact {srv : Type} `{!Server srv, !Memcached srv, !MemcachedMulti (srv:=srv)}
    (order : gmap string (list string) → list string) keys (s : cst (srv:=srv)) o s' :
  wf s → (∀ km, order km ≡ₚ (map_to_list km).*1) → GetMulti order keys s = (o, s') →
  ∃ m err, o = Ret (m, err) ∧ wf s' ∧ (∀ a, held a s' ⊆ held a s) ∧
  match m with
  | None => is_Some err ∧ s' = s
  | Some m =>
      (∀ k it, m !! k = Some it → Key it = k ∧ k ∈ keys ∧
         ∃ a, PickServer (addrs (st_client s)) k = Ok a ∧ held a s !! k = Some (Value it)) ∧
      (err = None → ∀ k a v, k ∈ keys → PickServer (addrs (st_client s)) k = Ok a →
         held a s' !! k = Some v → ∃ it, m !! k = Some it)
  end.
Proof.
  intros Hwf Hord. rewrite /GetMulti /mbind /M_bind /gets /=.
  destruct (group_keys _ keys ∅) as [km|e] eqn:Eg; [|intros [= <- <-]; eexists None, _; by eauto].
  destruct (group_keys_ok _ _ _ _ Eg) as (Hleg & Hpick & Hkm).
  assert (groups_nonempty km) as Hne by (eapply group_keys_nonempty; [|done]; by intros ? ?).
  assert (∀ a k, k ∈ default [] (km !! a) ↔ k ∈ keys ∧ PickServer (addrs (st_client s)) k = Ok a) as Hkm'.
  { intros a k. rewrite Hkm lookup_empty /= elem_of_nil. naive_solver. }
  assert (∀ a, a ∈ order km ↔ ∃ ks, km !! a = Some ks) as Hin.
  { intros a. rewrite Hord list_elem_of_fmap. split.
    - intros ([a' ks] & -> & H%elem_of_map_to_list). eauto.
    - intros [ks H]. exists (a, ks). by rewrite elem_of_map_to_list. }
  assert (wp (collect (order km) km ∅ None) (λ r s', collecting km s (rev (order km) ++ []) s' r) (λ _ _, False) s) as Hc.
  { apply wp_collect.
    - intros a. apply Hin.
    - intros a ks Hks. split; [by eapply Hne|]. apply Forall_forall. intros k Hk.
      assert (k ∈ default [] (km !! a)) as [Hkk _]%Hkm' by by rewrite Hks. by apply (proj1 (Forall_forall _ _) Hleg).
    - split; try done. simpl. intros _ a k v Ha. by apply elem_of_nil in Ha. }
  destruct (collect _ _ _ _ s) as [o1 s1] eqn:E1. destruct (wp_total _ _ _ _ _ Hc E1) as ([m err] & -> & Hco).
  intros [= <- <-]. exists (Some m), err. destruct Hco as [Hw _ Hh Hs Hcomp]. split_and!; try done.
  - intros k it (Hkey & a & [Hk Hp]%Hkm' & Hv)%Hs. eauto 6.
  - intros -> k a v Hk Hp Hv. apply (Hcomp eq_refl a k v); [|by apply Hkm'|done].
    rewrite app_nil_r. apply list_elem_of_In, in_rev, list_elem_of_In; rewrite rev_involutive; apply Hin.
    assert (k ∈ default [] (km !! a)) as Hd by by apply Hkm'.
    destruct (km !! a); [by eexists|by apply elem_of_nil in Hd].
Qed.

(** Two servers; of three keys two are there. *)
Definition multi_state : cst (srv := msrv) :=
  mkCst (mkClient ["a"; "b"] ∅)
    (mkNet {["a" := mkMsrv {["k1" := "V"]}; "b" := mkMsrv {["k2" := "W"]}]} ∅ 0 []).
Definition multi_order (km : gmap string (list string)) : list string := (map_to_list km).*1.
Lemma get_multi_exact_witness :
  ∃ m, (GetMulti multi_order ["k1"; "k2"; "k3"] multi_state).1 = Ret (Some m, None) ∧
       (∀ k it, m !! k = Some it → Key it = k ∧ k ∈ ["k1"; "k2"; "k3"]).
Proof.
  destruct (GetMulti multi_order ["k1"; "k2"; "k3"] multi_state) as [o s'] eqn:E.
  destruct (get_multi_exact multi_order ["k1"; "k2"; "k3"] multi_state o s') as (m & err & -> & _ & _ & Hm).
  - split; simpl; intros *; by rewrite lookup_empty.
  - intros km. reflexivity.
  - exact E.
  - apply (f_equal (λ x, match x.1 with Ret (Some _, None) => true | _ => false end)) in E.
    vm_compute in E. destruct m as [m|]; [|done]. destruct err; [done|]. exists m. split; [done|].
    intros k it Hk. destruct (proj1 Hm k it Hk) as (? & ? & _). done.
Defined.
End MemcacheMulti.
