(* ===== verification/AmqpWire.v ===== *)
(** * streadway/amqp: values on the wire

    [src/src/github.com/streadway/amqp]: [write.go] and [read.go], the encoding of
    integers, strings, table fields and tables.  A Go reader is the string of its
    unread bytes; a write to a [bytes.Buffer] cannot fail, so what a function
    writes there is the string it returns, and an error is an unsupported field
    type.  Integers are [Z] with their width written out. *)

From S2P Require Import Prelude GoStrings.

#[local] Set Warnings "-register-all".

Module AmqpWire.

(** ** Bytes and big-endian integers *)

Definition byte_of (z : Z) : ascii := ascii_of_N (Z.to_N (z mod 256)).
Definition of_byte (c : ascii) : Z := Z.of_N (N_of_ascii c).

(** [binary.BigEndian.PutUint...]: the low [k] bytes of a number. *)
Fixpoint be (k : nat) (z : Z) : string :=
  match k with
  | O => ""
  | S k => be k (z / 256) +:+ String (byte_of z) ""
  end.
(** [binary.BigEndian.Uint...] *)
Fixpoint be_num (acc : Z) (s : string) : Z :=
  match s with
  | EmptyString => acc
  | String c s => be_num (acc * 256 + of_byte c) s
  end.

(** [int16(x)], [int32(x)], [int64(x)] of an unsigned number of [k] bytes. *)
Definition signed (k : nat) (z : Z) : Z :=
  if decide (z < 2 ^ (8 * Z.of_nat k - 1))%Z then z else (z - 2 ^ (8 * Z.of_nat k))%Z.

(** ** Readers *)
Abbreviation P A := (M string (result A)).

Fixpoint split_at (n : nat) (s : string) : string * string :=
  match n, s with
  | S n, String c s => let '(a, b) := split_at n s in (String c a, b)
  | _, _ => ("", s)
  end.

(** [io.ReadFull(r, buf)] with a buffer of [n] bytes. *)
Definition ReadFull (n : Z) : P string := λ s,
  if decide (n ≤ 0)%Z then (Ret (Ok ""), s)
  else if decide (s = "") then (Ret (Err EOF), "")
  else if decide (Z.of_nat (String.length s) < n)%Z then (Ret (Err ErrUnexpectedEOF), "")
  else let '(a, b) := split_at (Z.to_nat n) s in (Ret (Ok a), b).

(** [binary.Read(r, binary.BigEndian, &v)] for an unsigned and a signed [v]. *)
Definition readU (k : nat) : P Z :=
  s ←? ReadFull (Z.of_nat k); mret (Ok (be_num 0 s)).
Definition readI (k : nat) : P Z := x ←? readU k; mret (Ok (signed k x)).

(** [make([]byte, n)] panics on a negative length. *)
Definition makeslice_panic : crash := Panic "makeslice: len out of range".
Definition make_bytes (n : Z) : P () :=
  if decide (n < 0)%Z then throw makeslice_panic else mret (Ok tt).

(** A reader over [str] of its own ([bytes.Buffer]). *)
Definition nested {A} (str : string) (p : P A) : P A := λ s, ((p str).1, s).

(** [io.LimitedReader{R: r, N: n}] *)
Definition limited {A} (n : Z) (p : P A) : P A := λ s,
  let '(a, b) := split_at (Z.to_nat (n `min` Z.of_nat (String.length s))) s in
  let '(r, a') := p a in (r, a' +:+ b).

Definition readShortstr : P string := length ←? readU 1; ReadFull length.
Definition readLongstr : P string := length ←? readU 4; ReadFull length.

(** ** Values

    A [time.Time] is its Unix time in seconds and the nanoseconds above it (the
    location is not kept); a float is its IEEE bit pattern, which is all that
    [math.Float64bits] and its inverse give and take. *)
Record gotime := mkTime { t_unix : Z; t_nsec : Z }.
(** [time.Time{}]: January 1, year 1. *)
Definition zeroTime : gotime := mkTime (-62135596800) 0.

Record Decimal := mkDecimal { Scale : Z; Value : Z }.

(** What an [interface{}] of a table can hold; [FOther] is any type the package
    does not support.  A [Table] lists its pairs in the order a [range] visits
    them; a [nil] table is the empty one. *)
Inductive field :=
| FNil
| FBool (b : bool)
| FByte (z : Z)
| FInt16 (z : Z)
| FInt32 (z : Z)
| FInt64 (z : Z)
| FFloat32 (bits : Z)
| FFloat64 (bits : Z)
| FDecimal (d : Decimal)
| FString (s : string)
| FBytes (s : string)
| FArray (l : list field)
| FTime (t : gotime)
| FTable (t : list (string * field))
| FOther (typ : string).
Abbreviation Table := (list (string * field)).

(** ** Writers *)

(** Two writes in sequence, given up at the first error. *)
Definition wapp (a b : result string) : result string :=
  match a with
  | Ok x => match b with Ok y => Ok (x +:+ y) | Err e => Err e end
  | Err e => Err e
  end.
#[global] Infix "+?+" := wapp (at level 60, right associativity) : go_scope.
Definition write_all {A} (f : A → result string) : list A → result string :=
  fix go l :=
    match l with
    | [] => Ok ""
    | x :: l => wapp (f x) (go l)
    end.

(** [binary.Write(w, binary.BigEndian, v)] of an unsigned number *)
Definition writeU (k : nat) (z : Z) : result string := Ok (be k z).

(** [writeShortstr]: the length is truncated to a byte, and the string with it. *)
Definition writeShortstr (s : string) : result string :=
  let length := (Z.of_nat (String.length s) mod 2 ^ 8)%Z in
  Ok (be 1 length +:+ (split_at (Z.to_nat length) s).1).
Definition writeLongstr (s : string) : result string :=
  let length := (Z.of_nat (String.length s) mod 2 ^ 32)%Z in
  Ok (be 4 length +:+ (split_at (Z.to_nat length) s).1).

Definition len32 (s : string) : string := be 4 (Z.of_nat (String.length s)).

Definition ErrFieldType : error := AmqpError 502 "unsupported table field type" false false.
Definition ErrSyntax : error := AmqpError 502 "invalid field or value inside of a frame" false false.

(** [writeTable], the pairs written with [wf]. *)
Definition writeTable_with (wf : field → result string) (table : Table) : result string :=
  match write_all (λ '(key, val), wapp (writeShortstr key) (wf val)) table with
  | Ok buf => writeLongstr buf
  | Err e => Err e
  end.

Fixpoint writeField (value : field) : result string :=
  match value with
  | FBool v => Ok ("t" +:+ be 1 (if v then 1 else 0)%Z)
  | FByte v => Ok ("b" +:+ be 1 v)
  | FInt16 v => Ok ("s" +:+ be 2 v)
  | FInt32 v => Ok ("I" +:+ be 4 v)
  | FInt64 v => Ok ("l" +:+ be 8 v)
  | FFloat32 v => Ok ("f" +:+ be 4 v)
  | FFloat64 v => Ok ("d" +:+ be 8 v)
  | FDecimal v => Ok ("D" +:+ be 1 (Scale v) +:+ be 4 (Value v))
  | FString v => Ok ("S" +:+ len32 v +:+ v)
  | FArray v =>
      match write_all writeField v with
      | Ok sec => Ok ("A" +:+ len32 sec +:+ sec)
      | Err e => Err e
      end
  | FTime v => Ok ("T" +:+ be 8 (t_unix v))
  | FTable v => wapp (Ok "F") (writeTable_with writeField v)
  | FBytes v => Ok ("x" +:+ len32 v +:+ v)
  | FNil => Ok "V"
  | FOther _ => Err ErrFieldType
  end.

Definition writeTable : Table → result string := writeTable_with writeField.

(** [validateField], [Table.Validate]: the message names the path to the value. *)
Fixpoint validateField (f : field) : option string :=
  match f with
  | FArray fv =>
      (fix go l :=
         match l with
         | [] => None
         | v :: l => match validateField v with
                     | Some err => Some ("in array " +:+ err)
                     | None => go l
                     end
         end) fv
  | FTable fv =>
      (fix go l :=
         match l with
         | [] => None
         | (k, v) :: l => match validateField v with
                          | Some err => Some ("table field " +:+ dquote +:+ k +:+ dquote +:+ " " +:+ err)
                          | None => go l
                          end
         end) fv
  | FOther typ => Some ("value " +:+ typ +:+ " not supported")
  | _ => None
  end.
Definition Validate (t : Table) : option string := validateField (FTable t).

(** ** Reading values

    Every field takes at least the byte of its type, so as many rounds as there
    are unread bytes, and one more, are enough for each loop and for the depth. *)
Definition out_of_fuel : crash := Panic "out of fuel".

Definition readDecimal : P Decimal :=
  Scale ←? readU 1; Value ←? readI 4; mret (Ok (mkDecimal Scale Value)).
Definition readFloat32 : P Z := readU 4.
Definition readFloat64 : P Z := readU 8.
Definition readTimestamp : P gotime := sec ←? readI 8; mret (Ok (mkTime sec 0)).

(** [table[key] = value] *)
Fixpoint table_insert (k : string) (v : field) (t : Table) : Table :=
  match t with
  | [] => [(k, v)]
  | (k', v') :: t => if decide (k = k') then (k, v) :: t else (k', v') :: table_insert k v t
  end.

(** The loops of [readTable] and [readArray], a field read with [rf]. *)
Fixpoint readTable_loop (n : nat) (rf : P field) (table : Table) : P Table := λ s,
  if decide (s = "") then (Ret (Ok table), s)
  else match n with
       | O => throw out_of_fuel s
       | S n => (key ←? readShortstr; value ←? rf; readTable_loop n rf (table_insert key value table)) s
       end.
Definition readTable_with (rf : P field) : P Table :=
  str ←? readLongstr; nested str (readTable_loop (String.length str) rf []).

Fixpoint readArray_loop (n : nat) (rf : P field) (arr : list field) : P (list field) :=
  match n with
  | O => throw out_of_fuel
  | S n =>
      r ← rf;
      match r with
      | Ok field => readArray_loop n rf (arr ++ [field])
      | Err err => if decide (err = EOF) then mret (Ok arr) else mret (Err err)
      end
  end.
Definition readArray_with (rf : P field) : P (list field) :=
  size ←? readU 4; limited size (λ s, readArray_loop (S (String.length s)) rf [] s).

Definition ok_field {A} (f : A → field) (p : P A) : P field := v ←? p; mret (Ok (f v)).

(** The value that follows the byte of its type. *)
Definition readValue (rf : P field) (typ : string) : P field :=
  if decide (typ = "t") then value ←? readU 1; mret (Ok (FBool (negb (bool_decide (value = 0%Z)))))
  else if decide (typ = "b") then ok_field FByte (readU 1)
  else if decide (typ = "s") then ok_field FInt16 (readI 2)
  else if decide (typ = "I") then ok_field FInt32 (readI 4)
  else if decide (typ = "l") then ok_field FInt64 (readI 8)
  else if decide (typ = "f") then ok_field FFloat32 readFloat32
  else if decide (typ = "d") then ok_field FFloat64 readFloat64
  else if decide (typ = "D") then ok_field FDecimal readDecimal
  else if decide (typ = "S") then ok_field FString readLongstr
  else if decide (typ = "A") then ok_field FArray (readArray_with rf)
  else if decide (typ = "T") then ok_field FTime readTimestamp
  else if decide (typ = "F") then ok_field FTable (readTable_with rf)
  else if decide (typ = "x") then
    len ←? readI 4; _ ←? make_bytes len; ok_field FBytes (ReadFull len)
  else if decide (typ = "V") then mret (Ok FNil)
  else mret (Err ErrSyntax).
Fixpoint readField_go (n : nat) : P field :=
  match n with
  | O => throw out_of_fuel
  | S n => typ ←? ReadFull 1; readValue (readField_go n) typ
  end.
Definition readField : P field := λ s, readField_go (S (String.length s)) s.
Definition readTable : P Table := λ s, readTable_with (readField_go (S (String.length s))) s.
Definition readArray : P (list field) := λ s, readArray_with (readField_go (S (String.length s))) s.

(** ** Round trips of the basic values

    [reads p w a]: what [w] wrote, [p] reads back as [a], leaving what follows. *)
Definition reads {A} (p : P A) (w : result string) (a : A) : Prop :=
  ∀ b rest, w = Ok b → p (b +:+ rest) = (Ret (Ok a), rest).

Lemma bindR_Ok {A B} (p : P A) (k : A → P B) s a s' :
  p s = (Ret (Ok a), s') → bindR p k s = k a s'.
Proof. rewrite /bindR /mbind /M_bind. by intros ->. Qed.

Lemma reads_bind {A B} (p : P A) (k : A → P B) w1 w2 a b :
  reads p w1 a → reads (k a) w2 b → reads (bindR p k) (wapp w1 w2) b.
Proof.
  intros Hp Hk out rest. destruct w1 as [o1|], w2 as [o2|]; simpl; try done. intros [= <-].
  rewrite -str_app_assoc (bindR_Ok _ _ _ _ _ (Hp _ _ eq_refl)). by apply Hk.
Qed.

Lemma reads_bind_last {A B} (p : P A) (k : A → P B) w a b :
  reads p w a → k a = mret (Ok b) → reads (bindR p k) w b.
Proof. intros Hp Hk out rest ->. by rewrite (bindR_Ok _ _ _ _ _ (Hp _ _ eq_refl)) Hk. Qed.

Lemma of_byte_of z : of_byte (byte_of z) = (z mod 256)%Z.
Proof.
  rewrite /of_byte /byte_of. pose proof (Z.mod_pos_bound z 256 eq_refl).
  rewrite N_ascii_embedding; lia.
Qed.

Lemma be_length k z : String.length (be k z) = k.
Proof. revert z. induction k as [|k IH]; intros z; simpl; [done|]. rewrite str_length_app IH /=. lia. Qed.

Lemma be_num_app acc a b : be_num acc (a +:+ b) = be_num (be_num acc a) b.
Proof. revert acc. by induction a as [|c a IH]; intros acc; simpl. Qed.

Lemma pow8 k : (2 ^ (8 * Z.of_nat (S k)) = 2 ^ (8 * Z.of_nat k) * 256)%Z.
Proof. replace (8 * Z.of_nat (S k))%Z with (8 * Z.of_nat k + 8)%Z by lia. rewrite Z.pow_add_r; lia. Qed.

Lemma be_num_be k acc z :
  be_num acc (be k z) = (acc * 2 ^ (8 * Z.of_nat k) + z mod 2 ^ (8 * Z.of_nat k))%Z.
Proof.
  revert acc z. induction k as [|k IH]; intros acc z; [simpl; rewrite Z.mod_1_r; lia|].
  cbn [be]. rewrite be_num_app IH. cbn [be_num]. rewrite of_byte_of pow8.
  set (m := (2 ^ (8 * Z.of_nat k))%Z). assert (0 < m)%Z by (apply Z.pow_pos_nonneg; lia).
  rewrite (Z.mul_comm m 256) Z.rem_mul_r; lia.
Qed.

Lemma split_at_app a b : split_at (String.length a) (a +:+ b) = (a, b).
Proof. induction a as [|c a IH]; simpl; [by destruct b|]. by rewrite IH. Qed.
Lemma split_at_all s : split_at (String.length s) s = (s, "").
Proof. rewrite -{2}(str_app_nil_r s). apply split_at_app. Qed.

Lemma ReadFull_app n a rest : n = Z.of_nat (String.length a) → ReadFull n (a +:+ rest) = (Ret (Ok a), rest).
Proof.
  intros ->. rewrite /ReadFull. case_decide as H0.
  { destruct a; [done|simpl in H0; lia]. }
  case_decide as H1; [by destruct a|].
  case_decide as H2; [rewrite str_length_app in H2; lia|].
  by rewrite Nat2Z.id split_at_app.
Qed.

Lemma reads_ReadFull n s : n = Z.of_nat (String.length s) → reads (ReadFull n) (Ok s) s.
Proof. intros Hn b rest [= <-]. by apply ReadFull_app. Qed.

Lemma reads_be k z : reads (readU k) (Ok (be k z)) (z mod 2 ^ (8 * Z.of_nat k))%Z.
Proof.
  eapply reads_bind_last; [apply reads_ReadFull; by rewrite be_length|].
  by rewrite be_num_be.
Qed.

Lemma reads_U k z : (0 ≤ z < 2 ^ (8 * Z.of_nat k))%Z → reads (readU k) (writeU k z) z.
Proof. intros Hz. rewrite -{2}(Z.mod_small _ _ Hz). apply reads_be. Qed.

Lemma signed_mod k z :
  (-2 ^ (8 * Z.of_nat (S k) - 1) ≤ z < 2 ^ (8 * Z.of_nat (S k) - 1))%Z →
  signed (S k) (z mod 2 ^ (8 * Z.of_nat (S k))) = z.
Proof.
  rewrite /signed.
  assert (2 ^ (8 * Z.of_nat (S k)) = 2 * 2 ^ (8 * Z.of_nat (S k) - 1))%Z as ->.
  { rewrite -Z.pow_succ_r; try lia. f_equal. lia. }
  generalize (2 ^ (8 * Z.of_nat (S k) - 1))%Z => m Hz. destruct (Z_lt_dec z 0).
  - rewrite -(Z_mod_plus_full z 1) Z.mod_small; [|lia]. case_decide; lia.
  - rewrite Z.mod_small; [|lia]. case_decide; lia.
Qed.

Lemma reads_I k z :
  (-2 ^ (8 * Z.of_nat (S k) - 1) ≤ z < 2 ^ (8 * Z.of_nat (S k) - 1))%Z →
  reads (readI (S k)) (Ok (be (S k) z)) z.
Proof. intros Hz. eapply reads_bind_last; [apply reads_be|]. by rewrite signed_mod. Qed.

Lemma writeShortstr_short s :
  (String.length s < 256)%nat → writeShortstr s = Ok (be 1 (Z.of_nat (String.length s)) +:+ s).
Proof.
  intros Hs. rewrite /writeShortstr Z.mod_small; [|lia]. by rewrite Nat2Z.id split_at_all.
Qed.
Lemma writeLongstr_long s :
  (Z.of_nat (String.length s) < 2 ^ 32)%Z → writeLongstr s = Ok (len32 s +:+ s).
Proof.
  intros Hs. rewrite /writeLongstr Z.mod_small; [|lia]. by rewrite Nat2Z.id split_at_all.
Qed.

Lemma reads_Shortstr s : (String.length s < 256)%nat → reads readShortstr (writeShortstr s) s.
Proof.
  intros Hs. rewrite writeShortstr_short //. apply (reads_bind _ _ (writeU 1 _) (Ok s) (Z.of_nat (String.length s))).
  - apply reads_U. lia.
  - by apply reads_ReadFull.
Qed.
Lemma reads_len32 {A} s (k : Z → P A) w a :
  (Z.of_nat (String.length s) < 2 ^ 32)%Z → reads (k (Z.of_nat (String.length s))) w a →
  reads (bindR (readU 4) k) (wapp (Ok (len32 s)) w) a.
Proof. intros Hs Hk. eapply reads_bind; [|exact Hk]. apply (reads_U 4). lia. Qed.
Lemma reads_Longstr s : (Z.of_nat (String.length s) < 2 ^ 32)%Z → reads readLongstr (writeLongstr s) s.
Proof.
  intros Hs. rewrite writeLongstr_long //. apply (reads_len32 _ _ (Ok s)); [done|].
  by apply reads_ReadFull.
Qed.

(** ** Round trip of fields and tables *)

Definition in_u (k : nat) (z : Z) : bool := bool_decide (0 ≤ z < 2 ^ (8 * Z.of_nat k))%Z.
Definition in_i (k : nat) (z : Z) : bool :=
  bool_decide (-2 ^ (8 * Z.of_nat k - 1) ≤ z < 2 ^ (8 * Z.of_nat k - 1))%Z.
Definition shorter (bound : Z) (s : string) : bool :=
  bool_decide (Z.of_nat (String.length s) < bound)%Z.
Definition written_shorter (bound : Z) (w : result string) : bool :=
  match w with Ok b => shorter bound b | Err _ => false end.

(** The pairs of a table, as [writeTable] packs them. *)
Definition write_pairs (wf : field → result string) : Table → result string :=
  write_all (λ '(key, val), wapp (writeShortstr key) (wf val)).

(** The values that have an encoding of their own: numbers of their width,
    lengths that fit the length octets, whole seconds, distinct keys. *)
Fixpoint wf_field (f : field) : bool :=
  match f with
  | FNil | FBool _ => true
  | FByte z => in_u 1 z
  | FInt16 z => in_i 2 z
  | FInt32 z => in_i 4 z
  | FInt64 z => in_i 8 z
  | FFloat32 z => in_u 4 z
  | FFloat64 z => in_u 8 z
  | FDecimal d => in_u 1 (Scale d) && in_i 4 (Value d)
  | FString s => shorter (2 ^ 32) s
  | FBytes s => shorter (2 ^ 31) s
  | FArray l => forallb wf_field l && written_shorter (2 ^ 32) (write_all writeField l)
  | FTime t => in_i 8 (t_unix t) && bool_decide (t_nsec t = 0%Z)
  | FTable t =>
      forallb (λ '(k, v), shorter 256 k && wf_field v) t && bool_decide (NoDup t.*1) &&
      written_shorter (2 ^ 32) (write_pairs writeField t)
  | FOther _ => false
  end.
Definition wf_table (t : Table) : bool := wf_field (FTable t).

(** Induction over fields with the elements of arrays and tables. *)
Section field_ind.
Context (Q : field → Prop).
Context (Hbase : ∀ f, match f with FArray _ | FTable _ => False | _ => True end → Q f).
Context (Harray : ∀ l, Forall Q l → Q (FArray l)).
Context (Htable : ∀ t, Forall (Q ∘ snd) t → Q (FTable t)).

Fixpoint field_nested_ind (f : field) : Q f :=
  match f with
  | FArray l =>
      Harray l ((fix go l : Forall Q l :=
        match l with
        | [] => Forall_nil_2 _
        | x :: l => Forall_cons_2 _ x l (field_nested_ind x) (go l)
        end) l)
  | FTable t =>
      Htable t ((fix go t : Forall (Q ∘ snd) t :=
        match t with
        | [] => Forall_nil_2 _
        | x :: t => Forall_cons_2 _ x t (field_nested_ind (snd x)) (go t)
        end) t)
  | f => Hbase f I
  end.
End field_ind.

Lemma wapp_Ok w1 w2 b : wapp w1 w2 = Ok b → ∃ b1 b2, w1 = Ok b1 ∧ w2 = Ok b2 ∧ b = b1 +:+ b2.
Proof. destruct w1, w2; simpl; try done. intros [= <-]. eauto. Qed.

(** [rf] reads fields of at most [n] bytes. *)
Definition reads_upto (n : nat) (rf : P field) (f : field) : Prop :=
  ∀ b rest, writeField f = Ok b → (String.length b ≤ n)%nat → rf (b +:+ rest) = (Ret (Ok f), rest).

Lemma writeField_nonempty f b : writeField f = Ok b → (1 ≤ String.length b)%nat.
Proof.
  destruct f; cbn [writeField]; try (by intros [= <-]; simpl; lia).
  - destruct (write_all _ _); [|done]. intros [= <-]. simpl. lia.
  - intros (? & ? & [= <-] & _ & ->)%wapp_Ok. simpl. lia.
Qed.

Lemma readArray_loop_reads rf n l m arr sec :
  Forall (reads_upto n rf) l → rf "" = (Ret (Err EOF), "") →
  write_all writeField l = Ok sec → (String.length sec ≤ n)%nat → (String.length sec < m)%nat →
  readArray_loop m rf arr sec = (Ret (Ok (arr ++ l)), "").
Proof.
  intros Hl Heof. revert m arr sec.
  induction Hl as [|f l Hf Hl IH]; intros [|m] arr sec; try lia.
  - intros [= <-] _ _. rewrite /= /mbind /M_bind Heof. by rewrite app_nil_r.
  - intros (b1 & b2 & Hb1 & Hb2 & ->)%wapp_Ok. rewrite str_length_app => Hn Hm.
    pose proof (writeField_nonempty _ _ Hb1).
    rewrite /= /mbind /M_bind Hf //; [|lia]. rewrite IH //; [|lia|lia]. by rewrite -app_assoc.
Qed.

Lemma table_insert_new k v t : k ∉ t.*1 → table_insert k v t = t ++ [(k, v)].
Proof.
  induction t as [|[k' v'] t IH]; simpl; [done|]. rewrite not_elem_of_cons => -[Hne Hin].
  case_decide; [done|]. by rewrite IH.
Qed.

Lemma readTable_loop_reads rf n t m table buf :
  Forall (λ kv, reads_upto n rf kv.2 ∧ shorter 256 kv.1 = true) t → NoDup ((table ++ t).*1) →
  write_pairs writeField t = Ok buf → (String.length buf ≤ n)%nat → (String.length buf ≤ m)%nat →
  readTable_loop m rf table buf = (Ret (Ok (table ++ t)), "").
Proof.
  intros Ht. revert m table buf.
  induction Ht as [|[k v] t [Hf Hk] Ht IH]; intros m table buf Hnd.
  - intros [= <-] _ _. destruct m; simpl; by rewrite app_nil_r.
  - intros (b1 & b2 & (bk & bv & Hbk & Hbv & ->)%wapp_Ok & Hb2 & ->)%wapp_Ok.
    rewrite !str_length_app => Hn Hm. pose proof (writeField_nonempty _ _ Hbv).
    rewrite fmap_app fmap_cons in Hnd.
    destruct m as [|m]; [lia|]. cbn [readTable_loop].
    case_decide as He; [apply (f_equal String.length) in He; rewrite !str_length_app /= in He; lia|].
    apply bool_decide_eq_true in Hk. rewrite -!str_app_assoc.
    rewrite (bindR_Ok _ _ _ k (bv +:+ b2)); [|apply reads_Shortstr; [simpl in Hk; lia|done]].
    rewrite (bindR_Ok _ _ _ v b2); [|apply Hf; [done|lia]].
    rewrite table_insert_new; last first.
    { intros Hin. apply NoDup_app in Hnd as (_ & Hnd & _). eapply Hnd; [done|]. by left. }
    rewrite IH //; [|by rewrite -app_assoc fmap_app|lia|lia]. by rewrite -app_assoc.
Qed.

Lemma limited_exact {A} (p : P A) sec rest r :
  p sec = (r, "") → limited (Z.of_nat (String.length sec)) p (sec +:+ rest) = (r, rest).
Proof.
  intros Hp. rewrite /limited str_length_app Z.min_l; [|lia]. by rewrite Nat2Z.id split_at_app Hp.
Qed.

Lemma readArray_with_reads rf n l sec :
  Forall (reads_upto n rf) l → rf "" = (Ret (Err EOF), "") →
  write_all writeField l = Ok sec → shorter (2 ^ 32) sec = true → (String.length sec ≤ n)%nat →
  reads (readArray_with rf) (Ok (len32 sec +:+ sec)) l.
Proof.
  intros Hl Heof Hsec Hlen%bool_decide_eq_true Hn. apply (reads_len32 sec _ (Ok sec)); [done|].
  intros b rest [= <-]. apply limited_exact. by apply (readArray_loop_reads _ n _ _ []); auto with lia.
Qed.

Lemma readTable_with_reads rf n t buf :
  Forall (λ kv, reads_upto n rf kv.2 ∧ shorter 256 kv.1 = true) t → NoDup t.*1 →
  write_pairs writeField t = Ok buf → shorter (2 ^ 32) buf = true → (String.length buf ≤ n)%nat →
  reads (readTable_with rf) (writeLongstr buf) t.
Proof.
  intros Ht Hnd Hbuf Hlen%bool_decide_eq_true Hn b rest Hb.
  rewrite /readTable_with (bindR_Ok _ _ _ buf rest); [|by apply reads_Longstr].
  by rewrite /nested (readTable_loop_reads rf n t _ [] buf).
Qed.

Lemma readField_go_EOF n : readField_go (S n) "" = (Ret (Err EOF), "").
Proof. done. Qed.

Lemma reads_go n c w f :
  reads (readValue (readField_go n) (String c "")) w f →
  reads (readField_go (S n)) (wapp (Ok (String c "")) w) f.
Proof. intros Hw. apply (reads_bind _ _ _ _ (String c "")); [by apply reads_ReadFull|done]. Qed.

Lemma reads_ok {A} (mk : A → field) p w a : reads p w a → reads (ok_field mk p) w (mk a).
Proof. intros Hp. by eapply reads_bind_last. Qed.

Lemma reads_Decimal d :
  in_u 1 (Scale d) = true → in_i 4 (Value d) = true →
  reads readDecimal (Ok (be 1 (Scale d) +:+ be 4 (Value d))) d.
Proof.
  intros Hs%bool_decide_eq_true Hv%bool_decide_eq_true.
  apply (reads_bind _ _ (writeU 1 _) (Ok (be 4 (Value d))) (Scale d)); [by apply reads_U|].
  eapply reads_bind_last; [by apply (reads_I 3)|]. by destruct d.
Qed.

Lemma reads_Bytes s :
  shorter (2 ^ 31) s = true →
  reads (len ←? readI 4; _ ←? make_bytes len; ok_field FBytes (ReadFull len))
    (Ok (len32 s +:+ s)) (FBytes s).
Proof.
  intros Hs%bool_decide_eq_true.
  apply (reads_bind _ _ (Ok (len32 s)) (Ok s) (Z.of_nat (String.length s))).
  { apply (reads_I 3). simpl. lia. }
  rewrite /make_bytes. case_decide; [lia|]. apply (reads_ok FBytes), (reads_ReadFull _ s). done.
Qed.

Lemma wf_base_reads n f b :
  match f with FArray _ | FTable _ => False | _ => True end →
  wf_field f = true → writeField f = Ok b → reads (readField_go (S n)) (Ok b) f.
Proof.
  destruct f; cbn [writeField]; try done; intros _ Hwf [= <-].
  all: cbn [wf_field] in Hwf; try apply bool_decide_eq_true in Hwf.
  - apply (reads_go n "V" (Ok "")). by intros ? ? [= <-].
  - apply (reads_go n "t" (writeU 1 _)). eapply reads_bind_last; [apply reads_U; by destruct b0|].
    by destruct b0.
  - by apply (reads_go n "b" (writeU 1 _)), reads_ok, reads_U.
  - by apply (reads_go n "s" (Ok (be 2 z))), reads_ok, (reads_I 1).
  - by apply (reads_go n "I" (Ok (be 4 z))), reads_ok, (reads_I 3).
  - by apply (reads_go n "l" (Ok (be 8 z))), reads_ok, (reads_I 7).
  - by apply (reads_go n "f" (writeU 4 _)), reads_ok, reads_U.
  - by apply (reads_go n "d" (writeU 8 _)), reads_ok, reads_U.
  - apply andb_true_iff in Hwf as [? ?]. by apply (reads_go n "D" (Ok _)), reads_ok, reads_Decimal.
  - apply (reads_go n "S" (Ok _)), reads_ok. rewrite -writeLongstr_long //. by apply reads_Longstr.
  - by apply (reads_go n "x" (Ok _)), reads_Bytes, bool_decide_eq_true.
  - apply andb_true_iff in Hwf as [Hi%bool_decide_eq_true Hn%bool_decide_eq_true].
    apply (reads_go n "T" (Ok (be 8 (t_unix t)))), reads_ok. eapply reads_bind_last; [by apply (reads_I 7)|].
    destruct t; simpl in *. by subst.
Qed.

Lemma written_shorter_Ok bound w b : written_shorter bound w = true → w = Ok b → shorter bound b = true.
Proof. by intros ? ->. Qed.

(** The conditions on a table, read off [wf_field]. *)
Lemma wf_table_inv t :
  wf_field (FTable t) = true →
  Forall (λ kv, wf_field kv.2 = true ∧ shorter 256 kv.1 = true) t ∧ NoDup t.*1 ∧
  written_shorter (2 ^ 32) (write_pairs writeField t) = true.
Proof.
  cbn [wf_field]. rewrite !andb_true_iff bool_decide_eq_true => -[[Ht ?] ?]. split_and!; [|done..].
  apply Forall_forall => -[k v] Hin. rewrite forallb_forall in Ht.
  specialize (Ht (k, v)). rewrite -list_elem_of_In andb_true_iff in Ht. simpl. naive_solver.
Qed.

Lemma readField_go_reads f : wf_field f = true → ∀ n, reads_upto n (readField_go n) f.
Proof.
  induction f as [f Hb|l IH|t IH] using field_nested_ind; intros Hwf n b rest Hw Hn.
  - destruct n; [apply writeField_nonempty in Hw; lia|]. by apply (wf_base_reads n f b Hb Hwf Hw).
  - cbn [wf_field writeField] in Hwf, Hw. apply andb_true_iff in Hwf as [Hl Hlen].
    destruct (write_all writeField l) as [sec|] eqn:Hsec; [|done]. injection Hw as <-.
    rewrite !str_length_app /= in Hn. destruct n as [|[|n]]; [lia..|].
    apply (reads_go _ "A" (Ok (len32 sec +:+ sec))); [|done].
    apply reads_ok, (readArray_with_reads _ (S n)); [|done..|lia].
    apply Forall_forall => f Hin. rewrite forallb_forall in Hl.
    rewrite Forall_forall in IH. apply IH; [done|]. by apply Hl, list_elem_of_In.
  - apply wf_table_inv in Hwf as (Ht & Hnd & Hlen). cbn [writeField] in Hw.
    apply wapp_Ok in Hw as (? & bt & [= <-] & Hw & ->). rewrite /writeTable_with in Hw.
    fold (write_pairs writeField t) in Hw.
    destruct (write_pairs writeField t) as [buf|] eqn:Hbuf; [|done].
    pose proof Hlen as Hlen'%bool_decide_eq_true. rewrite writeLongstr_long // in Hw. injection Hw as <-.
    rewrite !str_length_app /= in Hn. destruct n as [|n]; [lia|].
    apply (reads_go _ "F" (Ok (len32 buf +:+ buf))); [|done].
    rewrite -writeLongstr_long //. apply reads_ok, (readTable_with_reads _ n); [|done..|lia].
    rewrite !Forall_forall in IH Ht |- *. intros kv Hin. split; [|by apply Ht].
    by apply IH; [|apply Ht].
Qed.

Lemma reads_Field f : wf_field f = true → reads readField (writeField f) f.
Proof.
  intros Hwf b rest Hw. apply (readField_go_reads f Hwf); [done|]. rewrite str_length_app. lia.
Qed.

Lemma reads_Table t : wf_table t = true → reads readTable (writeTable t) t.
Proof.
  intros (Ht & Hnd & Hlen)%wf_table_inv b rest. rewrite /writeTable /writeTable_with /readTable.
  fold (write_pairs writeField t).
  destruct (write_pairs writeField t) as [buf|] eqn:Hbuf; [|done]. intros Hw.
  pose proof Hlen as Hlen'%bool_decide_eq_true.
  apply (readTable_with_reads _ (S (String.length (b +:+ rest))) t buf); [|done..| |done].
  - rewrite !Forall_forall in Ht |- *. intros kv Hin. split; [|by apply Ht].
    by apply readField_go_reads, Ht.
  - rewrite writeLongstr_long // in Hw. injection Hw as <-. rewrite !str_length_app. lia.
Qed.

(** ** Reading always ends

    On any input: a field is read in fewer rounds than there are bytes, what is
    left is the end of the input, and the only panic is that of a byte array
    with a negative length. *)
Definition tail_of (s s' : string) : Prop := ∃ p, s = p +:+ s'.
#[global] Instance tail_of_po : PreOrder tail_of.
Proof.
  split; [intros s; by exists ""|]. intros s1 s2 s3 [p ->] [q ->]. exists (p +:+ q). by rewrite str_app_assoc.
Qed.
Lemma tail_of_length s s' : tail_of s s' → (String.length s' ≤ String.length s)%nat.
Proof. intros [p ->]. rewrite str_length_app. lia. Qed.
Lemma tail_of_nil s : tail_of s "".
Proof. exists s. by rewrite str_app_nil_r. Qed.
Lemma tail_of_app a a' b : tail_of a a' → tail_of (a +:+ b) (a' +:+ b).
Proof. intros [p ->]. exists p. by rewrite str_app_assoc. Qed.
Lemma split_at_tail n s : s = (split_at n s).1 +:+ (split_at n s).2.
Proof.
  revert s. induction n as [|n IH]; intros [|c s]; try done. cbn [split_at]. specialize (IH s).
  destruct (split_at n s) as [a b]. cbn in *. by rewrite str_app_cons -IH.
Qed.

Definition consumes {A} (p : P A) : Prop := ∀ s,
  wp p (λ r s', tail_of s s') (λ c _, c = makeslice_panic) s.
Definition advances {A} (n : nat) (p : P A) : Prop := ∀ s, (String.length s < n)%nat →
  wp p (λ r s', tail_of s s' ∧ (is_ok r → (String.length s' < String.length s)%nat))
    (λ c _, c = makeslice_panic) s.

Lemma split_at_length n s : String.length (split_at n s).2 = (String.length s - n)%nat.
Proof.
  revert s. induction n as [|n IH]; intros [|c s]; simpl; try lia.
  specialize (IH s). destruct (split_at n s). simpl in *. lia.
Qed.
Lemma split_at_length_1 n s : String.length (split_at n s).1 = (n `min` String.length s)%nat.
Proof.
  revert s. induction n as [|n IH]; intros [|c s]; simpl; try lia.
  specialize (IH s). destruct (split_at n s). simpl in *. lia.
Qed.

(** [io.ReadFull] takes exactly what it is asked for. *)
Lemma wp_ReadFull n Q C s :
  (∀ a s', tail_of s s' → String.length s = (Z.to_nat n + String.length s')%nat → Q (Ok a) s') →
  (∀ e s', tail_of s s' → Q (Err e) s') →
  wp (ReadFull n) Q C s.
Proof.
  intros HQ HE. rewrite /wp /ReadFull. case_decide; [apply HQ; [done|lia]|].
  case_decide; [subst; by apply HE|]. case_decide; [apply HE, tail_of_nil|].
  pose proof (split_at_length (Z.to_nat n) s) as Hl. pose proof (split_at_tail (Z.to_nat n) s) as Ht.
  destruct (split_at _ s) as [a b]. simpl in *. apply HQ; [by exists a|lia].
Qed.

Lemma consumes_ret {A} (r : result A) : consumes (mret r).
Proof. intros s. by apply wp_ret. Qed.
Lemma consumes_bindR {A B} (p : P A) (k : A → P B) :
  consumes p → (∀ a, consumes (k a)) → consumes (bindR p k).
Proof.
  intros Hp Hk s. apply wp_bindR. eapply wp_mono; [apply Hp| |done]. intros [a|e] s' Hs; [|done].
  eapply wp_mono; [apply Hk| |done]. intros r s2 Hs2. by etrans.
Qed.
Lemma consumes_ReadFull n : consumes (ReadFull n).
Proof. intros s. by apply wp_ReadFull. Qed.
Lemma consumes_make n : consumes (make_bytes n).
Proof. rewrite /make_bytes. case_decide; [intros s; by apply wp_throw|apply consumes_ret]. Qed.
Create HintDb amqp.
#[export] Hint Resolve consumes_ret consumes_bindR consumes_ReadFull consumes_make : amqp.
Lemma consumes_U k : consumes (readU k).
Proof. rewrite /readU. auto with amqp. Qed.
#[export] Hint Resolve consumes_U : amqp.
Lemma consumes_I k : consumes (readI k).
Proof. rewrite /readI. auto with amqp. Qed.
#[export] Hint Resolve consumes_I : amqp.
Lemma consumes_ok {A} (mk : A → field) p : consumes p → consumes (ok_field mk p).
Proof. rewrite /ok_field. auto with amqp. Qed.
#[export] Hint Resolve consumes_ok : amqp.

Lemma advances_advance {A} n (p : P A) s : advances n p → (String.length s < n)%nat →
  wp p (λ r s', tail_of s s') (λ c _, c = makeslice_panic) s.
Proof. intros Hp Hs. eapply wp_mono; [by apply Hp| |done]. by intros ? ? []. Qed.

Lemma readArray_loop_total rf n m arr s :
  advances n rf → (String.length s < n)%nat → (String.length s < m)%nat →
  wp (readArray_loop m rf arr) (λ r s', tail_of s s')
    (λ c _, c = makeslice_panic) s.
Proof.
  intros Hrf. revert arr s. induction m as [|m IH]; intros arr s Hn Hm; [lia|].
  cbn [readArray_loop]. apply wp_bind. eapply wp_mono; [by apply Hrf| |done].
  intros [f|e] s' [Hle Hlt]; simpl in *.
  - specialize (Hlt I). eapply wp_mono; [apply IH; lia| |done]. intros r s2 Hs2. by etrans.
  - case_decide; by apply wp_ret.
Qed.

Lemma consumes_Shortstr : consumes readShortstr.
Proof. rewrite /readShortstr. auto with amqp. Qed.

Lemma wp_Shortstr Q C s :
  (∀ a s', tail_of s s' → (String.length s' < String.length s)%nat → Q (Ok a) s') →
  (∀ e s', tail_of s s' → Q (Err e) s') →
  wp readShortstr Q C s.
Proof.
  intros HQ HE. apply wp_bindR, wp_bindR, wp_ReadFull; [|done]. intros a s1 Ht1 Hs1. apply wp_ret.
  apply wp_ReadFull; [intros b s2 Ht2 Hs2; apply HQ|intros e s2 Ht2; apply HE]; try by etrans. simpl in *. lia.
Qed.

Lemma readTable_loop_total rf n m table s :
  advances n rf → (String.length s < n)%nat → (String.length s ≤ m)%nat →
  wp (readTable_loop m rf table) (λ r s', tail_of s s')
    (λ c _, c = makeslice_panic) s.
Proof.
  intros Hrf. revert table s. induction m as [|m IH]; intros table s Hn Hm; rewrite /wp /=.
  { case_decide; [done|]. destruct s; simpl in Hm; [done|lia]. }
  case_decide; [done|].
  apply (wp_bindR readShortstr), wp_Shortstr; [|done]. intros key s1 Ht1 Hs1.
  apply wp_bindR. eapply wp_mono; [apply Hrf; lia| |done]. intros [v|e] s2 [Hle Hlt]; simpl in *; [|by etrans].
  specialize (Hlt I). eapply wp_mono; [apply IH; lia| |done]. intros r s3 Hs3. do 2 (etrans; [done|]). done.
Qed.

(** What a reader of an inner field needs to be of use to the loops. *)
Definition consumes_upto {A} (n : nat) (p : P A) : Prop := ∀ s, (String.length s < n)%nat →
  wp p (λ r s', tail_of s s') (λ c _, c = makeslice_panic) s.
Lemma consumes_any {A} n (p : P A) : consumes p → consumes_upto n p.
Proof. intros Hp s _. apply Hp. Qed.
Lemma consumes_upto_ok {A} n (mk : A → field) p : consumes_upto n p → consumes_upto n (ok_field mk p).
Proof.
  intros Hp s Hs. apply wp_bindR. eapply wp_mono; [by apply Hp| |done]. intros [a|e] s' Hs'; [|done].
  by apply wp_ret.
Qed.

Lemma consumes_Array n rf : advances n rf → consumes_upto n (readArray_with rf).
Proof.
  intros Hrf s Hs. apply wp_bindR. eapply wp_mono; [apply consumes_U| |done].
  intros [size|e] s1 Hs1; [|done]. rewrite /wp /limited. pose proof (tail_of_length _ _ Hs1) as Hl1.
  set (k := Z.to_nat _). pose proof (split_at_length_1 k s1) as Hk1. pose proof (split_at_tail k s1) as Hk.
  destruct (split_at k s1) as [a b]. simpl in Hk1, Hk.
  pose proof (readArray_loop_total rf n (S (String.length a)) [] a Hrf) as Hl. rewrite /wp in Hl.
  destruct (readArray_loop _ _ _ _) as [[r|c] a'].
  - etrans; [exact Hs1|]. rewrite Hk. apply tail_of_app, Hl; lia.
  - apply Hl; lia.
Qed.

Lemma consumes_Table n rf : advances n rf → consumes_upto n (readTable_with rf).
Proof.
  intros Hrf s Hs. apply wp_bindR, wp_bindR. eapply wp_mono; [apply consumes_U| |done].
  intros [len|e] s1 Hs1; [|done]. pose proof (tail_of_length _ _ Hs1) as Hl1. rewrite {1}/wp /ReadFull.
  case_decide; [|case_decide; [apply tail_of_nil|case_decide; [apply tail_of_nil|]]].
  { by rewrite /wp /nested /=. }
  pose proof (split_at_tail (Z.to_nat len) s1) as Hk.
  pose proof (split_at_length_1 (Z.to_nat len) s1) as Hk1.
  destruct (split_at _ s1) as [a b]. simpl in Hk1, Hk. rewrite /wp /nested.
  pose proof (readTable_loop_total rf n (String.length a) [] a Hrf) as Hl. rewrite /wp in Hl.
  destruct (readTable_loop _ _ _ _) as [[r|c] a']; simpl; [|apply Hl; lia].
  etrans; [exact Hs1|]. by exists a.
Qed.

Lemma consumes_Value n rf typ : advances n rf → consumes_upto n (readValue rf typ).
Proof.
  intros Hrf. rewrite /readValue /readDecimal /readFloat32 /readFloat64 /readTimestamp /readLongstr.
  repeat case_decide.
  all: try (by apply consumes_any; auto 8 with amqp).
  - by apply consumes_upto_ok, consumes_Array.
  - by apply consumes_upto_ok, consumes_Table.
Qed.

Lemma advances_Field n : advances n (readField_go n).
Proof.
  induction n as [|n IH]; intros s Hs; [lia|].
  apply wp_bindR, wp_ReadFull; [|naive_solver]. intros typ s1 Ht1 Hs1. simpl in Hs1.
  eapply wp_mono; [by apply (consumes_Value n); [|lia]| |done]. intros r s2 Hs2. cbn beta.
  split; [by etrans|]. intros _. pose proof (tail_of_length _ _ Hs2). lia.
Qed.

Lemma readField_total s :
  wp readField (λ _ s', tail_of s s') (λ c _, c = makeslice_panic) s.
Proof.
  apply (advances_advance (S (String.length s)) (readField_go (S (String.length s)))); [|lia].
  apply advances_Field.
Qed.
Lemma readTable_total s :
  wp readTable (λ _ s', tail_of s s') (λ c _, c = makeslice_panic) s.
Proof.
  apply (consumes_Table (S (String.length s)) (readField_go (S (String.length s)))); [|lia].
  apply advances_Field.
Qed.

#[export] Hint Resolve consumes_Shortstr : amqp.
Lemma consumes_Longstr : consumes readLongstr.
Proof. rewrite /readLongstr. auto with amqp. Qed.
Lemma consumes_Timestamp : consumes readTimestamp.
Proof. rewrite /readTimestamp. auto with amqp. Qed.
Lemma consumes_readTable : consumes readTable.
Proof. intros s. apply readTable_total. Qed.
#[export] Hint Resolve consumes_Longstr consumes_Timestamp consumes_readTable : amqp.

End AmqpWire.
