(* ===== verification/AmqpSpec.v ===== *)
(** * streadway/amqp: the methods of AMQP 0-9-1

    [src/src/github.com/streadway/amqp/spec091.go]: the messages of the protocol, a
    constructor per struct with its fields in the order of the source, and for each
    one what its [write] puts on the wire and how its [read] takes it off again;
    [parseMethodFrame], which picks the reader by class and method number.  Bits are
    packed eight to an octet as in the source. *)

From S2P Require Import Prelude GoStrings AmqpWire.

Module AmqpSpec.
Import AmqpWire.

(** [properties] ([types.go]). *)
Record properties := mkProperties {
  ContentType : string;
  ContentEncoding : string;
  Headers : Table;
  DeliveryMode : Z;
  Priority : Z;
  CorrelationId : string;
  ReplyTo : string;
  Expiration : string;
  MessageId : string;
  Timestamp : gotime;
  Type_ : string;
  UserId : string;
  AppId : string;
  reserved1 : string;
}.
Definition zero_properties : properties :=
  mkProperties "" "" [] 0 0 "" "" "" "" zeroTime "" "" "" "".

(** [bits |= 1 << i] for each flag that is set, and [bits & (1 << i) > 0]. *)
Fixpoint bits_from (i : Z) (l : list bool) (bits : Z) : Z :=
  match l with
  | [] => bits
  | b :: l => bits_from (i + 1) l (if b then Z.lor bits (Z.shiftl 1 i) else bits)
  end.
Definition bits_of (l : list bool) : Z := bits_from 0 l 0.
Definition bit (bits i : Z) : bool := bool_decide (0 < Z.land bits (Z.shiftl 1 i))%Z.

Inductive message :=
| connectionStart (VersionMajor VersionMinor : Z) (ServerProperties : Table) (Mechanisms Locales :
    string)
| connectionStartOk (ClientProperties : Table) (Mechanism Response Locale : string)
| connectionSecure (Challenge : string)
| connectionSecureOk (Response : string)
| connectionTune (ChannelMax FrameMax Heartbeat : Z)
| connectionTuneOk (ChannelMax FrameMax Heartbeat : Z)
| connectionOpen (VirtualHost reserved1 : string) (reserved2 : bool)
| connectionOpenOk (reserved1 : string)
| connectionClose (ReplyCode : Z) (ReplyText : string) (ClassId MethodId : Z)
| connectionCloseOk
| connectionBlocked (Reason : string)
| connectionUnblocked
| channelOpen (reserved1 : string)
| channelOpenOk (reserved1 : string)
| channelFlow (Active : bool)
| channelFlowOk (Active : bool)
| channelClose (ReplyCode : Z) (ReplyText : string) (ClassId MethodId : Z)
| channelCloseOk
| exchangeDeclare (reserved1 : Z) (Exchange Type_ : string) (Passive Durable AutoDelete Internal
    NoWait : bool) (Arguments : Table)
| exchangeDeclareOk
| exchangeDelete (reserved1 : Z) (Exchange : string) (IfUnused NoWait : bool)
| exchangeDeleteOk
| exchangeBind (reserved1 : Z) (Destination Source RoutingKey : string) (NoWait : bool) (Arguments
    : Table)
| exchangeBindOk
| exchangeUnbind (reserved1 : Z) (Destination Source RoutingKey : string) (NoWait : bool)
    (Arguments : Table)
| exchangeUnbindOk
| queueDeclare (reserved1 : Z) (Queue : string) (Passive Durable Exclusive AutoDelete NoWait :
    bool) (Arguments : Table)
| queueDeclareOk (Queue : string) (MessageCount ConsumerCount : Z)
| queueBind (reserved1 : Z) (Queue Exchange RoutingKey : string) (NoWait : bool) (Arguments :
    Table)
| queueBindOk
| queueUnbind (reserved1 : Z) (Queue Exchange RoutingKey : string) (Arguments : Table)
| queueUnbindOk
| queuePurge (reserved1 : Z) (Queue : string) (NoWait : bool)
| queuePurgeOk (MessageCount : Z)
| queueDelete (reserved1 : Z) (Queue : string) (IfUnused IfEmpty NoWait : bool)
| queueDeleteOk (MessageCount : Z)
| basicQos (PrefetchSize PrefetchCount : Z) (Global : bool)
| basicQosOk
| basicConsume (reserved1 : Z) (Queue ConsumerTag : string) (NoLocal NoAck Exclusive NoWait :
    bool) (Arguments : Table)
| basicConsumeOk (ConsumerTag : string)
| basicCancel (ConsumerTag : string) (NoWait : bool)
| basicCancelOk (ConsumerTag : string)
| basicPublish (reserved1 : Z) (Exchange RoutingKey : string) (Mandatory Immediate : bool)
    (Properties : properties) (Body : string)
| basicReturn (ReplyCode : Z) (ReplyText Exchange RoutingKey : string) (Properties : properties)
    (Body : string)
| basicDeliver (ConsumerTag : string) (DeliveryTag : Z) (Redelivered : bool) (Exchange RoutingKey
    : string) (Properties : properties) (Body : string)
| basicGet (reserved1 : Z) (Queue : string) (NoAck : bool)
| basicGetOk (DeliveryTag : Z) (Redelivered : bool) (Exchange RoutingKey : string) (MessageCount :
    Z) (Properties : properties) (Body : string)
| basicGetEmpty (reserved1 : string)
| basicAck (DeliveryTag : Z) (Multiple : bool)
| basicReject (DeliveryTag : Z) (Requeue : bool)
| basicRecoverAsync (Requeue : bool)
| basicRecover (Requeue : bool)
| basicRecoverOk
| basicNack (DeliveryTag : Z) (Multiple Requeue : bool)
| txSelect
| txSelectOk
| txCommit
| txCommitOk
| txRollback
| txRollbackOk
| confirmSelect (Nowait : bool)
| confirmSelectOk.

(** [id()]: class and method of a message. *)
Definition id (m : message) : Z * Z :=
  match m with
  | connectionStart _ _ _ _ _ => (10, 10)
  | connectionStartOk _ _ _ _ => (10, 11)
  | connectionSecure _ => (10, 20)
  | connectionSecureOk _ => (10, 21)
  | connectionTune _ _ _ => (10, 30)
  | connectionTuneOk _ _ _ => (10, 31)
  | connectionOpen _ _ _ => (10, 40)
  | connectionOpenOk _ => (10, 41)
  | connectionClose _ _ _ _ => (10, 50)
  | connectionCloseOk => (10, 51)
  | connectionBlocked _ => (10, 60)
  | connectionUnblocked => (10, 61)
  | channelOpen _ => (20, 10)
  | channelOpenOk _ => (20, 11)
  | channelFlow _ => (20, 20)
  | channelFlowOk _ => (20, 21)
  | channelClose _ _ _ _ => (20, 40)
  | channelCloseOk => (20, 41)
  | exchangeDeclare _ _ _ _ _ _ _ _ _ => (40, 10)
  | exchangeDeclareOk => (40, 11)
  | exchangeDelete _ _ _ _ => (40, 20)
  | exchangeDeleteOk => (40, 21)
  | exchangeBind _ _ _ _ _ _ => (40, 30)
  | exchangeBindOk => (40, 31)
  | exchangeUnbind _ _ _ _ _ _ => (40, 40)
  | exchangeUnbindOk => (40, 51)
  | queueDeclare _ _ _ _ _ _ _ _ => (50, 10)
  | queueDeclareOk _ _ _ => (50, 11)
  | queueBind _ _ _ _ _ _ => (50, 20)
  | queueBindOk => (50, 21)
  | queueUnbind _ _ _ _ _ => (50, 50)
  | queueUnbindOk => (50, 51)
  | queuePurge _ _ _ => (50, 30)
  | queuePurgeOk _ => (50, 31)
  | queueDelete _ _ _ _ _ => (50, 40)
  | queueDeleteOk _ => (50, 41)
  | basicQos _ _ _ => (60, 10)
  | basicQosOk => (60, 11)
  | basicConsume _ _ _ _ _ _ _ _ => (60, 20)
  | basicConsumeOk _ => (60, 21)
  | basicCancel _ _ => (60, 30)
  | basicCancelOk _ => (60, 31)
  | basicPublish _ _ _ _ _ _ _ => (60, 40)
  | basicReturn _ _ _ _ _ _ => (60, 50)
  | basicDeliver _ _ _ _ _ _ _ => (60, 60)
  | basicGet _ _ _ => (60, 70)
  | basicGetOk _ _ _ _ _ _ _ => (60, 71)
  | basicGetEmpty _ => (60, 72)
  | basicAck _ _ => (60, 80)
  | basicReject _ _ => (60, 90)
  | basicRecoverAsync _ => (60, 100)
  | basicRecover _ => (60, 110)
  | basicRecoverOk => (60, 111)
  | basicNack _ _ _ => (60, 120)
  | txSelect => (90, 10)
  | txSelectOk => (90, 11)
  | txCommit => (90, 20)
  | txCommitOk => (90, 21)
  | txRollback => (90, 30)
  | txRollbackOk => (90, 31)
  | confirmSelect _ => (85, 10)
  | confirmSelectOk => (85, 11)
  end%Z.

(** [wait()]: an answer is to be expected. *)
Definition wait (m : message) : bool :=
  match m with
  | connectionStart _ _ _ _ _ => true
  | connectionStartOk _ _ _ _ => true
  | connectionSecure _ => true
  | connectionSecureOk _ => true
  | connectionTune _ _ _ => true
  | connectionTuneOk _ _ _ => true
  | connectionOpen _ _ _ => true
  | connectionOpenOk _ => true
  | connectionClose _ _ _ _ => true
  | connectionCloseOk => true
  | connectionBlocked _ => false
  | connectionUnblocked => false
  | channelOpen _ => true
  | channelOpenOk _ => true
  | channelFlow _ => true
  | channelFlowOk _ => false
  | channelClose _ _ _ _ => true
  | channelCloseOk => true
  | exchangeDeclare _ _ _ _ _ _ _ NoWait _ => negb NoWait
  | exchangeDeclareOk => true
  | exchangeDelete _ _ _ NoWait => negb NoWait
  | exchangeDeleteOk => true
  | exchangeBind _ _ _ _ NoWait _ => negb NoWait
  | exchangeBindOk => true
  | exchangeUnbind _ _ _ _ NoWait _ => negb NoWait
  | exchangeUnbindOk => true
  | queueDeclare _ _ _ _ _ _ NoWait _ => negb NoWait
  | queueDeclareOk _ _ _ => true
  | queueBind _ _ _ _ NoWait _ => negb NoWait
  | queueBindOk => true
  | queueUnbind _ _ _ _ _ => true
  | queueUnbindOk => true
  | queuePurge _ _ NoWait => negb NoWait
  | queuePurgeOk _ => true
  | queueDelete _ _ _ _ NoWait => negb NoWait
  | queueDeleteOk _ => true
  | basicQos _ _ _ => true
  | basicQosOk => true
  | basicConsume _ _ _ _ _ _ NoWait _ => negb NoWait
  | basicConsumeOk _ => true
  | basicCancel _ NoWait => negb NoWait
  | basicCancelOk _ => true
  | basicPublish _ _ _ _ _ _ _ => false
  | basicReturn _ _ _ _ _ _ => false
  | basicDeliver _ _ _ _ _ _ _ => false
  | basicGet _ _ _ => true
  | basicGetOk _ _ _ _ _ _ _ => true
  | basicGetEmpty _ => true
  | basicAck _ _ => false
  | basicReject _ _ => false
  | basicRecoverAsync _ => false
  | basicRecover _ => true
  | basicRecoverOk => true
  | basicNack _ _ _ => false
  | txSelect => true
  | txSelectOk => true
  | txCommit => true
  | txCommitOk => true
  | txRollback => true
  | txRollbackOk => true
  | confirmSelect _ => true
  | confirmSelectOk => true
  end.

Definition write_connectionStart (VersionMajor VersionMinor : Z) (ServerProperties : Table)
    (Mechanisms Locales : string) : result string :=
  writeU 1 VersionMajor +?+
  writeU 1 VersionMinor +?+
  writeTable ServerProperties +?+
  writeLongstr Mechanisms +?+
  writeLongstr Locales.
Definition read_connectionStart : P message :=
  VersionMajor ←? readU 1; VersionMinor ←? readU 1; ServerProperties ←? readTable;
  Mechanisms ←? readLongstr; Locales ←? readLongstr;
  mret (Ok (connectionStart VersionMajor VersionMinor ServerProperties Mechanisms Locales)).

Definition write_connectionStartOk (ClientProperties : Table) (Mechanism Response Locale : string)
    : result string :=
  writeTable ClientProperties +?+
  writeShortstr Mechanism +?+
  writeLongstr Response +?+
  writeShortstr Locale.
Definition read_connectionStartOk : P message :=
  ClientProperties ←? readTable; Mechanism ←? readShortstr; Response ←? readLongstr;
  Locale ←? readShortstr;
  mret (Ok (connectionStartOk ClientProperties Mechanism Response Locale)).

Definition write_connectionSecure (Challenge : string) : result string :=
  writeLongstr Challenge.
Definition read_connectionSecure : P message :=
  Challenge ←? readLongstr; mret (Ok (connectionSecure Challenge)).

Definition write_connectionSecureOk (Response : string) : result string :=
  writeLongstr Response.
Definition read_connectionSecureOk : P message :=
  Response ←? readLongstr; mret (Ok (connectionSecureOk Response)).

Definition write_connectionTune (ChannelMax FrameMax Heartbeat : Z) : result string :=
  writeU 2 ChannelMax +?+
  writeU 4 FrameMax +?+
  writeU 2 Heartbeat.
Definition read_connectionTune : P message :=
  ChannelMax ←? readU 2; FrameMax ←? readU 4; Heartbeat ←? readU 2;
  mret (Ok (connectionTune ChannelMax FrameMax Heartbeat)).

Definition write_connectionTuneOk (ChannelMax FrameMax Heartbeat : Z) : result string :=
  writeU 2 ChannelMax +?+
  writeU 4 FrameMax +?+
  writeU 2 Heartbeat.
Definition read_connectionTuneOk : P message :=
  ChannelMax ←? readU 2; FrameMax ←? readU 4; Heartbeat ←? readU 2;
  mret (Ok (connectionTuneOk ChannelMax FrameMax Heartbeat)).

Definition write_connectionOpen (VirtualHost reserved1 : string) (reserved2 : bool) : result
    string :=
  writeShortstr VirtualHost +?+
  writeShortstr reserved1 +?+
  writeU 1 (bits_of [reserved2]).
Definition read_connectionOpen : P message :=
  VirtualHost ←? readShortstr; reserved1 ←? readShortstr; bits ←? readU 1;
  let reserved2 := bit bits 0 in mret (Ok (connectionOpen VirtualHost reserved1 reserved2)).

Definition write_connectionOpenOk (reserved1 : string) : result string :=
  writeShortstr reserved1.
Definition read_connectionOpenOk : P message :=
  reserved1 ←? readShortstr; mret (Ok (connectionOpenOk reserved1)).

Definition write_connectionClose (ReplyCode : Z) (ReplyText : string) (ClassId MethodId : Z) :
    result string :=
  writeU 2 ReplyCode +?+
  writeShortstr ReplyText +?+
  writeU 2 ClassId +?+
  writeU 2 MethodId.
Definition read_connectionClose : P message :=
  ReplyCode ←? readU 2; ReplyText ←? readShortstr; ClassId ←? readU 2; MethodId ←? readU 2;
  mret (Ok (connectionClose ReplyCode ReplyText ClassId MethodId)).

Definition write_connectionCloseOk : result string :=
  Ok "".
Definition read_connectionCloseOk : P message :=
  mret (Ok connectionCloseOk).

Definition write_connectionBlocked (Reason : string) : result string :=
  writeShortstr Reason.
Definition read_connectionBlocked : P message :=
  Reason ←? readShortstr; mret (Ok (connectionBlocked Reason)).

Definition write_connectionUnblocked : result string :=
  Ok "".
Definition read_connectionUnblocked : P message :=
  mret (Ok connectionUnblocked).

Definition write_channelOpen (reserved1 : string) : result string :=
  writeShortstr reserved1.
Definition read_channelOpen : P message :=
  reserved1 ←? readShortstr; mret (Ok (channelOpen reserved1)).

Definition write_channelOpenOk (reserved1 : string) : result string :=
  writeLongstr reserved1.
Definition read_channelOpenOk : P message :=
  reserved1 ←? readLongstr; mret (Ok (channelOpenOk reserved1)).

Definition write_channelFlow (Active : bool) : result string :=
  writeU 1 (bits_of [Active]).
Definition read_channelFlow : P message :=
  bits ←? readU 1; let Active := bit bits 0 in mret (Ok (channelFlow Active)).

Definition write_channelFlowOk (Active : bool) : result string :=
  writeU 1 (bits_of [Active]).
Definition read_channelFlowOk : P message :=
  bits ←? readU 1; let Active := bit bits 0 in mret (Ok (channelFlowOk Active)).

Definition write_channelClose (ReplyCode : Z) (ReplyText : string) (ClassId MethodId : Z) : result
    string :=
  writeU 2 ReplyCode +?+
  writeShortstr ReplyText +?+
  writeU 2 ClassId +?+
  writeU 2 MethodId.
Definition read_channelClose : P message :=
  ReplyCode ←? readU 2; ReplyText ←? readShortstr; ClassId ←? readU 2; MethodId ←? readU 2;
  mret (Ok (channelClose ReplyCode ReplyText ClassId MethodId)).

Definition write_channelCloseOk : result string :=
  Ok "".
Definition read_channelCloseOk : P message :=
  mret (Ok channelCloseOk).

Definition write_exchangeDeclare (reserved1 : Z) (Exchange Type_ : string) (Passive Durable
    AutoDelete Internal NoWait : bool) (Arguments : Table) : result string :=
  writeU 2 reserved1 +?+
  writeShortstr Exchange +?+
  writeShortstr Type_ +?+
  writeU 1 (bits_of [Passive; Durable; AutoDelete; Internal; NoWait]) +?+
  writeTable Arguments.
Definition read_exchangeDeclare : P message :=
  reserved1 ←? readU 2; Exchange ←? readShortstr; Type_ ←? readShortstr; bits ←? readU 1;
  let Passive := bit bits 0 in let Durable := bit bits 1 in let AutoDelete := bit bits 2 in
  let Internal := bit bits 3 in let NoWait := bit bits 4 in Arguments ←? readTable;
  mret (Ok (exchangeDeclare reserved1 Exchange Type_ Passive Durable AutoDelete Internal NoWait Arguments)).

Definition write_exchangeDeclareOk : result string :=
  Ok "".
Definition read_exchangeDeclareOk : P message :=
  mret (Ok exchangeDeclareOk).

Definition write_exchangeDelete (reserved1 : Z) (Exchange : string) (IfUnused NoWait : bool) :
    result string :=
  writeU 2 reserved1 +?+
  writeShortstr Exchange +?+
  writeU 1 (bits_of [IfUnused; NoWait]).
Definition read_exchangeDelete : P message :=
  reserved1 ←? readU 2; Exchange ←? readShortstr; bits ←? readU 1; let IfUnused := bit bits 0 in
  let NoWait := bit bits 1 in mret (Ok (exchangeDelete reserved1 Exchange IfUnused NoWait)).

Definition write_exchangeDeleteOk : result string :=
  Ok "".
Definition read_exchangeDeleteOk : P message :=
  mret (Ok exchangeDeleteOk).

Definition write_exchangeBind (reserved1 : Z) (Destination Source RoutingKey : string) (NoWait :
    bool) (Arguments : Table) : result string :=
  writeU 2 reserved1 +?+
  writeShortstr Destination +?+
  writeShortstr Source +?+
  writeShortstr RoutingKey +?+
  writeU 1 (bits_of [NoWait]) +?+
  writeTable Arguments.
Definition read_exchangeBind : P message :=
  reserved1 ←? readU 2; Destination ←? readShortstr; Source ←? readShortstr;
  RoutingKey ←? readShortstr; bits ←? readU 1; let NoWait := bit bits 0 in Arguments ←? readTable;
  mret (Ok (exchangeBind reserved1 Destination Source RoutingKey NoWait Arguments)).

Definition write_exchangeBindOk : result string :=
  Ok "".
Definition read_exchangeBindOk : P message :=
  mret (Ok exchangeBindOk).

Definition write_exchangeUnbind (reserved1 : Z) (Destination Source RoutingKey : string) (NoWait :
    bool) (Arguments : Table) : result string :=
  writeU 2 reserved1 +?+
  writeShortstr Destination +?+
  writeShortstr Source +?+
  writeShortstr RoutingKey +?+
  writeU 1 (bits_of [NoWait]) +?+
  writeTable Arguments.
Definition read_exchangeUnbind : P message :=
  reserved1 ←? readU 2; Destination ←? readShortstr; Source ←? readShortstr;
  RoutingKey ←? readShortstr; bits ←? readU 1; let NoWait := bit bits 0 in Arguments ←? readTable;
  mret (Ok (exchangeUnbind reserved1 Destination Source RoutingKey NoWait Arguments)).

Definition write_exchangeUnbindOk : result string :=
  Ok "".
Definition read_exchangeUnbindOk : P message :=
  mret (Ok exchangeUnbindOk).

Definition write_queueDeclare (reserved1 : Z) (Queue : string) (Passive Durable Exclusive
    AutoDelete NoWait : bool) (Arguments : Table) : result string :=
  writeU 2 reserved1 +?+
  writeShortstr Queue +?+
  writeU 1 (bits_of [Passive; Durable; Exclusive; AutoDelete; NoWait]) +?+
  writeTable Arguments.
Definition read_queueDeclare : P message :=
  reserved1 ←? readU 2; Queue ←? readShortstr; bits ←? readU 1; let Passive := bit bits 0 in
  let Durable := bit bits 1 in let Exclusive := bit bits 2 in let AutoDelete := bit bits 3 in
  let NoWait := bit bits 4 in Arguments ←? readTable;
  mret (Ok (queueDeclare reserved1 Queue Passive Durable Exclusive AutoDelete NoWait Arguments)).

Definition write_queueDeclareOk (Queue : string) (MessageCount ConsumerCount : Z) : result string
    :=
  writeShortstr Queue +?+
  writeU 4 MessageCount +?+
  writeU 4 ConsumerCount.
Definition read_queueDeclareOk : P message :=
  Queue ←? readShortstr; MessageCount ←? readU 4; ConsumerCount ←? readU 4;
  mret (Ok (queueDeclareOk Queue MessageCount ConsumerCount)).

Definition write_queueBind (reserved1 : Z) (Queue Exchange RoutingKey : string) (NoWait : bool)
    (Arguments : Table) : result string :=
  writeU 2 reserved1 +?+
  writeShortstr Queue +?+
  writeShortstr Exchange +?+
  writeShortstr RoutingKey +?+
  writeU 1 (bits_of [NoWait]) +?+
  writeTable Arguments.
Definition read_queueBind : P message :=
  reserved1 ←? readU 2; Queue ←? readShortstr; Exchange ←? readShortstr;
  RoutingKey ←? readShortstr; bits ←? readU 1; let NoWait := bit bits 0 in Arguments ←? readTable;
  mret (Ok (queueBind reserved1 Queue Exchange RoutingKey NoWait Arguments)).

Definition write_queueBindOk : result string :=
  Ok "".
Definition read_queueBindOk : P message :=
  mret (Ok queueBindOk).

Definition write_queueUnbind (reserved1 : Z) (Queue Exchange RoutingKey : string) (Arguments :
    Table) : result string :=
  writeU 2 reserved1 +?+
  writeShortstr Queue +?+
  writeShortstr Exchange +?+
  writeShortstr RoutingKey +?+
  writeTable Arguments.
Definition read_queueUnbind : P message :=
  reserved1 ←? readU 2; Queue ←? readShortstr; Exchange ←? readShortstr;
  RoutingKey ←? readShortstr; Arguments ←? readTable;
  mret (Ok (queueUnbind reserved1 Queue Exchange RoutingKey Arguments)).

Definition write_queueUnbindOk : result string :=
  Ok "".
Definition read_queueUnbindOk : P message :=
  mret (Ok queueUnbindOk).

Definition write_queuePurge (reserved1 : Z) (Queue : string) (NoWait : bool) : result string :=
  writeU 2 reserved1 +?+
  writeShortstr Queue +?+
  writeU 1 (bits_of [NoWait]).
Definition read_queuePurge : P message :=
  reserved1 ←? readU 2; Queue ←? readShortstr; bits ←? readU 1; let NoWait := bit bits 0 in
  mret (Ok (queuePurge reserved1 Queue NoWait)).

Definition write_queuePurgeOk (MessageCount : Z) : result string :=
  writeU 4 MessageCount.
Definition read_queuePurgeOk : P message :=
  MessageCount ←? readU 4; mret (Ok (queuePurgeOk MessageCount)).

Definition write_queueDelete (reserved1 : Z) (Queue : string) (IfUnused IfEmpty NoWait : bool) :
    result string :=
  writeU 2 reserved1 +?+
  writeShortstr Queue +?+
  writeU 1 (bits_of [IfUnused; IfEmpty; NoWait]).
Definition read_queueDelete : P message :=
  reserved1 ←? readU 2; Queue ←? readShortstr; bits ←? readU 1; let IfUnused := bit bits 0 in
  let IfEmpty := bit bits 1 in let NoWait := bit bits 2 in
  mret (Ok (queueDelete reserved1 Queue IfUnused IfEmpty NoWait)).

Definition write_queueDeleteOk (MessageCount : Z) : result string :=
  writeU 4 MessageCount.
Definition read_queueDeleteOk : P message :=
  MessageCount ←? readU 4; mret (Ok (queueDeleteOk MessageCount)).

Definition write_basicQos (PrefetchSize PrefetchCount : Z) (Global : bool) : result string :=
  writeU 4 PrefetchSize +?+
  writeU 2 PrefetchCount +?+
  writeU 1 (bits_of [Global]).
Definition read_basicQos : P message :=
  PrefetchSize ←? readU 4; PrefetchCount ←? readU 2; bits ←? readU 1; let Global := bit bits 0 in
  mret (Ok (basicQos PrefetchSize PrefetchCount Global)).

Definition write_basicQosOk : result string :=
  Ok "".
Definition read_basicQosOk : P message :=
  mret (Ok basicQosOk).

Definition write_basicConsume (reserved1 : Z) (Queue ConsumerTag : string) (NoLocal NoAck
    Exclusive NoWait : bool) (Arguments : Table) : result string :=
  writeU 2 reserved1 +?+
  writeShortstr Queue +?+
  writeShortstr ConsumerTag +?+
  writeU 1 (bits_of [NoLocal; NoAck; Exclusive; NoWait]) +?+
  writeTable Arguments.
Definition read_basicConsume : P message :=
  reserved1 ←? readU 2; Queue ←? readShortstr; ConsumerTag ←? readShortstr; bits ←? readU 1;
  let NoLocal := bit bits 0 in let NoAck := bit bits 1 in let Exclusive := bit bits 2 in
  let NoWait := bit bits 3 in Arguments ←? readTable;
  mret (Ok (basicConsume reserved1 Queue ConsumerTag NoLocal NoAck Exclusive NoWait Arguments)).

Definition write_basicConsumeOk (ConsumerTag : string) : result string :=
  writeShortstr ConsumerTag.
Definition read_basicConsumeOk : P message :=
  ConsumerTag ←? readShortstr; mret (Ok (basicConsumeOk ConsumerTag)).

Definition write_basicCancel (ConsumerTag : string) (NoWait : bool) : result string :=
  writeShortstr ConsumerTag +?+
  writeU 1 (bits_of [NoWait]).
Definition read_basicCancel : P message :=
  ConsumerTag ←? readShortstr; bits ←? readU 1; let NoWait := bit bits 0 in
  mret (Ok (basicCancel ConsumerTag NoWait)).

Definition write_basicCancelOk (ConsumerTag : string) : result string :=
  writeShortstr ConsumerTag.
Definition read_basicCancelOk : P message :=
  ConsumerTag ←? readShortstr; mret (Ok (basicCancelOk ConsumerTag)).

Definition write_basicPublish (reserved1 : Z) (Exchange RoutingKey : string) (Mandatory Immediate
    : bool) : result string :=
  writeU 2 reserved1 +?+
  writeShortstr Exchange +?+
  writeShortstr RoutingKey +?+
  writeU 1 (bits_of [Mandatory; Immediate]).
Definition read_basicPublish : P message :=
  reserved1 ←? readU 2; Exchange ←? readShortstr; RoutingKey ←? readShortstr; bits ←? readU 1;
  let Mandatory := bit bits 0 in let Immediate := bit bits 1 in
  mret (Ok (basicPublish reserved1 Exchange RoutingKey Mandatory Immediate zero_properties "")).

Definition write_basicReturn (ReplyCode : Z) (ReplyText Exchange RoutingKey : string) : result
    string :=
  writeU 2 ReplyCode +?+
  writeShortstr ReplyText +?+
  writeShortstr Exchange +?+
  writeShortstr RoutingKey.
Definition read_basicReturn : P message :=
  ReplyCode ←? readU 2; ReplyText ←? readShortstr; Exchange ←? readShortstr;
  RoutingKey ←? readShortstr;
  mret (Ok (basicReturn ReplyCode ReplyText Exchange RoutingKey zero_properties "")).

Definition write_basicDeliver (ConsumerTag : string) (DeliveryTag : Z) (Redelivered : bool)
    (Exchange RoutingKey : string) : result string :=
  writeShortstr ConsumerTag +?+
  writeU 8 DeliveryTag +?+
  writeU 1 (bits_of [Redelivered]) +?+
  writeShortstr Exchange +?+
  writeShortstr RoutingKey.
Definition read_basicDeliver : P message :=
  ConsumerTag ←? readShortstr; DeliveryTag ←? readU 8; bits ←? readU 1;
  let Redelivered := bit bits 0 in Exchange ←? readShortstr; RoutingKey ←? readShortstr;
  mret (Ok (basicDeliver ConsumerTag DeliveryTag Redelivered Exchange RoutingKey zero_properties "")).

Definition write_basicGet (reserved1 : Z) (Queue : string) (NoAck : bool) : result string :=
  writeU 2 reserved1 +?+
  writeShortstr Queue +?+
  writeU 1 (bits_of [NoAck]).
Definition read_basicGet : P message :=
  reserved1 ←? readU 2; Queue ←? readShortstr; bits ←? readU 1; let NoAck := bit bits 0 in
  mret (Ok (basicGet reserved1 Queue NoAck)).

Definition write_basicGetOk (DeliveryTag : Z) (Redelivered : bool) (Exchange RoutingKey : string)
    (MessageCount : Z) : result string :=
  writeU 8 DeliveryTag +?+
  writeU 1 (bits_of [Redelivered]) +?+
  writeShortstr Exchange +?+
  writeShortstr RoutingKey +?+
  writeU 4 MessageCount.
Definition read_basicGetOk : P message :=
  DeliveryTag ←? readU 8; bits ←? readU 1; let Redelivered := bit bits 0 in
  Exchange ←? readShortstr; RoutingKey ←? readShortstr; MessageCount ←? readU 4;
  mret (Ok (basicGetOk DeliveryTag Redelivered Exchange RoutingKey MessageCount zero_properties "")).

Definition write_basicGetEmpty (reserved1 : string) : result string :=
  writeShortstr reserved1.
Definition read_basicGetEmpty : P message :=
  reserved1 ←? readShortstr; mret (Ok (basicGetEmpty reserved1)).

Definition write_basicAck (DeliveryTag : Z) (Multiple : bool) : result string :=
  writeU 8 DeliveryTag +?+
  writeU 1 (bits_of [Multiple]).
Definition read_basicAck : P message :=
  DeliveryTag ←? readU 8; bits ←? readU 1; let Multiple := bit bits 0 in
  mret (Ok (basicAck DeliveryTag Multiple)).

Definition write_basicReject (DeliveryTag : Z) (Requeue : bool) : result string :=
  writeU 8 DeliveryTag +?+
  writeU 1 (bits_of [Requeue]).
Definition read_basicReject : P message :=
  DeliveryTag ←? readU 8; bits ←? readU 1; let Requeue := bit bits 0 in
  mret (Ok (basicReject DeliveryTag Requeue)).

Definition write_basicRecoverAsync (Requeue : bool) : result string :=
  writeU 1 (bits_of [Requeue]).
Definition read_basicRecoverAsync : P message :=
  bits ←? readU 1; let Requeue := bit bits 0 in mret (Ok (basicRecoverAsync Requeue)).

Definition write_basicRecover (Requeue : bool) : result string :=
  writeU 1 (bits_of [Requeue]).
Definition read_basicRecover : P message :=
  bits ←? readU 1; let Requeue := bit bits 0 in mret (Ok (basicRecover Requeue)).

Definition write_basicRecoverOk : result string :=
  Ok "".
Definition read_basicRecoverOk : P message :=
  mret (Ok basicRecoverOk).

Definition write_basicNack (DeliveryTag : Z) (Multiple Requeue : bool) : result string :=
  writeU 8 DeliveryTag +?+
  writeU 1 (bits_of [Multiple; Requeue]).
Definition read_basicNack : P message :=
  DeliveryTag ←? readU 8; bits ←? readU 1; let Multiple := bit bits 0 in
  let Requeue := bit bits 1 in mret (Ok (basicNack DeliveryTag Multiple Requeue)).

Definition write_txSelect : result string :=
  Ok "".
Definition read_txSelect : P message :=
  mret (Ok txSelect).

Definition write_txSelectOk : result string :=
  Ok "".
Definition read_txSelectOk : P message :=
  mret (Ok txSelectOk).

Definition write_txCommit : result string :=
  Ok "".
Definition read_txCommit : P message :=
  mret (Ok txCommit).

Definition write_txCommitOk : result string :=
  Ok "".
Definition read_txCommitOk : P message :=
  mret (Ok txCommitOk).

Definition write_txRollback : result string :=
  Ok "".
Definition read_txRollback : P message :=
  mret (Ok txRollback).

Definition write_txRollbackOk : result string :=
  Ok "".
Definition read_txRollbackOk : P message :=
  mret (Ok txRollbackOk).

Definition write_confirmSelect (Nowait : bool) : result string :=
  writeU 1 (bits_of [Nowait]).
Definition read_confirmSelect : P message :=
  bits ←? readU 1; let Nowait := bit bits 0 in mret (Ok (confirmSelect Nowait)).

Definition write_confirmSelectOk : result string :=
  Ok "".
Definition read_confirmSelectOk : P message :=
  mret (Ok confirmSelectOk).

(** [Method.write]. *)
Definition write_message (m : message) : result string :=
  match m with
  | connectionStart VersionMajor VersionMinor ServerProperties Mechanisms Locales =>
      write_connectionStart VersionMajor VersionMinor ServerProperties Mechanisms Locales
  | connectionStartOk ClientProperties Mechanism Response Locale => write_connectionStartOk
      ClientProperties Mechanism Response Locale
  | connectionSecure Challenge => write_connectionSecure Challenge
  | connectionSecureOk Response => write_connectionSecureOk Response
  | connectionTune ChannelMax FrameMax Heartbeat => write_connectionTune ChannelMax FrameMax
      Heartbeat
  | connectionTuneOk ChannelMax FrameMax Heartbeat => write_connectionTuneOk ChannelMax FrameMax
      Heartbeat
  | connectionOpen VirtualHost reserved1 reserved2 => write_connectionOpen VirtualHost reserved1
      reserved2
  | connectionOpenOk reserved1 => write_connectionOpenOk reserved1
  | connectionClose ReplyCode ReplyText ClassId MethodId => write_connectionClose ReplyCode
      ReplyText ClassId MethodId
  | connectionCloseOk => write_connectionCloseOk
  | connectionBlocked Reason => write_connectionBlocked Reason
  | connectionUnblocked => write_connectionUnblocked
  | channelOpen reserved1 => write_channelOpen reserved1
  | channelOpenOk reserved1 => write_channelOpenOk reserved1
  | channelFlow Active => write_channelFlow Active
  | channelFlowOk Active => write_channelFlowOk Active
  | channelClose ReplyCode ReplyText ClassId MethodId => write_channelClose ReplyCode ReplyText
      ClassId MethodId
  | channelCloseOk => write_channelCloseOk
  | exchangeDeclare reserved1 Exchange Type_ Passive Durable AutoDelete Internal NoWait Arguments
      => write_exchangeDeclare reserved1 Exchange Type_ Passive Durable AutoDelete Internal NoWait
      Arguments
  | exchangeDeclareOk => write_exchangeDeclareOk
  | exchangeDelete reserved1 Exchange IfUnused NoWait => write_exchangeDelete reserved1 Exchange
      IfUnused NoWait
  | exchangeDeleteOk => write_exchangeDeleteOk
  | exchangeBind reserved1 Destination Source RoutingKey NoWait Arguments => write_exchangeBind
      reserved1 Destination Source RoutingKey NoWait Arguments
  | exchangeBindOk => write_exchangeBindOk
  | exchangeUnbind reserved1 Destination Source RoutingKey NoWait Arguments =>
      write_exchangeUnbind reserved1 Destination Source RoutingKey NoWait Arguments
  | exchangeUnbindOk => write_exchangeUnbindOk
  | queueDeclare reserved1 Queue Passive Durable Exclusive AutoDelete NoWait Arguments =>
      write_queueDeclare reserved1 Queue Passive Durable Exclusive AutoDelete NoWait Arguments
  | queueDeclareOk Queue MessageCount ConsumerCount => write_queueDeclareOk Queue MessageCount
      ConsumerCount
  | queueBind reserved1 Queue Exchange RoutingKey NoWait Arguments => write_queueBind reserved1
      Queue Exchange RoutingKey NoWait Arguments
  | queueBindOk => write_queueBindOk
  | queueUnbind reserved1 Queue Exchange RoutingKey Arguments => write_queueUnbind reserved1 Queue
      Exchange RoutingKey Arguments
  | queueUnbindOk => write_queueUnbindOk
  | queuePurge reserved1 Queue NoWait => write_queuePurge reserved1 Queue NoWait
  | queuePurgeOk MessageCount => write_queuePurgeOk MessageCount
  | queueDelete reserved1 Queue IfUnused IfEmpty NoWait => write_queueDelete reserved1 Queue
      IfUnused IfEmpty NoWait
  | queueDeleteOk MessageCount => write_queueDeleteOk MessageCount
  | basicQos PrefetchSize PrefetchCount Global => write_basicQos PrefetchSize PrefetchCount Global
  | basicQosOk => write_basicQosOk
  | basicConsume reserved1 Queue ConsumerTag NoLocal NoAck Exclusive NoWait Arguments =>
      write_basicConsume reserved1 Queue ConsumerTag NoLocal NoAck Exclusive NoWait Arguments
  | basicConsumeOk ConsumerTag => write_basicConsumeOk ConsumerTag
  | basicCancel ConsumerTag NoWait => write_basicCancel ConsumerTag NoWait
  | basicCancelOk ConsumerTag => write_basicCancelOk ConsumerTag
  | basicPublish reserved1 Exchange RoutingKey Mandatory Immediate _ _ => write_basicPublish
      reserved1 Exchange RoutingKey Mandatory Immediate
  | basicReturn ReplyCode ReplyText Exchange RoutingKey _ _ => write_basicReturn ReplyCode
      ReplyText Exchange RoutingKey
  | basicDeliver ConsumerTag DeliveryTag Redelivered Exchange RoutingKey _ _ => write_basicDeliver
      ConsumerTag DeliveryTag Redelivered Exchange RoutingKey
  | basicGet reserved1 Queue NoAck => write_basicGet reserved1 Queue NoAck
  | basicGetOk DeliveryTag Redelivered Exchange RoutingKey MessageCount _ _ => write_basicGetOk
      DeliveryTag Redelivered Exchange RoutingKey MessageCount
  | basicGetEmpty reserved1 => write_basicGetEmpty reserved1
  | basicAck DeliveryTag Multiple => write_basicAck DeliveryTag Multiple
  | basicReject DeliveryTag Requeue => write_basicReject DeliveryTag Requeue
  | basicRecoverAsync Requeue => write_basicRecoverAsync Requeue
  | basicRecover Requeue => write_basicRecover Requeue
  | basicRecoverOk => write_basicRecoverOk
  | basicNack DeliveryTag Multiple Requeue => write_basicNack DeliveryTag Multiple Requeue
  | txSelect => write_txSelect
  | txSelectOk => write_txSelectOk
  | txCommit => write_txCommit
  | txCommitOk => write_txCommitOk
  | txRollback => write_txRollback
  | txRollbackOk => write_txRollbackOk
  | confirmSelect Nowait => write_confirmSelect Nowait
  | confirmSelectOk => write_confirmSelectOk
  end.

(** [parseMethodFrame]: the arguments of a method, by class. *)
Definition bad_method (class method : Z) : P message :=
  mret (Err (ErrorS ("Bad method frame, unknown method " +:+ pretty method +:+ " for class " +:+ pretty class))).
Definition parse_connection (MethodId : Z) : P message :=
  match MethodId with
  | 10 => read_connectionStart
  | 11 => read_connectionStartOk
  | 20 => read_connectionSecure
  | 21 => read_connectionSecureOk
  | 30 => read_connectionTune
  | 31 => read_connectionTuneOk
  | 40 => read_connectionOpen
  | 41 => read_connectionOpenOk
  | 50 => read_connectionClose
  | 51 => read_connectionCloseOk
  | 60 => read_connectionBlocked
  | 61 => read_connectionUnblocked
  | _ => bad_method 10 MethodId
  end%Z.
Definition parse_channel (MethodId : Z) : P message :=
  match MethodId with
  | 10 => read_channelOpen
  | 11 => read_channelOpenOk
  | 20 => read_channelFlow
  | 21 => read_channelFlowOk
  | 40 => read_channelClose
  | 41 => read_channelCloseOk
  | _ => bad_method 20 MethodId
  end%Z.
Definition parse_exchange (MethodId : Z) : P message :=
  match MethodId with
  | 10 => read_exchangeDeclare
  | 11 => read_exchangeDeclareOk
  | 20 => read_exchangeDelete
  | 21 => read_exchangeDeleteOk
  | 30 => read_exchangeBind
  | 31 => read_exchangeBindOk
  | 40 => read_exchangeUnbind
  | 51 => read_exchangeUnbindOk
  | _ => bad_method 40 MethodId
  end%Z.
Definition parse_queue (MethodId : Z) : P message :=
  match MethodId with
  | 10 => read_queueDeclare
  | 11 => read_queueDeclareOk
  | 20 => read_queueBind
  | 21 => read_queueBindOk
  | 50 => read_queueUnbind
  | 51 => read_queueUnbindOk
  | 30 => read_queuePurge
  | 31 => read_queuePurgeOk
  | 40 => read_queueDelete
  | 41 => read_queueDeleteOk
  | _ => bad_method 50 MethodId
  end%Z.
Definition parse_basic (MethodId : Z) : P message :=
  match MethodId with
  | 10 => read_basicQos
  | 11 => read_basicQosOk
  | 20 => read_basicConsume
  | 21 => read_basicConsumeOk
  | 30 => read_basicCancel
  | 31 => read_basicCancelOk
  | 40 => read_basicPublish
  | 50 => read_basicReturn
  | 60 => read_basicDeliver
  | 70 => read_basicGet
  | 71 => read_basicGetOk
  | 72 => read_basicGetEmpty
  | 80 => read_basicAck
  | 90 => read_basicReject
  | 100 => read_basicRecoverAsync
  | 110 => read_basicRecover
  | 111 => read_basicRecoverOk
  | 120 => read_basicNack
  | _ => bad_method 60 MethodId
  end%Z.
Definition parse_tx (MethodId : Z) : P message :=
  match MethodId with
  | 10 => read_txSelect
  | 11 => read_txSelectOk
  | 20 => read_txCommit
  | 21 => read_txCommitOk
  | 30 => read_txRollback
  | 31 => read_txRollbackOk
  | _ => bad_method 90 MethodId
  end%Z.
Definition parse_confirm (MethodId : Z) : P message :=
  match MethodId with
  | 10 => read_confirmSelect
  | 11 => read_confirmSelectOk
  | _ => bad_method 85 MethodId
  end%Z.
Definition parse_method (ClassId MethodId : Z) : P message :=
  match ClassId with
  | 10 => parse_connection MethodId
  | 20 => parse_channel MethodId
  | 40 => parse_exchange MethodId
  | 50 => parse_queue MethodId
  | 60 => parse_basic MethodId
  | 90 => parse_tx MethodId
  | 85 => parse_confirm MethodId
  | _ => mret (Err (ErrorS ("Bad method frame, unknown class " +:+ pretty ClassId)))
  end%Z.

(** Messages whose fields fit their encodings. *)
Definition wf_message (m : message) : bool :=
  match m with
  | connectionStart VersionMajor VersionMinor ServerProperties Mechanisms Locales => in_u 1
      VersionMajor && in_u 1 VersionMinor && wf_table ServerProperties && shorter (2 ^ 32)
      Mechanisms && shorter (2 ^ 32) Locales
  | connectionStartOk ClientProperties Mechanism Response Locale => wf_table ClientProperties &&
      shorter 256 Mechanism && shorter (2 ^ 32) Response && shorter 256 Locale
  | connectionSecure Challenge => shorter (2 ^ 32) Challenge
  | connectionSecureOk Response => shorter (2 ^ 32) Response
  | connectionTune ChannelMax FrameMax Heartbeat => in_u 2 ChannelMax && in_u 4 FrameMax && in_u 2
      Heartbeat
  | connectionTuneOk ChannelMax FrameMax Heartbeat => in_u 2 ChannelMax && in_u 4 FrameMax && in_u
      2 Heartbeat
  | connectionOpen VirtualHost reserved1 _ => shorter 256 VirtualHost && shorter 256 reserved1
  | connectionOpenOk reserved1 => shorter 256 reserved1
  | connectionClose ReplyCode ReplyText ClassId MethodId => in_u 2 ReplyCode && shorter 256
      ReplyText && in_u 2 ClassId && in_u 2 MethodId
  | connectionCloseOk => true
  | connectionBlocked Reason => shorter 256 Reason
  | connectionUnblocked => true
  | channelOpen reserved1 => shorter 256 reserved1
  | channelOpenOk reserved1 => shorter (2 ^ 32) reserved1
  | channelFlow _ => true
  | channelFlowOk _ => true
  | channelClose ReplyCode ReplyText ClassId MethodId => in_u 2 ReplyCode && shorter 256 ReplyText
      && in_u 2 ClassId && in_u 2 MethodId
  | channelCloseOk => true
  | exchangeDeclare reserved1 Exchange Type_ _ _ _ _ _ Arguments => in_u 2 reserved1 && shorter
      256 Exchange && shorter 256 Type_ && wf_table Arguments
  | exchangeDeclareOk => true
  | exchangeDelete reserved1 Exchange _ _ => in_u 2 reserved1 && shorter 256 Exchange
  | exchangeDeleteOk => true
  | exchangeBind reserved1 Destination Source RoutingKey _ Arguments => in_u 2 reserved1 &&
      shorter 256 Destination && shorter 256 Source && shorter 256 RoutingKey && wf_table
      Arguments
  | exchangeBindOk => true
  | exchangeUnbind reserved1 Destination Source RoutingKey _ Arguments => in_u 2 reserved1 &&
      shorter 256 Destination && shorter 256 Source && shorter 256 RoutingKey && wf_table
      Arguments
  | exchangeUnbindOk => true
  | queueDeclare reserved1 Queue _ _ _ _ _ Arguments => in_u 2 reserved1 && shorter 256 Queue &&
      wf_table Arguments
  | queueDeclareOk Queue MessageCount ConsumerCount => shorter 256 Queue && in_u 4 MessageCount &&
      in_u 4 ConsumerCount
  | queueBind reserved1 Queue Exchange RoutingKey _ Arguments => in_u 2 reserved1 && shorter 256
      Queue && shorter 256 Exchange && shorter 256 RoutingKey && wf_table Arguments
  | queueBindOk => true
  | queueUnbind reserved1 Queue Exchange RoutingKey Arguments => in_u 2 reserved1 && shorter 256
      Queue && shorter 256 Exchange && shorter 256 RoutingKey && wf_table Arguments
  | queueUnbindOk => true
  | queuePurge reserved1 Queue _ => in_u 2 reserved1 && shorter 256 Queue
  | queuePurgeOk MessageCount => in_u 4 MessageCount
  | queueDelete reserved1 Queue _ _ _ => in_u 2 reserved1 && shorter 256 Queue
  | queueDeleteOk MessageCount => in_u 4 MessageCount
  | basicQos PrefetchSize PrefetchCount _ => in_u 4 PrefetchSize && in_u 2 PrefetchCount
  | basicQosOk => true
  | basicConsume reserved1 Queue ConsumerTag _ _ _ _ Arguments => in_u 2 reserved1 && shorter 256
      Queue && shorter 256 ConsumerTag && wf_table Arguments
  | basicConsumeOk ConsumerTag => shorter 256 ConsumerTag
  | basicCancel ConsumerTag _ => shorter 256 ConsumerTag
  | basicCancelOk ConsumerTag => shorter 256 ConsumerTag
  | basicPublish reserved1 Exchange RoutingKey _ _ _ _ => in_u 2 reserved1 && shorter 256 Exchange
      && shorter 256 RoutingKey
  | basicReturn ReplyCode ReplyText Exchange RoutingKey _ _ => in_u 2 ReplyCode && shorter 256
      ReplyText && shorter 256 Exchange && shorter 256 RoutingKey
  | basicDeliver ConsumerTag DeliveryTag _ Exchange RoutingKey _ _ => shorter 256 ConsumerTag &&
      in_u 8 DeliveryTag && shorter 256 Exchange && shorter 256 RoutingKey
  | basicGet reserved1 Queue _ => in_u 2 reserved1 && shorter 256 Queue
  | basicGetOk DeliveryTag _ Exchange RoutingKey MessageCount _ _ => in_u 8 DeliveryTag && shorter
      256 Exchange && shorter 256 RoutingKey && in_u 4 MessageCount
  | basicGetEmpty reserved1 => shorter 256 reserved1
  | basicAck DeliveryTag _ => in_u 8 DeliveryTag
  | basicReject DeliveryTag _ => in_u 8 DeliveryTag
  | basicRecoverAsync _ => true
  | basicRecover _ => true
  | basicRecoverOk => true
  | basicNack DeliveryTag _ _ => in_u 8 DeliveryTag
  | txSelect => true
  | txSelectOk => true
  | txCommit => true
  | txCommitOk => true
  | txRollback => true
  | txRollbackOk => true
  | confirmSelect _ => true
  | confirmSelectOk => true
  end.

(** A message without its content, which travels in frames of its own. *)
Definition bare (m : message) : message :=
  match m with
  | basicPublish reserved1 Exchange RoutingKey Mandatory Immediate _ _ => basicPublish reserved1 Exchange RoutingKey Mandatory Immediate zero_properties ""
  | basicReturn ReplyCode ReplyText Exchange RoutingKey _ _ => basicReturn ReplyCode ReplyText Exchange RoutingKey zero_properties ""
  | basicDeliver ConsumerTag DeliveryTag Redelivered Exchange RoutingKey _ _ => basicDeliver ConsumerTag DeliveryTag Redelivered Exchange RoutingKey zero_properties ""
  | basicGetOk DeliveryTag Redelivered Exchange RoutingKey MessageCount _ _ => basicGetOk DeliveryTag Redelivered Exchange RoutingKey MessageCount zero_properties ""
  | m => m
  end.

(** [getContent], [setContent] of the messages that carry content. *)
Definition getContent (m : message) : option (properties * string) :=
  match m with
  | basicPublish _ _ _ _ _ Properties Body => Some (Properties, Body)
  | basicReturn _ _ _ _ Properties Body => Some (Properties, Body)
  | basicDeliver _ _ _ _ _ Properties Body => Some (Properties, Body)
  | basicGetOk _ _ _ _ _ Properties Body => Some (Properties, Body)
  | _ => None
  end.
Definition setContent (props : properties) (body : string) (m : message) : message :=
  match m with
  | basicPublish reserved1 Exchange RoutingKey Mandatory Immediate _ _ => basicPublish reserved1 Exchange RoutingKey Mandatory Immediate props body
  | basicReturn ReplyCode ReplyText Exchange RoutingKey _ _ => basicReturn ReplyCode ReplyText Exchange RoutingKey props body
  | basicDeliver ConsumerTag DeliveryTag Redelivered Exchange RoutingKey _ _ => basicDeliver ConsumerTag DeliveryTag Redelivered Exchange RoutingKey props body
  | basicGetOk DeliveryTag Redelivered Exchange RoutingKey MessageCount _ _ => basicGetOk DeliveryTag Redelivered Exchange RoutingKey MessageCount props body
  | m => m
  end.

(** ** Every method is read back as it was written *)

Lemma shorter_256 s : shorter 256 s = true → (String.length s < 256)%nat.
Proof. intros Hs%bool_decide_eq_true. simpl in Hs. lia. Qed.

(** Flags are recovered, and fit an octet. *)
Ltac flags := repeat match goal with b : bool |- _ => destruct b end; done.

Lemma reads_empty {A} (a : A) : reads (mret (Ok a)) (Ok "") a.
Proof. by intros ? ? [= <-]. Qed.

(** The codec of one field, chosen by its reader. *)
Ltac codec_atom :=
  lazymatch goal with
  | |- reads readShortstr _ _ => apply reads_Shortstr, shorter_256; assumption
  | |- reads readLongstr _ _ => eapply reads_Longstr, bool_decide_eq_true_1; eassumption
  | |- reads readTable _ _ => apply reads_Table; assumption
  | |- reads (readU _) (writeU _ (bits_of _)) _ => apply reads_U; flags
  | |- reads (readU _) _ _ => eapply reads_U, bool_decide_eq_true_1; eassumption
  end.

(** One field after the other; what remains after the last one is the message. *)
Ltac codec :=
  lazymatch goal with
  | |- reads (mret _) _ _ => apply reads_empty
  | |- reads _ (wapp _ _) _ => eapply reads_bind; [codec_atom|cbv beta zeta; codec]
  | |- reads _ _ _ => eapply reads_bind_last; [codec_atom|flags]
  end.

Ltac split_wf H :=
  repeat match type of H with
         | (_ && _ = true)%bool => let H' := fresh "Hwf" in apply andb_true_iff in H as [H H']
         end.

Lemma reads_method m :
  wf_message m = true → reads (parse_method (id m).1 (id m).2) (write_message m) (bare m).
Proof.
  destruct m; cbn [wf_message]; intros Hwf; split_wf Hwf;
    lazy -[bindR mret reads readU readShortstr readLongstr readTable
           writeU writeShortstr writeLongstr writeTable wapp bits_of bit zero_properties]; codec.
Qed.

(** Reading a method ends on any input. *)
Ltac consume :=
  lazymatch goal with
  | |- consumes (mret _) => apply consumes_ret
  | |- consumes (bindR _ _) => apply consumes_bindR; [auto with amqp|intros ?; consume]
  end.

Lemma consumes_method ClassId MethodId : consumes (parse_method ClassId MethodId).
Proof.
  rewrite /parse_method. repeat case_match; try apply consumes_ret.
  all: rewrite /parse_connection /parse_channel /parse_exchange /parse_queue /parse_basic /parse_tx
         /parse_confirm; repeat case_match; try apply consumes_ret.
  all: lazy -[bindR mret consumes readU readShortstr readLongstr readTable bit zero_properties];
    consume.
Qed.

End AmqpSpec.
