(* ===== verification/AmqpFrame.v ===== *)
(** * streadway/amqp: frames

    [src/src/github.com/streadway/amqp]: [types.go] (the frames), [write.go] and
    [read.go] (their encodings), and the writer of a connection, a buffered writer
    over a network that can fail in the middle of a frame and then stays broken. *)

From S2P Require Import Prelude GoStrings AmqpWire AmqpSpec.

Module AmqpFrame.
Import AmqpWire AmqpSpec.

(** ** The frames

    A method frame is written with the class and method of its message; the two
    fields are filled in when a frame is read. *)
Inductive frame :=
| protocolHeader
| methodFrame (ChannelId ClassId MethodId : Z) (Method : option message)
| heartbeatFrame (ChannelId : Z)
| headerFrame (ChannelId ClassId weight Size : Z) (Properties : properties)
| bodyFrame (ChannelId : Z) (Body : string).

(** [frame.channel()] *)
Definition channel {W} (f : frame) : M W Z :=
  match f with
  | protocolHeader => throw (Panic "only valid as initial handshake")
  | methodFrame ch _ _ _ | heartbeatFrame ch | headerFrame ch _ _ _ _ | bodyFrame ch _ => mret ch
  end.

Definition frameMethod : Z := 1.
Definition frameHeader : Z := 2.
Definition frameBody : Z := 3.
Definition frameHeartbeat : Z := 8.
Definition frameEnd : Z := 206.

Definition ErrFrame : error := AmqpError 501 "frame could not be parsed" false false.

Definition flagContentType : Z := 0x8000.
Definition flagContentEncoding : Z := 0x4000.
Definition flagHeaders : Z := 0x2000.
Definition flagDeliveryMode : Z := 0x1000.
Definition flagPriority : Z := 0x0800.
Definition flagCorrelationId : Z := 0x0400.
Definition flagReplyTo : Z := 0x0200.
Definition flagExpiration : Z := 0x0100.
Definition flagMessageId : Z := 0x0080.
Definition flagTimestamp : Z := 0x0040.
Definition flagType : Z := 0x0020.
Definition flagUserId : Z := 0x0010.
Definition flagAppId : Z := 0x0008.
Definition flagReserved1 : Z := 0x0004.

(** [hasProperty] *)
Definition hasProperty (mask prop : Z) : bool := bool_decide (0 < Z.land mask prop)%Z.

(** ** Writing *)

(** [writeFrame]: seven octets cut out of the numbers, the payload, the end. *)
Definition octet (z : Z) : string := String (byte_of z) "".
Definition writeFrame (typ channel : Z) (payload : string) : string :=
  let size := Z.of_nat (String.length payload) in
  (octet typ +:+
   octet (Z.shiftr (Z.land channel 0xff00) 8) +:+
   octet (Z.shiftr (Z.land channel 0x00ff) 0) +:+
   octet (Z.shiftr (Z.land size 0xff000000) 24) +:+
   octet (Z.shiftr (Z.land size 0x00ff0000) 16) +:+
   octet (Z.shiftr (Z.land size 0x0000ff00) 8) +:+
   octet (Z.shiftr (Z.land size 0x000000ff) 0)) +:+
  payload +:+ octet frameEnd.

(** The first pass of [headerFrame.write]: [if cond { mask = mask | flag }]. *)
Definition set_flag (cond : bool) (flag mask : Z) : Z := if cond then Z.lor mask flag else mask.
Definition nonempty (s : string) : bool := negb (bool_decide (s = "")).
Definition time_eqb (a b : gotime) : bool :=
  bool_decide (t_unix a = t_unix b) && bool_decide (t_nsec a = t_nsec b).
Definition property_mask (p : properties) : Z :=
  let mask := 0%Z in
  let mask := set_flag (nonempty (ContentType p)) flagContentType mask in
  let mask := set_flag (nonempty (ContentEncoding p)) flagContentEncoding mask in
  let mask := set_flag (negb (bool_decide (Headers p = []))) flagHeaders mask in
  let mask := set_flag (bool_decide (0 < DeliveryMode p)%Z) flagDeliveryMode mask in
  let mask := set_flag (bool_decide (0 < Priority p)%Z) flagPriority mask in
  let mask := set_flag (nonempty (CorrelationId p)) flagCorrelationId mask in
  let mask := set_flag (nonempty (ReplyTo p)) flagReplyTo mask in
  let mask := set_flag (nonempty (Expiration p)) flagExpiration mask in
  let mask := set_flag (nonempty (MessageId p)) flagMessageId mask in
  let mask := set_flag (negb (time_eqb (Timestamp p) zeroTime)) flagTimestamp mask in
  let mask := set_flag (nonempty (Type_ p)) flagType mask in
  let mask := set_flag (nonempty (UserId p)) flagUserId mask in
  set_flag (nonempty (AppId p)) flagAppId mask.

(** The second pass: [if hasProperty(mask, flag) { write }]. *)
Definition write_if (mask flag : Z) (w : result string) : result string :=
  if hasProperty mask flag then w else Ok "".
Definition write_properties (mask : Z) (p : properties) : result string :=
  write_if mask flagContentType (writeShortstr (ContentType p)) +?+
  write_if mask flagContentEncoding (writeShortstr (ContentEncoding p)) +?+
  write_if mask flagHeaders (writeTable (Headers p)) +?+
  write_if mask flagDeliveryMode (writeU 1 (DeliveryMode p)) +?+
  write_if mask flagPriority (writeU 1 (Priority p)) +?+
  write_if mask flagCorrelationId (writeShortstr (CorrelationId p)) +?+
  write_if mask flagReplyTo (writeShortstr (ReplyTo p)) +?+
  write_if mask flagExpiration (writeShortstr (Expiration p)) +?+
  write_if mask flagMessageId (writeShortstr (MessageId p)) +?+
  write_if mask flagTimestamp (Ok (be 8 (t_unix (Timestamp p)))) +?+
  write_if mask flagType (writeShortstr (Type_ p)) +?+
  write_if mask flagUserId (writeShortstr (UserId p)) +?+
  write_if mask flagAppId (writeShortstr (AppId p)).

Definition header_payload (ClassId weight Size : Z) (p : properties) : result string :=
  let mask := property_mask p in
  writeU 2 ClassId +?+ writeU 2 weight +?+ writeU 8 Size +?+ writeU 2 mask +?+
  write_properties mask p.

Definition method_payload (m : message) : result string :=
  writeU 2 (id m).1 +?+ writeU 2 (id m).2 +?+ write_message m.

Definition framed (typ channel : Z) (payload : result string) : result string :=
  match payload with Ok b => Ok (writeFrame typ channel b) | Err e => Err e end.

(** [frame.write] *)
Definition write_frame (f : frame) : result string :=
  match f with
  | protocolHeader => Ok ("AMQP" +:+ octet 0 +:+ octet 0 +:+ octet 9 +:+ octet 1)
  | methodFrame ch _ _ None => Err (ErrorS "malformed frame: missing method")
  | methodFrame ch _ _ (Some m) => framed frameMethod ch (method_payload m)
  | heartbeatFrame ch => framed frameHeartbeat ch (Ok "")
  | headerFrame ch ClassId weight Size p => framed frameHeader ch (header_payload ClassId weight Size p)
  | bodyFrame ch b => framed frameBody ch (Ok b)
  end.

(** ** Reading *)

(** [if hasProperty(flags, flag) { field, err = read(r) }] *)
Definition read_if {A} (flags flag : Z) (p : P A) (dflt : A) : P A :=
  if hasProperty flags flag then p else mret (Ok dflt).
Definition read_properties (flags : Z) : P properties :=
  ContentType ←? read_if flags flagContentType readShortstr "";
  ContentEncoding ←? read_if flags flagContentEncoding readShortstr "";
  Headers ←? read_if flags flagHeaders readTable [];
  DeliveryMode ←? read_if flags flagDeliveryMode (readU 1) 0%Z;
  Priority ←? read_if flags flagPriority (readU 1) 0%Z;
  CorrelationId ←? read_if flags flagCorrelationId readShortstr "";
  ReplyTo ←? read_if flags flagReplyTo readShortstr "";
  Expiration ←? read_if flags flagExpiration readShortstr "";
  MessageId ←? read_if flags flagMessageId readShortstr "";
  Timestamp ←? read_if flags flagTimestamp readTimestamp zeroTime;
  Type_ ←? read_if flags flagType readShortstr "";
  UserId ←? read_if flags flagUserId readShortstr "";
  AppId ←? read_if flags flagAppId readShortstr "";
  reserved1 ←? read_if flags flagReserved1 readShortstr "";
  mret (Ok (mkProperties ContentType ContentEncoding Headers DeliveryMode Priority CorrelationId
              ReplyTo Expiration MessageId Timestamp Type_ UserId AppId reserved1)).

Definition parseHeaderFrame (channel size : Z) : P frame :=
  ClassId ←? readU 2; weight ←? readU 2; Size ←? readU 8; flags ←? readU 2;
  Properties ←? read_properties flags;
  mret (Ok (headerFrame channel ClassId weight Size Properties)).

Definition parseMethodFrame (channel size : Z) : P frame :=
  ClassId ←? readU 2; MethodId ←? readU 2;
  Method ←? parse_method ClassId MethodId;
  mret (Ok (methodFrame channel ClassId MethodId (Some Method))).

Definition parseBodyFrame (channel size : Z) : P frame :=
  Body ←? ReadFull size; mret (Ok (bodyFrame channel Body)).

Definition errHeartbeatPayload : error := ErrorS "Heartbeats should not have a payload".
Definition parseHeartbeatFrame (channel size : Z) : P frame :=
  if decide (0 < size)%Z then mret (Err errHeartbeatPayload) else mret (Ok (heartbeatFrame channel)).

(** The [switch typ] of [ReadFrame]. *)
Definition parse_payload (typ channel size : Z) : P frame :=
  if decide (typ = frameMethod) then parseMethodFrame channel size
  else if decide (typ = frameHeader) then parseHeaderFrame channel size
  else if decide (typ = frameBody) then parseBodyFrame channel size
  else if decide (typ = frameHeartbeat) then parseHeartbeatFrame channel size
  else mret (Err ErrFrame).

Definition ReadFrame : P frame :=
  scratch ←? ReadFull 7;
  let '(b0, r) := split_at 1 scratch in
  let '(b1, b3) := split_at 2 r in
  let typ := be_num 0 b0 in
  let channel := be_num 0 b1 in
  let size := be_num 0 b3 in
  frame ←? parse_payload typ channel size;
  e ←? ReadFull 1;
  if decide (be_num 0 e = frameEnd) then mret (Ok frame) else mret (Err ErrFrame).

(** ** The writer of a connection

    The bytes the peer received, the error that broke the connection (it is
    sticky in a [bufio.Writer]), and for each frame still to be written how much
    of it gets through, if not all of it. *)
Record wire := mkWire {
  w_sent : string;
  w_err : option error;
  w_faults : list (option nat);
}.

Definition write_failed : error := OpError "write" "broken pipe".

(** [writer.WriteFrame] *)
Definition WriteFrame (f : frame) : M wire (option error) := λ w,
  match write_frame f with
  | Err e => (Ret (Some e), w)
  | Ok b =>
      match w_err w with
      | Some e => (Ret (Some e), w)
      | None =>
          match w_faults w with
          | Some n :: fs =>
              (Ret (Some write_failed),
               mkWire (w_sent w +:+ (split_at n b).1) (Some write_failed) fs)
          | fs => (Ret None, mkWire (w_sent w +:+ b) None (tail fs))
          end
      end
  end.

(** ** The frame header *)

Lemma octet_mask x n : (0 ≤ n)%Z → byte_of (Z.shiftr (Z.land x (Z.shiftl 255 n)) n) = byte_of (x / 2 ^ n).
Proof.
  intros Hn. rewrite /byte_of Z.shiftr_land Z.shiftr_shiftl_l // Z.sub_diag.
  change (Z.shiftl 255 0) with (Z.ones 8). rewrite Z.land_ones // Z.shiftr_div_pow2 //.
  by rewrite Zmod_mod.
Qed.

(** The masks and shifts of [writeFrame] are the big-endian encodings the reader
    takes apart. *)
Lemma writeFrame_be typ channel payload :
  writeFrame typ channel payload =
    be 1 typ +:+ be 2 channel +:+ len32 payload +:+ payload +:+ be 1 frameEnd.
Proof.
  rewrite /writeFrame /octet /len32. generalize (Z.of_nat (String.length payload)) => size.
  change 0xff00%Z with (Z.shiftl 255 8). change 0x00ff%Z with (Z.shiftl 255 0).
  change 0xff000000%Z with (Z.shiftl 255 24). change 0x00ff0000%Z with (Z.shiftl 255 16).
  rewrite !octet_mask //. cbn [be]. rewrite !Z.div_div // !Z.div_1_r. done.
Qed.

(** ** The property mask *)

Lemma hasProperty_testbit mask i : (0 ≤ i)%Z → hasProperty mask (2 ^ i) = Z.testbit mask i.
Proof.
  intros Hi. rewrite /hasProperty.
  assert (Z.land mask (2 ^ i) = if Z.testbit mask i then 2 ^ i else 0)%Z as ->.
  { apply Z.bits_inj' => j Hj. rewrite Z.land_spec Z.pow2_bits_eqb //.
    destruct (Z.eqb_spec i j) as [->|].
    - by destruct (Z.testbit mask j); rewrite ?Z.bits_0 // Z.pow2_bits_true.
    - destruct (Z.testbit mask i); rewrite ?Z.bits_0 ?Z.pow2_bits_false // ?andb_false_r //. }
  destruct (Z.testbit mask i); [|done]. apply bool_decide_eq_true_2. by apply Z.pow_pos_nonneg.
Qed.

Lemma testbit_set_flag b i mask j :
  (0 ≤ i)%Z → (0 ≤ j)%Z →
  Z.testbit (set_flag b (2 ^ i) mask) j = Z.testbit mask j || (b && Z.eqb i j).
Proof.
  intros Hi Hj. destruct b; rewrite /set_flag /= ?orb_false_r //.
  by rewrite Z.lor_spec Z.pow2_bits_eqb.
Qed.

(** A flag of the mask says whether the property is there. *)
Lemma mask_flags p :
  let mask := property_mask p in
  hasProperty mask flagContentType = nonempty (ContentType p) ∧
  hasProperty mask flagContentEncoding = nonempty (ContentEncoding p) ∧
  hasProperty mask flagHeaders = negb (bool_decide (Headers p = [])) ∧
  hasProperty mask flagDeliveryMode = bool_decide (0 < DeliveryMode p)%Z ∧
  hasProperty mask flagPriority = bool_decide (0 < Priority p)%Z ∧
  hasProperty mask flagCorrelationId = nonempty (CorrelationId p) ∧
  hasProperty mask flagReplyTo = nonempty (ReplyTo p) ∧
  hasProperty mask flagExpiration = nonempty (Expiration p) ∧
  hasProperty mask flagMessageId = nonempty (MessageId p) ∧
  hasProperty mask flagTimestamp = negb (time_eqb (Timestamp p) zeroTime) ∧
  hasProperty mask flagType = nonempty (Type_ p) ∧
  hasProperty mask flagUserId = nonempty (UserId p) ∧
  hasProperty mask flagAppId = nonempty (AppId p) ∧
  hasProperty mask flagReserved1 = false.
Proof.
  rewrite /property_mask.
  change flagContentType with (2 ^ 15)%Z. change flagContentEncoding with (2 ^ 14)%Z.
  change flagHeaders with (2 ^ 13)%Z. change flagDeliveryMode with (2 ^ 12)%Z.
  change flagPriority with (2 ^ 11)%Z. change flagCorrelationId with (2 ^ 10)%Z.
  change flagReplyTo with (2 ^ 9)%Z. change flagExpiration with (2 ^ 8)%Z.
  change flagMessageId with (2 ^ 7)%Z. change flagTimestamp with (2 ^ 6)%Z.
  change flagType with (2 ^ 5)%Z. change flagUserId with (2 ^ 4)%Z.
  change flagAppId with (2 ^ 3)%Z. change flagReserved1 with (2 ^ 2)%Z.
  cbv zeta. split_and!; rewrite -> hasProperty_testbit by lia; rewrite -> !testbit_set_flag by lia;
    rewrite Z.bits_0; cbn [Z.eqb Pos.eqb]; rewrite ?andb_false_r ?andb_true_r ?orb_false_r; reflexivity.
Qed.

Lemma set_flag_bound b flag mask :
  (0 ≤ mask < 2 ^ 16)%Z → (0 ≤ flag < 2 ^ 16)%Z → (0 ≤ set_flag b flag mask < 2 ^ 16)%Z.
Proof.
  intros Hm Hf. destruct b; [|done]. rewrite /set_flag. split; [apply Z.lor_nonneg; lia|].
  destruct (Z.eq_dec (Z.lor mask flag) 0%Z) as [->|]; [done|].
  apply Z.log2_lt_pow2; [pose proof (proj2 (Z.lor_nonneg mask flag)); lia|].
  rewrite Z.log2_lor; [|lia..]. apply Z.max_lub_lt.
  - destruct (Z.eq_dec mask 0%Z) as [->|]; [done|]. apply Z.log2_lt_pow2; lia.
  - destruct (Z.eq_dec flag 0%Z) as [->|]; [done|]. apply Z.log2_lt_pow2; lia.
Qed.
Lemma mask_bound p : (0 ≤ property_mask p < 2 ^ (8 * Z.of_nat 2))%Z.
Proof. rewrite /property_mask. cbv zeta. by repeat apply set_flag_bound. Qed.

(** ** Frames are read back as they were written *)

Lemma reads_if {A} mask flag (p : P A) w a dflt :
  (hasProperty mask flag = true → reads p w a) → (hasProperty mask flag = false → a = dflt) →
  reads (read_if mask flag p dflt) (write_if mask flag w) a.
Proof.
  rewrite /read_if /write_if. destruct (hasProperty mask flag); intros Ht Hf; [by apply Ht|].
  rewrite Hf //. apply reads_empty.
Qed.

Definition wf_properties (p : properties) : bool :=
  shorter 256 (ContentType p) && shorter 256 (ContentEncoding p) && wf_table (Headers p) &&
  in_u 1 (DeliveryMode p) && in_u 1 (Priority p) && shorter 256 (CorrelationId p) &&
  shorter 256 (ReplyTo p) && shorter 256 (Expiration p) && shorter 256 (MessageId p) &&
  (in_i 8 (t_unix (Timestamp p)) && bool_decide (t_nsec (Timestamp p) = 0%Z)) &&
  shorter 256 (Type_ p) && shorter 256 (UserId p) && shorter 256 (AppId p) &&
  bool_decide (reserved1 p = "").

Lemma nonempty_false s : nonempty s = false → s = "".
Proof. rewrite /nonempty negb_false_iff. apply bool_decide_eq_true. Qed.

Lemma headers_absent (t : Table) : negb (bool_decide (t = [])) = false → t = [].
Proof. rewrite negb_false_iff. apply bool_decide_eq_true. Qed.
Lemma number_absent z : in_u 1 z = true → bool_decide (0 < z)%Z = false → z = 0%Z.
Proof. intros Hz%bool_decide_eq_true Hn%bool_decide_eq_false. lia. Qed.

Lemma reads_Timestamp t :
  in_i 8 (t_unix t) && bool_decide (t_nsec t = 0%Z) = true → reads readTimestamp (Ok (be 8 (t_unix t))) t.
Proof.
  intros [Hu%bool_decide_eq_true Hn%bool_decide_eq_true]%andb_true_iff.
  eapply reads_bind_last; [by apply (reads_I 7)|]. destruct t; simpl in *. by subst.
Qed.
Lemma time_absent a b : negb (time_eqb a b) = false → a = b.
Proof.
  rewrite negb_false_iff. intros [?%bool_decide_eq_true ?%bool_decide_eq_true]%andb_true_iff. destruct a, b; simpl in *. by subst.
Qed.

Lemma reads_bind_nil {A B} (p : P A) (k : A → P B) w a b :
  reads p w a → reads (k a) (Ok "") b → reads (bindR p k) w b.
Proof.
  intros Hp Hk out rest ->. rewrite (bindR_Ok _ _ _ _ _ (Hp _ _ eq_refl)). by apply (Hk "").
Qed.

(** A property that is present is read back; an absent one has its zero value. *)
Ltac property :=
  apply reads_if; [intros _|];
  [ first [ apply reads_Shortstr, shorter_256; assumption
          | apply reads_Table; assumption
          | eapply reads_U, bool_decide_eq_true_1; eassumption
          | apply reads_Timestamp; assumption ]
  | match goal with
    | H : hasProperty _ ?f = _ |- hasProperty _ ?f = false → _ =>
        rewrite H; eauto using nonempty_false, headers_absent, number_absent, time_absent; fail
    end ].

Lemma reads_properties p :
  wf_properties p = true →
  reads (read_properties (property_mask p)) (write_properties (property_mask p) p) p.
Proof.
  rewrite /wf_properties. intros Hwf. split_wf Hwf.
  destruct (mask_flags p) as (F1 & F2 & F3 & F4 & F5 & F6 & F7 & F8 & F9 & F10 & F11 & F12 & F13 & F14).
  rewrite /read_properties /write_properties. revert F1 F2 F3 F4 F5 F6 F7 F8 F9 F10 F11 F12 F13 F14.
  generalize (property_mask p) => mask F1 F2 F3 F4 F5 F6 F7 F8 F9 F10 F11 F12 F13 F14.
  do 12 (eapply reads_bind; [property|]). eapply reads_bind_nil; [property|].
  eapply reads_bind_last; [rewrite /read_if F14; apply reads_empty|].
  apply bool_decide_eq_true in Hwf0. destruct p; simpl in *. by subst.
Qed.

(** Frames that a peer can send, with numbers of their width. *)
Definition wf_frame (f : frame) : bool :=
  match f with
  | protocolHeader => false
  | methodFrame ch _ _ m =>
      in_u 2 ch && match m with Some m => wf_message m | None => false end
  | heartbeatFrame ch => in_u 2 ch
  | headerFrame ch ClassId weight Size p =>
      in_u 2 ch && in_u 2 ClassId && in_u 2 weight && in_u 8 Size && wf_properties p
  | bodyFrame ch b => in_u 2 ch && shorter (2 ^ 32) b
  end.

(** A frame as the reader fills it in. *)
Definition received (f : frame) : frame :=
  match f with
  | methodFrame ch _ _ (Some m) => methodFrame ch (id m).1 (id m).2 (Some (bare m))
  | f => f
  end.

Lemma id_bound m : in_u 2 (id m).1 = true ∧ in_u 2 (id m).2 = true.
Proof. by destruct m. Qed.

Lemma reads_methodFrame ch size m :
  wf_message m = true →
  reads (parseMethodFrame ch size) (method_payload m) (methodFrame ch (id m).1 (id m).2 (Some (bare m))).
Proof.
  intros Hm. destruct (id_bound m) as [H1 H2].
  eapply reads_bind; [eapply reads_U, bool_decide_eq_true_1, H1|].
  eapply reads_bind; [eapply reads_U, bool_decide_eq_true_1, H2|].
  by eapply reads_bind_last; [apply reads_method|].
Qed.

Lemma reads_headerFrame ch size ClassId weight Size p :
  in_u 2 ClassId = true → in_u 2 weight = true → in_u 8 Size = true → wf_properties p = true →
  reads (parseHeaderFrame ch size) (header_payload ClassId weight Size p)
    (headerFrame ch ClassId weight Size p).
Proof.
  intros H1 H2 H3 Hp.
  eapply reads_bind; [eapply reads_U, bool_decide_eq_true_1, H1|].
  eapply reads_bind; [eapply reads_U, bool_decide_eq_true_1, H2|].
  eapply reads_bind; [eapply reads_U, bool_decide_eq_true_1, H3|].
  eapply reads_bind; [apply reads_U, mask_bound|].
  by eapply reads_bind_last; [apply reads_properties|].
Qed.

(** The envelope of a frame around its payload. *)
Lemma frame_bytes (a b c p e r : string) :
  (a +:+ b +:+ c +:+ p +:+ e) +:+ r = (a +:+ b +:+ c) +:+ (p +:+ (e +:+ r)).
Proof. by rewrite !str_app_assoc. Qed.

Lemma split_at_eq n a b : n = String.length a → split_at n (a +:+ b) = (a, b).
Proof. intros ->. apply split_at_app. Qed.

Lemma be_num_be_small k z : (0 ≤ z < 2 ^ (8 * Z.of_nat k))%Z → be_num 0 (be k z) = z.
Proof. intros Hz. by rewrite be_num_be Z.mod_small. Qed.

Lemma reads_framed typ ch payload f :
  in_u 1 typ = true → in_u 2 ch = true →
  (∀ b, payload = Ok b →
     reads (parse_payload typ ch (Z.of_nat (String.length b) mod 2 ^ 32)) payload f) →
  reads ReadFrame (framed typ ch payload) f.
Proof.
  intros Ht%bool_decide_eq_true Hc%bool_decide_eq_true Hp out rest.
  rewrite /framed. destruct payload as [b|]; [|done]. intros [= <-].
  rewrite writeFrame_be frame_bytes /ReadFrame.
  rewrite (bindR_Ok _ _ _ _ _ (ReadFull_app 7 _ _ _)); [|done].
  rewrite (split_at_eq 1); [|by rewrite be_length]. rewrite (split_at_eq 2); [|by rewrite be_length].
  rewrite (be_num_be_small 1) // (be_num_be_small 2) // /len32 be_num_be Z.mul_0_l Z.add_0_l.
  rewrite (bindR_Ok _ _ _ _ _ (Hp b eq_refl b _ eq_refl)).
  rewrite (bindR_Ok _ _ _ _ _ (ReadFull_app 1 (be 1 frameEnd) rest eq_refl)).
  by rewrite (be_num_be_small 1).
Qed.

Lemma reads_Frame f : wf_frame f = true → reads ReadFrame (write_frame f) (received f).
Proof.
  destruct f as [|ch ? ? [m|]|ch|ch ? ? ? p|ch b]; cbn [wf_frame write_frame received]; intros Hwf;
    split_wf Hwf; try done.
  - apply reads_framed; [done..|]. intros b _. by apply reads_methodFrame.
  - apply reads_framed; [done..|]. intros b [= <-]. apply reads_empty.
  - apply reads_framed; [done..|]. intros b _. by apply reads_headerFrame.
  - apply bool_decide_eq_true in Hwf0. apply reads_framed; [done..|]. intros b' [= <-].
    rewrite Z.mod_small; [|lia]. by eapply reads_bind_last; [by apply reads_ReadFull|].
Qed.

(** Reading a frame ends on any input. *)
Lemma consumes_if {A} flags flag (p : P A) dflt : consumes p → consumes (read_if flags flag p dflt).
Proof. rewrite /read_if. destruct (hasProperty flags flag); auto with amqp. Qed.
#[local] Hint Resolve consumes_if consumes_method : amqp.

Lemma consumes_properties flags : consumes (read_properties flags).
Proof. rewrite /read_properties. consume. Qed.
#[local] Hint Resolve consumes_properties : amqp.

Lemma consumes_payload typ channel size : consumes (parse_payload typ channel size).
Proof.
  rewrite /parse_payload /parseMethodFrame /parseHeaderFrame /parseBodyFrame /parseHeartbeatFrame.
  repeat case_decide; consume.
Qed.
#[local] Hint Resolve consumes_payload : amqp.

Lemma consumes_Frame : consumes ReadFrame.
Proof.
  rewrite /ReadFrame. apply consumes_bindR; [auto with amqp|intros scratch].
  destruct (split_at 1 scratch) as [b0 r]. destruct (split_at 2 r) as [b1 b3].
  apply consumes_bindR; [auto with amqp|intros f]. apply consumes_bindR; [auto with amqp|intros e].
  case_decide; auto with amqp.
Qed.

End AmqpFrame.
