(* ===== verification/AmqpAlloc.v ===== *)
(** * streadway/amqp: channel numbers

    [src/src/github.com/streadway/amqp/allocator.go]: the numbers of open channels
    as the bits of an arbitrary-precision integer, with a rolling index.  It is
    specified by a finite set of numbers in use. *)

From S2P Require Import Prelude.

Module AmqpAlloc.

(** ** The allocator *)
Record allocator := mkAllocator {
  pool : Z;
  last : Z;
  low : Z;
  high : Z;
}.

Definition newAllocator (low high : Z) : allocator := mkAllocator 0 low low high.

Definition set_pool (p : Z) (a : allocator) : allocator := mkAllocator p (last a) (low a) (high a).
Definition set_last (l : Z) (a : allocator) : allocator := mkAllocator (pool a) l (low a) (high a).

Abbreviation MA := (M allocator).

(** [big.Int.Bit] and [big.Int.SetBit] panic on a negative index. *)
Definition negative_bit : crash := Panic "negative bit index".

Definition reserved (n : Z) : MA bool :=
  a ← get;
  if decide (n - low a < 0)%Z then throw negative_bit
  else mret (Z.testbit (pool a) (n - low a)).

Definition reserve (n : Z) : MA bool :=
  r ← reserved n;
  if r : bool then mret false
  else modify (λ a, set_pool (Z.setbit (pool a) (n - low a)) a);; mret true.

Definition release (n : Z) : MA () :=
  a ← get;
  if decide (n - low a < 0)%Z then throw negative_bit
  else modify (λ a, set_pool (Z.clearbit (pool a) (n - low a)) a).

(** [for ; a.last < bound; a.last++ { if a.reserve(a.last) { return a.last, true } }]
    in [n] rounds. *)
Fixpoint scan (n : nat) : MA (option Z) :=
  match n with
  | O => mret None
  | S n =>
      a ← get;
      ok ← reserve (last a);
      if ok : bool then mret (Some (last a))
      else modify (λ a, set_last (last a + 1) a);; scan n
  end.

(** [next]: the two loops run to [high] inclusive and to [wrapped] exclusive. *)
Definition next : MA (Z * bool) :=
  a ← get;
  let wrapped := last a in
  r ← scan (Z.to_nat (high a + 1 - last a));
  match r with
  | Some n => mret (n, true)
  | None =>
      modify (λ a, set_last (low a) a);;
      r ← scan (Z.to_nat (wrapped - low a));
      match r with
      | Some n => mret (n, true)
      | None => mret (0%Z, false)
      end
  end.

(** ** Specification: the set of numbers in use *)

Implicit Types a : allocator.

Definition used a (n : Z) : Prop := (low a ≤ n)%Z ∧ Z.testbit (pool a) (n - low a) = true.

(** The rolling index stays in the range. *)
Definition inv a : Prop := (low a ≤ last a ≤ high a)%Z.

(** The bounds never change, and the index moves only as [scan] moves it. *)
Definition same_bounds a a' : Prop := low a' = low a ∧ high a' = high a.

Lemma wp_reserve n Q C a :
  (low a ≤ n)%Z →
  (used a n → Q false a) →
  (∀ a', ¬ used a n → last a' = last a → same_bounds a a' →
     (∀ m, used a' m ↔ used a m ∨ m = n) → Q true a') →
  wp (reserve n) Q C a.
Proof.
  intros Hn Hin Hout. apply wp_bind, wp_bind, wp_get. case_decide; [lia|]. apply wp_ret.
  destruct (Z.testbit (pool a) (n - low a)) eqn:E; [by apply wp_ret, Hin|].
  apply wp_bind, wp_modify, wp_ret, Hout; [by intros [_ ?]; congruence|done|done|].
  intros m. rewrite /used /=. destruct (Z.eq_dec m n) as [->|Hne].
  - rewrite Z.setbit_eq; [|lia]. naive_solver.
  - destruct (Z_lt_dec m (low a)); [naive_solver lia|]. rewrite Z.setbit_neq; [naive_solver|lia..].
Qed.

Lemma wp_release n Q C a :
  (low a ≤ n)%Z →
  (∀ a', last a' = last a → same_bounds a a' → (∀ m, used a' m ↔ used a m ∧ m ≠ n) → Q tt a') →
  wp (release n) Q C a.
Proof.
  intros Hn HQ. apply wp_bind, wp_get. case_decide; [lia|]. apply wp_modify, HQ; [done..|].
  intros m. rewrite /used /=. destruct (Z.eq_dec m n) as [->|Hne].
  - rewrite Z.clearbit_eq. naive_solver.
  - destruct (Z_lt_dec m (low a)); [naive_solver lia|]. rewrite Z.clearbit_neq; [|lia].
    naive_solver.
Qed.

(** [k] rounds from the index: the first free number, or all of them are taken. *)
Lemma wp_scan k Q C a :
  (low a ≤ last a)%Z →
  (∀ n a', last a ≤ n < last a + Z.of_nat k → last a' = n → same_bounds a a' → ¬ used a n →
     (∀ m, used a' m ↔ used a m ∨ m = n) → Q (Some n) a')%Z →
  ((∀ n, last a ≤ n < last a + Z.of_nat k → used a n)%Z →
     Q None (set_last (last a + Z.of_nat k)%Z a)) →
  wp (scan k) Q C a.
Proof.
  revert a. induction k as [|k IH]; intros a Hl HS HN; simpl.
  { apply wp_ret. destruct a. rewrite /set_last Z.add_0_r /= in HN. apply HN. simpl. lia. }
  apply wp_bind, wp_get, wp_bind, wp_reserve; [done| |].
  - intros Hu. apply wp_bind, wp_modify, IH; cbn [set_last last low high pool]; [lia| |].
    + intros n a' Hn Hl' Hb Hfree Hset. apply HS; [lia|done..].
    + intros Hall. rewrite /set_last /=.
      replace (last a + 1 + Z.of_nat k)%Z with (last a + Z.of_nat (S k))%Z by lia.
      apply HN. intros n Hn. destruct (Z.eq_dec n (last a)) as [->|]; [done|]. apply Hall. lia.
  - intros a' Hfree Hl' Hb Hset. apply wp_ret, HS; [lia|done..].
Qed.

(** [next] finds a free number whenever there is one. *)
Lemma wp_next Q C a :
  inv a →
  (∀ n a', low a ≤ n ≤ high a → inv a' → same_bounds a a' → ¬ used a n →
     (∀ m, used a' m ↔ used a m ∨ m = n) → Q (n, true) a')%Z →
  (∀ a', (∀ n, low a ≤ n ≤ high a → used a n)%Z → inv a' → same_bounds a a' →
     (∀ m, used a' m ↔ used a m) → Q (0%Z, false) a') →
  wp next Q C a.
Proof.
  rewrite /inv. intros Hinv HS HN. apply wp_bind, wp_get, wp_bind, wp_scan; [lia| |].
  - intros n a' Hn Hl [Hlo Hhi] Hfree Hset. apply wp_ret, HS; try done; lia.
  - intros Hhigh. apply wp_bind, wp_modify, wp_bind, wp_scan; cbn [set_last last low high pool]; [lia| |].
    + intros n a' Hn Hl [Hlo Hhi] Hfree Hset. apply wp_ret, HS; try done; simpl in *; lia.
    + intros Hlow. apply wp_ret, HN; cbn [set_last last low high pool]; [|lia|done|done].
      intros n Hn. destruct (Z_lt_dec n (last a)); [apply Hlow|apply Hhigh]; lia.
Qed.

(** ** Refinement: a client's calls against a set *)
Inductive op := Next | Release (n : Z).
Inductive reply := RNext (n : Z) (ok : bool) | RReleased.

Definition do (o : op) : MA reply :=
  match o with
  | Next => r ← next; mret (RNext r.1 r.2)
  | Release n => release n;; mret RReleased
  end.
Fixpoint run (os : list op) : MA (list reply) :=
  match os with
  | [] => mret []
  | o :: os => r ← do o; rs ← run os; mret (r :: rs)
  end.

Section spec.
Context (lo hi : Z).

(** A number that is not in use, as long as there is one. *)
Inductive step : gset Z → op → reply → gset Z → Prop :=
| step_next S n : (lo ≤ n ≤ hi)%Z → n ∉ S → step S Next (RNext n true) ({[n]} ∪ S)
| step_full S : (∀ n, lo ≤ n ≤ hi → n ∈ S)%Z → step S Next (RNext 0 false) S
| step_release S n : step S (Release n) RReleased (S ∖ {[n]}).

Inductive trace : gset Z → list op → list reply → gset Z → Prop :=
| trace_nil S : trace S [] [] S
| trace_cons S o r S1 os rs S2 :
    step S o r S1 → trace S1 os rs S2 → trace S (o :: os) (r :: rs) S2.

Definition rel a (S : gset Z) : Prop :=
  inv a ∧ low a = lo ∧ high a = hi ∧ ∀ n, n ∈ S ↔ used a n.

Definition releasable (o : op) : Prop := match o with Next => True | Release n => (lo ≤ n)%Z end.

Lemma wp_do o a S :
  rel a S → releasable o →
  wp (do o) (λ r a', ∃ S', step S o r S' ∧ rel a' S') (λ _ _, False) a.
Proof.
  intros (Hinv & Hlo & Hhi & HS) Ho. destruct o as [|n]; simpl in Ho; apply wp_bind.
  - apply wp_next; [done|..].
    + intros n a' Hn Hinv' [Hl Hh] Hfree Hset. apply wp_ret. exists ({[n]} ∪ S). split.
      * constructor; [lia|]. by rewrite HS.
      * split_and!; [done|congruence..|]. intros m.
        rewrite elem_of_union elem_of_singleton HS Hset. naive_solver.
    + intros a' Hall Hinv' [Hl Hh] Hset. apply wp_ret. exists S. split.
      * constructor. intros n Hn. apply HS, Hall. lia.
      * split_and!; [done|congruence..|]. intros n. by rewrite HS Hset.
  - apply wp_release; [lia|]. intros a' Hl [Hlo' Hhi'] Hset. apply wp_ret. exists (S ∖ {[n]}).
    split; [constructor|]. split_and!; [rewrite /inv in Hinv |- *; lia|congruence..|].
    intros m. by rewrite elem_of_difference elem_of_singleton HS Hset.
Qed.

Lemma wp_alloc_run os a S :
  rel a S → Forall releasable os →
  wp (run os) (λ rs a', ∃ S', trace S os rs S' ∧ rel a' S') (λ _ _, False) a.
Proof.
  intros Hrel Hos. revert a S Hrel. induction Hos as [|o os Ho Hos IH]; intros a S Hrel; simpl.
  - apply wp_ret. exists S. split; [constructor|done].
  - apply wp_bind. eapply wp_mono; [by apply wp_do| |done]. intros r a1 (S1 & Hstep & Hrel1).
    apply wp_bind. eapply wp_mono; [by apply IH| |done]. intros rs a2 (S2 & Htr & Hrel2).
    apply wp_ret. exists S2. split; [by econstructor|done].
Qed.
End spec.

Lemma rel_new lo hi : (lo ≤ hi)%Z → rel lo hi (newAllocator lo hi) ∅.
Proof.
  intros Hle. split_and!; [by rewrite /inv /=; lia|done..|]. intros n.
  split; [set_solver|]. intros [_ Hn]. by rewrite /= Z.bits_0 in Hn.
Qed.

End AmqpAlloc.
