(* ===== verification/AmqpConfirms.v ===== *)
(** * streadway/amqp: publisher confirmations

    [src/src/github.com/streadway/amqp/confirms.go]: the server may acknowledge
    publishings out of order and several at a time; listeners are to see one
    confirmation per publishing, in order.  Delivery tags are [uint64].  Each
    method holds the mutex, so each is one atomic step; a send to a listener is
    recorded in the order it happens. *)

From S2P Require Import Prelude.

Module AmqpConfirms.

Record Confirmation := mkConfirmation { DeliveryTag : Z; Ack : bool }.

Record confirms := mkConfirms {
  listeners : list nat;
  sequencer : gmap Z Confirmation;
  published : Z;
  expecting : Z;
  (** What each listener was sent, oldest first. *)
  sent : list (nat * Confirmation);
  (** Listener channels that have been closed. *)
  closed : list nat;
}.

Definition newConfirms : confirms := mkConfirms [] ∅ 0 1 [] [].

Abbreviation MF := (M confirms).

Definition uint64 (z : Z) : Z := (z mod 2 ^ 64)%Z.

Definition Listen (l : nat) : MF () :=
  modify (λ c, mkConfirms (listeners c ++ [l]) (sequencer c) (published c) (expecting c) (sent c) (closed c)).

Definition Publish : MF Z :=
  modify (λ c, mkConfirms (listeners c) (sequencer c) (uint64 (published c + 1)) (expecting c) (sent c) (closed c));;
  gets published.

Definition confirm (confirmation : Confirmation) : MF () :=
  modify (λ c, mkConfirms (listeners c) (delete (expecting c) (sequencer c)) (published c)
                 (uint64 (expecting c + 1))
                 (sent c ++ ((λ l, (l, confirmation)) <$> listeners c)) (closed c)).

(** The loop removes an entry of the sequencer in each round, so as many rounds as
    there are entries, and one more to see that there is none, are enough. *)
Fixpoint resequence_go (n : nat) : MF () :=
  match n with
  | O => throw (Panic "out of fuel")
  | S n =>
      c ← get;
      if decide (expecting c ≤ published c)%Z then
        match sequencer c !! expecting c with
        | None => mret tt
        | Some sequenced => confirm sequenced;; resequence_go n
        end
      else mret tt
  end.
Definition resequence : MF () := λ c, resequence_go (S (size (sequencer c))) c.

Definition One (confirmed : Confirmation) : MF () :=
  c ← get;
  (if decide (expecting c = DeliveryTag confirmed) then confirm confirmed
   else modify (λ c, mkConfirms (listeners c) (<[DeliveryTag confirmed := confirmed]> (sequencer c))
                       (published c) (expecting c) (sent c) (closed c)));;
  resequence.

(** [for c.expecting <= tag]: in [n] rounds, or for ever when the counter wraps
    around below the tag. *)
Fixpoint multiple_go (n : nat) (confirmed : Confirmation) : MF () :=
  c ← get;
  if decide (expecting c ≤ DeliveryTag confirmed)%Z then
    match n with
    | O => throw (Fatal "does not return")
    | S n => confirm (mkConfirmation (expecting c) (Ack confirmed));; multiple_go n confirmed
    end
  else mret tt.
Definition Multiple (confirmed : Confirmation) : MF () := λ c,
  multiple_go (Z.to_nat (DeliveryTag confirmed + 1 - expecting c)) confirmed c.

Definition Close : MF () :=
  modify (λ c, mkConfirms [] (sequencer c) (published c) (expecting c) (sent c) (closed c ++ listeners c)).

(** ** In order, once each *)

Implicit Types c : confirms.

(** What listener [l] was sent. *)
Definition seen (l : nat) c : list Confirmation := (filter (λ x, x.1 = l) (sent c)).*2.

(** Tags [1, ..., n]. *)
Definition tags (n : Z) : list Z := Z.of_nat <$> seq 1 (Z.to_nat n).

(** Every listener has seen the tags in order, without gaps, up to the one before
    the next expected; a postponed confirmation is filed under its own tag. *)
Record ordered (l : nat) c : Prop := {
  ord_once : listeners c = [l];
  ord_seen : DeliveryTag <$> seen l c = tags (expecting c - 1);
  ord_filed : ∀ k x, sequencer c !! k = Some x → DeliveryTag x = k;
  ord_pos : (1 ≤ expecting c)%Z;
}.

Lemma tags_snoc n : (0 ≤ n)%Z → tags n ++ [n + 1]%Z = tags (n + 1).
Proof.
  intros Hn. rewrite /tags Z2Nat.inj_add // Nat.add_1_r seq_S fmap_app /=. f_equal. f_equal. lia.
Qed.

Lemma seen_snoc l c x : seen l (mkConfirms [l] (sequencer c) (published c) (expecting c)
    (sent c ++ [(l, x)]) (closed c)) = seen l c ++ [x].
Proof. rewrite /seen /= filter_app filter_cons_True // filter_nil fmap_app //. Qed.

Lemma wp_confirm l x Q C c :
  ordered l c → DeliveryTag x = expecting c → (expecting c < 2 ^ 64 - 1)%Z →
  (∀ c', ordered l c' → expecting c' = (expecting c + 1)%Z → published c' = published c →
     sequencer c' = delete (expecting c) (sequencer c) → seen l c' = seen l c ++ [x] → Q tt c') →
  wp (confirm x) Q C c.
Proof.
  intros [Hl Hs Hf Hp] Hx Hb HQ. apply wp_modify, HQ; simpl.
  - split; simpl.
    + done.
    + rewrite /uint64 Z.mod_small; [|lia]. rewrite Hl.
      pose proof (seen_snoc l c x) as E. rewrite /seen /= in E |- *. rewrite E fmap_app.
      rewrite /seen in Hs. rewrite Hs /= Hx.
      pose proof (tags_snoc (expecting c - 1)) as Ht. rewrite Z.sub_add in Ht.
      rewrite Ht; [f_equal; lia|lia].
    + intros k y [_ Hy]%lookup_delete_Some. by apply Hf.
    + rewrite /uint64 Z.mod_small; lia.
  - rewrite /uint64 Z.mod_small; lia.
  - done.
  - done.
  - pose proof (seen_snoc l c x) as E. by rewrite Hl.
Qed.

(** Nothing that could be passed on is held back. *)
Definition drained c : Prop := (expecting c ≤ published c)%Z → sequencer c !! expecting c = None.

(** The counters have not reached the end of their range. *)
Definition counted c : Prop := (0 ≤ published c < 2 ^ 64 - 1 ∧ expecting c ≤ 2 ^ 64 - 1)%Z.

Lemma wp_resequence l Q C c :
  ordered l c → counted c →
  (∀ c', ordered l c' → counted c' → published c' = published c → drained c' → Q tt c') →
  wp resequence Q C c.
Proof.
  intros Hord Hcnt HQ. rewrite /wp /resequence.
  change (wp (resequence_go (S (size (sequencer c)))) Q C c).
  assert (∀ n c', ordered l c' → counted c' → published c' = published c →
            (size (sequencer c') < n)%nat → wp (resequence_go n) Q C c') as Hgo; [|by apply Hgo; auto].
  induction n as [|n IH]; intros c' Hord' [Hp He] Hpub Hn; [lia|]. simpl.
  apply wp_bind, wp_get. case_decide as Hle; [|apply wp_ret, HQ; [done..|by intros ?]].
  destruct (sequencer c' !! expecting c') as [x|] eqn:Hx; [|apply wp_ret, HQ; [done..|by intros ?]].
  apply wp_bind, (wp_confirm l); [done|by apply (ord_filed _ _ Hord')|lia|].
  intros c2 Hord2 He2 Hp2 Hs2 _. apply IH; [done|rewrite /counted; lia|congruence|].
  assert (size (sequencer c') ≠ 0)%nat by (rewrite map_size_ne_0_lookup; eauto).
  rewrite Hs2 map_size_delete Hx /=. lia.
Qed.

Lemma wp_One l x Q C c :
  ordered l c → counted c → (DeliveryTag x < 2 ^ 64 - 1)%Z →
  (∀ c', ordered l c' → counted c' → published c' = published c → drained c' → Q tt c') →
  wp (One x) Q C c.
Proof.
  intros Hord [Hp He] Hx HQ. apply wp_bind, wp_get, wp_bind. case_decide as Heq.
  - apply (wp_confirm l); [done..|lia|]. intros c1 Hord1 He1 Hp1 _ _.
    apply (wp_resequence l); [done|rewrite /counted; lia|]. intros. apply HQ; [done..|congruence|done].
  - apply wp_modify, (wp_resequence l); [|done|done]. destruct Hord as [Hl Hs Hf Hpos].
    split; [done..| |done]. simpl. intros k y [[<- <-]|[_ Hy]]%lookup_insert_Some; [done|by apply Hf].
Qed.

(** Confirming up to a tag: one confirmation for each publishing that was still
    waiting, all with the same answer. *)
Lemma wp_Multiple l x Q C c :
  ordered l c → counted c → (DeliveryTag x < 2 ^ 64 - 1)%Z →
  (∀ c', ordered l c' → counted c' → published c' = published c →
     expecting c' = (expecting c `max` (DeliveryTag x + 1))%Z → Q tt c') →
  wp (Multiple x) Q C c.
Proof.
  intros Hord Hcnt Hx HQ.
  assert (∀ n c', ordered l c' → counted c' → published c' = published c →
            (expecting c ≤ expecting c' ≤ expecting c `max` (DeliveryTag x + 1))%Z →
            n = Z.to_nat (DeliveryTag x + 1 - expecting c') → wp (multiple_go n x) Q C c') as Hgo;
    [|by apply Hgo; auto with lia].
  induction n as [|n IH]; intros c' Hord' [Hp' He'] Hpub Hexp Hn; simpl; apply wp_bind, wp_get;
    (case_decide; [|apply wp_ret, HQ; [done|done|done|lia]]); [lia|].
  apply wp_bind, (wp_confirm l); [done..|lia|]. intros c2 Hord2 He2 Hp2 _ _.
  apply IH; [done|rewrite /counted; lia|congruence|lia..].
Qed.

Lemma wp_Publish l Q C c :
  ordered l c → counted c → (published c < 2 ^ 64 - 2)%Z →
  (∀ c', ordered l c' → counted c' → published c' = (published c + 1)%Z →
     Q (published c + 1)%Z c') →
  wp Publish Q C c.
Proof.
  intros [Hl Hs Hf Hpos] [Hp He] Hb HQ. apply wp_bind, wp_modify, wp_gets. simpl.
  rewrite /uint64 Z.mod_small; [|lia]. apply HQ; [|rewrite /counted /=; lia|done]. by split.
Qed.

(** ** Every history

    One listener from the start.  A confirmation may arrive before [Publish] has
    counted the message ([Channel.Publish] sends first), and the server may confirm
    whatever it likes; only the end of the counters' range is excluded. *)
Inductive reach (l : nat) : confirms → Prop :=
| reach_listen c : Listen l newConfirms = (Ret tt, c) → reach l c
| reach_publish c n c' :
    reach l c → (published c < 2 ^ 64 - 2)%Z → Publish c = (Ret n, c') → reach l c'
| reach_one c x c' :
    reach l c → (DeliveryTag x < 2 ^ 64 - 1)%Z → One x c = (Ret tt, c') → reach l c'
| reach_multiple c x c' :
    reach l c → (DeliveryTag x < 2 ^ 64 - 1)%Z → Multiple x c = (Ret tt, c') → reach l c'.

Lemma reach_ordered l c : reach l c → ordered l c ∧ counted c.
Proof.
  induction 1 as [c Hc|c n c' _ [Hord Hcnt] Hb Hrun|c x c' _ [Hord Hcnt] Hx Hrun
                 |c x c' _ [Hord Hcnt] Hx Hrun].
  - injection Hc as <-. by split.
  - refine (wp_ret_inv _ (λ _ c', ordered l c' ∧ counted c') (λ _ _, True) _ _ _ _ Hrun).
    by apply (wp_Publish l).
  - refine (wp_ret_inv _ (λ _ c', ordered l c' ∧ counted c') (λ _ _, True) _ _ _ _ Hrun).
    by apply (wp_One l).
  - refine (wp_ret_inv _ (λ _ c', ordered l c' ∧ counted c') (λ _ _, True) _ _ _ _ Hrun).
    by apply (wp_Multiple l).
Qed.

End AmqpConfirms.
