(* ===== verification/AmqpChannel.v ===== *)
(** * streadway/amqp: connections and channels

    [src/src/github.com/streadway/amqp]: [connection.go] (the frames of all channels
    over one transport, channel numbers, tuning, shutdown) and [channel.go] (sending
    a message as frames, putting frames together again, calls).  Channels are
    objects on a heap, because an old [*Channel] can be used after its number was
    given to another one.  What other goroutines observe (sends to Go channels,
    answers to calls) is a list of events; what they answer is an oracle.  Every
    method that holds a mutex is one atomic step; the heartbeater writes its frames while a
    call waits; deadlines and TLS are not modelled. *)

From S2P Require Import Prelude GoStrings AmqpWire AmqpSpec AmqpFrame AmqpAlloc AmqpConfirms.

Module AmqpChannel.
Import AmqpWire AmqpSpec AmqpFrame.

(** ** State *)

(** [Channel.recv]: which kind of frame comes next. *)
Inductive recv_state := recvMethod_state | recvHeader_state | recvContent_state.

(** A [basic.deliver] or [basic.return] as its listener sees it. *)
Record Delivery := mkDelivery {
  d_props : properties;
  d_ConsumerTag : string;
  d_MessageCount : Z;
  d_DeliveryTag : Z;
  d_Redelivered : bool;
  d_Exchange : string;
  d_RoutingKey : string;
  d_Body : string;
}.
Record Return := mkReturn {
  r_ReplyCode : Z;
  r_ReplyText : string;
  r_Exchange : string;
  r_RoutingKey : string;
  r_props : properties;
  r_Body : string;
}.

Record Channel := mkChannel {
  ch_id : Z;
  (** [send] is [sendOpen] (or [sendClosed] after [shutdown]). *)
  ch_open : bool;
  ch_noNotify : bool;
  ch_closes : list nat;
  ch_flows : list nat;
  ch_returns : list nat;
  ch_cancels : list nat;
  ch_confirms : AmqpConfirms.confirms;
  ch_confirming : bool;
  ch_consumers : gset string;
  ch_recv : recv_state;
  (** Current state for frame re-assembly. *)
  ch_message : option message;
  ch_header : option (Z * properties);
  ch_body : string;
}.

Definition newChannel (id : Z) : Channel :=
  mkChannel id true false [] [] [] [] AmqpConfirms.newConfirms false ∅ recvMethod_state None None "".

Definition set_recv (r : recv_state) (c : Channel) : Channel :=
  mkChannel (ch_id c) (ch_open c) (ch_noNotify c) (ch_closes c) (ch_flows c) (ch_returns c) (ch_cancels c)
    (ch_confirms c) (ch_confirming c) (ch_consumers c) r (ch_message c) (ch_header c) (ch_body c).
Definition set_content (m : option message) (h : option (Z * properties)) (b : string) (c : Channel) : Channel :=
  mkChannel (ch_id c) (ch_open c) (ch_noNotify c) (ch_closes c) (ch_flows c) (ch_returns c) (ch_cancels c)
    (ch_confirms c) (ch_confirming c) (ch_consumers c) (ch_recv c) m h b.
Definition set_confirms (x : AmqpConfirms.confirms) (confirming : bool) (c : Channel) : Channel :=
  mkChannel (ch_id c) (ch_open c) (ch_noNotify c) (ch_closes c) (ch_flows c) (ch_returns c) (ch_cancels c)
    x confirming (ch_consumers c) (ch_recv c) (ch_message c) (ch_header c) (ch_body c).
Definition set_consumers (x : gset string) (c : Channel) : Channel :=
  mkChannel (ch_id c) (ch_open c) (ch_noNotify c) (ch_closes c) (ch_flows c) (ch_returns c) (ch_cancels c)
    (ch_confirms c) (ch_confirming c) x (ch_recv c) (ch_message c) (ch_header c) (ch_body c).
(** After [shutdown]: [sendClosed], no consumers, nobody is notified again. *)
Definition set_shut (x : AmqpConfirms.confirms) (c : Channel) : Channel :=
  mkChannel (ch_id c) false true (ch_closes c) (ch_flows c) (ch_returns c) (ch_cancels c)
    x (ch_confirming c) ∅ (ch_recv c) (ch_message c) (ch_header c) (ch_body c).

(** What happens outside the object: a value sent to a listener, a listener
    closed, a message handed to a waiting call. *)
Inductive event :=
| EvError (l : nat) (e : error)
| EvClosed (l : nat)
| EvFlow (l : nat) (active : bool)
| EvCancel (l : nat) (tag : string)
| EvReturn (l : nat) (r : Return)
| EvDeliver (p : nat) (tag : string) (d : Delivery)
| EvRpc (p : option nat) (m : message)
| EvRpcNil (p : nat)
| EvRpcError (p : option nat) (e : error)
| EvBlocked (l : nat) (active : bool) (reason : string).

(** What the [select] of a waiting call receives; [ABeat] is no answer: while the call
    waits, a tick of the heartbeater finds the connection idle. *)
Inductive answer := AError (e : error) | AMessage (m : message) | AClosed | ABeat.

Record Connection := mkConnection {
  c_wire : wire;
  c_FrameSize : Z;
  c_alloc : AmqpAlloc.allocator;
  c_heap : gmap nat Channel;
  c_channels : gmap Z nat;
  c_next : nat;
  c_closes : list nat;
  c_blocks : list nat;
  (** The destructor has run, and the transport is closed. *)
  c_shut : bool;
  (** Shutdowns started in goroutines of their own. *)
  c_spawned : list error;
  (** The reader goroutine waits for an answer that only it could read. *)
  c_stuck : bool;
  c_events : list event;
  c_answers : list answer;
  (** The interval of the heartbeater, in nanoseconds, while its goroutine runs. *)
  c_heart : option Z;
}.

Abbreviation MQ := (M Connection).

Definition set_wire (x : wire) (c : Connection) : Connection :=
  mkConnection x (c_FrameSize c) (c_alloc c) (c_heap c) (c_channels c) (c_next c) (c_closes c) (c_blocks c)
    (c_shut c) (c_spawned c) (c_stuck c) (c_events c) (c_answers c) (c_heart c).
Definition set_registry (a : AmqpAlloc.allocator) (h : gmap nat Channel) (r : gmap Z nat) (n : nat)
    (c : Connection) : Connection :=
  mkConnection (c_wire c) (c_FrameSize c) a h r n (c_closes c) (c_blocks c)
    (c_shut c) (c_spawned c) (c_stuck c) (c_events c) (c_answers c) (c_heart c).
Definition set_heap (h : gmap nat Channel) (c : Connection) : Connection :=
  set_registry (c_alloc c) h (c_channels c) (c_next c) c.
Definition set_state (shut : bool) (spawned : list error) (stuck : bool) (c : Connection) : Connection :=
  mkConnection (c_wire c) (c_FrameSize c) (c_alloc c) (c_heap c) (c_channels c) (c_next c) (c_closes c) (c_blocks c)
    shut spawned stuck (c_events c) (c_answers c) (c_heart c).
Definition set_events (evs : list event) (ans : list answer) (c : Connection) : Connection :=
  mkConnection (c_wire c) (c_FrameSize c) (c_alloc c) (c_heap c) (c_channels c) (c_next c) (c_closes c) (c_blocks c)
    (c_shut c) (c_spawned c) (c_stuck c) evs ans (c_heart c).

Definition set_heart (h : option Z) (c : Connection) : Connection :=
  mkConnection (c_wire c) (c_FrameSize c) (c_alloc c) (c_heap c) (c_channels c) (c_next c) (c_closes c) (c_blocks c)
    (c_shut c) (c_spawned c) (c_stuck c) (c_events c) (c_answers c) h.

Definition emit (evs : list event) : MQ () :=
  modify (λ c, set_events (c_events c ++ evs) (c_answers c) c).

(** Access through a [*Channel]. *)
Definition load (p : nat) : MQ Channel :=
  c ← get; match c_heap c !! p with Some ch => mret ch | None => throw nil_deref end.
Definition update (p : nat) (f : Channel → Channel) : MQ () :=
  modify (λ c, set_heap (alter f p (c_heap c)) c).

(** ** Sending frames *)

Definition FrameError : Z := 501.

(** [Connection.send] *)
Definition send_frame (f : frame) : MQ (option error) :=
  c ← get;
  match WriteFrame f (c_wire c) with
  | (Ret err, w) =>
      modify (set_wire w);;
      match err with
      | Some e =>
          modify (λ c, set_state (c_shut c)
                         (c_spawned c ++ [AmqpError FrameError (error_string e) false false]) (c_stuck c) c);;
          mret (Some e)
      | None => mret None
      end
  | (Crash x, w) => throw x
  end.

Definition frameHeaderSize : Z := 8.

(** [body[i:j]] *)
Definition slice (i j : Z) (body : string) : MQ string :=
  if decide (0 ≤ i ≤ j ∧ j ≤ Z.of_nat (String.length body))%Z
  then mret (split_at (Z.to_nat (j - i)) (split_at (Z.to_nat i) body).2).1
  else throw (Panic "slice bounds out of range").

(** The chunks of a body.  Each round but the last takes [size] bytes, so as many
    rounds as there are bytes are enough, unless [size] is zero. *)
Fixpoint send_body (n : nat) (id size i j : Z) (body : string) : MQ (option error) :=
  if decide (i < Z.of_nat (String.length body))%Z then
    match n with
    | O => throw (Fatal "does not return")
    | S n =>
        let j := if decide (j > Z.of_nat (String.length body))%Z then Z.of_nat (String.length body) else j in
        b ← slice i j body;
        try_then (send_frame (bodyFrame id b)) (send_body n id size j (j + size)%Z body)
    end
  else mret None.

Definition method_frame (id : Z) (m : message) : frame := methodFrame id 0 0 (Some m).

(** The size of a chunk: the largest frame without its envelope. *)
Definition chunk_size (FrameSize : Z) (body : string) : Z :=
  if decide (FrameSize > 0)%Z then (FrameSize - frameHeaderSize)%Z else Z.of_nat (String.length body).

(** [Channel.sendOpen] *)
Definition sendOpen (id : Z) (msg : message) : MQ (option error) :=
  match getContent msg with
  | Some (props, body) =>
      c ← get;
      let size := chunk_size (c_FrameSize c) body in
      try_then (send_frame (method_frame id msg))
        (try_then (send_frame (headerFrame id (AmqpSpec.id msg).1 0 (Z.of_nat (String.length body)) props))
           (send_body (String.length body) id size 0 size body))
  | None => send_frame (method_frame id msg)
  end.

Definition ErrClosed : error := AmqpError 504 "channel/connection is not open" false false.
Definition ErrChannelMax : error := AmqpError 504 "channel id space exhausted" false false.
Definition ErrCommandInvalid : error := AmqpError 503 "unexpected command received" false false.
Definition ErrUnexpectedFrame : error := AmqpError 505 "unexpected frame received" false false.

(** [Channel.sendClosed] *)
Definition sendClosed (id : Z) (msg : message) : MQ (option error) :=
  match msg with
  | channelCloseOk => send_frame (method_frame id msg)
  | _ => mret (Some ErrClosed)
  end.

(** [me.send(me, msg)] *)
Definition send (p : nat) (msg : message) : MQ (option error) :=
  ch ← load p;
  if ch_open ch then sendOpen (ch_id ch) msg else sendClosed (ch_id ch) msg.

(** ** Shutting down *)

(** [isSoftExceptionCode], [newError] *)
Definition isSoftExceptionCode (code : Z) : bool :=
  bool_decide (code ∈ [311; 312; 313; 403; 404; 405; 406]%Z).
Definition newError (code : Z) (text : string) : error :=
  AmqpError code text true (isSoftExceptionCode code).

(** [Channel.shutdown], once. *)
Definition ch_shutdown (p : nat) (e : option error) : MQ () :=
  ch ← load p;
  if ch_noNotify ch then mret tt
  else
    match AmqpConfirms.Close (ch_confirms ch) with
    | (_, confirms) =>
        let broadcast := match e with
                         | Some e => (λ l, EvError l e) <$> ch_closes ch
                         | None => [] end in
        let rpc := match e with Some e => [EvRpcError (Some p) e] | None => [] end in
        emit (broadcast ++ rpc ++
              (EvClosed <$> (ch_closes ch ++ ch_flows ch ++ ch_returns ch ++ ch_cancels ch)));;
        update p (set_shut confirms)
    end.

(** [allocator] methods on the connection's allocator. *)
Definition on_alloc {A} (m : M AmqpAlloc.allocator A) : MQ A := λ c,
  match m (c_alloc c) with
  | (o, a) => (o, set_registry a (c_heap c) (c_channels c) (c_next c) c)
  end.

Definition releaseChannel (id : Z) : MQ () :=
  modify (λ c, set_registry (c_alloc c) (c_heap c) (delete id (c_channels c)) (c_next c) c);;
  on_alloc (AmqpAlloc.release id).

Definition closeChannel (p : nat) (e : option error) : MQ () :=
  ch_shutdown p e;;
  ch ← load p;
  releaseChannel (ch_id ch).

Fixpoint close_all (ps : list nat) (e : option error) : MQ () :=
  match ps with
  | [] => mret tt
  | p :: ps => closeChannel p e;; close_all ps e
  end.

(** [Connection.shutdown], once; a writer on a closed transport fails.  The heartbeater
    has a listener among [closes], and returns. *)
Definition closed_transport : error := OpError "write" "use of closed network connection".
Definition shutdown (e : option error) : MQ () :=
  c ← get;
  if c_shut c then mret tt
  else
    modify (set_state true (c_spawned c) (c_stuck c));;
    emit (match e with Some e => (λ l, EvError l e) <$> c_closes c | None => [] end);;
    close_all ((map_to_list (c_channels c)).*2) e;;
    emit (match e with Some e => [EvRpcError None e] | None => [] end);;
    modify (λ c, set_wire (mkWire (w_sent (c_wire c)) (Some closed_transport) (w_faults (c_wire c))) c);;
    emit (EvClosed <$> (c_closes c ++ c_blocks c));;
    modify (set_heart None).

(** ** Calls *)

(** Are two messages of the same type? *)
Definition same_type (m m' : message) : bool := bool_decide (AmqpSpec.id m = AmqpSpec.id m').

(** The branch of [heartbeater] for a tick at which nothing was sent for an interval:
    it writes a frame, and returns when that fails.  (Which ticks these are is
    [AmqpHeartbeat.heartbeater_step].) *)
Definition heartbeat : MQ () :=
  c ← get;
  match c_heart c with
  | Some interval =>
      if decide (interval > 0)%Z then
        err ← send_frame (heartbeatFrame 0);
        match err with
        | Some _ => modify (set_heart None)
        | None => mret tt
        end
      else mret tt
  | None => mret tt
  end.

(** The next answer, after the heartbeats that are written before it comes. *)
Fixpoint take_answer (ans : list answer) : MQ (option answer) :=
  match ans with
  | [] => mret None
  | ABeat :: ans =>
      modify (λ c, set_events (c_events c) ans c);; heartbeat;; take_answer ans
  | a :: ans => modify (λ c, set_events (c_events c) ans c);; mret (Some a)
  end.
Definition next_answer : MQ (option answer) := c ← get; take_answer (c_answers c).

Definition blocked_forever : crash := Fatal "does not return".

(** The [select] of both kinds of call; [res] are the types that are accepted. *)
Definition await (res : list message) : MQ (result message) :=
  a ← next_answer;
  match a with
  | None | Some ABeat => throw blocked_forever
  | Some (AError e) => mret (Err e)
  | Some AClosed => mret (Err ErrClosed)
  | Some (AMessage m) =>
      if existsb (same_type m) res then mret (Ok m) else mret (Err ErrCommandInvalid)
  end.

(** [Channel.call] *)
Definition call (p : nat) (req : message) (res : list message) : MQ (result (option message)) :=
  err ← send p req;
  match err with
  | Some e => mret (Err e)
  | None => if wait req then m ←? await res; mret (Ok (Some m)) else mret (Ok None)
  end.

(** [Connection.call] with a request. *)
Definition conn_call (req : message) (res : list message) : MQ (result message) :=
  err ← send_frame (method_frame 0 req);
  match err with
  | Some e => mret (Err e)
  | None => await res
  end.

(** ** Receiving *)

(** [newDelivery], [newReturn] *)
Definition newDelivery (m : message) : option Delivery :=
  match m with
  | basicDeliver tag dtag redelivered exchange key props body =>
      Some (mkDelivery props tag 0 dtag redelivered exchange key body)
  | basicGetOk dtag redelivered exchange key count props body =>
      Some (mkDelivery props "" count dtag redelivered exchange key body)
  | _ => None
  end.
Definition newReturn (m : message) : option Return :=
  match m with
  | basicReturn code text exchange key props body => Some (mkReturn code text exchange key props body)
  | _ => None
  end.

(** A method of the channel's [confirms]. *)
Definition on_confirms {A} (p : nat) (m : M AmqpConfirms.confirms A) : MQ A :=
  ch ← load p;
  match m (ch_confirms ch) with
  | (Ret a, x) => update p (set_confirms x (ch_confirming ch));; mret a
  | (Crash c, x) => throw c
  end.

Definition confirmed (p : nat) (tag : Z) (multiple ack : bool) : MQ () :=
  ch ← load p;
  if ch_confirming ch then
    if multiple then on_confirms p (AmqpConfirms.Multiple (AmqpConfirms.mkConfirmation tag ack))
    else on_confirms p (AmqpConfirms.One (AmqpConfirms.mkConfirmation tag ack))
  else mret tt.

(** [Channel.dispatch] *)
Definition dispatch (p : nat) (msg : message) : MQ () :=
  match msg with
  | channelClose ReplyCode ReplyText _ _ =>
      closeChannel p (Some (newError ReplyCode ReplyText));;
      _ ← send p channelCloseOk; mret tt
  | channelFlow Active =>
      ch ← load p;
      emit ((λ l, EvFlow l Active) <$> ch_flows ch);;
      _ ← send p (channelFlowOk Active); mret tt
  | basicCancel ConsumerTag _ =>
      ch ← load p;
      emit ((λ l, EvCancel l ConsumerTag) <$> ch_cancels ch);;
      _ ← send p (basicCancelOk ConsumerTag); mret tt
  | basicReturn _ _ _ _ _ _ =>
      ch ← load p;
      emit (match newReturn msg with
            | Some ret => (λ l, EvReturn l ret) <$> ch_returns ch
            | None => [] end)
  | basicAck DeliveryTag Multiple => confirmed p DeliveryTag Multiple true
  | basicNack DeliveryTag Multiple _ => confirmed p DeliveryTag Multiple false
  | basicDeliver ConsumerTag _ _ _ _ _ _ =>
      ch ← load p;
      if decide (ConsumerTag ∈ ch_consumers ch) then
        emit (match newDelivery msg with Some d => [EvDeliver p ConsumerTag d] | None => [] end)
      else mret tt
  | msg => emit [EvRpc (Some p) msg]
  end.

Definition transition (p : nat) (r : recv_state) : MQ () := update p (set_recv r).

Definition unexpected_frame : crash := Panic "unexpected frame type".

Definition recvMethod (p : nat) (f : frame) : MQ () :=
  match f with
  | methodFrame _ _ _ (Some msg) =>
      match getContent msg with
      | Some _ =>
          ch ← load p;
          update p (set_content (Some msg) (ch_header ch) "");;
          transition p recvHeader_state
      | None => dispatch p msg;; transition p recvMethod_state
      end
  | methodFrame _ _ _ None => emit [EvRpcNil p];; transition p recvMethod_state
  | headerFrame _ _ _ _ _ | bodyFrame _ _ => transition p recvMethod_state
  | _ => throw unexpected_frame
  end.

(** [me.message.setContent(me.header.Properties, me.body); me.dispatch(me.message)] *)
Definition complete (p : nat) : MQ () :=
  ch ← load p;
  match ch_message ch, ch_header ch with
  | Some m, Some (_, props) => dispatch p (setContent props (ch_body ch) m)
  | _, _ => throw nil_deref
  end;;
  transition p recvMethod_state.

Definition recvHeader (p : nat) (f : frame) : MQ () :=
  match f with
  | methodFrame _ _ _ _ => recvMethod p f
  | headerFrame _ _ _ Size props =>
      ch ← load p;
      update p (set_content (ch_message ch) (Some (Size, props)) (ch_body ch));;
      if decide (Size = 0%Z) then complete p else transition p recvContent_state
  | bodyFrame _ _ => transition p recvMethod_state
  | _ => throw unexpected_frame
  end.

Definition recvContent (p : nat) (f : frame) : MQ () :=
  match f with
  | methodFrame _ _ _ _ => recvMethod p f
  | headerFrame _ _ _ _ _ => transition p recvMethod_state
  | bodyFrame _ Body =>
      ch ← load p;
      update p (set_content (ch_message ch) (ch_header ch) (ch_body ch +:+ Body));;
      match ch_header ch with
      | None => throw nil_deref
      | Some (Size, _) =>
          if decide (Size ≤ Z.of_nat (String.length (ch_body ch +:+ Body)))%Z then complete p
          else transition p recvContent_state
      end
  | _ => throw unexpected_frame
  end.

(** [channel.recv(channel, f)] *)
Definition recv (p : nat) (f : frame) : MQ () :=
  ch ← load p;
  match ch_recv ch with
  | recvMethod_state => recvMethod p f
  | recvHeader_state => recvHeader p f
  | recvContent_state => recvContent p f
  end.

(** [closeWith], called by the reader goroutine: when the close frame is sent it
    waits for an answer. *)
Definition closeWith (err : error) : MQ () :=
  let '(code, reason) := match err with AmqpError c r _ _ => (c, r) | _ => (0%Z, "") end in
  e ← send_frame (method_frame 0 (connectionClose (code mod 2 ^ 16)%Z reason 0 0));
  match e with
  | Some _ => shutdown (Some err)
  | None => modify (λ c, set_state (c_shut c) (c_spawned c) true c)
  end.

Definition dispatch0 (f : frame) : MQ () :=
  match f with
  | methodFrame _ _ _ (Some m) =>
      match m with
      | connectionClose ReplyCode ReplyText _ _ =>
          _ ← send_frame (method_frame 0 connectionCloseOk);
          shutdown (Some (newError ReplyCode ReplyText))
      | connectionBlocked Reason => c ← get; emit ((λ l, EvBlocked l true Reason) <$> c_blocks c)
      | connectionUnblocked => c ← get; emit ((λ l, EvBlocked l false "") <$> c_blocks c)
      | m => emit [EvRpc None m]
      end
  | heartbeatFrame _ => mret tt
  | _ => closeWith ErrUnexpectedFrame
  end.

Definition dispatchClosed (channel : Z) (f : frame) : MQ () :=
  match f with
  | methodFrame _ _ _ (Some m) =>
      match m with
      | channelClose _ _ _ _ => _ ← send_frame (method_frame channel channelCloseOk); mret tt
      | channelCloseOk => mret tt
      | _ => closeWith ErrClosed
      end
  | _ => mret tt
  end.

Definition dispatchN (f : frame) : MQ () :=
  channel ← AmqpFrame.channel f;
  c ← get;
  match c_channels c !! channel with
  | Some p => recv p f
  | None => dispatchClosed channel f
  end.

Definition demux (f : frame) : MQ () :=
  channel ← AmqpFrame.channel f;
  if decide (channel = 0%Z) then dispatch0 f else dispatchN f.

(** [Connection.reader] on the bytes the peer has sent: every frame takes at least
    its envelope, so fewer rounds than there are bytes are enough.  A frame that
    cannot be read ends the connection. *)
Fixpoint reader_go (n : nat) (s : string) : MQ () :=
  match n with
  | O => throw (Panic "out of fuel")
  | S n =>
      match ReadFrame s with
      | (Ret (Ok f), rest) =>
          demux f;;
          c ← get;
          if c_stuck c then mret tt else reader_go n rest
      | (Ret (Err e), rest) => shutdown (Some (AmqpError FrameError (error_string e) false false))
      | (Crash x, rest) => throw x
      end
  end.
Definition reader (s : string) : MQ () := reader_go (S (String.length s)) s.

(** ** Channel numbers *)

Definition allocateChannel : MQ (result nat) :=
  r ← on_alloc AmqpAlloc.next;
  match r with
  | (_, false) => mret (Err ErrChannelMax)
  | (id, true) =>
      let id := (id mod 2 ^ 16)%Z in
      c ← get;
      let p := c_next c in
      modify (λ c, set_registry (c_alloc c) (<[p := newChannel id]> (c_heap c))
                     (<[id := p]> (c_channels c)) (S p) c);;
      mret (Ok p)
  end.

(** [openChannel], [Connection.Channel] *)
Definition openChannel : MQ (result nat) :=
  p ←? allocateChannel;
  _ ←? call p (channelOpen "") [channelOpenOk ""];
  mret (Ok p).

(** [Channel.Close] *)
Definition Close (p : nat) : MQ (option error) :=
  r ← call p (channelClose 200 "" 0 0) [channelCloseOk];
  closeChannel p None;;
  mret (match r with Ok _ => None | Err e => Some e end).

(** [Connection.Close] *)
Definition conn_Close : MQ (option error) :=
  r ← conn_call (connectionClose 200 "kthxbai" 0 0) [connectionCloseOk];
  shutdown None;;
  mret (match r with Ok _ => None | Err e => Some e end).

(** ** Tuning *)

Definition max (a b : Z) : Z := if decide (a > b)%Z then a else b.
Definition min (a b : Z) : Z := if decide (a < b)%Z then a else b.
Definition pick (client server : Z) : Z :=
  if decide (client = 0 ∨ server = 0)%Z then max client server else min client server.

Definition maxChannelMax : Z := 65535.
Definition defaultChannelMax : Z := maxChannelMax.

(** The numbers [openTune] settles on: channels, frame size, heartbeat in seconds. *)
Definition tuned (ChannelMax FrameSize Heartbeat : Z) (tune_ChannelMax tune_FrameMax tune_Heartbeat : Z) :
    Z * Z * Z :=
  let cm := pick ChannelMax tune_ChannelMax in
  let cm := if decide (cm = 0%Z) then defaultChannelMax else cm in
  (min cm maxChannelMax, pick FrameSize tune_FrameMax, pick Heartbeat tune_Heartbeat).

(** [openComplete] *)
Definition openComplete (ChannelMax : Z) : AmqpAlloc.allocator := AmqpAlloc.newAllocator 1 ChannelMax.

(** ** The methods of a channel *)

(** [if err := args.Validate(); err != nil { return err }] *)
Definition validated {A} (args : Table) (k : MQ (result A)) : MQ (result A) :=
  match Validate args with
  | Some err => mret (Err (ErrorS err))
  | None => k
  end.
(** [return me.call(req, res)] *)
Definition called (p : nat) (req : message) (res : message) : MQ (result ()) :=
  _ ←? call p req [res]; mret (Ok tt).

Record Queue := mkQueue { q_Name : string; q_Messages : Z; q_Consumers : Z }.

Definition Qos (p : nat) (prefetchCount prefetchSize : Z) (global : bool) : MQ (result ()) :=
  called p (basicQos (prefetchSize mod 2 ^ 32) (prefetchCount mod 2 ^ 16) global)%Z basicQosOk.

Definition consumer_close (p : nat) (tag : string) : MQ () :=
  update p (λ ch, set_consumers (ch_consumers ch ∖ {[tag]}) ch).

Definition Cancel (p : nat) (consumer : string) (noWait : bool) : MQ (result ()) :=
  r ←? call p (basicCancel consumer noWait) [basicCancelOk ""];
  match r with
  | Some (basicCancelOk ConsumerTag) => consumer_close p ConsumerTag;; mret (Ok tt)
  | _ => consumer_close p consumer;; mret (Ok tt)
  end.

(** [QueueDeclare] and [QueueDeclarePassive] differ in one flag. *)
Definition queue_declare (passive : bool) (p : nat) (name : string)
    (durable autoDelete exclusive noWait : bool) (args : Table) : MQ (result Queue) :=
  validated args
    (r ←? call p (queueDeclare 0 name passive durable exclusive autoDelete noWait args)
            [queueDeclareOk "" 0 0];
     match r with
     | Some (queueDeclareOk Queue MessageCount ConsumerCount) =>
         mret (Ok (mkQueue Queue MessageCount ConsumerCount))
     | _ => mret (Ok (mkQueue name 0 0))
     end).
Definition QueueDeclare := queue_declare false.
Definition QueueDeclarePassive := queue_declare true.

Definition QueueInspect (p : nat) (name : string) : MQ (Queue * option error) :=
  r ← call p (queueDeclare 0 name true false false false false []) [queueDeclareOk "" 0 0];
  match r with
  | Ok (Some (queueDeclareOk _ MessageCount ConsumerCount)) =>
      mret (mkQueue name MessageCount ConsumerCount, None)
  | Ok _ => mret (mkQueue name 0 0, None)
  | Err e => mret (mkQueue name 0 0, Some e)
  end.

Definition QueueBind (p : nat) (name key exchange : string) (noWait : bool) (args : Table) :
    MQ (result ()) :=
  validated args (called p (queueBind 0 name exchange key noWait args) queueBindOk).
Definition QueueUnbind (p : nat) (name key exchange : string) (args : Table) : MQ (result ()) :=
  validated args (called p (queueUnbind 0 name exchange key args) queueUnbindOk).

Definition QueuePurge (p : nat) (name : string) (noWait : bool) : MQ (Z * option error) :=
  r ← call p (queuePurge 0 name noWait) [queuePurgeOk 0];
  match r with
  | Ok (Some (queuePurgeOk MessageCount)) => mret (MessageCount, None)
  | Ok _ => mret (0%Z, None)
  | Err e => mret (0%Z, Some e)
  end.
Definition QueueDelete (p : nat) (name : string) (ifUnused ifEmpty noWait : bool) : MQ (Z * option error) :=
  r ← call p (queueDelete 0 name ifUnused ifEmpty noWait) [queueDeleteOk 0];
  match r with
  | Ok (Some (queueDeleteOk MessageCount)) => mret (MessageCount, None)
  | Ok _ => mret (0%Z, None)
  | Err e => mret (0%Z, Some e)
  end.

(** [Consume]; [tag] is what [uniqueConsumerTag] would give. *)
Definition Consume (p : nat) (tag queue consumer : string) (autoAck exclusive noLocal noWait : bool)
    (args : Table) : MQ (result ()) :=
  validated args
    (let consumer := if decide (consumer = "") then tag else consumer in
     update p (λ ch, set_consumers ({[consumer]} ∪ ch_consumers ch) ch);;
     r ← call p (basicConsume 0 queue consumer noLocal autoAck exclusive noWait args) [basicConsumeOk ""];
     match r with
     | Err e => consumer_close p consumer;; mret (Err e)
     | Ok _ => mret (Ok tt)
     end).

Definition exchange_declare (passive : bool) (p : nat) (name kind : string)
    (durable autoDelete internal noWait : bool) (args : Table) : MQ (result ()) :=
  validated args
    (called p (exchangeDeclare 0 name kind passive durable autoDelete internal noWait args)
       exchangeDeclareOk).
Definition ExchangeDeclare := exchange_declare false.
Definition ExchangeDeclarePassive := exchange_declare true.
Definition ExchangeDelete (p : nat) (name : string) (ifUnused noWait : bool) : MQ (result ()) :=
  called p (exchangeDelete 0 name ifUnused noWait) exchangeDeleteOk.
Definition ExchangeBind (p : nat) (destination key source : string) (noWait : bool) (args : Table) :
    MQ (result ()) :=
  validated args (called p (exchangeBind 0 destination source key noWait args) exchangeBindOk).
Definition ExchangeUnbind (p : nat) (destination key source : string) (noWait : bool) (args : Table) :
    MQ (result ()) :=
  validated args (called p (exchangeUnbind 0 destination source key noWait args) exchangeUnbindOk).

(** [Publish]; a [Publishing] is its properties (without the reserved one) and
    its body. *)
Definition Publish (p : nat) (exchange key : string) (mandatory immediate : bool)
    (props : properties) (body : string) : MQ (option error) :=
  match Validate (Headers props) with
  | Some err => mret (Some (ErrorS err))
  | None =>
      try_then (send p (basicPublish 0 exchange key mandatory immediate props body))
        (ch ← load p;
         if ch_confirming ch then _ ← on_confirms p AmqpConfirms.Publish; mret None else mret None)
  end.

Definition Get (p : nat) (queue : string) (autoAck : bool) : MQ (result (option Delivery)) :=
  r ←? call p (basicGet 0 queue autoAck)
         [basicGetOk 0 false "" "" 0 zero_properties ""; basicGetEmpty ""];
  match r with
  | Some (basicGetOk dtag _ _ _ _ _ _ as m) =>
      if decide (dtag > 0)%Z then mret (Ok (newDelivery m)) else mret (Ok None)
  | _ => mret (Ok None)
  end.

Definition Tx (p : nat) : MQ (result ()) := called p txSelect txSelectOk.
Definition TxCommit (p : nat) : MQ (result ()) := called p txCommit txCommitOk.
Definition TxRollback (p : nat) : MQ (result ()) := called p txRollback txRollbackOk.
Definition Flow (p : nat) (active : bool) : MQ (result ()) :=
  called p (channelFlow active) (channelFlowOk false).
Definition Confirm (p : nat) (noWait : bool) : MQ (result ()) :=
  _ ←? called p (confirmSelect noWait) confirmSelectOk;
  update p (λ ch, set_confirms (ch_confirms ch) true ch);; mret (Ok tt).
Definition Recover (p : nat) (requeue : bool) : MQ (result ()) :=
  called p (basicRecover requeue) basicRecoverOk.
Definition Ack (p : nat) (tag : Z) (multiple : bool) : MQ (option error) :=
  send p (basicAck tag multiple).
Definition Nack (p : nat) (tag : Z) (multiple requeue : bool) : MQ (option error) :=
  send p (basicNack tag multiple requeue).
Definition Reject (p : nat) (tag : Z) (requeue : bool) : MQ (option error) :=
  send p (basicReject tag requeue).

End AmqpChannel.
