(* ===== verification/AmqpConsumers.v ===== *)
(** * streadway/amqp: consumers

    [src/src/github.com/streadway/amqp/consumers.go]: every consumer of a channel has a
    goroutine, [bufferDeliveries], that takes deliveries from the connection's reader
    and hands them to the Go channel the application receives from.  The goroutine is a
    machine with a program counter; its two Go channels are explicit (the one it
    receives from is unbuffered, so that a send is a rendezvous).  The registry
    [consumers] maps tags to goroutines; its methods hold a mutex and are one step
    each.  The specification is a registry of unbounded FIFO queues. *)

From S2P Require Import Prelude GoStrings AmqpWire AmqpSpec AmqpFrame AmqpAlloc AmqpConfirms AmqpChannel.

Module AmqpConsumers.
Import AmqpChannel.

(** ** The goroutine *)

(** A Go channel and the goroutine that receives from it: what is buffered, whether
    the receiver is blocked in a receive, whether it is closed. *)
Record gochan := mkChan {
  o_cap : nat;
  o_buf : list Delivery;
  o_waiting : bool;
  o_closed : bool;
}.
Definition make_chan (cap : nat) : gochan := mkChan cap [] false false.

(** Where [bufferDeliveries] is: at [range in], at the first [select] with a delivery,
    in the inner loop, or past the end. *)
Inductive pc := Ranging | Trying (d : Delivery) | Draining | Done.

Record goroutine := mkGo {
  g_pc : pc;
  g_queue : list Delivery;
  (** [close(in)] has been called *)
  g_in_closed : bool;
  (** [queueIn != nil] *)
  g_queueIn : bool;
  g_out : gochan;
}.
Definition bufferDeliveries_start (out : gochan) : goroutine := mkGo Ranging [] false true out.

(** What the application observes. *)
Inductive obs := OTau | ORecv (d : Delivery) | OEnd.

(** A send on [out]: possible when the receiver waits or there is room. *)
Definition can_send (o : gochan) : bool := o_waiting o || bool_decide (length (o_buf o) < o_cap o)%nat.
Definition chan_send (d : Delivery) (o : gochan) : obs * gochan :=
  if o_waiting o then (ORecv d, mkChan (o_cap o) (o_buf o) false (o_closed o))
  else (OTau, mkChan (o_cap o) (o_buf o ++ [d]) false (o_closed o)).

(** The test of the inner loop. *)
Definition loop_pc (queue : list Delivery) : pc := match queue with [] => Ranging | _ => Draining end.

(** The steps of the goroutine: the first [select], a send of the inner [select], a
    receive that finds [in] closed; and of the application: a receive that blocks, one
    that takes a buffered value, one that finds the channel closed. *)
Inductive gact := ATry | APut | AInClosed | AWait | ATake | AEnd.
Definition app_act (a : gact) : bool := match a with AWait | ATake | AEnd => true | _ => false end.

Definition bufferDeliveries_step (a : gact) (g : goroutine) : option (obs * goroutine) :=
  let o := g_out g in
  match a, g_pc g with
  | ATry, Trying d =>
      if can_send o then
        let '(x, o) := chan_send d o in
        Some (x, mkGo (loop_pc (g_queue g)) (g_queue g) (g_in_closed g) (g_queueIn g) o)
      else
        let queue := g_queue g ++ [d] in
        Some (OTau, mkGo (loop_pc queue) queue (g_in_closed g) (g_queueIn g) o)
  | APut, Draining =>
      match g_queue g with
      | d :: queue =>
          if can_send o then
            let '(x, o) := chan_send d o in
            Some (x, mkGo (loop_pc queue) queue (g_in_closed g) (g_queueIn g) o)
          else None
      | [] => None
      end
  | AInClosed, Draining =>
      if g_in_closed g && g_queueIn g
      then Some (OTau, mkGo Draining (g_queue g) true false o) else None
  | AInClosed, Ranging =>
      if g_in_closed g
      then Some (if o_waiting o then OEnd else OTau,
                 mkGo Done (g_queue g) true (g_queueIn g) (mkChan (o_cap o) (o_buf o) false true))
      else None
  | AWait, _ =>
      if decide (o_buf o = [] ∧ o_waiting o = false ∧ o_closed o = false)
      then Some (OTau, mkGo (g_pc g) (g_queue g) (g_in_closed g) (g_queueIn g)
                         (mkChan (o_cap o) [] true false))
      else None
  | ATake, _ =>
      match o_buf o with
      | d :: buf =>
          if o_waiting o then None
          else Some (ORecv d, mkGo (g_pc g) (g_queue g) (g_in_closed g) (g_queueIn g)
                                (mkChan (o_cap o) buf false (o_closed o)))
      | [] => None
      end
  | AEnd, _ =>
      if decide (o_buf o = [] ∧ o_waiting o = false ∧ o_closed o = true) then Some (OEnd, g) else None
  | _, _ => None
  end.

(** [in <- d] with the goroutine at a receive; [None] while it is not. *)
Definition bufferDeliveries_accept (d : Delivery) (g : goroutine) : option goroutine :=
  match g_pc g with
  | Ranging => Some (mkGo (Trying d) (g_queue g) (g_in_closed g) (g_queueIn g) (g_out g))
  | Draining =>
      if g_queueIn g
      then Some (mkGo Draining (g_queue g ++ [d]) (g_in_closed g) (g_queueIn g) (g_out g)) else None
  | _ => None
  end.
Definition close_in (g : goroutine) : goroutine :=
  mkGo (g_pc g) (g_queue g) true (g_queueIn g) (g_out g).

(** ** The registry *)
Record consumers := mkConsumers {
  cs_chans : gmap string nat;
  cs_bufs : gmap nat goroutine;
  cs_next : nat;
}.
Definition makeConsumers : consumers := mkConsumers ∅ ∅ 0.
Abbreviation MC := (M consumers).

(** [close(ch)] *)
Definition close_chan (p : nat) : MC () :=
  s ← get;
  match cs_bufs s !! p with
  | None => throw nil_deref
  | Some g =>
      if g_in_closed g then throw (Panic "close of closed channel")
      else modify (λ s, mkConsumers (cs_chans s) (<[p := close_in g]> (cs_bufs s)) (cs_next s))
  end.

(** [add]; the consumer's channel is new and has room for [cap] values. *)
Definition add (tag : string) (cap : nat) : MC () :=
  s ← get;
  (match cs_chans s !! tag with Some prev => close_chan prev | None => mret tt end);;
  modify (λ s, mkConsumers (<[tag := cs_next s]> (cs_chans s))
                 (<[cs_next s := bufferDeliveries_start (make_chan cap)]> (cs_bufs s)) (S (cs_next s))).

Definition close (tag : string) : MC bool :=
  s ← get;
  match cs_chans s !! tag with
  | Some ch =>
      modify (λ s, mkConsumers (delete tag (cs_chans s)) (cs_bufs s) (cs_next s));;
      close_chan ch;; mret true
  | None => mret false
  end.

Fixpoint close_each (ps : list nat) : MC () :=
  match ps with [] => mret tt | p :: ps => close_chan p;; close_each ps end.
Definition closeAll : MC () :=
  s ← get;
  close_each ((map_to_list (cs_chans s)).*2);;
  modify (λ s, mkConsumers ∅ (cs_bufs s) (cs_next s)).

(** [send]: [None] while the goroutine is not at a receive and the send blocks. *)
Definition send (tag : string) (msg : Delivery) : MC (option bool) :=
  s ← get;
  match cs_chans s !! tag with
  | None => mret (Some false)
  | Some p =>
      match cs_bufs s !! p with
      | None => throw nil_deref
      | Some g =>
          if g_in_closed g then throw (Panic "send on closed channel")
          else match bufferDeliveries_accept msg g with
               | None => mret None
               | Some g => modify (λ s, mkConsumers (cs_chans s) (<[p := g]> (cs_bufs s)) (cs_next s));;
                           mret (Some true)
               end
      end
  end.

(** [uniqueConsumerTag] in a process named [arg0] after [seq] tags. *)
Definition uniqueConsumerTag (arg0 : string) (seq : Z) : string * Z :=
  let seq := ((seq + 1) mod 2 ^ 64)%Z in ("ctag-" +:+ arg0 +:+ "-" +:+ pretty seq, seq).

(** ** Runs: calls of the methods and steps of the goroutines, in any order. *)
Inductive cact :=
| CAdd (tag : string) (cap : nat)
| CClose (tag : string)
| CCloseAll
| CSend (tag : string) (d : Delivery)
| CGo (p : nat) (a : gact).

(** What a step shows: the value a method returns, or what a goroutine does. *)
Inductive cobs := RUnit | RBool (b : bool) | RBlocked | RObs (p : nat) (x : obs).

Definition cstep (a : cact) : MC (option cobs) :=
  match a with
  | CAdd tag cap => add tag cap;; mret (Some RUnit)
  | CClose tag => b ← close tag; mret (Some (RBool b))
  | CCloseAll => closeAll;; mret (Some RUnit)
  | CSend tag d => r ← send tag d; mret (Some (match r with Some b => RBool b | None => RBlocked end))
  | CGo p a =>
      s ← get;
      match cs_bufs s !! p with
      | Some g =>
          match bufferDeliveries_step a g with
          | Some (x, g) =>
              modify (λ s, mkConsumers (cs_chans s) (<[p := g]> (cs_bufs s)) (cs_next s));;
              mret (Some (RObs p x))
          | None => mret None
          end
      | None => mret None
      end
  end.

Inductive reachable : consumers → Prop :=
| reach_start : reachable makeConsumers
| reach_step s a o s' : reachable s → cstep a s = (o, s') → reachable s'.

(** ** Specification: a registry of unbounded queues *)
Record spec := mkSpec {
  sp_tags : gmap string nat;
  sp_queues : gmap nat (list Delivery * bool);
  sp_next : nat;
}.

Definition shut (q : list Delivery * bool) : list Delivery * bool := (q.1, true).
Definition spec_close (p : option nat) (q : gmap nat (list Delivery * bool)) : gmap nat (list Delivery * bool) :=
  match p with Some p => alter shut p q | None => q end.

(** What each step means: a receive takes the oldest value, the end is seen when
    the queue is closed and empty, everything else is invisible. *)
Inductive spec_step : cact → cobs → spec → spec → Prop :=
| sp_add tag cap s :
    spec_step (CAdd tag cap) RUnit s
      (mkSpec (<[tag := sp_next s]> (sp_tags s))
         (<[sp_next s := ([], false)]> (spec_close (sp_tags s !! tag) (sp_queues s))) (S (sp_next s)))
| sp_close tag s :
    spec_step (CClose tag) (RBool (bool_decide (is_Some (sp_tags s !! tag)))) s
      (mkSpec (delete tag (sp_tags s)) (spec_close (sp_tags s !! tag) (sp_queues s)) (sp_next s))
| sp_closeAll s :
    spec_step CCloseAll RUnit s
      (mkSpec ∅ (map_imap (λ p q, Some (if decide (p ∈ (map_to_list (sp_tags s)).*2) then shut q else q))
                   (sp_queues s)) (sp_next s))
| sp_send tag d p s :
    sp_tags s !! tag = Some p →
    spec_step (CSend tag d) (RBool true) s
      (mkSpec (sp_tags s) (alter (λ q, (q.1 ++ [d], q.2)) p (sp_queues s)) (sp_next s))
| sp_unknown tag d s :
    sp_tags s !! tag = None → spec_step (CSend tag d) (RBool false) s s
| sp_blocked tag d s : spec_step (CSend tag d) RBlocked s s
| sp_internal p a s : spec_step (CGo p a) (RObs p OTau) s s
| sp_recv p a d q c s :
    sp_queues s !! p = Some (d :: q, c) →
    spec_step (CGo p a) (RObs p (ORecv d)) s (mkSpec (sp_tags s) (<[p := (q, c)]> (sp_queues s)) (sp_next s))
| sp_end p a s :
    sp_queues s !! p = Some ([], true) → spec_step (CGo p a) (RObs p OEnd) s s.

(** ** The queue a goroutine implements *)
Definition pending (x : pc) : list Delivery := match x with Trying d => [d] | _ => [] end.
Definition contents (g : goroutine) : list Delivery := o_buf (g_out g) ++ pending (g_pc g) ++ g_queue g.
Definition abs_go (g : goroutine) : list Delivery * bool := (contents g, g_in_closed g).
Definition abs (s : consumers) : spec := mkSpec (cs_chans s) (abs_go <$> cs_bufs s) (cs_next s).

Definition is_done (x : pc) : bool := match x with Done => true | _ => false end.
Definition go_inv (g : goroutine) : Prop :=
  (match g_pc g with Draining => g_queue g ≠ [] | _ => g_queue g = [] end) ∧
  o_closed (g_out g) = is_done (g_pc g) ∧
  (o_waiting (g_out g) = true → o_buf (g_out g) = []) ∧
  (g_queueIn g = false → g_in_closed g = true) ∧
  (is_done (g_pc g) = true → g_in_closed g = true).

(** Every registered goroutine is there, open, and registered once. *)
Definition inv (s : consumers) : Prop :=
  (∀ p g, cs_bufs s !! p = Some g → go_inv g ∧ (p < cs_next s)%nat) ∧
  (∀ tag p, cs_chans s !! tag = Some p → ∃ g, cs_bufs s !! p = Some g ∧ g_in_closed g = false) ∧
  (∀ tag tag' p, cs_chans s !! tag = Some p → cs_chans s !! tag' = Some p → tag = tag').

Lemma go_inv_start cap : go_inv (bufferDeliveries_start (make_chan cap)).
Proof. repeat split; done. Qed.
Lemma go_inv_close g : go_inv g → go_inv (close_in g).
Proof. intros (H1 & H2 & H3 & H4 & H5). by split_and!. Qed.
Lemma go_inv_accept d g g' :
  go_inv g → g_in_closed g = false → bufferDeliveries_accept d g = Some g' →
  go_inv g' ∧ contents g' = contents g ++ [d] ∧ g_in_closed g' = false.
Proof.
  destruct g as [p q ic qi o]. rewrite /go_inv /contents. intros (H1 & H2 & H3 & H4 & H5) Hc. simpl in *.
  destruct p, qi; try done; intros [= <-]; simplify_eq/=; rewrite ?app_nil_r -?app_assoc;
    split_and!; try done; try (by intros [_ ?]%app_eq_nil); by specialize (H4 eq_refl).
Qed.

(** A step of the goroutine or of the application is a step of the queue. *)
Lemma go_inv_step a g x g' :
  go_inv g → bufferDeliveries_step a g = Some (x, g') →
  go_inv g' ∧ g_in_closed g' = g_in_closed g ∧
  match x with
  | OTau => contents g' = contents g
  | ORecv d => contents g = d :: contents g'
  | OEnd => contents g = [] ∧ contents g' = [] ∧ g_in_closed g = true
  end.
Proof.
  destruct g as [p q ic qi [cap buf wt cl]]. rewrite /go_inv /contents. intros (H1 & H2 & H3 & H4 & H5).
  simpl in *. destruct wt; [specialize (H3 eq_refl) as ->|clear H3].
  all: destruct a, p; try done; rewrite /= /chan_send /can_send /=; simplify_eq/=.
  all: repeat match goal with
    | |- context [if ?b then _ else _] => destruct b eqn:?
    | |- context [match ?l with [] => _ | _ :: _ => _ end] => destruct l eqn:?
    end; try done; intros; simplify_eq/=; destruct_and?; simplify_eq/=; rewrite ?app_nil_r -?app_assoc /=;
    split_and!; try done; auto.
  all: try (by destruct l).
  all: by match goal with H : _ && _ = true |- _ => apply andb_true_iff in H as [-> _] end.
Qed.

(** ** The registry keeps its invariant *)

(** Replacing one goroutine by another in the same state of its input. *)
Lemma inv_update s p g g' :
  inv s → cs_bufs s !! p = Some g → go_inv g' → g_in_closed g' = g_in_closed g →
  inv (mkConsumers (cs_chans s) (<[p := g']> (cs_bufs s)) (cs_next s)).
Proof.
  intros (H1 & H2 & H3) Hp Hg Hc. split_and!; simpl; [| |done].
  - intros p' g''. rewrite lookup_insert. case_decide; [|apply H1].
    intros [= <-]. subst. split; [done|]. by eapply H1.
  - intros tag p' (g'' & Hp' & Hc')%H2. rewrite lookup_insert. case_decide; [|eauto].
    subst. exists g'. split; [done|]. rewrite Hc. congruence.
Qed.

(** Closing goroutines that are no longer registered. *)
Definition shut_bufs (ps : list nat) (m : gmap nat goroutine) : gmap nat goroutine :=
  map_imap (λ p g, Some (if decide (p ∈ ps) then close_in g else g)) m.
Lemma lookup_shut_bufs ps m p :
  shut_bufs ps m !! p = (λ g, if decide (p ∈ ps) then close_in g else g) <$> m !! p.
Proof. rewrite /shut_bufs map_lookup_imap. by destruct (m !! p). Qed.

Lemma wp_close_chan p g s Q C :
  cs_bufs s !! p = Some g → g_in_closed g = false →
  Q tt (mkConsumers (cs_chans s) (shut_bufs [p] (cs_bufs s)) (cs_next s)) → wp (close_chan p) Q C s.
Proof.
  intros Hp Hc HQ. rewrite /close_chan. apply wp_bind, wp_get. rewrite Hp Hc. apply wp_modify.
  replace (<[p := close_in g]> (cs_bufs s)) with (shut_bufs [p] (cs_bufs s)); [done|].
  apply map_eq. intros p'. rewrite lookup_shut_bufs lookup_insert.
  destruct (decide (p = p')) as [->|Hne].
  - rewrite Hp /= decide_True //. set_solver.
  - destruct (cs_bufs s !! p'); [|done]. rewrite /= decide_False //. set_solver.
Qed.

Lemma wp_close_each ps s Q C :
  NoDup ps → (∀ p, p ∈ ps → ∃ g, cs_bufs s !! p = Some g ∧ g_in_closed g = false) →
  Q tt (mkConsumers (cs_chans s) (shut_bufs ps (cs_bufs s)) (cs_next s)) → wp (close_each ps) Q C s.
Proof.
  intros Hnd. revert s. induction Hnd as [|p ps Hp Hnd IH]; intros s Hps HQ; simpl.
  { apply wp_ret. replace (shut_bufs [] (cs_bufs s)) with (cs_bufs s) in HQ; [by destruct s|].
    apply map_eq. intros p. rewrite lookup_shut_bufs. destruct (cs_bufs s !! p); [|done].
    simpl. try case_decide; set_solver. }
  destruct (Hps p) as (g & Hg & Hc); [set_solver|]. apply wp_bind, (wp_close_chan p g); [done..|].
  apply IH; simpl.
  - intros p' Hp'. destruct (Hps p') as (g' & Hg' & Hc'); [set_solver|]. exists g'.
    rewrite lookup_shut_bufs Hg' /= decide_False //. set_solver.
  - replace (shut_bufs ps _) with (shut_bufs (p :: ps) (cs_bufs s)); [done|].
    apply map_eq. intros p'. rewrite !lookup_shut_bufs. destruct (cs_bufs s !! p') as [g'|]; [|done].
    simpl. f_equal. repeat case_decide; set_solver.
Qed.

Lemma inv_shut s chans ps :
  inv s → (∀ tag p, chans !! tag = Some p → cs_chans s !! tag = Some p ∧ p ∉ ps) →
  inv (mkConsumers chans (shut_bufs ps (cs_bufs s)) (cs_next s)).
Proof.
  intros (H1 & H2 & H3) Hps. split_and!; simpl.
  - intros p g. rewrite lookup_shut_bufs. destruct (cs_bufs s !! p) as [g'|] eqn:E; [|done].
    simpl. intros [= <-]. apply H1 in E as [Hg Hlt]. split; [|done]. case_decide; auto using go_inv_close.
  - intros tag p [Hin Hni]%Hps. apply H2 in Hin as (g & Hg & Hc). exists g.
    by rewrite lookup_shut_bufs Hg /= decide_False.
  - intros tag tag' p [Hin _]%Hps [Hin' _]%Hps. eauto.
Qed.

Lemma abs_shut chans ps m n :
  abs (mkConsumers chans (shut_bufs ps m) n) =
  mkSpec chans (map_imap (λ p q, Some (if decide (p ∈ ps) then shut q else q)) (abs_go <$> m)) n.
Proof.
  rewrite /abs /=. f_equal. apply map_eq. intros p.
  rewrite lookup_fmap lookup_shut_bufs map_lookup_imap lookup_fmap.
  destruct (m !! p); [|done]. simpl. by case_decide.
Qed.
Lemma shut_one p (m : gmap nat (list Delivery * bool)) :
  map_imap (λ p' q, Some (if decide (p' ∈ [p]) then shut q else q)) m = alter shut p m.
Proof.
  apply map_eq. intros p'. rewrite map_lookup_imap lookup_alter.
  destruct (decide (p = p')) as [->|Hne]; destruct (m !! p') as [q|]; try done; simpl.
  - rewrite decide_True //. set_solver.
  - rewrite decide_False //. set_solver.
Qed.

(** A step of the registry: it never panics, keeps the invariant, and does what the
    registry of queues does. *)
Definition step_ok (a : cact) (s : consumers) : Prop :=
  wp (cstep a) (λ r s', inv s' ∧ match r with Some r => spec_step a r (abs s) (abs s') | None => s' = s end)
    (λ _ _, False) s.

Lemma chans_values s p : p ∈ (map_to_list (cs_chans s)).*2 ↔ ∃ tag, cs_chans s !! tag = Some p.
Proof.
  rewrite list_elem_of_fmap. split.
  - intros ([tag p'] & -> & Hin%elem_of_map_to_list). eauto.
  - intros (tag & Hin). exists (tag, p). by rewrite elem_of_map_to_list.
Qed.
Lemma chans_NoDup s : inv s → NoDup (map_to_list (cs_chans s)).*2.
Proof.
  intros (_ & _ & H3). apply NoDup_fmap_2_strong; [|apply NoDup_map_to_list].
  intros [t p] [t' p'] H%elem_of_map_to_list H'%elem_of_map_to_list. simpl. intros <-. f_equal. eauto.
Qed.

Lemma inv_new s tag cap :
  inv s → inv (mkConsumers (<[tag := cs_next s]> (delete tag (cs_chans s)))
    (<[cs_next s := bufferDeliveries_start (make_chan cap)]> (cs_bufs s)) (S (cs_next s))).
Proof.
  intros (H1 & H2 & H3).
  assert (∀ t p, cs_chans s !! t = Some p → p ≠ cs_next s) as Hold.
  { intros t p (g & [_ ?]%H1 & _)%H2. lia. }
  split_and!; simpl.
  - intros p g. rewrite lookup_insert. case_decide.
    + intros [= <-]. split; [apply go_inv_start|lia].
    + intros [? ?]%H1. split; [done|lia].
  - intros t p. rewrite !lookup_insert. case_decide.
    + intros [= <-]. rewrite decide_True //. eexists. done.
    + rewrite lookup_delete_ne //. intros Ht. rewrite decide_False; [eauto|]. intros <-. by apply Hold in Ht.
  - intros t t' p. rewrite !lookup_insert !lookup_delete. repeat case_decide; try done; subst; try done.
    + intros [= <-] ?%Hold. done.
    + intros ?%Hold [= <-]. done.
    + eauto.
Qed.

(** The previous goroutine of a tag, if any, is closed. *)
Lemma wp_close_prev s tag Q C :
  inv s → (∀ m, inv (mkConsumers (delete tag (cs_chans s)) m (cs_next s)) →
    abs_go <$> m = spec_close (cs_chans s !! tag) (abs_go <$> cs_bufs s) →
    Q tt (mkConsumers (cs_chans s) m (cs_next s))) →
  wp (match cs_chans s !! tag with Some prev => close_chan prev | None => mret tt end) Q C s.
Proof.
  intros Hinv HQ. destruct (cs_chans s !! tag) as [p|] eqn:E.
  - pose proof Hinv as (_ & H2 & H3). destruct (H2 _ _ E) as (g & Hg & Hc).
    apply (wp_close_chan p g); [done..|]. apply HQ.
    + apply inv_shut; [done|]. intros t p' [Hne Ht]%lookup_delete_Some. split; [done|].
      intros ->%list_elem_of_singleton. by apply Hne, (H3 _ _ p).
    + simpl. rewrite -shut_one. pose proof (abs_shut ∅ [p] (cs_bufs s) 0) as Ha. by injection Ha.
  - apply wp_ret. destruct s as [ch m n]. apply HQ; [|done]. by rewrite delete_id.
Qed.

Lemma step_add tag cap s : inv s → step_ok (CAdd tag cap) s.
Proof.
  intros Hinv. rewrite /step_ok /= /add. apply wp_bind, wp_bind, wp_get, wp_bind.
  apply wp_close_prev; [done|]. intros m Hm Habs. apply wp_modify, wp_ret. simpl.
  split.
  - apply (inv_new _ tag cap) in Hm. simpl in Hm. by rewrite delete_delete_eq insert_delete_eq in Hm.
  - rewrite /abs /= fmap_insert Habs. apply (sp_add tag cap (abs s)).
Qed.

Lemma step_close tag s : inv s → step_ok (CClose tag) s.
Proof.
  intros Hinv. rewrite /step_ok /= /close. apply wp_bind, wp_bind, wp_get.
  assert (bool_decide (is_Some (sp_tags (abs s) !! tag)) = bool_decide (is_Some (cs_chans s !! tag))) as Hb by done.
  pose proof (sp_close tag (abs s)) as Hsp. rewrite Hb in Hsp. simpl in Hsp.
  destruct (cs_chans s !! tag) as [p|] eqn:E.
  - apply wp_bind, wp_modify, wp_bind. pose proof Hinv as (H1 & H2 & H3).
    destruct (H2 _ _ E) as (g & Hg & Hc). eapply (wp_close_chan p g); [done..|].
    apply wp_ret, wp_ret. simpl. split.
    + apply (inv_shut s); [done|]. intros t p' [Hne Ht]%lookup_delete_Some. split; [done|].
      intros ->%list_elem_of_singleton. by apply Hne, (H3 _ _ p).
    + rewrite abs_shut shut_one. done.
  - apply wp_ret, wp_ret. split; [done|]. rewrite delete_id // in Hsp.
Qed.

Lemma step_closeAll s : inv s → step_ok CCloseAll s.
Proof.
  intros Hinv. rewrite /step_ok /= /closeAll. apply wp_bind, wp_bind, wp_get, wp_bind.
  apply wp_close_each; [by apply chans_NoDup| |].
  - intros p (tag & Ht)%chans_values. by apply Hinv in Ht.
  - apply wp_modify, wp_ret. simpl. split; [by apply (inv_shut s)|].
    rewrite abs_shut. apply (sp_closeAll (abs s)).
Qed.

Lemma step_send tag d s : inv s → step_ok (CSend tag d) s.
Proof.
  intros Hinv. rewrite /step_ok /= /send. apply wp_bind, wp_bind, wp_get.
  destruct (cs_chans s !! tag) as [p|] eqn:E.
  - pose proof Hinv as (H1 & H2 & _). destruct (H2 _ _ E) as (g & Hg & Hc). rewrite Hg Hc.
    destruct (bufferDeliveries_accept d g) as [g'|] eqn:Ea.
    + apply go_inv_accept in Ea as (Hg' & Hcont & Hc'); [|by eapply H1|done].
      apply wp_bind, wp_modify, wp_ret, wp_ret. split; [apply (inv_update s p g); congruence|].
      pose proof (sp_send tag d p (abs s) E) as Hsp.
      eapply eq_ind; [exact Hsp|]. rewrite /abs /= fmap_insert. f_equal. apply map_eq. intros p'.
      rewrite lookup_alter lookup_insert lookup_fmap. case_decide; [|done]. subst.
      rewrite Hg /= /abs_go Hcont Hc Hc' //.
    + apply wp_ret, wp_ret. split; [done|]. constructor.
  - apply wp_ret, wp_ret. split; [done|]. by constructor.
Qed.

Lemma step_go p a s : inv s → step_ok (CGo p a) s.
Proof.
  intros Hinv. rewrite /step_ok /=. apply wp_bind, wp_get.
  destruct (cs_bufs s !! p) as [g|] eqn:Hg; [|by apply wp_ret].
  destruct (bufferDeliveries_step a g) as [[x g']|] eqn:Es; [|by apply wp_ret].
  apply go_inv_step in Es as (Hg' & Hc & Hx); [|by eapply Hinv].
  apply wp_bind, wp_modify, wp_ret. split; [by apply (inv_update s p g)|].
  assert (∀ q, abs_go g' = q → abs (mkConsumers (cs_chans s) (<[p:=g']> (cs_bufs s)) (cs_next s)) =
            mkSpec (cs_chans s) (<[p := q]> (abs_go <$> cs_bufs s)) (cs_next s)) as Habs.
  { intros q <-. by rewrite /abs /= fmap_insert. }
  assert ((abs_go <$> cs_bufs s) !! p = Some (abs_go g)) as Hq by by rewrite lookup_fmap Hg.
  destruct x as [|d|].
  - rewrite (Habs (abs_go g)); [|by rewrite /abs_go Hx Hc]. rewrite insert_id //. apply sp_internal.
  - rewrite (Habs (abs_go g')) //. apply (sp_recv p a d _ _ (abs s)). by rewrite /= Hq /abs_go Hx Hc.
  - destruct Hx as (Hx & Hx' & Hin). rewrite (Habs (abs_go g)); [|by rewrite /abs_go Hx Hx' Hc].
    rewrite insert_id //. apply sp_end. by rewrite /= Hq /abs_go Hx Hin.
Qed.

Lemma step_refines a s : inv s → step_ok a s.
Proof. destruct a; auto using step_add, step_close, step_closeAll, step_send, step_go. Qed.

Lemma inv_reachable s : reachable s → inv s.
Proof.
  induction 1 as [|s a o s' _ IH E]; [by repeat split|].
  destruct (wp_total _ _ _ _ _ (step_refines a s IH) E) as (r & -> & Hi & _). done.
Qed.

(** ** Delivery *)

(** Steps of one goroutine and of the application that receives from it. *)
Fixpoint run_go (acts : list gact) (g : goroutine) : option (list obs * goroutine) :=
  match acts with
  | [] => Some ([], g)
  | a :: acts =>
      match bufferDeliveries_step a g with
      | Some (x, g) => match run_go acts g with Some (xs, g) => Some (x :: xs, g) | None => None end
      | None => None
      end
  end.
Definition received (xs : list obs) : list Delivery := omap (λ x, match x with ORecv d => Some d | _ => None end) xs.

(** How many steps are left until everything is with the application. *)
Definition remaining (g : goroutine) : nat :=
  4 * length (pending (g_pc g)) + 3 * length (g_queue g) + 2 * length (o_buf (g_out g)) +
  (if o_waiting (g_out g) then 0 else 1) + (if g_queueIn g then 1 else 0) + (if is_done (g_pc g) then 0 else 2).

Lemma remaining_decreases a g x g' :
  go_inv g → bufferDeliveries_step a g = Some (x, g') → a ≠ AEnd → (remaining g' < remaining g)%nat.
Proof.
  destruct g as [p q ic qi [cap buf wt cl]]. rewrite /go_inv /remaining. intros (H1 & H2 & H3 & H4 & H5).
  simpl in *. destruct wt; [specialize (H3 eq_refl) as ->|clear H3].
  all: destruct a, p; try done; rewrite /= /chan_send /can_send /=; simplify_eq/=.
  all: repeat match goal with
    | |- context [if ?b then _ else _] => destruct b eqn:?
    | |- context [match ?l with [] => _ | _ :: _ => _ end] => destruct l eqn:?
    end; try done; intros; destruct_and?; simplify_eq/=; rewrite ?length_app /=; try lia.
  all: try match goal with |- context [loop_pc ?l] => destruct l; simpl; lia end.
  all: match goal with H : _ && _ = true |- _ => apply andb_true_iff in H as [-> ->] end; lia.
Qed.

Lemma received_cons x xs : received (x :: xs) = match x with ORecv d => d :: received xs | _ => received xs end.
Proof. by destruct x. Qed.

Lemma run_go_ok acts g xs g' :
  go_inv g → run_go acts g = Some (xs, g') → AEnd ∉ acts →
  go_inv g' ∧ (length acts + remaining g' ≤ remaining g)%nat ∧
  g_in_closed g' = g_in_closed g ∧ contents g = received xs ++ contents g'.
Proof.
  revert g xs. induction acts as [|a acts IH]; intros g xs Hg; simpl.
  { intros [= <- <-] _. split_and!; [done|lia|done|done]. }
  destruct (bufferDeliveries_step a g) as [[x g1]|] eqn:Es; [|done].
  destruct (run_go acts g1) as [[xs' g2]|] eqn:Er; [|done].
  intros [= <- <-] Hne. pose proof (go_inv_step _ _ _ _ Hg Es) as (Hg1 & Hc & Hx).
  destruct (IH _ _ Hg1 Er) as (Hg2 & Hlen & Hc2 & Hcont); [set_solver|].
  apply remaining_decreases in Es; [|done|set_solver]. split_and!; [done|lia|congruence|].
  rewrite received_cons. destruct x; simpl.
  - congruence.
  - by rewrite Hx Hcont.
  - destruct Hx as (-> & Hx & _). by rewrite -Hcont.
Qed.

(** Nothing can happen only when everything was received. *)
Lemma stuck_delivered g :
  go_inv g → (∀ a, a ≠ AEnd → bufferDeliveries_step a g = None) →
  contents g = [] ∧ (g_in_closed g = true → g_pc g = Done).
Proof.
  destruct g as [p q ic qi [cap buf wt cl]]. rewrite /go_inv /contents. intros (H1 & H2 & H3 & H4 & H5) Hs.
  simpl in *. pose proof (Hs ATake ltac:(done)) as Ht. pose proof (Hs AWait ltac:(done)) as Hw.
  pose proof (Hs ATry ltac:(done)) as Hy. pose proof (Hs APut ltac:(done)) as Hp.
  pose proof (Hs AInClosed ltac:(done)) as Hi. clear Hs.
  destruct wt; [specialize (H3 eq_refl) as ->|]; simpl in *.
  - destruct p; simplify_eq/=; try done.
    + by destruct ic.
    + by destruct q.
  - destruct buf; [|done]. case_decide as Hd; [done|]. destruct p; simplify_eq/=; try done; by destruct Hd.
Qed.

(** A goroutine that is not at a receive gets there without the application. *)
Lemma accept_ready g d :
  go_inv g → g_in_closed g = false →
  is_Some (bufferDeliveries_accept d g) ∨
  ∃ x g', bufferDeliveries_step ATry g = Some (x, g') ∧ is_Some (bufferDeliveries_accept d g').
Proof.
  destruct g as [p q ic qi o]. rewrite /go_inv. intros (H1 & H2 & H3 & H4 & H5) Hc. simpl in *. subst ic.
  destruct qi; [|by specialize (H4 eq_refl)]. destruct p; simpl.
  - by left.
  - right. destruct (can_send o).
    + destruct (chan_send d0 o) as [x o']. eexists _, _. split; [done|]. by subst q.
    + eexists _, _. split; [done|]. by subst q.
  - by left.
  - by specialize (H5 eq_refl).
Qed.

(** Tags of one process are distinct until the counter has gone round. *)
Lemma uniqueConsumerTag_inj arg0 seq seq' :
  (uniqueConsumerTag arg0 seq).1 = (uniqueConsumerTag arg0 seq').1 →
  (uniqueConsumerTag arg0 seq).2 = (uniqueConsumerTag arg0 seq').2.
Proof. rewrite /uniqueConsumerTag /=. intros H. by simplify_eq. Qed.

(** ** Claims *)

(** C29: Consumers of a channel: whatever the order of registrations, cancellations,
    deliveries and steps of the goroutines, no step panics and every step is one of a
    registry of unbounded queues: each consumer receives the deliveries that were sent
    to its tag, in that order, without loss or repetition, and sees the end of its
    channel only after all of them. *)
Theorem consumers_refine_queues s a o s' :
  reachable s → cstep a s = (o, s') →
  ∃ r, o = Ret r ∧ match r with Some r => spec_step a r (abs s) (abs s') | None => s' = s end.
Proof.
  intros Hs E. apply inv_reachable in Hs.
  destruct (wp_total _ _ _ _ _ (step_refines a s Hs) E) as (r & -> & _ & Hr). eauto.
Qed.

(** A registered goroutine accepts the next delivery at once or after one step of its
    own, although the comment on [send] says that it may wait for the application. *)
Lemma delivery_never_waits s tag p d :
  reachable s → cs_chans s !! tag = Some p → ∃ g, cs_bufs s !! p = Some g ∧
    (is_Some (bufferDeliveries_accept d g) ∨
     ∃ x g', bufferDeliveries_step ATry g = Some (x, g') ∧ is_Some (bufferDeliveries_accept d g')).
Proof.
  intros (H1 & H2 & _)%inv_reachable (g & Hg & Hc)%H2. exists g. split; [done|].
  apply accept_ready; [by eapply H1|done].
Qed.

(** C30: What a consumer's goroutine has accepted reaches the application: from every
    reachable state, without further deliveries, the goroutine and the receives of the
    application can take only a bounded number of steps, and when none is possible any
    more, the application has received exactly what had been accepted, in that order,
    and when the consumer was cancelled its goroutine has closed the channel and
    returned.  (An application that stops receiving keeps the rest waiting.) *)
Theorem consumers_deliver s p g acts xs g' :
  reachable s → cs_bufs s !! p = Some g → run_go acts g = Some (xs, g') → AEnd ∉ acts →
  (length acts ≤ remaining g)%nat ∧
  ((∀ a, a ≠ AEnd → bufferDeliveries_step a g' = None) →
   received xs = contents g ∧ (g_in_closed g = true → g_pc g' = Done ∧ o_closed (g_out g') = true)).
Proof.
  intros (H1 & _ & _)%inv_reachable Hg Hr Hne. apply H1 in Hg as [Hg _].
  destruct (run_go_ok _ _ _ _ Hg Hr Hne) as (Hg' & Hlen & Hc & Hcont). split; [lia|].
  intros (He & Hdone)%stuck_delivered; [|done]. rewrite Hcont He app_nil_r -Hc. split; [done|].
  intros Hic%Hdone. split; [done|]. destruct Hg' as (_ & -> & _). by rewrite Hic.
Qed.

(** A delivery to a consumer that is registered, one after it was cancelled. *)
Definition sample_delivery (n : Z) : Delivery :=
  mkDelivery AmqpSpec.zero_properties "c" 0 n false "x" "k" "body".
Definition run_all (acts : list cact) : consumers := foldl (λ s a, (cstep a s).2) makeConsumers acts.
Definition sample_run : consumers :=
  run_all [CAdd "c" 0; CSend "c" (sample_delivery 1); CGo 0 ATry; CSend "c" (sample_delivery 2); CClose "c"].

Lemma reachable_run acts : reachable (run_all acts).
Proof.
  rewrite /run_all. induction acts as [|a acts IH] using rev_ind; [constructor|].
  rewrite foldl_app /=. destruct (cstep a (foldl _ _ acts)) as [o s'] eqn:E.
  by eapply reach_step.
Defined.

Lemma consumers_refine_queues_witness :
  ∃ r, (cstep (CGo 0 AWait) sample_run).1 = Ret r.
Proof.
  destruct (consumers_refine_queues sample_run (CGo 0 AWait) _ _ (reachable_run _) eq_refl) as (r & Hr & _).
  exists r. exact Hr.
Defined.

(** Both deliveries reach the application, then the channel is closed. *)
Definition sample_acts : list gact := [AWait; APut; AWait; APut; AInClosed].
Definition sample_go : goroutine :=
  mkGo Draining [sample_delivery 1; sample_delivery 2] true true (make_chan 0).
Lemma consumers_deliver_witness :
  ∃ xs g', cs_bufs sample_run !! 0 = Some sample_go ∧ run_go sample_acts sample_go = Some (xs, g') ∧
    received xs = [sample_delivery 1; sample_delivery 2] ∧ g_pc g' = Done.
Proof.
  assert (cs_bufs sample_run !! 0 = Some sample_go) as Hg by (vm_compute; reflexivity).
  assert (AEnd ∉ sample_acts) as Hne by (by rewrite /sample_acts !not_elem_of_cons; split_and!; [..|apply not_elem_of_nil]).
  destruct (run_go sample_acts sample_go) as [[xs g']|] eqn:E; [|vm_compute in E; discriminate E].
  exists xs, g'. split; [exact Hg|]. split; [reflexivity|].
  destruct (consumers_deliver sample_run 0 sample_go sample_acts xs g' (reachable_run _) Hg E Hne) as [_ Hd].
  vm_compute in E. injection E as <- <-. destruct (Hd ltac:(by intros [])) as [Hr Hdone].
  split; [exact Hr|]. by apply Hdone.
Defined.
End AmqpConsumers.
