(* ===== verification/AmqpHeartbeat.v ===== *)
(** * streadway/amqp: heartbeats and listeners

    [src/src/github.com/streadway/amqp]: the goroutine [heartbeater] of [connection.go],
    one branch of its [select] at a time; the registration of listeners of
    [connection.go] and [channel.go]; acknowledgements through a [Delivery]
    ([delivery.go]).  Times are nanoseconds. *)

From S2P Require Import Prelude GoStrings AmqpWire AmqpSpec AmqpFrame AmqpAlloc AmqpConfirms AmqpChannel.

Module AmqpHeartbeat.
Import AmqpWire AmqpSpec AmqpFrame AmqpChannel.

(** ** The heartbeater *)
Definition second : Z := 1000000000.
Definition maxServerHeartbeatsInFlight : Z := 3.

(** What the [select] receives: the time of a frame that was sent (or that [sends] was
    closed), a tick with the result of sending a heartbeat at that time, a frame that
    was read (and the time), the end of the connection. *)
Inductive hevent :=
| HSends (at_ : Z) (stillSending : bool)
| HTick (at_ : Z) (sent : option error)
| HDeadline (now : Z)
| HDone.

(** [lastSent], and whether the goroutine still runs. *)
Record hstate := mkH { lastSent : Z; running : bool }.

(** What it does: write a heartbeat frame, set a read deadline. *)
Inductive haction := Beat (at_ : Z) | SetReadDeadline (t : Z).

Definition heartbeater_start (now : Z) : hstate := mkH now true.

(** One round of the loop; there are ticks only when the interval is positive. *)
Definition heartbeater_step (interval : Z) (e : hevent) (s : hstate) : list haction * hstate :=
  if negb (running s) then ([], s)
  else match e with
  | HSends at_ stillSending =>
      if stillSending then ([], mkH at_ true) else ([], mkH (lastSent s) false)
  | HTick at_ sent =>
      if decide (interval > 0)%Z then
        if decide (at_ - lastSent s > interval - second)%Z then
          match sent with
          | Some _ => ([], mkH (lastSent s) false)
          | None => ([Beat at_], s)
          end
        else ([], s)
      else ([], s)
  | HDeadline now =>
      if decide (interval > 0)%Z
      then ([SetReadDeadline (now + maxServerHeartbeatsInFlight * interval)%Z], s) else ([], s)
  | HDone => ([], mkH (lastSent s) false)
  end.

(** ** Time passes

    Frames of the application are written at any time; [Connection.send] tells the
    heartbeater unless it is busy.  Ticks come at multiples of the interval. *)
Inductive tevent := TFrame (at_ : Z) (told : bool) | TTick | TRead (now : Z).

(** The time of the start, ticks so far, the heartbeater, when frames were written
    (the latest first). *)
Record timeline := mkT { t_start : Z; t_ticks : Z; t_hb : hstate; t_frames : list Z }.

Definition last_tick (interval : Z) (t : timeline) : Z := (t_start t + t_ticks t * interval)%Z.
Definition last_frame (t : timeline) : Z := hd (t_start t) (t_frames t).

(** Events at or after the last frame and before the next tick is due. *)
Inductive tstep (interval : Z) : timeline → tevent → timeline → Prop :=
| ts_frame t at_ told :
    (last_tick interval t ≤ at_ ≤ last_tick interval t + interval)%Z → (last_frame t ≤ at_)%Z →
    tstep interval t (TFrame at_ told)
      (mkT (t_start t) (t_ticks t)
         (if told then (heartbeater_step interval (HSends at_ true) (t_hb t)).2 else t_hb t)
         (at_ :: t_frames t))
| ts_tick t acts hb :
    (last_frame t ≤ last_tick interval t + interval)%Z →
    heartbeater_step interval (HTick (last_tick interval t + interval) None) (t_hb t) = (acts, hb) →
    tstep interval t TTick
      (mkT (t_start t) (t_ticks t + 1) hb
         (omap (λ a, match a with Beat x => Some x | _ => None end) acts ++ t_frames t))
| ts_read t now :
    tstep interval t (TRead now)
      (mkT (t_start t) (t_ticks t) (heartbeater_step interval (HDeadline now) (t_hb t)).2 (t_frames t)).

Inductive treach (interval now : Z) : timeline → Prop :=
| tr_start : treach interval now (mkT now 0 (heartbeater_start now) [])
| tr_step t e t' : treach interval now t → tstep interval t e t' → treach interval now t'.

(** [lastSent] is the time of a frame or of the start, and the last frame is not much
    older than the last tick. *)
Definition beating (interval : Z) (t : timeline) : Prop :=
  running (t_hb t) = true ∧
  (lastSent (t_hb t) ≤ last_frame t)%Z ∧
  (lastSent (t_hb t) ≤ last_tick interval t + interval)%Z ∧
  (last_tick interval t - last_frame t ≤ interval - second)%Z ∧
  (last_frame t ≤ last_tick interval t + interval)%Z.

Lemma tstep_beating interval t e t' :
  (second ≤ interval)%Z → beating interval t → tstep interval t e t' → beating interval t'.
Proof.
  intros Hi (Hr & H1 & H2 & H3 & H4) Hs. rewrite /second in Hi H3.
  destruct Hs as [t at_ told Hat Hl|t acts hb Hl E|t now].
  - rewrite /beating /last_tick /last_frame /second in Hat Hl H1 H2 H3 H4 |- *. simpl.
    destruct told; rewrite /heartbeater_step Hr /=; split_and!; try done; lia.
  - rewrite /heartbeater_step Hr /= in E. case_decide; [|lia].
    rewrite /beating /last_tick /last_frame /second in Hl E H1 H2 H3 H4 |- *. simpl.
    case_decide; injection E as <- <-; simpl; split_and!; try done; lia.
  - rewrite /beating /heartbeater_step /last_tick /last_frame /second in H1 H2 H3 H4 |- *. rewrite Hr /=.
    case_decide; simpl; split_and!; done.
Qed.
Lemma treach_beating interval now t : (second ≤ interval)%Z → treach interval now t → beating interval t.
Proof.
  intros Hi. induction 1; [|eauto using tstep_beating].
  rewrite /beating /last_tick /last_frame /heartbeater_start /second in Hi |- *. simpl. split_and!; try done; lia.
Qed.

(** ** Listeners *)

(** [Connection.NotifyClose], [Connection.NotifyBlocked]: after a shutdown the listener
    is closed at once. *)
Definition set_listeners (closes blocks : list nat) (c : Connection) : Connection :=
  mkConnection (c_wire c) (c_FrameSize c) (c_alloc c) (c_heap c) (c_channels c) (c_next c) closes blocks
    (c_shut c) (c_spawned c) (c_stuck c) (c_events c) (c_answers c) (c_heart c).
Definition conn_NotifyClose (l : nat) : MQ nat :=
  c ← get;
  (if c_shut c then emit [EvClosed l] else modify (set_listeners (c_closes c ++ [l]) (c_blocks c)));;
  mret l.
Definition conn_NotifyBlocked (l : nat) : MQ nat :=
  c ← get;
  (if c_shut c then emit [EvClosed l] else modify (set_listeners (c_closes c) (c_blocks c ++ [l])));;
  mret l.

(** The listeners of a channel. *)
Definition set_notify (closes flows returns cancels : list nat) (c : Channel) : Channel :=
  mkChannel (ch_id c) (ch_open c) (ch_noNotify c) closes flows returns cancels
    (ch_confirms c) (ch_confirming c) (ch_consumers c) (ch_recv c) (ch_message c) (ch_header c) (ch_body c).
(** [if me.noNotify { close(c) } else { append }] *)
Definition register (p l : nat) (add : Channel → Channel) : MQ nat :=
  ch ← load p;
  (if ch_noNotify ch then emit [EvClosed l] else update p add);;
  mret l.
Definition NotifyClose (p l : nat) : MQ nat :=
  register p l (λ c, set_notify (ch_closes c ++ [l]) (ch_flows c) (ch_returns c) (ch_cancels c) c).
Definition NotifyFlow (p l : nat) : MQ nat :=
  register p l (λ c, set_notify (ch_closes c) (ch_flows c ++ [l]) (ch_returns c) (ch_cancels c) c).
Definition NotifyReturn (p l : nat) : MQ nat :=
  register p l (λ c, set_notify (ch_closes c) (ch_flows c) (ch_returns c ++ [l]) (ch_cancels c) c).
Definition NotifyCancel (p l : nat) : MQ nat :=
  register p l (λ c, set_notify (ch_closes c) (ch_flows c) (ch_returns c) (ch_cancels c ++ [l]) c).
Definition NotifyPublish (p l : nat) : MQ nat :=
  ch ← load p;
  (if ch_noNotify ch then emit [EvClosed l] else on_confirms p (AmqpConfirms.Listen l));;
  mret l.

(** The goroutine of [NotifyConfirm] on the confirmations it receives: what it sends to
    [ack] and to [nack]. *)
Fixpoint confirm_pump (cs : list AmqpConfirms.Confirmation) : list Z * list Z :=
  match cs with
  | [] => ([], [])
  | c :: cs =>
      let '(acks, nacks) := confirm_pump cs in
      if AmqpConfirms.Ack c then (AmqpConfirms.DeliveryTag c :: acks, nacks)
      else (acks, AmqpConfirms.DeliveryTag c :: nacks)
  end.
(** [NotifyConfirm]: the room of the channel between the two goroutines is the number of
    values that [ack] and [nack] hold at the time, [len] and not [cap]. *)
Definition NotifyConfirm (p l : nat) (len_ack len_nack : nat) : MQ nat :=
  NotifyPublish p l;; mret (len_ack + len_nack).

(** [isCapable] *)
Fixpoint table_get (k : string) (t : Table) : option field :=
  match t with
  | [] => None
  | (k', v) :: t => if decide (k = k') then Some v else table_get k t
  end.
Definition isCapable (Properties : Table) (featureName : string) : bool :=
  let capabilities := match table_get "capabilities" Properties with Some (FTable t) => t | _ => [] end in
  match table_get featureName capabilities with Some (FBool b) => b | _ => false end.

(** [Delivery.Ack], [Delivery.Reject], [Delivery.Nack]; the [Acknowledger] is the channel
    the delivery came from, or nil in a zero [Delivery]. *)
Definition errDeliveryNotInitialized : error := ErrorS "delivery not initialized".
Definition Delivery_Ack (acknowledger : option nat) (d : Delivery) (multiple : bool) : MQ (option error) :=
  match acknowledger with
  | None => mret (Some errDeliveryNotInitialized)
  | Some p => Ack p (d_DeliveryTag d) multiple
  end.
Definition Delivery_Reject (acknowledger : option nat) (d : Delivery) (requeue : bool) : MQ (option error) :=
  match acknowledger with
  | None => mret (Some errDeliveryNotInitialized)
  | Some p => Reject p (d_DeliveryTag d) requeue
  end.
Definition Delivery_Nack (acknowledger : option nat) (d : Delivery) (multiple requeue : bool) : MQ (option error) :=
  match acknowledger with
  | None => mret (Some errDeliveryNotInitialized)
  | Some p => Nack p (d_DeliveryTag d) multiple requeue
  end.

(** A listener that is registered after the shutdown of its channel is closed at once
    and never again: nothing of the channel changes. *)
Lemma register_after_shutdown p l add c ch :
  c_heap c !! p = Some ch → ch_noNotify ch = true →
  register p l add c = (Ret l, set_events (c_events c ++ [EvClosed l]) (c_answers c) c).
Proof. intros Hp Hn. rewrite /register /load /mbind /M_bind /get /= Hp /= Hn. done. Qed.

(** [NotifyConfirm] loses nothing and keeps the order within both kinds. *)
Lemma confirm_pump_split cs :
  (confirm_pump cs).1 = AmqpConfirms.DeliveryTag <$> filter (λ c, AmqpConfirms.Ack c = true) cs ∧
  (confirm_pump cs).2 = AmqpConfirms.DeliveryTag <$> filter (λ c, AmqpConfirms.Ack c ≠ true) cs.
Proof.
  induction cs as [|c cs [IH1 IH2]]; [done|]. rewrite !filter_cons /=.
  destruct (confirm_pump cs) as [acks nacks]. simpl in *. subst.
  destruct (AmqpConfirms.Ack c) eqn:E; simpl; repeat case_decide; done.
Qed.

(** ** Claims *)

(** C31: Whatever the application sends and whenever the heartbeater hears of it, at every
    moment between two ticks the last frame is at most twice the interval less one
    second old, so that a peer that waits for two intervals never gives up on a
    connection that can be written to. *)
Theorem heartbeat_gap interval now t x :
  (second ≤ interval)%Z → treach interval now t →
  (last_tick interval t ≤ x ≤ last_tick interval t + interval)%Z →
  (x - last_frame t ≤ 2 * interval - second)%Z.
Proof. intros Hi (_ & _ & _ & H3 & _)%treach_beating Hx; [lia|done]. Qed.

(** An interval of ten seconds, a frame one second after the first tick, two more ticks:
    nothing is sent at the second one, and just before the third the connection has been
    silent for nineteen seconds. *)
Definition sample_timeline : timeline :=
  mkT 0 2 (mkH (11 * second) true) [(11 * second)%Z; (10 * second)%Z].
Lemma sample_timeline_reach : treach (10 * second) 0 sample_timeline.
Proof.
  apply (tr_step _ _ (mkT 0 1 (mkH (11 * second) true) [(11 * second)%Z; (10 * second)%Z]) TTick).
  - apply (tr_step _ _ (mkT 0 1 (mkH 0 true) [(10 * second)%Z]) (TFrame (11 * second) true)).
    + eapply (tr_step _ _ (mkT 0 0 (mkH 0 true) []) TTick); [constructor|].
      exact (ts_tick (10 * second) (mkT 0 0 (mkH 0 true) []) [Beat (10 * second)] (mkH 0 true)
               ltac:(vm_compute; congruence) eq_refl).
    + exact (ts_frame (10 * second) (mkT 0 1 (mkH 0 true) [(10 * second)%Z]) (11 * second) true
               ltac:(vm_compute; split; congruence) ltac:(vm_compute; congruence)).
  - exact (ts_tick (10 * second) (mkT 0 1 (mkH (11 * second) true) [(11 * second)%Z; (10 * second)%Z]) []
             (mkH (11 * second) true) ltac:(vm_compute; congruence) eq_refl).
Defined.
Lemma heartbeat_gap_tight :
  (30 * second - last_frame sample_timeline = 2 * (10 * second) - second)%Z.
Proof. reflexivity. Qed.

Lemma heartbeat_gap_witness :
  (30 * second - last_frame sample_timeline ≤ 2 * (10 * second) - second)%Z.
Proof.
  apply (heartbeat_gap (10 * second) 0 sample_timeline (30 * second)).
  - vm_compute; congruence.
  - exact sample_timeline_reach.
  - vm_compute; split; congruence.
Defined.
End AmqpHeartbeat.
