(* ===== verification/AmqpTransfer.v ===== *)
(** * streadway/amqp: messages survive being cut into frames

    What [Channel.sendOpen] puts on the wire, and that the reader and the state
    machine of the receiving channel ([recvMethod], [recvHeader], [recvContent])
    put it together again. *)

From S2P Require Import Prelude GoStrings AmqpWire AmqpSpec AmqpFrame AmqpAlloc AmqpConfirms AmqpChannel.

Module AmqpTransfer.
Import AmqpWire AmqpSpec AmqpFrame AmqpChannel.

(** ** Cutting *)

(** A string cut into pieces of [size] bytes, the last one shorter. *)
Fixpoint chunks (n : nat) (size : nat) (s : string) : list string :=
  match n, s with
  | S n, String _ _ => let '(a, b) := split_at size s in a :: chunks n size b
  | _, _ => []
  end.

(** The frames of a message with content. *)
Definition content_frames (id FrameSize : Z) (m : message) (props : properties) (body : string) :
    list frame :=
  method_frame id m ::
  headerFrame id (AmqpSpec.id m).1 0 (Z.of_nat (String.length body)) props ::
  (bodyFrame id <$> chunks (String.length body) (Z.to_nat (chunk_size FrameSize body)) body).

Definition concat_str (l : list string) : string := foldr String.append "" l.

Lemma split_at_join n s : (split_at n s).1 +:+ (split_at n s).2 = s.
Proof.
  revert s. induction n as [|n IH]; intros [|c s]; simpl; try done.
  specialize (IH s). destruct (split_at n s). simpl in *. by rewrite str_app_cons IH.
Qed.

Lemma split_at_0 s : split_at 0 s = ("", s).
Proof. by destruct s. Qed.

Lemma split_at_split_at i k s : (split_at k (split_at i s).2).2 = (split_at (i + k) s).2.
Proof.
  revert s. induction i as [|i IH]; intros [|c s]; simpl; try done; [by destruct k|].
  specialize (IH s). destruct (split_at i s) as [a b]. simpl in *. rewrite IH.
  by destruct (split_at (i + k) s).
Qed.

Lemma split_at_over n s : (String.length s ≤ n)%nat → split_at n s = (s, "").
Proof.
  revert s. induction n as [|n IH]; intros [|c s]; simpl; try done; [lia|].
  intros Hn. rewrite IH //. lia.
Qed.

Lemma chunks_concat n size s :
  (0 < size)%nat → (String.length s ≤ n)%nat → concat_str (chunks n size s) = s.
Proof.
  intros Hs. revert s. induction n as [|n IH]; intros [|c s] Hn; simpl; try done; [simpl in Hn; lia|].
  destruct size as [|size]; [lia|]. simpl. pose proof (split_at_join size s) as Hj.
  pose proof (split_at_length size s) as Hl. destruct (split_at size s) as [a b]. simpl in *.
  rewrite IH; [|lia]. by rewrite str_app_cons Hj.
Qed.

Lemma chunks_bound n size s x : x ∈ chunks n size s → (String.length x ≤ size)%nat.
Proof.
  revert s. induction n as [|n IH]; intros [|c s]; try (by intros ?%elem_of_nil).
  cbn [chunks]. pose proof (split_at_length_1 size (String c s)) as Hl.
  destruct (split_at size (String c s)) as [a b]. simpl in Hl.
  intros [->|Hx]%elem_of_cons; [lia|by eapply IH].
Qed.

(** The slices of [sendOpen]'s loop are these pieces. *)
Lemma send_body_chunks n id size i body c :
  (0 < size)%Z → (0 ≤ i)%Z → (Z.of_nat (String.length body) - i ≤ Z.of_nat n)%Z →
  send_body n id size i (i + size) body c =
    range_err (bodyFrame id <$> chunks n (Z.to_nat size) (split_at (Z.to_nat i) body).2) send_frame c.
Proof.
  intros Hs. revert i c. induction n as [|n IH]; intros i c Hi Hn; cbn [send_body].
  { case_decide; [lia|]. done. }
  pose proof (split_at_length (Z.to_nat i) body) as Hl.
  remember (split_at (Z.to_nat i) body).2 as rest eqn:Hr.
  case_decide as Hlt; [|destruct rest; [done|simpl in Hl; lia]].
  assert (chunks (S n) (Z.to_nat size) rest =
            (split_at (Z.to_nat size) rest).1 :: chunks n (Z.to_nat size) (split_at (Z.to_nat size) rest).2)
    as ->.
  { destruct rest; [simpl in Hl; lia|]. cbn [chunks].
    by destruct (split_at (Z.to_nat size) (String a rest)). }
  set (j := if decide _ then _ else _).
  assert (i < j ≤ Z.of_nat (String.length body))%Z as Hj by (rewrite /j; case_decide; lia).
  assert ((split_at (Z.to_nat (j - i)) rest).1 = (split_at (Z.to_nat size) rest).1 ∧
          chunks n (Z.to_nat size) (split_at (Z.to_nat size) rest).2 =
          chunks n (Z.to_nat size) (split_at (Z.to_nat j) body).2) as [Ha Hb].
  { rewrite /j. case_decide.
    - rewrite !split_at_over //; lia.
    - split; [do 2 f_equal; lia|]. rewrite Hr split_at_split_at. do 3 f_equal. lia. }
  rewrite fmap_cons Hb -Ha. cbn [range_err]. rewrite {1}/mbind /M_bind /slice.
  case_decide; [|lia]. rewrite -Hr. cbn [mret M_ret]. rewrite /try_then /mbind /M_bind.
  destruct (send_frame _ c) as [[[e|]|] c'']; try done.
  apply IH; lia.
Qed.

(** ** Bytes on the wire *)

Implicit Types c : Connection.

Definition sent c : string := w_sent (c_wire c).

(** The network delivers everything. *)
Definition healthy c : Prop := w_err (c_wire c) = None ∧ Forall (λ x, x = None) (w_faults (c_wire c)).

(** Sending changes the wire, and may start a shutdown. *)
Definition only_wire c c' : Prop :=
  ∃ w sp, c' = set_state (c_shut c) sp (c_stuck c) (set_wire w c).

Lemma only_wire_trans c1 c2 c3 : only_wire c1 c2 → only_wire c2 c3 → only_wire c1 c3.
Proof. intros (w & sp & ->) (w' & sp' & ->). by exists w', sp'. Qed.

(** What arrives is a beginning of what was to be sent, all of it when there is
    no error, and there is none over a healthy network. *)
Definition delivers c (b : string) (err : option error) c' : Prop :=
  only_wire c c' ∧
  (∃ pre suf, b = pre +:+ suf ∧ sent c' = sent c +:+ pre ∧ (err = None → suf = "")) ∧
  (healthy c → err = None ∧ healthy c').

Lemma wp_send_frame f b c :
  write_frame f = Ok b → wp (send_frame f) (delivers c b) (λ _ _, False) c.
Proof.
  intros Hb. apply wp_bind, wp_get. rewrite /WriteFrame Hb.
  assert (only_wire c c) as Hrefl by (by exists (c_wire c), (c_spawned c); destruct c).
  destruct (w_err (c_wire c)) as [e|] eqn:He.
  { apply wp_bind, wp_modify, wp_bind, wp_modify, wp_ret. split_and!.
    - by eexists _, _.
    - exists "", b. by rewrite /sent str_app_nil_r.
    - intros [? _]. congruence. }
  destruct (w_faults (c_wire c)) as [|[n|] fs] eqn:Hf.
  - apply wp_bind, wp_modify, wp_ret. split_and!; [by eexists _, (c_spawned c)| |by intros [? ?]].
    exists b, "". by rewrite str_app_nil_r.
  - apply wp_bind, wp_modify, wp_bind, wp_modify, wp_ret. split_and!; [by eexists _, _| |].
    + exists (split_at n b).1, (split_at n b).2. by rewrite split_at_join.
    + intros [_ H]. rewrite Hf in H. by inversion H.
  - apply wp_bind, wp_modify, wp_ret. split_and!; [by eexists _, (c_spawned c)| |].
    + exists b, "". by rewrite str_app_nil_r.
    + intros [_ H]. rewrite Hf in H. by inversion H.
Qed.

Definition encode_all (fs : list frame) : result string := write_all write_frame fs.

Lemma delivers_nil c : delivers c "" None c.
Proof.
  split_and!; [by exists (c_wire c), (c_spawned c); destruct c| |done].
  exists "", "". split_and!; [done|by rewrite str_app_nil_r|done].
Qed.

Lemma wp_send_frames fs b c :
  encode_all fs = Ok b → wp (range_err fs send_frame) (delivers c b) (λ _ _, False) c.
Proof.
  revert b c. induction fs as [|f fs IH]; intros b c; cbn [range_err].
  { intros [= <-]. apply wp_ret, delivers_nil. }
  intros (b1 & b2 & Hb1 & Hb2 & ->)%wapp_Ok. apply wp_try_then.
  eapply wp_mono; [by apply wp_send_frame| |done].
  intros [e|] c1 (Hw1 & (pre & suf & -> & Hs1 & Hn1) & Hh1).
  - split_and!; [done| |by intros []%Hh1]. exists pre, (suf +:+ b2). by rewrite str_app_assoc.
  - rewrite (Hn1 eq_refl) str_app_nil_r. eapply wp_mono; [by apply IH| |done].
    intros err c2 (Hw2 & (pre2 & suf2 & -> & Hs2 & Hn2) & Hh2). split_and!.
    + by eapply only_wire_trans.
    + exists (pre +:+ pre2), suf2. by rewrite Hs2 Hs1 !str_app_assoc.
    + intros [_ Hh]%Hh1. by apply Hh2.
Qed.

(** [sendOpen] sends the frames of the message, cut at the negotiated size. *)
Lemma sendOpen_frames id m props body c :
  getContent m = Some (props, body) → (c_FrameSize c ≤ 0 ∨ frameHeaderSize < c_FrameSize c)%Z →
  sendOpen id m c = range_err (content_frames id (c_FrameSize c) m props body) send_frame c.
Proof.
  intros Hm Hfs. rewrite /sendOpen Hm /content_frames. cbn [range_err].
  assert (∀ c', send_body (String.length body) id (chunk_size (c_FrameSize c) body) 0
                  (chunk_size (c_FrameSize c) body) body c' =
            range_err (bodyFrame id <$> chunks (String.length body)
              (Z.to_nat (chunk_size (c_FrameSize c) body)) body) send_frame c') as Hbody.
  { intros c'. destruct body as [|x body']; [done|].
    assert (0 < chunk_size (c_FrameSize c) (String x body'))%Z as Hsz.
    { rewrite /chunk_size /frameHeaderSize in Hfs |- *. case_decide; simpl; lia. }
    rewrite -{2}(Z.add_0_l (chunk_size _ _)) send_body_chunks; [|done|done|lia].
    by rewrite split_at_0. }
  rewrite {1}/mbind /M_bind /get. rewrite /try_then /mbind /M_bind.
  destruct (send_frame _ c) as [[[e|]|] c1]; try done.
  destruct (send_frame _ c1) as [[[e|]|] c2]; try done.
Qed.

Lemma wp_load p ch Q C c : c_heap c !! p = Some ch → Q ch c → wp (load p) Q C c.
Proof. intros Hp HQ. apply wp_bind, wp_get. rewrite Hp. by apply wp_ret. Qed.

(** ** Putting together *)

Section receive.
Context (id : Z) (p : nat).

(** The connection with the object of the channel replaced. *)
Definition at_ch (ch : Channel) c : Connection := set_heap (<[p := ch]> (c_heap c)) c.

Lemma at_ch_id ch c : c_heap c !! p = Some ch → at_ch ch c = c.
Proof. intros Hp. rewrite /at_ch /set_heap insert_id //. by destruct c. Qed.
Lemma load_at ch c : load p (at_ch ch c) = (Ret ch, at_ch ch c).
Proof. by rewrite /load /mbind /M_bind /get /= lookup_insert_eq. Qed.
Lemma update_at f ch c : update p f (at_ch ch c) = (Ret tt, at_ch (f ch) c).
Proof. rewrite /update /modify /at_ch /set_heap /=. by rewrite alter_insert_eq. Qed.

Lemma M_bind_Ret {A B} (m : MQ A) (k : A → MQ B) c a c' : m c = (Ret a, c') → (m ≫= k) c = k a c'.
Proof. rewrite /mbind /M_bind. by intros ->. Qed.

(** A frame with the number of an open channel goes to its object. *)
Lemma demux_recv f ch c :
  id ≠ 0%Z → c_channels c !! id = Some p → AmqpFrame.channel f (at_ch ch c) = (Ret id, at_ch ch c) →
  demux f (at_ch ch c) = recv p f (at_ch ch c).
Proof.
  intros Hid Hp Hf. rewrite /demux (M_bind_Ret _ _ _ _ _ Hf). case_decide; [done|].
  rewrite /dispatchN (M_bind_Ret _ _ _ _ _ Hf). rewrite /mbind /M_bind /get /=. by rewrite Hp.
Qed.

Fixpoint demux_all (fs : list frame) : MQ () :=
  match fs with
  | [] => mret tt
  | f :: fs => demux f;; c ← get; if c_stuck c then mret tt else demux_all fs
  end.

(** One frame more, when the reader does not have to wait. *)
Lemma demux_all_cons f fs c c' :
  demux f c = (Ret tt, c') → c_stuck c' = false → demux_all (f :: fs) c = demux_all fs c'.
Proof.
  intros Hf Hs. cbn [demux_all]. rewrite (M_bind_Ret _ _ _ _ _ Hf). rewrite /mbind /M_bind /get /=. by rewrite Hs.
Qed.
Lemma demux_all_one f c : demux_all [f] c = demux f c.
Proof.
  cbn [demux_all]. rewrite /mbind /M_bind /get. destruct (demux f c) as [[[]|] c']; [|done].
  by destruct (c_stuck c').
Qed.

(** The channel between the frames of a message. *)
Definition between (r : recv_state) (m : message) (h : option (Z * properties)) (b : string)
    (ch : Channel) : Channel := set_recv r (set_content (Some m) h b ch).

Lemma recv_method_at class n m props body ch c0 :
  ch_recv ch = recvMethod_state → getContent m = Some (props, body) →
  recv p (methodFrame id class n (Some m)) (at_ch ch c0) =
    (Ret tt, at_ch (between recvHeader_state m (ch_header ch) "" ch) c0).
Proof.
  intros Hr Hm. rewrite /recv (M_bind_Ret _ _ _ _ _ (load_at _ _)) Hr /recvMethod Hm.
  rewrite (M_bind_Ret _ _ _ _ _ (load_at _ _)) (M_bind_Ret _ _ _ _ _ (update_at _ _ _)).
  by rewrite /transition update_at.
Qed.

(** The last step: the content is set and the message dispatched. *)
Definition finish (m : message) : MQ () := dispatch p m;; transition p recvMethod_state.

Lemma complete_at r m size props b ch c0 :
  complete p (at_ch (between r m (Some (size, props)) b ch) c0) =
    finish (setContent props b m) (at_ch (between r m (Some (size, props)) b ch) c0).
Proof. by rewrite /complete (M_bind_Ret _ _ _ _ _ (load_at _ _)). Qed.

Lemma recv_header_empty class w props m h ch c0 :
  recv p (headerFrame id class w 0 props) (at_ch (between recvHeader_state m h "" ch) c0) =
    finish (setContent props "" m) (at_ch (between recvHeader_state m (Some (0%Z, props)) "" ch) c0).
Proof.
  rewrite /recv (M_bind_Ret _ _ _ _ _ (load_at _ _)) /= (M_bind_Ret _ _ _ _ _ (load_at _ _)).
  rewrite (M_bind_Ret _ _ _ _ _ (update_at _ _ _)). apply (complete_at recvHeader_state m 0 props "").
Qed.
Lemma recv_header_body class w size props m h ch c0 :
  size ≠ 0%Z →
  recv p (headerFrame id class w size props) (at_ch (between recvHeader_state m h "" ch) c0) =
    (Ret tt, at_ch (between recvContent_state m (Some (size, props)) "" ch) c0).
Proof.
  intros Hs. rewrite /recv (M_bind_Ret _ _ _ _ _ (load_at _ _)) /= (M_bind_Ret _ _ _ _ _ (load_at _ _)).
  rewrite (M_bind_Ret _ _ _ _ _ (update_at _ _ _)). case_decide; [done|].
  by rewrite /transition update_at.
Qed.

Lemma recv_body_at m size props b x ch c0 :
  recv p (bodyFrame id x) (at_ch (between recvContent_state m (Some (size, props)) b ch) c0) =
    if decide (size ≤ Z.of_nat (String.length (b +:+ x)))%Z then
      finish (setContent props (b +:+ x) m)
        (at_ch (between recvContent_state m (Some (size, props)) (b +:+ x) ch) c0)
    else (Ret tt, at_ch (between recvContent_state m (Some (size, props)) (b +:+ x) ch) c0).
Proof.
  rewrite /recv (M_bind_Ret _ _ _ _ _ (load_at _ _)) /= (M_bind_Ret _ _ _ _ _ (load_at _ _)).
  rewrite (M_bind_Ret _ _ _ _ _ (update_at _ _ _)) /=.
  case_decide; [apply (complete_at recvContent_state m size props (b +:+ x))|by rewrite /transition update_at].
Qed.

(** The pieces of a body accumulate until all of it has arrived. *)
Lemma demux_body m props bs b ch c0 :
  id ≠ 0%Z → c_channels c0 !! id = Some p → c_stuck c0 = false → bs ≠ [] → Forall (λ x, x ≠ "") bs →
  demux_all (bodyFrame id <$> bs)
    (at_ch (between recvContent_state m (Some (Z.of_nat (String.length (b +:+ concat_str bs)), props)) b ch) c0) =
    finish (setContent props (b +:+ concat_str bs) m)
      (at_ch (between recvContent_state m (Some (Z.of_nat (String.length (b +:+ concat_str bs)), props))
                (b +:+ concat_str bs) ch) c0).
Proof.
  intros Hid Hp Hst. revert b. induction bs as [|x bs IH]; intros b Hne Hbs; [done|].
  apply Forall_cons in Hbs as [Hx Hbs]. rewrite fmap_cons. cbn [concat_str foldr].
  destruct bs as [|y bs].
  - rewrite demux_all_one demux_recv // recv_body_at str_app_nil_r. case_decide; [done|lia].
  - erewrite demux_all_cons; [|rewrite demux_recv // recv_body_at; case_decide as Hle; [|done]|done].
    + rewrite str_app_assoc. by apply IH.
    + exfalso. apply Forall_cons in Hbs as [Hy _]. revert Hle. cbn [foldr]. rewrite !str_length_app.
      destruct y; [done|simpl; lia].
Qed.

Lemma chunks_nonempty n size s : (0 < size)%nat → Forall (λ x, x ≠ "") (chunks n size s).
Proof.
  intros Hs. revert s. induction n as [|n IH]; intros [|x s]; try by constructor.
  cbn [chunks]. destruct size as [|size]; [lia|]. simpl. destruct (split_at size s). by constructor.
Qed.

Lemma getContent_bare m props body : getContent m = Some (props, body) →
  getContent (bare m) = Some (zero_properties, "") ∧ setContent props body (bare m) = m ∧
  AmqpSpec.id (bare m) = AmqpSpec.id m.
Proof. by destruct m; intros [= <- <-]. Qed.

(** The frames of a message lead to the dispatch of the message. *)
Lemma demux_content FrameSize m props body ch c0 :
  id ≠ 0%Z → c_channels c0 !! id = Some p → c_stuck c0 = false → ch_recv ch = recvMethod_state →
  getContent m = Some (props, body) → (FrameSize ≤ 0 ∨ frameHeaderSize < FrameSize)%Z →
  ∃ r h, demux_all (received <$> content_frames id FrameSize m props body) (at_ch ch c0) =
           finish m (at_ch (between r (bare m) h body ch) c0).
Proof.
  intros Hid Hp Hst Hr Hm Hfs. destruct (getContent_bare _ _ _ Hm) as (Hb & Hset & _).
  rewrite /content_frames !fmap_cons. cbn [received method_frame].
  erewrite demux_all_cons; [|by rewrite demux_recv // (recv_method_at _ _ _ _ _ _ _ Hr Hb)|done].
  destruct (decide (body = "")) as [->|Hne].
  - rewrite demux_all_one demux_recv // recv_header_empty Hset. by eauto.
  - erewrite demux_all_cons; [|by rewrite demux_recv // recv_header_body //; destruct body|done].
    set (bs := chunks _ _ body).
    assert (0 < Z.to_nat (chunk_size FrameSize body))%nat as Hsz.
    { rewrite /chunk_size /frameHeaderSize in Hfs |- *. destruct body; [done|]. case_decide; simpl; lia. }
    assert (concat_str bs = body) as Hbs by (apply chunks_concat; [done|lia]).
    rewrite -list_fmap_compose -{2}(str_app_nil_l body) -Hbs.
    rewrite (demux_body _ props bs "") //.
    + rewrite str_app_nil_l Hbs Hset. by eauto.
    + intros Hnil. by rewrite Hnil /= in Hbs.
    + by apply chunks_nonempty.
Qed.
End receive.

(** ** From bytes to frames *)

Lemma reader_frames fs b n rest c :
  encode_all fs = Ok b → Forall (λ f, wf_frame f = true) fs → c_stuck c = false →
  reader_go (length fs + n) (b +:+ rest) c =
    (demux_all (received <$> fs) ≫= λ _, c ← get; if c_stuck c then mret tt else reader_go n rest) c.
Proof.
  intros Hb Hfs. revert b c Hb. induction Hfs as [|f fs Hf Hfs IH]; intros b c.
  { intros [= <-] Hst. rewrite /mbind /M_bind /= /get. by rewrite Hst. }
  intros (b1 & b2 & Hb1 & Hb2 & ->)%wapp_Ok Hst. rewrite fmap_cons -str_app_assoc.
  cbn [length Nat.add reader_go demux_all]. rewrite (reads_Frame f Hf b1 _ Hb1).
  rewrite /mbind /M_bind /get. destruct (demux (received f) c) as [[[]|] c1]; [|done].
  destruct (c_stuck c1) eqn:Hst1; [by rewrite /= Hst1|]. by rewrite IH.
Qed.

(** Supported values have an encoding. *)
Lemma wf_table_Ok t : wf_table t = true → ∃ b, writeTable t = Ok b.
Proof.
  intros (_ & _ & Hw)%wf_table_inv. rewrite /writeTable /writeTable_with.
  fold (write_pairs writeField t). destruct (write_pairs writeField t); [|done]. by eexists.
Qed.

Lemma wapp_total w1 w2 : (∃ b, w1 = Ok b) → (∃ b, w2 = Ok b) → ∃ b, w1 +?+ w2 = Ok b.
Proof. intros [b1 ->] [b2 ->]. by eexists. Qed.
Lemma write_if_total mask flag w : (∃ b, w = Ok b) → ∃ b, write_if mask flag w = Ok b.
Proof. rewrite /write_if. destruct (hasProperty _ _); eauto. Qed.

Lemma header_total id class w size p :
  wf_table (Headers p) = true → ∃ b, write_frame (headerFrame id class w size p) = Ok b.
Proof.
  intros Ht%wf_table_Ok. cbn [write_frame].
  assert (∃ b, header_payload class w size p = Ok b) as [b ->]; [|by eexists].
  repeat apply wapp_total; try (by eexists); apply write_if_total; try done; by eexists.
Qed.

Lemma write_all_total {A} (f : A → result string) l :
  (∀ x, x ∈ l → ∃ b, f x = Ok b) → ∃ b, write_all f l = Ok b.
Proof.
  induction l as [|x l IH]; intros Hl; [by eexists|]. cbn [write_all]. apply wapp_total.
  - apply Hl. by left.
  - apply IH. intros y Hy. apply Hl. by right.
Qed.

(** The conditions under which a message can be sent as it is. *)
Record sendable (id FrameSize : Z) (m : message) (props : properties) (body : string) : Prop := {
  sd_content : getContent m = Some (props, body);
  sd_id : in_u 2 id = true;
  sd_message : wf_message m = true;
  sd_written : ∃ b, write_message m = Ok b;
  sd_props : wf_properties props = true;
  sd_body : shorter (2 ^ 32) body = true;
  sd_size : (FrameSize ≤ 0 ∨ frameHeaderSize < FrameSize)%Z;
}.

Lemma wf_properties_headers p : wf_properties p = true → wf_table (Headers p) = true.
Proof. rewrite /wf_properties. intros H. by split_wf H. Qed.

Lemma chunks_shorter n size s x : x ∈ chunks n size s → (String.length x ≤ String.length s)%nat.
Proof.
  revert s. induction n as [|n IH]; intros [|a s]; try (by intros ?%elem_of_nil).
  cbn [chunks]. pose proof (split_at_length_1 size (String a s)) as H1.
  pose proof (split_at_length size (String a s)) as H2.
  destruct (split_at size (String a s)) as [u v]. simpl in H1, H2.
  intros [->|Hx]%elem_of_cons; [simpl; lia|]. apply IH in Hx. simpl. lia.
Qed.

Lemma content_frames_wf id FrameSize m props body :
  sendable id FrameSize m props body →
  Forall (λ f, wf_frame f = true) (content_frames id FrameSize m props body).
Proof.
  intros [Hc Hid Hm _ Hp Hb%bool_decide_eq_true _]. repeat (apply Forall_cons; split).
  - cbn [method_frame wf_frame]. by rewrite Hid Hm.
  - cbn [wf_frame]. rewrite Hid (proj1 (id_bound m)) Hp /=. rewrite andb_true_r.
    apply bool_decide_eq_true. lia.
  - apply Forall_fmap, Forall_forall. intros x Hx%chunks_shorter. cbn. rewrite Hid.
    apply bool_decide_eq_true. lia.
Qed.

Lemma content_frames_total id FrameSize m props body :
  sendable id FrameSize m props body →
  ∃ b, encode_all (content_frames id FrameSize m props body) = Ok b.
Proof.
  intros [Hc Hid Hm [bm Hw] Hp Hb _]. apply write_all_total. intros f.
  rewrite /content_frames !elem_of_cons. intros [->|[->|(x & -> & _)%list_elem_of_fmap]].
  - cbn [method_frame write_frame]. rewrite /method_payload Hw. by eexists.
  - by apply header_total, wf_properties_headers.
  - by eexists.
Qed.

(** Sending a message that can be sent puts its frames on the wire. *)
Lemma wp_send_content p ch m props body c :
  c_heap c !! p = Some ch → ch_open ch = true → sendable (ch_id ch) (c_FrameSize c) m props body →
  wp (send p m)
    (λ err c', ∃ b, encode_all (content_frames (ch_id ch) (c_FrameSize c) m props body) = Ok b ∧
       delivers c b err c')
    (λ _ _, False) c.
Proof.
  intros Hp Ho Hs. destruct (content_frames_total _ _ _ _ _ Hs) as [b Hb].
  apply wp_bind, (wp_load _ ch); [done|]. rewrite Ho /wp (sendOpen_frames _ _ props body); [|apply Hs..].
  pose proof (wp_send_frames _ b c Hb) as Hw. rewrite /wp in Hw.
  destruct (range_err _ _ _) as [[err|] c']; [|done]. eauto.
Qed.

(** Counting a publishing is local to the channel. *)
Lemma wp_count p ch Q C c :
  c_heap c !! p = Some ch → (∀ c', sent c' = sent c → Q None c') →
  wp (if ch_confirming ch then _ ← on_confirms p AmqpConfirms.Publish; mret None else mret (@None error)) Q C c.
Proof.
  intros Hp HQ. destruct (ch_confirming ch); [|by apply wp_ret, HQ].
  apply wp_bind, wp_bind, (wp_load _ ch); [done|]. by apply wp_bind, wp_modify, wp_ret, wp_ret, HQ.
Qed.

End AmqpTransfer.
