(* ===== verification/AmqpCorrect.v ===== *)
(** * What the AMQP client guarantees

    Theorems about the client library the notifications go through
    ([src/src/github.com/streadway/amqp]): frames are read back as written and
    reading always ends, a published message arrives as it was, no channel number
    is given out twice, confirmations are passed on in order. *)

From S2P Require Import Prelude GoStrings AmqpWire AmqpSpec AmqpFrame AmqpAlloc AmqpConfirms AmqpChannel AmqpTransfer.

Module AmqpCorrect.
Import AmqpWire AmqpSpec AmqpFrame AmqpChannel AmqpTransfer.

(** ** Frames *)

(** C25: Whatever frame is written (any of the methods of the protocol, a header
    with any properties and a table of headers, a body, a heartbeat), the reader
    takes exactly its bytes and returns the same frame, a method frame with the
    class and method numbers filled in. *)
Theorem amqp_frame_roundtrip f b rest :
  wf_frame f = true → write_frame f = Ok b → ReadFrame (b +:+ rest) = (Ret (Ok (received f)), rest).
Proof. intros Hf Hb. by apply reads_Frame. Qed.

(** C26: On every sequence of bytes, whatever a peer sends, [ReadFrame] ends with a
    frame or an error and leaves an end of the input for the next one; the only panic
    is that of a byte array whose length is negative. *)
Theorem amqp_read_total s :
  match ReadFrame s with
  | (Ret _, rest) => ∃ taken, s = taken +:+ rest
  | (Crash x, _) => x = makeslice_panic
  end.
Proof.
  pose proof (consumes_Frame s) as H. rewrite /wp in H. by destruct (ReadFrame s) as [[r|x] rest].
Qed.

(** ** Channel numbers *)

(** Whatever sequence of requests for a channel number and releases a
    connection makes, the answers are those of a set of numbers in use: a number
    between the bounds that is not in use, and a refusal only when all of them
    are. *)
Theorem amqp_channel_numbers lo hi os :
  (lo ≤ hi)%Z → Forall (AmqpAlloc.releasable lo) os →
  ∃ rs a S, AmqpAlloc.run os (AmqpAlloc.newAllocator lo hi) = (Ret rs, a) ∧
    AmqpAlloc.trace lo hi ∅ os rs S ∧ ∀ n, n ∈ S ↔ AmqpAlloc.used a n.
Proof.
  intros Hle Hos. destruct (AmqpAlloc.run os (AmqpAlloc.newAllocator lo hi)) as [o a] eqn:E.
  destruct (wp_total _ _ _ _ _ (AmqpAlloc.wp_alloc_run lo hi os _ ∅ (AmqpAlloc.rel_new _ _ Hle) Hos) E)
    as (rs & -> & S & Htr & Hrel). exists rs, a, S. split_and!; [done..|]. apply Hrel.
Qed.

(** ** Confirmations *)

(** C27: In every history of a channel in confirm mode, in whatever order and how
    often the server confirms, the listener has received exactly one confirmation
    for each of the tags 1, 2, ... up to the one before the next expected, in this
    order. *)
Theorem amqp_confirms_in_order l c :
  AmqpConfirms.reach l c →
  AmqpConfirms.DeliveryTag <$> AmqpConfirms.seen l c = AmqpConfirms.tags (AmqpConfirms.expecting c - 1).
Proof. intros Hc%AmqpConfirms.reach_ordered. apply Hc. Qed.

(** ** Messages *)

(** The message of a publishing. *)
Definition publishing (exchange key : string) (mandatory immediate : bool) (props : properties)
    (body : string) : message := basicPublish 0 exchange key mandatory immediate props body.

(** The bytes of its frames. *)
Definition publish_bytes (id FrameSize : Z) (m : message) : result string :=
  match getContent m with
  | Some (props, body) => encode_all (content_frames id FrameSize m props body)
  | None => write_frame (method_frame id m)
  end.

Lemma wp_Publish_bytes p ch exchange key mandatory immediate props body c :
  c_heap c !! p = Some ch → ch_open ch = true →
  sendable (ch_id ch) (c_FrameSize c) (publishing exchange key mandatory immediate props body) props body →
  wp (Publish p exchange key mandatory immediate props body)
    (λ err c', (healthy c → Validate (Headers props) = None → err = None) ∧
       (err = None → ∃ b, sent c' = sent c +:+ b ∧
         publish_bytes (ch_id ch) (c_FrameSize c)
           (publishing exchange key mandatory immediate props body) = Ok b))
    (λ _ _, False) c.
Proof.
  intros Hp Ho Hs. rewrite /Publish. destruct (Validate (Headers props)); [by apply wp_ret|].
  apply wp_try_then. eapply wp_mono; [exact (wp_send_content _ ch _ props body _ Hp Ho Hs)| |done].
  intros [e|] c1 (b & Hb & (w & sp & Hc1) & (pre & suf & -> & Hsent & Hsuf) & Hh).
  { split; [|done]. by intros [? _]%Hh. }
  apply wp_bind, (wp_load _ ch); [by rewrite Hc1|]. apply wp_count; [by rewrite Hc1|].
  intros c2 Hc2. split; [done|]. intros _. exists (pre +:+ suf). split; [|exact Hb].
  by rewrite Hc2 Hsent (Hsuf eq_refl) str_app_nil_r.
Qed.

(** The receiver of a publishing is handed it as a message. *)
Lemma finish_publish q exchange key mandatory immediate props body ch c :
  ∃ c', finish q (publishing exchange key mandatory immediate props body) (at_ch q ch c) = (Ret tt, c') ∧
    c_events c' = c_events c ++ [EvRpc (Some q) (publishing exchange key mandatory immediate props body)] ∧
    c_stuck c' = c_stuck c.
Proof. by eexists. Qed.

(** C28: [Publish] on an open channel always returns, without an error when the
    network delivers and the headers are valid.  When it reports success, the bytes
    it put on the wire are such that a peer that has the channel open, and reads
    them with the reader of this package, is handed exactly this message: exchange,
    routing key, flags, properties and the whole body, however it was cut into
    frames. *)
Theorem amqp_publish_arrives p ch exchange key mandatory immediate props body c :
  let m := publishing exchange key mandatory immediate props body in
  c_heap c !! p = Some ch → ch_open ch = true → sendable (ch_id ch) (c_FrameSize c) m props body →
  ∃ err c', Publish p exchange key mandatory immediate props body c = (Ret err, c') ∧
    (healthy c → Validate (Headers props) = None → err = None) ∧
    (err = None → ∃ b, sent c' = sent c +:+ b ∧
      ∀ q chq c0, ch_id ch ≠ 0%Z → c_channels c0 !! ch_id ch = Some q → c_heap c0 !! q = Some chq →
        ch_recv chq = recvMethod_state → c_stuck c0 = false →
        ∃ k c1, c_events c1 = c_events c0 ++ [EvRpc (Some q) m] ∧
          ∀ n rest, reader_go (k + n) (b +:+ rest) c0 = reader_go n rest c1).
Proof.
  intros m Hp Ho Hs. destruct (Publish p exchange key mandatory immediate props body c) as [o c'] eqn:Hrun.
  destruct (wp_total _ _ _ _ _ (wp_Publish_bytes _ _ _ _ _ _ _ _ _ Hp Ho Hs) Hrun) as (err & -> & Hh & Hb).
  exists err, c'. split_and!; [done..|]. intros Herr. destruct (Hb Herr) as (b & Hsent & Henc).
  exists b. split; [done|]. intros q chq c0 Hid Hq Hheap Hr Hst.
  set (fs := content_frames (ch_id ch) (c_FrameSize c) m props body).
  destruct (demux_content (ch_id ch) q (c_FrameSize c) m props body chq c0) as (r & h & Hdem);
    [done|done|done|done|apply Hs|apply Hs|]. rewrite (at_ch_id q chq c0 Hheap) in Hdem.
  destruct (finish_publish q exchange key mandatory immediate props body
              (between r (bare m) h body chq) c0) as (c1 & Hfin & Hev & Hst1).
  exists (length fs), c1. split; [done|]. intros n rest.
  rewrite (reader_frames fs b n rest c0); [|exact Henc|by apply content_frames_wf|done].
  rewrite /mbind /M_bind -/fs in Hdem |- *. rewrite Hdem Hfin /get /=. by rewrite Hst1 Hst.
Qed.

(** A message with content is sent as its method, its header and body frames
    none of which is larger than the frame size negotiated with the server; the
    body frames carry the body, in order. *)
Theorem amqp_body_frames_fit id m props body c :
  getContent m = Some (props, body) → (frameHeaderSize < c_FrameSize c)%Z →
  ∃ bs, sendOpen id m c =
      range_err (method_frame id m :: headerFrame id (AmqpSpec.id m).1 0 (Z.of_nat (String.length body)) props ::
        (bodyFrame id <$> bs)) send_frame c ∧
    concat_str bs = body ∧
    ∀ x b, x ∈ bs → write_frame (bodyFrame id x) = Ok b → (Z.of_nat (String.length b) ≤ c_FrameSize c)%Z.
Proof.
  intros Hm Hfs. eexists. split; [by apply sendOpen_frames; [|right]|].
  rewrite /chunk_size. rewrite /frameHeaderSize in Hfs |- *.
  case_decide; [|lia]. split; [apply chunks_concat; lia|].
  intros x b Hx%chunks_bound [= <-]. rewrite writeFrame_be !str_length_app /=. lia.
Qed.

(** ** Runs that satisfy the hypotheses *)

Definition wit_props : properties :=
  mkProperties "application/json" "" [("n", FInt32 (-5)); ("a", FArray [FBool true; FNil])] 2 0
    "" "" "" "" (mkTime 1450000000 0) "" "" "bundler" "".
Definition wit_frame : frame := headerFrame 1 60 0 11 wit_props.

Lemma amqp_frame_roundtrip_witness :
  ∃ b, write_frame wit_frame = Ok b ∧ ReadFrame (b +:+ "next") = (Ret (Ok wit_frame), "next").
Proof.
  eexists. split; [reflexivity|]. apply (amqp_frame_roundtrip wit_frame); vm_compute; reflexivity.
Defined.

Lemma amqp_channel_numbers_witness :
  ∃ rs a S, AmqpAlloc.run [AmqpAlloc.Next; AmqpAlloc.Next; AmqpAlloc.Next; AmqpAlloc.Release 1; AmqpAlloc.Next]
      (AmqpAlloc.newAllocator 1 2) = (Ret rs, a) ∧
    AmqpAlloc.trace 1 2 ∅ [AmqpAlloc.Next; AmqpAlloc.Next; AmqpAlloc.Next; AmqpAlloc.Release 1; AmqpAlloc.Next] rs S ∧
    ∀ n, n ∈ S ↔ AmqpAlloc.used a n.
Proof. apply amqp_channel_numbers; [lia|]. repeat constructor; simpl; lia. Defined.

(** Three publishings, confirmed as 3, then 1, then up to 2. *)
Definition wit_listening : AmqpConfirms.confirms := (AmqpConfirms.Listen 7 AmqpConfirms.newConfirms).2.
Definition wit_published1 : AmqpConfirms.confirms := (AmqpConfirms.Publish wit_listening).2.
Definition wit_published2 : AmqpConfirms.confirms := (AmqpConfirms.Publish wit_published1).2.
Definition wit_published3 : AmqpConfirms.confirms := (AmqpConfirms.Publish wit_published2).2.
Definition wit_third : AmqpConfirms.confirms :=
  (AmqpConfirms.One (AmqpConfirms.mkConfirmation 3 true) wit_published3).2.
Definition wit_first : AmqpConfirms.confirms :=
  (AmqpConfirms.One (AmqpConfirms.mkConfirmation 1 true) wit_third).2.
Definition wit_second : AmqpConfirms.confirms :=
  (AmqpConfirms.Multiple (AmqpConfirms.mkConfirmation 2 false) wit_first).2.

Lemma wit_reach_published : AmqpConfirms.reach 7 wit_published3.
Proof.
  apply (AmqpConfirms.reach_publish 7 wit_published2 3 wit_published3); [|vm_compute; reflexivity..].
  apply (AmqpConfirms.reach_publish 7 wit_published1 2 wit_published2); [|vm_compute; reflexivity..].
  apply (AmqpConfirms.reach_publish 7 wit_listening 1 wit_published1); [|vm_compute; reflexivity..].
  apply AmqpConfirms.reach_listen. vm_compute. reflexivity.
Qed.
Lemma wit_reach : AmqpConfirms.reach 7 wit_second.
Proof.
  apply (AmqpConfirms.reach_multiple 7 wit_first (AmqpConfirms.mkConfirmation 2 false)); [|vm_compute; reflexivity..].
  apply (AmqpConfirms.reach_one 7 wit_third (AmqpConfirms.mkConfirmation 1 true)); [|vm_compute; reflexivity..].
  apply (AmqpConfirms.reach_one 7 wit_published3 (AmqpConfirms.mkConfirmation 3 true)); [|vm_compute; reflexivity..].
  apply wit_reach_published.
Qed.

Lemma amqp_confirms_in_order_witness :
  AmqpConfirms.expecting wit_second = 3%Z ∧
  AmqpConfirms.DeliveryTag <$> AmqpConfirms.seen 7 wit_second = [1; 2]%Z.
Proof.
  split; [vm_compute; reflexivity|].
  rewrite (amqp_confirms_in_order 7 wit_second wit_reach). vm_compute. reflexivity.
Defined.

(** A connection with one open channel, number 1, and frames of 20 bytes. *)
Definition wit_conn : Connection :=
  mkConnection (mkWire "" None []) 20 (AmqpAlloc.mkAllocator 1 1 1 10) {[0 := newChannel 1]} {[1%Z := 0]} 1
    [] [] false [] false [] [] None.
Definition wit_body : string := "{type: app_updated, app_id: a1}".
Definition wit_publish : M Connection (option error) :=
  Publish 0 "siphon.apps.notifications" "" false false wit_props wit_body.

Lemma wit_sendable :
  sendable 1 20 (publishing "siphon.apps.notifications" "" false false wit_props wit_body) wit_props wit_body.
Proof. split; try (vm_compute; reflexivity); [by eexists|by right]. Qed.

Lemma amqp_publish_arrives_witness :
  (wit_publish wit_conn).1 = Ret None ∧
  ∃ b, sent (wit_publish wit_conn).2 = "" +:+ b ∧
    ∃ k c1, c_events c1 = [EvRpc (Some 0) (publishing "siphon.apps.notifications" "" false false wit_props wit_body)] ∧
      ∀ n rest, reader_go (k + n) (b +:+ rest) wit_conn = reader_go n rest c1.
Proof.
  destruct (amqp_publish_arrives 0 (newChannel 1) "siphon.apps.notifications" "" false false wit_props wit_body
    wit_conn eq_refl eq_refl wit_sendable) as (err & c' & Hrun & Hok & Harr).
  assert (err = None) as Herr by (apply Hok; [by split; [|constructor]|vm_compute; reflexivity]).
  destruct (Harr Herr) as (b & Hb & Hrd). rewrite /wit_publish Hrun Herr /=. split; [done|]. exists b.
  split; [exact Hb|].
  destruct (Hrd 0 (newChannel 1) wit_conn) as (k & c1 & Hev & Hgo); try done. by exists k, c1.
Defined.

Lemma amqp_body_frames_fit_witness :
  let m := publishing "x" "" false false wit_props wit_body in
  ∃ bs, sendOpen 1 m wit_conn =
      range_err (method_frame 1 m :: headerFrame 1 60 0 31 wit_props :: (bodyFrame 1 <$> bs)) send_frame wit_conn ∧
    concat_str bs = wit_body ∧
    ∀ x b, x ∈ bs → write_frame (bodyFrame 1 x) = Ok b → (Z.of_nat (String.length b) ≤ 20)%Z.
Proof. intros m. apply (amqp_body_frames_fit 1 m wit_props wit_body wit_conn); reflexivity. Defined.

(** ** Where the code does something else than it says *)

(** A short string of 256 bytes is silently sent as the empty string. *)
Example amqp_shortstr_truncated :
  writeShortstr (Nat.iter 256 (String "a"%char) "") = Ok (be 1 0).
Proof. vm_compute. reflexivity. Qed.

(** A byte array with a negative length in a table makes the reader panic. *)
Example amqp_negative_bytes_panic : readField ("x" +:+ be 4 (-1)) = (Crash makeslice_panic, "").
Proof. vm_compute. reflexivity. Qed.

(** After an array whose last value is cut off before its first byte, the value is
    dropped without an error. *)
Example amqp_array_cut_off : (readField ("A" +:+ be 4 3 +:+ "V" +:+ "V" +:+ "t")).1 = Ret (Ok (FArray [FNil; FNil])).
Proof. vm_compute. reflexivity. Qed.

(** Tag 3 is confirmed and is the next expected, but the listener is not told:
    [Multiple] does not look at the confirmations that arrived early. *)
Example amqp_multiple_withholds :
  AmqpConfirms.expecting wit_second = 3%Z ∧ AmqpConfirms.published wit_second = 3%Z ∧
  AmqpConfirms.sequencer wit_second !! 3%Z = Some (AmqpConfirms.mkConfirmation 3 true).
Proof. vm_compute. done. Qed.

(** [Confirm(noWait)] waits for an answer all the same. *)
Example amqp_confirm_nowait_waits : (Confirm 0 true wit_conn).1 = Crash blocked_forever.
Proof. vm_compute. reflexivity. Qed.

(** A frame size of eight bytes leaves no room for a body: the loop never ends. *)
Definition wit_tiny : Connection :=
  mkConnection (mkWire "" None []) 8 (AmqpAlloc.mkAllocator 1 1 1 10) {[0 := newChannel 1]} {[1%Z := 0]} 1
    [] [] false [] false [] [] None.
Example amqp_tiny_frames_hang : (Publish 0 "x" "" false false wit_props "b" wit_tiny).1 = Crash (Fatal "does not return").
Proof. vm_compute. reflexivity. Qed.

(** A channel the server closed, and whose number another channel has since: when
    the old one is closed once more, the new one is removed and its number freed. *)
Definition wit_stale : Connection :=
  ((demux (methodFrame 1 20 40 (Some (channelClose 404 "NOT_FOUND" 60 40)));;
    allocateChannel;;
    Close 0) wit_conn).2.
Example amqp_stale_close :
  ch_open <$> c_heap wit_stale !! 1 = Some true ∧ ch_id <$> c_heap wit_stale !! 1 = Some 1%Z ∧
  c_channels wit_stale !! 1%Z = None ∧ (AmqpAlloc.next (c_alloc wit_stale)).1 = Ret (1%Z, true).
Proof. vm_compute. done. Qed.

End AmqpCorrect.
