(* ===== verification/AmqpOpen.v ===== *)
(** * streadway/amqp: opening a connection

    [src/src/github.com/streadway/amqp]: [uri.go] (AMQP URIs), [auth.go] (SASL
    mechanisms) and the handshake of [connection.go], from [Dial] to the message
    that ends the opening.  [url.Parse], the transport and the TLS client are
    arguments; read deadlines are not modelled. *)

From S2P Require Import Prelude GoStrings GoFloat GoUrl AmqpWire AmqpSpec AmqpFrame AmqpAlloc AmqpConfirms AmqpChannel AmqpHeartbeat.

Module AmqpOpen.
Import AmqpWire AmqpSpec AmqpFrame AmqpChannel.

(** ** URIs *)

Definition errURIScheme : error := ErrorS "AMQP scheme must be either 'amqp://' or 'amqps://'".

Definition schemePorts (scheme : string) : option Z :=
  if decide (scheme = "amqp") then Some 5672%Z
  else if decide (scheme = "amqps") then Some 5671%Z else None.

Record URI := mkURI {
  Scheme : string;
  Host : string;
  Port : Z;
  Username : string;
  Password : string;
  Vhost : string;
}.
Definition defaultURI : URI := mkURI "amqp" "localhost" 5672 "guest" "guest" "/".

(** What [url.Parse] returns: the user with a password, if there is one. *)
Record URL := mkURL {
  u_Scheme : string;
  u_Host : string;
  u_User : option (string * option string);
  u_Path : string;
}.

(** The text before and after the last occurrence of a byte. *)
Fixpoint split_last (c : ascii) (s : string) : option (string * string) :=
  match s with
  | "" => None
  | String d t =>
      match split_last c t with
      | Some (a, b) => Some (String d a, b)
      | None => if decide (d = c) then Some ("", t) else None
      end
  end.

Definition splitHostPort (addr : string) : string * string :=
  match split_last ":"%char addr with
  | Some (host, port) =>
      if HasSuffix port "]" && HasPrefix addr "[" then (addr, "") else (host, port)
  | None => (addr, "")
  end.

(** [strconv.ParseInt(s, 10, bits)] *)
Definition ParseInt (s : string) (bits : Z) : result Z :=
  let '(neg, t) := match s with
                   | String c t => if decide (c = "-"%char) then (true, t)
                                   else if decide (c = "+"%char) then (false, t) else (false, s)
                   | "" => (false, s) end in
  match read_digits t 0 0 with
  | (v, S _, "") =>
      let v := if neg then (- v)%Z else v in
      if decide (- 2 ^ (bits - 1) ≤ v < 2 ^ (bits - 1))%Z then Ok v
      else Err (ErrorS ("strconv.ParseInt: parsing " +:+ s +:+ ": value out of range"))
  | _ => Err (ErrorS ("strconv.ParseInt: parsing " +:+ s +:+ ": invalid syntax"))
  end.

(** [strconv.FormatInt(v, 10)] *)
Definition FormatInt (v : Z) : string := pretty v.

(** The virtual host a path names. *)
Definition vhost_of (host path dflt : string) : string :=
  if decide (path = "") then dflt
  else if HasPrefix path "/" then
    match strip_prefix "///" path with
    | Some rest =>
        if decide (host = "") then (if decide (rest = "") then dflt else rest)
        else default dflt (strip_prefix "/" path)
    | None =>
        match strip_prefix "/" path with
        | Some rest => if decide (rest = "") then dflt else rest
        | None => dflt
        end
    end
  else path.

Definition ParseURI (url_Parse : string → result URL) (uri : string) : result URI :=
  match url_Parse uri with
  | Err e => Err e
  | Ok u =>
      match schemePorts (u_Scheme u) with
      | None => Err errURIScheme
      | Some defaultPort =>
          let '(host, port) := splitHostPort (u_Host u) in
          let host := if decide (host = "") then Host defaultURI else host in
          match (if decide (port = "") then Ok defaultPort else ParseInt port 32) with
          | Err e => Err e
          | Ok port =>
              let user := match u_User u with Some (n, _) => n | None => Username defaultURI end in
              let password := match u_User u with
                              | Some (_, Some p) => p
                              | _ => Password defaultURI end in
              Ok (mkURI (u_Scheme u) host port user password
                    (vhost_of (u_Host u) (u_Path u) (Vhost defaultURI)))
          end
      end
  end.

(** [URI.String] *)
Definition URI_String (me : URI) : string :=
  let authority :=
    if decide (Username me ≠ Username defaultURI ∨ Password me ≠ Password defaultURI) then
      Username me +:+ (if decide (Password me ≠ Password defaultURI) then ":" +:+ Password me else "") +:+ "@"
    else "" in
  let authority := authority +:+ Host me in
  let authority :=
    if decide (schemePorts (Scheme me) = Some (Port me)) then authority
    else authority +:+ ":" +:+ FormatInt (Port me) in
  let vhost := if decide (Vhost me ≠ Vhost defaultURI) then Vhost me else "" in
  Scheme me +:+ "://" +:+ authority +:+ "/" +:+ QueryEscape vhost.

(** ** SASL *)

(** An [Authentication]: what its two methods return. *)
Record Authentication := mkAuthentication { Mechanism : string; Response : string }.

Definition nul : string := String (ascii_of_nat 0) "".
Definition PlainAuth (user password : string) : Authentication :=
  mkAuthentication "PLAIN" (nul +:+ user +:+ nul +:+ password).
Definition URI_PlainAuth (me : URI) : Authentication := PlainAuth (Username me) (Password me).

Fixpoint pickSASLMechanism (client : list Authentication) (serverMechanisms : list string) :
    option Authentication :=
  match client with
  | [] => None
  | auth :: client =>
      if existsb (λ mech, bool_decide (Mechanism auth = mech)) serverMechanisms then Some auth
      else pickSASLMechanism client serverMechanisms
  end.

(** ** The handshake *)

Record Config := mkConfig {
  (** [None] is nil. *)
  SASL : option (list Authentication);
  cfg_Vhost : string;
  cfg_ChannelMax : Z;
  cfg_FrameSize : Z;
  (** nanoseconds *)
  cfg_Heartbeat : Z;
  cfg_Properties : Table;
  (** The [ServerName] of a [tls.Config]. *)
  TLSClientConfig : option string;
}.

Definition ErrSASL : error := AmqpError 403 "SASL could not negotiate a shared mechanism" false false.
Definition ErrCredentials : error := AmqpError 403 "username or password not allowed" false false.
Definition ErrVhost : error := AmqpError 403 "no access to this vhost" false false.

Definition second : Z := 1000000000.
Definition defaultHeartbeat : Z := 10 * second.
Definition defaultProduct : string := "https://github.com/streadway/amqp".
(** A Greek beta in UTF-8. *)
Definition defaultVersion : string := String (ascii_of_nat 206) (String (ascii_of_nat 178) "").

(** The fields of a connection that the handshake fills in. *)
Record negotiated := mkNegotiated {
  n_Major : Z;
  n_Minor : Z;
  n_Properties : Table;
  n_SASL : Authentication;
  n_ChannelMax : Z;
  n_FrameSize : Z;
  n_Heartbeat : Z;
  n_Vhost : string;
}.

Definition set_tuned (FrameSize : Z) (c : Connection) : Connection :=
  mkConnection (c_wire c) FrameSize (c_alloc c) (c_heap c) (c_channels c) (c_next c) (c_closes c) (c_blocks c)
    (c_shut c) (c_spawned c) (c_stuck c) (c_events c) (c_answers c) (c_heart c).
Definition set_alloc (a : AmqpAlloc.allocator) (c : Connection) : Connection :=
  set_registry a (c_heap c) (c_channels c) (c_next c) c.

Definition openVhost (vhost : string) (ChannelMax : Z) : MQ (result ()) :=
  r ← conn_call (connectionOpen vhost "" false) [connectionOpenOk ""];
  match r with
  | Err _ => mret (Err ErrVhost)
  | Ok _ => modify (set_alloc (openComplete ChannelMax));; mret (Ok tt)
  end.

(** The properties of the client; [capabilities] is set in the caller's own table
    when there is one. *)
Definition client_properties (props : Table) : Table :=
  let props := if decide (length props = 0) then [("product", FString defaultProduct); ("version", FString defaultVersion)]
               else props in
  table_insert "capabilities"
    (FTable [("connection.blocked", FBool true); ("consumer_cancel_notify", FBool true)]) props.

Definition startOk (config : Config) (auth : Authentication) : message :=
  connectionStartOk (client_properties (cfg_Properties config)) (Mechanism auth) (Response auth) "".
Definition tuneOk (cm fs hb : Z) : message :=
  connectionTuneOk (cm mod 2 ^ 16)%Z (fs mod 2 ^ 32)%Z (hb mod 2 ^ 16)%Z.

(** [make(chan *Error, 1)]: a listener nobody has registered. *)
Definition new_listener (c : Connection) : nat := S (foldr Nat.max 0 (c_closes c ++ c_blocks c)).

(** [go me.heartbeater(interval, me.NotifyClose(make(chan *Error, 1)))]: when the
    connection is already shut the listener is closed and the goroutine returns. *)
Definition start_heartbeater (interval : Z) : MQ () :=
  c ← get;
  _ ← AmqpHeartbeat.conn_NotifyClose (new_listener c);
  modify (set_heart (if c_shut c then None else Some interval)).

Definition openTune (config : Config) (auth : Authentication) : MQ (result (Z * Z * Z)) :=
  r ← conn_call (startOk config auth) [connectionTune 0 0 0];
  match r with
  | Ok (connectionTune cm fm hb) =>
      let '(cm, fs, hb) := tuned (cfg_ChannelMax config) (cfg_FrameSize config)
                             (Z.quot (cfg_Heartbeat config) second) cm fm hb in
      modify (set_tuned fs);;
      start_heartbeater (second * hb);;
      err ← send_frame (method_frame 0 (tuneOk cm fs hb));
      match err with
      | Some e => mret (Err e)
      | None => _ ←? openVhost (cfg_Vhost config) cm; mret (Ok (cm, fs, hb))
      end
  | _ => mret (Err ErrCredentials)
  end.

(** [me.call(nil, start)] *)
Definition openStart (config : Config) : MQ (result negotiated) :=
  m ←? await [connectionStart 0 0 [] "" ""];
  match m with
  | connectionStart VersionMajor VersionMinor ServerProperties Mechanisms _ =>
      match pickSASLMechanism (default [] (SASL config)) (Split Mechanisms " "%char) with
      | None => mret (Err ErrSASL)
      | Some auth =>
          n ←? openTune config auth;
          let '(cm, fs, hb) := n in
          mret (Ok (mkNegotiated VersionMajor VersionMinor ServerProperties auth cm fs hb (cfg_Vhost config)))
      end
  | _ => mret (Err ErrCommandInvalid)
  end.

Definition open_ (config : Config) : MQ (result negotiated) :=
  err ← send_frame protocolHeader;
  match err with Some e => mret (Err e) | None => openStart config end.

(** A connection over a fresh transport; [answers] is what its calls will receive. *)
Definition newConnection (w : wire) (answers : list answer) : Connection :=
  mkConnection w 0 (AmqpAlloc.newAllocator 0 0) ∅ ∅ 0 [] [] false [] false [] answers None.

(** [net.JoinHostPort] *)
Definition JoinHostPort (host port : string) : string :=
  if has_char ":"%char host || has_char "%"%char host then "[" +:+ host +:+ "]:" +:+ port
  else host +:+ ":" +:+ port.

(** [DialConfig]: what to dial, and the configuration to open with.  An empty
    [tls.Config] is used for amqps, and the host of the URI when no server is named. *)
Definition dial_config (url_Parse : string → result URL) (url : string) (config : Config) :
    result (string * Config) :=
  match ParseURI url_Parse url with
  | Err e => Err e
  | Ok uri =>
      let sasl := match SASL config with None => [URI_PlainAuth uri] | Some l => l end in
      let vhost := if decide (cfg_Vhost config = "") then Vhost uri else cfg_Vhost config in
      let tls := match TLSClientConfig config with
                 | None => if decide (Scheme uri = "amqps") then Some "" else None
                 | tls => tls end in
      let tls := match tls with Some "" => Some (Host uri) | tls => tls end in
      Ok (JoinHostPort (Host uri) (FormatInt (Port uri)),
          mkConfig (Some sasl) vhost (cfg_ChannelMax config) (cfg_FrameSize config) (cfg_Heartbeat config)
            (cfg_Properties config) tls)
  end.

(** [Open] on the transport [dialer] returns, after the TLS handshake if there is
    one; the connection is returned also when its opening failed. *)
Definition DialConfig (url_Parse : string → result URL) (dialer : string → result Connection)
    (tls_Client : string → Connection → result Connection) (url : string) (config : Config) :
    result (outcome (result negotiated) * Connection) :=
  match dial_config url_Parse url config with
  | Err e => Err e
  | Ok (addr, config) =>
      match dialer addr with
      | Err e => Err e
      | Ok conn =>
          match (match TLSClientConfig config with Some name => tls_Client name conn | None => Ok conn end) with
          | Err e => Err e
          | Ok conn => Ok (open_ config conn)
          end
      end
  end.

Definition dial_defaults : Config := mkConfig None "" 0 0 defaultHeartbeat [] None.
Definition Dial (url_Parse : string → result URL) (dialer : string → result Connection)
    (tls_Client : string → Connection → result Connection) (url : string) :
    result (outcome (result negotiated) * Connection) :=
  DialConfig url_Parse dialer tls_Client url dial_defaults.
Definition DialTLS (url_Parse : string → result URL) (dialer : string → result Connection)
    (tls_Client : string → Connection → result Connection) (url : string) (amqps : option string) :
    result (outcome (result negotiated) * Connection) :=
  DialConfig url_Parse dialer tls_Client url (mkConfig None "" 0 0 defaultHeartbeat [] amqps).
End AmqpOpen.
