(* ===== verification/AmqpNotify.v ===== *)
(** * A notification on the wire

    The notifications of the bundler ([notifications.go]) over the AMQP client
    library: an instance of [MqOps] made of the client's own operations, and the
    bytes a broker receives from [PostAppUpdated]. *)

From S2P Require Import Prelude GoStrings Services Notifications AmqpWire AmqpSpec AmqpFrame AmqpAlloc AmqpConfirms AmqpChannel AmqpTransfer AmqpOpen Simulated.

Module AmqpNotify.
Import AmqpWire AmqpSpec AmqpFrame AmqpChannel AmqpTransfer AmqpOpen.

(** ** The client as a message queue *)

(** The state of the library as the bundler uses it: how to reach a broker, the
    connection that was dialled last, and the channel opened on it. *)
Record Broker := mkBroker {
  b_dialer : string → result Connection;
  b_conn : option Connection;
  b_chan : option nat;
}.

(** A call that does not return has no answer; it is reported here as an error that
    the library never returns. *)
Definition no_return : error := ErrorS "does not return".

(** An operation on the open connection. *)
Definition on_conn {A} (m : M Connection A) (b : Broker) : result A * Broker :=
  match b_conn b with
  | None => (Err no_return, b)
  | Some c =>
      match m c with
      | (Ret a, c') => (Ok a, mkBroker (b_dialer b) (Some c') (b_chan b))
      | (Crash _, c') => (Err no_return, mkBroker (b_dialer b) (Some c') (b_chan b))
      end
  end.
Definition on_chan {A} (f : nat → M Connection A) (b : Broker) : result A * Broker :=
  match b_chan b with
  | None => (Err no_return, b)
  | Some p => on_conn (f p) b
  end.

(** [amqp.Publishing{ContentType: ..., Body: ...}] *)
Definition publishing_properties (ContentType : string) : properties :=
  mkProperties ContentType "" [] 0 0 "" "" "" "" zeroTime "" "" "" "".

Section notify.
Context (url_Parse : string → result URL) (tls_Client : string → Connection → result Connection).

#[local] Instance amqp_ops : MqOps Broker := {
  mq_dial uri b :=
    match Dial url_Parse (b_dialer b) tls_Client uri with
    | Err e => (Some e, b)
    | Ok (Ret (Ok _), c) => (None, mkBroker (b_dialer b) (Some c) None)
    | Ok (Ret (Err e), c) => (Some e, mkBroker (b_dialer b) (Some c) None)
    | Ok (Crash _, c) => (Some no_return, mkBroker (b_dialer b) (Some c) None)
    end;
  mq_channel b :=
    match on_conn openChannel b with
    | (Ok (Ok p), b') => (None, mkBroker (b_dialer b') (b_conn b') (Some p))
    | (Ok (Err e), b') | (Err e, b') => (Some e, b')
    end;
  mq_exchange_declare name kind durable autoDelete internal noWait b :=
    match on_chan (λ p, ExchangeDeclare p name kind durable autoDelete internal noWait []) b with
    | (Ok (Ok _), b') => (None, b')
    | (Ok (Err e), b') | (Err e, b') => (Some e, b')
    end;
  mq_publish exchange key mandatory immediate contentType body b :=
    match on_chan (λ p, Publish p exchange key mandatory immediate (publishing_properties contentType) body) b with
    | (Ok err, b') => (err, b')
    | (Err e, b') => (Some e, b')
    end;
  mq_close b := (on_conn conn_Close b).2;
}.

(** The world of the bundler with this client in it. *)
Definition with_amqp (S : Services) : Services := {|
  pgT := pgT; mcT := mcT; s3T := s3T; exT := exT; webT := webT; mqT := Broker;
  svc_pg := svc_pg; svc_mc := svc_mc; svc_s3 := svc_s3; svc_ex := svc_ex; svc_web := svc_web;
  svc_mq := amqp_ops; svc_lib := svc_lib;
|}.

(** ** Runs over a network that delivers *)

(** A connection whose frames all get through; [cl] are the listeners for its end, [he]
    is the heartbeater. *)
Definition conn_at (b : string) (fs : Z) (a : AmqpAlloc.allocator) (h : gmap nat Channel) (r : gmap Z nat)
    (n : nat) (cl : list nat) (he : option Z) (ans : list answer) : Connection :=
  mkConnection (mkWire b None []) fs a h r n cl [] false [] false [] ans he.

Lemma run_bind {W A B} (m : M W A) (k : A → M W B) s a s' : m s = (Ret a, s') → (m ≫= k) s = k a s'.
Proof. intros H. by rewrite /mbind /M_bind H. Qed.
Lemma run_bindR {W A B} (m : M W (result A)) (k : A → M W (result B)) s a s' :
  m s = (Ret (Ok a), s') → bindR m k s = k a s'.
Proof. intros H. by rewrite /bindR (run_bind _ _ _ _ _ H). Qed.

Lemma send_quiet f b b0 fs a h r n cl he ans :
  write_frame f = Ok b →
  send_frame f (conn_at b0 fs a h r n cl he ans) = (Ret None, conn_at (b0 +:+ b) fs a h r n cl he ans).
Proof. intros Hb. by rewrite /send_frame /mbind /M_bind /get /= /WriteFrame Hb. Qed.

Lemma send_all_quiet l b b0 fs a h r n cl he ans :
  encode_all l = Ok b →
  range_err l send_frame (conn_at b0 fs a h r n cl he ans) = (Ret None, conn_at (b0 +:+ b) fs a h r n cl he ans).
Proof.
  revert b b0. induction l as [|f l IH]; intros b b0; cbn [range_err].
  - intros [= <-]. by rewrite str_app_nil_r.
  - intros (b1 & b2 & Hb1 & Hb2 & ->)%wapp_Ok. rewrite /try_then (run_bind _ _ _ _ _ (send_quiet _ _ _ _ _ _ _ _ _ _ _ Hb1)).
    by rewrite (IH _ _ Hb2) str_app_assoc.
Qed.

(** The heartbeat frames [k] idle ticks produce. *)
Definition beat_frames (he : option Z) (k : nat) : list frame :=
  match he with
  | Some interval => if decide (interval > 0)%Z then replicate k (heartbeatFrame 0) else []
  | None => []
  end.
Definition beat_bytes (he : option Z) (k : nat) : string :=
  match encode_all (beat_frames he k) with Ok b => b | Err _ => "" end.
Lemma encode_beats he k : encode_all (beat_frames he k) = Ok (beat_bytes he k).
Proof.
  rewrite /beat_bytes. destruct (write_all_total write_frame (beat_frames he k)) as [b Hb].
  - intros f. rewrite /beat_frames. destruct he as [z|]; [case_decide|]; try by intros ?%elem_of_nil.
    intros [-> _]%elem_of_replicate. by eexists.
  - by rewrite /encode_all Hb.
Qed.

Lemma beat_bytes_0 he : beat_bytes he 0 = "".
Proof. rewrite /beat_bytes. destruct he as [z|]; simpl; [case_decide|]; done. Qed.
Lemma beat_bytes_S z k : (z > 0)%Z →
  ∃ b, write_frame (heartbeatFrame 0) = Ok b ∧ beat_bytes (Some z) (S k) = b +:+ beat_bytes (Some z) k.
Proof.
  intros Hz. pose proof (encode_beats (Some z) (S k)) as Hs. pose proof (encode_beats (Some z) k) as Hk.
  rewrite /beat_frames !decide_True // in Hs, Hk.
  change (wapp (write_frame (heartbeatFrame 0)) (encode_all (replicate k (heartbeatFrame 0))) =
    Ok (beat_bytes (Some z) (S k))) in Hs.
  apply wapp_Ok in Hs as (b1 & b2 & Hb1 & Hb2 & ->). exists b1. split; [done|]. congruence.
Qed.

(** One idle tick. *)
Lemma heartbeat_quiet b fs a h r n cl he ans :
  heartbeat (conn_at b fs a h r n cl he ans) = (Ret tt, conn_at (b +:+ beat_bytes he 1) fs a h r n cl he ans).
Proof.
  rewrite /heartbeat. erewrite run_bind; [|done]. cbn [c_heart conn_at].
  destruct he as [z|]; [case_decide as Hz|].
  - destruct (beat_bytes_S z 0 Hz) as (b1 & Hb1 & ->). rewrite beat_bytes_0 str_app_nil_r.
    by rewrite (run_bind _ _ _ _ _ (send_quiet _ _ _ _ _ _ _ _ _ _ _ Hb1)).
  - by rewrite /beat_bytes /beat_frames decide_False //= str_app_nil_r.
  - by rewrite /= str_app_nil_r.
Qed.

Lemma beat_bytes_1 he k : beat_bytes he (S k) = beat_bytes he 1 +:+ beat_bytes he k.
Proof.
  destruct he as [z|]; [|done]. destruct (decide (z > 0)%Z) as [Hz|Hz].
  - destruct (beat_bytes_S z k Hz) as (b1 & Hb1 & ->). destruct (beat_bytes_S z 0 Hz) as (b2 & Hb2 & ->).
    rewrite beat_bytes_0 str_app_nil_r. congruence.
  - by rewrite /beat_bytes /beat_frames !decide_False.
Qed.

Lemma take_answer_beats k m b fs a h r n cl he ans :
  take_answer (replicate k ABeat ++ AMessage m :: ans) (conn_at b fs a h r n cl he (replicate k ABeat ++ AMessage m :: ans)) =
    (Ret (Some (AMessage m)), conn_at (b +:+ beat_bytes he k) fs a h r n cl he ans).
Proof.
  revert b. induction k as [|k IH]; intros b.
  { by rewrite beat_bytes_0 str_app_nil_r. }
  cbn [replicate app take_answer]. erewrite run_bind; [|done].
  change (set_events _ ?x (conn_at b fs a h r n cl he _)) with (conn_at b fs a h r n cl he x).
  rewrite (run_bind _ _ _ _ _ (heartbeat_quiet _ _ _ _ _ _ _ _ _)) IH.
  by rewrite (beat_bytes_1 he k) str_app_assoc.
Qed.

(** A wait of [k] idle ticks for the answer [m]. *)
Definition answered (k : nat) (m : message) : list answer := replicate k ABeat ++ [AMessage m].

Lemma await_answer m k res b fs a h r n cl he ans :
  existsb (same_type m) res = true →
  await res (conn_at b fs a h r n cl he (answered k m ++ ans)) =
    (Ret (Ok m), conn_at (b +:+ beat_bytes he k) fs a h r n cl he ans).
Proof.
  intros Hm. rewrite /answered -app_assoc /await (run_bind next_answer _ _ _ _ (take_answer_beats _ _ _ _ _ _ _ _ _ _ _)).
  by rewrite Hm.
Qed.

Lemma conn_call_quiet req m k res b b0 fs a h r n cl he ans :
  write_frame (method_frame 0 req) = Ok b → existsb (same_type m) res = true →
  conn_call req res (conn_at b0 fs a h r n cl he (answered k m ++ ans)) =
    (Ret (Ok m), conn_at ((b0 +:+ b) +:+ beat_bytes he k) fs a h r n cl he ans).
Proof.
  intros Hb Hm. rewrite /conn_call (run_bind _ _ _ _ _ (send_quiet _ _ _ _ _ _ _ _ _ _ _ Hb)). by apply await_answer.
Qed.

(** A call on an open channel. *)
Lemma call_quiet p ch req m k res b b0 fs a h r n cl he ans :
  h !! p = Some ch → ch_open ch = true → getContent req = None → wait req = true →
  write_frame (method_frame (ch_id ch) req) = Ok b → existsb (same_type m) res = true →
  call p req res (conn_at b0 fs a h r n cl he (answered k m ++ ans)) =
    (Ret (Ok (Some m)), conn_at ((b0 +:+ b) +:+ beat_bytes he k) fs a h r n cl he ans).
Proof.
  intros Hp Ho Hc Hw Hb Hm. set (ans' := answered k m ++ ans).
  assert (send p req (conn_at b0 fs a h r n cl he ans') = (Ret None, conn_at (b0 +:+ b) fs a h r n cl he ans')) as Hs.
  { rewrite /send (run_bind _ _ _ ch (conn_at b0 fs a h r n cl he ans')).
    - rewrite Ho /sendOpen Hc. by apply send_quiet.
    - by rewrite /load /mbind /M_bind /= Hp. }
  rewrite /call (run_bind _ _ _ _ _ Hs) Hw.
  by rewrite (run_bindR _ _ _ _ _ (await_answer _ _ _ _ _ _ _ _ _ _ _ _ Hm)).
Qed.

Lemma encode_app l l' b b' :
  encode_all l = Ok b → encode_all l' = Ok b' → encode_all (l ++ l') = Ok (b +:+ b').
Proof.
  revert b. induction l as [|f l IH]; intros b; cbn [app].
  - by intros [= <-].
  - intros (b1 & b2 & Hb1 & Hb2 & ->)%wapp_Ok Hb'. change (wapp (write_frame f) (encode_all (l ++ l')) = Ok ((b1 +:+ b2) +:+ b')).
    rewrite Hb1 (IH _ Hb2 Hb') /=. by rewrite str_app_assoc.
Qed.
Lemma encode_one f b : write_frame f = Ok b → encode_all [f] = Ok b.
Proof.
  intros Hf. change (wapp (write_frame f) (Ok "") = Ok b). by rewrite Hf /= str_app_nil_r.
Qed.
Lemma encode_snoc l f b b' :
  encode_all l = Ok b → write_frame f = Ok b' → encode_all (l ++ [f]) = Ok (b +:+ b').
Proof. intros Hl Hf. apply encode_app; [done|]. by apply encode_one. Qed.

(** What a broker that accepts a client says until the connection is open. *)
Record greeting := mkGreeting {
  g_start : message;
  g_mechanisms : string;
  g_ChannelMax : Z;
  g_FrameMax : Z;
  g_Heartbeat : Z;
}.
Definition greets (g : greeting) : Prop :=
  ∃ major minor props locales,
    g_start g = connectionStart major minor props (g_mechanisms g) locales.
(** [k i] idle ticks pass before the [i]th answer. *)
Definition tune_answers (k : nat → nat) (g : greeting) : list answer :=
  answered (k 1) (connectionTune (g_ChannelMax g) (g_FrameMax g) (g_Heartbeat g)) ++
  answered (k 2) (connectionOpenOk "").
Definition greeting_answers (k : nat → nat) (g : greeting) : list answer :=
  answered (k 0) (g_start g) ++ tune_answers k g.

(** What the two sides agree on. *)
Definition agreed (config : Config) (g : greeting) : Z * Z * Z :=
  tuned (cfg_ChannelMax config) (cfg_FrameSize config) (Z.quot (cfg_Heartbeat config) second)
    (g_ChannelMax g) (g_FrameMax g) (g_Heartbeat g).

(** The frames of the handshake. *)
Definition opening_frames (config : Config) (auth : Authentication) (cm fs hb : Z) : list frame :=
  [protocolHeader; method_frame 0 (startOk config auth); method_frame 0 (tuneOk cm fs hb);
   method_frame 0 (connectionOpen (cfg_Vhost config) "" false)].

(** The connection after the handshake; listener 1 is the heartbeater's. *)
Definition conn_tuned (b : string) (fs cm hb : Z) (ans : list answer) : Connection :=
  conn_at b fs (AmqpAlloc.newAllocator 1 cm) ∅ ∅ 0 [1] (Some (second * hb)%Z) ans.

Lemma openTune_quiet config auth k g cm fs hb b0 b1 b2 b3 a ans :
  agreed config g = (cm, fs, hb) →
  write_frame (method_frame 0 (startOk config auth)) = Ok b1 →
  write_frame (method_frame 0 (tuneOk cm fs hb)) = Ok b2 →
  write_frame (method_frame 0 (connectionOpen (cfg_Vhost config) "" false)) = Ok b3 →
  openTune config auth (conn_at b0 0 a ∅ ∅ 0 [] None (tune_answers k g ++ ans)) =
    (Ret (Ok (cm, fs, hb)),
     conn_tuned ((((b0 +:+ b1) +:+ b2) +:+ b3) +:+ beat_bytes (Some (second * hb)%Z) (k 2)) fs cm hb ans).
Proof.
  intros Ht Hb1 Hb2 Hb3. rewrite /agreed in Ht. rewrite /openTune /tune_answers -app_assoc.
  erewrite run_bind; [|by apply (conn_call_quiet _ (connectionTune _ _ _))]. cbv beta iota. rewrite Ht.
  erewrite run_bind; [|done]. rewrite str_app_nil_r.
  change (set_tuned fs (conn_at ?b ?x ?a ?h ?r ?n ?cl ?he ?ans)) with (conn_at b fs a h r n cl he ans).
  assert (∀ b ans, start_heartbeater (second * hb) (conn_at b fs a ∅ ∅ 0 [] None ans) =
    (Ret tt, conn_at b fs a ∅ ∅ 0 [1] (Some (second * hb)%Z) ans)) as Hh by done.
  rewrite (run_bind _ _ _ _ _ (Hh _ _)) (run_bind _ _ _ _ _ (send_quiet _ _ _ _ _ _ _ _ _ _ _ Hb2)).
  assert (∀ b, openVhost (cfg_Vhost config) cm
      (conn_at b fs a ∅ ∅ 0 [1] (Some (second * hb)%Z) (answered (k 2) (connectionOpenOk "") ++ ans)) =
    (Ret (Ok tt), conn_tuned ((b +:+ b3) +:+ beat_bytes (Some (second * hb)%Z) (k 2)) fs cm hb ans)) as Hv.
  { intros b. rewrite /openVhost. by erewrite run_bind; [|by apply (conn_call_quiet _ (connectionOpenOk ""))]. }
  by rewrite (run_bindR _ _ _ _ _ (Hv _)).
Qed.

Lemma open_quiet config auth k g cm fs hb ans :
  cfg_Properties config = [] → greets g → agreed config g = (cm, fs, hb) →
  pickSASLMechanism (default [] (SASL config)) (Split (g_mechanisms g) " "%char) = Some auth →
  ∃ n b, open_ config (newConnection (mkWire "" None []) (greeting_answers k g ++ ans)) =
      (Ret (Ok n), conn_tuned b fs cm hb ans) ∧
    encode_all (opening_frames config auth cm fs hb ++ beat_frames (Some (second * hb)%Z) (k 2)) = Ok b.
Proof.
  intros Hp (major & minor & props & locales & Hg) Ht Hs.
  assert (∃ b, write_frame (method_frame 0 (startOk config auth)) = Ok b) as [b1 Hb1].
  { rewrite /startOk Hp. by eexists. }
  assert (∃ b, write_frame (method_frame 0 (tuneOk cm fs hb)) = Ok b) as [b2 Hb2] by by eexists.
  assert (∃ b, write_frame (method_frame 0 (connectionOpen (cfg_Vhost config) "" false)) = Ok b) as [b3 Hb3]
    by by eexists.
  assert (∃ b, write_frame protocolHeader = Ok b) as [b0 Hb0] by by eexists.
  eexists _, ((((b0 +:+ b1) +:+ b2) +:+ b3) +:+ beat_bytes (Some (second * hb)%Z) (k 2)). split; last first.
  { apply encode_app; [|apply encode_beats].
    change (opening_frames config auth cm fs hb) with
      ((([protocolHeader] ++ [method_frame 0 (startOk config auth)]) ++ [method_frame 0 (tuneOk cm fs hb)]) ++
       [method_frame 0 (connectionOpen (cfg_Vhost config) "" false)]).
    do 3 (apply encode_snoc; [|done]). by apply encode_one. }
  rewrite /greeting_answers -app_assoc.
  change (newConnection (mkWire "" None []) ?ans) with
    (conn_at "" 0 (AmqpAlloc.newAllocator 0 0) ∅ ∅ 0 [] None ans).
  rewrite /open_ (run_bind _ _ _ _ _ (send_quiet _ _ _ _ _ _ _ _ _ _ _ Hb0)) /openStart Hg.
  erewrite run_bindR; [|by apply await_answer]. cbv beta iota. rewrite Hs str_app_nil_r.
  by rewrite (run_bindR _ _ _ _ _ (openTune_quiet _ _ _ _ _ _ _ _ _ _ _ _ _ Ht Hb1 Hb2 Hb3)).
Qed.

(** ** The notification *)

Lemma alloc_first cm : (1 ≤ cm)%Z →
  AmqpAlloc.next (AmqpAlloc.newAllocator 1 cm) = (Ret (1%Z, true), AmqpAlloc.mkAllocator 1 1 1 cm).
Proof.
  intros Hcm. rewrite /AmqpAlloc.next /mbind /M_bind /=.
  destruct (Z.to_nat (cm + 1 - 1)) as [|n] eqn:E; [lia|]. done.
Qed.

(** The connection with its first channel open. *)
Definition conn_open (b : string) (fs cm hb : Z) (ans : list answer) : Connection :=
  conn_at b fs (AmqpAlloc.mkAllocator 1 1 1 cm) {[0 := newChannel 1]} {[1%Z := 0]} 1 [1] (Some (second * hb)%Z) ans.

Lemma openChannel_quiet b b' k fs cm hb x ans :
  (1 ≤ cm)%Z → write_frame (method_frame 1 (channelOpen "")) = Ok b' →
  openChannel (conn_tuned b fs cm hb (answered k (channelOpenOk x) ++ ans)) =
    (Ret (Ok 0), conn_open ((b +:+ b') +:+ beat_bytes (Some (second * hb)%Z) k) fs cm hb ans).
Proof.
  intros Hcm Hb. rewrite /openChannel.
  assert (∀ ans, allocateChannel (conn_tuned b fs cm hb ans) = (Ret (Ok 0), conn_open b fs cm hb ans)) as Ha.
  { intros ans'. rewrite /allocateChannel /on_alloc /mbind /M_bind /= alloc_first //. }
  rewrite (run_bindR _ _ _ _ _ (Ha _)). erewrite run_bindR; [|by apply (call_quiet 0 (newChannel 1))]. done.
Qed.

Lemma declare_quiet name kind durable b b' k fs cm hb ans :
  write_frame (method_frame 1 (exchangeDeclare 0 name kind false durable false false false [])) = Ok b' →
  ExchangeDeclare 0 name kind durable false false false [] (conn_open b fs cm hb (answered k exchangeDeclareOk ++ ans)) =
    (Ret (Ok tt), conn_open ((b +:+ b') +:+ beat_bytes (Some (second * hb)%Z) k) fs cm hb ans).
Proof.
  intros Hb. rewrite /ExchangeDeclare /exchange_declare /validated /called /=.
  erewrite run_bindR; [|by apply (call_quiet 0 (newChannel 1))]. done.
Qed.

Lemma publish_quiet exchange body ctype b b' fs cm hb ans :
  let m := basicPublish 0 exchange "" false false (publishing_properties ctype) body in
  (fs ≤ 0 ∨ frameHeaderSize < fs)%Z →
  encode_all (content_frames 1 fs m (publishing_properties ctype) body) = Ok b' →
  Publish 0 exchange "" false false (publishing_properties ctype) body (conn_open b fs cm hb ans) =
    (Ret None, conn_open (b +:+ b') fs cm hb ans).
Proof.
  intros m Hfs Hb. rewrite /Publish /=.
  assert (send 0 m (conn_open b fs cm hb ans) = (Ret None, conn_open (b +:+ b') fs cm hb ans)) as Hs.
  { rewrite /send (run_bind _ _ _ (newChannel 1) (conn_open b fs cm hb ans)) //=.
    rewrite (sendOpen_frames 1 m (publishing_properties ctype) body) //. by apply send_all_quiet. }
  by rewrite /try_then (run_bind _ _ _ _ _ Hs).
Qed.

(** The transport is closed, and no goroutine of the connection is left to write. *)
Definition over (c : Connection) : Prop := c_shut c = true ∧ c_heart c = None ∧ w_err (c_wire c) = Some closed_transport.

Lemma shutdown_quiet b fs cm hb :
  ∃ c, shutdown None (conn_open b fs cm hb []) = (Ret tt, c) ∧ sent c = b ∧ over c.
Proof. eexists. split; [vm_compute; reflexivity|]. done. Qed.

Lemma close_quiet b b' k fs cm hb :
  write_frame (method_frame 0 (connectionClose 200 "kthxbai" 0 0)) = Ok b' →
  ∃ c, conn_Close (conn_open b fs cm hb (answered k connectionCloseOk)) = (Ret None, c) ∧
    sent c = (b +:+ b') +:+ beat_bytes (Some (second * hb)%Z) k ∧ over c.
Proof.
  intros Hb. destruct (shutdown_quiet ((b +:+ b') +:+ beat_bytes (Some (second * hb)%Z) k) fs cm hb) as (c & Hs & Hc).
  exists c. split; [|exact Hc]. rewrite /conn_Close -(app_nil_r (answered k connectionCloseOk)).
  erewrite run_bind; [|by apply (conn_call_quiet _ connectionCloseOk)].
  change (conn_at ?b fs _ _ _ _ _ _ []) with (conn_open b fs cm hb []).
  by rewrite (run_bind _ _ _ _ _ Hs).
Qed.

Lemma publish_encodes id fs exchange ctype body :
  ∃ b, encode_all (content_frames id fs (basicPublish 0 exchange "" false false (publishing_properties ctype) body)
    (publishing_properties ctype) body) = Ok b.
Proof.
  apply write_all_total. intros f. rewrite /content_frames !elem_of_cons.
  intros [->|[->|(x & -> & _)%list_elem_of_fmap]]; [by eexists|by apply header_total|by eexists].
Qed.
End notify.

(** ** The composition *)

(** The configuration [Dial] opens a connection with. *)
Definition dialed (u : URI) : Config :=
  mkConfig (Some [URI_PlainAuth u]) (Vhost u) 0 0 defaultHeartbeat [] None.

(** The numbers a broker proposes fit their fields, and a frame with a body fits. *)
Definition fair (g : greeting) : Prop :=
  (0 ≤ g_ChannelMax g < 2 ^ 16)%Z ∧ (0 ≤ g_Heartbeat g < 2 ^ 16)%Z ∧
  (g_FrameMax g = 0 ∨ frameHeaderSize < g_FrameMax g < 2 ^ 32)%Z ∧
  "PLAIN" ∈ Split (g_mechanisms g) " "%char.

(** What the protocol asks for: the broker's numbers, where zero is "no limit", and
    the shorter interval of the two. *)
Definition settled (g : greeting) : Z * Z * Z :=
  ((if decide (g_ChannelMax g = 0) then 65535 else g_ChannelMax g),
   g_FrameMax g,
   (if decide (g_Heartbeat g = 0) then 10 else Z.min 10 (g_Heartbeat g)))%Z.

Lemma agreed_settled u g : fair g → agreed (dialed u) g = settled g.
Proof.
  intros (Hc & Hh & Hf & _). rewrite /agreed /tuned /settled /dialed /=.
  change (Z.quot defaultHeartbeat second) with 10%Z.
  rewrite /pick /min /max /defaultChannelMax /maxChannelMax /frameHeaderSize in Hf |- *.
  f_equal; [f_equal|]; repeat case_decide; lia.
Qed.
Lemma settled_fair g cm fs hb :
  fair g → settled g = (cm, fs, hb) →
  (1 ≤ cm < 2 ^ 16)%Z ∧ (0 ≤ fs < 2 ^ 32)%Z ∧ (fs ≤ 0 ∨ frameHeaderSize < fs)%Z ∧ (1 ≤ hb < 2 ^ 16)%Z.
Proof.
  intros (Hc & Hh & Hf & _) [= <- <- <-]. rewrite /frameHeaderSize in Hf |- *. repeat case_decide; lia.
Qed.

(** ** The frames of a notification *)

(** JSON text, with apostrophes for its quotation marks. *)
Fixpoint json (s : string) : string :=
  match s with
  | "" => ""
  | String c s => (if decide (c = "'"%char) then dquote else String c "") +:+ json s
  end.
Definition notification_json (appID userID : string) : string :=
  json "{'type': 'app_updated', 'app_id': '" +:+ appID +:+ json "', 'user_id': '" +:+ userID +:+ json "'}".

(** A method frame. *)
Definition method (channel : Z) (m : message) : frame := methodFrame channel 0 0 (Some m).
Definition client_table : Table :=
  [("product", FString "https://github.com/streadway/amqp"); ("version", FString defaultVersion);
   ("capabilities", FTable [("connection.blocked", FBool true); ("consumer_cancel_notify", FBool true)])].
(** One message: the method, the header and the body in pieces that fit into a frame. *)
Definition message_frames (fs : Z) (exchange body : string) : list frame :=
  let props := mkProperties "application/json" "" [] 0 0 "" "" "" "" zeroTime "" "" "" "" in
  let piece := if decide (fs > 0)%Z then (fs - 8)%Z else Z.of_nat (String.length body) in
  method 1 (basicPublish 0 exchange "" false false props body) ::
  headerFrame 1 60 0 (Z.of_nat (String.length body)) props ::
  (bodyFrame 1 <$> chunks (String.length body) (Z.to_nat piece) body).
(** The frames from the first byte to the last; [k i] idle ticks pass before the [i]th
    answer, and each of them is a heartbeat once the interval is known. *)
Definition notification_frames (u : URI) (g : greeting) (k : nat → nat) (appID userID : string) : list frame :=
  let '(cm, fs, hb) := settled g in
  let beats i := replicate (k i) (heartbeatFrame 0) in
  [protocolHeader;
   method 0 (connectionStartOk client_table "PLAIN" (nul +:+ Username u +:+ nul +:+ Password u) "");
   method 0 (connectionTuneOk cm fs hb);
   method 0 (connectionOpen (Vhost u) "" false)] ++ beats 2 ++
  [method 1 (channelOpen "")] ++ beats 3 ++
  [method 1 (exchangeDeclare 0 "siphon.apps.notifications" "fanout" false true false false false [])] ++ beats 4 ++
  message_frames fs "siphon.apps.notifications" (notification_json appID userID) ++
  [method 0 (connectionClose 200 "kthxbai" 0 0)] ++ beats 5.

(** What the broker answers to all of it. *)
Definition notification_answers (k : nat → nat) (g : greeting) : list answer :=
  greeting_answers k g ++ answered (k 3) (channelOpenOk "") ++ answered (k 4) exchangeDeclareOk ++
  answered (k 5) connectionCloseOk.

Lemma payload_json appID userID : app_updated_payload appID userID = notification_json appID userID.
Proof. rewrite /app_updated_payload -!str_app_assoc. reflexivity. Qed.

Lemma tuneOk_settled cm fs hb :
  (1 ≤ cm < 2 ^ 16)%Z → (0 ≤ fs < 2 ^ 32)%Z → (1 ≤ hb < 2 ^ 16)%Z → tuneOk cm fs hb = connectionTuneOk cm fs hb.
Proof. intros ???. rewrite /tuneOk !Z.mod_small //; lia. Qed.

Lemma picks_plain u g : fair g →
  pickSASLMechanism (default [] (SASL (dialed u))) (Split (g_mechanisms g) " "%char) = Some (URI_PlainAuth u).
Proof.
  intros (_ & _ & _ & Hp).
  change (pickSASLMechanism (default [] (SASL (dialed u))) ?l) with
    (if existsb (λ mech, bool_decide (Mechanism (URI_PlainAuth u) = mech)) l then Some (URI_PlainAuth u) else None).
  assert (existsb (λ mech, bool_decide (Mechanism (URI_PlainAuth u) = mech)) (Split (g_mechanisms g) " "%char) = true)
    as ->; [|done].
  apply existsb_exists. exists "PLAIN". split; [by apply list_elem_of_In|]. by apply bool_decide_eq_true.
Qed.

(** The same frames as the operations produce them. *)
Lemma notification_frames_calls u g k appID userID cm fs hb :
  fair g → settled g = (cm, fs, hb) →
  let beats i := beat_frames (Some (second * hb)%Z) (k i) in
  notification_frames u g k appID userID =
    (opening_frames (dialed u) (URI_PlainAuth u) cm fs hb ++ beats 2) ++
    [method_frame 1 (channelOpen "")] ++ beats 3 ++
    [method_frame 1 (exchangeDeclare 0 amqpExchange amqpExchangeType false true false false false [])] ++ beats 4 ++
    content_frames 1 fs (basicPublish 0 amqpExchange "" false false (publishing_properties "application/json")
      (app_updated_payload appID userID)) (publishing_properties "application/json") (app_updated_payload appID userID) ++
    [method_frame 0 (connectionClose 200 "kthxbai" 0 0)] ++ beats 5.
Proof.
  intros Hf Hs beats. destruct (settled_fair _ _ _ _ Hf Hs) as (Hcm & Hfs & _ & Hhb).
  assert (∀ i, beats i = replicate (k i) (heartbeatFrame 0)) as Hb.
  { intros i. rewrite /beats /beat_frames decide_True // /second. lia. }
  rewrite /notification_frames Hs !Hb /opening_frames (tuneOk_settled _ _ _ Hcm Hfs Hhb) payload_json -!app_assoc.
  generalize (notification_json appID userID). reflexivity.
Qed.

(** The four calls of a notification, one after the other. *)
Lemma notification_calls url_Parse tls_Client uri dialer u g k appID userID :
  let O := amqp_ops url_Parse tls_Client in
  ParseURI url_Parse uri = Ok u → Scheme u = "amqp" → greets g → fair g →
  dialer (JoinHostPort (Host u) (FormatInt (Port u))) = Ok (newConnection (mkWire "" None []) (notification_answers k g)) →
  ∃ c1 c2 c3 c4 c5 b, encode_all (notification_frames u g k appID userID) = Ok b ∧
    (∀ b0, b_dialer b0 = dialer → @mq_dial _ O uri b0 = (None, mkBroker dialer (Some c1) None)) ∧
    @mq_channel _ O (mkBroker dialer (Some c1) None) = (None, mkBroker dialer (Some c2) (Some 0)) ∧
    @mq_exchange_declare _ O amqpExchange amqpExchangeType true false false false (mkBroker dialer (Some c2) (Some 0)) =
      (None, mkBroker dialer (Some c3) (Some 0)) ∧
    @mq_publish _ O amqpExchange "" false false "application/json" (app_updated_payload appID userID)
      (mkBroker dialer (Some c3) (Some 0)) = (None, mkBroker dialer (Some c4) (Some 0)) ∧
    @mq_close _ O (mkBroker dialer (Some c4) (Some 0)) = mkBroker dialer (Some c5) (Some 0) ∧
    sent c5 = b ∧ over c5.
Proof.
  intros O Hu Hsch Hg Hf Hd.
  destruct (settled g) as [[cm fs] hb] eqn:Hs. destruct (settled_fair _ _ _ _ Hf Hs) as (Hcm & _ & Hfs & _).
  pose proof (agreed_settled u g Hf) as Ha. rewrite Hs in Ha.
  destruct (open_quiet (dialed u) (URI_PlainAuth u) k g cm fs hb
    (answered (k 3) (channelOpenOk "") ++ answered (k 4) exchangeDeclareOk ++ answered (k 5) connectionCloseOk)
    eq_refl Hg Ha (picks_plain u g Hf)) as (n & b1 & Hopen & Hb1).
  assert (∃ b, write_frame (method_frame 1 (channelOpen "")) = Ok b) as [b2 Hb2] by by eexists.
  assert (∃ b, write_frame (method_frame 1
    (exchangeDeclare 0 amqpExchange amqpExchangeType false true false false false [])) = Ok b) as [b3 Hb3] by by eexists.
  destruct (publish_encodes 1 fs amqpExchange "application/json" (app_updated_payload appID userID)) as [b4 Hb4].
  assert (∃ b, write_frame (method_frame 0 (connectionClose 200 "kthxbai" 0 0)) = Ok b) as [b5 Hb5] by by eexists.
  set (x := λ i, beat_bytes (Some (second * hb)%Z) (k i)).
  destruct (close_quiet (((((b1 +:+ b2) +:+ x 3) +:+ b3) +:+ x 4) +:+ b4) b5 (k 5) fs cm hb Hb5)
    as (c5 & Hclose & Hsent & Hover).
  do 4 eexists. exists c5, (((((((b1 +:+ b2) +:+ x 3) +:+ b3) +:+ x 4) +:+ b4) +:+ b5) +:+ x 5). split.
  { rewrite (notification_frames_calls _ _ _ _ _ cm fs hb) // -!str_app_assoc.
    apply encode_app; [done|]. apply encode_app; [by apply encode_one|]. apply encode_app; [apply encode_beats|].
    apply encode_app; [by apply encode_one|]. apply encode_app; [apply encode_beats|].
    apply encode_app; [done|]. apply encode_app; [by apply encode_one|]. apply encode_beats. }
  split.
  { intros b0 Hb0. rewrite /mq_dial /= /Dial /DialConfig /dial_config Hu Hsch /= Hb0 Hd /=. rewrite Hopen. done. }
  split; [rewrite /mq_channel /= /on_conn /= (openChannel_quiet _ _ _ _ _ _ _ _ (proj1 Hcm) Hb2); done|].
  split; [rewrite /mq_exchange_declare /= /on_chan /on_conn /= (declare_quiet _ _ _ _ _ _ _ _ _ _ Hb3); done|].
  split; [rewrite /mq_publish /= /on_chan /on_conn /= (publish_quiet _ _ _ _ _ _ _ _ _ Hfs Hb4); done|].
  split; [rewrite /mq_close /= /on_conn /= Hclose; done|]. done.
Qed.

Lemma run_on_mq {S : Services} {A} (op : mqT → A * mqT) w a s :
  op (w_mq w) = (a, s) → on_mq op w = (Ret a, set_mq s w).
Proof. intros H. by rewrite /on_mq H. Qed.

Lemma PostAppUpdated_run {S : Services} appID userID w s1 s2 s3 s4 e3 e4 :
  mq_dial ("amqp://" +:+ getenv w "RABBITMQ_HOST" +:+ ":" +:+ getenv w "RABBITMQ_PORT") (w_mq w) = (None, s1) →
  mq_channel s1 = (None, s2) →
  mq_exchange_declare amqpExchange amqpExchangeType true false false false s2 = (e3, s3) →
  mq_publish amqpExchange "" false false "application/json" (app_updated_payload appID userID) s3 = (e4, s4) →
  PostAppUpdated appID userID w = (Ret tt, set_mq (mq_close s4) w).
Proof.
  intros H1 H2 H3 H4. rewrite /PostAppUpdated.
  erewrite (run_bind amqpURI _ w _ w); [|done].
  erewrite run_bind; [|by apply run_on_mq]. rewrite /defer.
  erewrite run_bind; [|by apply run_on_mq]. cbv beta iota.
  erewrite run_bind; [|by apply run_on_mq]. erewrite run_bind; [|by apply run_on_mq]. done.
Qed.

(** C32: A notification to a broker that accepts it: when the address can be parsed and
    dialled, every byte gets through, and the broker grants every step of the handshake
    (offering PLAIN, and numbers that fit their fields and leave room for a body), the
    opening of the channel, the declaration of the exchange and the close, then
    [PostAppUpdated] returns, and the broker has received the encoding of exactly these
    frames: the handshake with the settled numbers, the opening of channel 1, the
    declaration, the message with the JSON of this app and user, the close, and one
    heartbeat for every idle tick that passes while a call waits for its answer (ticks
    between two frames of the client itself are not covered; a table is written in the
    order its entries are listed).  The connection is closed and its heartbeater ended,
    and nothing but the broker's state has changed.  When the handshake fails the
    connection is not closed; that case is not part of this. *)
Theorem notification_on_the_wire (S : Services) url_Parse tls_Client u g k appID userID
    (w : @World (with_amqp url_Parse tls_Client S)) :
  ParseURI url_Parse ("amqp://" +:+ getenv w "RABBITMQ_HOST" +:+ ":" +:+ getenv w "RABBITMQ_PORT") = Ok u →
  Scheme u = "amqp" → greets g → fair g →
  b_dialer (w_mq w) (JoinHostPort (Host u) (FormatInt (Port u))) =
    Ok (newConnection (mkWire "" None []) (notification_answers k g)) →
  ∃ c b, @PostAppUpdated (with_amqp url_Parse tls_Client S) appID userID w =
      (Ret tt, @set_mq (with_amqp url_Parse tls_Client S) (mkBroker (b_dialer (w_mq w)) (Some c) (Some 0)) w) ∧
    encode_all (notification_frames u g k appID userID) = Ok b ∧ sent c = b ∧ over c.
Proof.
  intros Hu Hsch Hg Hf Hd.
  destruct (notification_calls url_Parse tls_Client _ _ u g k appID userID Hu Hsch Hg Hf Hd)
    as (c1 & c2 & c3 & c4 & c5 & b & Hb & Hdial & Hch & Hdecl & Hpub & Hclose & Hsent & Hover).
  exists c5, b. split; [|done].
  rewrite -Hclose. by eapply (@PostAppUpdated_run (with_amqp url_Parse tls_Client S));
    [apply Hdial|apply Hch|apply Hdecl|apply Hpub].
Qed.

(** ** A run that satisfies the hypotheses *)

(** [url.Parse] for [scheme://host:port]. *)
Definition wit_parse (s : string) : result URL :=
  match take_until ":"%char s with
  | Some (scheme, rest) => Ok (mkURL scheme (default "" (strip_prefix "//" rest)) None "")
  | None => Err (ErrorS "parse")
  end.
Definition wit_greeting : greeting :=
  mkGreeting (connectionStart 0 9 [("product", FString "RabbitMQ")] "AMQPLAIN PLAIN" "en_US") "AMQPLAIN PLAIN" 0 131072 60.
(** The broker takes its time: two idle ticks before the fourth answer. *)
Definition wit_ticks (i : nat) : nat := if decide (i = 3) then 2 else 0.
Definition wit_dialer (addr : string) : result Connection :=
  if decide (addr = "mq:5672") then Ok (newConnection (mkWire "" None []) (notification_answers wit_ticks wit_greeting))
  else Err (OpError "dial" "connection refused").
Definition wit_tls (_ : string) (c : Connection) : result Connection := Ok c.
Definition wit_mq_world : @World (with_amqp wit_parse wit_tls Simulated.sim) :=
  let w := Simulated.sim_world [("RABBITMQ_HOST", "mq"); ("RABBITMQ_PORT", "5672")] [] [] in
  @mkWorld (with_amqp wit_parse wit_tls Simulated.sim) (w_env w) (w_fs w) (w_pg w) (w_mc w) (w_s3 w) (w_ex w) (w_web w)
    (mkBroker wit_dialer None None) (w_ctx w) (w_resp w) (w_now w) (w_tick w).

Lemma notification_on_the_wire_witness :
  ∃ c b, @PostAppUpdated (with_amqp wit_parse wit_tls Simulated.sim) "a1" "u1" wit_mq_world =
      (Ret tt, @set_mq (with_amqp wit_parse wit_tls Simulated.sim) (mkBroker wit_dialer (Some c) (Some 0)) wit_mq_world) ∧
    encode_all (notification_frames (mkURI "amqp" "mq" 5672 "guest" "guest" "/") wit_greeting wit_ticks "a1" "u1") = Ok b ∧
    sent c = b ∧ over c.
Proof.
  apply (notification_on_the_wire Simulated.sim wit_parse wit_tls (mkURI "amqp" "mq" 5672 "guest" "guest" "/") wit_greeting wit_ticks);
    [vm_compute; reflexivity|reflexivity| | |vm_compute; reflexivity].
  - by do 4 eexists.
  - split_and!; [done|done|done|done|by right|]. vm_compute. right. left.
Defined.
End AmqpNotify.
