(* ===== verification/AmzSign.v ===== *)
(** * goamz: signing requests

    [src/src/gopkg.in/amz.v3/aws]: [sign.go] (versions 2 and 4 of the AWS signature)
    and the credentials and the URI encoding of [aws.go].  SHA-256, HMAC and the
    reading and writing of times are the class [Crypto].  The query of a URL is kept
    as the values it encodes.  Go visits the headers of a request in an arbitrary
    order: the order is an argument [iter] wherever it is observed, and that it does
    not matter is a theorem. *)

From stdpp Require Import sorting.
From S2P Require Import Prelude GoStrings GoUrl.

Module AmzSign.

(** ** HTTP requests *)
Abbreviation Values := (gmap string (list string)).

Record hrequest := mkHreq {
  h_method : string;
  h_url : string;
  h_query : Values;
  h_header : Values;
  h_body : string;
}.

Definition set_header (h : Values) (r : hrequest) : hrequest :=
  mkHreq (h_method r) (h_url r) (h_query r) h (h_body r).
Definition set_query (q : Values) (r : hrequest) : hrequest :=
  mkHreq (h_method r) (h_url r) q (h_header r) (h_body r).

(** [http.CanonicalHeaderKey]: the first letter and each one after a hyphen in upper
    case, the others in lower case, unless some byte cannot be in a header name. *)
Definition token_char (c : ascii) : bool := alnum c || has_char c "!#$%&'*+-.^_`|~".
Fixpoint canonical_key (upper : bool) (s : string) : string :=
  match s with
  | "" => ""
  | String c s =>
      String (if upper then upper_ascii c else lower_ascii c) (canonical_key (bool_decide (c = "-"%char)) s)
  end.
Definition CanonicalHeaderKey (s : string) : string :=
  if all_chars token_char s then canonical_key true s else s.

(** [http.Header] and [url.Values] *)
Definition header_Add (k v : string) (h : Values) : Values :=
  <[CanonicalHeaderKey k := default [] (h !! CanonicalHeaderKey k) ++ [v]]> h.
Definition header_Set (k v : string) (h : Values) : Values := <[CanonicalHeaderKey k := [v]]> h.
Definition header_Del (k : string) (h : Values) : Values := delete (CanonicalHeaderKey k) h.
Definition header_Get (k : string) (h : Values) : string :=
  match h !! CanonicalHeaderKey k with Some (v :: _) => v | _ => "" end.
Definition values_Add (k v : string) (q : Values) : Values := <[k := default [] (q !! k) ++ [v]]> q.
Definition values_Set (k v : string) (q : Values) : Values := <[k := [v]]> q.

(** The host and the path of [scheme://host/path]. *)
Definition after_scheme (url : string) : string :=
  match take_until ":"%char url with Some (_, t) => default t (strip_prefix "//" t) | None => url end.
Definition URL_Host (url : string) : string :=
  match take_until "/"%char (after_scheme url) with Some (h, _) => h | None => after_scheme url end.
Definition URL_Path (url : string) : string :=
  match take_until "/"%char (after_scheme url) with Some (_, p) => "/" +:+ p | None => "" end.

(** [sort.Strings]; strings are ordered by their bytes. *)
Definition sort_Strings (l : list string) : list string := merge_sort String.le l.
Definition keys (h : Values) : list string := (map_to_list h).*1.

(** [Values.Encode] of [net/url] *)
Definition encode_values (k : string) (vs : list string) : list string :=
  (λ v, QueryEscape k +:+ "=" +:+ QueryEscape v) <$> vs.
Definition Values_Encode (q : Values) : string :=
  Join (k ← sort_Strings (keys q); encode_values k (default [] (q !! k))) "&".

(** ** [aws.go] *)
Record Auth := mkAuth { AccessKey : string; SecretKey : string }.

(** [EnvAuth]: the later of the two errors wins. *)
Definition EnvAuth (Getenv : string → string) : Auth * option error :=
  let blank a := bool_decide (AccessKey a = "" ∧ SecretKey a = "") in
  let auth := mkAuth (Getenv "AWS_ACCESS_KEY_ID") (Getenv "AWS_SECRET_ACCESS_KEY") in
  let auth := if blank auth then mkAuth (Getenv "EC2_ACCESS_KEY") (Getenv "EC2_SECRET_KEY") else auth in
  let auth := if blank auth then mkAuth (Getenv "AWS_ACCESS_KEY") (Getenv "AWS_SECRET_KEY") else auth in
  let err := if decide (AccessKey auth = "")
             then Some (ErrorS "AWS_ACCESS_KEY_ID not found in environment") else None in
  let err := if decide (SecretKey auth = "")
             then Some (ErrorS "AWS_SECRET_ACCESS_KEY not found in environment") else err in
  (auth, err).

(** The table [unreserved] is indexed by bytes up to 127. *)
Definition unreserved (c : ascii) : bool :=
  has_char c "ABCDEFGHIJKLMNOPQRSTUVWXYZabcdefghijklmnopqrstuvwxyz01234567890-_.~".
Definition must_encode (c : ascii) : bool := bool_decide (127 < N_of_ascii c)%N || negb (unreserved c).
Fixpoint any_char (f : ascii → bool) (s : string) : bool :=
  match s with "" => false | String c s => if f c then true else any_char f s end.
Definition encode_char (c : ascii) : string := if must_encode c then percent c else String c "".
Definition Encode (s : string) : string :=
  if any_char must_encode s then flat_map_str encode_char s else s.

(** ** [sign.go] *)
Class Crypto := {
  sha256 : string → string;
  hmac_sha256 : string → string → string;
  (** [time.Parse(format, s)] and [t.Format(format)] *)
  time_Parse : string → string → option Z;
  time_Format : string → Z → string;
}.

Section sign.
Context `{!Crypto}.

Definition ISO8601BasicFormat : string := "20060102T150405Z".
Definition ISO8601BasicFormatShort : string := "20060102".

Definition hex_lower : string := "0123456789abcdef".
(** [fmt.Sprintf("%x", b)] *)
Definition hex (b : string) : string :=
  flat_map_str (λ c, String (hexd hex_lower (N.shiftr (N_of_ascii c) 4))
                       (String (hexd hex_lower (N.land (N_of_ascii c) 15)) "")) b.

Definition hmacHasher (key value : string) : string := hmac_sha256 key value.
(** The reader is a buffer, so [io.Copy] does not fail. *)
Definition sha256Hasher (payload : string) : string := hex (sha256 payload).
Definition payloadHash (req : hrequest) : string := sha256Hasher (h_body req).

Definition credentialScope (t : Z) (regionName svcName : string) : string :=
  time_Format ISO8601BasicFormatShort t +:+ "/" +:+ regionName +:+ "/" +:+ svcName +:+ "/aws4_request".

Definition timeFormats : list string :=
  ["02 Jan 06 15:04 MST"; ISO8601BasicFormat; "Mon, 02 Jan 2006 15:04:05 MST"; "Mon Jan _2 15:04:05 2006";
   "Mon Jan _2 15:04:05 MST 2006"; "Mon Jan 02 15:04:05 -0700 2006"; "02 Jan 06 15:04 -0700";
   "Monday, 02-Jan-06 15:04:05 MST"; "Mon, 02 Jan 2006 15:04:05 -0700"; "2006-01-02T15:04:05Z07:00";
   "2006-01-02T15:04:05.999999999Z07:00"; "3:04PM"].
Fixpoint try_formats (formats : list string) (date : string) : option Z :=
  match formats with
  | [] => None
  | f :: fs => match time_Parse f date with Some t => Some t | None => try_formats fs date end
  end.

Definition requestTime (req : hrequest) : result Z :=
  let date := header_Get "x-amz-date" (h_header req) in
  let date := if decide (date = "") then header_Get "date" (h_header req) else date in
  if decide (date = "") then
    Err (ErrorS ("Could not retrieve a request date. Please provide one in either " +:+ dquote +:+
      "x-amz-date" +:+ dquote +:+ ", or " +:+ dquote +:+ "date" +:+ dquote +:+ "."))
  else match try_formats timeFormats date with
       | Some t => Ok t
       | None =>
           Err (ErrorS ("Could not parse the given date. Please utilize one of the following formats: " +:+
             Join timeFormats ","))
       end.

(** [strings.SplitN] has always a first part, so the case of an empty method is
    never reached. *)
Definition requestMethodVerb (rawMethod : string) : string :=
  match take_until " "%char rawMethod with Some (verb, _) => verb | None => rawMethod end.

Definition goToAwsUrlEncoding (urlEncoded : string) : string := Replace urlEncoded "+" "%20" None.

Definition canonicalURI (path : string) : string :=
  if decide (path = "") then "/"
  else Join ((λ segment, goToAwsUrlEncoding (QueryEscape segment)) <$> Split path slash) "/".

Definition canonicalQueryString (queryVals : Values) : string :=
  goToAwsUrlEncoding (Values_Encode (sort_Strings <$> queryVals)).

(** [sortHeaderNames(header, "host")] *)
Definition sortHeaderNames (order : list string) (injectedNames : list string) : list string :=
  sort_Strings (injectedNames ++ (ToLower <$> order)).

(** [canonicalHeaders] sorts the values of the request in place. *)
Fixpoint canonicalHeaders (sortedHeaderNames : list string) (host : string) (hdr : Values) : string * Values :=
  match sortedHeaderNames with
  | [] => ("", hdr)
  | hName :: names =>
      let '(hdrVals, hdr) :=
        if decide (hName = "host") then (host, hdr)
        else let k := CanonicalHeaderKey hName in
             (Join (sort_Strings (default [] (hdr !! k))) ",", alter sort_Strings k hdr) in
      let '(s, hdr) := canonicalHeaders names host hdr in
      (hName +:+ ":" +:+ hdrVals +:+ nl +:+ s, hdr)
  end.

(** The lines of a canonical request. *)
Definition canonical_text (req : hrequest) (canHdr : string) (names : list string) (payHash : string) : string :=
  requestMethodVerb (h_method req) +:+ nl +:+ canonicalURI (URL_Path (h_url req)) +:+ nl +:+
  canonicalQueryString (h_query req) +:+ nl +:+ canHdr +:+ nl +:+ Join names ";" +:+ nl +:+ payHash.

(** [canonicalRequest]: the text, its hash, the names of the headers and the request
    as it is left.  Writing to a buffer does not fail. *)
Definition canonicalRequest (iter : Values → list string) (req : hrequest) (calcPayHash : bool) :
    string * string * list string * hrequest :=
  let payHash := if calcPayHash then payloadHash req else "UNSIGNED-PAYLOAD" in
  let hdr := if calcPayHash then header_Set "x-amz-content-sha256" payHash (h_header req) else h_header req in
  let names := sortHeaderNames (iter hdr) ["host"] in
  let '(canHdr, hdr) := canonicalHeaders names (URL_Host (h_url req)) hdr in
  let canReq := canonical_text req canHdr names payHash in
  (canReq, sha256Hasher canReq, names, set_header hdr req).

Definition stringToSign (t : Z) (canonReqHash credScope : string) : string :=
  "AWS4-HMAC-SHA256" +:+ nl +:+ time_Format ISO8601BasicFormat t +:+ nl +:+ credScope +:+ nl +:+ canonReqHash.

Definition signingKey (t : Z) (secretKey regionName svcName : string) : string :=
  let kDate := hmacHasher ("AWS4" +:+ secretKey) (time_Format ISO8601BasicFormatShort t) in
  let kRegion := hmacHasher kDate regionName in
  let kService := hmacHasher kRegion svcName in
  hmacHasher kService "aws4_request".

Definition authHeaderString (accessKey signature credScope : string) (sortedHeaderNames : list string) : string :=
  "AWS4-HMAC-SHA256 " +:+ "Credential=" +:+ accessKey +:+ "/" +:+ credScope +:+ ", " +:+
  "SignedHeaders=" +:+ Join sortedHeaderNames ";" +:+ ", " +:+ "Signature=" +:+ signature.

(** [SignV4] *)
Definition SignV4 (iter : Values → list string) (req : hrequest) (auth : Auth) (regionName svcName : string) :
    result hrequest :=
  match requestTime req with
  | Err e => Err e
  | Ok reqTime =>
      let req := set_header (delete "authorization" (delete "Authorization" (h_header req))) req in
      let credScope := credentialScope reqTime regionName svcName in
      let '(_, canonReqHash, sortedHdrNames, req) := canonicalRequest iter req true in
      let strToSign := stringToSign reqTime canonReqHash credScope in
      let key := signingKey reqTime (SecretKey auth) regionName svcName in
      let signature := hex (hmacHasher key strToSign) in
      let authHdrVal := authHeaderString (AccessKey auth) signature credScope sortedHdrNames in
      Ok (set_header (header_Set "Authorization" authHdrVal (h_header req)) req)
  end.

Definition SignV4Factory (iter : Values → list string) (regionName serviceName : string)
    (req : hrequest) (auth : Auth) : result hrequest := SignV4 iter req auth regionName serviceName.

(** [SignV4URL]; [expires] in nanoseconds. *)
Definition SignV4URL (iter : Values → list string) (req : hrequest) (auth : Auth)
    (regionName svcName : string) (expires : Z) : result hrequest :=
  match requestTime req with
  | Err e => Err e
  | Ok reqTime =>
      let req := set_header (header_Del "date" (h_header req)) req in
      let credScope := credentialScope reqTime regionName svcName in
      let queryVals := values_Set "X-Amz-SignedHeaders" "host"
        (values_Set "X-Amz-Expires" (pretty (Z.quot expires 1000000000))
        (values_Set "X-Amz-Date" (time_Format ISO8601BasicFormat reqTime)
        (values_Set "X-Amz-Credential" (AccessKey auth +:+ "/" +:+ credScope)
        (values_Set "X-Amz-Algorithm" "AWS4-HMAC-SHA256" (h_query req))))) in
      let '(_, canonReqHash, _, req) := canonicalRequest iter (set_query queryVals req) false in
      let strToSign := stringToSign reqTime canonReqHash credScope in
      let key := signingKey reqTime (SecretKey auth) regionName svcName in
      let signature := hex (hmacHasher key strToSign) in
      Ok (set_query (values_Set "X-Amz-Signature" signature queryVals) req)
  end.

(** [SignV2]: the values of the query are sorted in place by [canonicalQueryString].
    [base64] is Go's standard encoding. *)
Definition SignV2 (base64 : string → string) (req : hrequest) (auth : Auth) : hrequest :=
  let queryVals := values_Set "SignatureMethod" "HmacSHA256" (values_Set "SignatureVersion" "2"
    (values_Set "AWSAccessKeyId" (AccessKey auth) (h_query req))) in
  let payload := requestMethodVerb (h_method req) +:+ nl +:+ URL_Host (h_url req) +:+ nl +:+
    canonicalURI (URL_Path (h_url req)) +:+ nl +:+ canonicalQueryString queryVals in
  set_query (values_Set "Signature" (base64 (hmac_sha256 (SecretKey auth) payload)) (sort_Strings <$> queryVals)) req.
End sign.

(** ** The order of headers *)

Lemma sort_Strings_perm l l' : l ≡ₚ l' → sort_Strings l = sort_Strings l'.
Proof.
  intros Hl. apply (Sorted_unique String.le).
  1,2: apply Sorted_merge_sort; apply _.
  by rewrite /sort_Strings !merge_sort_Permutation.
Qed.

(** An order in which Go may visit the keys of a map: each once. *)
Definition visits (iter : Values → list string) : Prop := ∀ h, iter h ≡ₚ keys h.

Lemma sortHeaderNames_order order order' inj :
  order ≡ₚ order' → sortHeaderNames order inj = sortHeaderNames order' inj.
Proof. intros Ho. apply sort_Strings_perm. by rewrite Ho. Qed.

Lemma canonicalRequest_order `{!Crypto} iter iter' req calc :
  visits iter → visits iter' → canonicalRequest iter req calc = canonicalRequest iter' req calc.
Proof.
  intros Hi Hi'. rewrite /canonicalRequest. cbv zeta.
  set (hdr := if calc then _ else _).
  rewrite (sortHeaderNames_order (iter hdr) (iter' hdr)) //. by rewrite Hi Hi'.
Qed.

(** ** URI encoding *)

(** Replacing one byte acts byte by byte. *)
Definition replace_char (new : string) (c : ascii) : string := if decide (c = "+"%char) then new else String c "".
Lemma Replace_plus s new : Replace s "+" new None = flat_map_str (replace_char new) s.
Proof.
  rewrite /Replace. induction s as [|c s IH]; [done|]. cbn [replace_go flat_map_str].
  rewrite /replace_char. change (String.prefix "+" (String c s)) with
    (if ascii_dec "+"%char c then String.prefix "" s else false).
  destruct (ascii_dec "+"%char c) as [<-|Hc]; destruct (decide _) as [|]; try congruence; cbn.
  - by rewrite -IH; destruct s.
  - by rewrite IH.
Qed.

Lemma encode_char_agrees c : flat_map_str (replace_char "%20") (query_char c) = encode_char c.
Proof. all_bytes c. Qed.

(** The escaping of [net/url] with the plus signs replaced is the encoding of
    [aws.go], whose shortcut for plain strings changes nothing. *)
Lemma Encode_flat s : Encode s = flat_map_str encode_char s.
Proof.
  rewrite /Encode. destruct (any_char must_encode s) eqn:H; [done|].
  induction s as [|c s IH]; [done|]. cbn [any_char] in H. cbn [flat_map_str]. rewrite /encode_char.
  destruct (must_encode c); [done|]. by rewrite -(IH H).
Qed.
Lemma escape_is_Encode s : goToAwsUrlEncoding (QueryEscape s) = Encode s.
Proof.
  rewrite /goToAwsUrlEncoding Replace_plus Encode_flat.
  induction s as [|c s IH]; [done|]. cbn [QueryEscape flat_map_str].
  by rewrite flat_map_str_app encode_char_agrees IH.
Qed.

(** Decoding *)
Definition unhex (c : ascii) : N :=
  let n := N_of_ascii c in if decide (n < 65)%N then (n - 48)%N else (n - 55)%N.
Fixpoint decode (s : string) : string :=
  match s with
  | "" => ""
  | String c t =>
      if decide (c = "%"%char) then
        match t with
        | String a (String b t) => String (ascii_of_N (16 * unhex a + unhex b)%N) (decode t)
        | _ => String c (decode t)
        end
      else String c (decode t)
  end.

Lemma percent_hex c :
  match percent c with
  | String p (String a (String b "")) => p = "%"%char ∧ ascii_of_N (16 * unhex a + unhex b)%N = c
  | _ => False
  end.
Proof. all_bytes c. Qed.
Lemma unreserved_plain c : must_encode c = false → c ≠ "%"%char.
Proof. all_bytes c. Qed.
Lemma decode_char c s : decode (encode_char c +:+ s) = String c (decode s).
Proof.
  rewrite /encode_char. destruct (must_encode c) eqn:Hc.
  - pose proof (percent_hex c) as H. destruct (percent c) as [|p [|a [|b [|? ?]]]]; try done.
    destruct H as [-> H]. cbn [String.append decode decide]. by rewrite /= H.
  - apply unreserved_plain in Hc. change (String c "" +:+ s) with (String c s). cbn [decode].
    by destruct (decide (c = "%"%char)).
Qed.
Lemma decode_Encode s : decode (Encode s) = s.
Proof.
  rewrite Encode_flat. induction s as [|c s IH]; [done|].
  cbn [flat_map_str]. by rewrite decode_char IH.
Qed.

(** An encoded string consists of unreserved bytes and percent signs. *)
Definition safe (c : ascii) : bool := unreserved c || bool_decide (c = "%"%char).
Lemma encode_char_safe c : all_chars safe (encode_char c) = true.
Proof. all_bytes c. Qed.
Lemma Encode_safe s : all_chars safe (Encode s) = true.
Proof.
  rewrite Encode_flat. induction s as [|c s IH]; [done|].
  cbn [flat_map_str]. by rewrite all_chars_app encode_char_safe IH.
Qed.

Lemma canonicalURI_Encode path :
  path ≠ "" → canonicalURI path = Join (Encode <$> Split path slash) "/".
Proof.
  intros Hp. rewrite /canonicalURI. destruct (decide (path = "")); [done|].
  f_equal. apply list_fmap_ext. intros i x _. apply escape_is_Encode.
Qed.

(** The canonical URI determines the path. *)
Lemma canonicalURI_inj p q : p ≠ "" → q ≠ "" → canonicalURI p = canonicalURI q → p = q.
Proof.
  intros Hp Hq. rewrite !canonicalURI_Encode //. intros H%(f_equal (λ s, Split s slash)).
  rewrite !Split_Join in H;
    try (by intros ?%fmap_nil_inv%Split_not_nil);
    try (apply Forall_fmap, Forall_true; intros x; by apply (all_chars_has _ _ _ (Encode_safe x))).
  apply (f_equal (fmap decode)) in H. rewrite -!list_fmap_compose in H.
  assert (∀ l : list string, (decode ∘ Encode) <$> l = l) as Hid.
  { intros l. induction l as [|x l IH]; [done|]. by rewrite fmap_cons IH /= decode_Encode. }
  rewrite !Hid in H. by rewrite -(Join_Split p slash) -(Join_Split q slash) H.
Qed.

(** ** The lines of a canonical request *)

Definition newline : ascii := ascii_of_nat 10.
Definition on_line (c : ascii) : bool := negb (bool_decide (c = newline)).
Abbreviation one_line := (all_chars on_line).

Lemma one_line_has s : one_line s = true → has_char newline s = false.
Proof. intros Hs. by apply (all_chars_has on_line). Qed.

Lemma one_line_QueryEscape s : one_line (QueryEscape s) = true.
Proof. apply (all_chars_flat (λ _, true)); [|apply all_chars_any]. intros c _. all_bytes c. Qed.
Lemma one_line_toAws s : one_line s = true → one_line (goToAwsUrlEncoding s) = true.
Proof. rewrite /goToAwsUrlEncoding Replace_plus. apply all_chars_flat. intros c. all_bytes c. Qed.
Lemma one_line_query q : one_line (canonicalQueryString q) = true.
Proof.
  apply one_line_toAws, all_chars_Join; [done|]. apply Forall_forall. intros x (k & Hx & _)%list_elem_of_bind.
  apply list_elem_of_fmap in Hx as (v & -> & _). by rewrite !all_chars_app !one_line_QueryEscape.
Qed.
Lemma one_line_URI path : one_line (canonicalURI path) = true.
Proof.
  rewrite /canonicalURI. destruct (decide _); [done|]. apply all_chars_Join; [done|].
  apply Forall_fmap, Forall_true. intros x. apply one_line_toAws, one_line_QueryEscape.
Qed.
Lemma one_line_verb m : one_line m = true → one_line (requestMethodVerb m) = true.
Proof.
  rewrite /requestMethodVerb. destruct (take_until _ m) as [[a b]|] eqn:E; [|done].
  apply take_until_Some in E as ->. rewrite all_chars_app. by intros [? _]%andb_true_iff.
Qed.

(** The text of a canonical request determines its lines. *)
Lemma canonical_text_inj {Hcr : Crypto} r r' h h' ns ns' p p' :
  one_line (h_method r) = true → one_line (h_method r') = true →
  one_line (Join ns ";") = true → one_line (Join ns' ";") = true → one_line p = true → one_line p' = true →
  canonical_text r h ns p = canonical_text r' h' ns' p' →
  requestMethodVerb (h_method r) = requestMethodVerb (h_method r') ∧
  canonicalURI (URL_Path (h_url r)) = canonicalURI (URL_Path (h_url r')) ∧
  canonicalQueryString (h_query r) = canonicalQueryString (h_query r') ∧
  h = h' ∧ Join ns ";" = Join ns' ";" ∧ p = p'.
Proof.
  intros Hm%one_line_verb Hm'%one_line_verb Hn Hn' Hp Hp'. rewrite /canonical_text.
  intros [Hv H]%first_char_inj; [|by apply one_line_has..]. change (String.append "" ?x) with x in H.
  apply first_char_inj in H as [Hu H]; [|apply one_line_has, one_line_URI..]. change (String.append "" ?x) with x in H.
  apply first_char_inj in H as [Hq H]; [|apply one_line_has, one_line_query..]. change (String.append "" ?x) with x in H.
  change (nl +:+ ?x) with (String newline x) in H.
  assert (∀ a b c, a +:+ String newline (b +:+ String newline c) = (a +:+ String newline b) +:+ String newline c) as Hre.
  { intros a b c. by rewrite -str_app_assoc. }
  rewrite !Hre in H. apply last_char_inj in H as [H Hpp]; [|by apply one_line_has..].
  apply last_char_inj in H as [Hh Hnn]; [|by apply one_line_has..]. done.
Qed.
End AmzSign.
