(* ===== verification/AmzCanonical.v ===== *)
(** * goamz: what a canonical request says

    The texts of [AmzSign.canonicalRequest] read back: the canonical query determines
    the values of every key up to their order, the canonical headers determine the
    host and the comma-separated values of every header. *)

From stdpp Require Import sorting.
From S2P Require Import Prelude GoStrings GoUrl AmzSign.

Module AmzCanonical.
Import AmzSign.

(** ** The query *)

(** The pairs of a query, by key, the values of a key sorted. *)
Definition pairs_of (ks : list string) (q : Values) : list (string * string) :=
  k ← ks; (λ v, (k, v)) <$> sort_Strings (default [] (q !! k)).
Definition pairs (q : Values) : list (string * string) := pairs_of (sort_Strings (keys q)) q.
Definition pair_text (kv : string * string) : string := Encode kv.1 +:+ "=" +:+ Encode kv.2.

Lemma toAws_app a b : goToAwsUrlEncoding (a +:+ b) = goToAwsUrlEncoding a +:+ goToAwsUrlEncoding b.
Proof. by rewrite /goToAwsUrlEncoding !Replace_plus flat_map_str_app. Qed.
Lemma toAws_Join l : goToAwsUrlEncoding (Join l "&") = Join (goToAwsUrlEncoding <$> l) "&".
Proof.
  induction l as [|x [|y l] IH]; [done|done|]. cbn [Join fmap list_fmap] in IH |- *. by rewrite !toAws_app IH.
Qed.

Lemma sort_Strings_idem l : sort_Strings (sort_Strings l) = sort_Strings l.
Proof. apply sort_Strings_perm, merge_sort_Permutation. Qed.

Lemma canonicalQueryString_pairs q : canonicalQueryString q = Join (pair_text <$> pairs q) "&".
Proof.
  rewrite /canonicalQueryString /Values_Encode toAws_Join /pairs. f_equal.
  assert (sort_Strings (keys (sort_Strings <$> q)) = sort_Strings (keys q)) as ->.
  { apply sort_Strings_perm. rewrite /keys map_to_list_fmap -list_fmap_compose. apply reflexive_eq.
    by apply list_fmap_ext; intros i []. }
  induction (sort_Strings (keys q)) as [|k ks IH]; [done|].
  rewrite /pairs_of !bind_cons !fmap_app IH. f_equal. rewrite lookup_fmap.
  assert (default [] (sort_Strings <$> q !! k) = sort_Strings (default [] (q !! k))) as ->
    by by destruct (q !! k).
  rewrite /encode_values -!list_fmap_compose. apply list_fmap_ext. intros i v _.
  by rewrite /pair_text /= !toAws_app !escape_is_Encode.
Qed.

(** The values of one key. *)
Definition values_of (k : string) (l : list (string * string)) : list string :=
  (filter (λ kv, kv.1 = k) l).*2.

Lemma values_of_same k l : values_of k ((λ v, (k, v)) <$> l) = l.
Proof.
  induction l as [|v l IH]; [done|]. rewrite /values_of fmap_cons filter_cons_True //= -/(values_of _ _). by f_equal.
Qed.
Lemma values_of_other k k' l : k' ≠ k → values_of k ((λ v, (k', v)) <$> l) = [].
Proof.
  intros Hk. induction l as [|v l IH]; [done|]. by rewrite /values_of fmap_cons filter_cons_False.
Qed.
Lemma values_of_pairs_of ks q k :
  NoDup ks → values_of k (pairs_of ks q) = if decide (k ∈ ks) then sort_Strings (default [] (q !! k)) else [].
Proof.
  induction 1 as [|k' ks Hk' Hks IH]; [done|].
  assert (values_of k (pairs_of (k' :: ks) q) =
    values_of k ((λ v, (k', v)) <$> sort_Strings (default [] (q !! k'))) ++ values_of k (pairs_of ks q)) as ->.
  { by rewrite /values_of /pairs_of bind_cons filter_app fmap_app. }
  rewrite IH. destruct (decide (k' = k)) as [->|Hne].
  - rewrite values_of_same decide_False // decide_True ?app_nil_r //. left.
  - rewrite values_of_other //=. destruct (decide (k ∈ ks)); [rewrite decide_True //; by right|].
    rewrite decide_False //. intros [|]%elem_of_cons; congruence.
Qed.

Lemma values_of_pairs q k : values_of k (pairs q) = sort_Strings (default [] (q !! k)).
Proof.
  assert (sort_Strings (keys q) ≡ₚ keys q) as Hp by apply merge_sort_Permutation.
  rewrite /pairs values_of_pairs_of; last first.
  { rewrite Hp. apply NoDup_fst_map_to_list. }
  destruct (decide _) as [|Hk]; [done|]. rewrite Hp in Hk.
  destruct (q !! k) as [vs|] eqn:E; [|done]. destruct Hk. apply list_elem_of_fmap.
  exists (k, vs). split; [done|]. by apply elem_of_map_to_list.
Qed.

Lemma safe_no c s : safe c = false → has_char c (Encode s) = false.
Proof. intros Hc. by apply (all_chars_has safe _ _ (Encode_safe s)). Qed.

#[local] Instance pair_text_inj : Inj eq eq pair_text.
Proof.
  intros [k v] [k' v']. rewrite /pair_text /=. intros H%(f_equal (take_until "="%char)).
  rewrite !take_until_app in H; [|by apply safe_no..]. injection H as Hk Hv.
  by rewrite -(decode_Encode k) -(decode_Encode v) Hk Hv !decode_Encode.
Qed.
Lemma pair_text_no p : has_char "&"%char (pair_text p) = false.
Proof. by rewrite /pair_text !has_char_app !safe_no. Qed.

(** Two queries with the same canonical text have the same values under every key, in
    some order. *)
Lemma canonicalQueryString_inj q q' k :
  canonicalQueryString q = canonicalQueryString q' → default [] (q !! k) ≡ₚ default [] (q' !! k).
Proof.
  rewrite !canonicalQueryString_pairs. intros H.
  assert (∀ l, Forall (λ x, has_char "&"%char x = false) (pair_text <$> l)) as Hno.
  { intros l. apply Forall_fmap, Forall_true. intros p. apply pair_text_no. }
  assert (pairs q = pairs q') as Hp.
  { destruct (pairs q) as [|p l], (pairs q') as [|p' l']; [done| | |].
    - apply (f_equal (λ s, has_char "="%char s)) in H. rewrite fmap_cons in H.
      destruct l'; cbn [Join fmap list_fmap] in H; rewrite /pair_text !has_char_app /= ?orb_true_r in H; done.
    - apply (f_equal (λ s, has_char "="%char s)) in H. rewrite fmap_cons in H.
      destruct l; cbn [Join fmap list_fmap] in H; rewrite /pair_text !has_char_app /= ?orb_true_r in H; done.
    - apply (f_equal (λ s, Split s "&"%char)) in H. rewrite !Split_Join // in H.
      by apply (inj (fmap pair_text)) in H. }
  rewrite -(merge_sort_Permutation String.le (default [] (q !! k))).
  rewrite -(merge_sort_Permutation String.le (default [] (q' !! k))).
  rewrite -!/(sort_Strings _) -!values_of_pairs. by rewrite Hp.
Qed.

(** ** The headers *)

(** The value of a header on its line. *)
Definition header_value (host : string) (h : Values) (n : string) : string :=
  if decide (n = "host") then host else Join (sort_Strings (default [] (h !! CanonicalHeaderKey n))) ",".
Definition header_lines (host : string) (h : Values) (names : list string) : string :=
  foldr (λ n s, n +:+ ":" +:+ header_value host h n +:+ nl +:+ s) "" names.

Lemma header_value_alter host h k n : header_value host (alter sort_Strings k h) n = header_value host h n.
Proof.
  rewrite /header_value. case_decide; [done|]. f_equal. destruct (decide (k = CanonicalHeaderKey n)) as [->|Hk].
  - rewrite lookup_alter_eq. destruct (h !! _); [|done]. apply sort_Strings_idem.
  - by rewrite lookup_alter_ne.
Qed.
Lemma canonicalHeaders_lines names host h : (canonicalHeaders names host h).1 = header_lines host h names.
Proof.
  revert h. induction names as [|n names IH]; intros h; [done|].
  cbn [canonicalHeaders header_lines foldr]. unfold header_value at 1.
  destruct (decide (n = "host")) as [|Hn].
  - specialize (IH h). destruct (canonicalHeaders names host h). simpl in *. by rewrite IH.
  - specialize (IH (alter sort_Strings (CanonicalHeaderKey n) h)).
    destruct (canonicalHeaders names host _). simpl in *. rewrite IH. do 4 f_equal.
    clear. rewrite /header_lines. induction names as [|m names IH]; [done|]. simpl.
    by rewrite header_value_alter IH.
Qed.

Lemma header_lines_inj names host host' h h' :
  Forall (λ n, one_line n = true) names →
  (∀ n, one_line (header_value host h n) = true) → (∀ n, one_line (header_value host' h' n) = true) →
  header_lines host h names = header_lines host' h' names →
  ∀ n, n ∈ names → header_value host h n = header_value host' h' n.
Proof.
  intros Hn Hv Hv'. induction Hn as [|m names Hm Hn IH]; [by intros _ n ?%elem_of_nil|].
  cbn [header_lines foldr]. intros H%(f_equal (take_until newline)).
  assert (∀ x s, one_line x = true →
    take_until newline (m +:+ ":" +:+ x +:+ nl +:+ s) = Some (m +:+ ":" +:+ x, s)) as Ht.
  { intros x s Hx. replace (m +:+ ":" +:+ x +:+ nl +:+ s) with ((m +:+ ":" +:+ x) +:+ String newline s).
    - apply take_until_app, one_line_has. by rewrite !all_chars_app Hm Hx.
    - by rewrite -!str_app_assoc. }
  rewrite !Ht // in H. injection H as Hx Hrest. intros n [->|Hin]%elem_of_cons; [|by apply IH].
  apply str_app_inj_l in Hx. by injection Hx.
Qed.

(** ** Requests *)

(** What [net/http] sends: a method and a URL without newlines, header names made of
    token characters, values without newlines. *)
Record wf_request (r : hrequest) : Prop := {
  wf_method : one_line (h_method r) = true;
  wf_url : one_line (h_url r) = true;
  wf_header : map_Forall (λ k vs, all_chars token_char k = true ∧ Forall (λ v, one_line v = true) vs) (h_header r);
}.

(** The empty path of a URL is the root. *)
Definition root_path (p : string) : string := if decide (p = "") then "/" else p.
Lemma canonicalURI_root p q : canonicalURI p = canonicalURI q → root_path p = root_path q.
Proof.
  assert (∀ p, canonicalURI p = canonicalURI (root_path p)) as Hr.
  { intros x. rewrite /root_path. by case_decide; [subst|]. }
  rewrite (Hr p) (Hr q). apply canonicalURI_inj; rewrite /root_path; by case_decide.
Qed.

Section requests.
Context {Hcrypto : Crypto}.

(** The headers that are signed, and their names in the order of the signature. *)
Definition signed_headers (r : hrequest) : Values :=
  header_Set "x-amz-content-sha256" (payloadHash r) (h_header r).
Definition signed_names (iter : Values → list string) (r : hrequest) : list string :=
  sortHeaderNames (iter (signed_headers r)) ["host"].
Definition signed_value (r : hrequest) (n : string) : string :=
  header_value (URL_Host (h_url r)) (signed_headers r) n.

Lemma one_line_hex b : one_line (sha256Hasher b) = true.
Proof. apply (all_chars_flat (λ _, true)); [|apply all_chars_any]. intros c _. all_bytes c. Qed.

Lemma wf_signed r : wf_request r →
  map_Forall (λ k vs, all_chars token_char k = true ∧ Forall (λ v, one_line v = true) vs) (signed_headers r).
Proof.
  intros Hr. apply map_Forall_insert_2; [|apply Hr]. split; [done|]. constructor; [apply one_line_hex|done].
Qed.

Lemma token_ToLower k : all_chars token_char k = true → all_chars token_char (ToLower k) = true.
Proof.
  induction k as [|c k IH]; [done|]. cbn. intros [Hc Hk]%andb_true_iff.
  change (token_char (lower_ascii c) && all_chars token_char (ToLower k) = true). rewrite (IH Hk) andb_true_r.
  revert Hc. clear. all_bytes c.
Qed.
Lemma token_one_line s : all_chars token_char s = true → one_line s = true.
Proof.
  induction s as [|c s IH]; [done|]. cbn. intros [Hc Hs]%andb_true_iff. rewrite (IH Hs) andb_true_r.
  revert Hc. clear. all_bytes c.
Qed.

Lemma signed_names_tokens iter r : visits iter → wf_request r →
  Forall (λ n, all_chars token_char n = true) (signed_names iter r).
Proof.
  intros Hi Hr. rewrite /signed_names /sortHeaderNames /sort_Strings merge_sort_Permutation Hi.
  constructor; [done|]. apply Forall_fmap, Forall_fmap, Forall_forall.
  intros [k v] Hk%elem_of_map_to_list. apply token_ToLower. by destruct (wf_signed _ Hr _ _ Hk).
Qed.
Lemma signed_names_host iter r : "host" ∈ signed_names iter r.
Proof. rewrite /signed_names /sortHeaderNames /sort_Strings merge_sort_Permutation. left. Qed.

Lemma one_line_signed_names iter r :
  visits iter → wf_request r → one_line (Join (signed_names iter r) ";") = true.
Proof.
  intros Hi Hr. apply all_chars_Join; [done|]. eapply Forall_impl; [by apply signed_names_tokens|].
  intros n. apply token_one_line.
Qed.

Lemma one_line_suffix c s a b : take_until c s = Some (a, b) → one_line s = true →
  one_line a = true ∧ one_line b = true.
Proof.
  intros ->%take_until_Some. rewrite all_chars_app. intros [Ha Hb]%andb_true_iff. split; [done|].
  by apply andb_true_iff in Hb as [_ Hb].
Qed.
Lemma one_line_host u : one_line u = true → one_line (URL_Host u) = true.
Proof.
  intros Hu. assert (one_line (after_scheme u) = true) as Ha.
  { rewrite /after_scheme. destruct (take_until _ u) as [[a b]|] eqn:E; [|done].
    destruct (one_line_suffix _ _ _ _ E Hu) as [_ Hb]. destruct (strip_prefix "//" b) as [t|] eqn:Es; [|done].
    apply strip_prefix_Some in Es as ->. rewrite all_chars_app in Hb. by apply andb_true_iff in Hb as [_ Hb]. }
  rewrite /URL_Host. destruct (take_until _ (after_scheme u)) as [[h p]|] eqn:E; [|done].
  by destruct (one_line_suffix _ _ _ _ E Ha).
Qed.
Lemma one_line_value r n : wf_request r → one_line (signed_value r n) = true.
Proof.
  intros Hr. rewrite /signed_value /header_value. case_decide; [by apply one_line_host, Hr|].
  apply all_chars_Join; [done|]. rewrite /sort_Strings merge_sort_Permutation.
  destruct (signed_headers r !! _) as [vs|] eqn:E; [|done]. by destruct (wf_signed _ Hr _ _ E).
Qed.

(** The names line and the header lines determine both. *)
Lemma signed_headers_inj iter r r' :
  visits iter → wf_request r → wf_request r' →
  Join (signed_names iter r) ";" = Join (signed_names iter r') ";" →
  (canonicalHeaders (signed_names iter r) (URL_Host (h_url r)) (signed_headers r)).1 =
    (canonicalHeaders (signed_names iter r') (URL_Host (h_url r')) (signed_headers r')).1 →
  signed_names iter r = signed_names iter r' ∧
  ∀ n, n ∈ signed_names iter r → signed_value r n = signed_value r' n.
Proof.
  intros Hi Hr Hr' Hj Hh.
  assert (signed_names iter r = signed_names iter r') as Hn.
  { apply (f_equal (λ s, Split s ";"%char)) in Hj. rewrite !Split_Join in Hj; [done| | | |].
    1,3: intros E; pose proof (signed_names_host iter r) as H1; pose proof (signed_names_host iter r') as H2;
         rewrite E in H1, H2 || (rewrite E in H1) || (rewrite E in H2); by eapply not_elem_of_nil.
    all: eapply Forall_impl; [by apply signed_names_tokens|]; intros n Hn; by apply (all_chars_has token_char). }
  split; [done|]. rewrite !canonicalHeaders_lines -Hn in Hh.
  apply header_lines_inj; [|by intros; apply one_line_value..|done].
  eapply Forall_impl; [by apply signed_names_tokens|]. intros n. apply token_one_line.
Qed.
End requests.
End AmzCanonical.
