(* ===== verification/AmzS3.v ===== *)
(** * goamz: the S3 client

    [src/src/gopkg.in/amz.v3]: [aws/attempt.go] (how long and how often a request is
    tried), [aws/aws.go] (regions) and [s3/s3.go] (buckets and objects over HTTP).
    The HTTP transport, the clock and the XML decoders are the class [Http]; signing
    is the function field [Sign] of an [S3], as in the source.  A URL is kept as
    its text. *)

From S2P Require Import Prelude GoStrings Services AmzSign.

Module AmzS3.
Import AmzSign.

(** ** Regions *)
Record Region := mkRegion {
  Name : string;
  S3Endpoint : string;
  S3BucketEndpoint : string;
  S3LocationConstraint : bool;
  S3LowercaseBucket : bool;
}.

Definition ResolveS3BucketEndpoint (r : Region) (bucketName : string) : string :=
  if decide (S3BucketEndpoint r ≠ "")
  then ToLower (Replace (S3BucketEndpoint r) "${bucket}" bucketName None)
  else ToLower (S3Endpoint r +:+ "/" +:+ bucketName +:+ "/").

Definition USEast : Region := mkRegion "us-east-1" "https://s3.amazonaws.com" "" false false.

(** ** HTTP *)
(** A response: status, status line, the body with the error that ends its reading, if
    any, and the headers. *)
Record hresponse := mkHresp {
  h_status : Z;
  h_statusline : string;
  h_content : string;
  h_read : option error;
  h_rheader : Values;
}.

(** What an error document says. *)
Record error_doc := mkDoc { doc_code : string; doc_message : string }.

(** What a listing says. *)
Record Owner := mkOwner { ID : string; DisplayName : string }.
Record Key := mkKey {
  key_Key : string;
  LastModified : string;
  Size : Z;
  ETag : string;
  StorageClass : string;
  key_Owner : Owner;
}.
Record ListResp := mkListResp {
  list_Name : string;
  Prefix : string;
  Delimiter : string;
  Marker : string;
  NextMarker : string;
  MaxKeys : Z;
  IsTruncated : bool;
  Contents : list Key;
  CommonPrefixes : list string;
}.

Class Http (T : Type) := {
  (** [http.NewRequest] accepts the URL. *)
  http_url_ok : string → bool;
  (** [http.DefaultClient.Do] *)
  http_do : hrequest → T → result hresponse * T;
  (** [time.Now()] and [time.Sleep], in nanoseconds *)
  time_now : T → Z * T;
  time_sleep : Z → T → T;
  (** [xml.Decode(&err)]: the fields that could be read. *)
  xml_error : string → error_doc;
  (** [xml.Decode(&result)]: the fields that could be read before an error, if any. *)
  xml_list : string → ListResp;
}.

Section s3.
Context {T : Type} `{!Http T, !Crypto}.
Abbreviation MH := (M T).

Definition lift {A} (f : T → A * T) : MH A := λ s, let '(a, s') := f s in (Ret a, s').
Definition Now : MH Z := lift time_now.
Definition Sleep (d : Z) : MH () := modify (time_sleep d).
Definition Do (r : hrequest) : MH (result hresponse) := lift (http_do r).

(** ** Attempts *)
Record AttemptStrategy := mkStrategy { Total : Z; Delay : Z; Min : Z }.
Record Attempt := mkAttempt {
  strategy : AttemptStrategy;
  last : Z;
  end_ : Z;
  force : bool;
  count : Z;
}.

Definition Start (s : AttemptStrategy) : MH Attempt :=
  now ← Now; mret (mkAttempt s now (now + Total s)%Z true 0).

Definition nextSleep (a : Attempt) (now : Z) : Z :=
  let sleep := (Delay (strategy a) - (now - last a))%Z in
  if decide (sleep < 0)%Z then 0%Z else sleep.

Definition Next (a : Attempt) : MH (bool * Attempt) :=
  now ← Now;
  let sleep := nextSleep a now in
  if negb (force a) && negb (bool_decide (now + sleep < end_ a)%Z) &&
     bool_decide (Min (strategy a) ≤ count a)%Z
  then mret (false, a)
  else
    now ← (if decide (sleep > 0 ∧ count a > 0)%Z then Sleep sleep;; Now else mret now);
    mret (true, mkAttempt (strategy a) now (end_ a) false (count a + 1)).

Definition HasNext (a : Attempt) : MH (bool * Attempt) :=
  if force a || bool_decide (Min (strategy a) > count a)%Z then mret (true, a)
  else
    now ← Now;
    if decide (now + nextSleep a now < end_ a)%Z
    then mret (true, mkAttempt (strategy a) (last a) (end_ a) true (count a))
    else mret (false, a).

(** [attempts]: at least five times, and for five seconds, 200 ms apart. *)
Definition defaultAttempts : AttemptStrategy := mkStrategy 5000000000 200000000 5.

(** ** Errors *)
Definition buildError (r : hresponse) : error :=
  let d := xml_error (h_content r) in
  S3Error (h_status r) (doc_code d)
    (if decide (doc_message d = "") then h_statusline r else doc_message d).

Definition shouldRetry (err : error) : bool :=
  match err with
  | ErrUnexpectedEOF | EOF => true
  | DNSError _ => true
  | OpError op _ => bool_decide (op = "read" ∨ op = "write")
  | S3Error _ code _ => bool_decide (code = "InternalError" ∨ code = "NoSuchUpload" ∨ code = "NoSuchBucket")
  | _ => false
  end.

Definition hasCode (err : error) (code : string) : bool :=
  match err with S3Error _ c _ => bool_decide (c = code) | _ => false end.

(** ** The retry loop

    [for attempt := attempts.Start(); attempt.Next(); { ... }], the strategy that
    is passed in is not used.  [n] bounds the rounds. *)
Definition out_of_fuel : crash := Panic "out of fuel".
Fixpoint retry_loop (n : nat) (req : hrequest) (attempt : Attempt) : MH (result hresponse) :=
  match n with
  | O => throw out_of_fuel
  | S n =>
      r ← Next attempt;
      match r with
      | (false, _) =>
          mret (Err (ErrorS "could not complete the request within the specified retry attempts"))
      | (true, attempt) =>
          r ← Do req;
          match r with
          | Ok resp => mret (Ok resp)
          | Err err =>
              r ← (if shouldRetry err then HasNext attempt else mret (false, attempt));
              match r with
              | (true, attempt) => retry_loop n req attempt
              | (false, _) => mret (Err (ErrorS ("making request: " +:+ error_string err)))
              end
          end
      end
  end.

(** The rounds a strategy allows: [Min], or as many delays as begin within [Total]. *)
Definition rounds (s : AttemptStrategy) : Z := Z.max (Min s) ((Total s - 1) / Delay s + 1).

(** [attempts] is the package variable at its initial value; [RetryAttempts], which would
    change it and which the bundler does not call, is not modelled. *)
Definition requestRetryLoop (req : hrequest) (retryStrat : AttemptStrategy) : MH (result hresponse) :=
  attempt ← Start defaultAttempts;
  retry_loop (S (Z.to_nat (rounds defaultAttempts))) req attempt.

(** ** Buckets *)

Record S3 := mkS3 {
  s3_Auth : Auth;
  region : Region;
  Sign : hrequest → Auth → result hrequest;
}.

(** [New] and the bundler's [makeS3]: the credentials come from the environment. *)
Definition New (auth : Auth) (r : Region) : S3 := mkS3 auth r (SignV4Factory keys (Name r) "s3").
Definition makeS3 (Getenv : string → string) : S3 :=
  New (mkAuth (Getenv "AWS_ACCESS_KEY_ID") (Getenv "AWS_SECRET_ACCESS_KEY")) USEast.

Record Bucket := mkBucket { b_s3 : S3; b_name : string }.

Definition bad_bucket (name : string) : bool :=
  has_char "/"%char name || has_char ":"%char name || has_char "@"%char name.
Definition S3_Bucket (s : S3) (name : string) : result Bucket :=
  if bad_bucket name then Err (ErrorS ("bad S3 bucket: " +:+ name))
  else Ok (mkBucket s
    (if negb (bool_decide (S3BucketEndpoint (region s) = "")) || S3LowercaseBucket (region s)
     then ToLower name else name)).

Definition endpoint (b : Bucket) : string := ResolveS3BucketEndpoint (region (b_s3 b)) (b_name b).

Definition createBucketConfiguration (name : string) : string :=
  "<CreateBucketConfiguration xmlns=" +:+ dquote +:+ "http://s3.amazonaws.com/doc/2006-03-01/" +:+
  dquote +:+ ">" +:+ nl +:+ "  <LocationConstraint>" +:+ name +:+ "</LocationConstraint>" +:+ nl +:+
  "</CreateBucketConfiguration>".
Definition locationConstraint (s : S3) : string :=
  if S3LocationConstraint (region s) then createBucketConfiguration (Name (region s)) else "".

(** [http.NewRequest] for an endpoint, the path appended to its URL. *)
Definition NewRequest (method url path body : string) : result hrequest :=
  if http_url_ok url then Ok (mkHreq method (url +:+ path) ∅ ∅ body)
  else Err (ErrorS ("parse " +:+ url)).

Definition header_add (k v : string) (r : hrequest) : hrequest := set_header (header_Add k v (h_header r)) r.

(** [addAmazonDateHeader] *)
Definition addAmazonDateHeader (r : hrequest) : MH hrequest :=
  now ← Now; mret (set_header (header_Set "x-amz-date" (time_Format ISO8601BasicFormat now) (h_header r)) r).

(** A request that has been dated and signed; the order in which headers of
    different names are set does not matter. *)
Definition prepared (b : Bucket) (req : result hrequest) (headers : list (string * string)) :
    MH (result hrequest) :=
  match req with
  | Err e => mret (Err e)
  | Ok req =>
      req ← addAmazonDateHeader (foldl (λ r '(k, v), header_add k v r) req headers);
      mret (Sign (b_s3 b) req (s3_Auth (b_s3 b)))
  end.

Definition ok_status (r : hresponse) : bool := bool_decide (h_status r = 200%Z ∨ h_status r = 204%Z).

(** [Put], [PutReader] and [PutReaderWithHeader] on bytes. *)
Definition Put (b : Bucket) (path data contType perm : string) : MH (option error) :=
  r ← prepared b (NewRequest "PUT" (endpoint b) path data)
        [("Content-Type", contType); ("x-amz-acl", perm)];
  match r with
  | Err e => mret (Some e)
  | Ok req =>
      r ← Do req;
      match r with
      | Err e => mret (Some e)
      | Ok resp => if ok_status resp then mret None else mret (Some (buildError resp))
      end
  end.

(** [PutBucket]: the status of the answer is not looked at. *)
Definition PutBucket (b : Bucket) (perm : string) : MH (option error) :=
  r ← prepared b (NewRequest "PUT" (endpoint b) "" (locationConstraint (b_s3 b))) [("x-amz-acl", perm)];
  match r with
  | Err e => mret (Some e)
  | Ok req =>
      r ← Do req;
      match r with Err e => mret (Some e) | Ok _ => mret None end
  end.

Definition DelBucket (b : Bucket) : MH (option error) :=
  r ← prepared b (NewRequest "DELETE" (endpoint b) "" "") [];
  match r with
  | Err e => mret (Some e)
  | Ok req =>
      r ← requestRetryLoop req defaultAttempts;
      match r with Err e => mret (Some e) | Ok _ => mret None end
  end.

Definition GetReader (b : Bucket) (path : string) : MH (result hresponse) :=
  req ←? prepared b (NewRequest "GET" (endpoint b) path "") [];
  resp ←? requestRetryLoop req defaultAttempts;
  if ok_status resp then mret (Ok resp) else mret (Err (buildError resp)).

(** [Get]: [ioutil.ReadAll] on the body. *)
Definition Get (b : Bucket) (path : string) : MH (result string) :=
  resp ←? GetReader b path;
  match h_read resp with
  | Some e => mret (Err e)
  | None => mret (Ok (h_content resp))
  end.

(** [Del]: the status of the answer is not looked at. *)
Definition Del (b : Bucket) (path : string) : MH (option error) :=
  r ← prepared b (NewRequest "DELETE" (endpoint b) path "") [];
  match r with
  | Err e => mret (Some e)
  | Ok req =>
      r ← Do req;
      match r with Err e => mret (Some e) | Ok _ => mret None end
  end.

(** [List]: the error of the decoder is not looked at. *)
Definition List (b : Bucket) (prefix delim marker : string) (max : Z) : MH (result ListResp) :=
  let query := values_Add "marker" marker (values_Add "delimiter" delim (values_Add "prefix" prefix ∅)) in
  let query := if decide (max ≠ 0)%Z then values_Add "max-keys" (pretty max) query else query in
  let req := match NewRequest "GET" (endpoint b) "" "" with Ok r => Ok (set_query query r) | Err e => Err e end in
  req ←? prepared b req [];
  resp ←? requestRetryLoop req defaultAttempts;
  if ok_status resp then mret (Ok (xml_list (h_content resp))) else mret (Err (buildError resp)).

(** [URL] *)
Definition URL (b : Bucket) (path : string) : string := endpoint b +:+ path.
End s3.

End AmzS3.
