(* ===== verification/AmzS3Correct.v ===== *)
(** * What the S3 client guarantees

    Theorems about [AmzS3]: a request is tried a bounded number of times, and over
    a service that speaks S3's REST protocol the client satisfies the laws that the
    bundler's object store is verified against ([S3Laws]). *)

From stdpp Require Import sorting.
From S2P Require Import Prelude GoStrings GoUrl Services AmzSign AmzCanonical AmzS3.

Module AmzS3Correct.
Import AmzSign AmzCanonical AmzS3.

(** ** Time

    The clock does not run backwards and a sleep lasts at least as long as it was
    asked for (both documented of [time]); [reqs] counts the requests. *)
Class ClockLaws (T : Type) `{!Http T} := {
  clock : T → Z;
  reqs : T → Z;
  now_law : ∀ s : T, (time_now s).1 = clock s ∧ (clock s ≤ clock (time_now s).2)%Z ∧
    reqs (time_now s).2 = reqs s;
  sleep_law : ∀ d (s : T), (0 ≤ d)%Z → (clock s + d ≤ clock (time_sleep d s))%Z ∧
    reqs (time_sleep d s) = reqs s;
  do_law : ∀ r (s : T), (clock s ≤ clock (http_do r s).2)%Z ∧
    reqs (http_do r s).2 = (reqs s + 1)%Z;
}.

Section attempts.
Context {T : Type} `{!Http T, !ClockLaws T}.
Implicit Types (s : T) (a : Attempt).

Lemma wp_Now (Q : Z → T → Prop) C s :
  (∀ s', (clock s ≤ clock s')%Z → reqs s' = reqs s → Q (clock s) s') → wp Now Q C s.
Proof.
  intros HQ. rewrite /wp /Now /lift. pose proof (now_law s) as Hl. destruct (time_now s) as [z s'].
  simpl in Hl. destruct Hl as (-> & ? & ?). by apply HQ.
Qed.

Lemma wp_Do r (Q : result hresponse → T → Prop) C s :
  (∀ x s', http_do r s = (x, s') → (clock s ≤ clock s')%Z → reqs s' = (reqs s + 1)%Z → Q x s') →
  wp (Do r) Q C s.
Proof.
  intros HQ. rewrite /wp /Do /lift. pose proof (do_law r s) as [? ?]. destruct (http_do r s). by apply HQ.
Qed.

(** Between two attempts: the [count]-th one began no earlier than [count - 1]
    delays after the start, and another one is forced only within the total. *)
Record running a s : Prop := {
  ru_count : (0 ≤ count a)%Z;
  ru_last : (last a ≤ clock s)%Z;
  ru_spaced : (0 < count a)%Z →
    (end_ a - Total (strategy a) + (count a - 1) * Delay (strategy a) ≤ last a)%Z;
  ru_first : count a = 0%Z → force a = true ∧ (end_ a - Total (strategy a) ≤ last a)%Z;
  ru_force : force a = true → (0 < count a)%Z →
    (count a * Delay (strategy a) < Total (strategy a) ∨ count a < Min (strategy a))%Z;
}.

Definition sane (st : AttemptStrategy) : Prop := (0 < Delay st ∧ 0 < Total st)%Z.

Lemma nextSleep_spec a now :
  (0 ≤ nextSleep a now)%Z ∧ (last a + Delay (strategy a) ≤ now + nextSleep a now)%Z.
Proof. rewrite /nextSleep. case_decide; lia. Qed.

Lemma rounds_delay st k : sane st → (k * Delay st < Total st)%Z → (k + 1 ≤ rounds st)%Z.
Proof.
  intros [Hd Ht] Hk. rewrite /rounds. assert (k ≤ (Total st - 1) / Delay st)%Z; [|lia].
  apply Z.div_le_lower_bound; lia.
Qed.

(** [Next] either stops or begins an attempt that the strategy has room for. *)
Lemma wp_Next a (Q : bool * Attempt → T → Prop) C s :
  sane (strategy a) → running a s →
  (∀ s', reqs s' = reqs s → Q (false, a) s') →
  (∀ a' s', strategy a' = strategy a → count a' = (count a + 1)%Z → force a' = false →
     (count a' ≤ rounds (strategy a))%Z → running a' s' → reqs s' = reqs s → Q (true, a') s') →
  wp (Next a) Q C s.
Proof.
  intros Hsane [Hc Hl Hsp Hf Hfo] HF HT. apply wp_bind, wp_Now. intros s1 Hs1 Hr1.
  destruct (nextSleep_spec a (clock s)) as [H0 Hge].
  cbv zeta. case_match eqn:Hstop; [by apply wp_ret, HF|].
  assert (count a = 0 ∨ 0 < count a ∧ (count a * Delay (strategy a) < Total (strategy a) ∨
            count a < Min (strategy a)))%Z as Hroom.
  { destruct (Z.eq_dec (count a) 0%Z) as [|Hne]; [by left|right]. split; [lia|].
    destruct (force a) eqn:Hforce; [apply Hfo; [done|lia]|]. simpl in Hstop.
    apply andb_false_iff in Hstop as [H%negb_false_iff%bool_decide_eq_true|H%bool_decide_eq_false];
      [left|right; lia]. specialize (Hsp ltac:(lia)). lia. }
  assert (count a + 1 ≤ rounds (strategy a))%Z as Hrounds.
  { destruct Hroom as [->|[_ [Hd|Hm]]]; [|by apply rounds_delay|rewrite /rounds; lia].
    apply (rounds_delay _ 0); [done|]. destruct Hsane; lia. }
  assert (∀ now s2, (clock s ≤ now)%Z → (now ≤ clock s2)%Z → reqs s2 = reqs s →
            (0 < count a → last a + Delay (strategy a) ≤ now)%Z →
            Q (true, mkAttempt (strategy a) now (end_ a) false (count a + 1)) s2) as HT'.
  { intros now s2 Hn1 Hn2 Hr2 Hgap. apply HT; try done. split; simpl; lia. }
  apply wp_bind. destruct (decide (nextSleep a (clock s) > 0 ∧ count a > 0)%Z).
  - apply wp_bind, wp_modify, wp_Now. destruct (sleep_law (nextSleep a (clock s)) s1 H0) as [Hsl Hrs].
    intros s2 Hs2 Hr2. apply wp_ret, HT'; lia.
  - apply wp_ret, wp_ret, HT'; lia.
Qed.

Lemma wp_HasNext a (Q : bool * Attempt → T → Prop) C s :
  running a s → (0 < count a)%Z →
  (∀ b a' s', strategy a' = strategy a → count a' = count a → running a' s' → reqs s' = reqs s →
     Q (b, a') s') →
  wp (HasNext a) Q C s.
Proof.
  intros Hrun Hpos HQ. rewrite /HasNext. case_match eqn:Hf; [by apply wp_ret, HQ|].
  apply wp_bind, wp_Now. intros s1 Hs1 Hr1. destruct (nextSleep_spec a (clock s)) as [H0 Hge].
  destruct Hrun as [Hc Hl Hsp Hfi Hfo].
  destruct (decide (clock s + nextSleep a (clock s) < end_ a)%Z);
    apply wp_ret, HQ; try done; split; simpl; try done; lia.
Qed.

(** At most as many requests as the strategy has rounds. *)
Lemma wp_retry_loop n req a s :
  sane (strategy a) → running a s → (count a ≤ rounds (strategy a))%Z →
  (rounds (strategy a) < count a + Z.of_nat n)%Z →
  wp (retry_loop n req a) (λ _ s', reqs s' ≤ reqs s + (rounds (strategy a) - count a))%Z (λ _ _, False) s.
Proof.
  intros Hsane. revert a s Hsane. induction n as [|n IH]; intros a s Hsane Hrun Hle Hn; [lia|].
  cbn [retry_loop]. apply wp_bind, wp_Next; [done|done|..].
  { intros s1 Hr1. apply wp_ret. lia. }
  intros a1 s1 Hst1 Hc1 Hf1 Hb1 Hrun1 Hr1. apply wp_bind, wp_Do. intros r s2 _ Hcl2 Hr2.
  assert (running a1 s2) as Hrun2 by (destruct Hrun1; split; try done; lia).
  destruct r as [resp|err]; [apply wp_ret; lia|]. apply wp_bind.
  destruct (shouldRetry err); [|apply wp_ret, wp_ret; lia].
  apply wp_HasNext; [done|destruct Hrun; lia|]. intros [] a2 s3 Hst2 Hc2 Hrun3 Hr3; [|apply wp_ret; lia].
  eapply wp_mono; [apply IH; try done; rewrite ?Hst2 ?Hst1; [done|lia|lia]| |done].
  intros r4 s4. cbv beta. rewrite Hst2 Hst1. lia.
Qed.

Lemma wp_requestRetryLoop req st s :
  wp (requestRetryLoop req st) (λ _ s', reqs s' ≤ reqs s + 25)%Z (λ _ _, False) s.
Proof.
  apply wp_bind, wp_bind, wp_Now. intros s1 Hs1 Hr1. apply wp_ret.
  eapply wp_mono; [apply wp_retry_loop| |done].
  - done.
  - by split; simpl; try done; lia.
  - done.
  - vm_compute. done.
  - intros r2 s2. cbn [strategy count]. change (rounds defaultAttempts) with 25%Z. lia.
Qed.
End attempts.

(** ** Objects

    A service that speaks the REST protocol of S3: a request on the URL of an
    object acts on that object; a PUT answered with success has stored it; a
    refused one has not; of a request without an answer nothing is known. *)
Definition obj_url (b k : string) : string := ResolveS3BucketEndpoint USEast b +:+ k.

(** Bucket names whose URL is their own. *)
Definition plain_bucket (b : string) : Prop := ToLower b = b ∧ bad_bucket b = false.

Class RestLaws (T : Type) `{!Http T} := {
  objects : T → gmap (string * string) string;
  rest_now : ∀ s : T, objects (time_now s).2 = objects s;
  rest_sleep : ∀ d (s : T), objects (time_sleep d s) = objects s;
  rest_put : ∀ b k r (s : T), plain_bucket b → k ≠ "" → h_method r = "PUT" → h_url r = obj_url b k →
    match http_do r s with
    | (Ok resp, s') => objects s' = if ok_status resp then <[(b, k) := h_body r]> (objects s) else objects s
    | (Err _, s') => objects s' = objects s ∨ objects s' = <[(b, k) := h_body r]> (objects s)
    end;
  rest_get : ∀ b k r (s : T), plain_bucket b → k ≠ "" → h_method r = "GET" → h_url r = obj_url b k →
    match http_do r s with
    | (Ok resp, s') => objects s' = objects s ∧
        (ok_status resp = true → h_read resp = None → objects s !! (b, k) = Some (h_content resp))
    | (Err _, s') => objects s' = objects s
    end;
  rest_delete : ∀ b k r (s : T), plain_bucket b → k ≠ "" → h_method r = "DELETE" → h_url r = obj_url b k →
    objects (http_do r s).2 = objects s ∨ objects (http_do r s).2 = delete (b, k) (objects s);
}.

(** Signing changes headers only. *)
Lemma SignV4_keeps `{!Crypto} iter r r' auth region svc : SignV4 iter r auth region svc = Ok r' →
  h_method r' = h_method r ∧ h_url r' = h_url r ∧ h_query r' = h_query r ∧ h_body r' = h_body r.
Proof.
  rewrite /SignV4 /canonicalRequest. destruct (requestTime r); [|done]. cbv zeta.
  destruct (canonicalHeaders _ _ _) as [canHdr hdr]. by intros [= <-].
Qed.

(** ** Signatures *)

(** The signed request does not depend on the order in which Go visits the
    headers of a request: it is the same for any two orders that visit each once. *)
Theorem s3_signing_order {Hcrypto : Crypto} iter iter' req auth region svc :
  visits iter → visits iter' → SignV4 iter req auth region svc = SignV4 iter' req auth region svc.
Proof.
  intros Hi Hi'. rewrite /SignV4. destruct (requestTime req); [|done]. cbv zeta.
  by rewrite (canonicalRequest_order iter iter').
Qed.

(** C35: What a signature is computed from determines the request.  For two requests
    that [net/http] would send (no newline in the method, the URL or a header value,
    header names of token characters), equal canonical texts mean: the same verb; the
    same path (an empty one being the root); under every key of the query the same
    values, up to their order; bodies with the same hash; the same names of signed
    headers; the same host; and for every other signed header the same values, sorted
    and separated by commas. *)
Theorem s3_signature_binds {Hcrypto : Crypto} iter r r' :
  visits iter → wf_request r → wf_request r' →
  (canonicalRequest iter r true).1.1.1 = (canonicalRequest iter r' true).1.1.1 →
  requestMethodVerb (h_method r) = requestMethodVerb (h_method r') ∧
  root_path (URL_Path (h_url r)) = root_path (URL_Path (h_url r')) ∧
  (∀ k, default [] (h_query r !! k) ≡ₚ default [] (h_query r' !! k)) ∧
  sha256Hasher (h_body r) = sha256Hasher (h_body r') ∧
  signed_names iter r = signed_names iter r' ∧
  URL_Host (h_url r) = URL_Host (h_url r') ∧
  (∀ n, n ∈ signed_names iter r → n ≠ "host" →
     Join (sort_Strings (default [] (signed_headers r !! CanonicalHeaderKey n))) "," =
     Join (sort_Strings (default [] (signed_headers r' !! CanonicalHeaderKey n))) ",").
Proof.
  intros Hi Hr Hr'. rewrite /canonicalRequest. cbv zeta.
  change (header_Set _ (payloadHash ?x) _) with (signed_headers x).
  change (sortHeaderNames (iter (signed_headers ?x)) _) with (signed_names iter x).
  pose proof (signed_headers_inj iter r r' Hi Hr Hr') as Hinj.
  destruct (canonicalHeaders (signed_names iter r) _ _) as [t h].
  destruct (canonicalHeaders (signed_names iter r') _ _) as [t' h'].
  intros Htext. apply canonical_text_inj in Htext as (Hv & Hu & Hq & Ht & Hn & Hb);
    [|apply Hr|apply Hr'|by apply one_line_signed_names|by apply one_line_signed_names|apply one_line_hex|apply one_line_hex].
  destruct (Hinj Hn Ht) as [Hnames Hvalue]. split_and!; [done| | |done|done| |].
  - by apply canonicalURI_root.
  - intros k. by apply canonicalQueryString_inj.
  - exact (Hvalue "host" (signed_names_host _ _)).
  - intros n Hin Hne. specialize (Hvalue n Hin). rewrite /signed_value /header_value in Hvalue.
    by rewrite !decide_False in Hvalue.
Qed.

Section client.
Context {T : Type} `{!Http T} {Hcrypto : Crypto} `{!ClockLaws T, !RestLaws T} (Getenv : string → string).
Implicit Types s : T.

(** [makeS3().Bucket(b)] *)
Definition bucket (b : string) : Bucket := mkBucket (makeS3 Getenv) b.

Lemma wp_Now_objects (Q : Z → T → Prop) C s :
  (∀ z s', objects s' = objects s → Q z s') → wp Now Q C s.
Proof.
  intros HQ. rewrite /wp /Now /lift. pose proof (rest_now s) as Hl. destruct (time_now s). by apply HQ.
Qed.

Lemma headers_keep hs r :
  let r' := foldl (λ r '(k, v), header_add k v r) r hs in
  h_method r' = h_method r ∧ h_url r' = h_url r ∧ h_body r' = h_body r.
Proof.
  revert r. induction hs as [|[k v] hs IH]; intros r; [done|]. simpl.
  destruct (IH (header_add k v r)) as (-> & -> & ->). done.
Qed.

(** A prepared request is the one that was asked for. *)
Lemma wp_prepared b method path body hs (Q : result hrequest → T → Prop) C s :
  (∀ r s', objects s' = objects s → h_method r = method → h_url r = endpoint (bucket b) +:+ path →
     h_body r = body → Q (Ok r) s') →
  (∀ e s', objects s' = objects s → Q (Err e) s') →
  wp (prepared (bucket b) (NewRequest method (endpoint (bucket b)) path body) hs) Q C s.
Proof.
  intros HQ HE. rewrite /prepared /NewRequest. destruct (http_url_ok _); [|by apply wp_ret, HE].
  set (r0 := mkHreq _ _ _ _ _). destruct (headers_keep hs r0) as (Hm & Hu & Hb).
  apply wp_bind, wp_bind, wp_Now_objects. intros z s1 Hs1. apply wp_ret, wp_ret.
  destruct (Sign _ _ _) as [r|e] eqn:Hr; [|by apply HE].
  apply SignV4_keeps in Hr as (Hm' & Hu' & _ & Hb').
  apply HQ; [done|by rewrite Hm'|by rewrite Hu'|by rewrite Hb'].
Qed.

Lemma put_law b k v s : plain_bucket b → k ≠ "" →
  wp (Put (bucket b) k v "application/octet-stream" "private") (λ e s', match e with
    | None => objects s' = <[(b, k) := v]> (objects s)
    | Some _ => objects s' = objects s ∨ objects s' = <[(b, k) := v]> (objects s)
    end) (λ _ _, False) s.
Proof.
  intros Hb Hk. apply wp_bind, wp_prepared; [|intros e s1 Hs1; apply wp_ret; by left].
  intros r s1 <- Hm Hu <-. apply wp_bind. rewrite {1}/wp /Do /lift.
  pose proof (rest_put b k r s1 Hb Hk Hm Hu) as Hl. destruct (http_do r s1) as [[resp|e] s2]; [|done].
  destruct (ok_status resp); apply wp_ret; [done|by left].
Qed.

Lemma del_law b k s : plain_bucket b → k ≠ "" →
  wp (Del (bucket b) k) (λ _ s', objects s' = objects s ∨ objects s' = delete (b, k) (objects s))
    (λ _ _, False) s.
Proof.
  intros Hb Hk. apply wp_bind, wp_prepared; [|intros e s1 Hs1; apply wp_ret; by left].
  intros r s1 <- Hm Hu _. apply wp_bind. rewrite {1}/wp /Do /lift.
  pose proof (rest_delete b k r s1 Hb Hk Hm Hu) as Hl. destruct (http_do r s1) as [[resp|e] s2]; by apply wp_ret.
Qed.

(** The retry loop repeats the request, whatever the clock says. *)
Lemma wp_retry_get_objects n b k r a (Q : result hresponse → T → Prop) C s :
  plain_bucket b → k ≠ "" → h_method r = "GET" → h_url r = obj_url b k →
  (∀ resp s', objects s' = objects s →
     (ok_status resp = true → h_read resp = None → objects s !! (b, k) = Some (h_content resp)) →
     Q (Ok resp) s') →
  (∀ e s', objects s' = objects s → Q (Err e) s') → (∀ s', C out_of_fuel s') →
  wp (retry_loop n r a) Q C s.
Proof.
  intros Hb Hk Hm Hu HQ HE HC. revert a s HQ HE. induction n as [|n IH]; intros a s HQ HE; [apply wp_throw, HC|].
  cbn [retry_loop]. apply wp_bind, wp_bind, wp_Now_objects. intros now s1 Hs1. cbv zeta.
  case_match; [by apply wp_ret, wp_ret, HE|]. apply wp_bind.
  assert (∀ now' s2, objects s2 = objects s → wp (r0 ← Do r; match r0 with
            | Ok resp => mret (Ok resp)
            | Err err => r0 ← (if shouldRetry err then
                HasNext (mkAttempt (strategy a) now' (end_ a) false (count a + 1))
                else mret (false, mkAttempt (strategy a) now' (end_ a) false (count a + 1)));
              match r0 with
              | (true, attempt) => retry_loop n r attempt
              | (false, _) => mret (Err (ErrorS ("making request: " +:+ error_string err)))
              end end) Q C s2) as Hrest.
  { intros now' s2 Hs2. apply wp_bind. rewrite {1}/wp /Do /lift.
    pose proof (rest_get b k r s2 Hb Hk Hm Hu) as Hl. destruct (http_do r s2) as [[resp|e] s3].
    - destruct Hl as [Hs3 Hc]. apply wp_ret, HQ; [congruence|]. by rewrite -Hs2.
    - assert (∀ a' s4, objects s4 = objects s → wp (retry_loop n r a') Q C s4) as Hnext.
      { intros a' s4 Hs4. apply IH; [intros resp s5|intros e' s5]; rewrite Hs4; auto. }
      apply wp_bind. destruct (shouldRetry e); [|apply wp_ret, wp_ret, HE; congruence].
      rewrite /HasNext. case_match; [apply wp_ret, Hnext; congruence|].
      apply wp_bind, wp_Now_objects. intros z s4 Hs4.
      destruct (decide _); apply wp_ret; [apply Hnext|apply wp_ret, HE]; congruence. }
  destruct (decide (nextSleep a now > 0 ∧ count a > 0)%Z).
  - apply wp_bind, wp_modify, wp_Now_objects. intros z s2 Hs2. apply wp_ret, Hrest.
    by rewrite Hs2 rest_sleep.
  - by apply wp_ret, wp_ret, Hrest.
Qed.

Lemma get_law b k s : plain_bucket b → k ≠ "" →
  wp (Get (bucket b) k) (λ r s', objects s' = objects s ∧
    match r with Ok v => objects s !! (b, k) = Some v | Err _ => True end) (λ _ _, False) s.
Proof.
  intros Hb Hk. apply wp_bindR, wp_bindR, wp_prepared; [|done].
  intros r s1 Hs1 Hm Hu _. apply wp_bindR.
  assert (wp (requestRetryLoop r defaultAttempts) (λ r0 s', objects s' = objects s ∧ match r0 with
            | Ok resp => ok_status resp = true → h_read resp = None →
                objects s !! (b, k) = Some (h_content resp)
            | Err _ => True end) (λ c _, c = out_of_fuel) s1) as Hobj.
  { apply wp_bind, wp_bind, wp_Now_objects. intros z s2 Hs2. apply wp_ret.
    apply (wp_retry_get_objects _ b k); [done..| | |done].
    - intros resp s3 Hs3 Hc. rewrite Hs2 Hs1 in Hs3 Hc. done.
    - intros e s3 Hs3. rewrite Hs2 Hs1 in Hs3. done. }
  pose proof (wp_requestRetryLoop r defaultAttempts s1) as Hret. rewrite /wp in Hobj, Hret |- *.
  destruct (requestRetryLoop r defaultAttempts s1) as [[[resp|e]|c] s2]; [|done|done].
  destruct Hobj as [Hs2 Hc]. destruct (ok_status resp); [|done]. simpl.
  destruct (h_read resp); simpl; [done|]. auto.
Qed.

(** ** Theorems *)

(** C33: Over a service that speaks the REST protocol of S3, every operation of the client returns, and it acts on the objects as
    the bundler's object store is specified: a Put that reports success has stored
    the bytes and touched nothing else, a failed one has stored them or done
    nothing; a Get returns only what is stored and changes nothing; a Del removes
    the one object or nothing. *)
Theorem s3_client_implements_store b k v s :
  plain_bucket b → k ≠ "" →
  (∃ e s', Put (bucket b) k v "application/octet-stream" "private" s = (Ret e, s') ∧
     match e with
     | None => objects s' = <[(b, k) := v]> (objects s)
     | Some _ => objects s' = objects s ∨ objects s' = <[(b, k) := v]> (objects s)
     end) ∧
  (∃ r s', Get (bucket b) k s = (Ret r, s') ∧ objects s' = objects s ∧
     match r with Ok v' => objects s !! (b, k) = Some v' | Err _ => True end) ∧
  (∃ e s', Del (bucket b) k s = (Ret e, s') ∧
     (objects s' = objects s ∨ objects s' = delete (b, k) (objects s))).
Proof.
  intros Hb Hk. pose proof (put_law b k v s Hb Hk) as H1. pose proof (get_law b k s Hb Hk) as H2.
  pose proof (del_law b k s Hb Hk) as H3. rewrite /wp in H1, H2, H3. split_and!.
  - destruct (Put _ _ _ _ _ s) as [[e|] s']; [by exists e, s'|done].
  - destruct (Get _ _ s) as [[r|] s']; [by exists r, s'|done].
  - destruct (Del _ _ s) as [[e|] s']; [by exists e, s'|done].
Qed.

(** C34: However the service answers and however long it takes, a Get ends after at
    most 25 requests: the first one and as many delays of 200 ms as begin within
    five seconds. *)
Theorem s3_get_bounded (b : Bucket) k s :
  ∃ r s', Get b k s = (Ret r, s') ∧ (reqs s' ≤ reqs s + 25)%Z.
Proof.
  assert (wp (Get b k) (λ _ s', reqs s' ≤ reqs s + 25)%Z (λ _ _, False) s) as H; last first.
  { rewrite /wp in H. destruct (Get b k s) as [[r|] s']; [by exists r, s'|done]. }
  apply wp_bindR, wp_bindR. rewrite /prepared /NewRequest.
  destruct (http_url_ok _); [|apply wp_ret; lia].
  apply wp_bind, wp_bind, wp_Now. intros s1 Hs1 Hr1. apply wp_ret, wp_ret.
  destruct (Sign _ _ _) as [r|e]; [|lia]. apply wp_bindR.
  eapply wp_mono; [apply wp_requestRetryLoop| |done]. intros [resp|e] s2 Hr2; [|lia].
  destruct (ok_status resp); apply wp_ret; [|lia]. destruct (h_read resp); apply wp_ret; lia.
Qed.
End client.

(** ** A simulated service

    Objects in a map, a clock that advances by one at every look and by the latency
    of a request, and for each request the network error that hits it, if any. *)
Record sim := mkSim {
  sim_objects : gmap (string * string) string;
  sim_clock : Z;
  sim_reqs : Z;
  sim_faults : list (option error);
}.

Definition sim_object (url : string) : option (string * string) :=
  match strip_prefix "https://s3.amazonaws.com/" url with
  | Some rest => take_until "/"%char rest
  | None => None
  end.

(** The answer of the service to a request on an object. *)
Definition sim_serve (r : hrequest) (m : gmap (string * string) string) :
    hresponse * gmap (string * string) string :=
  match sim_object (h_url r) with
  | None => (mkHresp 400 "400 Bad Request" "" None ∅, m)
  | Some bk =>
      if decide (h_method r = "PUT") then (mkHresp 200 "200 OK" "" None ∅, <[bk := h_body r]> m)
      else if decide (h_method r = "DELETE") then (mkHresp 204 "204 No Content" "" None ∅, delete bk m)
      else match m !! bk with
           | Some v => (mkHresp 200 "200 OK" v None ∅, m)
           | None => (mkHresp 404 "404 Not Found" "" None ∅, m)
           end
  end.

#[local] Instance sim_http : Http sim := {
  http_url_ok _ := true;
  http_do r s :=
    let s1 := mkSim (sim_objects s) (sim_clock s + 30000000) (sim_reqs s + 1) (tail (sim_faults s)) in
    match sim_faults s with
    | Some e :: _ => (Err e, s1)
    | _ => let '(resp, m) := sim_serve r (sim_objects s) in
           (Ok resp, mkSim m (sim_clock s1) (sim_reqs s1) (sim_faults s1))
    end;
  time_now s := (sim_clock s, mkSim (sim_objects s) (sim_clock s + 1) (sim_reqs s) (sim_faults s));
  time_sleep d s := mkSim (sim_objects s) (sim_clock s + d) (sim_reqs s) (sim_faults s);
  xml_error _ := mkDoc "" "";
  xml_list _ := mkListResp "" "" "" "" "" 0 false [] [];
}.

(** Stand-ins for the hash functions and the calendar. *)
#[local] Instance sim_crypto : Crypto := {
  sha256 s := String.substring 0 32 s;
  hmac_sha256 k v := String.substring 0 32 (v +:+ k);
  time_Parse f _ := if decide (f = ISO8601BasicFormat) then Some 0%Z else None;
  time_Format f _ := if decide (f = ISO8601BasicFormat) then "20160101T000000Z" else "20160101";
}.

#[local] Instance sim_clock_laws : ClockLaws sim.
Proof.
  refine {| clock := sim_clock; reqs := sim_reqs |}.
  - intros s. simpl. split_and!; [done|lia|done].
  - intros d s Hd. simpl. split; [lia|done].
  - intros r s. simpl. destruct (sim_faults s) as [|[e|] fs]; simpl; [|split; [lia|done]|];
      destruct (sim_serve r (sim_objects s)); simpl; (split; [lia|done]).
Defined.

Lemma sim_object_url b k : plain_bucket b → sim_object (obj_url b k) = Some (b, k).
Proof.
  intros [Hl Hbad]. rewrite /bad_bucket !orb_false_iff in Hbad. destruct Hbad as [[Hs _] _].
  assert (∀ x y, ToLower (x +:+ y) = ToLower x +:+ ToLower y) as Happ.
  { intros x y. induction x as [|c x IH]; simpl; [done|]. by rewrite /ToLower /= in IH |- *; rewrite IH. }
  assert (ResolveS3BucketEndpoint USEast b = "https://s3.amazonaws.com/" +:+ ToLower (b +:+ "/")) as Hu
    by reflexivity.
  rewrite /sim_object /obj_url Hu Happ Hl -!str_app_assoc strip_prefix_app.
  by apply take_until_app.
Qed.

#[local] Instance sim_rest_laws : RestLaws sim.
Proof.
  refine {| objects := sim_objects |}; simpl; try done.
  - intros b k r s Hb Hk Hm Hu. destruct (sim_faults s) as [|[e|] fs]; simpl; [|by left|];
      by rewrite /sim_serve Hm Hu sim_object_url.
  - intros b k r s Hb Hk Hm Hu. destruct (sim_faults s) as [|[e|] fs]; simpl; try done;
      rewrite /sim_serve Hm Hu sim_object_url //=; by destruct (sim_objects s !! (b, k)) eqn:E; simpl.
  - intros b k r s Hb Hk Hm Hu. destruct (sim_faults s) as [|[e|] fs]; simpl; [|by left|];
      rewrite /sim_serve Hm Hu sim_object_url //=; by right.
Defined.

(** Two transient failures, then the object. *)
Definition wit_sim : sim :=
  mkSim {[("files", "a/k") := "bytes"]} 0 0 [Some (OpError "read" "reset"); Some EOF].
Definition wit_env (k : string) : string := if decide (k = "AWS_ACCESS_KEY_ID") then "AK" else "SK".

Lemma s3_client_implements_store_witness :
  let s' := (Get (bucket wit_env "files") "a/k" wit_sim).2 in
  Get (bucket wit_env "files") "a/k" wit_sim = (Ret (Ok "bytes"), s') ∧ sim_reqs s' = 3%Z ∧
  sim_objects s' = {[("files", "a/k") := "bytes"]}.
Proof.
  intros s'.
  assert ((Get (bucket wit_env "files") "a/k" wit_sim).1 = Ret (Ok "bytes")) as Hr by by vm_compute.
  assert (plain_bucket "files") as Hb by (split; vm_compute; reflexivity).
  destruct (s3_client_implements_store wit_env "files" "a/k" "" wit_sim Hb ltac:(done)) as (_ & Hg & _).
  split; [by apply run_split|]. split; [vm_compute; reflexivity|].
  destruct Hg as (r & s2 & E & Ho & _). rewrite /s' E. exact Ho.
Defined.

(** Two orders in which the headers of a request may be visited. *)
Definition wit_signed : hrequest :=
  mkHreq "PUT" "https://s3.amazonaws.com/files/a b" ∅
    {["X-Amz-Date" := ["20160101T000000Z"]; "Content-Type" := ["text/plain"]; "X-Amz-Acl" := ["private"]]} "body".

Lemma keys_visits : visits keys.
Proof. by intros h. Qed.
Lemma reverse_keys_visits : visits (λ h, reverse (keys h)).
Proof. intros h. apply reverse_Permutation. Qed.

Lemma s3_signing_order_witness :
  SignV4 keys wit_signed (mkAuth "AK" "SK") "us-east-1" "s3" =
    SignV4 (λ h, reverse (keys h)) wit_signed (mkAuth "AK" "SK") "us-east-1" "s3" ∧
  reverse (keys (h_header wit_signed)) ≠ keys (h_header wit_signed).
Proof.
  split; [exact (s3_signing_order _ _ _ _ _ _ keys_visits reverse_keys_visits)|by vm_compute].
Defined.

(** The same canonical text from requests that differ in the order of their values. *)
Definition wit_value_order (q : list string) : hrequest :=
  mkHreq "GET" "https://s3.amazonaws.com/files/a%2Fb" {["x" := q]} {["X-Amz-Date" := ["20160101T000000Z"]]} "".
Lemma wit_value_order_wf q : wf_request (wit_value_order q).
Proof. split; [done|done|]. apply map_Forall_singleton. split; [done|]. by constructor. Qed.
Lemma s3_signature_binds_witness :
  (canonicalRequest keys (wit_value_order ["1"; "2"]) true).1.1.1 =
    (canonicalRequest keys (wit_value_order ["2"; "1"]) true).1.1.1 ∧
  ∀ k, default [] (h_query (wit_value_order ["1"; "2"]) !! k) ≡ₚ default [] (h_query (wit_value_order ["2"; "1"]) !! k).
Proof.
  assert ((canonicalRequest keys (wit_value_order ["1"; "2"]) true).1.1.1 =
    (canonicalRequest keys (wit_value_order ["2"; "1"]) true).1.1.1) as H by (vm_compute; reflexivity).
  split; [exact H|].
  apply (s3_signature_binds keys (wit_value_order ["1"; "2"]) (wit_value_order ["2"; "1"]) keys_visits
    (wit_value_order_wf _) (wit_value_order_wf _) H).
Defined.

(** A service that is down: 25 requests, then an error. *)
Definition wit_down : sim := mkSim ∅ 0 0 (replicate 100 (Some EOF)).
Example s3_get_gives_up : sim_reqs (Get (bucket wit_env "files") "a/k" wit_down).2 = 25%Z.
Proof. vm_compute. reflexivity. Qed.

Lemma s3_get_bounded_witness :
  ∃ r s', Get (bucket wit_env "files") "a/k" wit_down = (Ret r, s') ∧ (sim_reqs s' ≤ 25)%Z.
Proof. exact (s3_get_bounded (bucket wit_env "files") "a/k" wit_down). Defined.

End AmzS3Correct.
