(* ===== verification/AmzMulti.v ===== *)
(** * goamz: multipart uploads and signed URLs

    [src/src/gopkg.in/amz.v3/s3/multi.go], and [SignedURL] of [s3.go].  The body of a
    request is read by the transport: after a failed attempt the next one sends what the
    first one has not read, which the class [HttpBody] tells.  Readers return the same
    bytes each time they are read.  MD5, base64 and the XML documents are parameters. *)

From stdpp Require Import sorting.
From S2P Require Import Prelude GoStrings GoUrl Services AmzSign AmzS3.

Module AmzMulti.
Import AmzSign AmzS3.

(** ** Data *)
Record Multi := mkMulti { mu_Bucket : Bucket; mu_Key : string; mu_UploadId : string }.
Record Part := mkPart { N : Z; part_ETag : string; part_Size : Z }.

Record listMultiResp := mkListMulti {
  NextKeyMarker : string;
  NextUploadIdMarker : string;
  lm_IsTruncated : bool;
  (** key and upload identifier *)
  Upload : list (string * string);
  lm_CommonPrefixes : list string;
}.
Record listPartsResp := mkListParts {
  NextPartNumberMarker : string;
  lp_IsTruncated : bool;
  lp_Part : list Part;
}.

Definition listMultiMax : Z := 1000.
Definition listPartsMax : Z := 1000.

(** What this file uses beside [Http]. *)
Class HttpBody (T : Type) := {
  (** [http.DefaultClient.Do] on a request with a body and the given [ContentLength]: the
      answer, and what of the body has not been read. *)
  http_send : Z → hrequest → T → result hresponse * string * T;
  (** [xml.Decode] into the three documents *)
  xml_listMulti : string → result listMultiResp;
  xml_uploadId : string → result string;
  xml_listParts : string → result listPartsResp;
  (** [xml.Marshal] of a [completeUpload] *)
  xml_complete : list (Z * string) → string;
  md5 : string → string;
  base64 : string → string;
  (** the offset of the local time zone, in nanoseconds *)
  time_zone : Z;
}.

(** [sort.Sort] by part number *)
Definition part_le (p q : Part) : Prop := (N p ≤ N q)%Z.
#[export] Instance part_le_dec p q : Decision (part_le p q).
Proof. rewrite /part_le. apply _. Defined.
Definition sort_parts (l : list Part) : list Part := merge_sort part_le l.

Section multi.
Context {T : Type} `{!Http T, !HttpBody T, !Crypto}.
Abbreviation MH := (M T).

(** ** Requests with a body *)
Definition set_body (body : string) (r : hrequest) : hrequest :=
  mkHreq (h_method r) (h_url r) (h_query r) (h_header r) body.

Definition Send (len : Z) (r : hrequest) : MH (result hresponse * string) :=
  λ s, let '(x, rest, s') := http_send len r s in (Ret (x, rest), s').

(** [requestRetryLoop] when the request has a body *)
Fixpoint retry_body_loop (n : nat) (len : Z) (req : hrequest) (attempt : Attempt) : MH (result hresponse) :=
  match n with
  | O => throw out_of_fuel
  | S n =>
      r ← Next attempt;
      match r with
      | (false, _) =>
          mret (Err (ErrorS "could not complete the request within the specified retry attempts"))
      | (true, attempt) =>
          r ← Send len req;
          match r with
          | (Ok resp, _) => mret (Ok resp)
          | (Err err, rest) =>
              r ← (if shouldRetry err then HasNext attempt else mret (false, attempt));
              match r with
              | (true, attempt) => retry_body_loop n len (set_body rest req) attempt
              | (false, _) => mret (Err (ErrorS ("making request: " +:+ error_string err)))
              end
          end
      end
  end.
Definition requestRetryLoop_body (len : Z) (req : hrequest) : MH (result hresponse) :=
  attempt ← Start defaultAttempts;
  retry_body_loop (S (Z.to_nat (rounds defaultAttempts))) len req attempt.

Definition with_query (q : Values) (r : result hrequest) : result hrequest :=
  match r with Ok r => Ok (set_query q r) | Err e => Err e end.

(** ** Listing uploads *)

(** The loop of [ListMulti]: the request was signed before it; [n] bounds the rounds. *)
Fixpoint list_multi_loop (n : nat) (b : Bucket) (req : hrequest) (attempt : Attempt)
    (multis : list Multi) (prefixes : list string) : MH (result (list Multi * list string)) :=
  match n with
  | O => throw out_of_fuel
  | S n =>
      r ← Next attempt;
      match r with
      | (false, _) => throw (Panic "unreachable")
      | (true, attempt) =>
          r ← requestRetryLoop req defaultAttempts;
          match (match r with
                 | Ok resp => if ok_status resp then Ok resp else Err (buildError resp)
                 | Err e => Err e end) with
          | Err err =>
              r ← (if shouldRetry err then HasNext attempt else mret (false, attempt));
              match r with
              | (true, attempt) => list_multi_loop n b req attempt multis prefixes
              | (false, _) => mret (Err err)
              end
          | Ok resp =>
              match xml_listMulti (h_content resp) with
              | Err e => mret (Err e)
              | Ok multiResp =>
                  let multis := multis ++ ((λ '(key, id), mkMulti b key id) <$> Upload multiResp) in
                  let prefixes := prefixes ++ lm_CommonPrefixes multiResp in
                  if negb (lm_IsTruncated multiResp) then mret (Ok (multis, prefixes))
                  else
                    let query := values_Set "upload-id-marker" (NextUploadIdMarker multiResp)
                                   (values_Set "key-marker" (NextKeyMarker multiResp) (h_query req)) in
                    attempt ← Start defaultAttempts;
                    list_multi_loop n b (set_query query req) attempt multis prefixes
              end
          end
      end
  end.

Definition ListMulti (n : nat) (b : Bucket) (prefix delim : string) : MH (result (list Multi * list string)) :=
  let query := values_Add "delimiter" delim (values_Add "prefix" prefix
    (values_Add "max-uploads" (pretty listMultiMax) (values_Add "uploads" "" ∅))) in
  req ←? prepared b (with_query query (NewRequest "GET" (endpoint b) "" "")) [];
  attempt ← Start defaultAttempts;
  list_multi_loop n b req attempt [] [].

Definition InitMulti (b : Bucket) (key contType perm : string) : MH (result Multi) :=
  req ←? prepared b (with_query (values_Add "uploads" "" ∅) (NewRequest "POST" (endpoint b) key ""))
           [("Content-Type", contType); ("Content-Length", "0"); ("x-amz-acl", perm)];
  resp ←? requestRetryLoop req defaultAttempts;
  if ok_status resp then
    match xml_uploadId (h_content resp) with
    | Err e => mret (Err e)
    | Ok id => mret (Ok (mkMulti b key id))
    end
  else mret (Err (buildError resp)).

(** [Bucket.Multi] *)
Definition Bucket_Multi (n : nat) (b : Bucket) (key contType perm : string) : MH (result Multi) :=
  r ← ListMulti n b key "";
  let found ms := match ms with
                  | m :: _ => mret (Ok m)
                  | [] => InitMulti b key contType perm
                  end in
  match r with
  | Err e => if hasCode e "NoSuchUpload" then found [] else mret (Err e)
  | Ok (multis, _) => found (filter (λ m, mu_Key m = key) multis)
  end.

(** ** Parts *)

(** [putPart]: the deferred close of the body is evaluated before the error is looked
    at, and there is no response then. *)
Definition putPart (m : Multi) (n : Z) (content : string) (partSize : Z) (md5b64 : string) : MH (result Part) :=
  let b := mu_Bucket m in
  let query := values_Add "partNumber" (pretty n) (values_Add "uploadId" (mu_UploadId m) ∅) in
  req ←? prepared b (with_query query (NewRequest "PUT" (endpoint b) (mu_Key m) content))
           [("Content-MD5", md5b64)];
  r ← requestRetryLoop_body partSize req;
  match r with
  | Err _ => throw nil_deref
  | Ok resp =>
      if negb (ok_status resp) then mret (Err (buildError resp))
      else
        let etag := header_Get "ETag" (h_rheader resp) in
        if decide (etag = "") then mret (Err (ErrorS "part upload succeeded with no ETag"))
        else mret (Ok (mkPart n etag partSize))
  end.

(** [seekerInfo] on what the reader gives: size and both forms of the hash. *)
Definition seekerInfo (r : result string) : result (string * Z * string * string) :=
  match r with
  | Err e => Err e
  | Ok content => Ok (content, Z.of_nat (String.length content), hex (md5 content), base64 (md5 content))
  end.

Definition PutPart (m : Multi) (n : Z) (r : result string) : MH (result Part) :=
  match seekerInfo r with
  | Err e => mret (Err e)
  | Ok (content, partSize, _, md5b64) => putPart m n content partSize md5b64
  end.

(** The loop of [ListParts], signed anew in every round. *)
Fixpoint list_parts_loop (n : nat) (m : Multi) (req : hrequest) (query : Values) (attempt : Attempt)
    (parts : list Part) : MH (result (list Part)) :=
  match n with
  | O => throw out_of_fuel
  | S n =>
      r ← Next attempt;
      match r with
      | (false, _) => mret (Ok (sort_parts parts))
      | (true, attempt) =>
          req ← addAmazonDateHeader req;
          match Sign (b_s3 (mu_Bucket m)) req (s3_Auth (b_s3 (mu_Bucket m))) with
          | Err e => mret (Err e)
          | Ok req =>
              r ← Do req;
              match r with
              | Err e => mret (Err e)
              | Ok resp =>
                  if negb (ok_status resp) then
                    let err := buildError resp in
                    r ← (if shouldRetry err then HasNext attempt else mret (false, attempt));
                    match r with
                    | (true, attempt) => list_parts_loop n m req query attempt parts
                    | (false, _) => mret (Err err)
                    end
                  else
                    match xml_listParts (h_content resp) with
                    | Err e => mret (Err e)
                    | Ok listResp =>
                        let parts := parts ++ lp_Part listResp in
                        if negb (lp_IsTruncated listResp) then mret (Ok (sort_parts parts))
                        else
                          let query := values_Set "part-number-marker" (NextPartNumberMarker listResp) query in
                          attempt ← Start defaultAttempts;
                          list_parts_loop n m (set_query query req) query attempt parts
                    end
              end
          end
      end
  end.
Definition ListParts (n : nat) (m : Multi) : MH (result (list Part)) :=
  let b := mu_Bucket m in
  let query := values_Add "max-parts" (pretty listPartsMax) (values_Add "uploadId" (mu_UploadId m) ∅) in
  match with_query query (NewRequest "GET" (endpoint b) (mu_Key m) "") with
  | Err e => mret (Err e)
  | Ok req =>
      attempt ← Start defaultAttempts;
      list_parts_loop n m req query attempt []
  end.

(** [ReaderAtSeeker]: its size, and the bytes of a section. *)
Record reader := mkReader { rd_size : result Z; rd_section : Z → Z → result string }.

Definition int64 (z : Z) : Z := ((z + 2 ^ 63) mod 2 ^ 64 - 2 ^ 63)%Z.
Definition quoted (s : string) : string := dquote +:+ s +:+ dquote.

(** The inner loop of [PutAll]: an old part that can be reused, and the old parts that
    are still to be considered. *)
Fixpoint reuse_scan (old : list Part) (current partSize : Z) (etag : string) : option Part * list Part :=
  match old with
  | [] => (None, [])
  | part :: old' =>
      if decide (N part ≤ current)%Z then
        if decide (N part = current ∧ part_Size part = partSize ∧ part_ETag part = etag)
        then (Some part, old)
        else reuse_scan old' current partSize etag
      else (None, old)
  end.

(** The outer loop; [n] bounds the rounds. *)
Fixpoint put_all_loop (n : nat) (m : Multi) (r : reader) (old : list Part)
    (totalSize offset partSize current : Z) (first : bool) (acc : list Part) : MH (result (list Part)) :=
  if negb (bool_decide (offset < totalSize)%Z || first) then mret (Ok acc)
  else
    match n with
    | O => throw out_of_fuel
    | S n =>
        let partSize := if decide (int64 (offset + partSize) > totalSize)%Z
                        then int64 (totalSize - offset) else partSize in
        match seekerInfo (rd_section r offset partSize) with
        | Err e => mret (Err e)
        | Ok (content, _, md5hex, md5b64) =>
            match reuse_scan old current partSize (quoted md5hex) with
            | (Some part, old) =>
                put_all_loop n m r old totalSize (int64 (offset + partSize)) partSize (int64 (current + 1)) false
                  (acc ++ [part])
            | (None, old) =>
                part ←? putPart m current content partSize md5b64;
                put_all_loop n m r old totalSize (int64 (offset + partSize)) partSize (int64 (current + 1)) false
                  (acc ++ [part])
            end
        end
    end.

(** [PutAll]; [pages] bounds the rounds of [ListParts].  A positive part size takes at
    most as many rounds as there are bytes, and one for an empty file. *)
Definition PutAll (pages : nat) (m : Multi) (r : reader) (partSize : Z) : MH (result (list Part)) :=
  old ← ListParts pages m;
  match (match old with Ok old => Ok old | Err e => if hasCode e "NoSuchUpload" then Ok [] else Err e end) with
  | Err e => mret (Err e)
  | Ok old =>
      match rd_size r with
      | Err e => mret (Err e)
      | Ok totalSize => put_all_loop (S (Z.to_nat totalSize)) m r old totalSize 0 partSize 1 true []
      end
  end.

(** ** The end of an upload *)

(** [Complete] *)
Definition Complete (m : Multi) (parts : list Part) : MH (option error) :=
  let b := mu_Bucket m in
  let data := xml_complete ((λ p, (N p, part_ETag p)) <$> sort_parts parts) in
  let query := values_Add "uploadId" (mu_UploadId m) ∅ in
  r ← prepared b (with_query query (NewRequest "POST" (endpoint b) (mu_Key m) data)) [];
  match r with
  | Err e => mret (Some e)
  | Ok req =>
      r ← requestRetryLoop_body (Z.of_nat (String.length data)) req;
      match r with
      | Err e => mret (Some e)
      | Ok resp => if ok_status resp then mret None else mret (Some (buildError resp))
      end
  end.

(** [Abort]: an error of [http.NewRequest] is not reported, the status of the answer is
    not looked at. *)
Definition Abort (m : Multi) : MH (option error) :=
  let b := mu_Bucket m in
  let query := values_Add "uploadId" (mu_UploadId m) ∅ in
  match with_query query (NewRequest "DELETE" (endpoint b) (mu_Key m) "") with
  | Err _ => mret None
  | Ok req =>
      r ← prepared b (Ok req) [];
      match r with
      | Err e => mret (Some e)
      | Ok req =>
          r ← requestRetryLoop req defaultAttempts;
          mret (match r with Err e => Some e | Ok _ => None end)
      end
  end.

(** [SignedURL]: the date is local time, in a format that says UTC. *)
Definition SignedURL (b : Bucket) (path : string) (expires : Z) : MH (result string) :=
  match NewRequest "GET" (URL b path) "" "" with
  | Err e => mret (Err e)
  | Ok req =>
      now ← Now;
      let req := header_add "date" (time_Format ISO8601BasicFormat (now + time_zone)) req in
      match SignV4URL keys req (s3_Auth (b_s3 b)) (Name (region (b_s3 b))) "s3" expires with
      | Err e => mret (Err e)
      | Ok req => mret (Ok (h_url req +:+ "?" +:+ Values_Encode (h_query req)))
      end
  end.
End multi.
End AmzMulti.
