(* ===== verification/AmzMultiCorrect.v ===== *)
(** * What multipart uploads guarantee

    Over a service that keeps the parts of unfinished uploads, [PutAll] and [Complete] of
    [AmzMulti] make an object of a file: the parts are numbered from one, cover the file,
    and an old part is reused only when its size and hash are those of the new one. *)

From stdpp Require Import sorting.
From S2P Require Import Prelude GoStrings GoUrl Services AmzSign AmzS3 AmzS3Correct AmzMulti.
From S2P Require Import Memcache.

Module AmzMultiCorrect.
Import AmzSign AmzS3 AmzS3Correct AmzMulti.

#[local] Arguments String.append !_ _ / : simpl nomatch.

(** ** The service *)

(** An upload: bucket, key and identifier. *)
Abbreviation upload := (string * string * string)%type.
Definition part_query (id : string) (n : Z) : Values :=
  values_Add "partNumber" (pretty n) (values_Add "uploadId" id ∅).
Definition upload_query (id : string) : Values := values_Add "uploadId" id ∅.
(** A listing from the start, or after a marker. *)
Definition list_query (id : string) (marker : option string) : Values :=
  let q := values_Add "max-parts" (pretty listPartsMax) (values_Add "uploadId" id ∅) in
  match marker with Some mk => values_Set "part-number-marker" mk q | None => q end.

Definition etag_of `{!HttpBody T} (c : string) : string := quoted (hex (md5 c)).

(** A part as a listing shows it. *)
Definition stored_part `{!HttpBody T} (ps : gmap Z string) (p : Part) : Prop :=
  ∃ c, ps !! N p = Some c ∧ part_ETag p = etag_of c ∧ part_Size p = Z.of_nat (String.length c).

Class MultiLaws (T : Type) `{!Http T, !HttpBody T} := {
  uploads : T → gmap upload (gmap Z string);
  contents : T → gmap (string * string) string;
  (** The last answer held an error document under a status of success, which S3
      documents for the completion of an upload. *)
  last_refused : T → bool;
  (** The pages of a listing from a marker on; all of them together list the parts. *)
  pages_from : gmap Z string → option string → list (list Part);
  ml_pages : ∀ ps p, p ∈ mjoin (pages_from ps None) ↔ stored_part ps p;
  (** The requests that sent a part, whatever became of them. *)
  puts : T → list (upload * Z);
  ml_now : ∀ s : T, uploads (time_now s).2 = uploads s ∧ contents (time_now s).2 = contents s ∧
    puts (time_now s).2 = puts s;
  ml_sleep : ∀ d (s : T), uploads (time_sleep d s) = uploads s ∧ contents (time_sleep d s) = contents s ∧
    puts (time_sleep d s) = puts s;
  ml_do_puts : ∀ r (s : T), puts (http_do r s).2 = puts s;
  ml_send_puts : ∀ b k id n len r (s : T), plain_bucket b → (1 ≤ n < 2 ^ 63)%Z →
    h_method r = "PUT" → h_url r = obj_url b k → h_query r = part_query id n →
    puts (http_send len r s).2 = puts s ++ [((b, k, id), n)];
  (** The unread rest is the end of the body. *)
  ml_rest : ∀ len r (s : T), ∃ pre, h_body r = pre +:+ (http_send len r s).1.2;
  (** A body that is not as long as announced is never accepted. *)
  ml_short : ∀ len r (s : T), len ≠ Z.of_nat (String.length (h_body r)) →
    match http_send len r s with (x, _, s') =>
      uploads s' = uploads s ∧ contents s' = contents s ∧
      match x with Ok resp => ok_status resp = false | Err _ => True end end;
  ml_part : ∀ b k id n len r (s : T), plain_bucket b → k ≠ "" → (1 ≤ n < 2 ^ 63)%Z →
    h_method r = "PUT" → h_url r = obj_url b k → h_query r = part_query id n →
    len = Z.of_nat (String.length (h_body r)) →
    match http_send len r s with (x, _, s') =>
      let stored := alter (insert n (h_body r)) (b, k, id) (uploads s) in
      contents s' = contents s ∧
      match x with
      | Ok resp =>
          if ok_status resp then is_Some (uploads s !! (b, k, id)) ∧ uploads s' = stored ∧
            header_Get "ETag" (h_rheader resp) = etag_of (h_body r)
          else uploads s' = uploads s
      | Err _ => uploads s' = uploads s ∨ uploads s' = stored
      end end;
  ml_list : ∀ b k id mk r (s : T), plain_bucket b → k ≠ "" →
    h_method r = "GET" → h_url r = obj_url b k → h_query r = list_query id mk →
    match http_do r s with (x, s') =>
      uploads s' = uploads s ∧ contents s' = contents s ∧
      match x with
      | Ok resp =>
          if ok_status resp then
            match xml_listParts (h_content resp) with
            | Ok l => ∃ ps, uploads s !! (b, k, id) = Some ps ∧
                pages_from ps mk = lp_Part l ::
                  (if lp_IsTruncated l then pages_from ps (Some (NextPartNumberMarker l)) else [])
            | Err e => hasCode e "NoSuchUpload" = false
            end
          else hasCode (buildError resp) "NoSuchUpload" = true → uploads s !! (b, k, id) = None
      | Err e => hasCode e "NoSuchUpload" = false
      end end;
  ml_complete : ∀ b k id ps len r (s : T), plain_bucket b → k ≠ "" →
    h_method r = "POST" → h_url r = obj_url b k → h_query r = upload_query id →
    h_body r = xml_complete ps → len = Z.of_nat (String.length (h_body r)) →
    match http_send len r s with (x, _, s') =>
      let same := uploads s' = uploads s ∧ contents s' = contents s in
      let completed := ∃ m cs, uploads s !! (b, k, id) = Some m ∧
        Forall2 (λ p c, m !! p.1 = Some c ∧ p.2 = etag_of c) ps cs ∧
        uploads s' = delete (b, k, id) (uploads s) ∧
        contents s' = <[(b, k) := Join cs ""]> (contents s) in
      match x with
      | Ok resp => if ok_status resp && negb (last_refused s') then completed else same
      | Err _ => same ∨ completed
      end end;
}.

(** The clock does not run backwards while a body is sent either. *)
Class SendClock (T : Type) `{!Http T, !HttpBody T, !ClockLaws T} := {
  send_clock : ∀ len r (s : T), (clock s ≤ clock (http_send len r s).2)%Z;
}.

Section laws.
Context {T : Type} `{!Http T, !HttpBody T} {Hcrypto : Crypto} `{!ClockLaws T, !SendClock T, !MultiLaws T}.
Implicit Types (s : T) (a : Attempt).

(** ** What the clock does not touch *)
Definition view s : gmap upload (gmap Z string) * gmap (string * string) string := (uploads s, contents s).
Definition keeps {A} (m : M T A) : Prop := ∀ s, wp m (λ _ s', view s' = view s) (λ _ _, False) s.

(** What is known of a run beside that it keeps the view. *)
Lemma wp_keeps {A} (m : M T A) (Q Q' : A → T → Prop) s :
  keeps m → wp m Q' (λ _ _, False) s → (∀ x s', view s' = view s → Q' x s' → Q x s') →
  wp m Q (λ _ _, False) s.
Proof. intros Hk H HQ. specialize (Hk s). rewrite /wp in Hk, H |- *. destruct (m s) as [[]]; auto. Qed.

Lemma keeps_ret {A} (x : A) : keeps (mret x).
Proof. intros s. by apply wp_ret. Qed.
Lemma keeps_bind {A B} (m : M T A) (f : A → M T B) : keeps m → (∀ x, keeps (f x)) → keeps (m ≫= f).
Proof.
  intros Hm Hf s. apply wp_bind. eapply wp_mono; [apply Hm| |done]. intros x s1 E.
  eapply wp_mono; [apply Hf| |done]. intros y s2 E2. congruence.
Qed.
Lemma keeps_Now : keeps Now.
Proof.
  intros s. rewrite /wp /Now /lift /view. pose proof (ml_now s) as (Hu & Hc & _). destruct (time_now s).
  simpl in *. by rewrite Hu Hc.
Qed.
Lemma keeps_Sleep d : keeps (Sleep d).
Proof. intros s. apply wp_modify. rewrite /view. by destruct (ml_sleep d s) as (-> & -> & _). Qed.
Lemma keeps_Start st : keeps (Start st).
Proof. apply keeps_bind; [apply keeps_Now|]. intros. apply keeps_ret. Qed.
Lemma keeps_Next a : keeps (Next a).
Proof.
  apply keeps_bind; [apply keeps_Now|]. intros now. cbv zeta. case_match; [apply keeps_ret|].
  apply keeps_bind; [|intros; apply keeps_ret].
  destruct (decide (nextSleep a now > 0 ∧ count a > 0)%Z); [|apply keeps_ret].
  apply keeps_bind; [apply keeps_Sleep|]. intros. apply keeps_Now.
Qed.
Lemma keeps_HasNext a : keeps (HasNext a).
Proof.
  rewrite /HasNext. case_match; [apply keeps_ret|]. apply keeps_bind; [apply keeps_Now|].
  intros now. destruct (decide (now + nextSleep a now < end_ a)%Z); apply keeps_ret.
Qed.
Lemma keeps_date r : keeps (addAmazonDateHeader r).
Proof. apply keeps_bind; [apply keeps_Now|]. intros. apply keeps_ret. Qed.

(** ** The retry loop with a body *)

(** What the strategy has left. *)
Definition within (n : nat) a s : Prop :=
  strategy a = defaultAttempts ∧ running a s ∧ (count a ≤ 25 < count a + Z.of_nat n)%Z.

Lemma within_Start n s (Q : Attempt → T → Prop) :
  (25 < n)%nat → (∀ a s', view s' = view s → within n a s' → Q a s') → wp (Start defaultAttempts) Q (λ _ _, False) s.
Proof.
  intros Hn HQ. apply (wp_keeps _ _ (λ a s', within n a s')); [apply keeps_Start| |auto].
  apply wp_bind, wp_Now. intros s1 Hs1 _. apply wp_ret.
  split_and!; [done|by split; simpl; try done; lia|simpl; lia|simpl; lia].
Qed.

(** Another attempt, or none. *)
Lemma within_Next n a s (Q : bool * Attempt → T → Prop) :
  within (S n) a s →
  (∀ s', view s' = view s → Q (false, a) s') →
  (∀ a' s', view s' = view s → within n a' s' → (0 < count a')%Z → Q (true, a') s') →
  wp (Next a) Q (λ _ _, False) s.
Proof.
  intros (Hst & Hr & Hc) HF HT.
  apply (wp_keeps _ _ (λ x s', match x with
    | (false, a') => a' = a
    | (true, a') => within n a' s' ∧ (0 < count a')%Z end)); [apply keeps_Next| |].
  - apply wp_Next; [by rewrite Hst|done|by intros|]. intros a' s' Hst' Hc' _ Hb' Hr' _.
    rewrite Hst in Hb' Hst'. change (rounds defaultAttempts) with 25%Z in Hb'.
    destruct Hr. split; [|lia]. split_and!; [done|done|lia|lia].
  - intros [[] a'] s' Hv Hx; [destruct Hx; by apply HT|subst; by apply HF].
Qed.

Lemma within_HasNext n a s (Q : bool * Attempt → T → Prop) :
  within n a s → (0 < count a)%Z →
  (∀ b a' s', view s' = view s → within n a' s' → Q (b, a') s') → wp (HasNext a) Q (λ _ _, False) s.
Proof.
  intros (Hst & Hr & Hc) Hpos HQ.
  apply (wp_keeps _ _ (λ x s', within n x.2 s')); [apply keeps_HasNext| |].
  - apply wp_HasNext; [done|done|]. intros b a' s' Hst' Hc' Hr' _. simpl.
    split_and!; [congruence|done|lia|lia].
  - intros [b a'] s' Hv Hx. by apply HQ.
Qed.

(** An attempt that [Next] grants. *)
Definition ready a : Prop := force a = true ∨ (count a < Min (strategy a))%Z.
Lemma wp_conj {A} (m : M T A) (Q Q' : A → T → Prop) (C C' : crash → T → Prop) s :
  wp m Q C s → wp m Q' C' s → wp m (λ x s', Q x s' ∧ Q' x s') C s.
Proof. rewrite /wp. destruct (m s) as [[]]; auto. Qed.
Lemma wp_both {A} (m : M T A) (Q Q' : A → T → Prop) s :
  wp m Q (λ _ _, False) s → wp m Q' (λ _ _, False) s → wp m (λ x s', Q x s' ∧ Q' x s') (λ _ _, False) s.
Proof. apply wp_conj. Qed.
Lemma Next_ready a s : ready a → wp (Next a) (λ x _, x.1 = true) (λ _ _, False) s.
Proof.
  intros Ha. apply wp_bind. eapply wp_mono; [apply keeps_Now| |done]. intros now s1 _. cbv zeta.
  rewrite (_ : negb (force a) && _ && _ = false); last first.
  { destruct Ha as [->|Hm]; [done|]. rewrite (bool_decide_eq_false_2 (Min _ ≤ _)%Z); [|lia]. by rewrite andb_false_r. }
  apply wp_bind. destruct (decide _); [|by apply wp_ret, wp_ret].
  apply wp_bind. eapply wp_mono; [apply keeps_Sleep| |done]. intros [] s2 _.
  eapply wp_mono; [apply keeps_Now| |done]. intros now2 s3 _. by apply wp_ret.
Qed.
Lemma Start_ready st s : wp (Start st) (λ a _, ready a) (λ _ _, False) s.
Proof. apply wp_bind. eapply wp_mono; [apply keeps_Now| |done]. intros now s1 _. apply wp_ret. by left. Qed.
Lemma HasNext_ready a s : wp (HasNext a) (λ x _, x.1 = true → ready x.2) (λ _ _, False) s.
Proof.
  rewrite /HasNext. destruct (force a || _) eqn:E.
  - apply wp_ret. intros _. apply orb_true_iff in E as [E|E%bool_decide_eq_true]; [by left|right; simpl; lia].
  - apply wp_bind. eapply wp_mono; [apply keeps_Now| |done]. intros now s1 _.
    destruct (decide (now + nextSleep a now < end_ a)%Z); apply wp_ret; [by left|done].
Qed.

Lemma Start_page s :
  wp (Start defaultAttempts) (λ a s', (view s' = view s ∧ within 26 a s') ∧ ready a) (λ _ _, False) s.
Proof. apply wp_both; [apply (within_Start 26); [lia|done]|apply Start_ready]. Qed.

Lemma within_later n a s s' : within n a s → (clock s ≤ clock s')%Z → within n a s'.
Proof. intros (? & [] & ?) Hcl. split_and!; [done| |lia|lia]. split; try done; lia. Qed.

(** A property [P] of the request and the view that every failed attempt keeps. *)
Lemma wp_retry_body (P : hrequest → gmap upload (gmap Z string) * gmap (string * string) string → Prop)
    (Q : result hresponse → T → Prop) len :
  (∀ r s x rest s', P r (view s) → http_send len r s = (x, rest, s') →
     match x with Ok resp => Q (Ok resp) s' | Err e => P (set_body rest r) (view s') end) →
  (∀ r e s, P r (view s) → Q (Err e) s) →
  ∀ n r a s, within n a s → P r (view s) → wp (retry_body_loop n len r a) Q (λ _ _, False) s.
Proof.
  intros Hsend HE n. induction n as [|n IH]; intros r a s Hw HP.
  { destruct Hw as (_ & _ & ?). lia. }
  cbn [retry_body_loop]. apply wp_bind, (within_Next n); [done| |].
  { intros s1 Hv. apply wp_ret, (HE r). by rewrite Hv. }
  intros a1 s1 Hv1 Hw1 Hpos. apply wp_bind. rewrite {1}/wp /Send.
  pose proof (send_clock len r s1) as Hcl.
  destruct (http_send len r s1) as [[x rest] s2] eqn:E. simpl in Hcl.
  rewrite -Hv1 in HP. pose proof (Hsend _ _ _ _ _ HP E) as Hx. destruct x as [resp|e]; [by apply wp_ret|].
  pose proof (within_later _ _ _ _ Hw1 Hcl) as Hw2.
  apply wp_bind. destruct (shouldRetry e); [|by eapply wp_ret, wp_ret, HE].
  apply (within_HasNext n); [done|done|]. intros [] a2 s3 Hv3 Hw3.
  - apply IH; [done|]. by rewrite Hv3.
  - eapply wp_ret, HE. by rewrite Hv3.
Qed.

Lemma wp_requestRetryLoop_body P (Q : result hresponse → T → Prop) len r s :
  (∀ r s x rest s', P r (view s) → http_send len r s = (x, rest, s') →
     match x with Ok resp => Q (Ok resp) s' | Err e => P (set_body rest r) (view s') end) →
  (∀ r e s, P r (view s) → Q (Err e) s) → P r (view s) →
  wp (requestRetryLoop_body len r) Q (λ _ _, False) s.
Proof.
  intros Hsend HE HP. apply wp_bind, (within_Start 26); [lia|]. intros a s1 Hv Hw.
  apply (wp_retry_body P); [done|done|done|]. by rewrite Hv.
Qed.

(** ** One part *)
Context (Getenv : string → string).
Implicit Types (b k id : string).

Lemma headers_keep_query hs r :
  let r' := foldl (λ r '(k, v), header_add k v r) r hs in
  h_method r' = h_method r ∧ h_url r' = h_url r ∧ h_query r' = h_query r ∧ h_body r' = h_body r.
Proof.
  revert r. induction hs as [|[k v] hs IH]; intros r; [done|]. simpl.
  destruct (IH (header_add k v r)) as (-> & -> & -> & ->). done.
Qed.

Definition asks (method url : string) (q : Values) (r : hrequest) : Prop :=
  h_method r = method ∧ h_url r = url ∧ h_query r = q.

Lemma wp_date (Q : hrequest → T → Prop) C r s :
  (∀ r' s', view s' = view s → asks (h_method r) (h_url r) (h_query r) r' → h_body r' = h_body r → Q r' s') →
  wp (addAmazonDateHeader r) Q C s.
Proof.
  intros HQ. apply wp_bind. eapply wp_mono; [apply (keeps_Now s)| |by intros].
  intros now s1 Hv. by apply wp_ret, HQ.
Qed.
Lemma Sign_asks b r r' : Sign (b_s3 (bucket Getenv b)) r (s3_Auth (b_s3 (bucket Getenv b))) = Ok r' →
  asks (h_method r) (h_url r) (h_query r) r' ∧ h_body r' = h_body r.
Proof. intros (Hm & Hu & Hq & Hb)%SignV4_keeps. done. Qed.

(** A request that cannot be signed fails with an error of its own. *)
Lemma Sign_code b r e : Sign (b_s3 (bucket Getenv b)) r (s3_Auth (b_s3 (bucket Getenv b))) = Err e →
  hasCode e "NoSuchUpload" = false.
Proof.
  rewrite /Sign /= /SignV4Factory /SignV4. destruct (requestTime r) as [t|e'] eqn:E.
  - destruct (canonicalRequest _ _ _) as [[[? ?] ?] ?]. done.
  - intros [= <-]. revert E. rewrite /requestTime. repeat case_match; by intros [= <-].
Qed.

Lemma wp_prepared_query b method path q body hs (Q : result hrequest → T → Prop) C s :
  (∀ r s', view s' = view s → asks method (obj_url b path) q r → h_body r = body → Q (Ok r) s') →
  (∀ e s', view s' = view s → Q (Err e) s') →
  wp (prepared (bucket Getenv b)
        (with_query q (NewRequest method (endpoint (bucket Getenv b)) path body)) hs) Q C s.
Proof.
  intros HQ HE. rewrite /prepared /NewRequest /with_query. destruct (http_url_ok _); [|by apply wp_ret, HE].
  set (r0 := set_query _ _). destruct (headers_keep_query hs r0) as (Hm & Hu & Hq & Hb).
  apply wp_bind, wp_date. intros r1 s1 Hv (Hm1 & Hu1 & Hq1) Hb1. apply wp_ret.
  destruct (Sign _ _ _) as [r2|e] eqn:Hs; [|by apply HE].
  apply Sign_asks in Hs as [(Hm2 & Hu2 & Hq2) Hb2]. apply HQ; [done| |by rewrite Hb2 Hb1 Hb].
  split_and!; [by rewrite Hm2 Hm1 Hm|by rewrite Hu2 Hu1 Hu|by rewrite Hq2 Hq1 Hq].
Qed.

(** The view after part [n] of an upload was stored. *)
Definition with_part (u : upload) (n : Z) (c : string)
    (v : gmap upload (gmap Z string) * gmap (string * string) string) :=
  (alter (insert n c) u v.1, v.2).
Lemma with_part_twice u n c v : with_part u n c (with_part u n c v) = with_part u n c v.
Proof.
  rewrite /with_part /=. f_equal. apply map_eq. intros u'.
  destruct (decide (u = u')) as [->|Hne]; [|by rewrite !lookup_alter_ne].
  rewrite !lookup_alter_eq. destruct (v.1 !! u'); [|done]. simpl. by rewrite insert_insert_eq.
Qed.

(** What one part can leave behind, and when it is there. *)
Definition part_sent u n c v0 (x : result hresponse) s' : Prop :=
  (view s' = v0 ∨ view s' = with_part u n c v0) ∧
  ∀ resp, x = Ok resp → ok_status resp = true →
    view s' = with_part u n c v0 ∧ header_Get "ETag" (h_rheader resp) = etag_of c.

Lemma suffix_whole (c pre body : string) :
  c = pre +:+ body → String.length body = String.length c → body = c.
Proof. intros -> H. rewrite str_length_app in H. destruct pre; [done|simpl in H; lia]. Qed.

Lemma send_part b k id n c r s x rest s' v0 :
  plain_bucket b → k ≠ "" → (1 ≤ n < 2 ^ 63)%Z → asks "PUT" (obj_url b k) (part_query id n) r →
  (∃ pre, c = pre +:+ h_body r) → view s = v0 ∨ view s = with_part (b, k, id) n c v0 →
  http_send (Z.of_nat (String.length c)) r s = (x, rest, s') →
  part_sent (b, k, id) n c v0 x s' ∧ ∃ pre, c = pre +:+ rest.
Proof.
  intros Hb Hk Hn (Hm & Hu & Hq) [pre Hpre] Hv E. split.
  2:{ destruct (ml_rest (Z.of_nat (String.length c)) r s) as [pre' Hr]. rewrite E /= in Hr.
      exists (pre +:+ pre'). by rewrite Hpre Hr str_app_assoc. }
  destruct (decide (String.length (h_body r) = String.length c)) as [Hlen|Hlen].
  - assert (h_body r = c) as Hbody by by eapply suffix_whole.
    pose proof (ml_part b k id n (Z.of_nat (String.length c)) r s Hb Hk Hn Hm Hu Hq ltac:(by rewrite Hlen)) as Hl.
    rewrite E Hbody in Hl. destruct Hl as [Hc Hx].
    assert (uploads s' = alter (insert n c) (b, k, id) (uploads s) → view s' = with_part (b, k, id) n c v0) as Hst.
    { intros Hs'. assert (view s' = with_part (b, k, id) n c (view s)) as -> by by rewrite /view /with_part Hs' Hc.
      destruct Hv as [->| ->]; [done|apply with_part_twice]. }
    assert (uploads s' = uploads s → view s' = v0 ∨ view s' = with_part (b, k, id) n c v0) as Hsame.
    { intros Hs'. assert (view s' = view s) as -> by by rewrite /view Hs' Hc. done. }
    destruct x as [resp|e].
    + destruct (ok_status resp) eqn:Eok.
      * destruct Hx as (_ & Hs' & Het). split; [right; auto|]. intros ? [= <-] _. auto.
      * split; [auto|]. intros ? [= <-]. congruence.
    + split; [|done]. destruct Hx; auto.
  - pose proof (ml_short (Z.of_nat (String.length c)) r s ltac:(lia)) as Hl. rewrite E in Hl.
    destruct Hl as (Hs' & Hc & Hx). split.
    + assert (view s' = view s) as -> by by rewrite /view Hs' Hc. done.
    + intros resp -> ?. congruence.
Qed.

Lemma wp_putPart b k id n c b64 s :
  plain_bucket b → k ≠ "" → (1 ≤ n < 2 ^ 63)%Z →
  wp (putPart (mkMulti (bucket Getenv b) k id) n c (Z.of_nat (String.length c)) b64)
    (λ r s', (view s' = view s ∨ view s' = with_part (b, k, id) n c (view s)) ∧
       ∀ p, r = Ok p → p = mkPart n (etag_of c) (Z.of_nat (String.length c)) ∧
         view s' = with_part (b, k, id) n c (view s))
    (λ c _, c = nil_deref) s.
Proof.
  intros Hb Hk Hn. apply wp_bindR, wp_prepared_query; [|intros e s' Hv; split; [by left|done]].
  intros r s1 Hv1 Hr Hbody. apply wp_bind.
  eapply wp_mono; [apply (wp_requestRetryLoop_body (λ r v, asks "PUT" (obj_url b k) (part_query id n) r ∧
      (∃ pre, c = pre +:+ h_body r) ∧ (v = view s ∨ v = with_part (b, k, id) n c (view s)))
      (part_sent (b, k, id) n c (view s)))| |].
  - intros r2 s2 x rest s3 (Ha & Hpre & Hv) E.
    destruct (send_part b k id n c r2 s2 x rest s3 (view s)) as [Hs [pre Hp]]; try done.
    destruct x as [resp|e]; [done|]. split_and!; [apply Ha..|by exists pre|apply Hs].
  - intros r2 e s2 (_ & _ & Hv). by split.
  - split_and!; [apply Hr..|exists ""; by rewrite Hbody|left; done].
  - intros [resp|e] s2 [Hv Hok]; [|by apply wp_throw]. destruct (ok_status resp) eqn:Eok; cbn [negb].
    + destruct (Hok resp eq_refl Eok) as [Hv' Het]. rewrite Het. case_decide as Hd; [done|].
      apply wp_ret. split; [done|]. by intros p [= <-].
    + by apply wp_ret.
  - by intros.
Qed.

(** ** The requests that send parts *)

(** Every request to send a part that [m] makes is one of [P]. *)
Definition sends {A} (P : upload * Z → Prop) (m : M T A) : Prop :=
  ∀ s, wp m (λ _ s', ∃ l, puts s' = puts s ++ l ∧ Forall P l) (λ _ _, True) s.

Lemma sends_mono {A} (P P' : upload * Z → Prop) (m : M T A) : (∀ x, P x → P' x) → sends P m → sends P' m.
Proof.
  intros HP Hm s. eapply wp_mono; [apply Hm| |done]. intros x s' (l & E & Hl). exists l. split; [done|].
  by eapply Forall_impl.
Qed.
Lemma sends_ret {A} P (x : A) : sends P (mret x).
Proof. intros s. apply wp_ret. exists []. by rewrite app_nil_r. Qed.
Lemma sends_throw {A} P c : sends P (throw c : M T A).
Proof. intros s. by apply wp_throw. Qed.
(** What is sent after [m] may depend on a property [R] of its result. *)
Lemma sends_bind_post {A B} P (R : A → Prop) (m : M T A) (f : A → M T B) :
  sends P m → (∀ s, wp m (λ x _, R x) (λ _ _, True) s) → (∀ x, R x → sends P (f x)) → sends P (m ≫= f).
Proof.
  intros Hm HR Hf s. apply wp_bind. eapply wp_mono; [apply (wp_conj _ _ _ _ _ _ (Hm s) (HR s))| |done].
  intros x s1 [(l & E & Hl) Hx]. eapply wp_mono; [by apply Hf| |done].
  intros y s2 (l2 & E2 & Hl2). exists (l ++ l2). rewrite E2 E app_assoc. split; [done|]. by apply Forall_app.
Qed.
Lemma sends_bind {A B} P (m : M T A) (f : A → M T B) :
  sends P m → (∀ x, sends P (f x)) → sends P (m ≫= f).
Proof.
  intros Hm Hf. apply (sends_bind_post _ (λ _, True)); [done| |auto].
  intros s. eapply wp_mono; [apply Hm|done|done].
Qed.
Lemma sends_Now P : sends P Now.
Proof.
  intros s. rewrite /wp /Now /lift. pose proof (ml_now s) as (_ & _ & E). destruct (time_now s). exists [].
  by rewrite app_nil_r.
Qed.
Lemma sends_Sleep P d : sends P (Sleep d).
Proof. intros s. apply wp_modify. destruct (ml_sleep d s) as (_ & _ & E). exists []. by rewrite app_nil_r. Qed.
Lemma sends_Do P r : sends P (Do r).
Proof.
  intros s. rewrite /wp /Do /lift. pose proof (ml_do_puts r s) as E. destruct (http_do r s). exists [].
  by rewrite app_nil_r.
Qed.
Lemma sends_Start P st : sends P (Start st).
Proof. apply sends_bind; [apply sends_Now|]. intros. apply sends_ret. Qed.
Lemma sends_Next P a : sends P (Next a).
Proof.
  apply sends_bind; [apply sends_Now|]. intros now. cbv zeta. case_match; [apply sends_ret|].
  apply sends_bind; [|intros; apply sends_ret].
  destruct (decide (nextSleep a now > 0 ∧ count a > 0)%Z); [|apply sends_ret].
  apply sends_bind; [apply sends_Sleep|]. intros. apply sends_Now.
Qed.
Lemma sends_HasNext P a : sends P (HasNext a).
Proof.
  rewrite /HasNext. case_match; [apply sends_ret|]. apply sends_bind; [apply sends_Now|].
  intros now. destruct (decide (now + nextSleep a now < end_ a)%Z); apply sends_ret.
Qed.
Lemma sends_date P r : sends P (addAmazonDateHeader r).
Proof. apply sends_bind; [apply sends_Now|]. intros. apply sends_ret. Qed.
Lemma sends_prepared P (b : Bucket) r hs : sends P (prepared b r hs).
Proof.
  rewrite /prepared. destruct r; [|apply sends_ret]. apply sends_bind; [apply sends_date|]. intros. apply sends_ret.
Qed.

Lemma sends_Send b k id n len r : plain_bucket b → (1 ≤ n < 2 ^ 63)%Z →
  asks "PUT" (obj_url b k) (part_query id n) r → sends (eq (b, k, id, n)) (Send len r).
Proof.
  intros Hb Hn (Hm & Hu & Hq) s. rewrite /wp /Send. pose proof (ml_send_puts b k id n len r s Hb Hn Hm Hu Hq) as E.
  destruct (http_send len r s) as [[x rest] s']. eexists. split; [exact E|]. by constructor.
Qed.
Lemma sends_retry_body b k id n len i : plain_bucket b → (1 ≤ n < 2 ^ 63)%Z → ∀ r a,
  asks "PUT" (obj_url b k) (part_query id n) r → sends (eq (b, k, id, n)) (retry_body_loop i len r a).
Proof.
  intros Hb Hn. induction i as [|i IH]; intros r a Hr; cbn [retry_body_loop]; [apply sends_throw|].
  apply sends_bind; [apply sends_Next|]. intros [[] a1]; [|apply sends_ret].
  apply sends_bind; [by apply sends_Send|]. intros [[resp|e] rest]; [apply sends_ret|].
  apply sends_bind; [destruct (shouldRetry e); [apply sends_HasNext|apply sends_ret]|].
  intros [[] a2]; [by apply IH|apply sends_ret].
Qed.
Lemma sends_putPart b k id n c len b64 : plain_bucket b → (1 ≤ n < 2 ^ 63)%Z →
  sends (eq (b, k, id, n)) (putPart (mkMulti (bucket Getenv b) k id) n c len b64).
Proof.
  intros Hb Hn. apply (sends_bind_post _ (λ x, ∀ r, x = Ok r → asks "PUT" (obj_url b k) (part_query id n) r)).
  - apply sends_prepared.
  - intros s. by apply wp_prepared_query; [intros r s' _ Hr _ ? [= <-]|].
  - intros [r|e] Hr; [|apply sends_ret]. apply sends_bind.
    + apply sends_bind; [apply sends_Start|]. intros a. by apply sends_retry_body, Hr.
    + intros [resp|e]; [|apply sends_throw].
      destruct (ok_status resp); cbn [negb]; [|apply sends_ret]. cbv zeta.
      destruct (decide (header_Get "ETag" (h_rheader resp) = "")); apply sends_ret.
Qed.

(** ** The parts that are there *)
#[local] Instance part_le_total : base.Total part_le.
Proof. intros p q. rewrite /part_le. lia. Qed.
#[local] Instance part_le_trans : Transitive part_le.
Proof. intros p q r. rewrite /part_le. lia. Qed.

Lemma list_query_next id mk mk' : values_Set "part-number-marker" mk' (list_query id mk) = list_query id (Some mk').
Proof. destruct mk; [|done]. rewrite /list_query /values_Set. by rewrite insert_insert_eq. Qed.

(** The outcome of a listing: all parts by number, or an error that does not say that
    there is no upload. *)
Definition listed (ps : gmap Z string) (x : result (list Part)) : Prop :=
  match x with
  | Ok l => l = sort_parts (mjoin (pages_from ps None))
  | Err e => hasCode e "NoSuchUpload" = false
  end.

(** The attempts of this page and of those after it bound the rounds. *)
Lemma wp_list_parts_loop b k id ps n : ∀ i mk r a parts s,
  plain_bucket b → k ≠ "" → within i a s → ready a → (i + 26 * length (pages_from ps mk) ≤ n)%nat →
  uploads s !! (b, k, id) = Some ps → parts ++ mjoin (pages_from ps mk) = mjoin (pages_from ps None) →
  asks "GET" (obj_url b k) (list_query id mk) r →
  wp (list_parts_loop n (mkMulti (bucket Getenv b) k id) r (list_query id mk) a parts)
    (λ x s', view s' = view s ∧ listed ps x) (λ _ _, False) s.
Proof.
  induction n as [|n IH]; intros i mk r a parts s Hb Hk Hw Hrd Hn Hps Hparts Hr.
  { destruct Hw as (_ & _ & ?). lia. }
  destruct i as [|i]; [destruct Hw as (_ & _ & ?); lia|].
  cbn [list_parts_loop]. apply wp_bind.
  eapply wp_mono; [apply (wp_both _ (λ x s', x.1 = true → view s' = view s ∧ within i x.2 s' ∧ (0 < count x.2)%Z)
                            (λ x _, x.1 = true)); [|by apply Next_ready]| |done].
  { by apply (within_Next i). }
  intros [? a1] s1 [Hx1 Hx2]. simpl in Hx1, Hx2. subst. destruct (Hx1 eq_refl) as (Hv1 & Hw1 & Hpos). clear Hx1.
  apply wp_bind.
  assert (wp (addAmazonDateHeader r) (λ r' s', view s' = view s ∧ within i a1 s' ∧
            asks "GET" (obj_url b k) (list_query id mk) r') (λ _ _, False) s1) as Hdate.
  { apply (wp_keeps _ _ (λ r' s', within i a1 s' ∧ asks "GET" (obj_url b k) (list_query id mk) r'));
      [apply keeps_date| |intros r' s' Hv [? ?]; split_and!; congruence || done].
    apply wp_bind, wp_Now. intros s2 Hcl _. apply wp_ret. split; [by eapply within_later|done]. }
  eapply wp_mono; [apply Hdate| |done]. intros r2 s2 (Hv2 & Hw2 & Hr2). cbn [mu_Bucket].
  destruct (Sign _ r2 _) as [r3|e] eqn:Es; [|apply wp_ret; split; [done|by eapply Sign_code]].
  apply Sign_asks in Es as [(Hm3 & Hu3 & Hq3) _]. destruct Hr2 as (Hm2 & Hu2 & Hq2).
  rewrite Hm2 in Hm3. rewrite Hu2 in Hu3. rewrite Hq2 in Hq3.
  apply wp_bind, wp_Do. intros x s3 E Hcl _.
  pose proof (ml_list b k id mk r3 s2 Hb Hk Hm3 Hu3 Hq3) as Hl. rewrite E in Hl. destruct Hl as (Hup & Hco & Hx).
  assert (view s3 = view s) as Hv3 by by rewrite -Hv2 /view Hup Hco.
  assert (uploads s2 !! (b, k, id) = Some ps) as Hps2 by by (injection Hv2 as -> _).
  assert (∀ s4, view s4 = view s3 → uploads s4 !! (b, k, id) = Some ps) as Hps4.
  { intros s4 Hv4. rewrite Hv3 in Hv4. by injection Hv4 as -> _. }
  pose proof (within_later _ _ _ _ Hw2 Hcl) as Hw3.
  destruct x as [resp|e]; [|by apply wp_ret]. destruct (ok_status resp) eqn:Eok; cbn [negb].
  - destruct (xml_listParts (h_content resp)) as [l|e]; [|by apply wp_ret].
    destruct Hx as (ps' & Hps' & Hpg). rewrite Hps2 in Hps'. injection Hps' as <-. rewrite Hpg in Hn Hparts.
    destruct (lp_IsTruncated l); cbn [negb].
    + apply wp_bind. eapply wp_mono; [apply Start_page| |done].
      intros a4 s4 [[Hv4 Hw4] Hrd4]. rewrite list_query_next.
      eapply wp_mono; [apply (IH 26 (Some (NextPartNumberMarker l)))| |done].
      * done.
      * done.
      * done.
      * done.
      * simpl in Hn. lia.
      * by apply Hps4.
      * by rewrite -app_assoc.
      * done.
      * intros y s5. by rewrite Hv4 Hv3.
    + apply wp_ret. split; [done|]. cbn [mjoin list_join] in Hparts. rewrite app_nil_r in Hparts.
      by rewrite /listed -Hparts.
  - assert (hasCode (buildError resp) "NoSuchUpload" = false) as Hcode.
    { apply not_true_iff_false. intros Hc%Hx. congruence. }
    apply wp_bind. destruct (shouldRetry (buildError resp)); [|by apply wp_ret, wp_ret].
    eapply wp_mono; [apply (wp_both _ _ _ _ (within_HasNext i a1 s3 (λ x s', view s' = view s3 ∧ within i x.2 s') Hw3 Hpos ltac:(done)) (HasNext_ready a1 s3))| |done].
    intros [[] a4] s4 [[Hv4 Hw4] Hrd4]; simpl in Hw4, Hrd4.
    + eapply wp_mono; [apply (IH i mk)| |done]; [done|done|done|by apply Hrd4|lia|by apply Hps4|done|done|].
      intros y s5. by rewrite Hv4 Hv3.
    + apply wp_ret. split; [by rewrite Hv4|done].
Qed.

Lemma wp_ListParts b k id pages ps s :
  plain_bucket b → k ≠ "" → uploads s !! (b, k, id) = Some ps → (26 * S (length (pages_from ps None)) ≤ pages)%nat →
  wp (ListParts pages (mkMulti (bucket Getenv b) k id))
    (λ x s', view s' = view s ∧ listed ps x) (λ _ _, False) s.
Proof.
  intros Hb Hk Hps Hn. rewrite /ListParts /NewRequest /with_query. cbn [mu_Bucket mu_Key mu_UploadId].
  destruct (http_url_ok _); [|by apply wp_ret]. apply wp_bind.
  eapply wp_mono; [apply Start_page| |done].
  intros a s1 [[Hv1 Hw1] Hrd]. rewrite -Hv1.
  apply (wp_list_parts_loop b k id ps pages 26 None); [done|done|done|done|lia| |done|done].
  by injection Hv1 as -> _.
Qed.
Lemma sends_ListParts pages m : sends (λ _, False) (ListParts pages m).
Proof.
  rewrite /ListParts. destruct (with_query _ _) as [r|]; [|apply sends_ret].
  apply sends_bind; [apply sends_Start|]. intros a. generalize (@nil Part) as parts.
  generalize (values_Add "max-parts" (pretty listPartsMax) (values_Add "uploadId" (mu_UploadId m) ∅)) as q.
  revert r a. induction pages as [|n IH]; intros r a q parts; cbn [list_parts_loop]; [apply sends_throw|].
  apply sends_bind; [apply sends_Next|]. intros [[] a1]; [|apply sends_ret].
  apply sends_bind; [apply sends_date|]. intros r1. destruct (Sign _ r1 _) as [r2|]; [|apply sends_ret].
  apply sends_bind; [apply sends_Do|]. intros [resp|]; [|apply sends_ret].
  destruct (ok_status resp); cbn [negb].
  - destruct (xml_listParts _) as [l|]; [|apply sends_ret]. destruct (lp_IsTruncated l); cbn [negb]; [|apply sends_ret].
    apply sends_bind; [apply sends_Start|]. intros. apply IH.
  - apply sends_bind; [destruct (shouldRetry _); [apply sends_HasNext|apply sends_ret]|].
    intros [[] a2]; [apply IH|apply sends_ret].
Qed.

(** ** A file in parts *)

Definition file_reader (content : string) : reader :=
  mkReader (Ok (Z.of_nat (String.length content)))
    (λ off n, Ok (String.substring (Z.to_nat off) (Z.to_nat n) content)).

(** Content that cannot be told from another by size and hash. *)
Definition alike (c d : string) : Prop := String.length c = String.length d ∧ etag_of c = etag_of d.

(** The parts of an upload, numbered from [n]: what [PutAll] reports of the chunks, and
    what the service holds under these numbers. *)
Fixpoint numbered (n : Z) (chunks : list string) : list Part :=
  match chunks with
  | [] => []
  | c :: cs => mkPart n (etag_of c) (Z.of_nat (String.length c)) :: numbered (n + 1) cs
  end.
Inductive holds (ps : gmap Z string) : Z → list string → list string → Prop :=
| holds_nil n : holds ps n [] []
| holds_cons n c d cs ds :
    ps !! n = Some c → alike c d → holds ps (n + 1) cs ds → holds ps n (c :: cs) (d :: ds).

Lemma holds_mono ps ps' n cs ds :
  holds ps n cs ds → (∀ i, (n ≤ i)%Z → ps' !! i = ps !! i) → holds ps' n cs ds.
Proof.
  induction 1 as [|n c d cs ds Hc Hal Hh IH]; intros Hps; [constructor|].
  constructor; [by rewrite Hps; [|lia]|done|]. apply IH. intros i Hi. apply Hps. lia.
Qed.

(** Pieces of the given size, the last one may be shorter. *)
Inductive pieces (size : Z) : string → list string → Prop :=
| pieces_nil : pieces size "" []
| pieces_last c : c ≠ "" → (Z.of_nat (String.length c) ≤ size)%Z → pieces size c [c]
| pieces_cons c rest cs :
    c ≠ "" → Z.of_nat (String.length c) = size → pieces size rest cs → pieces size (c +:+ rest) (c :: cs).
Lemma pieces_empty size cs : pieces size "" cs → cs = [].
Proof. inversion 1 as [| |c rest cs' Hc]; [done|done|]. by destruct c. Qed.
Lemma pieces_Join size x cs : pieces size x cs → Join cs "" = x.
Proof.
  induction 1 as [|c Hn Hc|c rest cs Hn Hc Hp IH]; [done|done|].
  destruct cs; cbn [Join] in *; [by rewrite -IH str_app_nil_r|by rewrite IH].
Qed.
Lemma pieces_sizes size x cs : pieces size x cs → Forall (λ c, Z.of_nat (String.length c) ≤ size)%Z cs.
Proof. induction 1; constructor; by try lia. Qed.

(** What the parts considered for reuse have in common. *)
Definition reusable (ps : gmap Z string) (current : Z) (old : list Part) : Prop :=
  Forall (λ p, (current ≤ N p)%Z → stored_part ps p) old.

Lemma reuse_scan_ok ps current old size etag res old' :
  reusable ps current old → reuse_scan old current size etag = (res, old') →
  reusable ps current old' ∧
  match res with
  | Some p => N p = current ∧ part_Size p = size ∧ part_ETag p = etag ∧ stored_part ps p
  | None => True
  end.
Proof.
  intros Hold. induction Hold as [|p old Hp Hold IH]; simpl; [intros [= <- <-]; split; [constructor|done]|].
  case_decide; [case_decide as Hm|].
  - intros [= <- <-]. split; [by constructor|]. destruct Hm as (Hn & ? & ?). split_and!; try done. apply Hp. lia.
  - auto.
  - intros [= <- <-]. split; [by constructor|done].
Qed.
(** The old parts that may still be reused: by number, and all that were there. *)
Definition complete_from (ps0 : gmap Z string) (current : Z) (old : list Part) : Prop :=
  StronglySorted part_le old ∧ ∀ p, stored_part ps0 p → (current ≤ N p)%Z → p ∈ old.
Lemma reuse_scan_complete ps0 current old size etag res old' :
  complete_from ps0 current old → reuse_scan old current size etag = (res, old') →
  complete_from ps0 (current + 1) old' ∧ (res = None → ¬ stored_part ps0 (mkPart current etag size)).
Proof.
  intros [Hs Hin]. assert (stored_part ps0 (mkPart current etag size) → mkPart current etag size ∈ old) as Ht.
  { intros Hst. apply Hin; [done|]. simpl. lia. }
  assert (∀ p, stored_part ps0 p → (current + 1 ≤ N p)%Z → p ∈ old) as Hlater by (intros; apply Hin; [done|lia]).
  clear Hin. induction Hs as [|p old Hs IH Hall]; simpl.
  { intros [= <- <-]. split; [split; [constructor|done]|]. intros _ Hst%Ht. by apply elem_of_nil in Hst. }
  case_decide as Hle; [case_decide as Hm|].
  - intros [= <- <-]. split; [|done]. split; [by constructor|done].
  - apply IH.
    + intros Hst. pose proof (Ht Hst) as [Heq|]%elem_of_cons; [|done]. destruct Hm. by rewrite -Heq.
    + intros q Hq Hn. pose proof (Hlater q Hq Hn) as [->|]%elem_of_cons; [lia|done].
  - intros [= <- <-]. split; [split; [by constructor|done]|]. intros _ Hst%Ht.
    apply elem_of_cons in Hst as [<-|Hst]; simpl in Hle; [lia|].
    rewrite Forall_forall in Hall. apply Hall in Hst. rewrite /part_le /= in Hst. lia.
Qed.
Lemma reusable_next ps ps' n old :
  reusable ps n old → (∀ i, (n < i)%Z → ps' !! i = ps !! i) → reusable ps' (n + 1) old.
Proof.
  intros Hold Hps. eapply Forall_impl; [exact Hold|]. intros p Hp Hle.
  destruct Hp as (c & Hc & Hrest); [lia|]. exists c. by rewrite Hps; [|lia].
Qed.

Lemma int64_small z : (- 2 ^ 63 ≤ z < 2 ^ 63)%Z → int64 z = z.
Proof. intros Hz. rewrite /int64 Z.mod_small; lia. Qed.

(** [content[off:]] *)
Definition from (off : Z) (content : string) : string :=
  String.substring (Z.to_nat off) (String.length content - Z.to_nat off) content.
Lemma substring_0 n c : (String.length c ≤ n)%nat → String.substring 0 n c = c.
Proof. revert n. induction c as [|x c IH]; intros [|n]; simpl; try done; try lia. intros. by rewrite IH; [|lia]. Qed.
Lemma substring_length off n c :
  (off + n ≤ String.length c)%nat → String.length (String.substring off n c) = n.
Proof.
  revert off n. induction c as [|x c IH]; intros [|off] [|n]; simpl; try done; try lia; intros.
  - by rewrite IH; [|lia].
  - apply (IH off 0). lia.
  - apply (IH off (S n)). lia.
Qed.
Lemma substring_from off c : (off ≤ String.length c)%nat → c = String.substring 0 off c +:+ String.substring off (String.length c - off) c.
Proof.
  revert off. induction c as [|x c IH]; intros [|off] H; simpl in *; try done; try lia.
  - f_equal. by rewrite substring_0.
  - f_equal. apply IH. lia.
Qed.
Lemma substring_cut off n c :
  (off + n ≤ String.length c)%nat →
  String.substring off (String.length c - off) c =
  String.substring off n c +:+ String.substring (off + n) (String.length c - (off + n)) c.
Proof.
  revert off n. induction c as [|x c IH]; intros [|off] n H; simpl in *; try done.
  - by destruct n.
  - destruct n as [|n]; simpl; [done|]. f_equal. rewrite substring_0; [|lia]. apply substring_from. lia.
  - apply IH. lia.
Qed.

(** One round of [PutAll]: the piece at the offset and what follows it. *)
Lemma round_ok content offset size (size' := if decide (offset + size > Z.of_nat (String.length content))%Z
    then (Z.of_nat (String.length content) - offset)%Z else size) c :
  (0 ≤ offset ≤ Z.of_nat (String.length content))%Z → (0 ≤ size)%Z →
  c = String.substring (Z.to_nat offset) (Z.to_nat size') content →
  Z.of_nat (String.length c) = size' ∧ (0 ≤ size' ≤ size)%Z ∧
  (offset + size' ≤ Z.of_nat (String.length content))%Z ∧ from offset content = c +:+ from (offset + size') content.
Proof.
  intros Ho Hs ->. assert (0 ≤ size' ∧ size' ≤ size ∧ offset + size' ≤ Z.of_nat (String.length content))%Z
    as (H1 & H2 & H3) by (rewrite /size'; case_decide; lia).
  clearbody size'. rewrite substring_length; [|lia]. split_and!; try lia.
  rewrite /from (substring_cut _ (Z.to_nat size')); [|lia].
  by rewrite Z2Nat.inj_add; [|lia..].
Qed.

(** The chunks of a file from an offset on; an empty file is one empty chunk. *)
Definition chunked (first : bool) (size : Z) (x : string) (chunks : list string) : Prop :=
  (pieces size x chunks ∧ (first = true → chunks ≠ [])) ∨ (first = true ∧ x = "" ∧ chunks = [""]).

(** What the loop has left to do from an offset on. *)
Definition uploaded b k id (content : string) (first : bool) (offset size current : Z) (acc parts : list Part)
    (v v' : gmap upload (gmap Z string) * gmap (string * string) string) : Prop :=
  ∃ (ps ps' : gmap Z string) (chunks cs : list string), v.1 !! (b, k, id) = Some ps ∧ v' = (<[(b, k, id) := ps']> v.1, v.2) ∧
    parts = acc ++ numbered current chunks ∧ chunked first size (from offset content) chunks ∧
    holds ps' current cs chunks ∧ (∀ i, (i < current)%Z → ps' !! i = ps !! i).

Lemma uploaded_step b k id content first offset size size' current acc parts v v1 v' ps ps1 c d :
  v.1 !! (b, k, id) = Some ps → v1 = (<[(b, k, id) := ps1]> v.1, v.2) →
  ps1 !! current = Some c → alike c d → (∀ i, (i < current)%Z → ps1 !! i = ps !! i) →
  from offset content = d +:+ from (offset + size') content →
  Z.of_nat (String.length d) = size' → (d = "" → first = true) →
  (size' = size ∨ size' ≤ size ∧ from (offset + size') content = "")%Z → (d = "" → from (offset + size') content = "") →
  uploaded b k id content false (offset + size') size' (current + 1)
    (acc ++ [mkPart current (etag_of d) size']) parts v1 v' →
  uploaded b k id content first offset size current acc parts v v'.
Proof.
  intros Hps -> Hc Hal Hlow Hfrom Hlen Hfirst Hsize Hend (ps2 & ps' & chunks & cs & Hps2 & -> & -> & Hp & Hh & Hlow').
  simpl in *. rewrite lookup_insert_eq in Hps2. injection Hps2 as <-. rewrite insert_insert_eq.
  destruct Hp as [[Hp _]|[? _]]; [|done].
  exists ps, ps', (d :: chunks), (c :: cs). split_and!; try done.
  - by rewrite -app_assoc /= Hlen.
  - rewrite Hfrom. destruct (decide (d = "")) as [->|Hd].
    { rewrite Hend // in Hp |- *. apply pieces_empty in Hp as ->. right. auto. }
    left. split; [|done]. destruct Hsize as [<-|[Hle Hempty]]; [by constructor|].
    rewrite Hempty in Hp |- *. apply pieces_empty in Hp as ->. rewrite str_app_nil_r. constructor; [done|lia].
  - constructor; [by rewrite Hlow'; [|lia]|done|done].
  - intros i Hi. rewrite Hlow'; [|lia]. auto.
Qed.

(** [from] an offset within the content. *)
Lemma from_end content offset : (Z.of_nat (String.length content) ≤ offset)%Z → from offset content = "".
Proof.
  intros H. rewrite /from. rewrite (_ : String.length content - Z.to_nat offset = 0)%nat; [|lia].
  set (i := Z.to_nat offset). clearbody i. clear. revert i. induction content as [|x c IH]; intros [|i]; try done. apply IH.
Qed.

(** The parts that were sent are parts of the result that were not there before. *)
Definition sent_new b k id (ps0 : gmap Z string) (acc : list Part) (lg : list (upload * Z)) (r : result (list Part))
    (s' : T) : Prop :=
  ∃ l, puts s' = lg ++ l ∧ ∀ parts, r = Ok parts → (∀ p, p ∈ acc → p ∈ parts) ∧
    ∀ x, x ∈ l → ∃ p, x = ((b, k, id), N p) ∧ p ∈ parts ∧ ¬ stored_part ps0 p.

Lemma sent_new_step b k id ps0 acc p1 lg l r s' :
  (∀ x, x ∈ l → x = ((b, k, id), N p1) ∧ ¬ stored_part ps0 p1) →
  sent_new b k id ps0 (acc ++ [p1]) (lg ++ l) r s' → sent_new b k id ps0 acc lg r s'.
Proof.
  intros Hl (l2 & E & Hr). exists (l ++ l2). rewrite E app_assoc. split; [done|].
  intros parts Hp. destruct (Hr parts Hp) as [Hacc Hx]. split; [intros p Hin; apply Hacc; set_solver|].
  intros x [Hin|Hin]%elem_of_app; [|by apply Hx]. destruct (Hl x Hin) as [-> Hst].
  exists p1. split_and!; [done|apply Hacc; set_solver|done].
Qed.

Definition loop_post b k id ps0 content first offset size current acc v lg (r : result (list Part)) (s' : T) : Prop :=
  ((view s').2 = v.2 ∧ ∀ parts, r = Ok parts → uploaded b k id content first offset size current acc parts v (view s')) ∧
  sent_new b k id ps0 acc lg r s'.

(** The sizes a round works with. *)
Record round (total offset size current : Z) (first : bool) (n : nat) : Prop := {
  ro_offset : (0 ≤ offset ≤ total)%Z;
  ro_total : (total < 2 ^ 62)%Z;
  ro_size : (0 ≤ size < 2 ^ 63)%Z;
  ro_sum : (offset = 0 ∨ size ≤ total)%Z;
  ro_pos : (offset < total → 0 < size)%Z;
  ro_current : (1 ≤ current ≤ offset + 1 ∨ (total = 0 ∧ 1 ≤ current ≤ 2))%Z;
  ro_fuel : (total - offset + (if first then 1 else 0) ≤ Z.of_nat n)%Z;
  ro_first : first = true → offset = 0%Z ∧ current = 1%Z;
}.

Lemma wp_put_all_loop b k id ps0 content n : ∀ old offset size current first acc s ps,
  plain_bucket b → k ≠ "" → (view s).1 !! (b, k, id) = Some ps → reusable ps current old →
  complete_from ps0 current old →
  round (Z.of_nat (String.length content)) offset size current first n →
  wp (put_all_loop n (mkMulti (bucket Getenv b) k id) (file_reader content) old
        (Z.of_nat (String.length content)) offset size current first acc)
    (loop_post b k id ps0 content first offset size current acc (view s) (puts s)) (λ c _, c = nil_deref) s.
Proof.
  induction n as [|n IH]; intros old offset size current first acc s ps Hb Hk Hps Hold Hcomp Hro;
    cbn [put_all_loop]; (case_match eqn:Hstop;
      [apply negb_true_iff, orb_false_iff in Hstop as [Hoff%bool_decide_eq_false ->]|
       apply negb_false_iff, orb_true_iff in Hstop]).
  1,3: apply wp_ret; split;
    [|exists []; rewrite app_nil_r; split; [done|]; intros parts [= <-]; split; [done|by intros x ?%elem_of_nil]];
    split; [done|]; intros parts [= <-]; exists ps, ps, [], []; destruct Hro;
    rewrite from_end; [|lia]; split_and!; [done|by rewrite insert_id //; destruct (view s)|by rewrite app_nil_r|
      left; split; [constructor|done]|constructor|done].
  { exfalso. destruct Hro, first; destruct Hstop as [Hs%bool_decide_eq_true|Hs]; simpl in *; lia || done. }
  pose proof Hro as [Ho Ht Hsz Hsum Hpos Hcur Hf Hfirst].
  rewrite (int64_small (offset + size)); [|lia].
  rewrite (int64_small (_ - offset)); [|lia].
  set (size' := if decide _ then _ else size).
  cbn [file_reader rd_section seekerInfo]. set (d := String.substring _ _ content).
  destruct (round_ok content offset size d) as (Hlen & Hsz' & Hend & Hfrom); [done|lia|done|].
  fold size' in Hlen, Hsz', Hend, Hfrom.
  assert (size' = Z.of_nat (String.length content) - offset ∧ Z.of_nat (String.length content) < offset + size ∨
          size' = size ∧ offset + size ≤ Z.of_nat (String.length content))%Z as Hcases.
  { rewrite /size'. destruct (decide (offset + size > Z.of_nat (String.length content))%Z); lia. }
  rewrite (int64_small (offset + size')); [|lia].
  rewrite (int64_small (current + 1)); [|lia].
  assert (size' = size ∨ size' ≤ size ∧ from (offset + size') content = "")%Z as Hsize.
  { destruct Hcases as [[? ?]|[? ?]]; [right; split; [lia|apply from_end; lia]|by left]. }
  assert (d = "" → offset = Z.of_nat (String.length content)) as Hd0.
  { intros E. rewrite E /= in Hlen. destruct (Z.eq_dec offset (Z.of_nat (String.length content))); [done|].
    destruct Hcases; lia. }
  assert (d = "" → first = true) as Hd1.
  { intros E%Hd0. destruct Hstop as [Hs%bool_decide_eq_true|Hs]; [lia|done]. }
  assert (d = "" → from (offset + size') content = "") as Hd2 by (intros E%Hd0; apply from_end; lia).
  assert (round (Z.of_nat (String.length content)) (offset + size') size' (current + 1) false n) as Hro'.
  { destruct (Z.eq_dec size' 0%Z) as [E0|E0].
    - assert (offset = Z.of_nat (String.length content)) by (apply Hd0; destruct d; [done|simpl in Hlen; lia]).
      destruct first; [|destruct Hstop as [Hs%bool_decide_eq_true|Hs]; [lia|done]].
      destruct (Hfirst eq_refl). split; try done; lia.
    - split; try done; try lia. destruct first; lia. }
  assert (∀ s1 p1 ps1 c old1 l, p1 = mkPart current (etag_of d) size' →
    puts s1 = puts s ++ l → (∀ x, x ∈ l → x = ((b, k, id), N p1) ∧ ¬ stored_part ps0 p1) →
    complete_from ps0 (current + 1) old1 →
    view s1 = (<[(b, k, id) := ps1]> (view s).1, (view s).2) → ps1 !! current = Some c → alike c d →
    (∀ i, (i < current)%Z → ps1 !! i = ps !! i) → reusable ps1 (current + 1) old1 →
    wp (put_all_loop n (mkMulti (bucket Getenv b) k id) (file_reader content) old1
          (Z.of_nat (String.length content)) (offset + size') size' (current + 1) false (acc ++ [p1]))
      (loop_post b k id ps0 content first offset size current acc (view s) (puts s)) (λ c _, c = nil_deref) s1) as Hnext.
  { intros s1 p1 ps1 c old1 l -> Hlog Hnew Hcomp1 Hv1 Hc Hal Hlow Hold1.
    eapply wp_mono; [eapply (IH old1 _ _ _ _ _ s1 ps1); [done|done|by rewrite Hv1 /= lookup_insert_eq|done|done|done]| |done].
    intros r s2 [[Hco Hr] Hsent]. split; [|rewrite Hlog in Hsent; by eapply sent_new_step].
    split; [by rewrite Hco Hv1|]. intros parts E. eapply uploaded_step; eauto. }
  destruct (reuse_scan old current size' _) as [[p|] old'] eqn:Er;
    pose proof (reuse_scan_ok _ _ _ _ _ _ _ Hold Er) as [Hold' Hp];
    pose proof (reuse_scan_complete _ _ _ _ _ _ _ Hcomp Er) as [Hcomp' Hmiss].
  - destruct Hp as (Hn & Hs & He & c & Hc & Hce & Hcs). apply (Hnext s p ps c old' []); try done.
    + by destruct p; simplify_eq/=.
    + by rewrite app_nil_r.
    + by intros x ?%elem_of_nil.
    + by rewrite insert_id //; destruct (view s).
    + by rewrite -Hn.
    + split; [lia|]. by rewrite -Hce.
    + eapply reusable_next; eauto.
  - apply wp_bindR. rewrite -Hlen.
    eapply wp_mono; [apply (wp_conj _ _ _ _ _ _ (wp_putPart b k id current d _ s Hb Hk ltac:(lia))
                              (sends_putPart b k id current d _ _ Hb ltac:(lia) s))| |by intros].
    intros [p|e] s1 [[Hv1 Hok] (l & Hlog & Hl)].
    + destruct (Hok p eq_refl) as [-> Hv']. rewrite Hlen. eapply (Hnext s1 _ (<[current := d]> ps) d old' l).
      * done.
      * done.
      * rewrite Forall_forall in Hl. intros x <-%Hl. split; [done|]. by apply Hmiss.
      * done.
      * rewrite Hv' /with_part. f_equal. apply map_eq. intros u.
        destruct (decide ((b, k, id) = u)) as [<-|Hne].
        -- by rewrite lookup_alter_eq lookup_insert_eq Hps.
        -- by rewrite lookup_alter_ne // lookup_insert_ne.
      * by rewrite lookup_insert_eq.
      * done.
      * intros i Hi. rewrite lookup_insert_ne //. lia.
      * eapply reusable_next; [done|]. intros i Hi. rewrite lookup_insert_ne //. lia.
    + split; [split; [|done]; by destruct Hv1 as [->| ->]|]. by exists l.
Qed.

Lemma wp_PutAll b k id pages content partSize s ps :
  plain_bucket b → k ≠ "" → uploads s !! (b, k, id) = Some ps →
  (26 * S (length (pages_from ps None)) ≤ pages)%nat →
  (0 < partSize < 2 ^ 63)%Z → (Z.of_nat (String.length content) < 2 ^ 62)%Z →
  wp (PutAll pages (mkMulti (bucket Getenv b) k id) (file_reader content) partSize)
    (loop_post b k id ps content true 0 partSize 1 [] (view s) (puts s)) (λ c _, c = nil_deref) s.
Proof.
  intros Hb Hk Hps Hpages Hsz Hlen. apply wp_bind.
  eapply wp_mono; [apply (wp_conj _ _ _ _ _ _ (wp_ListParts b k id pages ps s Hb Hk Hps Hpages)
                            (sends_ListParts pages _ s))| |by intros].
  intros x s1 [[Hv Hx] (l & Hlog & Hl)].
  assert (puts s1 = puts s) as Hputs.
  { destruct l; [by rewrite app_nil_r in Hlog|]. by inversion Hl. }
  destruct x as [old|e].
  - cbn [file_reader rd_size]. rewrite -Hv -Hputs. simpl in Hx.
    assert (∀ p, p ∈ old ↔ stored_part ps p) as Hmem.
    { intros p. rewrite Hx /sort_parts merge_sort_Permutation. apply ml_pages. }
    apply (wp_put_all_loop b k id ps content _ old 0 partSize 1 true [] s1 ps); [done|done|by rewrite Hv| | |].
    + apply Forall_forall. intros p Hp%Hmem _. done.
    + split; [|intros p Hp _; by apply Hmem]. rewrite Hx. apply StronglySorted_merge_sort; apply _.
    + split; try done; lia.
  - simpl in Hx. rewrite Hx. apply wp_ret. split; [split; [by rewrite Hv|done]|].
    exists []. by rewrite app_nil_r.
Qed.

(** ** Completion *)
Lemma numbered_bounds n chunks p : p ∈ numbered n chunks → (n ≤ N p)%Z.
Proof.
  revert n. induction chunks as [|c chunks IH]; intros n; simpl; [by intros ?%elem_of_nil|].
  intros [->|Hp%IH]%elem_of_cons; simpl; lia.
Qed.
Lemma sort_numbered n chunks : sort_parts (numbered n chunks) = numbered n chunks.
Proof.
  apply (Sorted_unique_strong part_le).
  - intros p q Hp Hq. rewrite /sort_parts merge_sort_Permutation in Hp.
    intros H1 H2. assert (N p = N q) as Hn by (rewrite /part_le in H1 H2; lia). clear H1 H2.
    revert n Hp Hq. induction chunks as [|c chunks IH]; intros n; simpl; [by intros ?%elem_of_nil|].
    intros [->|Hp]%elem_of_cons [->|Hq]%elem_of_cons; [done|..].
    + apply numbered_bounds in Hq. simpl in Hn. lia.
    + apply numbered_bounds in Hp. simpl in Hn. lia.
    + eauto.
  - apply Sorted_merge_sort; apply _.
  - apply StronglySorted_Sorted. revert n. induction chunks as [|c chunks IH]; intros n; simpl; constructor; [done|].
    apply Forall_forall. intros p Hp%numbered_bounds. rewrite /part_le /=. lia.
  - by rewrite /sort_parts merge_sort_Permutation.
Qed.

(** What the service finds under the numbers is what it held. *)
Lemma holds_found ps n cs chunks cs' :
  holds ps n cs chunks →
  Forall2 (λ p c, ps !! p.1 = Some c ∧ p.2 = etag_of c) ((λ p, (N p, part_ETag p)) <$> numbered n chunks) cs' →
  cs' = cs.
Proof.
  intros Hh. revert cs'. induction Hh as [n|n c d cs ds Hc Hal Hh IH]; intros cs'; simpl.
  - by inversion 1.
  - inversion 1 as [|? c' ? cs2 [Hc' _] Hrest]; subst. simpl in Hc'. f_equal; [congruence|auto].
Qed.

Definition completed_view b k id (cs : list string)
    (v : gmap upload (gmap Z string) * gmap (string * string) string) :=
  (delete (b, k, id) v.1, <[(b, k) := Join cs ""]> v.2).

Lemma wp_Complete b k id chunks cs ps s :
  plain_bucket b → k ≠ "" → uploads s !! (b, k, id) = Some ps → holds ps 1 cs chunks →
  wp (Complete (mkMulti (bucket Getenv b) k id) (numbered 1 chunks))
    (λ e s', (view s' = view s ∨ view s' = completed_view b k id cs (view s)) ∧
       (e = None → last_refused s' = false → view s' = completed_view b k id cs (view s)))
    (λ _ _, False) s.
Proof.
  intros Hb Hk Hps Hh. rewrite /Complete sort_numbered. cbn [mu_Bucket mu_Key mu_UploadId].
  set (l := _ <$> numbered 1 chunks). set (data := xml_complete l).
  apply wp_bind, wp_prepared_query; [|intros e s' Hv; apply wp_ret; split; [by left|done]].
  intros r s1 Hv1 Hr Hbody. apply wp_bind.
  set (P := λ (v : gmap upload (gmap Z string) * gmap (string * string) string),
              v = view s ∨ v = completed_view b k id cs (view s)).
  eapply wp_mono; [apply (wp_requestRetryLoop_body (λ r v, asks "POST" (obj_url b k) (upload_query id) r ∧
      (∃ pre, data = pre +:+ h_body r) ∧ P v)
      (λ x s', P (view s') ∧ ∀ resp, x = Ok resp → ok_status resp = true → last_refused s' = false →
         view s' = completed_view b k id cs (view s)))| |by intros].
  - intros r2 s2 x rest s3 ((Hm & Hu & Hq) & [pre Hpre] & Hv) E.
    assert (∃ pre, data = pre +:+ rest) as Hrest.
    { destruct (ml_rest (Z.of_nat (String.length data)) r2 s2) as [pre' Hr2]. rewrite E /= in Hr2.
      exists (pre +:+ pre'). by rewrite Hpre Hr2 str_app_assoc. }
    assert (P (view s3) ∧ ∀ resp, x = Ok resp → ok_status resp = true → last_refused s3 = false →
              view s3 = completed_view b k id cs (view s)) as [HP Hok].
    { destruct (decide (String.length (h_body r2) = String.length data)) as [Hlen|Hlen].
      - assert (h_body r2 = data) as Hd by by eapply suffix_whole.
        pose proof (ml_complete b k id l (Z.of_nat (String.length data)) r2 s2 Hb Hk Hm Hu Hq Hd ltac:(by rewrite Hlen)) as Hl.
        rewrite E in Hl. cbv zeta in Hl.
        assert (uploads s3 = uploads s2 ∧ contents s3 = contents s2 → P (view s3)) as Hsame.
        { intros [E1 E2]. by rewrite /view E1 E2. }
        assert ((∃ m cs0, uploads s2 !! (b, k, id) = Some m ∧
          Forall2 (λ p c, m !! p.1 = Some c ∧ p.2 = etag_of c) l cs0 ∧
          uploads s3 = delete (b, k, id) (uploads s2) ∧ contents s3 = <[(b, k) := Join cs0 ""]> (contents s2)) →
          view s3 = completed_view b k id cs (view s)) as Hcomp.
        { intros (m & cs0 & Hm0 & Hf & E1 & E2). destruct Hv as [Hv|Hv].
          - injection Hv as Hv_u Hv_c. rewrite Hv_u Hps in Hm0. injection Hm0 as <-.
            apply (holds_found _ _ _ _ _ Hh) in Hf as ->. by rewrite /view /completed_view E1 E2 /= Hv_u Hv_c.
          - injection Hv as Hv_u Hv_c. by rewrite Hv_u lookup_delete_eq in Hm0. }
        destruct x as [resp|e].
        + destruct (ok_status resp) eqn:Eok, (last_refused s3) eqn:Ela; simpl in Hl;
            (split; [try (by apply Hsame); right; by apply Hcomp|]);
            intros ? [= <-]; try congruence. intros _ _. by apply Hcomp.
        + split; [|done]. destruct Hl as [Hl|Hl]; [by apply Hsame|right; by apply Hcomp].
      - pose proof (ml_short (Z.of_nat (String.length data)) r2 s2 ltac:(lia)) as Hl. rewrite E in Hl.
        destruct Hl as (E1 & E2 & Hx). split; [by rewrite /view E1 E2|]. intros resp -> ?. congruence. }
    destruct x as [resp|e]; [by split|]. by split_and!.
  - intros r2 e s2 (_ & _ & Hv). by split.
  - split_and!; [apply Hr..|exists ""; by rewrite Hbody|by left].
  - intros [resp|e] s2 [HP Hok]; [|by apply wp_ret]. destruct (ok_status resp) eqn:Eok; apply wp_ret; (split; [done|]); [|done].
    intros _. apply (Hok resp eq_refl Eok).
Qed.

Lemma holds_alike ps n cs chunks : holds ps n cs chunks → Forall2 alike cs chunks.
Proof. induction 1; by constructor. Qed.

(** ** Claims *)

(** C36: A multipart upload makes an object of a file and does not send again what is
    there.  For an existing upload, a file below 2^62 bytes and a positive part size:
    [PutAll] returns, or panics on a nil response (which a network error while a part is
    sent causes).  When it reports success, its parts are numbered from one and are the
    pieces of the file, none longer than the given size; the service holds under each
    number content of the same size and hash; and every part that was sent is one that
    the service did not hold with that size and hash before.  [Complete] with these parts
    returns; it has then stored the concatenation of what the service held under the key,
    or nothing, and it has stored it when it reports success, unless that success was an
    error document (a 200 answer that [Complete] does not read).  An error of [PutAll]
    leaves the objects as they were.  The object equals the file as far as size and hash
    of its parts tell. *)
Theorem multipart_upload b k id pages content partSize (s : T) ps o s1 :
  plain_bucket b → k ≠ "" → uploads s !! (b, k, id) = Some ps →
  (26 * S (length (pages_from ps None)) ≤ pages)%nat →
  (0 < partSize < 2 ^ 63)%Z → (Z.of_nat (String.length content) < 2 ^ 62)%Z →
  PutAll pages (mkMulti (bucket Getenv b) k id) (file_reader content) partSize s = (o, s1) →
  match o with
  | Crash c => c = nil_deref
  | Ret (Err _) => contents s1 = contents s
  | Ret (Ok parts) =>
      contents s1 = contents s ∧ ∃ chunks cs ps1, parts = numbered 1 chunks ∧ Join chunks "" = content ∧
        chunks ≠ [] ∧ Forall (λ c, Z.of_nat (String.length c) ≤ partSize)%Z chunks ∧
        uploads s1 !! (b, k, id) = Some ps1 ∧ holds ps1 1 cs chunks ∧
        (∃ l, puts s1 = puts s ++ l ∧
           ∀ x, x ∈ l → ∃ p, x = ((b, k, id), N p) ∧ p ∈ parts ∧ ¬ stored_part ps p) ∧
        ∀ o2 s2, Complete (mkMulti (bucket Getenv b) k id) parts s1 = (o2, s2) →
          ∃ e, o2 = Ret e ∧ (contents s2 = contents s ∨ contents s2 = <[(b, k) := Join cs ""]> (contents s)) ∧
            (e = None → last_refused s2 = false → contents s2 = <[(b, k) := Join cs ""]> (contents s))
  end.
Proof.
  intros Hb Hk Hps Hpages Hsz Hlen E.
  pose proof (wp_PutAll b k id pages content partSize s ps Hb Hk Hps Hpages Hsz Hlen) as Hw.
  apply (wp_inv _ _ _ _ _ _ Hw) in E. destruct o as [[parts|e]|c]; [|by destruct E as [[? ?] ?]|done].
  destruct E as [[Hc Hup] (l & Hlog & Hnew)].
  destruct (Hup parts eq_refl) as (ps0 & ps1 & chunks & cs & _ & Hv & Hparts & Hch & Hh & _).
  assert (from 0 content = content) as E0 by (rewrite /from Nat.sub_0_r; by apply substring_0).
  assert (uploads s1 !! (b, k, id) = Some ps1) as Hps1.
  { change (uploads s1) with (view s1).1. rewrite Hv /=. apply lookup_insert_eq. }
  rewrite E0 in Hch. split; [done|]. exists chunks, cs, ps1. split_and!; try done.
  - destruct Hch as [[Hp _]|(_ & -> & ->)]; [by eapply pieces_Join|done].
  - destruct Hch as [[_ Hp]|(_ & _ & ->)]; [by apply Hp|done].
  - destruct Hch as [[Hp _]|(_ & -> & ->)]; [by eapply pieces_sizes|]. constructor; [simpl; lia|constructor].
  - exists l. split; [done|]. by apply Hnew.
  - intros o2 s2 E2. rewrite Hparts in E2.
    pose proof (wp_Complete b k id chunks cs ps1 s1 Hb Hk Hps1 Hh) as Hw2.
    destruct (wp_total _ _ _ _ _ Hw2 E2) as (e & -> & Hview & Hnone). exists e.
    change (contents s1) with (view s1).2 in *. change (contents s2) with (view s2).2. simpl in Hc.
    split_and!; [done| |].
    + destruct Hview as [->| ->]; [by left|right]. by rewrite /completed_view /= Hc.
    + intros -> Hr. rewrite (Hnone eq_refl Hr) /completed_view /= Hc. done.
Qed.
End laws.

(** ** A simulated service

    Documents are numbers that encode what they say; for each request the network error
    that hits it, if any. *)
Record msim := mkMsim {
  ms_uploads : gmap upload (gmap Z string);
  ms_objects : gmap (string * string) string;
  ms_clock : Z;
  ms_reqs : Z;
  ms_faults : list (option error);
  ms_refused : bool;
  ms_puts : list (upload * Z);
}.

Fixpoint bits (p : positive) : string :=
  match p with xH => "" | xO p => String "0" (bits p) | xI p => String "1" (bits p) end.
Fixpoint unbits (x : string) : positive :=
  match x with "" => xH | String c x => if decide (c = "0"%char) then xO (unbits x) else xI (unbits x) end.
Lemma unbits_bits p : unbits (bits p) = p.
Proof. induction p as [p IH|p IH|]; [|cbn [bits unbits]|done]; [cbn [bits unbits]|]; by rewrite /= IH. Qed.
Definition doc {A} `{Countable A} (x : A) : string := bits (encode x).
Definition undoc {A} `{Countable A} (x : string) : option A := countable.decode (unbits x).
#[local] Arguments doc : simpl never.
#[local] Arguments undoc : simpl never.
Lemma undoc_doc {A} `{Countable A} (x : A) : undoc (doc x) = Some x.
Proof. rewrite /undoc /doc unbits_bits. apply countable.decode_encode. Qed.

(** The parts of an upload as the listing shows them. *)
Definition sim_etag (c : string) : string := quoted (hex c).
Definition sim_listing (ps : gmap Z string) : list (Z * string * Z) :=
  (λ '(n, c), (n, sim_etag c, Z.of_nat (String.length c))) <$> map_to_list ps.

Definition query_of (r : hrequest) (name : string) : option string :=
  match h_query r !! name with Some (v :: _) => Some v | _ => None end.
Definition sim_upload (r : hrequest) : option upload :=
  match sim_object (h_url r), query_of r "uploadId" with
  | Some (b, k), Some id => Some (b, k, id)
  | _, _ => None
  end.
Definition no_upload : hresponse := mkHresp 404 "404 Not Found" "NoSuchUpload" None ∅.

(** The contents of the parts that a completion names, when each is there. *)
Fixpoint gather (ps : gmap Z string) (l : list (Z * string)) : option (list string) :=
  match l with
  | [] => Some []
  | (n, e) :: l =>
      match ps !! n with
      | Some c => if decide (e = sim_etag c) then cs ← gather ps l; Some (c :: cs) else None
      | None => None
      end
  end.

Definition tick (s : msim) : msim :=
  mkMsim (ms_uploads s) (ms_objects s) (ms_clock s + 30000000) (ms_reqs s + 1) (tail (ms_faults s)) false (ms_puts s).
Definition set_store (u : gmap upload (gmap Z string)) (o : gmap (string * string) string) (s : msim) : msim :=
  mkMsim u o (ms_clock s) (ms_reqs s) (ms_faults s) (ms_refused s) (ms_puts s).
(** A request that sends a part is noted. *)
Definition noted (r : hrequest) (s : msim) : msim :=
  match sim_upload r, query_of r "partNumber" ≫= Memcache.dec (2 ^ 63) with
  | Some u, Some n =>
      mkMsim (ms_uploads s) (ms_objects s) (ms_clock s) (ms_reqs s) (ms_faults s) (ms_refused s)
        (ms_puts s ++ [(u, Z.of_N n)])
  | _, _ => s
  end.
(** The network does not fail with an error of the service. *)
Definition net_error (e : error) : error := match e with S3Error _ _ _ => EOF | _ => e end.

#[local] Instance msim_http : Http msim := {
  http_url_ok _ := true;
  http_do r s :=
    match ms_faults s with
    | Some e :: _ => (Err (net_error e), tick s)
    | _ =>
        match sim_upload r with
        | Some u =>
            match ms_uploads s !! u with
            | Some ps => (Ok (mkHresp 200 "200 OK" (doc (sim_listing ps)) None ∅), tick s)
            | None => (Ok no_upload, tick s)
            end
        | None => (Ok no_upload, tick s)
        end
    end;
  time_now s := (ms_clock s, mkMsim (ms_uploads s) (ms_objects s) (ms_clock s + 1) (ms_reqs s) (ms_faults s) (ms_refused s) (ms_puts s));
  time_sleep d s := mkMsim (ms_uploads s) (ms_objects s) (ms_clock s + d) (ms_reqs s) (ms_faults s) (ms_refused s) (ms_puts s);
  xml_error x := mkDoc x "";
  xml_list _ := mkListResp "" "" "" "" "" 0 false [] [];
}.

(** The answer to a request whose body has arrived. *)
Definition msim_serve (r : hrequest) (s : msim) : hresponse * msim :=
  match sim_upload r with
  | None => (no_upload, s)
  | Some u =>
      match ms_uploads s !! u with
      | None => (no_upload, s)
      | Some ps =>
          if decide (h_method r = "PUT") then
            match query_of r "partNumber" ≫= Memcache.dec (2 ^ 63) with
            | Some n =>
                (mkHresp 200 "200 OK" "" None (header_Set "ETag" (sim_etag (h_body r)) ∅),
                 set_store (alter (insert (Z.of_N n) (h_body r)) u (ms_uploads s)) (ms_objects s) s)
            | None => (no_upload, s)
            end
          else
            match undoc (h_body r) ≫= gather ps with
            | Some cs => (mkHresp 200 "200 OK" "" None ∅,
                          set_store (delete u (ms_uploads s)) (<[u.1 := Join cs ""]> (ms_objects s)) s)
            | None => (mkHresp 400 "400 Bad Request" "InvalidPart" None ∅, s)
            end
      end
  end.

#[local] Instance msim_body : HttpBody msim := {
  http_send len r s :=
    let s1 := noted r (tick s) in
    match ms_faults s with
    | Some e :: _ => (Err (net_error e), "", s1)
    | _ =>
        if decide (len = Z.of_nat (String.length (h_body r))) then
          let '(resp, s') := msim_serve r s1 in (Ok resp, "", s')
        else (Err (ErrorS "http: ContentLength with another Body length"), "", s1)
    end;
  xml_listMulti _ := Err EOF;
  xml_uploadId _ := Err EOF;
  xml_listParts x :=
    match undoc (A := list (Z * string * Z)) x with
    | Some l => Ok (mkListParts "" false ((λ '(n, e, z), mkPart n e z) <$> l))
    | None => Err EOF
    end;
  xml_complete l := doc l;
  md5 c := c;
  base64 c := c;
  time_zone := 0;
}.

#[local] Instance msim_clock_laws : ClockLaws msim.
Proof.
  refine {| clock := ms_clock; reqs := ms_reqs |}.
  - intros s. simpl. split_and!; [done|lia|done].
  - intros d s Hd. simpl. split; [lia|done].
  - intros r s. simpl. repeat case_match; simpl; (split; [lia|done]).
Defined.
#[local] Instance msim_send_clock : SendClock msim.
Proof.
  split. intros len r s. simpl. rewrite /msim_serve.
  assert (ms_clock (noted r (tick s)) = ms_clock s + 30000000)%Z as E by (rewrite /noted; repeat case_match; done).
  repeat case_match; simplify_eq/=; lia.
Defined.

Lemma query_of_part id n r : h_query r = part_query id n →
  query_of r "uploadId" = Some id ∧ query_of r "partNumber" = Some (pretty n).
Proof. intros E. rewrite /query_of E /part_query /values_Add. split; reflexivity. Qed.
Lemma query_of_list id mk r : h_query r = list_query id mk → query_of r "uploadId" = Some id.
Proof. intros E. rewrite /query_of E /list_query /values_Add /values_Set. by destruct mk. Qed.
Lemma query_of_upload id r : h_query r = upload_query id → query_of r "uploadId" = Some id.
Proof. intros E. by rewrite /query_of E. Qed.
Lemma sim_upload_url b k id r :
  plain_bucket b → h_url r = obj_url b k → query_of r "uploadId" = Some id → sim_upload r = Some (b, k, id).
Proof. intros Hb Hu Hq. by rewrite /sim_upload Hu sim_object_url // Hq. Qed.

Lemma dec_part n : (1 ≤ n < 2 ^ 63)%Z → Memcache.dec (2 ^ 63) (pretty n) = Some (Z.to_N n).
Proof.
  intros Hn. destruct n as [|p|p]; try lia. change (pretty (Zpos p)) with (pretty (Npos p)).
  rewrite Memcache.dec_pretty; [done|lia].
Qed.

Definition sim_pages (ps : gmap Z string) (_ : option string) : list (list Part) :=
  [(λ '(n, e, z), mkPart n e z) <$> sim_listing ps].
Lemma sim_pages_stored ps p : p ∈ mjoin (sim_pages ps None) ↔ stored_part ps p.
Proof.
  rewrite /sim_pages /= app_nil_r /sim_listing -list_fmap_compose list_elem_of_fmap. split.
  - intros ([n c] & -> & Hin%elem_of_map_to_list). by exists c.
  - intros (c & Hc & He & Hz). exists (N p, c). split; [by destruct p; simplify_eq/=|by apply elem_of_map_to_list].
Qed.
Lemma noted_view r s :
  ms_uploads (noted r s) = ms_uploads s ∧ ms_objects (noted r s) = ms_objects s ∧ ms_refused (noted r s) = ms_refused s.
Proof. rewrite /noted. by repeat case_match. Qed.
Lemma msim_serve_puts r s : ms_puts (msim_serve r s).2 = ms_puts s.
Proof. rewrite /msim_serve. by repeat case_match. Qed.
Lemma net_error_code e : hasCode (net_error e) "NoSuchUpload" = false.
Proof. by destruct e. Qed.

Lemma gather_Forall2 ps l cs :
  gather ps l = Some cs → Forall2 (λ p c, ps !! p.1 = Some c ∧ p.2 = sim_etag c) l cs.
Proof.
  revert cs. induction l as [|[n e] l IH]; intros cs; simpl; [by intros [= <-]|].
  destruct (ps !! n) as [c|] eqn:E; [|done]. case_decide; [|done].
  destruct (gather ps l) as [cs'|]; [|done]. intros [= <-]. constructor; auto.
Qed.

#[local] Instance msim_laws : MultiLaws msim.
Proof.
  refine {| uploads := ms_uploads; contents := ms_objects; last_refused := ms_refused;
            pages_from := sim_pages; puts := ms_puts |}; simpl; try done.
  - apply sim_pages_stored.
  - intros r s. by repeat case_match.
  - intros b k id n len r s Hb Hn Hm Hu Hq. destruct (query_of_part id n r Hq) as [Hq1 Hq2].
    assert (ms_puts (noted r (tick s)) = ms_puts s ++ [((b, k, id), n)]) as E.
    { rewrite /noted (sim_upload_url b k id) // Hq2 /= dec_part //= Z2N.id //. lia. }
    destruct (ms_faults s) as [|[e|] fs]; [|done|]; (case_decide; [|done]);
      rewrite -E -(msim_serve_puts r (noted r (tick s))); by destruct (msim_serve _ _).
  - intros len r s. exists (h_body r). rewrite (_ : snd _ = ""); [by rewrite str_app_nil_r|].
    repeat case_match; by simplify_eq.
  - intros len r s Hlen. destruct (noted_view r (tick s)) as (? & ? & _). rewrite decide_False //.
    by destruct (ms_faults s) as [|[e|] fs].
  - intros b k id n len r s Hb Hk Hn Hm Hu Hq ->. destruct (query_of_part id n r Hq) as [Hq1 Hq2].
    destruct (noted_view r (tick s)) as (Eup & Eob & Eref). set (s1 := noted r (tick s)) in *. clearbody s1. simpl in Eup, Eob, Eref.
    rewrite decide_True // /msim_serve (sim_upload_url b k id) //.
    destruct (ms_faults s) as [|[e|] fs]; cbv zeta; [|by split; [|left]|].
    all: rewrite Eup; destruct (ms_uploads s !! (b, k, id)) as [ps|] eqn:Eu; cbv zeta beta iota; [|by split].
    all: rewrite decide_True // Hq2 /= dec_part // Z2N.id; [|lia].
    all: split; [done|]; rewrite /ok_status /=; split_and!; [by eexists|by rewrite ?Eup|reflexivity].
  - intros b k id mk r s Hb Hk Hm Hu Hq. rewrite (sim_upload_url b k id) //; [|by eapply query_of_list].
    destruct (ms_faults s) as [|[e|] fs]; [|split_and!; [done..|apply net_error_code]|].
    all: destruct (ms_uploads s !! (b, k, id)) as [ps|] eqn:Eu; simpl; (split_and!; [done..|]); [|done].
    all: rewrite undoc_doc; by exists ps.
  - intros b k id l len r s Hb Hk Hm Hu Hq Hbody ->.
    destruct (noted_view r (tick s)) as (Eup & Eob & Eref). set (s1 := noted r (tick s)) in *. clearbody s1. simpl in Eup, Eob, Eref.
    rewrite decide_True // /msim_serve (sim_upload_url b k id) //; [|by eapply query_of_upload].
    rewrite Hm Hbody /= Eup.
    destruct (ms_faults s) as [|[e|] fs]; [|by left|].
    all: destruct (ms_uploads s !! (b, k, id)) as [ps|] eqn:Eu; simpl; [|by rewrite Eup Eob].
    all: rewrite undoc_doc /=; destruct (gather ps l) as [cs|] eqn:Eg; simpl; [|by rewrite Eup Eob].
    all: rewrite Eref /=; exists ps, cs; split_and!; [done|by apply gather_Forall2|by rewrite ?Eup|by rewrite ?Eob].
Defined.

#[local] Existing Instance sim_crypto.

(** Seven bytes in parts of three; the second part is there already, the first one is
    there with other content. *)
Definition wit_upload : upload := ("files", "big", "u1").
Definition wit_multi : msim :=
  mkMsim {[wit_upload := {[1%Z := "xyz"; 2%Z := "def"]}]} ∅ 0 0 [] false [].
Definition wit_Multi : Multi := mkMulti (bucket wit_env "files") "big" "u1".
Definition wit_parts : list Part := numbered (T := msim) 1 ["abc"; "def"; "g"].

Lemma wit_put_all : (PutAll 52 wit_Multi (file_reader "abcdefg") 3 wit_multi).1 = Ret (Ok wit_parts).
Proof. vm_compute. reflexivity. Qed.

Lemma wit_sent (s1 : msim) l (P : upload * Z → Prop) :
  puts s1 = puts wit_multi ++ l → (∀ x, x ∈ l → P x) → ∀ x, x ∈ ms_puts s1 → P x.
Proof. intros Hl Hnew x. simpl in Hl. rewrite Hl. apply Hnew. Qed.

Lemma multipart_upload_witness :
  let s1 := (PutAll 52 wit_Multi (file_reader "abcdefg") 3 wit_multi).2 in
  ms_puts s1 = [(wit_upload, 1%Z); (wit_upload, 3%Z)] ∧
  ∃ chunks cs, wit_parts = numbered 1 chunks ∧ Join chunks "" = "abcdefg" ∧
    (∀ x, x ∈ ms_puts s1 → ∃ p, x = (wit_upload, N p) ∧ p ∈ wit_parts ∧
       ¬ stored_part {[1%Z := "xyz"; 2%Z := "def"]} p) ∧
    ms_objects (Complete wit_Multi wit_parts s1).2 = {[("files", "big") := Join cs ""]}.
Proof.
  intros s1. split; [vm_compute; reflexivity|].
  assert (plain_bucket "files") as Hb by (split; vm_compute; reflexivity).
  pose proof (multipart_upload wit_env "files" "big" "u1" 52 "abcdefg" 3 wit_multi {[1%Z := "xyz"; 2%Z := "def"]}
    (Ret (Ok wit_parts)) s1 Hb ltac:(done) ltac:(reflexivity) ltac:(simpl; lia) ltac:(lia)
    ltac:(vm_compute; reflexivity) (run_split _ _ _ wit_put_all)) as H.
  destruct H as (_ & chunks & cs & ps1 & Hp & Hj & _ & _ & _ & _ & (l & Hl & Hnew) & Hc).
  exists chunks, cs. split; [exact Hp|]. split; [exact Hj|]. split.
  { exact (wit_sent _ _ _ Hl Hnew). }
  destruct (Complete wit_Multi wit_parts s1) as [o2 s2] eqn:E.
  destruct (Hc o2 s2 E) as (e & -> & _ & Hn).
  assert ((Complete wit_Multi wit_parts s1).1 = Ret None ∧ ms_refused (Complete wit_Multi wit_parts s1).2 = false)
    as [Hr Href] by (split; vm_compute; reflexivity).
  rewrite E in Hr, Href. injection Hr as ->. simpl. exact (Hn eq_refl Href).
Defined.

(** A network error while a part is sent is a panic, not an error; and an attempt that is
    repeated sends what the first one has left of the body, which is refused, so that a
    transient failure ends in the same panic. *)
Definition wit_faulty (e : error) : msim := mkMsim {[wit_upload := ∅]} ∅ 0 0 [Some e] false [].
Example put_part_panics :
  (PutPart wit_Multi 1 (Ok "abc") (wit_faulty (ErrorS "connection refused"))).1 = Crash nil_deref.
Proof. vm_compute. reflexivity. Qed.
Example put_part_retry_is_empty :
  let r := PutPart wit_Multi 1 (Ok "abc") (wit_faulty EOF) in
  r.1 = Crash nil_deref ∧ ms_reqs r.2 = 2%Z.
Proof. intros r. split; vm_compute; reflexivity. Qed.
End AmzMultiCorrect.
