(* ===== verification/GoRegexp.v ===== *)
(** * Go's regular expressions

    The part of the package [regexp] that route templates are made of: literals,
    escapes, classes, groups, alternatives, repetitions, anchors.  [Compile] parses
    the syntax; a pattern with flags, word boundaries, Unicode or POSIX classes is
    answered with an error here.  Matching tries alternatives in Go's order of
    preference, leftmost first, and goes byte by byte, which is rune by rune for
    ASCII.  [rstep] is the relation a regular expression stands for, and
    [MatchString_spec] says that the matcher decides it. *)

From S2P Require Import Prelude GoStrings GoUrl.

Module GoRegexp.

(** ** Syntax *)

(** [RRep n m greedy r]: at least [n] times [r], at most [m] times.  A group that
    captures has a name, which is empty when it has none. *)
Inductive re :=
| REmpty
| RSet (neg : bool) (ranges : list (ascii * ascii))
| RBegin
| RFinish
| RCat (a b : re)
| RAlt (a b : re)
| RRep (n : nat) (m : option nat) (greedy : bool) (a : re)
| RGroup (name : string) (a : re).

Definition RChar (c : ascii) : re := RSet false [(c, c)].

(** The capturing groups in the order of their opening parentheses. *)
Fixpoint group_names (r : re) : list string :=
  match r with
  | REmpty | RSet _ _ | RBegin | RFinish => []
  | RCat a b | RAlt a b => group_names a ++ group_names b
  | RRep _ _ _ a => group_names a
  | RGroup n a => n :: group_names a
  end.
Definition ngroups (r : re) : nat := length (group_names r).

(** [regexp.Regexp] *)
Record Regexp := mkRe { re_text : string; re_ast : re }.

(** [QuoteMeta] *)
Definition special : string := "\.+*?()|[]{}^$".
Definition quote_char (c : ascii) : string :=
  if has_char c special then String "\" (String c "") else String c "".
Definition QuoteMeta : string → string := flat_map_str quote_char.

(** ** Parsing *)
Definition parse_error {A} (what : string) : result A := Err (ErrorS ("error parsing regexp: " +:+ what)).
Definition outside {A} : result A := parse_error "syntax outside the model".

Definition digit (c : ascii) : bool := has_char c "0123456789".
Definition letter (c : ascii) : bool := alnum c && negb (digit c).
Definition word (c : ascii) : bool := alnum c || bool_decide (c = "_"%char).
Definition chr (n : N) : ascii := ascii_of_N n.

(** [\d], [\s], [\w] and their complements. *)
Definition perl_ranges (c : ascii) : option (list (ascii * ascii)) :=
  let span l := Some ((λ p : N * N, (chr p.1, chr p.2)) <$> l) in
  match c with
  | "d"%char => span [(48, 57)]%N
  | "D"%char => span [(0, 47); (58, 255)]%N
  | "s"%char => span [(9, 10); (12, 13); (32, 32)]%N
  | "S"%char => span [(0, 8); (11, 11); (14, 31); (33, 255)]%N
  | "w"%char => span [(48, 57); (65, 90); (95, 95); (97, 122)]%N
  | "W"%char => span [(0, 47); (58, 64); (91, 94); (96, 96); (123, 255)]%N
  | _ => None
  end.

(** An escaped byte that stands for one byte. *)
Definition escape_char (c : ascii) : option ascii :=
  match c with
  | "a"%char => Some (chr 7) | "f"%char => Some (chr 12) | "n"%char => Some (chr 10)
  | "r"%char => Some (chr 13) | "t"%char => Some (chr 9) | "v"%char => Some (chr 11)
  | _ => if alnum c || bool_decide (128 ≤ N_of_ascii c)%N then None else Some c
  end.

(** What follows a backslash. *)
Definition escape (s : string) : result (re * string) :=
  match s with
  | "" => parse_error "trailing backslash at end of expression"
  | String c s =>
      match perl_ranges c, escape_char c with
      | Some l, _ => Ok (RSet false l, s)
      | None, Some d => Ok (RChar d, s)
      | None, None =>
          if decide (c = "A"%char) then Ok (RBegin, s)
          else if decide (c = "z"%char) then Ok (RFinish, s)
          else outside
      end
  end.

(** One byte of a class. *)
Definition class_char (s : string) : result (ascii * string) :=
  match strip_prefix "\" s with
  | Some "" => parse_error "trailing backslash at end of expression"
  | Some (String c s) => match escape_char c with Some d => Ok (d, s) | None => outside end
  | None =>
      match s with
      | "" => parse_error "missing closing ]"
      | String c s => Ok (c, s)
      end
  end.
Definition class_perl (s : string) : option (list (ascii * ascii) * string) :=
  match strip_prefix "\" s with
  | Some (String c s) => (λ l, (l, s)) <$> perl_ranges c
  | _ => None
  end.
(** A range of bytes, or one byte; a hyphen before the closing bracket is itself. *)
Definition class_range (s : string) : result (ascii * ascii * string) :=
  match class_char s with
  | Err e => Err e
  | Ok (lo, s) =>
      match strip_prefix "-" s with
      | None => Ok (lo, lo, s)
      | Some t =>
          if bool_decide (t = "") || bool_decide (is_Some (strip_prefix "]" t)) then Ok (lo, lo, s)
          else
            match class_char t with
            | Err e => Err e
            | Ok (hi, s) =>
                if decide (N_of_ascii hi < N_of_ascii lo)%N then parse_error "invalid character class range"
                else Ok (lo, hi, s)
            end
      end
  end.

(** The items of a class up to its bracket; a bracket that comes first is an item. *)
Fixpoint class_items (f : nat) (first : bool) (acc : list (ascii * ascii)) (s : string) :
    result (list (ascii * ascii) * string) :=
  match f with
  | O => parse_error "out of fuel"
  | S f =>
      match (if first then None else strip_prefix "]" s) with
      | Some s => Ok (acc, s)
      | None =>
          match strip_prefix "[:" s, class_perl s with
          | Some _, _ => outside
          | None, Some (l, s) => class_items f false (acc ++ l) s
          | None, None =>
              match class_range s with
              | Err e => Err e
              | Ok (lo, hi, s) => class_items f false (acc ++ [(lo, hi)]) s
              end
          end
      end
  end.
Definition class (f : nat) (s : string) : result (re * string) :=
  let '(neg, s) := match strip_prefix "^" s with Some s => (true, s) | None => (false, s) end in
  match class_items f true [] s with
  | Err e => Err e
  | Ok (l, s) => Ok (RSet neg l, s)
  end.

(** [{n}], [{n,}] and [{n,m}] behind the brace; anything else is literal text.
    A number of more than one digit does not start with 0. *)
Fixpoint take_digits (s : string) : string * string :=
  match s with
  | "" => ("", "")
  | String c s' =>
      if digit c then let '(d, r) := take_digits s' in (String c d, r) else ("", s)
  end.
Fixpoint digits_value (acc : Z) (s : string) : Z :=
  match s with
  | "" => acc
  | String c s => digits_value (acc * 10 + Z.of_N (N_of_ascii c) - 48) s
  end.
Definition repeat_number (s : string) : option (Z * string) :=
  let '(d, r) := take_digits s in
  if bool_decide (d = "") || (HasPrefix d "0" && bool_decide (d ≠ "0")) then None
  else Some (digits_value 0 d, r).
Definition repeat (s : string) : option (Z * option Z * string) :=
  match repeat_number s with
  | None => None
  | Some (n, s) =>
      match strip_prefix "}" s, strip_prefix ",}" s, strip_prefix "," s with
      | Some s, _, _ => Some (n, Some n, s)
      | None, Some s, _ => Some (n, None, s)
      | None, None, Some s =>
          match repeat_number s with
          | Some (m, s) => (λ s, (n, Some m, s)) <$> strip_prefix "}" s
          | None => None
          end
      | None, None, None => None
      end
  end.

(** The repetition operator at the start of the text, if there is one. *)
Definition repeat_size (n : Z) (m : option Z) : bool :=
  bool_decide (n ≤ 1000)%Z && match m with Some m => bool_decide (n ≤ m ≤ 1000)%Z | None => true end.
Definition rep_op (s : string) : result (option (nat * option nat * string)) :=
  match strip_prefix "*" s, strip_prefix "+" s, strip_prefix "?" s, strip_prefix "{" s with
  | Some s, _, _, _ => Ok (Some (0, None, s))
  | _, Some s, _, _ => Ok (Some (1, None, s))
  | _, _, Some s, _ => Ok (Some (0, Some 1, s))
  | _, _, _, Some s =>
      match repeat s with
      | None => Ok None
      | Some (n, m, s) =>
          if repeat_size n m then Ok (Some (Z.to_nat n, Z.to_nat <$> m, s))
          else parse_error "invalid repeat count"
      end
  | _, _, _, _ => Ok None
  end.
Definition suffix (a : re) (s : string) : result (re * string) :=
  match rep_op s with
  | Err e => Err e
  | Ok None => Ok (a, s)
  | Ok (Some (n, m, s)) =>
      let '(greedy, s) := match strip_prefix "?" s with Some s => (false, s) | None => (true, s) end in
      match rep_op s with
      | Err e => Err e
      | Ok None => Ok (RRep n m greedy a, s)
      | Ok (Some _) => parse_error "invalid nested repetition operator"
      end
  end.

(** An atom that is not a group; [c] is its first byte. *)
Definition atom (f : nat) (c : ascii) (s : string) : result (re * string) :=
  if decide (c = "["%char) then class f s
  else if decide (c = "."%char) then Ok (RSet true [(chr 10, chr 10)], s)
  else if decide (c = "^"%char) then Ok (RBegin, s)
  else if decide (c = "$"%char) then Ok (RFinish, s)
  else if decide (c = "\"%char) then escape s
  else
    match rep_op (String c s) with
    | Err e => Err e
    | Ok (Some _) => parse_error "missing argument to repetition operator"
    | Ok None => Ok (RChar c, s)
    end.

(** What follows an opening parenthesis: [None] does not capture. *)
Definition group_open (s : string) : result (option string * string) :=
  match strip_prefix "?P<" s with
  | Some s =>
      match take_until ">"%char s with
      | Some (name, s) =>
          if bool_decide (name ≠ "") && all_chars word name then Ok (Some name, s)
          else parse_error "invalid named capture"
      | None => parse_error "invalid named capture"
      end
  | None =>
      match strip_prefix "?:" s with
      | Some s => Ok (None, s)
      | None => match strip_prefix "?" s with Some _ => outside | None => Ok (Some "", s) end
      end
  end.

Definition close_alt (alts : option re) (cat : re) : re :=
  match alts with Some a => RAlt a cat | None => cat end.

(** An expression up to the end of the text or to a parenthesis that closes it:
    [alts] are the alternatives before it, [cat] what was read of the last one. *)
Fixpoint parse (f : nat) (alts : option re) (cat : re) (s : string) : result (re * string) :=
  match f with
  | O => parse_error "out of fuel"
  | S f =>
      match s with
      | "" => Ok (close_alt alts cat, "")
      | String c s' =>
          if decide (c = ")"%char) then Ok (close_alt alts cat, s)
          else if decide (c = "|"%char) then parse f (Some (close_alt alts cat)) REmpty s'
          else
            match
              (if decide (c = "("%char) then
                 match group_open s' with
                 | Err e => Err e
                 | Ok (name, s) =>
                     match parse f None REmpty s with
                     | Err e => Err e
                     | Ok (r, s) =>
                         match strip_prefix ")" s with
                         | Some s => Ok (match name with Some n => RGroup n r | None => r end, s)
                         | None => parse_error "missing closing )"
                         end
                     end
                 end
               else atom f c s')
            with
            | Err e => Err e
            | Ok (a, s) =>
                match suffix a s with
                | Err e => Err e
                | Ok (a, s) => parse f alts (RCat cat a) s
                end
            end
      end
  end.

(** [regexp.Compile] *)
Definition Compile (s : string) : result Regexp :=
  match parse (S (String.length s)) None REmpty s with
  | Err e => Err e
  | Ok (r, "") => Ok (mkRe s r)
  | Ok _ => parse_error "unexpected )"
  end.

(** [SubexpNames] *)
Definition SubexpNames (r : Regexp) : list string := "" :: group_names (re_ast r).

(** ** Matching

    A matcher of an expression is given what to do with the rest of the text; the
    texts of the groups that have been closed are in [caps]. *)
Definition caps := gmap nat string.
Definition cont : Type := nat → string → caps → option caps.

Definition in_set (neg : bool) (l : list (ascii * ascii)) (c : ascii) : bool :=
  xorb neg (existsb (λ p, bool_decide (N_of_ascii p.1 ≤ N_of_ascii c ≤ N_of_ascii p.2)%N) l).

Definition orelse {A} (x y : option A) : option A := match x with Some _ => x | None => y end.
Definition prefer {A} (greedy : bool) (again stop : option A) : option A :=
  if greedy then orelse again stop else orelse stop again.

Section loops.
Context (greedy : bool) (body : cont → cont) (K : cont).
(** Any number of rounds; one that takes nothing is not a round. *)
Fixpoint star (f : nat) : cont := λ pos s cs,
  prefer greedy
    (match f with
     | O => None
     | S f => body (λ pos' s' cs', if decide (String.length s' < String.length s)%nat
                                   then star f pos' s' cs' else None) pos s cs
     end)
    (K pos s cs).
(** One round, and more unless it took nothing. *)
Definition plus : cont := λ pos s cs,
  body (λ pos' s' cs', if decide (String.length s' < String.length s)%nat
                       then star (String.length s') pos' s' cs' else K pos' s' cs') pos s cs.
(** At most [e] rounds. *)
Fixpoint upto (e : nat) : cont := λ pos s cs,
  match e with
  | O => K pos s cs
  | S e => prefer greedy (body (upto e) pos s cs) (K pos s cs)
  end.
(** [n] rounds and then [L]. *)
Fixpoint times (n : nat) (L : cont) : cont :=
  match n with O => L | S n => body (times n L) end.
Definition rep (n : nat) (m : option nat) : cont :=
  match m with
  | Some m => times n (upto (m - n))
  | None => match n with
            | O => λ pos s cs, star (String.length s) pos s cs
            | S n => times n plus
            end
  end.
End loops.

(** [k] is the number of the first group in [r]. *)
Fixpoint rmatch (r : re) (k : nat) (K : cont) : cont :=
  match r with
  | REmpty => K
  | RSet neg l => λ pos s cs,
      match s with
      | String c s => if in_set neg l c then K (S pos) s cs else None
      | "" => None
      end
  | RBegin => λ pos s cs, match pos with O => K pos s cs | _ => None end
  | RFinish => λ pos s cs, match s with "" => K pos s cs | _ => None end
  | RCat a b => rmatch a k (rmatch b (k + ngroups a) K)
  | RAlt a b => λ pos s cs, orelse (rmatch a k K pos s cs) (rmatch b (k + ngroups a) K pos s cs)
  | RRep n m g a => rep g (rmatch a k) K n m
  | RGroup _ a => λ pos s cs,
      rmatch a (S k) (λ pos' s' cs',
        K pos' s' (<[k := String.substring 0 (String.length s - String.length s') s]> cs')) pos s cs
  end.

(** The leftmost match. *)
Fixpoint search (r : re) (pos : nat) (s : string) : option caps :=
  orelse (rmatch r 0 (λ _ _ cs, Some cs) pos s ∅)
    (match s with "" => None | String _ s => search r (S pos) s end).

(** [MatchString]; [FindStringSubmatch], without the text of the whole match. *)
Definition MatchString (r : Regexp) (s : string) : bool := bool_decide (is_Some (search (re_ast r) 0 s)).
Definition FindStringSubmatch (r : Regexp) (s : string) : option (list string) :=
  (λ cs : caps, (λ i, default "" (cs !! i)) <$> seq 0 (ngroups (re_ast r))) <$> search (re_ast r) 0 s.

Definition sub (p s : string) : option (list string) :=
  match Compile p with Ok r => FindStringSubmatch r s | Err _ => None end.
Example sub1 : sub "^/a/(?P<v0>[^/]+)/(?P<v1>[0-9]+)[/]?$" "/a/xyz/42/" = Some ["xyz"; "42"].
Proof. vm_compute. reflexivity. Qed.
Example sub2 : sub "(a|ab)(c|bcd)(d*)" "xabcd" = Some ["a"; "bcd"; ""].
Proof. vm_compute. reflexivity. Qed.
Example sub3 : sub "^(?:(\w)-?){2,3}?$" "a-b" = Some ["b"].
Proof. vm_compute. reflexivity. Qed.
Example sub4 : sub "(|a)+" "a" = Some [""].
Proof. vm_compute. reflexivity. Qed.
Example sub5 : sub "(a*)*b" "aab" = Some ["aa"].
Proof. vm_compute. reflexivity. Qed.

(** ** What an expression stands for

    From a position and the text behind it to where a match can end. *)
Definition st : Type := nat * string.
Definition size (x : st) : nat := String.length x.2.
Fixpoint rstep (r : re) (x y : st) : Prop :=
  match r with
  | REmpty => x = y
  | RSet neg l => ∃ c, in_set neg l c = true ∧ x.2 = String c y.2 ∧ y.1 = S x.1
  | RBegin => x = y ∧ x.1 = 0
  | RFinish => x = y ∧ x.2 = ""
  | RCat a b => ∃ z, rstep a x z ∧ rstep b z y
  | RAlt a b => rstep a x y ∨ rstep b x y
  | RRep n None _ a => ∃ z, nsteps (rstep a) n x z ∧ rtc (rstep a) z y
  | RRep n (Some m) _ a => ∃ j, (j ≤ m - n)%nat ∧ nsteps (rstep a) (n + j) x y
  | RGroup _ a => rstep a x y
  end.

(** A continuation succeeds exactly where [P] holds, whatever has been captured. *)
Definition decides (K : cont) (P : st → Prop) : Prop :=
  ∀ pos s cs, is_Some (K pos s cs) ↔ P (pos, s).
Definition img (R : st → st → Prop) (P : st → Prop) (x : st) : Prop := ∃ y, R x y ∧ P y.
(** A step takes something or stays where it is. *)
Definition shrinks (R : st → st → Prop) : Prop := ∀ x y, R x y → x = y ∨ (size y < size x)%nat.

Lemma shrinks_trans (R1 R2 : st → st → Prop) x y z :
  shrinks R1 → shrinks R2 → R1 x z → R2 z y → x = y ∨ (size y < size x)%nat.
Proof. intros H1 H2 [->|?]%H1 [->|?]%H2; [by left|by right|by right|right; lia]. Qed.
Lemma shrinks_nsteps R n : shrinks R → shrinks (nsteps R n).
Proof.
  intros HR. induction n as [|n IH]; intros x y Hn; inversion Hn; subst; [by left|].
  by eapply shrinks_trans; [exact HR|exact IH| |].
Qed.
Lemma shrinks_rtc R : shrinks R → shrinks (rtc R).
Proof. intros HR x y [n Hn]%rtc_nsteps. by eapply shrinks_nsteps. Qed.

Lemma rstep_shrinks r : shrinks (rstep r).
Proof.
  induction r as [|neg l| | |a IHa b IHb|a IHa b IHb|n [m|] g a IHa|name a IHa]; intros [p s] [q t]; simpl.
  - intros ->. by left.
  - intros (c & _ & -> & ->). right. unfold size. simpl. lia.
  - intros [-> _]. by left.
  - intros [-> _]. by left.
  - intros (z & Ha & Hb). exact (shrinks_trans _ _ _ _ _ IHa IHb Ha Hb).
  - intros [?|?]; auto.
  - intros (j & _ & Hj). by eapply shrinks_nsteps.
  - intros (z & Ha & Hb). eapply (shrinks_trans (nsteps (rstep a) n) (rtc (rstep a))); [..|done|done].
    + by apply shrinks_nsteps.
    + by apply shrinks_rtc.
  - apply IHa.
Qed.

(** Rounds that take nothing can be left out. *)
Lemma rtc_progress R x y :
  shrinks R → rtc R x y → x = y ∨ ∃ z, R x z ∧ (size z < size x)%nat ∧ rtc R z y.
Proof.
  intros HR. induction 1 as [x|x z y Hxz Hzy IH]; [by left|].
  destruct (HR _ _ Hxz) as [<-|Hlt]; [done|]. right. by exists z.
Qed.

Lemma orelse_Some {A} (x y : option A) : is_Some (orelse x y) ↔ is_Some x ∨ is_Some y.
Proof.
  destruct x as [a|]; simpl; [split; [by left|by eexists]|].
  split; [by right|]. by intros [[? [=]]|?].
Qed.
Lemma prefer_Some {A} g (x y : option A) : is_Some (prefer g x y) ↔ is_Some x ∨ is_Some y.
Proof. destruct g; simpl; rewrite orelse_Some; tauto. Qed.

Section loops_spec.
Context (greedy : bool) (body : cont → cont) (R : st → st → Prop).
Context (Hbody : ∀ K P, decides K P → decides (body K) (img R P)) (HR : shrinks R).
Context (K : cont) (P : st → Prop) (HK : decides K P).

Lemma times_spec n L Q : decides L Q → decides (times body n L) (img (nsteps R n) Q).
Proof.
  intros HL. induction n as [|n IH]; intros pos s cs; simpl.
  - rewrite (HL _ _ _). split; [intros ?; eexists; split; [constructor|done]|].
    intros (y & Hy & ?). by inversion Hy; subst.
  - rewrite (Hbody _ _ IH pos s cs). split.
    + intros (z & Hz & y & Hy & ?). exists y. split; [by econstructor|done].
    + intros (y & Hy & ?). inversion Hy; subst. eexists. split; [done|]. by exists y.
Qed.

Lemma upto_spec e : decides (upto greedy body K e) (λ x, ∃ j y, (j ≤ e)%nat ∧ nsteps R j x y ∧ P y).
Proof.
  induction e as [|e IH]; intros pos s cs; simpl.
  - rewrite (HK _ _ _). split; [intros ?; exists 0; eexists; split_and!; [lia|constructor|done]|].
    intros (j & y & ? & Hy & ?). replace j with 0 in Hy by lia. by inversion Hy; subst.
  - rewrite prefer_Some (HK _ _ _) (Hbody _ _ IH pos s cs). split.
    + intros [(z & Hz & j & y & ? & ? & ?)|?].
      * exists (S j), y. split_and!; [lia|by econstructor|done].
      * exists 0. eexists. split_and!; [lia|constructor|done].
    + intros (j & y & ? & Hy & ?). inversion Hy; subst; [by right|left].
      eexists. split; [done|]. eexists _, y. split_and!; [|done|done]. lia.
Qed.

Lemma star_spec f pos s cs :
  (String.length s ≤ f)%nat → is_Some (star greedy body K f pos s cs) ↔ img (rtc R) P (pos, s).
Proof.
  revert pos s cs. induction f as [|f IH]; intros pos s cs Hs; simpl; rewrite prefer_Some (HK _ _ _).
  - split; [intros [[? [=]]|?]; by exists (pos, s)|].
    intros (y & Hy & HP). right. destruct (rtc_progress R _ _ HR Hy) as [<-|(z & _ & Hz & _)]; [done|].
    unfold size in Hz. simpl in Hz. lia.
  - rewrite (Hbody _ (λ y, (size y < String.length s)%nat ∧ img (rtc R) P y)).
    + split.
      * intros [(z & Hz & _ & y & ? & ?)|?]; [|by exists (pos, s)]. exists y. split; [by econstructor|done].
      * intros (y & Hy & HP). destruct (rtc_progress R _ _ HR Hy) as [<-|(z & ? & Hz & ?)]; [by right|left].
        exists z. split_and!; [done|done|by exists y].
    + intros p' s' cs'. unfold size. simpl. case_decide.
      * rewrite IH; [|lia]. naive_solver.
      * split; [by intros [? [=]]|naive_solver].
Qed.

Lemma plus_spec : decides (plus greedy body K) (λ x, ∃ z, R x z ∧ img (rtc R) P z).
Proof.
  intros pos s cs. unfold plus.
  rewrite (Hbody _ (λ y, if decide (size y < String.length s)%nat then img (rtc R) P y else P y)).
  - split.
    + intros (z & Hz & HP). exists z. split; [done|]. case_decide; [done|]. by exists z.
    + intros (z & Hz & y & Hy & HP). destruct (decide (size z < String.length s)%nat) as [Hlt|Hge].
      { exists z. split; [done|]. rewrite decide_True //. by exists y. }
      destruct (HR _ _ Hz) as [<-|?]; [|done].
      destruct (rtc_progress R _ _ HR Hy) as [<-|(w & Hw & Hlt & ?)].
      * exists (pos, s). split; [done|]. by case_decide.
      * exists w. split; [done|]. rewrite decide_True //. by exists y.
  - intros p' s' cs'. unfold size. simpl. case_decide; [by apply star_spec|apply HK].
Qed.
End loops_spec.

(** The matcher decides the relation. *)
Lemma rmatch_spec r k K P : decides K P → decides (rmatch r k K) (img (rstep r) P).
Proof.
  revert k K P. induction r as [|neg l| | |a IHa b IHb|a IHa b IHb|n m g a IHa|name a IHa];
    intros k K P HK pos s cs; cbn [rmatch rstep].
  - rewrite (HK _ _ _). split; [by eexists|]. by intros (y & <- & ?).
  - destruct s as [|c s].
    { split; [by intros [? [=]]|]. by intros (y & (d & _ & [=] & _) & _). }
    destruct (in_set neg l c) eqn:E.
    + rewrite (HK _ _ _). split.
      * intros ?. exists (S pos, s). split; [by exists c|done].
      * by intros ([q t] & (d & _ & [= <- <-] & [= ->]) & ?).
    + split; [by intros [? [=]]|]. intros (y & (d & ? & [= <- _] & _) & _). congruence.
  - destruct pos as [|pos].
    + rewrite (HK _ _ _). split; [by eexists|]. by intros (y & [<- _] & ?).
    + split; [by intros [? [=]]|]. by intros (y & [_ [=]] & _).
  - destruct s as [|c s].
    + rewrite (HK _ _ _). split; [by eexists|]. by intros (y & [<- _] & ?).
    + split; [by intros [? [=]]|]. by intros (y & [_ [=]] & _).
  - rewrite (IHa _ _ _ (IHb _ _ _ HK)). split.
    + intros (z & ? & y & ? & ?). exists y. split; [by exists z|done].
    + intros (y & (z & ? & ?) & ?). exists z. split; [done|by exists y].
  - rewrite orelse_Some (IHa _ _ _ HK) (IHb _ _ _ HK). unfold img. naive_solver.
  - pose proof (rstep_shrinks a) as HR. destruct m as [m|]; simpl.
    + rewrite (times_spec _ _ (IHa k) n _ _ (upto_spec g _ _ (IHa k) K P HK (m - n)) pos s cs). split.
      * intros (z & Hz & j & y & ? & ? & ?). exists y. split; [exists j|done]. split; [done|].
        by eapply nsteps_trans.
      * intros (y & (j & ? & Hj) & ?). apply nsteps_add_inv in Hj as (z & ? & ?). exists z.
        split; [done|]. by exists j, y.
    + destruct n as [|n].
      * rewrite (star_spec g _ _ (IHa k) HR K P HK); [|done]. split.
        -- intros (y & ? & ?). exists y. split; [|done]. eexists. split; [constructor|done].
        -- intros (y & (z & Hz & ?) & ?). inversion Hz; subst. by exists y.
      * rewrite (times_spec _ _ (IHa k) n _ _ (plus_spec g _ _ (IHa k) HR K P HK) pos s cs). split.
        -- intros (z & ? & w & ? & y & ? & ?). exists y. split; [exists w|done]. split; [|done].
           by eapply nsteps_r.
        -- intros (y & (w & Hw & ?) & ?). apply nsteps_inv_r in Hw as (z & ? & ?). exists z.
           split; [done|]. exists w. split; [done|]. by exists y.
  - apply (IHa (S k) _ P). intros p t c. apply HK.
Qed.

Lemma search_spec r pos s :
  is_Some (search r pos s) ↔ ∃ a b y, s = a +:+ b ∧ rstep r (pos + String.length a, b) y.
Proof.
  assert (decides (λ _ _ cs, Some cs) (λ _, True)) as HT by by (intros ???; split; [|eexists]).
  revert pos. induction s as [|c s IH]; intros pos; cbn [search]; rewrite orelse_Some (rmatch_spec _ _ _ _ HT).
  - split.
    + intros [(y & ? & _)|[? [=]]]. exists "", "", y. split; [done|]. by rewrite Nat.add_0_r.
    + intros (a & b & y & E & Hy). symmetry in E. apply str_app_eq_nil in E as [-> ->].
      rewrite Nat.add_0_r in Hy. left. by exists y.
  - rewrite IH. split.
    + intros [(y & ? & _)|(a & b & y & -> & ?)].
      * exists "", (String c s), y. split; [done|]. by rewrite Nat.add_0_r.
      * exists (String c a), b, y. split; [done|]. simpl. by rewrite Nat.add_succ_r.
    + intros ([|d a] & b & y & E & Hy).
      * rewrite Nat.add_0_r in Hy. change (String c s = b) in E. subst b. left. by exists y.
      * change (String c s = String d (a +:+ b)) in E. injection E as -> ->. right. exists a, b, y. split; [done|]. simpl in Hy.
        by rewrite Nat.add_succ_r in Hy.
Qed.

Lemma MatchString_spec r s :
  MatchString r s = true ↔ ∃ a b y, s = a +:+ b ∧ rstep (re_ast r) (String.length a, b) y.
Proof. rewrite /MatchString bool_decide_eq_true search_spec. done. Qed.

(** ** Languages

    Without anchors it does not matter what stands around the text that is taken. *)
Fixpoint free (r : re) : bool :=
  match r with
  | REmpty | RSet _ _ => true
  | RBegin | RFinish => false
  | RCat a b | RAlt a b => free a && free b
  | RRep _ _ _ a | RGroup _ a => free a
  end.
Definition lang (r : re) (w : string) : Prop := rstep r (0, w) (String.length w, "").
Definition takes (R : st → st → Prop) (w : string) : Prop :=
  ∀ p t, R (p, w +:+ t) (p + String.length w, t).
Definition local (R : st → st → Prop) : Prop :=
  ∀ p s q t, R (p, s) (q, t) → ∃ w, s = w +:+ t ∧ q = p + String.length w ∧ takes R w.

Lemma takes_nil R : (∀ x, R x x) → takes R "".
Proof. intros HR p t. rewrite Nat.add_0_r. apply HR. Qed.
Lemma local_trans (R1 R2 R : st → st → Prop) p s q t :
  local R1 → local R2 → (∀ x y z, R1 x y → R2 y z → R x z) →
  (∃ z, R1 (p, s) z ∧ R2 z (q, t)) → ∃ w, s = w +:+ t ∧ q = p + String.length w ∧ takes R w.
Proof.
  intros H1 H2 HR ([p' s'] & Ha & Hb). apply H1 in Ha as (w1 & -> & -> & T1).
  apply H2 in Hb as (w2 & -> & -> & T2). exists (w1 +:+ w2). rewrite str_length_app. split_and!.
  - by rewrite str_app_assoc.
  - lia.
  - intros p' t'. rewrite -str_app_assoc str_length_app Nat.add_assoc. eapply HR; [apply T1|apply T2].
Qed.
Lemma local_nsteps R n : local R → local (nsteps R n).
Proof.
  intros HR. induction n as [|n IH]; intros p s q t Hn.
  - inversion Hn; subst. exists "". split_and!; [done|simpl; lia|]. apply takes_nil. constructor.
  - eapply (local_trans R (nsteps R n)); [done|done|intros x y z ??; by econstructor|].
    inversion Hn; subst. by eexists.
Qed.
Lemma local_rtc R : local R → local (rtc R).
Proof.
  intros HR p s q t [n Hn]%rtc_nsteps. apply local_nsteps in Hn as (w & -> & -> & T); [|done].
  exists w. split_and!; [done|done|]. intros p' t'. eapply rtc_nsteps_2, T.
Qed.
Lemma rstep_local r : free r = true → local (rstep r).
Proof.
  induction r as [|neg l| | |a IHa b IHb|a IHa b IHb|n [m|] g a IHa|name a IHa]; intros Hf; simpl in Hf; try done.
  - intros p s q t [= -> ->]. exists "". split_and!; [done|simpl; lia|]. by apply takes_nil.
  - intros p s q t (c & Hc & Hs & Hq). simpl in *. exists (String c ""). split_and!; [done|simpl; lia|].
    intros p' t'. exists c. simpl. split_and!; [done|done|lia].
  - apply andb_true_iff in Hf as [Ha Hb]. intros p s q t H.
    eapply (local_trans (rstep a) (rstep b)); [auto|auto| |done]. intros x y z ??. by exists y.
  - apply andb_true_iff in Hf as [Ha Hb]. intros p s q t [H|H].
    + apply IHa in H as (w & -> & -> & T); [|done]. exists w. split_and!; [done..|]. intros p' t'. by left.
    + apply IHb in H as (w & -> & -> & T); [|done]. exists w. split_and!; [done..|]. intros p' t'. by right.
  - intros p s q t (j & Hj & Hn). apply local_nsteps in Hn as (w & -> & -> & T); [|auto].
    exists w. split_and!; [done..|]. intros p' t'. exists j. split; [done|apply T].
  - intros p s q t H.
    eapply (local_trans (nsteps (rstep a) n) (rtc (rstep a))); [by apply local_nsteps; auto|by apply local_rtc; auto| |done].
    intros x y z ??. by exists y.
  - by apply IHa.
Qed.
Lemma rstep_lang r p s q t :
  free r = true → rstep r (p, s) (q, t) ↔ ∃ w, s = w +:+ t ∧ q = p + String.length w ∧ lang r w.
Proof.
  intros Hf. split.
  - intros (w & -> & -> & T)%rstep_local; [|done]. exists w. split_and!; [done..|].
    unfold lang. pose proof (T 0 "") as H. by rewrite str_app_nil_r in H.
  - intros (w & -> & -> & H). unfold lang in H. apply rstep_local in H as (v & Hv & _ & T); [|done].
    rewrite str_app_nil_r in Hv. subst v. apply T.
Qed.

(** ** What is captured *)
Definition cst : Type := st * caps.
Fixpoint rcap (r : re) (k : nat) (x y : cst) : Prop :=
  match r with
  | RCat a b => ∃ z, rcap a k x z ∧ rcap b (k + ngroups a) z y
  | RAlt a b => rcap a k x y ∨ rcap b (k + ngroups a) x y
  | RRep n None _ a => ∃ z, nsteps (rcap a k) n x z ∧ rtc (rcap a k) z y
  | RRep n (Some m) _ a => ∃ j, (j ≤ m - n)%nat ∧ nsteps (rcap a k) (n + j) x y
  | RGroup _ a =>
      ∃ cs, rcap a (S k) x (y.1, cs) ∧ y.2 = <[k := String.substring 0 (size x.1 - size y.1) x.1.2]> cs
  | r => rstep r x.1 y.1 ∧ x.2 = y.2
  end.

(** A matcher that succeeds has done steps of [R] before it went on. *)
Definition follows (body : cont → cont) (R : cst → cst → Prop) : Prop :=
  ∀ K pos s cs cs', body K pos s cs = Some cs' → ∃ p t c, R ((pos, s), cs) ((p, t), c) ∧ K p t c = Some cs'.

Lemma orelse_inv {A} (x y : option A) a : orelse x y = Some a → x = Some a ∨ y = Some a.
Proof. destruct x; simpl; auto. Qed.
Lemma prefer_inv {A} g (x y : option A) a : prefer g x y = Some a → x = Some a ∨ y = Some a.
Proof. destruct g; simpl; intros []%orelse_inv; auto. Qed.

Section loops_follow.
Context (greedy : bool) (body : cont → cont) (R : cst → cst → Prop) (Hb : follows body R).
Lemma times_follows n : follows (times body n) (nsteps R n).
Proof.
  intros L pos s cs cs'. revert pos s cs. induction n as [|n IH]; intros pos s cs; simpl.
  - intros ?. exists pos, s, cs. split; [constructor|done].
  - intros (p & t & c & Hr & (p' & t' & c' & ? & ?)%IH)%Hb. exists p', t', c'. split; [by econstructor|done].
Qed.
Lemma upto_follow K e pos s cs cs' :
  upto greedy body K e pos s cs = Some cs' →
  ∃ j p t c, (j ≤ e)%nat ∧ nsteps R j ((pos, s), cs) ((p, t), c) ∧ K p t c = Some cs'.
Proof.
  revert pos s cs. induction e as [|e IH]; intros pos s cs; simpl.
  - intros ?. exists 0, pos, s, cs. split_and!; [done|constructor|done].
  - intros [(p & t & c & Hr & (j & p' & t' & c' & ? & ? & ?)%IH)%Hb|?]%prefer_inv.
    + exists (S j), p', t', c'. split_and!; [lia|by econstructor|done].
    + exists 0, pos, s, cs. split_and!; [lia|constructor|done].
Qed.
Lemma star_follow K f pos s cs cs' :
  star greedy body K f pos s cs = Some cs' → ∃ p t c, rtc R ((pos, s), cs) ((p, t), c) ∧ K p t c = Some cs'.
Proof.
  revert pos s cs. induction f as [|f IH]; intros pos s cs; simpl.
  - intros [[=]|?]%prefer_inv. by exists pos, s, cs.
  - intros [(p & t & c & Hr & H)%Hb|?]%prefer_inv; [|by exists pos, s, cs]. case_decide; [|done].
    apply IH in H as (p' & t' & c' & ? & ?). exists p', t', c'. split; [by econstructor|done].
Qed.
Lemma plus_follow K pos s cs cs' :
  plus greedy body K pos s cs = Some cs' →
  ∃ z p t c, R ((pos, s), cs) z ∧ rtc R z ((p, t), c) ∧ K p t c = Some cs'.
Proof.
  intros (p & t & c & Hr & H)%Hb. exists ((p, t), c). case_decide.
  - by apply star_follow in H as (p' & t' & c' & ? & ?); exists p', t', c'.
  - by exists p, t, c.
Qed.
End loops_follow.

Lemma rmatch_caps r k : follows (rmatch r k) (rcap r k).
Proof.
  revert k. induction r as [|neg l| | |a IHa b IHb|a IHa b IHb|n m g a IHa|name a IHa];
    intros k K pos s cs cs'; cbn [rmatch rcap].
  - intros ?. by exists pos, s, cs.
  - destruct s as [|c s]; [done|]. destruct (in_set neg l c) eqn:E; [|done]. intros ?.
    exists (S pos), s, cs. split; [|done]. split; [by exists c|done].
  - destruct pos; [|done]. intros ?. by exists 0, s, cs.
  - destruct s; [|done]. intros ?. by exists pos, "", cs.
  - intros (p & t & c & ? & (p' & t' & c' & ? & ?)%IHb)%IHa. exists p', t', c'. split; [by eexists|done].
  - intros [(p & t & c & ? & ?)%IHa|(p & t & c & ? & ?)%IHb]%orelse_inv; exists p, t, c; auto.
  - unfold rep. destruct m as [m|]; [|destruct n as [|n]].
    + intros (p & t & c & ? & (j & p' & t' & c' & ? & ? & ?)%(upto_follow _ _ _ (IHa k)))%(times_follows _ _ (IHa k)).
      exists p', t', c'. split; [|done]. exists j. split; [done|by eapply nsteps_trans].
    + intros (p & t & c & ? & ?)%(star_follow _ _ _ (IHa k)). exists p, t, c. split; [|done].
      eexists. split; [constructor|done].
    + intros (p & t & c & ? & (z & p' & t' & c' & ? & ? & ?)%(plus_follow _ _ _ (IHa k)))%(times_follows _ _ (IHa k)).
      exists p', t', c'. split; [|done]. exists z. split; [by eapply nsteps_r|done].
  - intros (p & t & c & Hr & HK)%IHa. eexists p, t, _. split; [|exact HK]. by exists c.
Qed.

Lemma rcap_rstep r k x y : rcap r k x y → rstep r x.1 y.1.
Proof.
  revert k x y. induction r as [|neg l| | |a IHa b IHb|a IHa b IHb|n m g a IHa|name a IHa];
    intros k x y; cbn [rcap rstep]; try (by intros [? _]).
  - intros (z & ?%IHa & ?%IHb). by exists z.1.
  - intros [?%IHa|?%IHb]; auto.
  - destruct m as [m|].
    + intros (j & ? & Hj). exists j. split; [done|].
      eapply (nsteps_congruence fst (rstep a)); [|done]. intros ??. apply IHa.
    + intros (z & Hz & Hy). exists z.1. split.
      * eapply (nsteps_congruence fst (rstep a)); [|done]. intros ??. apply IHa.
      * eapply (rtc_congruence fst (rstep a)); [|done]. intros ??. apply IHa.
  - intros (cs & ?%IHa & _). done.
Qed.
Lemma nsteps_kept (R : cst → cst → Prop) n x y :
  (∀ x y, R x y → y.2 = x.2) → nsteps R n x y → y.2 = x.2.
Proof. intros HR. induction 1 as [|n x z y ?%HR _ IH]; congruence. Qed.
Lemma rcap_no_groups r k x y : ngroups r = 0 → rcap r k x y → y.2 = x.2.
Proof.
  unfold ngroups.
  revert k x y. induction r as [|neg l| | |a IHa b IHb|a IHa b IHb|n m g a IHa|name a IHa];
    intros k x y Hg; cbn [rcap group_names] in *; try (by intros [_ ->]).
  - rewrite length_app in Hg. intros (z & ?%IHa & ?%IHb); [congruence|lia|lia].
  - rewrite length_app in Hg. intros [?%IHa|?%IHb]; [done|lia|done|lia].
  - assert (∀ x y, rcap a k x y → y.2 = x.2) as Ha by (intros ??; by apply IHa). destruct m as [m|].
    + intros (j & _ & ?). by eapply nsteps_kept.
    + intros (z & ?%nsteps_kept & [j ?%nsteps_kept]%rtc_nsteps); [congruence|done|done].
  - done.
Qed.
End GoRegexp.
