(* ===== verification/GoRegexpParse.v ===== *)
(** * Parsing regular expressions that are put together

    Facts about [GoRegexp.Compile] on texts that are assembled from quoted text and
    patterns, as route templates are: a pattern is parsed inside a group as on its
    own, the fuel is enough, and the steps of parsing an assembled text. *)

From S2P Require Import Prelude GoStrings GoUrl GoRegexp.

Module GoRegexpParse.
Export GoRegexp.

(** A group behind its parenthesis. *)
Definition group (f : nat) (s : string) : result (re * string) :=
  match group_open s with
  | Err e => Err e
  | Ok (name, s) =>
      match parse f None REmpty s with
      | Err e => Err e
      | Ok (r, s) =>
          match strip_prefix ")" s with
          | Some s => Ok (match name with Some n => RGroup n r | None => r end, s)
          | None => parse_error "missing closing )"
          end
      end
  end.
Lemma parse_cons f alts cat c s :
  c ≠ ")"%char → c ≠ "|"%char →
  parse (S f) alts cat (String c s) =
    match (if decide (c = "("%char) then group f s else atom f c s) with
    | Err e => Err e
    | Ok (a, s) => match suffix a s with Err e => Err e | Ok (a, s) => parse f alts (RCat cat a) s end
    end.
Proof. intros Hc Hb. cbn [parse]. by rewrite decide_False // decide_False. Qed.

(** ** Patterns in context

    A pattern that is parsed on its own is parsed in the same way inside a group, and
    what is inside of it also in front of a dollar. *)
#[local] Arguments String.append !_ _ / : simpl nomatch.

Section context.
Context (d : ascii) (t : string) (Hd : d = ")"%char ∨ d = "$"%char).
#[local] Abbreviation u := (String d t).
Ltac neutral := by destruct Hd as [-> | ->].

Lemma strip_prefix_paren p s :
  has_char d p = false → strip_prefix p (s +:+ u) = (λ r, r +:+ u) <$> strip_prefix p s.
Proof.
  revert s. induction p as [|c p IH]; intros s; [done|]. cbn [has_char].
  intros [Hc%bool_decide_eq_false Hp]%orb_false_iff. destruct s as [|e s]; simpl; case_decide; try done.
  by apply IH.
Qed.

#[local] Arguments strip_prefix : simpl never.
Lemma take_digits_paren s :
  take_digits (s +:+ u) = ((take_digits s).1, (take_digits s).2 +:+ u).
Proof.
  induction s as [|c s IH]; simpl; [by destruct Hd as [-> | ->]|]. destruct (digit c); [|done]. rewrite IH.
  by destruct (take_digits s).
Qed.
Lemma repeat_number_paren s :
  repeat_number (s +:+ u) = (λ p, (p.1, p.2 +:+ u)) <$> repeat_number s.
Proof.
  unfold repeat_number. rewrite take_digits_paren. destruct (take_digits s) as [ds r]. simpl.
  by destruct (_ || _).
Qed.
Lemma repeat_paren s : repeat (s +:+ u) = (λ p, (p.1, p.2 +:+ u)) <$> repeat s.
Proof.
  unfold repeat. rewrite repeat_number_paren. destruct (repeat_number s) as [[n r]|]; [|done]. simpl.
  rewrite !strip_prefix_paren; [|neutral..]. destruct (strip_prefix "}" r); [done|]. simpl.
  destruct (strip_prefix ",}" r); [done|]. simpl. destruct (strip_prefix "," r) as [r'|]; [|done]. simpl.
  rewrite repeat_number_paren. destruct (repeat_number r') as [[m r'']|]; [|done]. simpl.
  rewrite strip_prefix_paren; [|neutral..]. by destruct (strip_prefix "}" r'').
Qed.
Lemma rep_op_paren s :
  rep_op (s +:+ u) = match rep_op s with
                     | Ok (Some (n, m, r)) => Ok (Some (n, m, r +:+ u))
                     | x => x
                     end.
Proof.
  unfold rep_op. rewrite !strip_prefix_paren; [|neutral..].
  destruct (strip_prefix "*" s); [done|]. destruct (strip_prefix "+" s); [done|].
  destruct (strip_prefix "?" s); [done|]. destruct (strip_prefix "{" s) as [r|]; [|done]. simpl.
  rewrite repeat_paren. destruct (repeat r) as [[[n m] r']|]; [|done]. simpl. by destruct (repeat_size n m).
Qed.

(** A parser that has read a text reads it in front of a parenthesis. *)
Definition extends {A} (F : string → result (A * string)) : Prop :=
  ∀ s a r, F s = Ok (a, r) → F (s +:+ u) = Ok (a, r +:+ u).

Lemma suffix_extends a : extends (suffix a).
Proof.
  intros s b r. unfold suffix. rewrite rep_op_paren.
  destruct (rep_op s) as [[[[n m] r1]|]|]; [|by intros [= <- <-]|done].
  rewrite strip_prefix_paren; [|neutral..]. destruct (strip_prefix "?" r1) as [r2|]; simpl.
  - rewrite rep_op_paren. destruct (rep_op r2) as [[[[??]?]|]|]; [done|by intros [= <- <-]|done].
  - rewrite rep_op_paren. destruct (rep_op r1) as [[[[??]?]|]|]; [done|by intros [= <- <-]|done].
Qed.

Lemma escape_extends : extends escape.
Proof.
  intros [|c s] a r; [done|]. simpl. destruct (perl_ranges c); [by intros [= <- <-]|].
  destruct (escape_char c); [by intros [= <- <-]|].
  by repeat (case_decide; [by intros [= <- <-]|]).
Qed.
Lemma class_char_extends : extends class_char.
Proof.
  intros s a r. unfold class_char. rewrite strip_prefix_paren; [|neutral..].
  destruct (strip_prefix "\" s) as [[|c s']|]; simpl; [done| |].
  - destruct (escape_char c); [by intros [= <- <-]|done].
  - destruct s; [done|]. by intros [= <- <-].
Qed.
Lemma class_perl_paren s : class_perl (s +:+ u) = (λ p, (p.1, p.2 +:+ u)) <$> class_perl s.
Proof.
  unfold class_perl. rewrite strip_prefix_paren; [|neutral..].
  destruct (strip_prefix "\" s) as [[|c s']|]; simpl; [neutral| |done]. by destruct (perl_ranges c).
Qed.
(** A hyphen at the end of the text is the one place where more text matters: the
    class is not closed then. *)
Lemma class_range_extends s p r :
  class_range s = Ok (p, r) → r = "-" ∨ class_range (s +:+ u) = Ok (p, r +:+ u).
Proof.
  unfold class_range. destruct (class_char s) as [[lo s1]|] eqn:E; [|done].
  rewrite (class_char_extends _ _ _ E) strip_prefix_paren; [|neutral..].
  destruct (strip_prefix "-" s1) as [t1|] eqn:E1; simpl; [|intros [= <- <-]; by right].
  apply strip_prefix_Some in E1. rewrite strip_prefix_paren; [|neutral..].
  destruct t1 as [|e t1].
  { intros [= <- <-]. by left. }
  rewrite (bool_decide_eq_false_2 (String e t1 = "")) // (bool_decide_eq_false_2 (String e t1 +:+ u = "")) //.
  rewrite !orb_false_l. destruct (strip_prefix "]" (String e t1)); simpl.
  { intros [= <- <-]. by right. }
  destruct (class_char (String e t1)) as [[hi s2]|] eqn:E2; [|done].
  change (String e (t1 +:+ u)) with (String e t1 +:+ u). rewrite (class_char_extends _ _ _ E2).
  case_decide; [done|]. intros [= <- <-]. by right.
Qed.
Lemma class_items_open f acc : ∀ x, class_items f false acc "-" ≠ Ok x.
Proof. destruct f as [|[|f]]; done. Qed.
Lemma class_items_extends f first acc : extends (class_items f first acc).
Proof.
  revert first acc. induction f as [|f IH]; intros first acc s a r; [done|]. cbn [class_items].
  assert ((if first then None else strip_prefix "]" (s +:+ u)) =
          (λ x, x +:+ u) <$> (if first then None else strip_prefix "]" s)) as ->.
  { destruct first; [done|]. by apply strip_prefix_paren; neutral. }
  destruct (if first then None else strip_prefix "]" s); simpl; [by intros [= <- <-]|].
  rewrite strip_prefix_paren; [|neutral]. rewrite class_perl_paren. destruct (strip_prefix "[:" s); simpl; [done|].
  destruct (class_perl s) as [[l s1]|]; simpl; [by apply IH|].
  destruct (class_range s) as [[[lo hi] s1]|] eqn:E; [|done]. intros H.
  destruct (class_range_extends _ _ _ E) as [-> | ->]; [by apply class_items_open in H|by apply IH].
Qed.
Lemma class_extends f : extends (class f).
Proof.
  intros s a r. unfold class. rewrite strip_prefix_paren; [|neutral..].
  destruct (strip_prefix "^" s) as [s1|]; simpl.
  - destruct (class_items f true [] s1) as [[l s2]|] eqn:E; [|done]. intros [= <- <-].
    by rewrite (class_items_extends _ _ _ _ _ _ E).
  - destruct (class_items f true [] s) as [[l s2]|] eqn:E; [|done]. intros [= <- <-].
    by rewrite (class_items_extends _ _ _ _ _ _ E).
Qed.
Lemma atom_extends f c : extends (atom f c).
Proof.
  intros s a r. unfold atom. case_decide; [apply class_extends|].
  do 3 (case_decide; [by intros [= <- <-]|]). case_decide; [apply escape_extends|].
  change (String c (s +:+ u)) with (String c s +:+ u). rewrite rep_op_paren.
  destruct (rep_op (String c s)) as [[[[??]?]|]|]; [done|by intros [= <- <-]|done].
Qed.
Lemma take_until_ext c s a b : take_until c s = Some (a, b) → take_until c (s +:+ u) = Some (a, b +:+ u).
Proof.
  revert a. induction s as [|e s IH]; intros a; [done|]. simpl. case_decide; [by intros [= <- <-]|].
  destruct (take_until c s) as [[x y]|]; [|done]. intros [= <- <-]. by rewrite (IH x).
Qed.
Lemma group_open_extends : extends group_open.
Proof.
  intros s a r. unfold group_open. rewrite !strip_prefix_paren; [|neutral..].
  destruct (strip_prefix "?P<" s) as [s1|]; simpl.
  - destruct (take_until ">" s1) as [[n s2]|] eqn:E; [|done]. rewrite (take_until_ext _ _ _ _ E).
    destruct (_ && _); [by intros [= <- <-]|done].
  - destruct (strip_prefix "?:" s); simpl; [by intros [= <- <-]|].
    destruct (strip_prefix "?" s); simpl; [done|by intros [= <- <-]].
Qed.
Lemma group_extends_if f :
  (∀ s a r, parse f None REmpty s = Ok (a, r) → r ≠ "" → parse f None REmpty (s +:+ u) = Ok (a, r +:+ u)) →
  extends (group f).
Proof.
  intros IH s a r. unfold group.
  destruct (group_open s) as [[n s3]|] eqn:E3; [|done]. rewrite (group_open_extends _ _ _ E3).
  destruct (parse f None REmpty s3) as [[x s4]|] eqn:E4; [|done].
  destruct (strip_prefix ")" s4) as [s5|] eqn:E5; [|done]. apply strip_prefix_Some in E5 as ->.
  rewrite (IH _ _ _ E4); [|done]. change ((")" +:+ s5) +:+ u) with (")" +:+ (s5 +:+ u)).
  rewrite strip_prefix_app. by intros [= <- <-].
Qed.
Lemma parse_extends f alts cat s a r :
  parse f alts cat s = Ok (a, r) → d = ")"%char ∨ r ≠ "" → parse f alts cat (s +:+ u) = Ok (a, r +:+ u).
Proof.
  revert alts cat s a r. induction f as [|f IH]; intros alts cat s a r; [done|].
  destruct s as [|c s].
  { intros [= <- <-] [-> | ?]; done. }
  destruct (decide (c = ")"%char)) as [->|Hc]; [by intros [= <- <-]|].
  destruct (decide (c = "|"%char)) as [->|Hb]; [exact (IH _ _ s a r)|].
  change (String c s +:+ u) with (String c (s +:+ u)). rewrite !parse_cons //.
  destruct (if decide (c = "("%char) then _ else _) as [[b s1]|] eqn:E; [|done].
  destruct (suffix b s1) as [[b' s2]|] eqn:E2; [|done]. intros Hp Hr.
  assert ((if decide (c = "("%char) then group f (s +:+ u) else atom f c (s +:+ u)) = Ok (b, s1 +:+ u)) as ->.
  { case_decide; [|by apply atom_extends]. apply (group_extends_if f); [|done]. auto. }
  rewrite (suffix_extends _ _ _ _ E2). by apply IH.
Qed.
Lemma group_extends f : extends (group f).
Proof. apply group_extends_if. intros s a r Hp Hr. apply parse_extends; auto. Qed.
End context.

(** ** Fuel

    One more than the length of the text is enough. *)
#[local] Arguments strip_prefix : simpl never.
Definition shortens {A} (d : nat) (F : string → result (A * string)) : Prop :=
  ∀ s a r, F s = Ok (a, r) → (d + String.length r ≤ String.length s)%nat.
Lemma strip_prefix_length p s r :
  strip_prefix p s = Some r → String.length s = (String.length p + String.length r)%nat.
Proof. intros ->%strip_prefix_Some. apply str_length_app. Qed.
Lemma take_digits_length s d r : take_digits s = (d, r) → (String.length r ≤ String.length s)%nat.
Proof.
  revert d. induction s as [|c s IH]; intros d; simpl; [by intros [= <- <-]|].
  destruct (digit c); [|by intros [= <- <-]]. destruct (take_digits s) as [x y]. intros [= <- <-].
  specialize (IH x eq_refl). lia.
Qed.
Lemma repeat_number_length s n r : repeat_number s = Some (n, r) → (String.length r ≤ String.length s)%nat.
Proof.
  unfold repeat_number. destruct (take_digits s) as [d r'] eqn:E. apply take_digits_length in E.
  destruct (_ || _); [done|]. by intros [= <- <-].
Qed.
Lemma repeat_length s n m r : repeat s = Some (n, m, r) → (String.length r ≤ String.length s)%nat.
Proof.
  unfold repeat. destruct (repeat_number s) as [[x s1]|] eqn:E; [|done]. apply repeat_number_length in E.
  destruct (strip_prefix "}" s1) eqn:E1.
  { intros [= <- <- <-]. apply strip_prefix_length in E1. lia. }
  destruct (strip_prefix ",}" s1) eqn:E2.
  { intros [= <- <- <-]. apply strip_prefix_length in E2. lia. }
  destruct (strip_prefix "," s1) eqn:E3; [|done]. apply strip_prefix_length in E3.
  destruct (repeat_number _) as [[y s3]|] eqn:E4; [|done]. apply repeat_number_length in E4.
  destruct (strip_prefix "}" s3) eqn:E5; [|done]. apply strip_prefix_length in E5.
  intros [= <- <- <-]. lia.
Qed.
Lemma rep_op_length s n m r : rep_op s = Ok (Some (n, m, r)) → (String.length r < String.length s)%nat.
Proof.
  unfold rep_op.
  destruct (strip_prefix "*" s) eqn:E1; [apply strip_prefix_length in E1; intros [= <- <- <-]; simpl in E1; lia|].
  destruct (strip_prefix "+" s) eqn:E2; [apply strip_prefix_length in E2; intros [= <- <- <-]; simpl in E2; lia|].
  destruct (strip_prefix "?" s) eqn:E3; [apply strip_prefix_length in E3; intros [= <- <- <-]; simpl in E3; lia|].
  destruct (strip_prefix "{" s) eqn:E4; [|done]. apply strip_prefix_length in E4.
  destruct (repeat _) as [[[x y] s1]|] eqn:E5; [|done]. apply repeat_length in E5.
  destruct (repeat_size x y); [|done]. intros [= <- <- <-]. simpl in E4. lia.
Qed.
Lemma suffix_shortens a : shortens 0 (suffix a).
Proof.
  intros s b r. unfold suffix. destruct (rep_op s) as [[[[n m] s1]|]|] eqn:E; [|by intros [= <- <-]|done].
  apply rep_op_length in E. destruct (strip_prefix "?" s1) eqn:E1.
  - apply strip_prefix_length in E1. destruct (rep_op _) as [[|]|]; [done| |done]. intros [= <- <-].
    simpl in *. lia.
  - destruct (rep_op _) as [[|]|]; [done| |done]. intros [= <- <-]. simpl. lia.
Qed.
Lemma class_char_shortens : shortens 1 class_char.
Proof.
  intros s a r. unfold class_char. destruct (strip_prefix "\" s) as [[|c s1]|] eqn:E; [done| |].
  - apply strip_prefix_length in E. destruct (escape_char c); [|done]. intros [= <- <-]. simpl in *. lia.
  - destruct s; [done|]. intros [= <- <-]. simpl. lia.
Qed.
Lemma class_perl_length s l r : class_perl s = Some (l, r) → (String.length r < String.length s)%nat.
Proof.
  unfold class_perl. destruct (strip_prefix "\" s) as [[|c s1]|] eqn:E; [done| |done].
  apply strip_prefix_length in E. destruct (perl_ranges c); [|done]. intros [= <- <-]. simpl in *. lia.
Qed.
Lemma class_range_shortens : shortens 1 class_range.
Proof.
  intros s [lo hi] r. unfold class_range. destruct (class_char s) as [[x s1]|] eqn:E; [|done].
  apply class_char_shortens in E. destruct (strip_prefix "-" s1) as [s2|] eqn:E1.
  2: { intros [= <- <- <-]. lia. }
  destruct (_ || _); [intros [= <- <- <-]; lia|]. apply strip_prefix_length in E1.
  destruct (class_char s2) as [[y s3]|] eqn:E2; [|done]. apply class_char_shortens in E2.
  case_decide; [done|]. intros [= <- <- <-]. simpl in *. lia.
Qed.
Lemma class_items_shortens f first acc : shortens 0 (class_items f first acc).
Proof.
  revert first acc. induction f as [|f IH]; intros first acc s a r; [done|]. cbn [class_items].
  destruct (if first then None else _) as [s1|] eqn:E.
  { intros [= <- <-]. destruct first; [done|]. apply strip_prefix_length in E. simpl in *. lia. }
  destruct (strip_prefix "[:" s); [done|].
  destruct (class_perl s) as [[l s1]|] eqn:E1.
  { apply class_perl_length in E1. intros ?%IH. simpl in *. lia. }
  destruct (class_range s) as [[[lo hi] s1]|] eqn:E2; [|done]. apply class_range_shortens in E2.
  intros ?%IH. simpl in *. lia.
Qed.
Lemma class_items_fuel f f' first acc s :
  (String.length s < f)%nat → (String.length s < f')%nat → class_items f first acc s = class_items f' first acc s.
Proof.
  revert f' first acc s. induction f as [|f IH]; intros [|f'] first acc s Hf Hf'; try lia. cbn [class_items].
  destruct (if first then None else _); [done|]. destruct (strip_prefix "[:" s); [done|].
  destruct (class_perl s) as [[l s1]|] eqn:E1.
  { apply class_perl_length in E1. apply IH; lia. }
  destruct (class_range s) as [[[lo hi] s1]|] eqn:E2; [|done]. apply class_range_shortens in E2. apply IH; lia.
Qed.
Lemma class_shortens f : shortens 0 (class f).
Proof.
  intros s a r. unfold class. destruct (strip_prefix "^" s) as [s1|] eqn:E;
    (destruct (class_items _ _ _ _) as [[l s2]|] eqn:E1; [|done]); apply class_items_shortens in E1; intros [= <- <-].
  - apply strip_prefix_length in E. simpl in *. lia.
  - done.
Qed.
Lemma class_fuel f f' s :
  (String.length s < f)%nat → (String.length s < f')%nat → class f s = class f' s.
Proof.
  intros Hf Hf'. unfold class. destruct (strip_prefix "^" s) as [s1|] eqn:E.
  - apply strip_prefix_length in E. by rewrite (class_items_fuel f f'); [|simpl in *; lia..].
  - by rewrite (class_items_fuel f f').
Qed.
Lemma atom_shortens f c : shortens 0 (atom f c).
Proof.
  intros s a r. unfold atom. case_decide; [apply class_shortens|].
  do 3 (case_decide; [by intros [= <- <-]|]). case_decide.
  - destruct s as [|d s]; [done|]. simpl. destruct (perl_ranges d); [intros [= <- <-]; lia|].
    destruct (escape_char d); [intros [= <- <-]; lia|]. by repeat (case_decide; [intros [= <- <-]; lia|]).
  - destruct (rep_op _) as [[|]|]; [done| |done]. by intros [= <- <-].
Qed.
Lemma atom_fuel f f' c s :
  (String.length s < f)%nat → (String.length s < f')%nat → atom f c s = atom f' c s.
Proof. intros Hf Hf'. unfold atom. by rewrite (class_fuel f f'). Qed.
Lemma group_open_shortens : shortens 0 group_open.
Proof.
  intros s a r. unfold group_open. destruct (strip_prefix "?P<" s) as [s1|] eqn:E.
  - apply strip_prefix_length in E. destruct (take_until ">" s1) as [[n s2]|] eqn:E1; [|done].
    apply take_until_Some in E1 as ->. rewrite str_length_app in E. destruct (_ && _); [|done].
    intros [= <- <-]. simpl in *. lia.
  - destruct (strip_prefix "?:" s) as [s1|] eqn:E1.
    + apply strip_prefix_length in E1. intros [= <- <-]. simpl in *. lia.
    + destruct (strip_prefix "?" s); [done|]. by intros [= <- <-].
Qed.

Lemma item_shortens_if f c s b s1 :
  shortens 0 (parse f None REmpty) →
  (if decide (c = "("%char) then group f s else atom f c s) = Ok (b, s1) →
  (String.length s1 ≤ String.length s)%nat.
Proof.
  intros Hp E. case_decide; [|by apply (atom_shortens f c) in E]. unfold group in E.
  destruct (group_open s) as [[n s3]|] eqn:E2; [|done]. apply group_open_shortens in E2.
  destruct (parse f None REmpty s3) as [[x s4]|] eqn:E3; [|done]. apply Hp in E3.
  destruct (strip_prefix ")" s4) as [s5|] eqn:E4; [|done]. apply strip_prefix_length in E4.
  injection E as _ ->. simpl in *. lia.
Qed.
Lemma parse_shortens f alts cat : shortens 0 (parse f alts cat).
Proof.
  revert alts cat. induction f as [|f IH]; intros alts cat s a r; [done|].
  destruct s as [|c s]; [by intros [= <- <-]|].
  destruct (decide (c = ")"%char)) as [->|Hc]; [by intros [= <- <-]|].
  destruct (decide (c = "|"%char)) as [->|Hb]; [intros ?%IH; simpl in *; lia|]. rewrite parse_cons //.
  destruct (if decide (c = "("%char) then _ else _) as [[b s1]|] eqn:E; [|done].
  destruct (suffix b s1) as [[b' s2]|] eqn:E1; [|done]. intros H%IH. apply suffix_shortens in E1.
  apply item_shortens_if in E; [|apply IH]. simpl in *. lia.
Qed.
Lemma item_shortens f c s b s1 :
  (if decide (c = "("%char) then group f s else atom f c s) = Ok (b, s1) →
  (String.length s1 ≤ String.length s)%nat.
Proof. apply item_shortens_if, parse_shortens. Qed.
Lemma parse_fuel f f' alts cat s :
  (String.length s < f)%nat → (String.length s < f')%nat → parse f alts cat s = parse f' alts cat s.
Proof.
  revert f' alts cat s. induction f as [|f IH]; intros [|f'] alts cat s Hf Hf'; try lia.
  destruct s as [|c s]; [done|]. simpl in Hf, Hf'.
  destruct (decide (c = ")"%char)) as [->|Hc]; [done|].
  destruct (decide (c = "|"%char)) as [->|Hb].
  { exact (IH f' (Some (close_alt alts cat)) REmpty s ltac:(lia) ltac:(lia)). }
  rewrite !parse_cons //.
  assert (group f s = group f' s) as ->.
  { unfold group. destruct (group_open s) as [[n s3]|] eqn:E2; [|done]. apply group_open_shortens in E2.
    by rewrite (IH f'); [|simpl in *; lia..]. }
  rewrite (atom_fuel f f'); [|lia..].
  destruct (if decide (c = "("%char) then _ else _) as [[b s1]|] eqn:E; [|done].
  destruct (suffix b s1) as [[b' s2]|] eqn:E1; [|done]. apply suffix_shortens in E1.
  apply item_shortens in E. apply IH; simpl in *; lia.
Qed.

(** ** Steps of parsing

    [parse_all] has enough fuel. *)
Definition parse_all (alts : option re) (cat : re) (s : string) : result (re * string) :=
  parse (S (String.length s)) alts cat s.
Lemma parse_enough f alts cat s : (String.length s < f)%nat → parse f alts cat s = parse_all alts cat s.
Proof. intros Hf. apply parse_fuel; lia. Qed.

(** The text does not begin with a repetition. *)
Definition plain_start (s : string) : Prop := rep_op s = Ok None.
Lemma suffix_plain a s : plain_start s → suffix a s = Ok (a, s).
Proof. unfold suffix, plain_start. by intros ->. Qed.

Lemma parse_all_step alts cat c s a r :
  c ≠ ")"%char → c ≠ "|"%char → plain_start r →
  (∀ f, (String.length s < f)%nat → (if decide (c = "("%char) then group f s else atom f c s) = Ok (a, r)) →
  parse_all alts cat (String c s) = parse_all alts (RCat cat a) r.
Proof.
  intros Hc Hb Hr Hs. unfold parse_all at 1. cbn [String.length]. rewrite parse_cons // Hs; [|lia].
  rewrite suffix_plain //. apply parse_enough.
  pose proof (item_shortens _ _ _ _ _ (Hs (S (String.length s)) ltac:(lia))). lia.
Qed.

Lemma parse_begin alts cat s :
  plain_start s → parse_all alts cat (String "^" s) = parse_all alts (RCat cat RBegin) s.
Proof. intros Hs. by apply parse_all_step. Qed.
Lemma parse_finish alts cat : parse_all alts cat "$" = Ok (close_alt alts (RCat cat RFinish), "").
Proof. done. Qed.

(** Quoted text stands for itself. *)
Lemma special_escape c s : has_char c special = true → escape (String c s) = Ok (RChar c, s).
Proof. intros Hc. all_bytes c. Qed.
Lemma quoted_plain c s : plain_start (quote_char c +:+ s).
Proof.
  unfold plain_start, quote_char. destruct (has_char c special) eqn:E; [done|].
  assert (c ≠ "*"%char ∧ c ≠ "+"%char ∧ c ≠ "?"%char ∧ c ≠ "{"%char) as (H1 & H2 & H3 & H4).
  { split_and!; intros ->; done. }
  unfold rep_op. simpl. unfold strip_prefix. by repeat (case_decide; [congruence|]).
Qed.
Lemma parse_quoted alts cat c s :
  plain_start s → parse_all alts cat (quote_char c +:+ s) = parse_all alts (RCat cat (RChar c)) s.
Proof.
  intros Hs. pose proof (quoted_plain c s) as Hp. unfold quote_char in *.
  destruct (has_char c special) eqn:E; simpl.
  - apply parse_all_step; [done..|]. intros f _. exact (special_escape c s E).
  - assert (∀ d, has_char d special = true → c ≠ d) as Hd by (intros d Hd ->; congruence).
    apply parse_all_step; [by apply Hd..|done|]. intros f _.
    rewrite decide_False; [|by apply Hd]. unfold atom.
    rewrite !decide_False; [|by apply Hd..]. simpl in Hp. unfold plain_start in Hp. by rewrite Hp.
Qed.
Definition cat_text (cat : re) (s : string) : re := foldl (λ r c, RCat r (RChar c)) cat (String.list_ascii_of_string s).
Lemma QuoteMeta_plain raw s : plain_start s → plain_start (QuoteMeta raw +:+ s).
Proof.
  intros Hs. destruct raw as [|c raw]; [done|]. simpl. rewrite -str_app_assoc. apply quoted_plain.
Qed.
Lemma parse_QuoteMeta alts cat raw s :
  plain_start s → parse_all alts cat (QuoteMeta raw +:+ s) = parse_all alts (cat_text cat raw) s.
Proof.
  intros Hs. revert cat. induction raw as [|c raw IH]; intros cat; [done|].
  cbn [QuoteMeta flat_map_str]. rewrite -str_app_assoc parse_quoted; [by apply IH|].
  by apply QuoteMeta_plain.
Qed.

(** A pattern in a named group. *)
Lemma parse_group alts cat name patt r s :
  name ≠ "" → all_chars word name = true → parse_all None REmpty patt = Ok (r, "") → plain_start s →
  parse_all alts cat ("(?P<" +:+ name +:+ ">" +:+ patt +:+ ")" +:+ s) = parse_all alts (RCat cat (RGroup name r)) s.
Proof.
  intros Hne Hw Hp Hs. set (inner := patt +:+ ")" +:+ s).
  change ("(?P<" +:+ name +:+ ">" +:+ inner) with (String "(" ("?P<" +:+ name +:+ ">" +:+ inner)).
  assert (group_open ("?P<" +:+ name +:+ ">" +:+ inner) = Ok (Some name, inner)) as Ho.
  { unfold group_open. rewrite (strip_prefix_app "?P<"). change (">" +:+ inner) with (String ">" inner).
    rewrite take_until_app; [by rewrite bool_decide_eq_true_2 // Hw|]. by eapply all_chars_has. }
  apply parse_all_step; [done..|]. intros f Hf.
  change (group f ("?P<" +:+ name +:+ ">" +:+ inner) = Ok (RGroup name r, s)). unfold group. rewrite Ho.
  assert (String.length inner < f)%nat as Hl.
  { rewrite !str_length_app in Hf. unfold inner. rewrite !str_length_app. simpl in *. lia. }
  unfold inner in *.
  rewrite (parse_extends ")" s (or_introl eq_refl) f None REmpty patt r "") //; [|by left].
  rewrite parse_enough //. rewrite str_length_app in Hl. lia.
Qed.

(** ** Anchored patterns

    The items of a pattern and the alternatives behind its first one do not depend on
    what stands before it. *)
Lemma parse_shape f s :
  (∃ e, ∀ alts cat, parse f alts cat s = Err e) ∨
  ∃ l bs r, ∀ alts cat, parse f alts cat s = Ok (foldl RAlt (close_alt alts (foldl RCat cat l)) bs, r).
Proof.
  revert s. induction f as [|f IH]; intros s; [left; by eexists|].
  destruct s as [|c s]; [right; by exists [], [], ""|].
  destruct (decide (c = ")"%char)) as [->|Hc]; [right; by exists [], [], (String ")" s)|].
  destruct (decide (c = "|"%char)) as [->|Hb].
  { destruct (IH s) as [[e He]|(l & bs & r & Hl)].
    - left. exists e. intros alts cat. apply He.
    - right. exists [], (foldl RCat REmpty l :: bs), r. intros alts cat. apply (Hl (Some (close_alt alts cat)) REmpty). }
  destruct (if decide (c = "("%char) then group f s else atom f c s) as [[a s1]|e] eqn:E.
  2: { left. exists e. intros alts cat. by rewrite parse_cons // E. }
  destruct (suffix a s1) as [[b s2]|e] eqn:E2.
  2: { left. exists e. intros alts cat. by rewrite parse_cons // E E2. }
  destruct (IH s2) as [[e He]|(l & bs & r & Hl)].
  - left. exists e. intros alts cat. by rewrite parse_cons // E E2.
  - right. exists (b :: l), bs, r. intros alts cat. rewrite parse_cons // E E2. apply Hl.
Qed.

(** No alternatives outside of groups. *)
Definition single (r : re) : bool := match r with RAlt _ _ => false | _ => true end.
Lemma alts_not_single y bs : single y = false → single (foldl RAlt y bs) = false.
Proof. revert y. induction bs as [|b bs IH]; intros y Hy; [done|]. by apply IH. Qed.
Lemma single_foldl x bs : single (foldl RAlt x bs) = true → bs = [].
Proof. destruct bs as [|b bs]; [done|]. simpl. by rewrite alts_not_single. Qed.
Lemma parse_alts f a cat s r rest : parse f (Some a) cat s = Ok (r, rest) → single r = false.
Proof.
  destruct (parse_shape f s) as [[e He]|(l & bs & t & Hl)]; [by rewrite He|]. rewrite Hl.
  intros [= <- _]. destruct (single _) eqn:E; [|done]. pose proof E as ->%single_foldl. done.
Qed.

Lemma parse_dollar f cat s r :
  parse f None cat s = Ok (r, "") → single r = true → (S (String.length s) < f)%nat →
  parse f None cat (s +:+ "$") = Ok (RCat r RFinish, "").
Proof.
  revert cat s. induction f as [|f IH]; intros cat s; [done|]. destruct s as [|c s].
  { intros [= <-] _ ?. destruct f; [lia|]. done. }
  destruct (decide (c = ")"%char)) as [->|Hc]; [by intros [=]|].
  destruct (decide (c = "|"%char)) as [->|Hb].
  { change (parse (S f) None cat (String "|" s)) with (parse f (Some cat) REmpty s).
    intros ->%parse_alts. done. }
  change (String c s +:+ "$") with (String c (s +:+ "$")). rewrite !parse_cons //.
  destruct (if decide (c = "("%char) then _ else _) as [[b s1]|] eqn:E; [|done].
  destruct (suffix b s1) as [[b' s2]|] eqn:E2; [|done]. intros Hp Hr Hf.
  assert ((if decide (c = "("%char) then group f (s +:+ "$") else atom f c (s +:+ "$")) = Ok (b, s1 +:+ "$")) as ->.
  { case_decide; [apply group_extends|apply atom_extends]; auto. }
  rewrite (suffix_extends "$" "" (or_intror eq_refl) _ _ _ _ E2). apply IH; [done..|].
  apply suffix_shortens in E2. apply item_shortens in E. simpl in *. lia.
Qed.

Lemma parse_plain f alts cat s x : parse f alts cat s = Ok x → plain_start s.
Proof.
  destruct f as [|f]; [done|]. destruct s as [|c s]; [done|].
  destruct (decide (c = ")"%char)) as [->|Hc]; [done|]. destruct (decide (c = "|"%char)) as [->|Hb]; [done|].
  rewrite parse_cons //. destruct (decide (c = "("%char)) as [->|Hp]; [done|]. unfold atom.
  destruct (decide (c = "["%char)) as [->|]; [done|]. destruct (decide (c = "."%char)) as [->|]; [done|].
  destruct (decide (c = "^"%char)) as [->|]; [done|]. destruct (decide (c = "$"%char)) as [->|]; [done|].
  destruct (decide (c = "\"%char)) as [->|]; [done|]. unfold plain_start.
  by destruct (rep_op (String c s)) as [[|]|].
Qed.
Lemma plain_dollar s : plain_start s → plain_start (s +:+ "$").
Proof. unfold plain_start. rewrite rep_op_paren; [|by right]. by intros ->. Qed.

Lemma rstep_items cat l x y :
  rstep (foldl RCat cat l) x y ↔ ∃ z, rstep cat x z ∧ rstep (foldl RCat REmpty l) z y.
Proof.
  revert cat x. induction l as [|a l IH]; intros cat x; simpl; [naive_solver|].
  rewrite IH. setoid_rewrite (IH (RCat REmpty a)). simpl. naive_solver.
Qed.

(** A pattern of one alternative without anchors, put between anchors, matches the
    texts of its language. *)
Lemma Compile_anchored patt r :
  parse_all None REmpty patt = Ok (r, "") → single r = true → free r = true →
  ∃ R, Compile ("^" +:+ patt +:+ "$") = Ok R ∧ ∀ v, MatchString R v = true ↔ lang r v.
Proof.
  intros Hp Hs Hf. pose proof (parse_shape (S (S (String.length patt))) patt) as [[e He]|(l & bs & t & Hl)].
  { rewrite -(parse_enough (S (S (String.length patt)))) in Hp; [|lia]. by rewrite He in Hp. }
  pose proof Hp as Hp'. rewrite -(parse_enough (S (S (String.length patt)))) in Hp'; [|lia].
  rewrite Hl in Hp'. injection Hp' as <- ->. apply single_foldl in Hs as Hbs. subst bs.
  cbn [foldl close_alt] in *.
  exists (mkRe ("^" +:+ patt +:+ "$") (RCat (foldl RCat (RCat REmpty RBegin) l) RFinish)). split.
  - unfold Compile. change (parse _ None REmpty ?s) with (parse_all None REmpty s).
    change ("^" +:+ patt +:+ "$") with (String "^" (patt +:+ "$")).
    rewrite parse_begin; [|by apply plain_dollar, (parse_plain (S (String.length patt)) None REmpty _ _ Hp)].
    rewrite -(parse_enough (S (S (String.length patt)))); [|rewrite str_length_app; simpl; lia].
    rewrite (parse_dollar _ _ _ (foldl RCat (RCat REmpty RBegin) l)); [done|apply (Hl None)| |lia].
    clear. induction l as [|a l IH] using rev_ind; [done|]. by rewrite foldl_app.
  - intros v. rewrite MatchString_spec. cbn [re_ast rstep]. split.
    + intros (a & b & y & -> & [q t] & (z & (w & <- & <- & Ha) & Hz)%rstep_items & <- & Ht).
      simpl in Ha, Ht. subst t. destruct a; [|done]. simpl in *. apply rstep_lang in Hz as (w' & -> & -> & Hw); [|done].
      by rewrite str_app_nil_r.
    + intros Hv. exists "", v, (String.length v, ""). split; [done|]. exists (String.length v, "").
      split; [|done]. rewrite rstep_items. exists (0, v). split; [|done]. by exists (0, v).
Qed.
End GoRegexpParse.
