(* ===== verification/MuxRoute.v ===== *)
(** * gorilla/mux: the whole package

    [src/src/github.com/gorilla/mux]: [regexp.go], [route.go] and [mux.go] with all
    matchers, subrouters, named routes and the building of URLs.  Routes and routers
    are objects that refer to each other, so they live in a store and are numbered
    as they are made; the slice of query templates is an array of the store, since
    routes share it.  [Mux] is the part of the package the bundler uses, as
    functions on plain values; [MuxCorrect] proves that it agrees with this one.

    [url.Parse] and [URL.String] are parameters; a template whose text is a
    directive of [fmt] other than [%s], [%v], [%%] or a letter that strings do not
    have is answered with an error here when a URL is built from it. *)

From S2P Require Import Prelude GoStrings GoUrl GoRegexp Mux AmzSign.
Import GoRegexp.

Module MuxRoute.

(** ** Requests *)

(** [url.URL] and the parts of an [http.Request] that matchers look at. *)
Record URL := mkURL { u_Scheme : string; u_Host : string; u_Path : string; u_RawQuery : string }.
Record request := mkReq {
  rq_Method : string;
  rq_URL : URL;
  rq_Host : string;
  rq_Header : gmap string (list string);
}.

Class UrlText := {
  url_String : URL → string;
  url_Parse : string → result URL;
}.

(** [url.QueryUnescape] *)
Definition unhex (c : ascii) : option N :=
  let n := N_of_ascii c in
  if bool_decide (48 ≤ n ≤ 57)%N then Some (n - 48)%N
  else if bool_decide (97 ≤ n ≤ 102)%N then Some (n - 87)%N
  else if bool_decide (65 ≤ n ≤ 70)%N then Some (n - 55)%N
  else None.
Fixpoint QueryUnescape (s : string) : option string :=
  match s with
  | "" => Some ""
  | String c s =>
      if decide (c = "%"%char) then
        match s with
        | String a (String b s) =>
            match unhex a, unhex b with
            | Some a, Some b => String (ascii_of_N (a * 16 + b)) <$> QueryUnescape s
            | _, _ => None
            end
        | _ => None
        end
      else String (if decide (c = "+"%char) then " "%char else c) <$> QueryUnescape s
  end.

(** [URL.Query]: pairs separated by [&] or [;]; one that cannot be read is left out. *)
Definition query_pair (s : string) : option (string * string) :=
  let '(k, v) := match take_until "="%char s with Some p => p | None => (s, "") end in
  match QueryUnescape k, QueryUnescape v with
  | Some k, Some v => Some (k, v)
  | _, _ => None
  end.
Definition Query (u : URL) : gmap string (list string) :=
  foldl (λ q s, if decide (s = "") then q
                else match query_pair s with Some (k, v) => AmzSign.values_Add k v q | None => q end)
    ∅ (Split (u_RawQuery u) "&"%char ≫= λ s, Split s ";"%char).

(** [getHost] *)
Definition getHost (r : request) : string :=
  if decide (u_Scheme (rq_URL r) ≠ "") then u_Host (rq_URL r)
  else match take_until ":"%char (rq_Host r) with Some (h, _) => h | None => rq_Host r end.

(** ** Templates ([regexp.go]) *)

(** [fmt.Sprintf] with strings for arguments; [dir] is set behind a percent sign. *)
Definition letter_verb (c : ascii) : bool := letter c && negb (has_char c "qxXTp").
Definition extra_args (args : list string) : list string := (λ a, "string=" +:+ a) <$> args.
Fixpoint sprintf_go (dir : bool) (f : string) (args : list string) : option string :=
  match f with
  | "" =>
      Some ((if dir then "%!(NOVERB)" else "") +:+
            match args with [] => "" | _ => "%!(EXTRA " +:+ Join (extra_args args) ", " +:+ ")" end)
  | String c f =>
      if dir then
        if decide (c = "%"%char) then String "%" <$> sprintf_go false f args
        else if letter_verb c then
          match args with
          | [] => (λ r, "%!" +:+ String c "(MISSING)" +:+ r) <$> sprintf_go false f []
          | a :: args =>
              let t := if has_char c "sv" then a else "%!" +:+ String c "(string=" +:+ a +:+ ")" in
              (λ r, t +:+ r) <$> sprintf_go false f args
          end
        else None
      else if decide (c = "%"%char) then sprintf_go true f args
      else String c <$> sprintf_go false f args
  end.
Definition Sprintf (f : string) (args : list string) : option string := sprintf_go false f args.

(** [routeRegexp] *)
Record routeRegexp := mkRR {
  rr_template : string;
  rr_matchHost : bool;
  rr_matchQuery : bool;
  rr_strictSlash : bool;
  rr_regexp : Regexp;
  rr_reverse : string;
  rr_varsN : list string;
  rr_varsR : list Regexp;
}.

(** [varGroupName] *)
Definition varGroupName (idx : nat) : string := "v" +:+ pretty idx.

(** The loop of [newRouteRegexp] over the brace pairs; [i] is [varIdx]. *)
Fixpoint template_loop (tpl dflt : string) (i : nat) (idxs : list (Z * Z)) (endp : Z)
    (pattern reverse : string) (varsN : list string) (varsR : list Regexp) :
    result (Z * string * string * list string * list Regexp) :=
  match idxs with
  | [] => Ok (endp, pattern, reverse, varsN, varsR)
  | (a, b) :: idxs =>
      let raw := Mux.substr tpl endp a in
      let body := Mux.substr tpl (a + 1) (b - 1) in
      let '(name, patt) := match take_until ":"%char body with Some p => p | None => (body, dflt) end in
      if bool_decide (name = "") || bool_decide (patt = "") then Err (ErrorS "mux: missing name or pattern")
      else
        match Compile ("^" +:+ patt +:+ "$") with
        | Err e => Err e
        | Ok re =>
            template_loop tpl dflt (S i) idxs b
              (pattern +:+ QuoteMeta raw +:+ "(?P<" +:+ varGroupName i +:+ ">" +:+ patt +:+ ")")
              (reverse +:+ raw +:+ "%s") (varsN ++ [name]) (varsR ++ [re])
        end
  end.

(** [newRouteRegexp]; the template of a query has the form [key=value]. *)
Definition newRouteRegexp (tpl : string) (matchHost matchPrefix matchQuery strictSlash : bool) :
    result routeRegexp :=
  match Mux.braceIndices tpl with
  | Err e => Err e
  | Ok idxs =>
      let template := tpl in
      let defaultPattern := if matchQuery then "[^?&]*" else if matchHost then "[^.]+" else "[^/]+" in
      let matchPrefix := if matchQuery then matchPrefix else if matchHost then false else matchPrefix in
      let strictSlash := if matchPrefix || matchHost || matchQuery then false else strictSlash in
      let endSlash := strictSlash && HasSuffix tpl "/" in
      let tpl := if endSlash then Mux.substr tpl 0 (Z.of_nat (String.length tpl) - 1) else tpl in
      match template_loop tpl defaultPattern 0 idxs 0 "^" "" [] [] with
      | Err e => Err e
      | Ok (endp, pattern, reverse, varsN, varsR) =>
          let raw := Mux.substr tpl endp (Z.of_nat (String.length tpl)) in
          let queryVal := match take_until "="%char template with Some (_, v) => v | None => "" end in
          let pattern := pattern +:+ QuoteMeta raw +:+ (if strictSlash then "[/]?" else "") +:+
            (if matchQuery && bool_decide (queryVal = "") then defaultPattern else "") +:+
            (if matchPrefix then "" else "$") in
          match Compile pattern with
          | Err e => Err e
          | Ok reg =>
              Ok (mkRR template matchHost matchQuery strictSlash reg
                    (reverse +:+ raw +:+ (if endSlash then "/" else "")) varsN varsR)
          end
      end
  end.

(** [getUrlQuery]: a map has one entry for the key. *)
Definition getUrlQuery (r : routeRegexp) (req : request) : string :=
  if negb (rr_matchQuery r) then ""
  else
    let templateKey := match take_until "="%char (rr_template r) with Some (k, _) => k | None => rr_template r end in
    match Query (rq_URL req) !! templateKey with
    | Some (v :: _) => templateKey +:+ "=" +:+ v
    | _ => ""
    end.
(** [matchQueryString] *)
Definition matchQueryString (r : routeRegexp) (req : request) : bool :=
  MatchString (rr_regexp r) (getUrlQuery r req).
(** [routeRegexp.Match] *)
Definition rr_Match (r : routeRegexp) (req : request) : bool :=
  if negb (rr_matchHost r) then
    if rr_matchQuery r then matchQueryString r req
    else MatchString (rr_regexp r) (u_Path (rq_URL req))
  else MatchString (rr_regexp r) (getHost req).

(** [routeRegexp.url] *)
Fixpoint url_values (values : gmap string string) (varsN : list string) : result (list string) :=
  match varsN with
  | [] => Ok []
  | v :: varsN =>
      match values !! v with
      | None => Err (ErrorS ("mux: missing route variable " +:+ v))
      | Some value =>
          match url_values values varsN with Ok l => Ok (value :: l) | Err e => Err e end
      end
  end.
Fixpoint url_check (values : gmap string string) (varsN : list string) (varsR : list Regexp) : option error :=
  match varsN, varsR with
  | v :: varsN, r :: varsR =>
      let value := default "" (values !! v) in
      if negb (MatchString r value)
      then Some (ErrorS ("mux: variable " +:+ value +:+ " doesn't match, expected " +:+ re_text r))
      else url_check values varsN varsR
  | _, _ => None
  end.
Definition rr_url (r : routeRegexp) (values : gmap string string) : result string :=
  match url_values values (rr_varsN r) with
  | Err e => Err e
  | Ok urlValues =>
      match Sprintf (rr_reverse r) urlValues with
      | None => Err (ErrorS "directive outside the model")
      | Some rv =>
          if negb (MatchString (rr_regexp r) rv) then
            match url_check values (rr_varsN r) (rr_varsR r) with
            | Some e => Err e
            | None => Ok rv
            end
          else Ok rv
      end
  end.

(** ** Objects *)

(** A slice of query templates: its array and its length; the capacity is the length
    of the array. *)
Record slice := mkSlice { sl_arr : option nat; sl_len : nat }.

(** [routeRegexpGroup] *)
Record Group := mkGroup {
  g_host : option routeRegexp;
  g_path : option routeRegexp;
  g_queries : slice;
}.

Section mux.
Context `{!UrlText} {Hn : Type}.

(** An [http.Handler]: one of the program's own, a router, or the redirect that
    [setMatch] makes. *)
Inductive handler := HUser (h : Hn) | HRouter (o : nat) | HRedirect (url : string) (code : Z).

(** [RouteMatch] *)
Record RouteMatch := mkMatch {
  m_Route : option nat;
  m_Handler : option handler;
  m_Vars : option (gmap string string);
}.

(** [matcher]: the types that implement it.  A function of the program is one that ends
    and only looks at its arguments. *)
Inductive matcher :=
| MRegexp (rr : routeRegexp)
| MHeader (m : gmap string string)
| MHeaderRegex (m : gmap string Regexp)
| MFunc (f : request → RouteMatch → bool * RouteMatch)
| MMethod (l : list string)
| MScheme (l : list string)
| MRouter (o : nat).

(** [Route] *)
Record Route := mkRoute {
  rt_parent : option nat;
  rt_handler : option handler;
  rt_matchers : list matcher;
  rt_regexp : option Group;
  rt_strictSlash : bool;
  rt_buildOnly : bool;
  rt_name : string;
  rt_err : option error;
  rt_buildVarsFunc : option (gmap string string → gmap string string);
}.

(** [Router] *)
Record Router := mkRouter {
  ro_NotFoundHandler : option handler;
  ro_parent : option nat;
  ro_routes : list nat;
  ro_namedRoutes : option nat;
  ro_strictSlash : bool;
  ro_KeepContext : bool;
}.

Record store := mkStore {
  st_routes : list Route;
  st_routers : list Router;
  st_arrays : list (list (option routeRegexp));
  st_names : list (gmap string nat);
}.
Definition new_store : store := mkStore [] [] [] [].
Definition MS : Type → Type := M store.

Definition set_routes (l : list Route) (st : store) : store :=
  mkStore l (st_routers st) (st_arrays st) (st_names st).
Definition set_routers (l : list Router) (st : store) : store :=
  mkStore (st_routes st) l (st_arrays st) (st_names st).
Definition set_arrays (l : list (list (option routeRegexp))) (st : store) : store :=
  mkStore (st_routes st) (st_routers st) l (st_names st).
Definition set_names (l : list (gmap string nat)) (st : store) : store :=
  mkStore (st_routes st) (st_routers st) (st_arrays st) l.

(** Reading and writing through a pointer. *)
Definition route (i : nat) : MS Route := λ st,
  match st_routes st !! i with Some r => (Ret r, st) | None => (Crash nil_deref, st) end.
Definition router (o : nat) : MS Router := λ st,
  match st_routers st !! o with Some r => (Ret r, st) | None => (Crash nil_deref, st) end.
Definition upd_route (i : nat) (f : Route → Route) : MS () :=
  modify (λ st, set_routes (alter f i (st_routes st)) st).
Definition upd_router (o : nat) (f : Router → Router) : MS () :=
  modify (λ st, set_routers (alter f o (st_routers st)) st).

(** The elements of a slice, and [append]: in place while the array has room, else
    in a new array of twice the size. *)
Definition sl_elems (st : store) (s : slice) : list routeRegexp :=
  match sl_arr s with
  | None => []
  | Some a => omap id (take (sl_len s) (default [] (st_arrays st !! a)))
  end.
Definition sl_append (s : slice) (x : routeRegexp) : MS slice := λ st,
  let arr := match sl_arr s with Some a => default [] (st_arrays st !! a) | None => [] end in
  if decide (sl_len s < length arr)%nat then
    (Ret (mkSlice (sl_arr s) (S (sl_len s))),
     set_arrays (match sl_arr s with
                 | Some a => <[a := <[sl_len s := Some x]> arr]> (st_arrays st)
                 | None => st_arrays st end) st)
  else
    let cap := Nat.max 1 (2 * length arr) in
    (Ret (mkSlice (Some (length (st_arrays st))) (S (sl_len s))),
     set_arrays (st_arrays st ++ [take (sl_len s) arr ++ [Some x] ++ replicate (cap - S (sl_len s)) None]) st).

(** Fields of routes. *)
Definition set_handler (h : option handler) (r : Route) : Route :=
  mkRoute (rt_parent r) h (rt_matchers r) (rt_regexp r) (rt_strictSlash r) (rt_buildOnly r) (rt_name r)
    (rt_err r) (rt_buildVarsFunc r).
Definition set_matchers (l : list matcher) (r : Route) : Route :=
  mkRoute (rt_parent r) (rt_handler r) l (rt_regexp r) (rt_strictSlash r) (rt_buildOnly r) (rt_name r)
    (rt_err r) (rt_buildVarsFunc r).
Definition set_regexp (g : option Group) (r : Route) : Route :=
  mkRoute (rt_parent r) (rt_handler r) (rt_matchers r) g (rt_strictSlash r) (rt_buildOnly r) (rt_name r)
    (rt_err r) (rt_buildVarsFunc r).
Definition set_parent (o : option nat) (r : Route) : Route :=
  mkRoute o (rt_handler r) (rt_matchers r) (rt_regexp r) (rt_strictSlash r) (rt_buildOnly r) (rt_name r)
    (rt_err r) (rt_buildVarsFunc r).
Definition set_name (n : string) (r : Route) : Route :=
  mkRoute (rt_parent r) (rt_handler r) (rt_matchers r) (rt_regexp r) (rt_strictSlash r) (rt_buildOnly r) n
    (rt_err r) (rt_buildVarsFunc r).
Definition set_err (e : option error) (r : Route) : Route :=
  mkRoute (rt_parent r) (rt_handler r) (rt_matchers r) (rt_regexp r) (rt_strictSlash r) (rt_buildOnly r)
    (rt_name r) e (rt_buildVarsFunc r).
Definition set_buildOnly (r : Route) : Route :=
  mkRoute (rt_parent r) (rt_handler r) (rt_matchers r) (rt_regexp r) (rt_strictSlash r) true
    (rt_name r) (rt_err r) (rt_buildVarsFunc r).
Definition set_buildVarsFunc (f : gmap string string → gmap string string) (r : Route) : Route :=
  mkRoute (rt_parent r) (rt_handler r) (rt_matchers r) (rt_regexp r) (rt_strictSlash r) (rt_buildOnly r)
    (rt_name r) (rt_err r) (Some f).

(** ** Routers and routes: making and finding them *)

(** [NewRouter] *)
Definition alloc_names : MS nat := λ st,
  (Ret (length (st_names st)), set_names (st_names st ++ [∅]) st).
Definition alloc_router (r : Router) : MS nat := λ st,
  (Ret (length (st_routers st)), set_routers (st_routers st ++ [r]) st).
Definition NewRouter : MS nat :=
  n ← alloc_names;
  alloc_router (mkRouter None None [] (Some n) false false).

(** [Router.NewRoute] *)
Definition NewRoute (o : nat) : MS nat :=
  ro ← router o;
  i ← gets (λ st, length (st_routes st));
  modify (λ st, set_routes (st_routes st ++
    [mkRoute (Some o) None [] None (ro_strictSlash ro) false "" None None]) st);;
  upd_router o (λ ro, mkRouter (ro_NotFoundHandler ro) (ro_parent ro) (ro_routes ro ++ [i])
    (ro_namedRoutes ro) (ro_strictSlash ro) (ro_KeepContext ro));;
  mret i.

(** [Router.StrictSlash] *)
Definition StrictSlash (o : nat) (value : bool) : MS nat :=
  upd_router o (λ ro, mkRouter (ro_NotFoundHandler ro) (ro_parent ro) (ro_routes ro)
    (ro_namedRoutes ro) value (ro_KeepContext ro));;
  mret o.

(** A route that has no parent is given a new router. *)
Definition parent_of (i : nat) : MS nat :=
  r ← route i;
  match rt_parent r with
  | Some o => mret o
  | None => o ← NewRouter; upd_route i (set_parent (Some o));; mret o
  end.

Definition no_fuel {W A} : M W A := throw (Fatal "out of fuel").

(** [getNamedRoutes] of a router, up through the parents; the map is remembered. *)
Fixpoint Router_getNamedRoutes (f : nat) (o : nat) : MS nat :=
  match f with
  | O => no_fuel
  | S f =>
      ro ← router o;
      match ro_namedRoutes ro with
      | Some n => mret n
      | None =>
          n ← match ro_parent ro with
              | Some i => o' ← parent_of i; Router_getNamedRoutes f o'
              | None => alloc_names
              end;
          upd_router o (λ ro, mkRouter (ro_NotFoundHandler ro) (ro_parent ro) (ro_routes ro)
            (Some n) (ro_strictSlash ro) (ro_KeepContext ro));;
          mret n
      end
  end.
(** [Route.getNamedRoutes] *)
Definition getNamedRoutes (f : nat) (i : nat) : MS nat :=
  o ← parent_of i; Router_getNamedRoutes f o.

(** [Route.getRegexpGroup], with [Router.getRegexpGroup] of its parent: a copy of the
    group of the route the router was made for. *)
Fixpoint getRegexpGroup (f : nat) (i : nat) : MS Group :=
  match f with
  | O => no_fuel
  | S f =>
      r ← route i;
      match rt_regexp r with
      | Some g => mret g
      | None =>
          o ← parent_of i;
          ro ← router o;
          g ← match ro_parent ro with
              | Some j => getRegexpGroup f j
              | None => mret (mkGroup None None (mkSlice None 0))
              end;
          upd_route i (set_regexp (Some g));;
          mret g
      end
  end.

(** [Route.buildVars], with [Router.buildVars] of its parent. *)
Fixpoint buildVars (f : nat) (i : nat) (m : gmap string string) : MS (gmap string string) :=
  match f with
  | O => no_fuel
  | S f =>
      r ← route i;
      m ← match rt_parent r with
          | None => mret m
          | Some o =>
              ro ← router o;
              match ro_parent ro with Some j => buildVars f j m | None => mret m end
          end;
      mret (match rt_buildVarsFunc r with Some g => g m | None => m end)
  end.

(** Parents are numbered before their children. *)
Definition depth : MS nat := gets (λ st, S (length (st_routers st))).

(** [Router.Get] and [Router.GetRoute] *)
Definition Get (o : nat) (name : string) : MS (option nat) :=
  f ← depth;
  n ← Router_getNamedRoutes f o;
  gets (λ st, default ∅ (st_names st !! n) !! name).

(** ** Attributes and matchers ([route.go]) *)

(** [GetError], [GetHandler], [GetName], [BuildOnly], [Handler] (and [HandlerFunc]) *)
Definition GetError (i : nat) : MS (option error) := r ← route i; mret (rt_err r).
Definition GetHandler (i : nat) : MS (option handler) := r ← route i; mret (rt_handler r).
Definition GetName (i : nat) : MS string := r ← route i; mret (rt_name r).
Definition BuildOnly (i : nat) : MS nat := upd_route i set_buildOnly;; mret i.
Definition Handler (i : nat) (h : handler) : MS nat :=
  r ← route i;
  (if decide (rt_err r = None) then upd_route i (set_handler (Some h)) else mret tt);;
  mret i.

(** [Route.Name] *)
Definition Name (i : nat) (name : string) : MS nat :=
  r ← route i;
  (if decide (rt_name r ≠ "") then
     upd_route i (set_err (Some (ErrorS ("mux: route already has name " +:+ rt_name r +:+ ", can't set " +:+ name))))
   else mret tt);;
  r ← route i;
  (if decide (rt_err r = None) then
     upd_route i (set_name name);;
     f ← depth;
     n ← getNamedRoutes f i;
     modify (λ st, set_names (alter (<[name := i]>) n (st_names st)) st)
   else mret tt);;
  mret i.

(** [addMatcher] *)
Definition addMatcher (i : nat) (m : matcher) : MS nat :=
  r ← route i;
  (if decide (rt_err r = None) then upd_route i (λ r, set_matchers (rt_matchers r ++ [m]) r) else mret tt);;
  mret i.

(** [uniqueVars] *)
Fixpoint uniqueVars (s1 s2 : list string) : option error :=
  match s1 with
  | [] => None
  | v1 :: s1 =>
      if Mux.matchInArray s2 v1 then Some (ErrorS ("mux: duplicated route variable " +:+ v1))
      else uniqueVars s1 s2
  end.
(** The first of the groups that shares a variable. *)
Fixpoint unique_all (varsN : list string) (l : list routeRegexp) : option error :=
  match l with
  | [] => None
  | q :: l => match uniqueVars varsN (rr_varsN q) with Some e => Some e | None => unique_all varsN l end
  end.

(** [addRegexpMatcher] *)
Definition addRegexpMatcher (i : nat) (tpl : string) (matchHost matchPrefix matchQuery : bool) :
    MS (option error) :=
  r ← route i;
  match rt_err r with
  | Some e => mret (Some e)
  | None =>
      f ← depth;
      g ← getRegexpGroup f i;
      let isPath := negb matchHost && negb matchQuery in
      if isPath && negb (HasPrefix tpl "/") then
        mret (Some (ErrorS ("mux: path must start with a slash, got " +:+ tpl)))
      else
        let tpl := match g_path g with
                   | Some p => if isPath then Mux.trim_right_slash (rr_template p) +:+ tpl else tpl
                   | None => tpl
                   end in
        match newRouteRegexp tpl matchHost matchPrefix matchQuery (rt_strictSlash r) with
        | Err e => mret (Some e)
        | Ok rr =>
            queries ← gets (λ st, sl_elems st (g_queries g));
            let other := if matchHost then g_path g else g_host g in
            match unique_all (rr_varsN rr) (queries ++ option_list other) with
            | Some e => mret (Some e)
            | None =>
                g' ← (if matchHost then mret (mkGroup (Some rr) (g_path g) (g_queries g))
                      else if matchQuery then
                        q ← sl_append (g_queries g) rr; mret (mkGroup (g_host g) (g_path g) q)
                      else mret (mkGroup (g_host g) (Some rr) (g_queries g)));
                upd_route i (set_regexp (Some g'));;
                addMatcher i (MRegexp rr);;
                mret None
            end
        end
  end.

(** [Host], [Path], [PathPrefix] *)
Definition regexp_method (i : nat) (tpl : string) (matchHost matchPrefix : bool) : MS nat :=
  e ← addRegexpMatcher i tpl matchHost matchPrefix false;
  upd_route i (set_err e);;
  mret i.
Definition Host (i : nat) (tpl : string) : MS nat := regexp_method i tpl true false.
Definition Path (i : nat) (tpl : string) : MS nat := regexp_method i tpl false false.
Definition PathPrefix (i : nat) (tpl : string) : MS nat := regexp_method i tpl false true.

(** [Queries]: [nil] for an odd number of arguments. *)
Fixpoint queries_loop (i : nat) (pairs : list string) : MS () :=
  match pairs with
  | k :: v :: pairs =>
      e ← addRegexpMatcher i (k +:+ "=" +:+ v) false false true;
      upd_route i (set_err e);;
      match e with Some _ => mret tt | None => queries_loop i pairs end
  | _ => mret tt
  end.
Definition pairs_error : error := ErrorS "mux: number of parameters must be multiple of 2".
Definition Queries (i : nat) (pairs : list string) : MS (option nat) :=
  if Nat.odd (length pairs) then upd_route i (set_err (Some pairs_error));; mret None
  else queries_loop i pairs;; mret (Some i).

(** [checkPairs], [mapFromPairsToString], [mapFromPairsToRegex] *)
Definition checkPairs (pairs : list string) : option error :=
  if Nat.odd (length pairs) then Some pairs_error else None.
Fixpoint pairs_map (m : gmap string string) (pairs : list string) : gmap string string :=
  match pairs with
  | k :: v :: pairs => pairs_map (<[k := v]> m) pairs
  | _ => m
  end.
Definition mapFromPairsToString (pairs : list string) : result (gmap string string) :=
  match checkPairs pairs with Some e => Err e | None => Ok (pairs_map ∅ pairs) end.
Fixpoint pairs_regex (m : gmap string Regexp) (pairs : list string) : result (gmap string Regexp) :=
  match pairs with
  | k :: v :: pairs => match Compile v with Ok r => pairs_regex (<[k := r]> m) pairs | Err e => Err e end
  | _ => Ok m
  end.
Definition mapFromPairsToRegex (pairs : list string) : result (gmap string Regexp) :=
  match checkPairs pairs with Some e => Err e | None => pairs_regex ∅ pairs end.

(** [Headers], [HeadersRegexp]: after an error the matcher is not added. *)
Definition pairs_method {A} (i : nat) (m : result A) (mk : A → matcher) : MS nat :=
  r ← route i;
  if decide (rt_err r = None) then
    match m with
    | Err e => upd_route i (set_err (Some e));; mret i
    | Ok m => addMatcher i (mk m)
    end
  else mret i.
Definition Headers (i : nat) (pairs : list string) : MS nat :=
  pairs_method i (mapFromPairsToString pairs) MHeader.
Definition HeadersRegexp (i : nat) (pairs : list string) : MS nat :=
  pairs_method i (mapFromPairsToRegex pairs) MHeaderRegex.

(** [MatcherFunc], [Methods], [Schemes], [BuildVarsFunc] *)
Definition MatcherFunc (i : nat) (f : request → RouteMatch → bool * RouteMatch) : MS nat := addMatcher i (MFunc f).
Definition Methods (i : nat) (methods : list string) : MS nat := addMatcher i (MMethod (ToUpper <$> methods)).
Definition Schemes (i : nat) (schemes : list string) : MS nat := addMatcher i (MScheme (ToLower <$> schemes)).
Definition BuildVarsFunc (i : nat) (f : gmap string string → gmap string string) : MS nat :=
  upd_route i (set_buildVarsFunc f);; mret i.

(** [Subrouter] *)
Definition Subrouter (i : nat) : MS nat :=
  r ← route i;
  o ← alloc_router (mkRouter None (Some i) [] None (rt_strictSlash r) false);
  addMatcher i (MRouter o);;
  mret o.

(** The methods of [Router] that make a route and set its first attribute. *)
Definition Router_Handle (o : nat) (path : string) (h : handler) : MS nat :=
  i ← NewRoute o; Path i path;; Handler i h.
Definition Router_Headers (o : nat) (pairs : list string) : MS nat := i ← NewRoute o; Headers i pairs.
Definition Router_Host (o : nat) (tpl : string) : MS nat := i ← NewRoute o; Host i tpl.
Definition Router_MatcherFunc (o : nat) (f : request → RouteMatch → bool * RouteMatch) : MS nat :=
  i ← NewRoute o; MatcherFunc i f.
Definition Router_Methods (o : nat) (methods : list string) : MS nat := i ← NewRoute o; Methods i methods.
Definition Router_Path (o : nat) (tpl : string) : MS nat := i ← NewRoute o; Path i tpl.
Definition Router_PathPrefix (o : nat) (tpl : string) : MS nat := i ← NewRoute o; PathPrefix i tpl.
Definition Router_Queries (o : nat) (pairs : list string) : MS (option nat) := i ← NewRoute o; Queries i pairs.
Definition Router_Schemes (o : nat) (schemes : list string) : MS nat := i ← NewRoute o; Schemes i schemes.
Definition Router_BuildVarsFunc (o : nat) (f : gmap string string → gmap string string) : MS nat :=
  i ← NewRoute o; BuildVarsFunc i f.

(** ** Matching *)

(** [matchMapWithString], [matchMapWithRegex], with canonical keys. *)
Definition matchMapWithString (toCheck : gmap string string) (toMatch : gmap string (list string)) : bool :=
  forallb (λ kv, match toMatch !! AmzSign.CanonicalHeaderKey kv.1 with
                 | None => false
                 | Some values => bool_decide (kv.2 = "") || Mux.matchInArray values kv.2
                 end) (map_to_list toCheck).
Definition matchMapWithRegex (toCheck : gmap string Regexp) (toMatch : gmap string (list string)) : bool :=
  forallb (λ kv, match toMatch !! AmzSign.CanonicalHeaderKey kv.1 with
                 | None => false
                 | Some values => existsb (MatchString kv.2) values
                 end) (map_to_list toCheck).

(** Matching changes the [RouteMatch] and reads the store. *)
Definition MM : Type → Type := M RouteMatch.
Definition set_Vars (v : gmap string string) (m : RouteMatch) : RouteMatch :=
  mkMatch (m_Route m) (m_Handler m) (Some v).
Definition set_Handler (h : option handler) (m : RouteMatch) : RouteMatch :=
  mkMatch (m_Route m) h (m_Vars m).
Definition out_of_range : crash := Panic "index out of range".

(** The loop of [setMatch] over the groups of a regexp: those named after a variable
    are stored under its name. *)
Fixpoint store_vars (varsN : list string) (varName : nat) (groups : list (string * string)) : MM () :=
  match groups with
  | [] => mret tt
  | (name, text) :: groups =>
      if decide (name ≠ "" ∧ name = varGroupName varName) then
        match varsN !! varName with
        | None => throw out_of_range
        | Some v =>
            modify (λ m, set_Vars (<[v := text]> (default ∅ (m_Vars m))) m);;
            store_vars varsN (S varName) groups
        end
      else store_vars varsN varName groups
  end.
Definition set_vars (rr : routeRegexp) (text : string) : MM bool :=
  match FindStringSubmatch (rr_regexp rr) text with
  | None => mret false
  | Some vals =>
      store_vars (rr_varsN rr) 0 (zip (group_names (re_ast (rr_regexp rr))) vals);;
      mret true
  end.

(** The redirect of [setMatch] to the path with or without its last slash. *)
Definition strict_redirect (p : routeRegexp) (req : request) : MM () :=
  let path := u_Path (rq_URL req) in
  let p1 := HasSuffix path "/" in
  let p2 := HasSuffix (rr_template p) "/" in
  if rr_strictSlash p && negb (eqb p1 p2) then
    match url_Parse (url_String (rq_URL req)) with
    | Err _ => throw nil_deref
    | Ok u =>
        if p1 && bool_decide (u_Path u = "") then throw out_of_range
        else
          let path := if p1 then Mux.substr (u_Path u) 0 (Z.of_nat (String.length (u_Path u)) - 1)
                      else u_Path u +:+ "/" in
          modify (set_Handler (Some (HRedirect
            (url_String (mkURL (u_Scheme u) (u_Host u) path (u_RawQuery u))) 301)))
    end
  else mret tt.

(** [setMatch] *)
Fixpoint set_queries (l : list routeRegexp) (req : request) : MM () :=
  match l with
  | [] => mret tt
  | q :: l => set_vars q (getUrlQuery q req);; set_queries l req
  end.
Definition setMatch (st : store) (g : Group) (req : request) : MM () :=
  match g_host g with Some h => set_vars h (getHost req);; mret tt | None => mret tt end;;
  match g_path g with
  | Some p =>
      ok ← set_vars p (u_Path (rq_URL req));
      if ok : bool then strict_redirect p req else mret tt
  | None => mret tt
  end;;
  set_queries (sl_elems st (g_queries g)) req.

(** The [Match] methods of the matchers; [sub] is [Router.Match]. *)
Definition matcher_Match (sub : nat → MM bool) (req : request) (m : matcher) : MM bool :=
  match m with
  | MRegexp rr => mret (rr_Match rr req)
  | MHeader h => mret (matchMapWithString h (rq_Header req))
  | MHeaderRegex h => mret (matchMapWithRegex h (rq_Header req))
  | MFunc f => λ m, let '(b, m') := f req m in (Ret b, m')
  | MMethod l => mret (Mux.matchInArray l (rq_Method req))
  | MScheme l => mret (Mux.matchInArray l (u_Scheme (rq_URL req)))
  | MRouter o => sub o
  end.
Fixpoint match_all (sub : nat → MM bool) (req : request) (l : list matcher) : MM bool :=
  match l with
  | [] => mret true
  | m :: l => b ← matcher_Match sub req m; if b : bool then match_all sub req l else mret false
  end.

(** [Route.Match] *)
Definition Route_Match (sub : nat → MM bool) (st : store) (i : nat) (req : request) : MM bool :=
  match st_routes st !! i with
  | None => throw nil_deref
  | Some r =>
      if rt_buildOnly r || bool_decide (rt_err r ≠ None) then mret false
      else
        b ← match_all sub req (rt_matchers r);
        if b : bool then
          modify (λ m, mkMatch (match m_Route m with Some j => Some j | None => Some i end)
                         (match m_Handler m with Some h => Some h | None => rt_handler r end)
                         (Some (default ∅ (m_Vars m))));;
          match rt_regexp r with Some g => setMatch st g req | None => mret tt end;;
          mret true
        else mret false
  end.

(** [Router.Match]: the fuel is the depth of subrouters. *)
Fixpoint match_routes (m : nat → MM bool) (l : list nat) : MM bool :=
  match l with
  | [] => mret false
  | i :: l => b ← m i; if b : bool then mret true else match_routes m l
  end.
Fixpoint Router_Match (f : nat) (st : store) (o : nat) (req : request) : MM bool :=
  match f with
  | O => no_fuel
  | S f =>
      match st_routers st !! o with
      | None => throw nil_deref
      | Some ro => match_routes (λ i, Route_Match (λ o', Router_Match f st o' req) st i req) (ro_routes ro)
      end
  end.
Definition Match (o : nat) (st : store) (req : request) : outcome bool * RouteMatch :=
  Router_Match (S (length (st_routers st))) st o req (mkMatch None None None).

(** ** Building URLs *)

(** [prepareVars] *)
Definition prepareVars (i : nat) (pairs : list string) : MS (result (gmap string string)) :=
  match mapFromPairsToString pairs with
  | Err e => mret (Err e)
  | Ok m => f ← depth; m ← buildVars f i m; mret (Ok m)
  end.

Definition part_url (rr : option routeRegexp) (values : gmap string string) : result string :=
  match rr with Some rr => rr_url rr values | None => Ok "" end.

(** [Route.URL], [Route.URLHost], [Route.URLPath] *)
Definition URL_ (i : nat) (pairs : list string) : MS (result URL) :=
  r ← route i;
  match rt_err r, rt_regexp r with
  | Some e, _ => mret (Err e)
  | None, None => mret (Err (ErrorS "mux: route doesn't have a host or path"))
  | None, Some g =>
      bindR (prepareVars i pairs) (λ values,
        match part_url (g_host g) values with
        | Err e => mret (Err e)
        | Ok host =>
            match part_url (g_path g) values with
            | Err e => mret (Err e)
            | Ok path => mret (Ok (mkURL (match g_host g with Some _ => "http" | None => "" end) host path ""))
            end
        end)
  end.
Definition URLHost (i : nat) (pairs : list string) : MS (result URL) :=
  r ← route i;
  match rt_err r with
  | Some e => mret (Err e)
  | None =>
      match r.(rt_regexp) ≫= g_host with
      | None => mret (Err (ErrorS "mux: route doesn't have a host"))
      | Some h =>
          bindR (prepareVars i pairs) (λ values,
            match rr_url h values with
            | Err e => mret (Err e)
            | Ok host => mret (Ok (mkURL "http" host "" ""))
            end)
      end
  end.
Definition URLPath (i : nat) (pairs : list string) : MS (result URL) :=
  r ← route i;
  match rt_err r with
  | Some e => mret (Err e)
  | None =>
      match r.(rt_regexp) ≫= g_path with
      | None => mret (Err (ErrorS "mux: route doesn't have a path"))
      | Some p =>
          bindR (prepareVars i pairs) (λ values,
            match rr_url p values with
            | Err e => mret (Err e)
            | Ok path => mret (Ok (mkURL "" "" path ""))
            end)
      end
  end.

(** ** [Router.Walk]

    [walkFn] is given a route, its router and the ancestors; it has a state [X] of its
    own.  Only [SkipRouter] is looked at of what it returns. *)
Definition SkipRouter : error := ErrorS "skip this router".
Section walk.
Context {X : Type} (walkFn : nat → nat → list nat → M X (option error)) (st : store).
Definition walkable (r : Route) : bool :=
  match rt_regexp r ≫= g_path with Some p => bool_decide (rr_template p ≠ "") | None => false end.
Fixpoint walk_matchers (sub : nat → M X (option error)) (l : list matcher) : M X (option error) :=
  match l with
  | [] => mret None
  | MRouter o :: l => try_then (sub o) (walk_matchers sub l)
  | _ :: l => walk_matchers sub l
  end.
Fixpoint walk_routes (sub : list nat → nat → M X (option error)) (o : nat) (ancestors : list nat) (l : list nat) :
    M X (option error) :=
  match l with
  | [] => mret None
  | i :: l =>
      match st_routes st !! i with
      | None => throw nil_deref
      | Some t =>
          if negb (walkable t) then walk_routes sub o ancestors l
          else
            err ← walkFn i o ancestors;
            if decide (err = Some SkipRouter) then walk_routes sub o ancestors l
            else
              try_then (walk_matchers (sub ancestors) (rt_matchers t))
                (try_then (match rt_handler t with
                           | Some (HRouter o') => sub (ancestors ++ [i]) o'
                           | _ => mret None
                           end) (walk_routes sub o ancestors l))
      end
  end.
Fixpoint walk (f : nat) (ancestors : list nat) (o : nat) : M X (option error) :=
  match f with
  | O => no_fuel
  | S f =>
      match st_routers st !! o with
      | None => throw nil_deref
      | Some ro => walk_routes (walk f) o ancestors (ro_routes ro)
      end
  end.
(** A router that is its own handler is walked for ever; the fuel is the caller's. *)
Definition Walk (f : nat) (o : nat) : M X (option error) := walk f [] o.
End walk.
End mux.
End MuxRoute.
