(* ===== verification/MuxCorrect.v ===== *)
(** * gorilla/mux: templates are read back from the URLs they make

    Theorems about [MuxRoute]: a URL that a template builds is matched by it, and the
    variables come back; matching ends on every router that can be built; and on the
    bundler's routes the package does what [Mux] says. *)

From S2P Require Import Prelude GoStrings GoUrl GoRegexp GoRegexpParse Memcache Mux MuxRoute.
Import GoRegexpParse.

Module MuxCorrect.
Import MuxRoute.
#[local] Arguments String.append !_ _ / : simpl nomatch.
#[local] Arguments strip_prefix : simpl never.

(** ** Templates in pieces

    A variable with the text before it. *)
Record piece := mkPiece { p_raw : string; p_name : string; p_patt : string }.
Fixpoint pieces_pattern (i : nat) (ps : list piece) : string :=
  match ps with
  | [] => ""
  | p :: ps =>
      QuoteMeta (p_raw p) +:+ "(?P<" +:+ varGroupName i +:+ ">" +:+ p_patt p +:+ ")" +:+ pieces_pattern (S i) ps
  end.
Fixpoint pieces_reverse (ps : list piece) : string :=
  match ps with [] => "" | p :: ps => p_raw p +:+ "%s" +:+ pieces_reverse ps end.
Definition piece_ok (tpl : string) (p : piece) : Prop :=
  p_name p ≠ "" ∧ p_patt p ≠ "" ∧ ∀ c, has_char c tpl = false → has_char c (p_raw p) = false.

Lemma has_char_substring c n k s : has_char c s = false → has_char c (String.substring n k s) = false.
Proof.
  revert n k. induction s as [|d s IH]; intros n k; [by destruct n, k|]. cbn [has_char].
  intros [Hd Hs]%orb_false_iff. destruct n as [|n]; simpl.
  - destruct k as [|k]; [done|]. cbn [has_char]. by rewrite Hd IH.
  - by apply IH.
Qed.

(** The pieces of a template and the text behind the last one. *)
Fixpoint template_pieces (tpl dflt : string) (idxs : list (Z * Z)) (endp : Z) : list piece * string :=
  match idxs with
  | [] => ([], Mux.substr tpl endp (Z.of_nat (String.length tpl)))
  | (a, b) :: idxs =>
      let body := Mux.substr tpl (a + 1) (b - 1) in
      let '(name, patt) := match take_until ":"%char body with Some p => p | None => (body, dflt) end in
      let '(ps, raw) := template_pieces tpl dflt idxs b in
      (mkPiece (Mux.substr tpl endp a) name patt :: ps, raw)
  end.

Lemma template_loop_pieces tpl dflt i idxs endp pattern reverse varsN varsR e' p' r' n' v' :
  template_loop tpl dflt i idxs endp pattern reverse varsN varsR = Ok (e', p', r', n', v') →
  ∃ ps rs, p' = pattern +:+ pieces_pattern i ps ∧ r' = reverse +:+ pieces_reverse ps ∧
    n' = varsN ++ (p_name <$> ps) ∧ v' = varsR ++ rs ∧
    Forall2 (λ p R, Compile ("^" +:+ p_patt p +:+ "$") = Ok R) ps rs ∧ Forall (piece_ok tpl) ps ∧
    template_pieces tpl dflt idxs endp = (ps, Mux.substr tpl e' (Z.of_nat (String.length tpl))).
Proof.
  revert i endp pattern reverse varsN varsR.
  induction idxs as [|[a b] idxs IH]; intros i endp pattern reverse varsN varsR;
    cbn [template_loop template_pieces].
  - intros [= <- <- <- <- <-]. exists [], []. rewrite !app_nil_r !str_app_nil_r. split_and!; [done..|constructor|done|done].
  - destruct (match take_until _ _ with Some _ => _ | None => _ end) as [name patt].
    destruct (bool_decide (name = "")) eqn:En; [done|]. destruct (bool_decide (patt = "")) eqn:Ep; [done|].
    apply bool_decide_eq_false in En, Ep. cbn [orb]. destruct (Compile _) as [re|] eqn:Ec; [|done].
    intros (ps & rs & -> & -> & -> & -> & HR & Hok & ->)%IH.
    exists (mkPiece (Mux.substr tpl endp a) name patt :: ps), (re :: rs). cbn [pieces_pattern pieces_reverse].
    split_and!.
    + rewrite -!str_app_assoc. done.
    + by rewrite -!str_app_assoc.
    + by rewrite -app_assoc.
    + by rewrite -app_assoc.
    + by constructor.
    + constructor; [|done]. split_and!; [done..|]. intros c Hc. by apply has_char_substring.
    + done.
Qed.

(** ** The regexp of the pieces *)
Fixpoint pieces_re (cat : re) (i : nat) (ps : list piece) (rs : list re) : re :=
  match ps, rs with
  | p :: ps, r :: rs => pieces_re (RCat (cat_text cat (p_raw p)) (RGroup (varGroupName i) r)) (S i) ps rs
  | _, _ => cat
  end.
Definition parses (p : piece) (r : re) : Prop := parse_all None REmpty (p_patt p) = Ok (r, "").

Lemma varGroupName_word i : all_chars word (varGroupName i) = true.
Proof.
  unfold varGroupName. cbn [String.append all_chars]. rewrite andb_true_iff. split; [done|].
  change (pretty i) with (pretty (N.of_nat i)). pose proof (Memcache.pretty_chars (N.of_nat i)) as H.
  revert H. generalize (pretty (N.of_nat i)). intros s. induction s as [|c s IH]; [done|]. simpl.
  intros [Hc Hs]%andb_true_iff. rewrite IH // andb_true_r. revert Hc. all_bytes c.
Qed.
Lemma pieces_plain i ps s : plain_start s → plain_start (pieces_pattern i ps +:+ s).
Proof.
  intros Hs. destruct ps as [|p ps]; [done|]. cbn [pieces_pattern]. rewrite -str_app_assoc.
  by apply QuoteMeta_plain.
Qed.
Lemma parse_pieces alts cat i ps rs s :
  Forall2 parses ps rs → plain_start s →
  parse_all alts cat (pieces_pattern i ps +:+ s) = parse_all alts (pieces_re cat i ps rs) s.
Proof.
  intros Hp Hs. revert cat i. induction Hp as [|p r ps rs Hr Hp IH]; intros cat i; [done|].
  cbn [pieces_pattern pieces_re]. rewrite -!str_app_assoc parse_QuoteMeta; [|done].
  rewrite (parse_group _ _ (varGroupName i) _ r); [apply IH|done|apply varGroupName_word|done|].
  by apply pieces_plain.
Qed.

(** What the pieces take: text and values in turn. *)
Fixpoint fill (ps : list piece) (vs : list string) : string :=
  match ps, vs with
  | p :: ps, v :: vs => p_raw p +:+ v +:+ fill ps vs
  | _, _ => ""
  end.
Lemma rstep_text cat s x y :
  rstep (cat_text cat s) x y ↔ ∃ z, rstep cat x z ∧ z.2 = s +:+ y.2 ∧ y.1 = z.1 + String.length s.
Proof.
  unfold cat_text. revert cat x. induction s as [|c s IH]; intros cat x; simpl.
  - split.
    + intros ?. exists y. split_and!; [done..|lia].
    + intros ([p t] & Hz & Ht & Hp). simpl in *. destruct y as [q t']. simpl in *. subst. by rewrite Nat.add_0_r.
  - rewrite IH. split.
    + intros ([p t] & (z & Hz & d & Hd & Hs & Hp) & Ht & Hq). exists z. simpl in *.
      assert (d = c) as ->.
      { unfold in_set in Hd. simpl in Hd. rewrite orb_false_r in Hd. apply bool_decide_eq_true in Hd.
        rewrite -(ascii_N_embedding d) -(ascii_N_embedding c). f_equal. lia. }
      split_and!; [done|by rewrite Hs Ht|lia].
    + intros (z & Hz & Ht & Hq). exists (S z.1, s +:+ y.2). split_and!; [|done|simpl; lia].
      exists z. split; [done|]. exists c. split_and!; [|done|done].
      unfold in_set. simpl. rewrite orb_false_r. apply bool_decide_eq_true. lia.
Qed.
Lemma pieces_match cat i ps rs vs x p t :
  rstep cat x (p, fill ps vs +:+ t) → Forall2 (λ r v, free r = true ∧ lang r v) rs vs → length ps = length rs →
  ∃ q, rstep (pieces_re cat i ps rs) x (q, t).
Proof.
  intros Hc Hl. revert cat i ps x p Hc. induction Hl as [|r v rs vs [Hf Hv] Hl IH]; intros cat i ps x p Hc Hlen.
  - destruct ps; [|done]. by exists p.
  - destruct ps as [|pc ps]; [done|]. simpl in Hlen. cbn [pieces_re].
    apply (IH _ _ _ _ (p + String.length (p_raw pc) + String.length v)); [|lia].
    exists (p + String.length (p_raw pc), v +:+ fill ps vs +:+ t). split.
    + apply rstep_text. eexists. split; [exact Hc|]. split; [|done]. simpl. by rewrite -!str_app_assoc.
    + simpl. apply rstep_lang; [done|]. by exists v.
Qed.

(** ** Formatting *)
Definition no_percent (s : string) : Prop := has_char "%" s = false.
Lemma sprintf_text s f args :
  no_percent s → sprintf_go false (s +:+ f) args = (λ r, s +:+ r) <$> sprintf_go false f args.
Proof.
  unfold no_percent. induction s as [|c s IH]; intros Hs.
  - simpl. by destruct (sprintf_go false f args).
  - cbn [has_char] in Hs. apply orb_false_iff in Hs as [Hc%bool_decide_eq_false Hs]. simpl.
    rewrite decide_False; [|congruence]. rewrite IH //. by destruct (sprintf_go false f args).
Qed.
Lemma Sprintf_pieces ps vs t :
  Forall (λ p, no_percent (p_raw p)) ps → length vs = length ps → no_percent t →
  Sprintf (pieces_reverse ps +:+ t) vs = Some (fill ps vs +:+ t).
Proof.
  intros Hps Hl Ht. unfold Sprintf. revert vs Hl. induction Hps as [|p ps Hp Hps IH]; intros vs Hl.
  - destruct vs; [|done]. simpl. rewrite -{1}(str_app_nil_r t) sprintf_text //. simpl. by rewrite str_app_nil_r.
  - destruct vs as [|v vs]; [done|]. cbn [pieces_reverse fill]. rewrite -str_app_assoc sprintf_text //.
    change (sprintf_go false (("%s" +:+ pieces_reverse ps) +:+ t) (v :: vs))
      with ((λ r, v +:+ r) <$> sprintf_go false (pieces_reverse ps +:+ t) vs).
    rewrite IH; [|simpl in Hl; lia]. simpl. by rewrite -!str_app_assoc.
Qed.

(** ** The end of the pattern *)
Definition tail_pattern (strict query prefix : bool) : string :=
  (if strict then "[/]?" else "") +:+ (if query then "[^?&]*" else "") +:+ (if prefix then "" else "$").
Definition slash_re : re := RRep 0 (Some 1) true (RSet false [("/"%char, "/"%char)]).
Definition query_re : re := RRep 0 None true (RSet true [("?"%char, "?"%char); ("&"%char, "&"%char)]).
Definition tail_re (strict query prefix : bool) (cat : re) : re :=
  let cat := if strict then RCat cat slash_re else cat in
  let cat := if query then RCat cat query_re else cat in
  if prefix then cat else RCat cat RFinish.
Lemma tail_parse strict query prefix cat :
  plain_start (tail_pattern strict query prefix) ∧
  parse_all None cat (tail_pattern strict query prefix) = Ok (tail_re strict query prefix cat, "").
Proof. by destruct strict, query, prefix. Qed.
Lemma tail_match strict query prefix cat x p t :
  t = "" ∨ (strict = true ∧ t = "/") → rstep cat x (p, t) →
  ∃ q, rstep (tail_re strict query prefix cat) x (q, "").
Proof.
  intros Ht Hc. unfold tail_re.
  assert (∃ q, rstep (if strict then RCat cat slash_re else cat)
            x (q, "")) as [q1 H1].
  { destruct strict; [|exists p; by destruct Ht as [-> | [? _]]].
    destruct Ht as [-> | [_ ->]].
    - exists p, (p, ""). split; [done|]. exists 0. split; [lia|constructor].
    - exists (S p), (p, "/"). split; [done|]. exists 1. split; [lia|]. econstructor; [|constructor].
      by exists "/"%char. }
  revert H1. generalize (if strict then RCat cat slash_re else cat).
  intros c1 H1.
  assert (∃ q, rstep (if query then RCat c1 query_re else c1) x (q, "")) as [q2 H2].
  { destruct query; [|by exists q1]. exists q1, (q1, ""). split; [done|].
    eexists. split; [constructor|constructor]. }
  destruct prefix; [by exists q2|]. exists q2, (q2, ""). done.
Qed.

(** ** A URL that is built is matched

    The pattern of a variable has one alternative and no anchors, so that it means
    the same on its own and inside the template. *)
Definition plain_pattern (R : Regexp) : bool :=
  match strip_prefix "^" (re_text R) ≫= strip_suffix "$" with
  | Some patt =>
      match parse_all None REmpty patt with
      | Ok (r, "") => single r && free r
      | _ => false
      end
  | None => false
  end.
Lemma Compile_text s R : Compile s = Ok R → re_text R = s.
Proof. unfold Compile. destruct (parse _ _ _ _) as [[r []]|]; [|done..]. by intros [= <-]. Qed.
Lemma plain_pattern_parse p R :
  Compile ("^" +:+ p_patt p +:+ "$") = Ok R → plain_pattern R = true →
  ∃ r, parses p r ∧ free r = true ∧ ∀ v, MatchString R v = true ↔ lang r v.
Proof.
  intros Hc. unfold plain_pattern. rewrite (Compile_text _ _ Hc) strip_prefix_app. simpl.
  rewrite strip_suffix_app. destruct (parse_all None REmpty (p_patt p)) as [[r []]|] eqn:Er; [|done..].
  intros [Hs Hf]%andb_true_iff. exists r. destruct (Compile_anchored _ _ Er Hs Hf) as (R' & HR & Hm).
  rewrite HR in Hc. injection Hc as <-. done.
Qed.
Lemma plain_patterns_parse ps Rs :
  Forall2 (λ p R, Compile ("^" +:+ p_patt p +:+ "$") = Ok R) ps Rs → forallb plain_pattern Rs = true →
  ∃ rs, Forall2 parses ps rs ∧ Forall2 (λ R r, free r = true ∧ ∀ v, MatchString R v = true ↔ lang r v) Rs rs.
Proof.
  induction 1 as [|p R ps Rs Hc _ IH]; [by exists []|]. simpl. intros [HR HRs]%andb_true_iff.
  destruct (IH HRs) as (rs & ? & ?). destruct (plain_pattern_parse _ _ Hc HR) as (r & ? & ? & ?).
  exists (r :: rs). by split; constructor.
Qed.

(** What a template that was accepted consists of. *)
Record template_of (tpl : string) (rr : routeRegexp) (ps : list piece) (rs : list re) (raw : string)
    (strict query prefix : bool) (closing : string) : Prop := {
  to_regexp : re_ast (rr_regexp rr) = tail_re strict query prefix (cat_text (pieces_re (RCat REmpty RBegin) 0 ps rs) raw);
  to_reverse : rr_reverse rr = pieces_reverse ps +:+ raw +:+ closing;
  to_names : rr_varsN rr = p_name <$> ps;
  to_parses : Forall2 parses ps rs;
  to_checks : Forall2 (λ R r, free r = true ∧ ∀ v, MatchString R v = true ↔ lang r v) (rr_varsR rr) rs;
  to_pieces : Forall (piece_ok tpl) ps;
  to_raw : ∀ c, has_char c tpl = false → has_char c raw = false;
  to_closing : closing = "" ∨ (strict = true ∧ closing = "/");
}.
Definition template_parts (tpl : string) : option (list piece * string) :=
  match Mux.braceIndices tpl with Ok idxs => Some (template_pieces tpl "[^/]+" idxs 0) | Err _ => None end.
Definition template_names (tpl : string) : list string := p_name <$> (default ([], "") (template_parts tpl)).1.
Lemma newRouteRegexp_template tpl h p q s rr :
  newRouteRegexp tpl h p q s = Ok rr → forallb plain_pattern (rr_varsR rr) = true →
  ∃ ps rs raw strict query prefix closing, template_of tpl rr ps rs raw strict query prefix closing ∧
    (h || p || q || s = false → template_parts tpl = Some (ps, raw) ∧
       strict = false ∧ query = false ∧ prefix = false ∧ closing = "").
Proof.
  unfold newRouteRegexp, template_parts. destruct (Mux.braceIndices tpl) as [idxs|]; [|done].
  set (prefix := if q then p else if h then false else p).
  set (strict := if prefix || h || q then false else s).
  set (closing := strict && HasSuffix tpl "/").
  set (tpl' := if closing then _ else tpl).
  destruct (template_loop _ _ _ _ _ _ _ _ _) as [[[[[endp pattern] reverse] varsN] varsR]|] eqn:El; [|done].
  apply template_loop_pieces in El as (ps & Rs & -> & -> & -> & -> & HR & Hps & Hparts).
  set (raw := Mux.substr tpl' endp _). set (query := q && _).
  assert ((if query then if q then "[^?&]*" else if h then "[^.]+" else "[^/]+" else "") =
          (if query then "[^?&]*" else "")) as ->.
  { subst query. by destruct q. }
  destruct (Compile _) as [reg|] eqn:Ec; [|done]. intros [= <-] Hpl. cbn [rr_varsR] in Hpl.
  destruct (plain_patterns_parse _ _ HR Hpl) as (rs & Hp & Hck).
  exists ps, rs, raw, strict, query, prefix, (if closing then "/" else "").
  assert (∀ c, has_char c tpl = false → has_char c tpl' = false) as Htpl.
  { intros c Hc. subst tpl'. destruct closing; [|done]. by apply has_char_substring. }
  split; [|by destruct h, p, q, s; try done; intros _; rewrite -Hparts].
  split; cbn [rr_regexp rr_reverse rr_varsN rr_varsR]; try done.
  - revert Ec. unfold Compile. change (parse _ None REmpty ?s) with (parse_all None REmpty s).
    rewrite -!str_app_assoc. change ("^" +:+ ?s) with (String "^" s).
    change (_ +:+ _ +:+ (if prefix then "" else "$")) with (tail_pattern strict query prefix).
    destruct (tail_parse strict query prefix (cat_text (pieces_re (RCat REmpty RBegin) 0 ps rs) raw)) as [Hs Ht].
    rewrite parse_begin; [|by apply pieces_plain, QuoteMeta_plain].
    rewrite (parse_pieces _ _ _ _ rs) //; [|by apply QuoteMeta_plain].
    rewrite parse_QuoteMeta // Ht. by intros [= <-].
  - eapply Forall_impl; [exact Hps|]. intros x (? & ? & Hx). split_and!; auto.
  - intros c Hc. by apply has_char_substring, Htpl.
  - subst closing. destruct strict; [|by left]. destruct (HasSuffix tpl "/"); [by right|by left].
Qed.

Lemma begin_rstep s : rstep (RCat REmpty RBegin) (0, s) (0, s).
Proof. by exists (0, s). Qed.
Lemma template_match tpl rr ps rs raw strict query prefix closing vs :
  template_of tpl rr ps rs raw strict query prefix closing → Forall2 (λ r v, free r = true ∧ lang r v) rs vs →
  MatchString (rr_regexp rr) (fill ps vs +:+ raw +:+ closing) = true.
Proof.
  intros T Hl. rewrite MatchString_spec (to_regexp _ _ _ _ _ _ _ _ _ T).
  exists "", (fill ps vs +:+ raw +:+ closing).
  destruct (pieces_match (RCat REmpty RBegin) 0 ps rs vs _ 0 (raw +:+ closing) (begin_rstep _) Hl) as [q Hq].
  { eapply Forall2_length, to_parses, T. }
  destruct (tail_match strict query prefix (cat_text (pieces_re (RCat REmpty RBegin) 0 ps rs) raw)
    (0, fill ps vs +:+ raw +:+ closing) (q + String.length raw) closing) as [q' Hq'].
  - eapply to_closing, T.
  - apply rstep_text. eexists. split; [exact Hq|]. done.
  - by eexists.
Qed.

Lemma url_values_lookup values names vs :
  url_values values names = Ok vs → Forall2 (λ n v, values !! n = Some v) names vs.
Proof.
  revert vs. induction names as [|n names IH]; intros vs; simpl; [intros [= <-]; constructor|].
  destruct (values !! n) eqn:E; [|done]. destruct (url_values values names); [|done].
  intros [= <-]. constructor; auto.
Qed.
Lemma url_check_None values names Rs vs :
  url_check values names Rs = None → Forall2 (λ n v, values !! n = Some v) names vs → length Rs = length names →
  Forall2 (λ R v, MatchString R v = true) Rs vs.
Proof.
  intros Hc Hv. revert Rs Hc. induction Hv as [|n v names vs Hn Hv IH]; intros [|R Rs] Hc Hl; try done.
  simpl in Hc. rewrite Hn in Hc. simpl in Hc. destruct (MatchString R v) eqn:E; [|done]. constructor; auto.
Qed.
Lemma url_fills tpl rr ps rs raw strict query prefix closing values rv :
  template_of tpl rr ps rs raw strict query prefix closing → has_char "%" tpl = false → rr_url rr values = Ok rv →
  ∃ vs, rv = fill ps vs +:+ raw +:+ closing ∧ Forall2 (λ n v, values !! n = Some v) (p_name <$> ps) vs ∧
    (MatchString (rr_regexp rr) rv = true ∨ Forall2 (λ R v, MatchString R v = true) (rr_varsR rr) vs).
Proof.
  intros T Hpc. unfold rr_url. destruct (url_values values (rr_varsN rr)) as [vs|] eqn:Ev; [|done].
  apply url_values_lookup in Ev. rewrite (to_names _ _ _ _ _ _ _ _ _ T) in Ev.
  pose proof (Forall2_length _ _ _ Ev) as Hlen. rewrite length_fmap in Hlen.
  rewrite (to_reverse _ _ _ _ _ _ _ _ _ T) Sprintf_pieces //.
  2: { eapply Forall_impl; [eapply to_pieces, T|]. intros p (_ & _ & Hp). by apply Hp. }
  2: { unfold no_percent. rewrite has_char_app (to_raw _ _ _ _ _ _ _ _ _ T) //. simpl.
       by destruct (to_closing _ _ _ _ _ _ _ _ _ T) as [-> | [_ ->]]. }
  destruct (MatchString _ _) eqn:Em; cbn [negb].
  { intros [= <-]. exists vs. auto. }
  destruct (url_check _ _ _) eqn:Ec; [done|]. intros [= <-]. exists vs. split_and!; [done|done|]. right.
  eapply url_check_None; [exact Ec| |].
  - by rewrite (to_names _ _ _ _ _ _ _ _ _ T).
  - rewrite (to_names _ _ _ _ _ _ _ _ _ T) length_fmap (Forall2_length _ _ _ (to_checks _ _ _ _ _ _ _ _ _ T)).
    symmetry. eapply Forall2_length, to_parses, T.
Qed.

Lemma template_url_matches tpl rr ps rs raw strict query prefix closing values rv :
  template_of tpl rr ps rs raw strict query prefix closing → has_char "%" tpl = false → rr_url rr values = Ok rv →
  MatchString (rr_regexp rr) rv = true.
Proof.
  intros T Hpc Hu. destruct (url_fills _ _ _ _ _ _ _ _ _ _ _ T Hpc Hu) as (vs & -> & _ & [Hm|Hvs]); [done|].
  eapply template_match; [exact T|]. pose proof (to_checks _ _ _ _ _ _ _ _ _ T) as Hck. clear -Hck Hvs.
  revert rs Hck. induction Hvs as [|R v Rs vs HR _ IH]; intros rs Hck; inversion Hck; subst; constructor; [|auto].
  destruct H1 as [Hf Hm]. split; [done|by apply Hm].
Qed.

(** C39: A URL part that a template builds is matched by the template, whether it is for a
    host, a path, a prefix or a query: for a template that has no percent sign anywhere (it
    is used as a format), whose patterns mean the same on their own as inside it (no
    anchor in them and no alternative outside a group), and values for which [url] returns no error. *)
Theorem built_url_matches tpl h p q s rr values rv :
  newRouteRegexp tpl h p q s = Ok rr → has_char "%" tpl = false →
  forallb plain_pattern (rr_varsR rr) = true → rr_url rr values = Ok rv →
  MatchString (rr_regexp rr) rv = true.
Proof.
  intros Hn Hpc Hpl Hu. destruct (newRouteRegexp_template _ _ _ _ _ _ Hn Hpl) as (ps & rs & raw & st & qu & pf & cl & T & _).
  by eapply template_url_matches.
Qed.

(** ** The variables come back *)
Lemma search_caps r pos s cs :
  search r pos s = Some cs → ∃ a b y, s = a +:+ b ∧ rcap r 0 ((pos + String.length a, b), ∅) (y, cs).
Proof.
  revert pos. induction s as [|c s IH]; intros pos; cbn [search]; intros [H|H]%orelse_inv.
  - apply rmatch_caps in H as (p & t & c & H & [= <-]). exists "", "", (p, t). by rewrite Nat.add_0_r.
  - done.
  - apply rmatch_caps in H as (p & t & c' & H & [= <-]). exists "", (String c s), (p, t). by rewrite Nat.add_0_r.
  - apply IH in H as (a & b & y & -> & H). exists (String c a), b, y. split; [done|]. simpl.
    by rewrite Nat.add_succ_r.
Qed.

Lemma ngroups_text cat s : ngroups (cat_text cat s) = ngroups cat.
Proof.
  unfold cat_text, ngroups. revert cat. induction s as [|c s IH]; intros cat; [done|]. simpl. rewrite IH. simpl.
  by rewrite app_nil_r.
Qed.
Lemma rcap_text cat s k x y : rcap (cat_text cat s) k x y → ∃ z, rcap cat k x z ∧ z.1.2 = s +:+ y.1.2 ∧ y.2 = z.2.
Proof.
  unfold cat_text. revert cat. induction s as [|c s IH]; intros cat; simpl; [intros ?; by exists y|].
  intros (z & (w & Hw & Hz & Hz2) & Hs & ->)%IH. exists w. split_and!; [done| |done].
  destruct Hz as (d & Hd & -> & _). rewrite Hs. f_equal. unfold in_set in Hd. simpl in Hd. rewrite orb_false_r in Hd.
  apply bool_decide_eq_true in Hd. rewrite -(ascii_N_embedding d) -(ascii_N_embedding c). f_equal. lia.
Qed.
Lemma substring_taken v t : String.substring 0 (String.length (v +:+ t) - String.length t) (v +:+ t) = v.
Proof.
  rewrite str_length_app Nat.add_sub. induction v as [|c v IH]; simpl; [by destruct t|]. by rewrite IH.
Qed.
Lemma pieces_caps cat i ps rs x y :
  Forall (λ r, free r = true ∧ ngroups r = 0) rs → length ps = length rs → ngroups cat = i →
  rcap (pieces_re cat i ps rs) 0 x y →
  ∃ z vs, rcap cat 0 x z ∧ z.1.2 = fill ps vs +:+ y.1.2 ∧ Forall2 lang rs vs ∧
    (∀ j, (j < i)%nat → y.2 !! j = z.2 !! j) ∧ ∀ j v, vs !! j = Some v → y.2 !! (i + j) = Some v.
Proof.
  intros Hrs. revert cat i ps. induction Hrs as [|r rs [Hf Hg] Hrs IH]; intros cat i ps Hl Hn.
  - destruct ps; [|done]. intros Hr. exists y, []. split_and!; try done.
  - destruct ps as [|p ps]; [done|]. cbn [pieces_re]. intros (z & vs & Hc & Hz & Hvs & Hlow & Hhigh)%IH; [|by simpl in Hl; lia|].
    2: { cbn [ngroups group_names]. unfold ngroups in *. simpl. rewrite length_app. simpl.
         pose proof (ngroups_text cat (p_raw p)) as E. unfold ngroups in E. rewrite E Hg. lia. }
    destruct Hc as (w & Hw & cs & Hr & Hcs). cbn [Nat.add] in Hcs. rewrite ngroups_text Hn in Hcs, Hr.
    apply rcap_text in Hw as (x0 & Hx0 & Ht & Hw2).
    pose proof (rcap_no_groups _ _ _ _ Hg Hr) as Hcs'. simpl in Hcs'. subst cs.
    apply rcap_rstep in Hr. destruct w as [[pw tw] cw], z as [[pz tz] cz]. simpl in *.
    apply rstep_lang in Hr as (v & -> & _ & Hv); [|done].
    exists x0, (v :: vs). split_and!; [done| |by constructor| |].
    + rewrite Ht Hz. simpl. by rewrite -!str_app_assoc.
    + intros j Hj. rewrite Hlow; [|lia]. rewrite Hcs lookup_insert_ne; [by rewrite Hw2|lia].
    + intros [|j] v'; simpl.
      * intros [= <-]. rewrite Nat.add_0_r Hlow; [|lia]. rewrite Hcs lookup_insert_eq. f_equal.
        apply substring_taken.
      * intros Hj. rewrite Nat.add_succ_r. by apply (Hhigh j).
Qed.

(** The default pattern of a path: one or more bytes other than a slash. *)
Definition not_slash : re := RSet true [("/"%char, "/"%char)].
Definition dflt_re : re := RCat REmpty (RRep 1 None true not_slash).
Definition segment (v : string) : Prop := has_char slash v = false.
Lemma not_slash_step x y : rstep not_slash x y → ∃ c, c ≠ slash ∧ x.2 = String c y.2.
Proof. intros (c & Hc & Hx & _). exists c. split; [|done]. by intros ->. Qed.
Lemma not_slash_rtc w t p : has_char slash w = false → rtc (rstep not_slash) (p, w +:+ t) (p + String.length w, t).
Proof.
  revert p. induction w as [|c w IH]; intros p; cbn [has_char].
  - intros _. by rewrite Nat.add_0_r.
  - intros [Hc%bool_decide_eq_false Hw]%orb_false_iff. eapply rtc_l; [|rewrite /= Nat.add_succ_r; exact (IH (S p) Hw)].
    exists c. split_and!; [|done|done]. revert Hc. all_bytes c.
Qed.
Lemma dflt_lang v : lang dflt_re v ↔ v ≠ "" ∧ segment v.
Proof.
  split.
  - intros (z & <- & w & Hw & Hr). inversion Hw as [|? ? ? ? Hs Hn]; subst. inversion Hn; subst.
    apply not_slash_step in Hs as (c & Hc & Hv). simpl in Hv. subst v. split; [done|]. unfold segment.
    assert (∀ x y, rtc (rstep not_slash) x y → y.2 = "" → has_char slash x.2 = false) as Hrt.
    { induction 1 as [x|x m y Hs _ IH]; intros Hy; [by rewrite Hy|].
      apply not_slash_step in Hs as (d & Hd & ->). cbn [has_char]. rewrite IH //.
      by rewrite bool_decide_eq_false_2. }
    cbn [has_char]. rewrite (Hrt _ _ Hr) // bool_decide_eq_false_2 //.
  - intros [Hne Hs]. destruct v as [|c v]; [done|]. unfold segment in Hs. cbn [has_char] in Hs.
    apply orb_false_iff in Hs as [Hc%bool_decide_eq_false Hs].
    exists (0, String c v). split; [done|]. exists (1, v). split.
    + econstructor; [|constructor]. exists c. split_and!; [|done|done]. revert Hc. all_bytes c.
    + pose proof (not_slash_rtc v "" 1 Hs) as Hr. by rewrite str_app_nil_r in Hr.
Qed.

(** Every variable is a whole segment: it has the default pattern and a slash or the
    end behind it. *)
Definition segmented (tpl : string) : bool :=
  match template_parts tpl with
  | Some (ps, raw) =>
      forallb (λ p, bool_decide (p_patt p = "[^/]+")) ps && forallb (λ p, HasPrefix (p_raw p) "/") (tail ps) &&
      (bool_decide (raw = "") || HasPrefix raw "/")
  | None => false
  end.
Lemma first_slash_inj v v' t t' :
  segment v → segment v' → HasPrefix t "/" = true → HasPrefix t' "/" = true → v +:+ t = v' +:+ t' → v = v' ∧ t = t'.
Proof.
  intros Hv Hv' [r ->]%HasPrefix_true [r' ->]%HasPrefix_true E.
  apply (first_char_inj slash) in E as [-> E]; [|done..]. split; [done|]. by f_equal.
Qed.
Lemma prefix_app s p t : HasPrefix s p = true → HasPrefix (s +:+ t) p = true.
Proof. rewrite !HasPrefix_true. intros [r ->]. exists (r +:+ t). by rewrite str_app_assoc. Qed.
Lemma fill_starts ps vs raw :
  length vs = length ps → forallb (λ p, HasPrefix (p_raw p) "/") ps = true → raw = "" ∨ HasPrefix raw "/" = true →
  (ps = [] ∧ raw = "") ∨ HasPrefix (fill ps vs +:+ raw) "/" = true.
Proof.
  destruct ps as [|p ps], vs as [|v vs]; try done; simpl.
  - intros _ _ [-> | ?]; auto.
  - intros _ [Hp _]%andb_true_iff _. right. rewrite -str_app_assoc. by apply prefix_app.
Qed.
Lemma fill_inj ps vs vs' raw :
  forallb (λ p, HasPrefix (p_raw p) "/") (tail ps) = true → raw = "" ∨ HasPrefix raw "/" = true →
  Forall segment vs → Forall segment vs' → length vs = length ps → length vs' = length ps →
  fill ps vs +:+ raw = fill ps vs' +:+ raw → vs = vs'.
Proof.
  intros Hps Hraw Hvs Hvs'. revert vs' ps Hvs' Hps.
  induction Hvs as [|v vs Hv Hvs IH]; intros vs' ps Hvs' Hps Hl Hl' E.
  { destruct ps; [|done]. by destruct vs'. }
  destruct ps as [|p ps]; [done|]. destruct vs' as [|v' vs']; [done|].
  inversion Hvs' as [|? ? Hv' Hvs'']; subst. simpl in Hl, Hl', Hps.
  cbn [fill] in E. rewrite -!str_app_assoc in E. apply str_app_inj_l in E.
  destruct (fill_starts ps vs raw) as [[-> ->]|Hs]; [lia|done|done| |].
  - destruct vs, vs'; try done. simpl in E. rewrite !str_app_nil_r in E. by subst.
  - destruct (fill_starts ps vs' raw) as [[-> ->]|Hs']; [lia|done|done|by destruct vs|].
    destruct (first_slash_inj _ _ _ _ Hv Hv' Hs Hs' E) as [-> E']. f_equal. apply (IH vs' ps); try done; try lia.
    destruct ps as [|p' ps]; [done|]. simpl in Hps. by apply andb_true_iff in Hps as [_ ?].
Qed.

(** A template of whole segments reads back the values a path was made of. *)
Lemma parses_dflt p r : p_patt p = "[^/]+" → parses p r → r = dflt_re.
Proof. unfold parses. intros ->. vm_compute. by intros [= <-]. Qed.
Lemma dflt_parses ps rs : forallb (λ p, bool_decide (p_patt p = "[^/]+")) ps = true → Forall2 parses ps rs → rs = replicate (length ps) dflt_re.
Proof.
  intros Hd. induction 1 as [|p r ps rs Hp _ IH]; [done|]. simpl in *. apply andb_true_iff in Hd as [Hd Hds].
  apply bool_decide_eq_true in Hd. by rewrite (parses_dflt p r) // IH.
Qed.
Definition proper (v : string) : Prop := v ≠ "" ∧ segment v.
Lemma segments_lang n vs : Forall2 lang (replicate n dflt_re) vs ↔ Forall proper vs ∧ length vs = n.
Proof.
  revert vs. induction n as [|n IH]; intros vs; simpl.
  - destruct vs; [done|]. split; [by inversion 1|by intros [_ [=]]].
  - destruct vs as [|v vs]; [split; [by inversion 1|by intros [_ [=]]]|].
    rewrite Forall2_cons Forall_cons IH dflt_lang /proper /=. naive_solver lia.
Qed.
Lemma begin_caps x z : rcap (RCat REmpty RBegin) 0 x z → x = z ∧ x.1.1 = 0.
Proof.
  destruct x as [x c], z as [z d]. intros ([y e] & [H1 H2] & [H3 H4] & H5). simpl in *. subst. done.
Qed.
Fixpoint count_char (c : ascii) (s : string) : nat :=
  match s with "" => 0 | String d s => (if decide (c = d) then 1 else 0) + count_char c s end.
Lemma count_char_app c a b : count_char c (a +:+ b) = count_char c a + count_char c b.
Proof. induction a as [|d a IH]; [done|]. simpl. rewrite IH. lia. Qed.
Lemma count_char_0 c s : count_char c s = 0 ↔ has_char c s = false.
Proof.
  induction s as [|d s IH]; [done|]. simpl. rewrite orb_false_iff -IH. case_decide.
  - rewrite bool_decide_eq_true_2 //. naive_solver lia.
  - rewrite bool_decide_eq_false_2 //. naive_solver lia.
Qed.
Lemma count_fill c ps vs :
  length vs = length ps → count_char c (fill ps vs) = sum_list (count_char c ∘ p_raw <$> ps) + sum_list (count_char c <$> vs).
Proof.
  revert vs. induction ps as [|p ps IH]; intros [|v vs] Hl; try done. cbn [length] in Hl.
  cbn [fill fmap list_fmap sum_list sum_list_with]. rewrite !count_char_app IH; [|lia]. unfold compose, id. lia.
Qed.
Lemma sum_0_segments vs : sum_list (count_char slash <$> vs) = 0 ↔ Forall segment vs.
Proof.
  induction vs as [|v vs IH]; [done|]. rewrite Forall_cons -IH /segment -count_char_0.
  change (sum_list (count_char slash <$> v :: vs)) with (count_char slash v + sum_list (count_char slash <$> vs)). lia.
Qed.

Lemma pieces_groups cat i ps rs :
  length ps = length rs → Forall (λ r, ngroups r = 0) rs →
  group_names (pieces_re cat i ps rs) = group_names cat ++ (varGroupName <$> seq i (length rs)).
Proof.
  intros Hl Hrs. revert cat i ps Hl. induction Hrs as [|r rs Hr Hrs IH]; intros cat i ps Hl.
  - destruct ps; [|done]. by rewrite app_nil_r.
  - destruct ps as [|p ps]; [done|]. cbn [pieces_re]. rewrite IH; [|by simpl in Hl; lia].
    apply nil_length_inv in Hr. simpl. rewrite Hr.
    assert (group_names (cat_text cat (p_raw p)) = group_names cat) as ->.
    { clear. unfold cat_text. generalize (p_raw p). intros s. revert cat. induction s as [|c s IH]; intros cat; [done|].
      simpl. rewrite IH. simpl. by rewrite app_nil_r. }
    by rewrite -app_assoc.
Qed.
Lemma template_groups ps raw :
  group_names (tail_re false false false (cat_text (pieces_re (RCat REmpty RBegin) 0 ps (replicate (length ps) dflt_re)) raw))
  = varGroupName <$> seq 0 (length ps).
Proof.
  cbn [tail_re group_names]. rewrite app_nil_r.
  assert (∀ cat, group_names (cat_text cat raw) = group_names cat) as ->.
  { clear. unfold cat_text. induction raw as [|c s IH]; intros cat; [done|]. simpl. rewrite IH. simpl. by rewrite app_nil_r. }
  rewrite pieces_groups ?length_replicate //. by apply Forall_replicate.
Qed.
Lemma segments_read tpl rr ps rs raw s l :
  template_of tpl rr ps rs raw false false false "" → template_parts tpl = Some (ps, raw) → segmented tpl = true →
  FindStringSubmatch (rr_regexp rr) s = Some l → s = fill ps l +:+ raw ∧ length l = length ps ∧ Forall proper l.
Proof.
  intros T Hparts Hseg. unfold segmented in Hseg. rewrite Hparts in Hseg.
  apply andb_true_iff in Hseg as [[Hd _]%andb_true_iff _].
  pose proof (dflt_parses _ _ Hd (to_parses _ _ _ _ _ _ _ _ _ T)) as ->. unfold FindStringSubmatch.
  destruct (search _ _ _) as [cs|] eqn:Hcs; [|done]. intros [= <-].
  apply search_caps in Hcs as (a & b & y & -> & Hc). rewrite (to_regexp _ _ _ _ _ _ _ _ _ T) in Hc |- *.
  destruct Hc as (w & Hc & [Hw Hwe] & Hwc). simpl in Hw, Hwe, Hwc.
  apply rcap_text in Hc as (x & Hc & Hx & Hxc).
  apply pieces_caps in Hc as (z & vs & Hz & Hzt & Hvs & _ & Hcap).
  2: { apply Forall_replicate. done. }
  2: { by rewrite length_replicate. }
  2: done.
  apply begin_caps in Hz as [<- H0]. simpl in H0, Hzt. destruct a; [|simpl in H0; lia].
  apply segments_lang in Hvs as [Hsg Hl]. rewrite Hx Hwe str_app_nil_r in Hzt.
  assert ((λ i, default "" (cs !! i)) <$> seq 0 (ngroups (tail_re false false false
    (cat_text (pieces_re (RCat REmpty RBegin) 0 ps (replicate (length ps) dflt_re)) raw))) = vs) as ->; [|done].
  apply list_eq. intros j. unfold ngroups. rewrite list_lookup_fmap template_groups length_fmap length_seq -Hl.
  destruct (decide (j < length vs)%nat) as [Hj|Hj].
  - rewrite lookup_seq_lt //. simpl. destruct (vs !! j) as [v|] eqn:Ev; [|apply lookup_ge_None in Ev; lia].
    apply Hcap in Ev. simpl in Ev. by rewrite -Hwc Hxc Ev.
  - rewrite lookup_seq_ge; [|lia]. symmetry. apply lookup_ge_None. lia.
Qed.
Lemma proper_segments vs : Forall proper vs → Forall segment vs.
Proof. intros Hp. eapply Forall_impl; [exact Hp|]. by intros v [_ ?]. Qed.
Lemma MatchString_found r s : MatchString r s = true ↔ is_Some (FindStringSubmatch r s).
Proof. unfold MatchString, FindStringSubmatch. by rewrite bool_decide_eq_true fmap_is_Some. Qed.
Lemma segments_found tpl rr ps rs raw vs :
  template_of tpl rr ps rs raw false false false "" → template_parts tpl = Some (ps, raw) → segmented tpl = true →
  MatchString (rr_regexp rr) (fill ps vs +:+ raw) = true → length vs = length ps →
  FindStringSubmatch (rr_regexp rr) (fill ps vs +:+ raw) = Some vs.
Proof.
  intros T Hparts Hseg [l Hf]%MatchString_found Hl. rewrite Hf.
  destruct (segments_read _ _ _ _ _ _ _ T Hparts Hseg Hf) as (E & Hl' & Hp%proper_segments).
  unfold segmented in Hseg. rewrite Hparts in Hseg. apply andb_true_iff in Hseg as [[_ Hps]%andb_true_iff Hraw].
  assert (raw = "" ∨ HasPrefix raw "/" = true) as Hraw'.
  { apply orb_true_iff in Hraw as [?%bool_decide_eq_true|?]; auto. }
  f_equal. eapply fill_inj; [exact Hps|exact Hraw'|done| |done|done|done].
  apply sum_0_segments in Hp. apply sum_0_segments. apply (f_equal (count_char slash)) in E.
  rewrite !count_char_app !count_fill // in E. lia.
Qed.

Lemma newRouteRegexp_flags tpl rr :
  newRouteRegexp tpl false false false false = Ok rr →
  rr_matchHost rr = false ∧ rr_matchQuery rr = false ∧ rr_strictSlash rr = false.
Proof.
  unfold newRouteRegexp. destruct (Mux.braceIndices tpl) as [idxs|]; [|done].
  destruct (template_loop _ _ _ _ _ _ _ _ _) as [[[[[endp pattern] reverse] varsN] varsR]|]; [|done].
  destruct (Compile _); [|done]. by intros [= <-].
Qed.
Lemma segmented_plain tpl rr :
  newRouteRegexp tpl false false false false = Ok rr → segmented tpl = true → forallb plain_pattern (rr_varsR rr) = true.
Proof.
  unfold newRouteRegexp, segmented, template_parts. destruct (Mux.braceIndices tpl) as [idxs|]; [|done].
  cbn [andb orb]. destruct (template_loop _ _ _ _ _ _ _ _ _) as [[[[[endp pattern] reverse] varsN] varsR]|] eqn:El; [|done].
  apply template_loop_pieces in El as (ps & Rs & -> & -> & -> & -> & HR & _ & ->).
  destruct (Compile _) as [reg|]; [|done]. intros [= <-] [[Hd _]%andb_true_iff _]%andb_true_iff. cbn [rr_varsR app].
  revert Hd. induction HR as [|p R ps Rs Hc _ IH]; [done|]. cbn [forallb].
  intros [Hd%bool_decide_eq_true Hds]%andb_true_iff. rewrite IH // andb_true_r.
  rewrite Hd in Hc. vm_compute in Hc. injection Hc as <-. by vm_compute.
Qed.

(** A path template whose variables are whole segments matches exactly the paths that
    its text and non-empty values without slashes make up, and its variables are
    those values. *)
Lemma path_template_exact tpl rr ps raw s l :
  newRouteRegexp tpl false false false false = Ok rr → segmented tpl = true →
  template_parts tpl = Some (ps, raw) →
  FindStringSubmatch (rr_regexp rr) s = Some l ↔ s = fill ps l +:+ raw ∧ length l = length ps ∧ Forall proper l.
Proof.
  intros Hnew Hseg Hpt. pose proof (segmented_plain _ _ Hnew Hseg) as Hpl.
  destruct (newRouteRegexp_template _ _ _ _ _ _ Hnew Hpl) as (ps' & rs & raw' & x1 & x2 & x3 & x4 & T & Hparts).
  destruct (Hparts eq_refl) as (Hpt' & -> & -> & -> & ->). rewrite Hpt in Hpt'. injection Hpt' as <- <-.
  split; [by eapply segments_read|]. intros (-> & Hl & Hp). eapply segments_found; [done..| |done].
  rewrite -(str_app_nil_r raw). eapply template_match; [exact T|].
  assert (rs = replicate (length ps) dflt_re) as ->.
  { unfold segmented in Hseg. rewrite Hpt in Hseg. apply andb_true_iff in Hseg as [[Hd _]%andb_true_iff _].
    eapply dflt_parses; [done|eapply to_parses, T]. }
  assert (Forall2 lang (replicate (length ps) dflt_re) l) as Hlang by by apply segments_lang.
  revert Hlang. generalize (length ps). clear. intros n. revert l.
  induction n as [|n IH]; intros l; inversion 1; subst; constructor; auto.
Qed.

Section roundtrip.
Context `{!UrlText} {Hn : Type}.

Definition insert_all (vars : gmap string string) (l : list (string * string)) : gmap string string :=
  foldl (λ m kv, <[kv.1 := kv.2]> m) vars l.
Lemma store_vars_all varsN k vs (m : RouteMatch (Hn := Hn)) vars :
  m_Vars m = Some vars → length vs = length (drop k varsN) →
  store_vars varsN k (zip (varGroupName <$> seq k (length vs)) vs) m =
    (Ret tt, set_Vars (insert_all vars (zip (drop k varsN) vs)) m).
Proof.
  revert k m vars. induction vs as [|v vs IH]; intros k [mr mh mv] vars Hm Hl; simpl in Hm; subst mv.
  { destruct (drop k varsN); [done|by simpl in Hl]. }
  cbn [length seq fmap list_fmap zip]. cbn [store_vars]. rewrite decide_True; [|done].
  destruct (drop k varsN) as [|n rest] eqn:E; [done|].
  assert (varsN !! k = Some n) as ->.
  { rewrite -(Nat.add_0_r k) -lookup_drop E. done. }
  assert (drop (S k) varsN = rest) as Hrest.
  { replace (S k) with (k + 1) by lia. rewrite -drop_drop E. done. }
  unfold mbind, M_bind, modify. cbn [set_Vars m_Vars m_Route m_Handler default]. simpl in Hl.
  rewrite (IH (S k) _ (<[n := v]> vars)); [|done|by rewrite Hrest; lia]. by rewrite Hrest.
Qed.
Lemma insert_all_lookup vars names vs (values : gmap string string) n :
  Forall2 (λ n v, values !! n = Some v) names vs → (∀ n, vars !! n = None ∨ vars !! n = values !! n) →
  insert_all vars (zip names vs) !! n = if decide (n ∈ names) then values !! n else vars !! n.
Proof.
  intros Hf. revert vars. induction Hf as [|k v names vs Hk _ IH]; intros vars Hv; [done|].
  cbn [zip insert_all foldl]. change (foldl _ ?m ?l) with (insert_all m l). simpl. rewrite IH.
  - destruct (decide (n ∈ names)).
    + rewrite decide_True //. by right.
    + destruct (decide (n = k)) as [->|Hne].
      * rewrite lookup_insert_eq decide_True //. by left.
      * rewrite lookup_insert_ne // decide_False //. rewrite elem_of_cons. naive_solver.
  - intros x. destruct (decide (x = k)) as [->|]; [right; by rewrite lookup_insert_eq|].
    rewrite lookup_insert_ne //.
Qed.

Lemma lookup_last {A} (l : list A) x : (l ++ [x]) !! length l = Some x.
Proof. by rewrite lookup_app_r // Nat.sub_diag. Qed.
Lemma alter_last {A} (f : A → A) l x : alter f (length l) (l ++ [x]) = l ++ [f x].
Proof. induction l as [|y l IH]; [done|]. by cbn; f_equal. Qed.

(** A route that [Router.Path] makes. *)
Definition path_route (o : nat) (rr : routeRegexp) : Route (Hn := Hn) :=
  mkRoute (Some o) None [MRegexp rr] (Some (mkGroup None (Some rr) (mkSlice None 0))) false false "" None None.
Lemma Router_Path_run st o ro tpl i st1 st2 :
  st_routers st !! o = Some ro → ro_parent ro = None → ro_strictSlash ro = false →
  Router_Path o tpl st = (Ret i, st1) → GetError i st1 = (Ret None, st2) →
  ∃ rr, newRouteRegexp tpl false false false false = Ok rr ∧ i = length (st_routes st) ∧
    st_routes st1 = st_routes st ++ [path_route o rr] ∧
    ∃ ro1, st_routers st1 !! o = Some ro1 ∧ ro_parent ro1 = None.
Proof.
  intros Ho Hp Hs. destruct st as [rs ros ar nm]. simpl in Ho |- *.
  set (i0 := length rs).
  set (f1 := λ ro : Router (Hn := Hn), mkRouter (ro_NotFoundHandler ro) (ro_parent ro) (ro_routes ro ++ [i0]) (ro_namedRoutes ro)
    (ro_strictSlash ro) (ro_KeepContext ro)).
  set (r0 := mkRoute (Some o) None [] None false false "" None None : Route (Hn := Hn)).
  set (r1 := set_regexp (Some (mkGroup None None (mkSlice None 0))) r0).
  set (S r := mkStore (rs ++ [r]) (alter f1 o ros) ar nm).
  assert (alter f1 o ros !! o = Some (f1 ro)) as Ho1 by by rewrite list_lookup_alter_eq Ho.
  unfold Router_Path. rewrite (bind_run _ _ _ i0 (S r0)).
  2: { unfold NewRoute, router. rewrite (bind_run _ _ _ ro (mkStore rs ros ar nm)); [|by rewrite /= Ho].
       unfold mbind, M_bind, gets, modify, upd_router, set_routes, set_routers. simpl. by rewrite Hs. }
  assert (∀ r, route i0 (S r) = (Ret r, S r)) as Hroute.
  { intros r. unfold route, S. simpl. by rewrite lookup_last. }
  assert (∀ r f, upd_route i0 f (S r) = (Ret tt, S (f r))) as Hupd.
  { intros r f. unfold upd_route, modify, S, set_routes. simpl. by rewrite alter_last. }
  assert (∀ n, getRegexpGroup (Datatypes.S n) i0 (S r0) = (Ret (mkGroup None None (mkSlice None 0)), S r1)) as Hg.
  { intros n. cbn [getRegexpGroup]. rewrite (bind_run _ _ _ _ _ (Hroute r0)). cbn [rt_regexp r0].
    rewrite (bind_run _ _ _ o (S r0)).
    2: { unfold parent_of. by rewrite (bind_run _ _ _ _ _ (Hroute r0)). }
    rewrite (bind_run _ _ _ (f1 ro) (S r0)); [|by unfold router, S; simpl; rewrite Ho1].
    cbn [ro_parent f1]. rewrite Hp. unfold mret at 1, M_ret at 1. rewrite (bind_run _ _ _ _ _ eq_refl).
    by rewrite (bind_run _ _ _ _ _ (Hupd r0 _)). }
  assert (addRegexpMatcher i0 tpl false false false (S r0) =
    match (if HasPrefix tpl "/" then newRouteRegexp tpl false false false false
           else Err (ErrorS ("mux: path must start with a slash, got " +:+ tpl))) with
    | Err e => (Ret (Some e), S r1)
    | Ok rr => (Ret None, S (path_route o rr))
    end) as Hadd.
  { unfold addRegexpMatcher. rewrite (bind_run _ _ _ _ _ (Hroute r0)). cbn [rt_err r0].
    rewrite (bind_run _ _ _ (Datatypes.S (length (alter f1 o ros))) (S r0)) // (bind_run _ _ _ _ _ (Hg _)). cbn [negb andb g_path].
    destruct (HasPrefix tpl "/"); [|done]. cbn [negb rt_strictSlash r0].
    destruct (newRouteRegexp _ _ _ _ _) as [rr|e]; [|done].
    rewrite (bind_run _ _ _ [] (S r1)); [|done]. 
    change (unique_all _ _) with (@None error). cbv beta iota zeta.
    rewrite (bind_run _ _ _ (mkGroup None (Some rr) (mkSlice None 0)) (S r1)) // (bind_run _ _ _ _ _ (Hupd r1 _)).
    rewrite (bind_run _ _ _ i0 (S (path_route o rr))) //.
    unfold addMatcher. rewrite (bind_run _ _ _ _ _ (Hroute _)). cbn [rt_err r1 r0 set_regexp].
    by rewrite (bind_run _ _ _ _ _ (Hupd _ _)). }
  unfold Path, regexp_method.
  destruct (if HasPrefix tpl "/" then _ else _) as [rr|e] eqn:Er.
  - rewrite (bind_run _ _ _ _ _ Hadd) (bind_run _ _ _ _ _ (Hupd _ _)). intros [= <- <-] _.
    destruct (HasPrefix tpl "/"); [|done]. exists rr. split_and!; [done..|]. by exists (f1 ro).
  - rewrite (bind_run _ _ _ _ _ Hadd) (bind_run _ _ _ _ _ (Hupd _ _)). intros [= <- <-].
    unfold GetError. by rewrite (bind_run _ _ _ _ _ (Hroute _)).
Qed.

Lemma setMatch_path st rr req (m : RouteMatch (Hn := Hn)) vars vs :
  rr_strictSlash rr = false → FindStringSubmatch (rr_regexp rr) (u_Path (rq_URL req)) = Some vs →
  group_names (re_ast (rr_regexp rr)) = varGroupName <$> seq 0 (length (rr_varsN rr)) →
  length vs = length (rr_varsN rr) → m_Vars m = Some vars →
  setMatch st (mkGroup None (Some rr) (mkSlice None 0)) req m =
    (Ret tt, set_Vars (insert_all vars (zip (rr_varsN rr) vs)) m).
Proof.
  intros Hss Hfind Hg Hl Hm. unfold setMatch. cbn [g_host g_path g_queries]. rewrite (bind_run _ _ _ tt m) //.
  rewrite (bind_run _ _ _ tt (set_Vars (insert_all vars (zip (rr_varsN rr) vs)) m)) //.
  rewrite (bind_run _ _ _ true (set_Vars (insert_all vars (zip (rr_varsN rr) vs)) m)).
  - unfold strict_redirect. by rewrite Hss.
  - unfold set_vars. rewrite Hfind Hg -Hl.
    rewrite (bind_run _ _ _ _ _ (store_vars_all (rr_varsN rr) 0 vs m vars Hm _)) //.
Qed.
Lemma URLPath_run (st : store (Hn := Hn)) i o rr ro pairs u st' :
  st_routes st !! i = Some (path_route o rr) → st_routers st !! o = Some ro → ro_parent ro = None →
  URLPath i pairs st = (Ret (Ok u), st') → rr_url rr (pairs_map ∅ pairs) = Ok (u_Path u).
Proof.
  intros Hi Ho Hp. assert (route i st = (Ret (path_route o rr), st)) as Hr by by unfold route; rewrite Hi.
  unfold URLPath. rewrite (bind_run _ _ _ _ _ Hr). cbn [rt_err path_route rt_regexp].
  change (Some (mkGroup None (Some rr) (mkSlice None 0)) ≫= g_path) with (Some rr). cbv iota.
  unfold bindR, prepareVars, mapFromPairsToString. destruct (checkPairs pairs) as [e|].
  { by rewrite (bind_run _ _ _ (Err e) st). }
  rewrite (bind_run _ _ _ (Ok (pairs_map ∅ pairs)) st).
  - destruct (rr_url rr (pairs_map ∅ pairs)); [|done]. by intros [= <- _].
  - rewrite (bind_run _ _ _ (S (length (st_routers st))) st) // (bind_run _ _ _ (pairs_map ∅ pairs) st) //.
    cbn [buildVars]. rewrite (bind_run _ _ _ _ _ Hr). cbn [rt_parent path_route].
    rewrite (bind_run _ _ _ (pairs_map ∅ pairs) st) //. unfold router. rewrite (bind_run _ _ _ ro st) ?Ho //. by rewrite Hp.
Qed.

(** C38: A path that [URLPath] builds for a route is matched by that route, and the variables
    of the match are the values it was built from.  The route is one that [Path] has just
    made, without an error, on a router that has no parent route and no strict slash; its
    template has no percent sign, its variables have the default pattern, and a slash or
    the end of the template is behind each; and [URLPath] returned no error. *)
Theorem url_roundtrip (st : store (Hn := Hn)) o ro tpl i st1 st2 pairs u st3 req sub :
  st_routers st !! o = Some ro → ro_parent ro = None → ro_strictSlash ro = false →
  segmented tpl = true → has_char "%" tpl = false →
  Router_Path o tpl st = (Ret i, st1) → GetError i st1 = (Ret None, st2) →
  URLPath i pairs st1 = (Ret (Ok u), st3) → u_Path (rq_URL req) = u_Path u →
  ∃ vars, Route_Match sub st1 i req (mkMatch None None None) = (Ret true, mkMatch (Some i) None (Some vars)) ∧
    ∀ n, vars !! n = if decide (n ∈ template_names tpl) then pairs_map ∅ pairs !! n else None.
Proof.
  intros Ho Hp Hs Hseg Hpc Hrun Herr Hu Hreq.
  destruct (Router_Path_run _ _ _ _ _ _ _ Ho Hp Hs Hrun Herr) as (rr & Hnew & -> & Hrs & ro1 & Ho1 & Hp1).
  assert (st_routes st1 !! length (st_routes st) = Some (path_route o rr)) as Hi by by rewrite Hrs lookup_last.
  pose proof (URLPath_run _ _ _ _ _ _ _ _ Hi Ho1 Hp1 Hu) as Hurl.
  pose proof (segmented_plain _ _ Hnew Hseg) as Hpl.
  destruct (newRouteRegexp_template _ _ _ _ _ _ Hnew Hpl) as (ps & rs & raw & x1 & x2 & x3 & x4 & T & Hparts).
  destruct (Hparts eq_refl) as (Hpt & -> & -> & -> & ->).
  pose proof (template_url_matches _ _ _ _ _ _ _ _ _ _ _ T Hpc Hurl) as Hm.
  destruct (url_fills _ _ _ _ _ _ _ _ _ _ _ T Hpc Hurl) as (vs & Hpath & Hvs & _).
  rewrite str_app_nil_r in Hpath. rewrite Hpath in Hm, Hreq.
  pose proof (Forall2_length _ _ _ Hvs) as Hl. rewrite length_fmap in Hl.
  pose proof (segments_found _ _ _ _ _ _ T Hpt Hseg Hm (eq_sym Hl)) as Hfind.
  exists (insert_all ∅ (zip (p_name <$> ps) vs)). unfold template_names. rewrite Hpt. split.
  2: { intros n. rewrite (insert_all_lookup _ _ _ (pairs_map ∅ pairs)) //. intros ?. left. apply lookup_empty. }
  assert (dflt : rs = replicate (length ps) dflt_re).
  { unfold segmented in Hseg. rewrite Hpt in Hseg. apply andb_true_iff in Hseg as [[Hd _]%andb_true_iff _].
    eapply dflt_parses; [done|eapply to_parses, T]. }
  destruct (newRouteRegexp_flags _ _ Hnew) as (Hmh & Hmq & Hss).
  unfold Route_Match. rewrite Hi.
  cbn [rt_buildOnly rt_err path_route orb rt_matchers match_all matcher_Match rt_regexp rt_handler].
  rewrite bool_decide_eq_false_2; [|naive_solver].
  rewrite (bind_run _ _ _ true (mkMatch None None None)).
  2: { rewrite (bind_run _ _ _ true (mkMatch None None None)) //. unfold rr_Match. by rewrite Hmh Hmq Hreq Hm. }
  set (m1 := mkMatch (Some (length (st_routes st))) None (Some ∅) : RouteMatch (Hn := Hn)).
  rewrite (bind_run _ _ _ tt m1) //.
  rewrite (bind_run _ _ _ tt (set_Vars (insert_all ∅ (zip (p_name <$> ps) vs)) m1)) //.
  pose proof (to_names _ _ _ _ _ _ _ _ _ T) as Hnames. rewrite (setMatch_path st1 rr req m1 ∅ vs) ?Hnames //.
  - by rewrite Hreq.
  - by rewrite (to_regexp _ _ _ _ _ _ _ _ _ T) dflt template_groups length_fmap.
  - by rewrite length_fmap.
Qed.
End roundtrip.
End MuxCorrect.
