(* ===== verification/MuxTotal.v ===== *)
(** * gorilla/mux: the objects are well-formed and everything ends

    [wf] is the invariant of the store: a route belongs to the router that lists it,
    and a router that was made for a route is numbered after the router of that
    route.  Every exported operation keeps it, and on stores that the operations make,
    the recursion through parents and subrouters ends before its fuel does. *)

From S2P Require Import Prelude GoStrings GoRegexp Mux MuxRoute.

Module MuxTotal.
Import MuxRoute.

Section total.
Context `{!UrlText} {Hn : Type}.
#[local] Abbreviation store := (store (Hn := Hn)).
#[local] Abbreviation Route := (Route (Hn := Hn)).
#[local] Abbreviation Router := (Router (Hn := Hn)).
#[local] Abbreviation matcher := (matcher (Hn := Hn)).
Implicit Types (st : store).

Definition route_ok (n : nat) (r : Route) : Prop :=
  ∃ o, rt_parent r = Some o ∧ (o < n)%nat ∧ ∀ o', MRouter o' ∈ rt_matchers r → (o < o' < n)%nat.
Definition belongs (rs : list Route) (i o : nat) : Prop := ∃ r, rs !! i = Some r ∧ rt_parent r = Some o.
Definition router_ok (rs : list Route) (o : nat) (ro : Router) : Prop :=
  (∀ i, i ∈ ro_routes ro → belongs rs i o) ∧
  ∀ j, ro_parent ro = Some j → ∃ o', belongs rs j o' ∧ (o' < o)%nat.
Definition wf st : Prop :=
  (∀ i r, st_routes st !! i = Some r → route_ok (length (st_routers st)) r) ∧
  ∀ o ro, st_routers st !! o = Some ro → router_ok (st_routes st) o ro.

Definition panics (c : crash) : Prop := ∃ why, c = Panic why.
(** The operation keeps the invariant and does not run out of fuel. *)
Definition keeps {A} (m : MS (Hn := Hn) A) : Prop :=
  ∀ st, wf st → wp m (λ _ st', wf st') (λ c st', panics c ∧ wf st') st.

Lemma keeps_mret {A} (a : A) : keeps (mret a).
Proof. by intros st Hst. Qed.
Lemma keeps_then {A B} (m : MS A) (k : A → MS B) : keeps m → (∀ a, keeps (k a)) → keeps (m ≫= k).
Proof. intros Hm Hk st Hst. apply wp_bind. eapply wp_mono; [by apply Hm|intros a st' ?; by apply Hk|done]. Qed.
Lemma keeps_route i : keeps (route i).
Proof.
  intros st Hst. unfold wp, route. destruct (_ !! i); [done|]. split; [by eexists|done].
Qed.
Lemma keeps_router o : keeps (router o).
Proof.
  intros st Hst. unfold wp, router. destruct (_ !! o); [done|]. split; [by eexists|done].
Qed.
Lemma keeps_gets {A} (f : store → A) : keeps (gets f).
Proof. by intros st Hst. Qed.

(** Changes of what the invariant does not speak about. *)
Definition same_route (f : Route → Route) : Prop :=
  ∀ r, rt_parent (f r) = rt_parent r ∧ ∀ o, MRouter o ∈ rt_matchers (f r) → MRouter o ∈ rt_matchers r.
Definition same_router (f : Router → Router) : Prop :=
  ∀ ro, ro_routes (f ro) = ro_routes ro ∧ ro_parent (f ro) = ro_parent ro.

Lemma belongs_alter f i rs j o : (∀ r, rt_parent (f r) = rt_parent r) → belongs rs j o → belongs (alter f i rs) j o.
Proof.
  intros Hf (r & Hr & Hp). unfold belongs. rewrite list_lookup_alter. case_decide as E; [|by exists r].
  subst j. rewrite Hr. exists (f r). by rewrite Hf.
Qed.
Lemma router_ok_mono rs rs' o ro : (∀ i o, belongs rs i o → belongs rs' i o) → router_ok rs o ro → router_ok rs' o ro.
Proof.
  intros Hb [Hi Hj]. split; [auto|]. intros j Hp. destruct (Hj j Hp) as (o' & ? & ?). exists o'. auto.
Qed.
Lemma keeps_upd_route i f : same_route f → keeps (upd_route i f).
Proof.
  intros Hf st [Hr Ho]. apply wp_modify. split; simpl.
  - intros j r. rewrite list_lookup_alter. case_decide as E; [subst j|by apply Hr].
    destruct (st_routes st !! i) as [r0|] eqn:E0; [|done]. intros [= <-].
    destruct (Hr _ _ E0) as (o & Hp & Hlt & Hm). destruct (Hf r0) as [Hfp Hfm]. exists o.
    split_and!; [by rewrite Hfp|done|auto].
  - intros o ro Hro. eapply router_ok_mono; [|by apply Ho]. intros j o' Hb. apply belongs_alter; [|done].
    intros r. apply Hf.
Qed.
Lemma keeps_upd_router o f : same_router f → keeps (upd_router o f).
Proof.
  intros Hf st [Hr Ho]. apply wp_modify. split; simpl.
  - intros j r ?. rewrite length_alter. by eapply Hr.
  - intros o' ro. rewrite list_lookup_alter. case_decide as E; [subst o'|by apply Ho].
    destruct (st_routers st !! o) as [ro0|] eqn:E0; [|done]. intros [= <-].
    destruct (Ho _ _ E0) as [Hi Hj]. destruct (Hf ro0) as [Hf1 Hf2]. split; [by rewrite Hf1|by rewrite Hf2].
Qed.
Lemma keeps_names f : keeps (modify (λ st, set_names (f st) st)).
Proof. by intros st Hst. Qed.
Lemma keeps_alloc_names : keeps alloc_names.
Proof. by intros st Hst. Qed.
Lemma keeps_append s x : keeps (sl_append s x).
Proof. intros st Hst. unfold wp, sl_append. by case_decide. Qed.

(** Making objects. *)
Lemma wf_new_router st ro :
  wf st → ro_routes ro = [] → (∀ j, ro_parent ro = Some j → ∃ o, belongs (st_routes st) j o) →
  wf (set_routers (st_routers st ++ [ro]) st).
Proof.
  intros [Hr Ho] Hnil Hp. split; simpl.
  - intros i r Hi. destruct (Hr _ _ Hi) as (o & ? & ? & Hm). exists o. rewrite length_app /=.
    split_and!; [done|lia|]. intros o' ?%Hm. lia.
  - intros o ro' [[_ Ho']|[-> <-]]%lookup_snoc_Some; [by apply Ho|]. split; [by rewrite Hnil; inversion 1|].
    intros j Hj. destruct (Hp j Hj) as (o' & r & Hr' & Hp'). exists o'. split; [by exists r|].
    destruct (Hr _ _ Hr') as (o'' & Hp'' & ? & _). congruence.
Qed.
Lemma keeps_NewRouter : keeps NewRouter.
Proof.
  apply keeps_then; [apply keeps_alloc_names|]. intros n st Hst. by apply wf_new_router.
Qed.
Lemma belongs_app rs r i o : belongs rs i o → belongs (rs ++ [r]) i o.
Proof. intros (x & Hx & Hp). exists x. split; [by apply lookup_app_l_Some|done]. Qed.
Lemma keeps_NewRoute o : keeps (NewRoute o).
Proof.
  intros st [Hr Ho]. unfold NewRoute, wp, mbind, M_bind, router.
  destruct (st_routers st !! o) as [ro|] eqn:E; [|split; [by eexists|done]]. simpl.
  pose proof (lookup_lt_Some _ _ _ E) as Hlt. split; simpl.
  - intros i r [[_ Hi]|[-> <-]]%lookup_snoc_Some; rewrite length_alter; [by eapply Hr|]. exists o.
    split_and!; [done|done|]. intros o' Hm. inversion Hm.
  - intros o' ro'. rewrite list_lookup_alter. case_decide as Eo.
    + subst o'. rewrite E. intros [= <-]. destruct (Ho _ _ E) as [Hi Hj]. split; simpl.
      * intros i [? | ->%list_elem_of_singleton]%elem_of_app; [by apply belongs_app, Hi|].
        eexists. by rewrite lookup_app_r // Nat.sub_diag.
      * intros j Hp. destruct (Hj j Hp) as (o' & ? & ?). exists o'. split; [by apply belongs_app|done].
    + intros Hro. eapply router_ok_mono; [|by apply Ho]. intros i o'' ?. by apply belongs_app.
Qed.

(** Going up through the parents: the fuel is more than the number of the router. *)
Lemma wp_parent_of i st r o : wf st → st_routes st !! i = Some r → rt_parent r = Some o → parent_of i st = (Ret o, st).
Proof. intros Hst Hi Hp. unfold parent_of, mbind, M_bind, route. by rewrite Hi Hp. Qed.
Lemma keeps_parent_of i : keeps (parent_of i).
Proof.
  intros st Hst. destruct (st_routes st !! i) as [r|] eqn:E.
  - destruct Hst as [Hr Ho]. destruct (Hr _ _ E) as (o & Hp & _). unfold wp.
    by rewrite (wp_parent_of i st r o).
  - unfold wp, parent_of, mbind, M_bind, route. rewrite E. split; [by eexists|done].
Qed.
Lemma getNames_fuel f o st :
  wf st → (o < f)%nat → wp (Router_getNamedRoutes f o) (λ _ st', wf st') (λ c st', panics c ∧ wf st') st.
Proof.
  revert o st. induction f as [|f IH]; intros o st Hst Hf; [lia|]. cbn [Router_getNamedRoutes].
  apply wp_bind. unfold wp at 1, router. destruct (st_routers st !! o) as [ro|] eqn:E; [|split; [by eexists|done]].
  destruct (ro_namedRoutes ro); [done|]. apply wp_bind.
  assert (wp (match ro_parent ro with Some i => o' ← parent_of i; Router_getNamedRoutes f o' | None => alloc_names end)
    (λ _ st', wf st') (λ c st', panics c ∧ wf st') st) as Hm.
  { destruct (ro_parent ro) as [i|] eqn:Ep; [|by apply keeps_alloc_names].
    destruct (proj2 (proj2 Hst _ _ E) i Ep) as (o' & (r & Hi & Hp) & Hlt).
    apply wp_bind. unfold wp at 1. rewrite (wp_parent_of i st r o') //. apply IH; [done|lia]. }
  eapply wp_mono; [exact Hm| |done]. intros n st' Hst'. apply wp_bind.
  eapply wp_mono; [apply keeps_upd_router; [by intros ?|done]|by intros|done].
Qed.
Lemma getGroup_fuel f i r o st :
  wf st → st_routes st !! i = Some r → rt_parent r = Some o → (o < f)%nat →
  wp (getRegexpGroup f i) (λ _ st', wf st') (λ c st', panics c ∧ wf st') st.
Proof.
  revert i r o st. induction f as [|f IH]; intros i r o st Hst Hi Hp Hf; [lia|]. cbn [getRegexpGroup].
  apply wp_bind. unfold wp at 1, route. rewrite Hi. destruct (rt_regexp r); [done|].
  apply wp_bind. unfold wp at 1. rewrite (wp_parent_of i st r o) //.
  apply wp_bind. unfold wp at 1, router. destruct (st_routers st !! o) as [ro|] eqn:E; [|split; [by eexists|done]].
  apply wp_bind.
  assert (wp (match ro_parent ro with Some j => getRegexpGroup f j | None => mret (mkGroup None None (mkSlice None 0)) end)
    (λ _ st', wf st') (λ c st', panics c ∧ wf st') st) as Hm.
  { destruct (ro_parent ro) as [j|] eqn:Ep; [|done].
    destruct (proj2 (proj2 Hst _ _ E) j Ep) as (o' & (r' & Hi' & Hp') & Hlt). eapply IH; [done|done|done|lia]. }
  eapply wp_mono; [exact Hm| |done]. intros n st' Hst'. apply wp_bind.
  eapply wp_mono; [apply keeps_upd_route; [by intros ?|done]|by intros|done].
Qed.
Lemma buildVars_fuel f i r o st m :
  wf st → st_routes st !! i = Some r → rt_parent r = Some o → (o < f)%nat →
  wp (buildVars f i m) (λ _ st', wf st') (λ c st', panics c ∧ wf st') st.
Proof.
  revert i r o m. induction f as [|f IH]; intros i r o m Hst Hi Hp Hf; [lia|]. cbn [buildVars].
  apply wp_bind. unfold wp at 1, route. rewrite Hi Hp. apply wp_bind, wp_bind. unfold wp at 1, router.
  destruct (st_routers st !! o) as [ro|] eqn:E; [|split; [by eexists|done]].
  destruct (ro_parent ro) as [j|] eqn:Ep; [|done].
  destruct (proj2 (proj2 Hst _ _ E) j Ep) as (o' & (r' & Hi' & Hp') & Hlt).
  eapply wp_mono; [eapply IH; [done|done|done|lia]|by intros|done].
Qed.

(** With the fuel of [depth]. *)
Lemma keeps_depth_names o : keeps (f ← depth; Router_getNamedRoutes f o).
Proof.
  intros st Hst. apply wp_bind, wp_gets. destruct (decide (o < S (length (st_routers st)))%nat).
  { by apply getNames_fuel. }
  cbn [Router_getNamedRoutes]. apply wp_bind. unfold wp at 1, router. rewrite lookup_ge_None_2; [|lia].
  split; [by eexists|done].
Qed.
Lemma parent_bound st i r o : wf st → st_routes st !! i = Some r → rt_parent r = Some o → (o < S (length (st_routers st)))%nat.
Proof. intros Hst Hi Hp. destruct (proj1 Hst _ _ Hi) as (o' & Hp' & ? & _). simplify_eq. lia. Qed.
Lemma keeps_names_of i : keeps (f ← depth; getNamedRoutes f i).
Proof.
  intros st Hst. apply wp_bind, wp_gets. unfold getNamedRoutes. apply wp_bind.
  destruct (st_routes st !! i) as [r|] eqn:E.
  - destruct (proj1 Hst _ _ E) as (o & Hp & _). unfold wp at 1. rewrite (wp_parent_of i st r o) //.
    apply getNames_fuel; [done|by eapply parent_bound].
  - unfold wp at 1, parent_of, mbind, M_bind, route. rewrite E. split; [by eexists|done].
Qed.

(** ** The operations *)
Create HintDb mux.
#[local] Hint Resolve keeps_mret keeps_route keeps_router keeps_gets keeps_names keeps_append keeps_NewRouter keeps_NewRoute : mux.
Lemma keeps_assoc {A B C} (m : MS A) (k : A → MS B) (l : B → MS C) : keeps ((m ≫= k) ≫= l) → keeps (m ≫= λ a, k a ≫= l).
Proof.
  intros Hk st Hst. specialize (Hk st Hst). revert Hk. unfold wp, mbind, M_bind.
  by destruct (m st) as [[a|c] st'].
Qed.
Ltac keeps_step :=
  match goal with
  | |- keeps (upd_route _ _ ) => apply keeps_upd_route; intros ?; by split
  | |- keeps (upd_router _ _ ) => apply keeps_upd_router; intros ?; by split
  | |- keeps (mbind _ _) => apply keeps_then; [|intros ?]
  | |- keeps (match ?x with _ => _ end) => destruct x
  | _ => by eauto with mux
  end.
Ltac keeps_tac := repeat (cbv beta zeta; keeps_step).

Lemma keeps_addMatcher i m : (∀ o, m ≠ MRouter o) → keeps (addMatcher i m).
Proof.
  intros Hm. unfold addMatcher. keeps_tac. apply keeps_upd_route. intros r. split; [done|]. simpl.
  intros o [?|<-%list_elem_of_singleton]%elem_of_app; [done|]. by destruct (Hm o).
Qed.
Lemma keeps_StrictSlash o b : keeps (StrictSlash o b).
Proof. unfold StrictSlash. keeps_tac. Qed.
Lemma keeps_Get o n : keeps (Get o n).
Proof. unfold Get. apply keeps_assoc, keeps_then; [apply keeps_depth_names|]. intros ?. keeps_tac. Qed.
Lemma keeps_BuildOnly i : keeps (BuildOnly i).
Proof. unfold BuildOnly. keeps_tac. Qed.
Lemma keeps_Handler i h : keeps (Handler i h).
Proof. unfold Handler. keeps_tac. Qed.
Lemma keeps_Name i n : keeps (Name i n).
Proof.
  unfold Name. apply keeps_then; [apply keeps_route|]. intros r. apply keeps_then; [keeps_tac|]. intros _.
  apply keeps_then; [apply keeps_route|]. intros r'. apply keeps_then; [|intros _; apply keeps_mret].
  case_decide; [|apply keeps_mret]. apply keeps_then; [keeps_tac|]. intros _.
  apply keeps_assoc, keeps_then; [apply keeps_names_of|]. intros ?. apply keeps_names.
Qed.
Lemma keeps_addRegexpMatcher i tpl h p q : keeps (addRegexpMatcher i tpl h p q).
Proof.
  intros st Hst. unfold addRegexpMatcher. apply wp_bind. unfold wp at 1, route.
  destruct (st_routes st !! i) as [r|] eqn:E; [|split; [by eexists|done]].
  destruct (rt_err r); [done|]. destruct (proj1 Hst _ _ E) as (o & Hp & _). apply wp_bind, wp_gets, wp_bind.
  eapply wp_mono; [eapply getGroup_fuel; [done|done|done|by eapply parent_bound]| |done].
  intros g.
  match goal with |- ∀ st', _ → wp ?m _ _ st' => assert (keeps m) as Hk; [|exact Hk] end.
  keeps_tac. all: by apply keeps_addMatcher.
Qed.
#[local] Hint Resolve keeps_addRegexpMatcher : mux.
Lemma keeps_regexp_method i tpl h p : keeps (regexp_method i tpl h p).
Proof. unfold regexp_method. keeps_tac. Qed.
Lemma keeps_queries_loop i pairs : keeps (queries_loop i pairs).
Proof.
  assert (∀ n pairs, (length pairs < n)%nat → keeps (queries_loop i pairs)) as Hall; [|apply (Hall (S (length pairs))); lia].
  induction n as [|n IH]; intros [|k [|v l]] Hl; simpl in Hl; try lia; cbn [queries_loop]; try apply keeps_mret.
  keeps_tac. apply IH. lia.
Qed.
#[local] Hint Resolve keeps_queries_loop : mux.
Lemma keeps_Queries i pairs : keeps (Queries i pairs).
Proof. unfold Queries. keeps_tac. Qed.
Lemma keeps_pairs_method {A} i (m : result A) mk : (∀ a o, mk a ≠ MRouter o) → keeps (pairs_method i m mk).
Proof. intros Hm. unfold pairs_method. keeps_tac. by apply keeps_addMatcher. Qed.
Lemma keeps_BuildVarsFunc i f : keeps (BuildVarsFunc i f).
Proof. unfold BuildVarsFunc. keeps_tac. Qed.
Lemma keeps_Subrouter i : keeps (Subrouter i).
Proof.
  intros st Hst. unfold Subrouter. apply wp_bind. unfold wp at 1, route.
  destruct (st_routes st !! i) as [r|] eqn:E; [|split; [by eexists|done]].
  destruct (proj1 Hst _ _ E) as (o & Hp & Hlt & Hm).
  set (ro := mkRouter None (Some i) [] None (rt_strictSlash r) false : Router).
  assert (wf (set_routers (st_routers st ++ [ro]) st)) as Hst1.
  { apply wf_new_router; [done|done|]. intros j [= <-]. exists o. by exists r. }
  apply wp_bind. unfold wp at 1, alloc_router. apply wp_bind. unfold addMatcher. apply wp_bind.
  unfold wp at 1, route. simpl. rewrite E. case_decide; [|done]. apply wp_bind. unfold upd_route. apply wp_modify.
  destruct Hst1 as [Hr Ho]. split; simpl in *.
  - intros j r'. rewrite list_lookup_alter. case_decide; [subst j|by apply Hr]. rewrite E. intros [= <-].
    exists o. rewrite length_app /=. split_and!; [done|lia|]. simpl.
    intros o' [?%Hm|[= ->]%list_elem_of_singleton]%elem_of_app; lia.
  - intros o' ro' Hro. eapply router_ok_mono; [|by apply Ho]. intros j o'' ?. by apply belongs_alter.
Qed.
#[local] Hint Resolve keeps_BuildOnly keeps_Handler keeps_regexp_method keeps_Queries keeps_BuildVarsFunc : mux.

Lemma keeps_prepared {A} i pairs (k : gmap string string → MS (result A)) st r :
  wf st → st_routes st !! i = Some r → (∀ v, keeps (k v)) →
  wp (bindR (prepareVars i pairs) k) (λ _ st', wf st') (λ c st', panics c ∧ wf st') st.
Proof.
  intros Hst Hi Hk. apply wp_bindR. unfold prepareVars. destruct (mapFromPairsToString pairs) as [m|]; [|done].
  destruct (proj1 Hst _ _ Hi) as (o & Hp & _). apply wp_bind, wp_gets, wp_bind.
  eapply wp_mono; [eapply buildVars_fuel; [done|done|done|by eapply parent_bound]| |done].
  intros v st' Hst'. by apply wp_ret, Hk.
Qed.
Lemma keeps_URL i pairs : keeps (URL_ i pairs).
Proof.
  intros st Hst. unfold URL_. apply wp_bind. unfold wp at 1, route.
  destruct (st_routes st !! i) as [r|] eqn:E; [|split; [by eexists|done]].
  destruct (rt_err r), (rt_regexp r) as [g|]; try done. eapply keeps_prepared; [done|done|]. intros v. keeps_tac.
Qed.

(** The exported operations that make and change routers and routes. *)
Inductive call :=
| CNewRouter | CStrictSlash (o : nat) (b : bool) | CGet (o : nat) (name : string) | CNewRoute (o : nat)
| CBuildOnly (i : nat) | CHandler (i : nat) (h : handler (Hn := Hn)) | CName (i : nat) (name : string)
| CHeaders (i : nat) (pairs : list string) | CHeadersRegexp (i : nat) (pairs : list string)
| CHost (i : nat) (tpl : string) | CPath (i : nat) (tpl : string) | CPathPrefix (i : nat) (tpl : string)
| CMatcherFunc (i : nat) (f : request → RouteMatch (Hn := Hn) → bool * RouteMatch (Hn := Hn))
| CMethods (i : nat) (l : list string) | CSchemes (i : nat) (l : list string)
| CQueries (i : nat) (pairs : list string)
| CBuildVarsFunc (i : nat) (f : gmap string string → gmap string string)
| CSubrouter (i : nat)
| CHandle (o : nat) (path : string) (h : handler (Hn := Hn)) | CRouterHost (o : nat) (tpl : string)
| CRouterPath (o : nat) (tpl : string) | CRouterPathPrefix (o : nat) (tpl : string)
| CRouterQueries (o : nat) (pairs : list string).

Definition ignore {A} (m : MS (Hn := Hn) A) : MS () := m;; mret tt.
Definition run_call (c : call) : MS () :=
  match c with
  | CNewRouter => ignore NewRouter | CStrictSlash o b => ignore (StrictSlash o b)
  | CGet o n => ignore (Get o n) | CNewRoute o => ignore (NewRoute o)
  | CBuildOnly i => ignore (BuildOnly i) | CHandler i h => ignore (Handler i h) | CName i n => ignore (Name i n)
  | CHeaders i l => ignore (Headers i l) | CHeadersRegexp i l => ignore (HeadersRegexp i l)
  | CHost i t => ignore (Host i t) | CPath i t => ignore (Path i t) | CPathPrefix i t => ignore (PathPrefix i t)
  | CMatcherFunc i f => ignore (MatcherFunc i f)
  | CMethods i l => ignore (Methods i l) | CSchemes i l => ignore (Schemes i l)
  | CQueries i l => ignore (Queries i l) | CBuildVarsFunc i f => ignore (BuildVarsFunc i f)
  | CSubrouter i => ignore (Subrouter i) | CHandle o p h => ignore (Router_Handle o p h)
  | CRouterHost o t => ignore (Router_Host o t) | CRouterPath o t => ignore (Router_Path o t)
  | CRouterPathPrefix o t => ignore (Router_PathPrefix o t) | CRouterQueries o l => ignore (Router_Queries o l)
  end.
Lemma keeps_call c : keeps (run_call c).
Proof.
  destruct c; apply keeps_then; try (intros; apply keeps_mret);
    first [ apply keeps_NewRouter | apply keeps_StrictSlash | apply keeps_Get | apply keeps_NewRoute
          | apply keeps_BuildOnly | apply keeps_Handler | apply keeps_Name | by apply keeps_pairs_method
          | apply keeps_regexp_method | by apply keeps_addMatcher | apply keeps_Queries
          | apply keeps_BuildVarsFunc | apply keeps_Subrouter | idtac ].
  all: unfold Router_Handle, Router_Host, Router_Path, Router_PathPrefix, Router_Queries, Path, Host, PathPrefix; keeps_tac.
Qed.

(** What a program can have built: a call that panics ends it. *)
Inductive built : store → Prop :=
| built_new : built new_store
| built_call st c st' : built st → run_call c st = (Ret tt, st') → built st'.
Lemma built_wf st : built st → wf st.
Proof.
  induction 1 as [|st c st' _ IH Hc]; [by split|]. exact (wp_ret_inv _ _ _ _ _ _ (keeps_call c st IH) Hc).
Qed.

Fixpoint run_calls (l : list call) st : option store :=
  match l with
  | [] => Some st
  | c :: l => match run_call c st with (Ret tt, st') => run_calls l st' | _ => None end
  end.
Lemma built_calls l st st' : built st → run_calls l st = Some st' → built st'.
Proof.
  revert st. induction l as [|c l IH]; intros st Hb; simpl; [by intros [= <-]|].
  destruct (run_call c st) as [[[]|] st1] eqn:E; [|done]. apply IH. by eapply built_call.
Qed.

(** Matching goes down through the subrouters: the fuel is more than what is numbered
    behind the router. *)
Definition ends {W A} (m : M W A) : Prop := ∀ w, wp m (λ _ _, True) (λ c _, panics c) w.
Lemma ends_then {W A B} (m : M W A) (k : A → M W B) : ends m → (∀ a, ends (k a)) → ends (m ≫= k).
Proof. intros Hm Hk w. apply wp_bind. eapply wp_mono; [apply Hm|intros a w' _; apply Hk|done]. Qed.
Lemma ends_mret {W A} (a : A) : ends (W := W) (mret a).
Proof. by intros w. Qed.
Lemma ends_modify {W} (f : W → W) : ends (modify f).
Proof. by intros w. Qed.
Lemma ends_panic {W A} why : ends (W := W) (A := A) (throw (Panic why)).
Proof. intros w. by eexists. Qed.
#[local] Hint Resolve ends_mret ends_modify ends_panic : mux.
Ltac ends_step :=
  match goal with
  | |- ends (mbind _ _) => apply ends_then; [|intros ?]
  | |- ends (match ?x with _ => _ end) => destruct x
  | _ => by eauto with mux
  end.
Ltac ends_tac := repeat (cbv beta zeta; ends_step).

Lemma ends_store_vars varsN k l : ends (store_vars (Hn := Hn) varsN k l).
Proof. revert k. induction l as [|[n t] l IH]; intros k; cbn [store_vars]; ends_tac. Qed.
#[local] Hint Resolve ends_store_vars : mux.
Lemma ends_set_vars rr t : ends (set_vars (Hn := Hn) rr t).
Proof. unfold set_vars. ends_tac. Qed.
#[local] Hint Resolve ends_set_vars : mux.
Lemma ends_setMatch st g req : ends (setMatch st g req).
Proof.
  unfold setMatch, strict_redirect. ends_tac.
  generalize (sl_elems st (g_queries g)). intros l. induction l as [|q l IH]; cbn [set_queries]; ends_tac.
Qed.
#[local] Hint Resolve ends_setMatch : mux.
Lemma ends_match_all (sub : nat → MM (Hn := Hn) bool) req l :
  (∀ o, MRouter o ∈ l → ends (sub o)) → ends (match_all sub req l).
Proof.
  induction l as [|m l IH]; intros Hs; cbn [match_all]; [apply ends_mret|].
  apply ends_then.
  - destruct m; simpl; try apply ends_mret; [|apply Hs; by left]. intros w. unfold wp. by destruct (f req w).
  - intros []; [|apply ends_mret]. apply IH. intros o Ho. apply Hs. by right.
Qed.
Lemma ends_Route_Match (sub : nat → MM (Hn := Hn) bool) st i req :
  (∀ r o, st_routes st !! i = Some r → MRouter o ∈ rt_matchers r → ends (sub o)) → ends (Route_Match sub st i req).
Proof.
  intros Hs. unfold Route_Match, nil_deref. destruct (st_routes st !! i) as [r|] eqn:E; [|apply ends_panic].
  destruct (_ || _); [apply ends_mret|]. apply ends_then; [apply ends_match_all; eauto|]. intros b. ends_tac.
Qed.
Lemma ends_Router_Match f st o req :
  wf st → (length (st_routers st) ≤ S f + o)%nat → ends (Router_Match (S f) st o req).
Proof.
  intros Hst. revert o. induction f as [|f IH]; intros o Ho.
  all: cbn [Router_Match]; unfold nil_deref; destruct (st_routers st !! o) as [ro|] eqn:E; [|apply ends_panic].
  all: destruct (proj2 Hst _ _ E) as [Hi _]; revert Hi; generalize (ro_routes ro); intros l Hi;
    induction l as [|i l IHl]; cbn [match_routes]; [apply ends_mret|].
  all: apply ends_then; [|intros []; [apply ends_mret|apply IHl; intros; apply Hi; by right]].
  all: apply ends_Route_Match; intros r o' Hr Hm; destruct (Hi i) as (r' & Hr' & Hp); [by left|].
  all: simplify_eq; destruct (proj1 Hst _ _ Hr) as (o0 & Hp0 & _ & Hlt); simplify_eq; apply Hlt in Hm.
  - lia.
  - apply IH. lia.
Qed.

(** C40: On everything a program can build, the calls, the matching of requests and the
    building of URLs end: with a result or a panic, never because the recursion
    through routers goes on. *)
Theorem mux_total st :
  built st →
  (∀ c o st', run_call c st = (o, st') → (o = Ret tt ∧ built st') ∨ ∃ why, o = Crash (Panic why)) ∧
  (∀ o req b m, Match o st req = (b, m) → (∃ r, b = Ret r) ∨ ∃ why, b = Crash (Panic why)) ∧
  (∀ i pairs u st', URL_ i pairs st = (u, st') → (∃ r, u = Ret r) ∨ ∃ why, u = Crash (Panic why)).
Proof.
  intros Hb. pose proof (built_wf _ Hb) as Hst. split_and!.
  - intros c o st' Hc. pose proof (wp_inv _ _ _ _ _ _ (keeps_call c st Hst) Hc) as Ho. destruct o as [[]|c'].
    + left. split; [done|by eapply built_call].
    + right. destruct Ho as [[why ->] _]. by exists why.
  - intros o req b m Hm. pose proof (wp_inv _ _ _ _ _ _ (ends_Router_Match (length (st_routers st)) st o req Hst ltac:(lia) _) Hm) as Ho.
    destruct b; [left; by eexists|right]. destruct Ho as [why ->]. by exists why.
  - intros i pairs u st' Hu. pose proof (wp_inv _ _ _ _ _ _ (keeps_URL i pairs st Hst) Hu) as Ho.
    destruct u; [left; by eexists|right]. destruct Ho as [[why ->] _]. by exists why.
Qed.
End total.
End MuxTotal.
