(* ===== verification/MuxBundler.v ===== *)
(** * The bundler's routes in the whole of gorilla/mux

    [Routes.initRouter] is built from the plain values of [Mux].  Here the same calls
    are made with the objects of [MuxRoute], and the two dispatch every request in the
    same way, so that what is proved of the bundler's dispatch holds of the package.
    The file ends with routers on which the package does not do what it says. *)

From S2P Require Import Prelude GoStrings GoRegexp Context Services Mux MuxRoute MuxCorrect MuxTotal Routes.

Module MuxBundler.
Import GoRegexp MuxRoute MuxCorrect MuxTotal.

(** ** Agreement of a route *)
Lemma option_ext_iff {A} (x y : option A) (P : A → Prop) :
  (∀ a, x = Some a ↔ P a) → (∀ a, y = Some a ↔ P a) → x = y.
Proof.
  intros Hx Hy. destruct x as [a|].
  - symmetry. apply Hy. by apply Hx.
  - destruct y as [b|]; [|done]. apply Hx. by apply Hy.
Qed.

Section agree.
Context `{Services, !UrlText}.
#[local] Abbreviation Hn := (Mux.handler).

(** The request as mux sees it; what the bundler's matchers do not look at is free. *)
Definition of_request (scheme host query header_host : string) (header : gmap string (list string))
    (req : Services.request) : request :=
  mkReq (rq_method req) (mkURL scheme host (rq_path req) query) header_host header.

(** The two templates match the same paths with the same variables. *)
Definition same_template (rr : routeRegexp) (rr' : Mux.routeRegexp) : Prop :=
  (rr_matchHost rr = false ∧ rr_matchQuery rr = false ∧ rr_strictSlash rr = false) ∧
  rr_varsN rr = Mux.rr_varsN rr' ∧
  group_names (re_ast (rr_regexp rr)) = varGroupName <$> seq 0 (length (rr_varsN rr)) ∧
  (∀ s l, FindStringSubmatch (rr_regexp rr) s = Some l → length l = length (rr_varsN rr)) ∧
  ∀ s, FindStringSubmatch (rr_regexp rr) s = Mux.re_match (Mux.rr_regexp rr') s.

Definition tree_route (o : nat) (h : Hn) (rr : routeRegexp) (methods : list string) : Route (Hn := Hn) :=
  mkRoute (Some o) (Some (HUser h)) [MRegexp rr; MMethod methods] (Some (mkGroup None (Some rr) (mkSlice None 0)))
    false false "" None None.

Definition same_match (x : outcome bool * RouteMatch (Hn := Hn)) (y : bool * Mux.RouteMatch) : Prop :=
  x = (Ret y.1, mkMatch (Mux.m_route y.2) (HUser <$> Mux.m_handler y.2) (Mux.m_vars y.2)).
Definition no_match : RouteMatch (Hn := Hn) := mkMatch None None None.

Lemma route_agrees sub st i o h rr rr' methods req a b c d e :
  st_routes st !! i = Some (tree_route o h rr methods) → same_template rr rr' →
  same_match (Route_Match sub st i (of_request a b c d e req) no_match)
    (Mux.Route_Match i (Routes.route h rr' methods) req Mux.new_match).
Proof.
  intros Hi ((Hmh & Hmq & Hss) & Hn & Hg & Hl & Hf). unfold Route_Match. rewrite Hi. unfold Mux.Route_Match, Routes.route.
  cbn [rt_buildOnly rt_err tree_route orb rt_matchers Mux.rt_buildOnly Mux.rt_err Mux.rt_matchers].
  rewrite !bool_decide_eq_false_2; [|by intros []|naive_solver]. cbn [orb match_all matcher_Match forallb Mux.matcher_match].
  assert (rr_Match rr (of_request a b c d e req) = bool_decide (is_Some (Mux.re_match (Mux.rr_regexp rr') (rq_path req)))) as Hm.
  { unfold rr_Match. rewrite Hmh Hmq -Hf. cbn [negb]. apply eq_bool_prop_intro.
    rewrite !Is_true_true bool_decide_eq_true. apply MatchString_found. }
  unfold mbind, M_bind, mret, M_ret. rewrite Hm. rewrite -Hf.
  destruct (FindStringSubmatch (rr_regexp rr) (rq_path req)) as [l|] eqn:El; [|done].
  rewrite bool_decide_eq_true_2; [|by eexists]. cbn [rq_Method of_request andb].
  destruct (Mux.matchInArray methods (rq_method req)); [|done]. cbn [andb negb].
  unfold modify. cbn [tree_route rt_regexp rt_handler m_Route m_Handler m_Vars no_match].
  rewrite (setMatch_path st rr _ _ ∅ l) //; [|by apply (Hl (rq_path req))].
  unfold same_match, Mux.setMatch. cbn [Mux.rt_path fst snd Mux.m_route Mux.m_handler Mux.m_vars Mux.new_match Mux.rt_handler].
  by rewrite -Hf El Hn.
Qed.

Lemma same_template_of tpl rr rr' ps raw :
  newRouteRegexp tpl false false false false = Ok rr → segmented tpl = true → template_parts tpl = Some (ps, raw) →
  rr_varsN rr = p_name <$> ps → group_names (re_ast (rr_regexp rr)) = varGroupName <$> seq 0 (length ps) →
  Mux.rr_varsN rr' = p_name <$> ps →
  (∀ s l, Mux.re_match (Mux.rr_regexp rr') s = Some l ↔ s = fill ps l +:+ raw ∧ length l = length ps ∧ Forall proper l) →
  same_template rr rr'.
Proof.
  intros Hnew Hseg Hpt Hn Hg Hn' Hre. split_and!.
  - by eapply newRouteRegexp_flags.
  - by eapply newRouteRegexp_flags.
  - by eapply newRouteRegexp_flags.
  - by rewrite Hn Hn'.
  - by rewrite Hg Hn length_fmap.
  - intros s l Hl. apply (path_template_exact _ _ _ _ _ _ Hnew Hseg Hpt) in Hl as (_ & -> & _). by rewrite Hn length_fmap.
  - intros s. eapply option_ext_iff; [|apply Hre]. intros l. by apply (path_template_exact _ _ _ _ _ _ Hnew Hseg Hpt).
Qed.
Lemma var_re_match tpl pre n s l :
  Mux.re_match (Mux.rr_regexp (Routes.var_regexp tpl pre)) s = Some l ↔
  s = fill [mkPiece pre n "[^/]+"] l +:+ "/" ∧ length l = 1 ∧ Forall proper l.
Proof.
  cbn [Mux.rr_regexp Routes.var_regexp]. rewrite Mux.re_match_var. split.
  - intros (v & -> & -> & Hv & Hs). split_and!; [|done|by constructor]. cbn [fill p_raw].
    by rewrite str_app_nil_r -str_app_assoc.
  - intros (-> & Hl & Hp). destruct l as [|v [|]]; try done. exists v. inversion Hp as [|? ? [Hv Hs] _]; subst.
    split_and!; [done| |done|done]. cbn [fill p_raw]. by rewrite str_app_nil_r -str_app_assoc.
Qed.
Lemma lit_re_match tpl s l :
  Mux.re_match (Mux.rr_regexp (Routes.lit_regexp tpl)) s = Some l ↔ s = fill [] l +:+ tpl ∧ length l = 0 ∧ Forall proper l.
Proof.
  cbn [Mux.rr_regexp Routes.lit_regexp]. split.
  - intros Hm. assert (l = []) as ->.
    { revert Hm. cbn [Mux.re_match]. destruct (strip_prefix tpl s); [|done]. case_decide; [|done]. by intros [= <-]. }
    apply Mux.re_match_lit in Hm. by subst.
  - intros (-> & Hl & _). destruct l; [|done]. by apply Mux.re_match_lit.
Qed.

Lemma Mux_Route_Match_false i r req m m' : Mux.Route_Match i r req m = (false, m') → m' = m.
Proof. unfold Mux.Route_Match. destruct (_ || _); [by intros [= <-]|]. destruct (negb _); [by intros [= <-]|done]. Qed.
Lemma match_routes_agree (f : nat → MM (Hn := Hn) bool) i routes req :
  (∀ k r, routes !! k = Some r → same_match (f (i + k) no_match) (Mux.Route_Match (i + k) r req Mux.new_match)) →
  same_match (match_routes f (seq i (length routes)) no_match) (Mux.match_routes i routes req Mux.new_match).
Proof.
  revert i. induction routes as [|r routes IH]; intros i Hf; [done|]. cbn [length seq match_routes Mux.match_routes].
  pose proof (Hf 0 r eq_refl) as Hr. rewrite Nat.add_0_r in Hr.
  destruct (Mux.Route_Match i r req Mux.new_match) as [[] m] eqn:E; rewrite (bind_run _ _ _ _ _ Hr); [done|].
  apply Mux_Route_Match_false in E as ->. apply IH. intros k r' Hk. replace (S i + k) with (i + S k) by lia. by apply Hf.
Qed.

(** ** The calls of [initRouter] *)
Definition tree_handle (o : nat) (path : string) (h : Hn) (methods : list string) : MS nat :=
  i ← Router_Handle o path (HUser h); Methods i methods.
Definition bundler_router (push pull submit health : Hn) : MS nat :=
  o ← NewRouter;
  tree_handle o "/v1/push/{app_id}/" push ["GET"; "POST"];;
  tree_handle o "/v1/pull/{app_id}/" pull ["POST"];;
  tree_handle o "/v1/submit/{app_id}/" submit ["POST"];;
  tree_handle o "/v1/healthcheck/" health ["GET"];;
  mret o.
Definition template_rr (tpl : string) : routeRegexp :=
  match newRouteRegexp tpl false false false false with
  | Ok rr => rr
  | Err _ => mkRR "" false false false (mkRe "" REmpty) "" [] []
  end.
Definition bundler_store (push pull submit health : Hn) : store (Hn := Hn) :=
  mkStore
    [tree_route 0 push (template_rr "/v1/push/{app_id}/") ["GET"; "POST"];
     tree_route 0 pull (template_rr "/v1/pull/{app_id}/") ["POST"];
     tree_route 0 submit (template_rr "/v1/submit/{app_id}/") ["POST"];
     tree_route 0 health (template_rr "/v1/healthcheck/") ["GET"]]
    [mkRouter None None [0; 1; 2; 3] (Some 0) false false] [] [∅].
Lemma bundler_router_run push pull submit health :
  bundler_router push pull submit health new_store = (Ret 0, bundler_store push pull submit health).
Proof. vm_compute. reflexivity. Qed.

(** C37: Every request is dispatched as [Routes.initRouter] dispatches it: the same route
    and handler with the same variables, or none. *)
Theorem bundler_router_agrees req scheme host query header_host header :
  let '(o, st) := bundler_router Routes.push_handler Routes.pull_handler Routes.submit_handler Routes.health_handler new_store in
  ∃ i, o = Ret i ∧ ∀ b m,
    Mux.Router_Match Routes.initRouter req Mux.new_match = (b, m) →
    Match i st (of_request scheme host query header_host header req) =
      (Ret b, mkMatch (Mux.m_route m) (HUser <$> Mux.m_handler m) (Mux.m_vars m)).
Proof.
  rewrite bundler_router_run. exists 0. split; [done|]. intros b m.
  rewrite Routes.initRouter_routes /Mux.Router_Match. cbn [Mux.ro_routes].
  set (st := bundler_store _ _ _ _). set (treq := of_request _ _ _ _ _ _).
  change (Match 0 st treq) with (match_routes (λ i, Route_Match (λ o', Router_Match 1 st o' treq) st i treq) [0; 1; 2; 3] no_match).
  assert (same_template (template_rr "/v1/push/{app_id}/") (Routes.var_regexp "/v1/push/{app_id}/" "/v1/push/")) as T0.
  { eapply (same_template_of "/v1/push/{app_id}/" _ _ [mkPiece "/v1/push/" "app_id" "[^/]+"] "/"); [by vm_compute..|].
    intros. apply var_re_match. }
  assert (same_template (template_rr "/v1/pull/{app_id}/") (Routes.var_regexp "/v1/pull/{app_id}/" "/v1/pull/")) as T1.
  { eapply (same_template_of "/v1/pull/{app_id}/" _ _ [mkPiece "/v1/pull/" "app_id" "[^/]+"] "/"); [by vm_compute..|].
    intros. apply var_re_match. }
  assert (same_template (template_rr "/v1/submit/{app_id}/") (Routes.var_regexp "/v1/submit/{app_id}/" "/v1/submit/")) as T2.
  { eapply (same_template_of "/v1/submit/{app_id}/" _ _ [mkPiece "/v1/submit/" "app_id" "[^/]+"] "/"); [by vm_compute..|].
    intros. apply var_re_match. }
  assert (same_template (template_rr "/v1/healthcheck/") (Routes.lit_regexp "/v1/healthcheck/")) as T3.
  { eapply (same_template_of "/v1/healthcheck/" _ _ [] "/v1/healthcheck/"); [by vm_compute..|].
    intros. apply lit_re_match. }
  intros E. pose proof (match_routes_agree (λ i, Route_Match (λ o', Router_Match 1 st o' treq) st i treq) 0
    (Mux.ro_routes Routes.initRouter) req) as Ha. rewrite Routes.initRouter_routes in Ha. cbn [Mux.ro_routes length seq] in Ha.
  rewrite E in Ha. apply Ha. intros [|[|[|[|k]]]] r Hk; try done; injection Hk as <-; by eapply route_agrees.
Qed.
End agree.

(** ** Examples *)
Section examples.
#[local] Instance wit_url : UrlText := {
  url_String u := u_Path u;
  url_Parse s := Ok (mkURL "" "" s "");
}.
#[local] Abbreviation MN := (MS (Hn := nat)).
Definition get (path query : string) : request := mkReq "GET" (mkURL "" "" path query) "example.com" ∅.
Definition build {A} (m : MN A) : store (Hn := nat) := (m new_store).2.

(** A path with two variables, built and read back. *)
Definition wit_tpl : string := "/articles/{category}/{id}/".
Definition wit_pairs : list string := ["id"; "42"; "category"; "tech"].
Definition wit_st : store (Hn := nat) := build (o ← NewRouter; Router_Handle o "/other" (HUser 1)).
Definition wit_st1 : store (Hn := nat) := (Router_Path 0 wit_tpl wit_st).2.
Definition wit_ro : Router (Hn := nat) := mkRouter None None [0] (Some 0) false false.

Lemma url_roundtrip_witness :
  ∃ vars, Route_Match (λ _, mret false) wit_st1 1 (get "/articles/tech/42/" "") (mkMatch None None None) =
      (Ret true, mkMatch (Some 1) None (Some vars)) ∧
    vars !! "id" = Some "42" ∧ vars !! "category" = Some "tech".
Proof.
  destruct (url_roundtrip wit_st 0 wit_ro wit_tpl 1 wit_st1 wit_st1 wit_pairs (mkURL "" "" "/articles/tech/42/" "")
    wit_st1 (get "/articles/tech/42/" "") (λ _, mret false)) as (vars & Hm & Hv).
  1-9: vm_compute; reflexivity.
  exists vars. split; [exact Hm|]. rewrite !Hv. split; vm_compute; reflexivity.
Defined.

(** A host with a pattern of its own. *)
Definition wit_host : string := "{sub:[a-z]+}.example.com".
Definition wit_rr : routeRegexp :=
  match newRouteRegexp wit_host true false false false with
  | Ok rr => rr | Err _ => mkRR "" false false false (mkRe "" REmpty) "" [] [] end.
Lemma built_url_matches_witness :
  rr_url wit_rr {["sub" := "api"]} = Ok "api.example.com" ∧ MatchString (rr_regexp wit_rr) "api.example.com" = true.
Proof.
  assert (rr_url wit_rr {["sub" := "api"]} = Ok "api.example.com") as Hu by (vm_compute; reflexivity).
  split; [exact Hu|].
  apply (built_url_matches wit_host true false false false wit_rr {["sub" := "api"]}); [vm_compute; reflexivity..|exact Hu].
Defined.

(** A router with a subrouter. *)
Definition wit_calls : list (call (Hn := nat)) :=
  [CNewRouter; CRouterPathPrefix 0 "/v1"; CSubrouter 0; CHandle 1 "/push/{app}" (HUser 7); CName 1 "push"].
Definition wit_built : store (Hn := nat) := default new_store (run_calls wit_calls new_store).
Lemma mux_total_witness :
  ∃ m, Match 0 wit_built (get "/v1/push/a1" "") = (Ret true, m) ∧ m_Handler m = Some (HUser 7).
Proof.
  assert (built wit_built) as Hb by (apply (built_calls wit_calls new_store); [apply built_new|vm_compute; reflexivity]).
  destruct (mux_total _ Hb) as (_ & Hm & _). specialize (Hm 0 (get "/v1/push/a1" "")).
  destruct (Match 0 wit_built (get "/v1/push/a1" "")) as [b m] eqn:E.
  assert ((b, m).1 = Ret true ∧ m_Handler (b, m).2 = Some (HUser 7)) as [Hb' Hh].
  { rewrite -E. split; vm_compute; reflexivity. }
  simpl in Hb', Hh. subst b. destruct (Hm _ _ eq_refl) as [_|[why Hw]]; [|discriminate Hw]. exists m. split; [reflexivity|exact Hh].
Defined.

(** ** What the package does not do *)

(** The pattern of a variable is checked as [^a|b$], so a value that only begins with
    the first alternative makes a URL that the route does not match. *)
Example url_not_matched :
  let rr := template_rr "/{x:a|b}" in
  rr_url rr {["x" := "azz"]} = Ok "/azz" ∧ MatchString (rr_regexp rr) "/azz" = false.
Proof. split; vm_compute; reflexivity. Qed.

(** The text of a template is a format: a percent sign in it takes the values. *)
Example url_percent :
  rr_url (template_rr "/50%done/{x:.*}") {["x" := "v"]} = Ok "/50%!d(string=v)one/%!s(MISSING)".
Proof. vm_compute. reflexivity. Qed.

(** A group of the program's own with the name of the next variable: the index of the
    variable is out of range when the route matches. *)
Example group_name_panics :
  (let st := build (o ← NewRouter; Router_Path o "/{x:(?P<v1>a)}") in Match 0 st (get "/a" "")).1
    = Crash out_of_range.
Proof. vm_compute. reflexivity. Qed.

(** Routes of a subrouter share the array of their parent's query templates: the
    second one to add a template overwrites that of the first, whose variable is then
    missing from a match. *)
Definition shared_queries : MN (option nat) :=
  o ← NewRouter; p ← Router_Path o "/p"; Queries p ["x"; "1"; "y"; "2"; "z"; "3"];;
  s ← Subrouter p; Router_Queries s ["a"; "{a}"];; Router_Queries s ["b"; "{b}"].
Example queries_overwritten :
  let r := Match 0 (build shared_queries) (get "/p" "x=1&y=2&z=3&a=7") in
  r.1 = Ret true ∧ m_Vars r.2 = Some ∅.
Proof. split; vm_compute; reflexivity. Qed.

(** A subrouter that matched leaves its handler behind when a later matcher of its
    route fails, and the next route that matches runs that handler. *)
Definition leaking : MN nat :=
  o ← NewRouter; i ← NewRoute o; s ← Subrouter i; Router_Handle s "/x" (HUser 1);;
  Methods i ["POST"];; Router_Handle o "/x" (HUser 2).
Example wrong_handler :
  let r := Match 0 (build leaking) (get "/x" "") in r.1 = Ret true ∧ m_Handler r.2 = Some (HUser 1).
Proof. split; vm_compute; reflexivity. Qed.

(** [Walk] goes on after an error, and does not return it. *)
Definition count_visits (_ _ : nat) (_ : list nat) : M nat (option error) :=
  λ n, (Ret (Some (ErrorS "stop")), S n).
Example walk_drops_errors :
  Walk count_visits (build (o ← NewRouter; Router_Path o "/a";; Router_Path o "/b")) 1 0 0 = (Ret None, 2).
Proof. vm_compute. reflexivity. Qed.
End examples.
End MuxBundler.
