(* ===== verification/PqBuf.v ===== *)
(** * lib/pq: messages

    [src/src/github.com/lib/pq]: [buf.go], the buffers that messages are read from
    and built in, and the part of [error.go] that reads an ErrorResponse.

    A [readBuf] is the string of its unread bytes and its methods are readers.  The
    package reports most failures by [panic(err)] and recovers them at its public
    entry points: [Err e] is such a panic with an error value, [Crash] one of the
    run time. *)

From S2P Require Import Prelude GoStrings AmqpWire.

Module PqBuf.
Import AmqpWire.

Definition index_panic : crash := Panic "index out of range".
Definition slice_panic : crash := Panic "slice bounds out of range".

(** [errorf] *)
Definition errorf_error (msg : string) : error := ErrorS ("pq: " +:+ msg).
Definition errorf {W A} (msg : string) : M W (result A) := mret (Err (errorf_error msg)).

(** ** [readBuf] *)

(** [binary.BigEndian.Uint16] and [Uint32] followed by the reslicing. *)
Definition get_be (k : nat) : P Z := λ s,
  if decide (String.length s < k)%nat then (Crash index_panic, s)
  else let '(a, b) := split_at k s in (Ret (Ok (be_num 0 a)), b).

Definition r_int32 : P Z := x ←? get_be 4; mret (Ok (signed 4 x)).
Definition r_oid : P Z := get_be 4.
Definition r_int16 : P Z := get_be 2.
Definition zero : ascii := ascii_of_nat 0.
Definition r_string : P string := λ s,
  match take_until zero s with
  | None => (Ret (Err (errorf_error "invalid message format; expected string terminator")), s)
  | Some (a, b) => (Ret (Ok a), b)
  end.
Definition r_next (n : Z) : P string := λ s,
  if decide (n < 0 ∨ Z.of_nat (String.length s) < n)%Z then (Crash slice_panic, s)
  else let '(a, b) := split_at (Z.to_nat n) s in (Ret (Ok a), b).
Definition r_byte : P ascii :=
  s ←? r_next 1; match s with String c _ => mret (Ok c) | "" => throw index_panic end.

(** ** [writeBuf] *)
Record writeBuf := mkWriteBuf { buf : string; pos : nat }.

Definition w_bytes (v : string) (b : writeBuf) : writeBuf := mkWriteBuf (buf b +:+ v) (pos b).
Definition w_int32 (n : Z) (b : writeBuf) : writeBuf := w_bytes (be 4 n) b.
Definition w_int16 (n : Z) (b : writeBuf) : writeBuf := w_bytes (be 2 n) b.
Definition w_string (s : string) (b : writeBuf) : writeBuf := w_bytes (s +:+ String zero "") b.
Definition w_byte (c : ascii) (b : writeBuf) : writeBuf := w_bytes (String c "") b.

(** [p := b.buf[b.pos:]; binary.BigEndian.PutUint32(p, uint32(len(p)))] *)
Definition put_length (b : writeBuf) : string :=
  let '(before, p) := split_at (pos b) (buf b) in
  before +:+ be 4 (Z.of_nat (String.length p)) +:+ (split_at 4 p).2.
Definition wrap (b : writeBuf) : string := put_length b.
Definition w_next (c : ascii) (b : writeBuf) : writeBuf :=
  let p := put_length b in
  mkWriteBuf (p +:+ String c (be 4 0)) (S (String.length p)).

(** [cn.writeBuf(b)] of [conn.go] *)
Definition new_writeBuf (c : ascii) : writeBuf := mkWriteBuf (String c (be 4 0)) 1.

(** ** Errors of the server *)
Definition no_error : pgError :=
  mkPgError "" "" "" "" "" "" "" "" "" "" "" "" "" "" "" "" "".

Definition set_field (t : ascii) (msg : string) (e : pgError) : pgError :=
  let '(mkPgError S_ C M D H P p q W s t' c d n F L R) := e in
  match t with
  | "S"%char => mkPgError msg C M D H P p q W s t' c d n F L R
  | "C"%char => mkPgError S_ msg M D H P p q W s t' c d n F L R
  | "M"%char => mkPgError S_ C msg D H P p q W s t' c d n F L R
  | "D"%char => mkPgError S_ C M msg H P p q W s t' c d n F L R
  | "H"%char => mkPgError S_ C M D msg P p q W s t' c d n F L R
  | "P"%char => mkPgError S_ C M D H msg p q W s t' c d n F L R
  | "p"%char => mkPgError S_ C M D H P msg q W s t' c d n F L R
  | "q"%char => mkPgError S_ C M D H P p msg W s t' c d n F L R
  | "W"%char => mkPgError S_ C M D H P p q msg s t' c d n F L R
  | "s"%char => mkPgError S_ C M D H P p q W msg t' c d n F L R
  | "t"%char => mkPgError S_ C M D H P p q W s msg c d n F L R
  | "c"%char => mkPgError S_ C M D H P p q W s t' msg d n F L R
  | "d"%char => mkPgError S_ C M D H P p q W s t' c msg n F L R
  | "n"%char => mkPgError S_ C M D H P p q W s t' c d msg F L R
  | "F"%char => mkPgError S_ C M D H P p q W s t' c d n msg L R
  | "L"%char => mkPgError S_ C M D H P p q W s t' c d n F msg R
  | "R"%char => mkPgError S_ C M D H P p q W s t' c d n F L msg
  | _ => e
  end.

(** [parseError]: every round reads two bytes at least. *)
Fixpoint parseError_go (fuel : nat) (err : pgError) : P pgError :=
  match fuel with
  | O => throw out_of_fuel
  | S fuel =>
      t ←? r_byte;
      if decide (t = zero) then mret (Ok err)
      else msg ←? r_string; parseError_go fuel (set_field t msg err)
  end.
Definition parseError : P pgError := λ r, parseError_go (S (String.length r)) no_error r.

Definition Efatal : string := "FATAL".
(** [Error.Fatal] and [Error.Get] *)
Definition Fatal_ (e : pgError) : bool := bool_decide (pg_Severity e = Efatal).
Definition Get (k : ascii) (e : pgError) : string :=
  match k with
  | "S"%char => pg_Severity e
  | "C"%char => pg_Code e
  | "M"%char => pg_Message e
  | "D"%char => pg_Detail e
  | "H"%char => pg_Hint e
  | "P"%char => pg_Position e
  | "p"%char => pg_InternalPosition e
  | "q"%char => pg_InternalQuery e
  | "W"%char => pg_Where e
  | "s"%char => pg_Schema e
  | "t"%char => pg_Table e
  | "c"%char => pg_Column e
  | "d"%char => pg_DataTypeName e
  | "n"%char => pg_Constraint e
  | "F"%char => pg_File e
  | "L"%char => pg_Line e
  | "R"%char => pg_Routine e
  | _ => ""
  end.

(** ** What the buffers promise *)

(** A message on the wire. *)
Definition frame (t : ascii) (payload : string) : string :=
  String t (be 4 (Z.of_nat (4 + String.length payload)) +:+ payload).

(** A buffer holds the finished messages [done] and [payload] of one of type [t]. *)
Definition builds (b : writeBuf) (done : string) (t : ascii) (payload : string) : Prop :=
  ∃ len, String.length len = 4 ∧ buf b = done +:+ String t (len +:+ payload) ∧
    pos b = S (String.length done).

Lemma builds_new c : builds (new_writeBuf c) "" c "".
Proof. by exists (be 4 0). Qed.

Lemma builds_bytes b done t p v : builds b done t p → builds (w_bytes v b) done t (p +:+ v).
Proof.
  intros (len & Hl & Hb & Hp). exists len. split; [done|]. split; [|done].
  by rewrite /= Hb -!str_app_assoc str_app_cons -!str_app_assoc.
Qed.

Lemma put_length_builds b done t p : builds b done t p → put_length b = done +:+ frame t p.
Proof.
  intros (len & Hl & Hb & Hp). rewrite /put_length Hb Hp.
  assert (done +:+ String t (len +:+ p) = (done +:+ String t "") +:+ (len +:+ p)) as ->
    by by rewrite -str_app_assoc.
  assert (S (String.length done) = String.length (done +:+ String t "")) as ->
    by (rewrite str_length_app /=; lia).
  rewrite split_at_app -{2}Hl split_at_app /= /frame -str_app_assoc str_length_app Hl.
  by rewrite str_app_cons.
Qed.

Lemma builds_next b done t p c : builds b done t p → builds (w_next c b) (done +:+ frame t p) c "".
Proof.
  intros H. rewrite /w_next (put_length_builds _ _ _ _ H).
  exists (be 4 0). split; [apply be_length|]. by rewrite str_app_nil_r.
Qed.

Lemma wrap_builds b done t p : builds b done t p → wrap b = done +:+ frame t p.
Proof. apply put_length_builds. Qed.

(** *** Readers against the writers *)

Lemma split_at_1 c s : split_at 1 (String c s) = (String c "", s).
Proof. by destruct s. Qed.

Lemma get_be_be k z rest :
  get_be k (be k z +:+ rest) = (Ret (Ok (z mod 2 ^ (8 * Z.of_nat k))%Z), rest).
Proof.
  rewrite /get_be decide_False; [|rewrite str_length_app be_length; lia].
  rewrite -{1}(be_length k z) split_at_app be_num_be. by rewrite Z.mul_0_l.
Qed.

Lemma r_int16_be z rest : (0 ≤ z < 65536)%Z → r_int16 (be 2 z +:+ rest) = (Ret (Ok z), rest).
Proof. intros. rewrite /r_int16 get_be_be Z.mod_small; [done|]. simpl. lia. Qed.

Lemma r_oid_be z rest : (0 ≤ z < 2 ^ 32)%Z → r_oid (be 4 z +:+ rest) = (Ret (Ok z), rest).
Proof. intros. rewrite /r_oid get_be_be Z.mod_small; [done|]. simpl. lia. Qed.

Lemma r_int32_be z rest : (- 2 ^ 31 ≤ z < 2 ^ 31)%Z → r_int32 (be 4 z +:+ rest) = (Ret (Ok z), rest).
Proof.
  intros. rewrite /r_int32 /bindR /mbind /M_bind get_be_be signed_mod //; simpl; lia.
Qed.

Lemma r_string_app s rest :
  has_char zero s = false → r_string (s +:+ String zero rest) = (Ret (Ok s), rest).
Proof. intros. by rewrite /r_string take_until_app. Qed.

Lemma r_next_app n s rest : n = Z.of_nat (String.length s) → r_next n (s +:+ rest) = (Ret (Ok s), rest).
Proof.
  intros ->. rewrite /r_next decide_False; [|rewrite str_length_app; lia].
  by rewrite Nat2Z.id split_at_app.
Qed.

Lemma r_byte_cons c rest : r_byte (String c rest) = (Ret (Ok c), rest).
Proof.
  rewrite /r_byte /bindR /mbind /M_bind.
  change (String c rest) with (String c "" +:+ rest). by rewrite r_next_app.
Qed.

(** *** Error responses *)

(** The fields of an ErrorResponse, as the server sends them. *)
Definition error_field (f : ascii * string) : string := String f.1 (f.2 +:+ String zero "").
Fixpoint error_payload (fs : list (ascii * string)) : string :=
  match fs with
  | [] => String zero ""
  | f :: fs => error_field f +:+ error_payload fs
  end.
Definition wf_error_field (f : ascii * string) : bool :=
  negb (bool_decide (f.1 = zero)) && negb (has_char zero f.2).

Definition error_of (fs : list (ascii * string)) : pgError :=
  foldl (λ e f, set_field f.1 f.2 e) no_error fs.

Lemma parseError_go_fields fs n e rest :
  forallb wf_error_field fs = true → (length fs < n)%nat →
  parseError_go n e (error_payload fs +:+ rest) = (Ret (Ok (foldl (λ e f, set_field f.1 f.2 e) e fs)), rest).
Proof.
  revert n e. induction fs as [|[t m] fs IH]; intros [|n] e Hwf Hn; try (simpl in Hn; lia).
  - by rewrite /= /bindR /mbind /M_bind r_byte_cons.
  - apply andb_true_iff in Hwf as [[Ht Hm]%andb_true_iff Hfs].
    apply negb_true_iff, bool_decide_eq_false in Ht. apply negb_true_iff in Hm.
    cbn [parseError_go error_payload error_field fst snd].
    rewrite /bindR /mbind /M_bind !str_app_cons r_byte_cons decide_False //.
    rewrite -!str_app_assoc str_app_cons str_app_nil_l r_string_app //.
    cbn [length] in Hn. rewrite IH //; lia.
Qed.

Lemma error_payload_length fs : (length fs < String.length (error_payload fs))%nat.
Proof.
  induction fs as [|f fs IH]; simpl; [lia|]. rewrite !str_length_app /=. lia.
Qed.

Lemma parseError_fields fs rest :
  forallb wf_error_field fs = true →
  parseError (error_payload fs +:+ rest) = (Ret (Ok (error_of fs)), rest).
Proof.
  intros. rewrite /parseError parseError_go_fields // str_length_app.
  pose proof (error_payload_length fs). lia.
Qed.

End PqBuf.
