(* ===== verification/PqEncode.v ===== *)
(** * lib/pq: values

    [src/src/github.com/lib/pq/encode.go]: how the values of [database/sql] become
    the parameters of a statement, and how the columns of a row become values.

    Floats, times and the MD5 sum are Go's standard library ([PqLib]); a float64 is
    its bit pattern.  The variables of the package that connections share are the
    state [globals]. *)

From S2P Require Import Prelude GoStrings GoUrl GoFloat AmqpWire AmzSign AmqpOpen PqBuf.

(** Pure functions of the standard library that the package calls and whose inner
    workings no property depends on. *)
Class PqLib := {
  Time : Type;
  Location : Type;
  time_Date : Z → Z → Z → Z → Z → Z → Z → Location → Time;
  time_FixedZone : Z → Location;
  time_In : Time → Location → Time;
  time_Zone : Time → Z;
  time_Year : Time → Z;
  time_AddDate : Time → Z → Z → Z → Time;
  time_Format : string → Time → string;
  time_Parse : string → string → result Time;
  time_After : Time → Time → bool;
  time_Before : Time → Time → bool;
  time_LoadLocation : string → result Location;
  (** [strconv.ParseFloat(s, bits)] *)
  ParseFloat : string → Z → result Z;
  (** [strconv.AppendFloat(nil, v, 'f', -1, 64)] *)
  FormatFloat : Z → string;
  md5_Sum : string → string;
  (** [%q] of a byte and of a string *)
  QuoteByte : ascii → string;
  Quote : string → string;
}.

Module PqEncode.
Import AmqpWire PqBuf.

(** ** Types *)

(** [oid.T_...] *)
Definition T_bool : Z := 16.
Definition T_bytea : Z := 17.
Definition T_int8 : Z := 20.
Definition T_int2 : Z := 21.
Definition T_int4 : Z := 23.
Definition T_text : Z := 25.
Definition T_float4 : Z := 700.
Definition T_float8 : Z := 701.
Definition T_unknown : Z := 705.
Definition T_varchar : Z := 1043.
Definition T_date : Z := 1082.
Definition T_time : Z := 1083.
Definition T_timestamp : Z := 1114.
Definition T_timestamptz : Z := 1184.
Definition T_timetz : Z := 1266.

Inductive format := formatText | formatBinary | formatOther (code : Z).

(** [strconv.ParseInt(s, base, bits)] for a base up to ten *)
Definition digit_in (base : Z) (c : ascii) : bool := is_digit c && bool_decide (digit_val c < base)%Z.
Fixpoint digits_in (base acc : Z) (s : string) : option Z :=
  match s with
  | "" => Some acc
  | String c s => if digit_in base c then digits_in base (acc * base + digit_val c)%Z s else None
  end.
Definition ParseIntBase (s : string) (base bits : Z) : result Z :=
  let '(neg, t) := strip_sign s in
  match t, digits_in base 0 t with
  | String _ _, Some v =>
      let v := if neg then (- v)%Z else v in
      if decide (- 2 ^ (bits - 1) ≤ v < 2 ^ (bits - 1))%Z then Ok v
      else Err (ErrorS ("strconv.ParseInt: parsing " +:+ s +:+ ": value out of range"))
  | _, _ => Err (ErrorS ("strconv.ParseInt: parsing " +:+ s +:+ ": invalid syntax"))
  end.

(** ** [bytea] *)

Definition backslash : ascii := "\"%char.

(** [hex.Decode] into a slice of half the length *)
Definition fromHexChar (c : ascii) : option N :=
  let n := N_of_ascii c in
  if decide (48 ≤ n ≤ 57)%N then Some (n - 48)%N
  else if decide (97 ≤ n ≤ 102)%N then Some (n - 87)%N
  else if decide (65 ≤ n ≤ 70)%N then Some (n - 55)%N else None.
Fixpoint hex_Decode (s : string) : result string :=
  match s with
  | "" => Ok ""
  | String _ "" => Err (ErrorS "encoding/hex: odd length hex string")
  | String a (String b s) =>
      match fromHexChar a, fromHexChar b with
      | Some x, Some y =>
          match hex_Decode s with
          | Ok r => Ok (String (ascii_of_N (N.lor (N.shiftl x 4) y)) r)
          | Err e => Err e
          end
      | _, _ => Err (ErrorS "encoding/hex: invalid byte")
      end
  end.

(** [fmt.Sprintf("\\%03o", b)] *)
Definition octal_digit (n : N) : ascii := ascii_of_N (48 + n).
Definition octal (c : ascii) : string :=
  let n := N_of_ascii c in
  String backslash (String (octal_digit (N.shiftr n 6))
    (String (octal_digit (N.land (N.shiftr n 3) 7)) (String (octal_digit (N.land n 7)) ""))).

(** [%v] of a byte slice *)
Fixpoint byte_numbers (s : string) : list string :=
  match s with "" => [] | String c s => pretty (N_of_ascii c) :: byte_numbers s end.
Definition bytes_v (s : string) : string := "[" +:+ Join (byte_numbers s) " " +:+ "]".
Definition invalid_bytea (s : string) : error := errorf_error ("invalid bytea sequence " +:+ bytes_v s).

(** The loop over the legacy format: every round takes a byte or more. *)
Fixpoint parseBytea_go (fuel : nat) (s acc : string) : outcome (result string) :=
  match fuel with
  | O => Crash out_of_fuel
  | S fuel =>
      match s with
      | "" => Ret (Ok acc)
      | String c t =>
          if decide (c = backslash) then
            match t with
            | String d t' =>
                if decide (d = backslash) then parseBytea_go fuel t' (acc +:+ String backslash "")
                else if decide (String.length s < 4)%nat then
                  Ret (Err (invalid_bytea s))
                else
                  let '(o, rest) := split_at 3 t in
                  match ParseIntBase o 8 9 with
                  | Err e => Ret (Err (errorf_error ("could not parse bytea value: " +:+ error_string e)))
                  | Ok r => parseBytea_go fuel rest (acc +:+ String (byte_of r) "")
                  end
            | "" => Ret (Err (invalid_bytea s))
            end
          else
            match take_until backslash s with
            | None => Ret (Ok (acc +:+ s))
            | Some (a, b) => parseBytea_go fuel (String backslash b) (acc +:+ a)
            end
      end
  end.

Definition parseBytea (s : string) : outcome (result string) :=
  match strip_prefix "\x" s with
  | Some h =>
      match hex_Decode h with
      | Ok r => Ret (Ok r)
      | Err e => Ret (Err (errorf_error (error_string e)))
      end
  | None => parseBytea_go (S (String.length s)) s ""
  end.

Definition escape_byte (b : ascii) : string :=
  if decide (b = backslash) then "\\"
  else if decide (N_of_ascii b < 32 ∨ 126 < N_of_ascii b)%N then octal b
  else String b "".
Definition encodeBytea (serverVersion : Z) (v : string) : string :=
  if decide (90000 ≤ serverVersion)%Z then "\x" +:+ AmzSign.hex v
  else flat_map_str escape_byte v.

(** ** Text of COPY *)

Definition needs_escape (c : ascii) : bool := has_char c (String backslash (String "010" (String "013" (String "009" "")))).
Definition escape_char (c : ascii) : string :=
  if decide (c = backslash) then "\\"
  else if decide (c = "010"%char) then "\n"
  else if decide (c = "013"%char) then "\r"
  else if decide (c = "009"%char) then "\t"
  else String c "".

(** The bytes before the first one to escape, and the text from there. *)
Fixpoint clean_prefix (s : string) : string * string :=
  match s with
  | "" => ("", "")
  | String c t =>
      if needs_escape c then ("", s) else let '(a, b) := clean_prefix t in (String c a, b)
  end.
Definition appendEscapedText (buf text : string) : string :=
  let '(clean, rest) := clean_prefix text in
  if decide (rest = "") then buf +:+ text
  else buf +:+ clean +:+ flat_map_str escape_char rest.

(** ** The values of [database/sql] *)

Section values.
Context {Hlib : PqLib}.

(** [driver.Value]; [VOther] is a value of any other type. *)
Inductive value :=
| VNil
| VInt (z : Z)
| VFloat (bits : Z)
| VBool (b : bool)
| VBytes (s : string)
| VString (s : string)
| VTime (t : Time)
| VOther (typ : string).

(** The variables of the package: whether infinite timestamps are enabled and
    which times stand for them, and the time zones made so far. *)
Record globals := mkGlobals {
  infinityTsEnabled : bool;
  infinityTsNegative : option Time;
  infinityTsPositive : option Time;
  locationCache : gmap Z Location;
}.

Record parameterStatus := mkParameterStatus {
  serverVersion : Z;
  currentLocation : option Location;
}.

(** [infinityTsNegative] and [infinityTsPositive] are set when they are enabled. *)
Definition infinity_bounds (g : globals) : option (Time * Time) :=
  if infinityTsEnabled g then
    match infinityTsNegative g, infinityTsPositive g with
    | Some n, Some p => Some (n, p)
    | _, _ => None
    end
  else None.

Definition EnableInfinityTs (negative positive : Time) : M globals () := λ g,
  if infinityTsEnabled g then (Crash (Panic "pq: infinity timestamp enabled already"), g)
  else if negb (time_Before negative positive) then
    (Crash (Panic "pq: infinity timestamp: negative value must be smaller (before) than positive"), g)
  else (Ret tt, mkGlobals true (Some negative) (Some positive) (locationCache g)).
Definition disableInfinityTs : M globals () :=
  modify (λ g, mkGlobals false (infinityTsNegative g) (infinityTsPositive g) (locationCache g)).

(** [locationCache.getLocation]: the whole body runs under the lock. *)
Definition getLocation (offset : Z) : M globals Location := λ g,
  match locationCache g !! offset with
  | Some location => (Ret location, g)
  | None =>
      let location := time_FixedZone offset in
      (Ret location,
       mkGlobals (infinityTsEnabled g) (infinityTsNegative g) (infinityTsPositive g)
         (<[offset := location]> (locationCache g)))
  end.

(** *** Timestamps *)

(** [str[a:b]] *)
Definition slice {W} (str : string) (a b : Z) : M W (result string) :=
  if decide (a < 0 ∨ b < a ∨ Z.of_nat (String.length str) < b)%Z then throw slice_panic
  else mret (Ok (split_at (Z.to_nat (b - a)) (split_at (Z.to_nat a) str).2).1).
Definition slice_from {W} (str : string) (a : Z) : M W (result string) :=
  slice str a (Z.of_nat (String.length str)).

Definition expect {W} (str char : string) (pos : Z) : M W (result ()) :=
  c ←? slice str pos (pos + 1);
  if decide (c ≠ char) then
    errorf ("expected '" +:+ char +:+ "' at position " +:+ pretty pos +:+ "; got '" +:+ c +:+ "'")
  else mret (Ok tt).
Definition mustAtoi {W} (str : string) : M W (result Z) :=
  match AmqpOpen.ParseInt str 64 with
  | Ok z => mret (Ok z)
  | Err _ => errorf ("expected number; got '" +:+ str +:+ "'")
  end.

(** [strings.IndexRune(s, c)] and [strings.IndexAny] for a test on bytes *)
Fixpoint index_where (f : ascii → bool) (s : string) : option nat :=
  match s with
  | "" => None
  | String c s => if f c then Some O else S <$> index_where f s
  end.
Definition is_char (c d : ascii) : bool := bool_decide (c = d).

(** The seconds and their fraction: [nanoSec] and where the rest begins. *)
Definition parse_fraction {W} (str : string) (remainderIdx : Z) : M W (result (Z * Z)) :=
  if decide (remainderIdx < Z.of_nat (String.length str))%Z then
    c ←? slice str remainderIdx (remainderIdx + 1);
    if decide (c = ".") then
      let fracStart := (remainderIdx + 1)%Z in
      tail ←? slice_from str fracStart;
      let fracOff := match index_where (λ c, has_char c "-+ ") tail with
                     | Some i => Z.of_nat i
                     | None => (Z.of_nat (String.length str) - fracStart)%Z end in
      f ←? slice str fracStart (fracStart + fracOff);
      fracSec ←? mustAtoi f;
      mret (Ok ((fracSec * (1000000000 `quot` 10 ^ fracOff))%Z, (remainderIdx + fracOff + 1)%Z))
    else mret (Ok (0%Z, remainderIdx))
  else mret (Ok (0%Z, remainderIdx)).

(** Two more digits of the zone offset, after a colon at [at_]. *)
Definition parse_offset_part {W} (str : string) (at_ remainderIdx : Z) : M W (result (Z * Z)) :=
  if decide (at_ < Z.of_nat (String.length str))%Z then
    c ←? slice str at_ (at_ + 1);
    if decide (c = ":") then
      d ←? slice str (at_ + 1) (at_ + 3);
      z ←? mustAtoi d;
      mret (Ok (z, (remainderIdx + 3)%Z))
    else mret (Ok (0%Z, remainderIdx))
  else mret (Ok (0%Z, remainderIdx)).

(** The zone offset in seconds, and where the rest begins. *)
Definition parse_zone {W} (str : string) (remainderIdx : Z) : M W (result (Z * Z)) :=
  let tzStart := remainderIdx in
  if decide (tzStart < Z.of_nat (String.length str))%Z then
    c ←? slice str tzStart (tzStart + 1);
    if decide (c = "-" ∨ c = "+") then
      let tzSign := if decide (c = "-") then (-1)%Z else 1%Z in
      h ←? slice str (tzStart + 1) (tzStart + 3);
      tzHours ←? mustAtoi h;
      '(tzMin, remainderIdx) ←? parse_offset_part str (tzStart + 3) (remainderIdx + 3);
      '(tzSec, remainderIdx) ←? parse_offset_part str (tzStart + 6) remainderIdx;
      mret (Ok ((tzSign * (tzHours * 60 * 60 + tzMin * 60 + tzSec))%Z, remainderIdx))
    else mret (Ok (0%Z, remainderIdx))
  else mret (Ok (0%Z, remainderIdx)).

(** Hour, minute and second, when the text is longer than a date. *)
Definition parse_clock {W} (str : string) (monSep timeSep : Z) : M W (result (Z * Z * Z)) :=
  if decide (monSep + 5 + 1 < Z.of_nat (String.length str))%Z then
    _ ←? expect str " " timeSep;
    let minSep := (timeSep + 3)%Z in
    _ ←? expect str ":" minSep;
    h ←? slice str (timeSep + 1) minSep;
    hour ←? mustAtoi h;
    let secSep := (minSep + 3)%Z in
    _ ←? expect str ":" secSep;
    mi ←? slice str (minSep + 1) secSep;
    minute ←? mustAtoi mi;
    let secEnd := (secSep + 3)%Z in
    se ←? slice str (secSep + 1) secEnd;
    second ←? mustAtoi se;
    mret (Ok (hour, minute, second))
  else mret (Ok (0%Z, 0%Z, 0%Z)).

(** The era, and nothing after it. *)
Definition parse_era {W} (str : string) (year remainderIdx : Z) : M W (result Z) :=
  '(isoYear, remainderIdx) ←?
    (if decide (remainderIdx < Z.of_nat (String.length str))%Z then
       era ←? slice str remainderIdx (remainderIdx + 3);
       mret (Ok (if decide (era = " BC") then (1 - year, remainderIdx + 3)%Z else (year, remainderIdx)))
     else mret (Ok (year, remainderIdx)));
  if decide (remainderIdx < Z.of_nat (String.length str))%Z then
    rest ←? slice_from str remainderIdx;
    errorf ("expected end of input, got " +:+ rest)
  else mret (Ok isoYear).

Definition parseTs (currentLocation : option Location) (str : string) : M globals (result value) :=
  g ← get;
  if decide (str = "-infinity") then
    mret (Ok match infinity_bounds g with Some (n, _) => VTime n | None => VBytes str end)
  else if decide (str = "infinity") then
    mret (Ok match infinity_bounds g with Some (_, p) => VTime p | None => VBytes str end)
  else
    let monSep := match index_where (is_char "-") str with Some i => Z.of_nat i | None => (-1)%Z end in
    y ←? slice str 0 monSep;
    year ←? mustAtoi y;
    let daySep := (monSep + 3)%Z in
    mo ←? slice str (monSep + 1) daySep;
    month ←? mustAtoi mo;
    _ ←? expect str "-" daySep;
    let timeSep := (daySep + 3)%Z in
    d ←? slice str (daySep + 1) timeSep;
    day ←? mustAtoi d;
    '(hour, minute, second) ←? parse_clock str monSep timeSep;
    let remainderIdx := (monSep + 14 + 1)%Z in
    '(nanoSec, remainderIdx) ←? parse_fraction str remainderIdx;
    '(tzOff, remainderIdx) ←? parse_zone str remainderIdx;
    isoYear ←? parse_era str year remainderIdx;
    location ← getLocation tzOff;
    let t := time_Date isoYear month day hour minute second nanoSec location in
    let t := match currentLocation with
             | Some loc => let lt := time_In t loc in
                           if decide (time_Zone lt = tzOff) then lt else t
             | None => t end in
    mret (Ok (VTime t)).

Definition formatTs (g : globals) (t : Time) : string :=
  let plain :=
    let '(t, bc) := if decide (time_Year t ≤ 0)%Z
                    then (time_AddDate t ((- time_Year t) * 2 + 1) 0 0, true) else (t, false) in
    let b := time_Format "2006-01-02T15:04:05.999999999Z07:00" t in
    let offset := Z.abs (Z.rem (time_Zone t) 60) in
    let b := if decide (offset ≠ 0)%Z
             then b +:+ ":" +:+ (if decide (offset < 10)%Z then "0" else "") +:+ AmqpOpen.FormatInt offset else b in
    if bc : bool then b +:+ " BC" else b in
  match infinity_bounds g with
  | Some (n, p) =>
      if negb (time_After t n) then "-infinity"
      else if negb (time_Before t p) then "infinity" else plain
  | None => plain
  end.

(** *** Encoding *)
Definition FormatBool (b : bool) : string := if b then "true" else "false".

Definition type_name (x : value) : string :=
  match x with
  | VNil => "<nil>"
  | VInt _ => "int64"
  | VFloat _ => "float64"
  | VBool _ => "bool"
  | VBytes _ => "[]uint8"
  | VString _ => "string"
  | VTime _ => "time.Time"
  | VOther typ => typ
  end.

Definition encode (g : globals) (ps : parameterStatus) (x : value) (pgtypOid : Z) : result string :=
  match x with
  | VInt v => Ok (AmqpOpen.FormatInt v)
  | VFloat v => Ok (FormatFloat v)
  | VBytes v | VString v =>
      Ok (if decide (pgtypOid = T_bytea) then encodeBytea (serverVersion ps) v else v)
  | VBool v => Ok (FormatBool v)
  | VTime v => Ok (formatTs g v)
  | VNil | VOther _ => Err (errorf_error ("encode: unknown type for " +:+ type_name x))
  end.

Definition binaryEncode (g : globals) (ps : parameterStatus) (x : value) : result string :=
  match x with
  | VBytes v => Ok v
  | _ => encode g ps x T_unknown
  end.

Definition appendEncodedText (g : globals) (ps : parameterStatus) (buf : string) (x : value) : result string :=
  match x with
  | VInt v => Ok (buf +:+ AmqpOpen.FormatInt v)
  | VFloat v => Ok (buf +:+ FormatFloat v)
  | VBytes v => Ok (appendEscapedText buf (encodeBytea (serverVersion ps) v))
  | VString v => Ok (appendEscapedText buf v)
  | VBool v => Ok (buf +:+ FormatBool v)
  | VTime v => Ok (buf +:+ formatTs g v)
  | VNil => Ok (buf +:+ "\N")
  | VOther _ => Err (errorf_error ("encode: unknown type for " +:+ type_name x))
  end.

(** *** Decoding *)
Definition binaryDecode (s : string) (typ : Z) : M globals (result value) :=
  let int k := if decide (String.length s < k)%nat then throw index_panic
               else mret (Ok (VInt (signed k (be_num 0 (split_at k s).1)))) in
  if decide (typ = T_bytea) then mret (Ok (VBytes s))
  else if decide (typ = T_int8) then int 8%nat
  else if decide (typ = T_int4) then int 4%nat
  else if decide (typ = T_int2) then int 2%nat
  else errorf ("don't know how to decode binary parameter of type %!u(uint32=" +:+ pretty typ +:+ ")").

Definition mustParse (f : string) (typ : Z) (s : string) : M globals (result value) :=
  f ←? (if decide (typ = T_timestamptz ∨ typ = T_timetz) then
          let n := Z.of_nat (String.length s) in
          if decide (n < 3)%Z then throw index_panic
          else c ←? slice s (n - 3) (n - 2); mret (Ok (if decide (c = ":") then f +:+ ":00" else f))
        else mret (Ok f));
  match time_Parse f s with
  | Ok t => mret (Ok (VTime t))
  | Err e => errorf ("decode: " +:+ error_string e)
  end.

Definition textDecode (ps : parameterStatus) (s : string) (typ : Z) : M globals (result value) :=
  if decide (typ = T_bytea) then
    λ g, (match parseBytea s with
          | Ret (Ok r) => Ret (Ok (VBytes r))
          | Ret (Err e) => Ret (Err e)
          | Crash c => Crash c end, g)
  else if decide (typ = T_timestamptz) then parseTs (currentLocation ps) s
  else if decide (typ = T_timestamp ∨ typ = T_date) then parseTs None s
  else if decide (typ = T_time) then mustParse "15:04:05" typ s
  else if decide (typ = T_timetz) then mustParse "15:04:05-07" typ s
  else if decide (typ = T_bool) then
    match s with
    | "" => throw index_panic
    | String c _ => mret (Ok (VBool (bool_decide (c = "t"%char))))
    end
  else if decide (typ = T_int8 ∨ typ = T_int4 ∨ typ = T_int2) then
    match AmqpOpen.ParseInt s 64 with
    | Ok i => mret (Ok (VInt i))
    | Err e => errorf (error_string e)
    end
  else if decide (typ = T_float4 ∨ typ = T_float8) then
    match ParseFloat s (if decide (typ = T_float4) then 32 else 64)%Z with
    | Ok f => mret (Ok (VFloat f))
    | Err e => errorf (error_string e)
    end
  else mret (Ok (VBytes s)).

Definition decode (ps : parameterStatus) (s : string) (typ : Z) (f : format) : M globals (result value) :=
  match f with
  | formatBinary => binaryDecode s typ
  | _ => textDecode ps s typ
  end.

(** [NullTime] *)
Record NullTime := mkNullTime { nt_Time : option Time; nt_Valid : bool }.
Definition NullTime_Scan (v : value) : NullTime :=
  match v with VTime t => mkNullTime (Some t) true | _ => mkNullTime None false end.
Definition NullTime_Value (nt : NullTime) : value :=
  match nt_Valid nt, nt_Time nt with true, Some t => VTime t | _, _ => VNil end.

End values.
End PqEncode.
