(* ===== verification/PqConn.v ===== *)
(** * lib/pq: a session

    [src/src/github.com/lib/pq/conn.go]: the conversation with the server once a
    connection is open: receiving messages, simple and extended queries, prepared
    statements, rows, transactions.

    The server and the network are the class [Net]: a write hands over bytes and
    yields the bytes the server sends because of it, which wait in [c_inp] until they
    are read.  A read that finds no more bytes fails with [net_end].  A message that
    was received is a value: that the package keeps short ones in the buffer it also
    builds messages in shows only when a request is made while the rows of another
    are open. *)

From S2P Require Import Prelude GoStrings GoFloat AmqpWire AmzSign AmqpOpen PqBuf PqEncode.

(** The other end of a socket. *)
Class Net (T : Type) := {
  net_write : string → T → option error * string * T;
  net_end : T → error;
  net_close : T → option error * T;
}.

Module PqConn.
Import AmqpWire PqBuf PqEncode.

Section conn.
Context {Hlib : PqLib} {T : Type} {Hnet : Net T}.

(** ** State *)
Definition txnStatusIdle : ascii := "I".
Definition txnStatusIdleInTransaction : ascii := "T".
Definition txnStatusInFailedTransaction : ascii := "E".

(** [conn], with the bytes that wait to be read and the variables of the package. *)
Record conn := mkConn {
  c_net : T;
  c_inp : string;
  namei : Z;
  txnStatus : ascii;
  c_status : parameterStatus;
  saveMessageType : ascii;
  saveMessageBuffer : string;
  bad : bool;
  disablePreparedBinaryResult : bool;
  binaryParameters : bool;
  c_globals : globals;
}.

Definition set_net (t : T) (inp : string) (c : conn) : conn :=
  mkConn t inp (namei c) (txnStatus c) (c_status c) (saveMessageType c) (saveMessageBuffer c) (bad c)
    (disablePreparedBinaryResult c) (binaryParameters c) (c_globals c).
Definition set_inp (inp : string) (c : conn) : conn := set_net (c_net c) inp c.
Definition set_namei (n : Z) (c : conn) : conn :=
  mkConn (c_net c) (c_inp c) n (txnStatus c) (c_status c) (saveMessageType c) (saveMessageBuffer c) (bad c)
    (disablePreparedBinaryResult c) (binaryParameters c) (c_globals c).
Definition set_txnStatus (s : ascii) (c : conn) : conn :=
  mkConn (c_net c) (c_inp c) (namei c) s (c_status c) (saveMessageType c) (saveMessageBuffer c) (bad c)
    (disablePreparedBinaryResult c) (binaryParameters c) (c_globals c).
Definition set_status (ps : parameterStatus) (c : conn) : conn :=
  mkConn (c_net c) (c_inp c) (namei c) (txnStatus c) ps (saveMessageType c) (saveMessageBuffer c) (bad c)
    (disablePreparedBinaryResult c) (binaryParameters c) (c_globals c).
Definition set_saved (t : ascii) (b : string) (c : conn) : conn :=
  mkConn (c_net c) (c_inp c) (namei c) (txnStatus c) (c_status c) t b (bad c)
    (disablePreparedBinaryResult c) (binaryParameters c) (c_globals c).
Definition set_bad (b : bool) (c : conn) : conn :=
  mkConn (c_net c) (c_inp c) (namei c) (txnStatus c) (c_status c) (saveMessageType c) (saveMessageBuffer c) b
    (disablePreparedBinaryResult c) (binaryParameters c) (c_globals c).
Definition set_globals (g : globals) (c : conn) : conn :=
  mkConn (c_net c) (c_inp c) (namei c) (txnStatus c) (c_status c) (saveMessageType c) (saveMessageBuffer c) (bad c)
    (disablePreparedBinaryResult c) (binaryParameters c) g.

(** A function that may panic with an error value. *)
Abbreviation C A := (M conn (result A)).

(** [cn.bad = true; errorf(msg)] *)
Definition set_bad_true : M conn () := modify (set_bad true).
Definition bad_errorf {A} (msg : string) : C A := set_bad_true;; errorf msg.

(** A reader run on a received message. *)
Definition on_msg {A} (p : P A) (r : string) : C A := λ c, ((p r).1, c).
(** A computation on the variables of the package. *)
Definition on_globals {A} (m : M globals A) : M conn A := λ c,
  let '(o, g) := m (c_globals c) in (o, set_globals g c).

(** ** Recovering *)

Definition recover_error (e : error) : error :=
  match e with
  | PqError pe => if Fatal_ pe then ErrBadConn else e
  | OpError _ _ => ErrBadConn
  | _ => if decide (e = EOF ∨ error_string e = "remote error: handshake failure") then ErrBadConn else e
  end.

(** [defer cn.errRecover(&err)]: [err a] is the function's error result and
    [failed e] what it returns when it is left by a panic. *)
Definition errRecover {A} (err : A → option error) (failed : error → A) (m : C A) : M conn A := λ c,
  match m c with
  | (Crash (Panic s), c') => (Crash (Panic s), set_bad true c')
  | (Crash (Fatal s), c') => (Crash (Fatal s), c')
  | (Ret r, c') =>
      let a := match r with Ok a => a | Err e => failed (recover_error e) end in
      (Ret a, if decide (err a = Some ErrBadConn) then set_bad true c' else c')
  end.
(** The same for results [(T, error)] and [error]. *)
Definition result_err {A} (r : result A) : option error := match r with Ok _ => None | Err e => Some e end.
Definition recoverR {A} : C (result A) → M conn (result A) := errRecover result_err Err.
Definition recoverE : C (option error) → M conn (option error) := errRecover id Some.

(** [if cn.bad { return nil, driver.ErrBadConn }] *)
Definition unless_badR {A} (m : M conn (result A)) : M conn (result A) :=
  b ← gets bad; if b : bool then mret (Err ErrBadConn) else m.
Definition unless_badE (m : M conn (option error)) : M conn (option error) :=
  b ← gets bad; if b : bool then mret (Some ErrBadConn) else m.

(** ** Sending and receiving *)

(** [cn.c.Write(b)] *)
Definition conn_Write (b : string) : M conn (option error) := λ c,
  let '(e, ans, t) := net_write b (c_net c) in (Ret e, set_net t (c_inp c +:+ ans) c).
(** [send] *)
Definition send (m : writeBuf) : C () :=
  e ← conn_Write (wrap m);
  match e with None => mret (Ok tt) | Some e => mret (Err e) end.
Definition sendSimpleMessage (typ : ascii) : M conn (option error) :=
  conn_Write (String typ (be 4 4)).

(** [io.ReadFull(cn.buf, x)] with [n] bytes *)
Definition conn_ReadFull (n : nat) : C string := λ c,
  if decide (n ≤ String.length (c_inp c))%nat then
    let '(a, b) := split_at n (c_inp c) in (Ret (Ok a), set_inp b c)
  else
    let e := match net_end (c_net c) with
             | EOF => if decide (c_inp c = "") then EOF else ErrUnexpectedEOF
             | e => e end in
    (Ret (Err e), set_inp "" c).

Definition saveMessage (typ : ascii) (r : string) : C () :=
  t ← gets saveMessageType;
  if decide (t ≠ zero) then bad_errorf ("unexpected saveMessageType " +:+ pretty (N_of_ascii t))
  else modify (set_saved typ r);; mret (Ok tt).

(** [recvMessage] *)
Definition recvMessage : C (ascii * string) :=
  c ← get;
  if decide (saveMessageType c ≠ zero) then
    modify (set_saved zero "");; mret (Ok (saveMessageType c, saveMessageBuffer c))
  else
    x ←? conn_ReadFull 5;
    match x with
    | "" => throw index_panic
    | String t len =>
        let n := (be_num 0 len - 4)%Z in
        if decide (n < 0)%Z then throw slice_panic
        else y ←? conn_ReadFull (Z.to_nat n); mret (Ok (t, y))
    end.

(** [recv]: for the startup.  Every round takes a saved message or five bytes. *)
Definition msg_fuel (c : conn) : nat := S (S (String.length (c_inp c))).
Fixpoint recv_go (fuel : nat) : C (ascii * string) :=
  match fuel with
  | O => throw out_of_fuel
  | S fuel =>
      '(t, r) ←? recvMessage;
      if decide (t = "E"%char) then e ←? on_msg parseError r; mret (Err (PqError e))
      else if decide (t = "N"%char) then recv_go fuel
      else mret (Ok (t, r))
  end.
Definition recv : C (ascii * string) := λ c, recv_go (msg_fuel c) c.

(** [fmt.Sscanf(s, "%d.%d.%d", ...)]: spaces, a sign, digits *)
Fixpoint skip_space (s : string) : string :=
  match s with
  | String c s' => if has_char c (String " " (String "009" (String "011" (String "012" (String "013" "")))))
                   then skip_space s' else s
  | "" => ""
  end.
Definition scan_int (s : string) : option (Z * string) :=
  let '(neg, t) := strip_sign (skip_space s) in
  match read_digits t 0 0 with
  | (v, S _, rest) =>
      let v := if neg then (- v)%Z else v in
      if decide (- 2 ^ 63 ≤ v < 2 ^ 63)%Z then Some (v, rest) else None
  | _ => None
  end.
Definition scan_version (s : string) : option (Z * Z * Z) :=
  '(a, s) ← scan_int s; s ← strip_prefix "." s;
  '(b, s) ← scan_int s; s ← strip_prefix "." s;
  '(d, _) ← scan_int s; Some (a, b, d).
(** [int] arithmetic wraps around. *)
Definition wrap64 (z : Z) : Z := signed 8 (z mod 2 ^ 64).

Definition processParameterStatus (r : string) : C () :=
  let reader : P (string * string) :=
    param ←? r_string;
    if decide (param = "server_version" ∨ param = "TimeZone") then
      v ←? r_string; mret (Ok (param, v))
    else mret (Ok (param, "")) in
  '(param, v) ←? on_msg reader r;
  ps ← gets c_status;
  (if decide (param = "server_version") then
     match scan_version v with
     | Some (major1, major2, minor) =>
         modify (set_status (mkParameterStatus (wrap64 (major1 * 10000 + major2 * 100 + minor)) (currentLocation ps)))
     | None => mret tt
     end
   else if decide (param = "TimeZone") then
     modify (set_status (mkParameterStatus (serverVersion ps)
       match time_LoadLocation v with Ok l => Some l | Err _ => None end))
   else mret tt);;
  mret (Ok tt).

(** [recv1] and [recv1Buf] *)
Fixpoint recv1_go (fuel : nat) : C (ascii * string) :=
  match fuel with
  | O => throw out_of_fuel
  | S fuel =>
      '(t, r) ←? recvMessage;
      if decide (t = "A"%char ∨ t = "N"%char) then recv1_go fuel
      else if decide (t = "S"%char) then _ ←? processParameterStatus r; recv1_go fuel
      else mret (Ok (t, r))
  end.
Definition recv1 : C (ascii * string) := λ c, recv1_go (msg_fuel c) c.

Definition processReadyForQuery (r : string) : C () :=
  t ←? on_msg r_byte r; modify (set_txnStatus t);; mret (Ok tt).

Definition readReadyForQuery : C () :=
  '(t, r) ←? recv1;
  if decide (t = "Z"%char) then processReadyForQuery r
  else bad_errorf ("unexpected message " +:+ QuoteByte t +:+ "; expected ReadyForQuery").

(** [err := parseError(r); cn.readReadyForQuery(); panic(err)] *)
Definition fail_after_sync {A} (r : string) : C A :=
  e ←? on_msg parseError r; _ ←? readReadyForQuery; mret (Err (PqError e)).

(** ** Answers of the extended protocol *)
Definition readParseResponse : C () :=
  '(t, r) ←? recv1;
  if decide (t = "1"%char) then mret (Ok tt)
  else if decide (t = "E"%char) then fail_after_sync r
  else bad_errorf ("unexpected Parse response " +:+ QuoteByte t).

Definition readBindResponse : C () :=
  '(t, r) ←? recv1;
  if decide (t = "2"%char) then mret (Ok tt)
  else if decide (t = "E"%char) then fail_after_sync r
  else bad_errorf ("unexpected Bind response " +:+ QuoteByte t).

(** [n] values in a row *)
Fixpoint repeatP {A} (n : nat) (p : P A) : P (list A) :=
  match n with
  | O => mret (Ok [])
  | S n => a ←? p; l ←? repeatP n p; mret (Ok (a :: l))
  end.
Definition counted {A} (p : P A) : P (list A) := n ←? r_int16; repeatP (Z.to_nat n) p.

Definition format_of (code : Z) : format :=
  if decide (code = 0)%Z then formatText
  else if decide (code = 1)%Z then formatBinary else formatOther code.

(** One column of a RowDescription: its name, its type and its format. *)
Definition read_column : P (string * Z * Z) :=
  name ←? r_string; _ ←? r_next 6; typ ←? r_oid; _ ←? r_next 6; f ←? r_int16;
  mret (Ok (name, typ, f)).
(** In the description of a statement the last two bytes are skipped, whether or
    not they make a number. *)
Definition read_column_skip : P (string * Z) :=
  name ←? r_string; _ ←? r_next 6; typ ←? r_oid; _ ←? r_next 6; _ ←? r_next 2;
  mret (Ok (name, typ)).

Definition parseStatementRowDescribe : P (list string * list Z) :=
  l ←? counted read_column_skip; mret (Ok (l.*1, l.*2)).
Definition parsePortalRowDescribe : P (list string * list format * list Z) :=
  l ←? counted read_column;
  mret (Ok ((λ x, x.1.1) <$> l, (λ x, format_of x.2) <$> l, (λ x, x.1.2) <$> l)).

Fixpoint readStatementDescribe_go (fuel : nat) (paramTyps : list Z) : C (list Z * list string * list Z) :=
  match fuel with
  | O => throw out_of_fuel
  | S fuel =>
      '(t, r) ←? recv1;
      if decide (t = "t"%char) then
        paramTyps ←? on_msg (counted r_oid) r; readStatementDescribe_go fuel paramTyps
      else if decide (t = "n"%char) then mret (Ok (paramTyps, [], []))
      else if decide (t = "T"%char) then
        '(colNames, colTyps) ←? on_msg parseStatementRowDescribe r;
        mret (Ok (paramTyps, colNames, colTyps))
      else if decide (t = "E"%char) then fail_after_sync r
      else bad_errorf ("unexpected Describe statement response " +:+ QuoteByte t)
  end.
Definition readStatementDescribeResponse : C (list Z * list string * list Z) := λ c,
  readStatementDescribe_go (msg_fuel c) [] c.

Definition readPortalDescribeResponse : C (list string * list format * list Z) :=
  '(t, r) ←? recv1;
  if decide (t = "T"%char) then on_msg parsePortalRowDescribe r
  else if decide (t = "n"%char) then mret (Ok ([], [], []))
  else if decide (t = "E"%char) then fail_after_sync r
  else bad_errorf ("unexpected Describe response " +:+ QuoteByte t).

(** [postExecuteWorkaround]: no branch goes round its loop. *)
Definition postExecuteWorkaround : C () :=
  '(t, r) ←? recv1;
  if decide (t = "E"%char) then fail_after_sync r
  else if decide (t = "C"%char ∨ t = "D"%char ∨ t = "I"%char) then saveMessage t r
  else bad_errorf ("unexpected message during extended query execution: " +:+ QuoteByte t).

(** ** Command tags *)
Definition commandsWithAffectedRows : list string :=
  ["SELECT "; "UPDATE "; "DELETE "; "FETCH "; "MOVE "; "COPY "].

(** The command and the text of its count, when it is one of the list. *)
Fixpoint affected_rows (tags : list string) (commandTag : string) : option (string * string) :=
  match tags with
  | [] => None
  | tag :: tags =>
      match strip_prefix tag commandTag with
      | Some t => Some (default "" (strip_suffix " " tag), t)
      | None => affected_rows tags commandTag
      end
  end.

Definition parseComplete (commandTag : string) : C (Z * string) :=
  '(affectedRows, commandTag) ←?
    match affected_rows commandsWithAffectedRows commandTag with
    | Some (tag, t) => mret (Ok (Some t, tag))
    | None =>
        if HasPrefix commandTag "INSERT " then
          match Split commandTag " " with
          | [_; _; n] => mret (Ok (Some n, "INSERT"))
          | _ => bad_errorf ("unexpected INSERT command tag " +:+ commandTag)
          end
        else mret (Ok (None, commandTag))
    end;
  match affectedRows with
  | None => mret (Ok (0%Z, commandTag))
  | Some t =>
      match AmqpOpen.ParseInt t 64 with
      | Err e => bad_errorf ("could not parse commandTag: " +:+ error_string e)
      | Ok n => mret (Ok (n, commandTag))
      end
  end.

(** What an execution has told so far: its result, its command tag, its error. *)
Record executed := mkExecuted {
  ex_res : option Z;
  ex_tag : string;
  ex_err : option error;
}.
Definition nothing_yet : executed := mkExecuted None "" None.

(** [%s] of the error of an execution *)
Definition err_text (e : option error) : string := match e with Some e => error_string e | None => "" end.

Fixpoint readExecute_go (fuel : nat) (protocolState : string) (x : executed) : C executed :=
  match fuel with
  | O => throw out_of_fuel
  | S fuel =>
      '(t, r) ←? recv1;
      if decide (t = "C"%char) then
        match ex_err x with
        | Some e => bad_errorf ("unexpected CommandComplete after error " +:+ error_string e)
        | None =>
            tag ←? on_msg r_string r;
            '(n, tag) ←? parseComplete tag;
            readExecute_go fuel protocolState (mkExecuted (Some n) tag None)
        end
      else if decide (t = "Z"%char) then _ ←? processReadyForQuery r; mret (Ok x)
      else if decide (t = "E"%char) then
        e ←? on_msg parseError r;
        readExecute_go fuel protocolState (mkExecuted (ex_res x) (ex_tag x) (Some (PqError e)))
      else if decide (t = "T"%char ∨ t = "D"%char ∨ t = "I"%char) then
        match ex_err x with
        | Some e => bad_errorf ("unexpected " +:+ QuoteByte t +:+ " after error " +:+ error_string e)
        | None => readExecute_go fuel protocolState x
        end
      else bad_errorf ("unknown " +:+ protocolState +:+ " response: " +:+ QuoteByte t)
  end.
Definition readExecuteResponse (protocolState : string) : C executed := λ c,
  readExecute_go (msg_fuel c) protocolState nothing_yet c.
Definition executed_result (x : executed) : result (option Z) :=
  match ex_err x with Some e => Err e | None => Ok (ex_res x) end.

(** ** Simple queries *)
Definition query_message (q : string) : writeBuf := w_string q (new_writeBuf "Q").

Fixpoint simpleExec_go (fuel : nat) (x : executed) : C executed :=
  match fuel with
  | O => throw out_of_fuel
  | S fuel =>
      '(t, r) ←? recv1;
      if decide (t = "C"%char) then
        tag ←? on_msg r_string r;
        '(n, tag) ←? parseComplete tag;
        simpleExec_go fuel (mkExecuted (Some n) tag (ex_err x))
      else if decide (t = "Z"%char) then _ ←? processReadyForQuery r; mret (Ok x)
      else if decide (t = "E"%char) then
        e ←? on_msg parseError r;
        simpleExec_go fuel (mkExecuted (ex_res x) (ex_tag x) (Some (PqError e)))
      else if decide (t = "T"%char ∨ t = "D"%char ∨ t = "I"%char) then simpleExec_go fuel x
      else bad_errorf ("unknown response for simple query: " +:+ QuoteByte t)
  end.
Definition simpleExec (q : string) : C executed :=
  _ ←? send (query_message q);
  λ c, simpleExec_go (msg_fuel c) nothing_yet c.

(** [rows]; its buffer is filled by every receive before it is read. *)
Record rows := mkRows {
  r_colNames : list string;
  r_colTyps : list Z;
  r_colFmts : list format;
  r_done : bool;
}.

(** What [res] and [err] of [simpleQuery] hold; a nil [*rows] is [None]. *)
Fixpoint simpleQuery_go (fuel : nat) (res : option rows) (err : option error) :
    C (result (option rows)) :=
  match fuel with
  | O => throw out_of_fuel
  | S fuel =>
      let return_ := match err with Some e => Err e | None => Ok res end in
      '(t, r) ←? recv1;
      if decide (t = "C"%char ∨ t = "I"%char) then
        match err with
        | Some _ => bad_errorf ("unexpected message " +:+ QuoteByte t +:+ " in simple query execution")
        | None => simpleQuery_go fuel (Some (mkRows [] [] [] true)) None
        end
      else if decide (t = "Z"%char) then _ ←? processReadyForQuery r; mret (Ok return_)
      else if decide (t = "E"%char) then
        e ←? on_msg parseError r; simpleQuery_go fuel None (Some (PqError e))
      else if decide (t = "D"%char) then
        match res with
        | None => bad_errorf "unexpected DataRow in simple query execution"
        | Some _ => _ ←? saveMessage t r; mret (Ok return_)
        end
      else if decide (t = "T"%char) then
        '(colNames, colFmts, colTyps) ←? on_msg parsePortalRowDescribe r;
        simpleQuery_go fuel (Some (mkRows colNames colTyps colFmts false)) err
      else bad_errorf ("unknown response for simple query: " +:+ QuoteByte t)
  end.
Definition simpleQuery (q : string) : M conn (result (option rows)) :=
  recoverR (_ ←? send (query_message q); λ c, simpleQuery_go (msg_fuel c) None None c).

(** ** Prepared statements *)
Definition colFmtDataAllBinary : string := be 2 1 +:+ be 2 1.
Definition colFmtDataAllText : string := be 2 0.

Record stmt := mkStmt {
  st_name : string;
  st_colNames : list string;
  st_colFmts : list format;
  st_colFmtData : string;
  st_colTyps : list Z;
  st_paramTyps : list Z;
  st_closed : bool;
}.

(** The types that are received in binary. *)
Definition binary_type (o : Z) : bool := bool_decide (o ∈ [T_bytea; T_int8; T_int4; T_int2]).
Definition format_code (f : format) : Z :=
  match f with formatText => 0 | formatBinary => 1 | formatOther c => c end.
Fixpoint format_codes (fs : list format) : string :=
  match fs with [] => "" | f :: fs => be 2 (format_code f) +:+ format_codes fs end.

Definition decideColumnFormats (colTyps : list Z) (forceText : bool) : list format * string :=
  if decide (colTyps = []) then ([], colFmtDataAllText)
  else if forceText then ((λ _, formatText) <$> colTyps, colFmtDataAllText)
  else
    let colFmts := (λ o, if binary_type o then formatBinary else formatText) <$> colTyps in
    if forallb binary_type colTyps then (colFmts, colFmtDataAllBinary)
    else if forallb (λ o, negb (binary_type o)) colTyps then (colFmts, colFmtDataAllText)
    else (colFmts, be 2 (Z.of_nat (length colFmts)) +:+ format_codes colFmts).

Definition prepare_message (q stmtName : string) : writeBuf :=
  let b := w_int16 0 (w_string q (w_string stmtName (new_writeBuf "P"))) in
  let b := w_string stmtName (w_byte "S" (w_next "D" b)) in
  w_next "S" b.
Definition prepareTo (q stmtName : string) : C stmt :=
  _ ←? send (prepare_message q stmtName);
  _ ←? readParseResponse;
  '(paramTyps, colNames, colTyps) ←? readStatementDescribeResponse;
  forceText ← gets disablePreparedBinaryResult;
  let '(colFmts, colFmtData) := decideColumnFormats colTyps forceText in
  _ ←? readReadyForQuery;
  mret (Ok (mkStmt stmtName colNames colFmts colFmtData colTyps paramTyps false)).

Definition gname : M conn string :=
  modify (λ c, set_namei (namei c + 1) c);; n ← gets namei; mret (AmqpOpen.FormatInt n).

(** *** Parameters *)

(** [sendBinaryParameters] *)
Definition param_format (x : value) : Z := match x with VBytes _ => 1 | _ => 0 end.
Definition is_bytes (x : value) : bool := match x with VBytes _ => true | _ => false end.
Fixpoint int16s (l : list Z) : string :=
  match l with [] => "" | z :: l => be 2 z +:+ int16s l end.
(** One parameter: -1 for a null, or its length and its bytes. *)
Definition datum (enc : value → result string) (x : value) : result string :=
  match x with
  | VNil => Ok (be 4 (-1))
  | _ => match enc x with
         | Ok b => Ok (be 4 (Z.of_nat (String.length b)) +:+ b)
         | Err e => Err e end
  end.
Fixpoint data (encs : list (value → result string)) (args : list value) : result string :=
  match encs, args with
  | enc :: encs, x :: args => wapp (datum enc x) (data encs args)
  | _, _ => Ok ""
  end.
Definition lift_result {A} (r : result A) : C A := mret r.

Definition sendBinaryParameters (b : writeBuf) (args : list value) : C writeBuf :=
  g ← gets c_globals; ps ← gets c_status;
  let b := if existsb is_bytes args
           then w_bytes (int16s (param_format <$> args)) (w_int16 (Z.of_nat (length args)) b)
           else w_int16 0 b in
  let b := w_int16 (Z.of_nat (length args)) b in
  d ←? lift_result (data ((λ _, binaryEncode g ps) <$> args) args);
  mret (Ok (w_bytes d b)).

Definition too_many {A} (n : nat) : C A :=
  errorf ("got " +:+ pretty n +:+ " parameters but PostgreSQL only supports 65535 parameters").

(** Execute the unnamed portal, and Sync. *)
Definition execute_message (b : writeBuf) : writeBuf :=
  w_next "S" (w_int32 0 (w_byte zero (w_next "E" b))).

Definition sendBinaryModeQuery (query : string) (args : list value) : C () :=
  if decide (65536 ≤ Z.of_nat (length args))%Z then too_many (length args)
  else
    let b := w_int16 0 (w_string query (w_byte zero (new_writeBuf "P"))) in
    let b := w_int16 0 (w_next "B" b) in
    b ←? sendBinaryParameters b args;
    let b := w_bytes colFmtDataAllText b in
    let b := w_byte zero (w_byte "P" (w_next "D" b)) in
    send (execute_message b).

(** [stmt.exec] *)
Definition bind_message (st : stmt) : writeBuf :=
  w_string (st_name st) (w_byte zero (new_writeBuf "B")).
Definition stmt_exec (st : stmt) (v : list value) : C () :=
  if decide (65536 ≤ Z.of_nat (length v))%Z then too_many (length v)
  else if decide (length v ≠ length (st_paramTyps st)) then
    errorf ("got " +:+ pretty (length v) +:+ " parameters but the statement requires " +:+
            pretty (length (st_paramTyps st)))
  else
    binary ← gets binaryParameters;
    b ←? (if binary : bool then sendBinaryParameters (bind_message st) v
          else
            g ← gets c_globals; ps ← gets c_status;
            let b := w_int16 (Z.of_nat (length v)) (w_int16 0 (bind_message st)) in
            d ←? lift_result (data ((λ typ x, encode g ps x typ) <$> st_paramTyps st) v);
            mret (Ok (w_bytes d b)));
    let b := w_bytes (st_colFmtData st) b in
    _ ←? send (execute_message b);
    _ ←? readBindResponse;
    postExecuteWorkaround.

Definition stmt_rows (st : stmt) : rows := mkRows (st_colNames st) (st_colTyps st) (st_colFmts st) false.

Definition stmt_Query (st : stmt) (v : list value) : M conn (result rows) :=
  unless_badR (recoverR (_ ←? stmt_exec st v; mret (Ok (Ok (stmt_rows st))))).
Definition stmt_Exec (st : stmt) (v : list value) : M conn (result (option Z)) :=
  unless_badR (recoverR (_ ←? stmt_exec st v;
                         x ←? readExecuteResponse "simple query"; mret (Ok (executed_result x)))).
Definition stmt_NumInput (st : stmt) : nat := length (st_paramTyps st).

(** [stmt.Close]: the error, and the statement with its [closed]. *)
Definition close_stmt (st : stmt) : stmt :=
  mkStmt (st_name st) (st_colNames st) (st_colFmts st) (st_colFmtData st) (st_colTyps st) (st_paramTyps st) true.
Definition close_message (st : stmt) : writeBuf := w_string (st_name st) (w_byte "S" (new_writeBuf "C")).
Definition close_ready : C () :=
  '(t, r) ←? recv1;
  if decide (t ≠ "Z"%char) then bad_errorf ("expected ready for query, but got: " +:+ QuoteByte t)
  else processReadyForQuery r.
(** The body, in the order of the source: [st.closed] is set between the two
    answers, so what it is when the second one fails is kept beside the error. *)
Definition stmt_Close_body (st : stmt) : C (option error * stmt) :=
  _ ←? send (close_message st);
  _ ←? send (new_writeBuf "S");
  '(t, _) ←? recv1;
  if decide (t ≠ "3"%char) then bad_errorf ("unexpected close response: " +:+ QuoteByte t)
  else
    let st := close_stmt st in
    λ c, match close_ready c with
         | (Ret (Ok _), c') => (Ret (Ok (None, st)), c')
         | (Ret (Err e), c') => (Ret (Ok (Some (recover_error e), st)), c')
         | (Crash e, c') => (Crash e, c')
         end.
Definition stmt_Close (st : stmt) : M conn (option error * stmt) :=
  if st_closed st then mret (None, st)
  else b ← gets bad;
       if b : bool then mret (Some ErrBadConn, st)
       else errRecover fst (λ e, (Some e, st)) (stmt_Close_body st).

(** ** Rows *)

(** [dest[i] = decode(...)] for [i] from the first column on. *)
Fixpoint decode_row (rs_typs : list Z) (rs_fmts : list format) (dest : list value) (rb : string) :
    C (list value) :=
  match dest with
  | [] => mret (Ok [])
  | _ :: dest =>
      match r_int32 rb with
      | (Crash c, _) => throw c
      | (Ret (Err e), _) => mret (Err e)
      | (Ret (Ok l), rb) =>
          if decide (l = -1)%Z then
            vs ←? decode_row (tail rs_typs) (tail rs_fmts) dest rb; mret (Ok (VNil :: vs))
          else
            match r_next l rb with
            | (Crash c, _) => throw c
            | (Ret (Err e), _) => mret (Err e)
            | (Ret (Ok b), rb) =>
                match rs_typs, rs_fmts with
                | typ :: rs_typs, f :: rs_fmts =>
                    ps ← gets c_status;
                    v ←? on_globals (decode ps b typ f);
                    vs ←? decode_row rs_typs rs_fmts dest rb; mret (Ok (v :: vs))
                | _, _ => throw index_panic
                end
            end
      end
  end.

(** What a call of [Next] yields: the error, [rs.done], and [dest]. *)
Fixpoint Next_go (fuel : nat) (rs : rows) (dest : list value) (err : option error) :
    C (option error * bool * list value) :=
  match fuel with
  | O => throw out_of_fuel
  | S fuel =>
      '(t, rb) ←? recv1;
      if decide (t = "E"%char) then
        e ←? on_msg parseError rb; Next_go fuel rs dest (Some (PqError e))
      else if decide (t = "C"%char ∨ t = "I"%char) then Next_go fuel rs dest err
      else if decide (t = "Z"%char) then
        _ ←? processReadyForQuery rb;
        mret (Ok (Some match err with Some e => e | None => EOF end, true, dest))
      else if decide (t = "D"%char) then
        match r_int16 rb with
        | (Crash c, _) => throw c
        | (Ret (Err e), _) => mret (Err e)
        | (Ret (Ok n), rb) =>
            match err with
            | Some e => bad_errorf ("unexpected DataRow after error " +:+ error_string e)
            | None =>
                let k := Nat.min (Z.to_nat n) (length dest) in
                vs ←? decode_row (r_colTyps rs) (r_colFmts rs) (take k dest) rb;
                mret (Ok (None, false, vs ++ drop k dest))
            end
        end
      else errorf ("unexpected message after execute: " +:+ QuoteByte t)
  end.

Definition done_rows (rs : rows) : rows := mkRows (r_colNames rs) (r_colTyps rs) (r_colFmts rs) true.

(** [rows.Next]: its error, the rows, and [dest]; what [dest] holds after an error
    is not kept. *)
Definition Next (rs : rows) (dest : list value) : M conn (option error * rows * list value) :=
  if r_done rs then mret (Some EOF, rs, dest)
  else b ← gets bad;
       if b : bool then mret (Some ErrBadConn, rs, dest)
       else errRecover (λ x, x.1.1) (λ e, (Some e, rs, dest))
              ('(err, done, dest) ←? (λ c, Next_go (msg_fuel c) rs dest None c);
               mret (Ok (err, if done : bool then done_rows rs else rs, dest))).

(** [rows.Close] *)
Fixpoint Close_go (fuel : nat) (rs : rows) : M conn (option error * rows) :=
  match fuel with
  | O => throw out_of_fuel
  | S fuel =>
      '(err, rs, _) ← Next rs [];
      match err with
      | None => Close_go fuel rs
      | Some EOF => mret (None, rs)
      | Some e => mret (Some e, rs)
      end
  end.
Definition rows_Close (rs : rows) : M conn (option error * rows) := λ c, Close_go (msg_fuel c) rs c.

(** ** The connection *)
Definition Query (query : string) (args : list value) : M conn (result (option rows)) :=
  unless_badR (recoverR (
    if decide (args = []) then r ← simpleQuery query; mret (Ok r)
    else
      binary ← gets binaryParameters;
      if binary : bool then
        _ ←? sendBinaryModeQuery query args;
        _ ←? readParseResponse;
        _ ←? readBindResponse;
        '(colNames, colFmts, colTyps) ←? readPortalDescribeResponse;
        _ ←? postExecuteWorkaround;
        mret (Ok (Ok (Some (mkRows colNames colTyps colFmts false))))
      else
        st ←? prepareTo query "";
        _ ←? stmt_exec st args;
        mret (Ok (Ok (Some (stmt_rows st)))))).

Definition Exec (query : string) (args : list value) : M conn (result (option Z)) :=
  unless_badR (recoverR (
    if decide (args = []) then x ←? simpleExec query; mret (Ok (executed_result x))
    else
      binary ← gets binaryParameters;
      if binary : bool then
        _ ←? sendBinaryModeQuery query args;
        _ ←? readParseResponse;
        _ ←? readBindResponse;
        _ ←? readPortalDescribeResponse;
        _ ←? postExecuteWorkaround;
        x ←? readExecuteResponse "Execute";
        mret (Ok (executed_result x))
      else
        st ←? prepareTo query "";
        r ←? stmt_Exec st args;
        mret (Ok (Ok r)))).

Definition conn_Close : M conn (option error) :=
  unless_badE (recoverE (
    e ← sendSimpleMessage "X";
    match e with
    | Some e => mret (Ok (Some e))
    | None => λ c, let '(e, t) := net_close (c_net c) in (Ret (Ok e), set_net t (c_inp c) c)
    end)).

(** ** Transactions *)
Definition is_in_transaction (s : ascii) : bool :=
  bool_decide (s = txnStatusIdleInTransaction ∨ s = txnStatusInFailedTransaction).
Definition isInTransaction : M conn bool := gets (λ c, is_in_transaction (txnStatus c)).

(** [transactionStatus.String]; [fmt] reports the panic for an unknown status. *)
Definition status_String (s : ascii) : string :=
  if decide (s = txnStatusIdle) then "idle"
  else if decide (s = txnStatusIdleInTransaction) then "idle in transaction"
  else if decide (s = txnStatusInFailedTransaction) then "in a failed transaction"
  else "%!v(PANIC=pq: unknown transactionStatus " +:+ pretty (N_of_ascii s) +:+ ")".

Definition checkIsInTransaction (intxn : bool) : C () :=
  b ← isInTransaction;
  s ← gets txnStatus;
  if decide (b ≠ intxn) then bad_errorf ("unexpected transaction status " +:+ status_String s)
  else mret (Ok tt).

Definition Begin : M conn (option error) :=
  unless_badE (recoverE (
    _ ←? checkIsInTransaction false;
    x ←? simpleExec "BEGIN";
    match ex_err x with
    | Some e => mret (Ok (Some e))
    | None =>
        s ← gets txnStatus;
        if decide (ex_tag x ≠ "BEGIN") then
          set_bad_true;; mret (Ok (Some (ErrorS ("unexpected command tag " +:+ ex_tag x))))
        else if decide (s ≠ txnStatusIdleInTransaction) then
          set_bad_true;; mret (Ok (Some (ErrorS ("unexpected transaction status " +:+ status_String s))))
        else mret (Ok None)
    end)).

(** [if cn.isInTransaction() { cn.bad = true }; return err] *)
Definition fail_transaction (e : error) : C (option error) :=
  b ← isInTransaction; (if b : bool then set_bad_true else mret tt);; mret (Ok (Some e)).

Definition Rollback : M conn (option error) :=
  unless_badE (recoverE (
    _ ←? checkIsInTransaction true;
    x ←? simpleExec "ROLLBACK";
    match ex_err x with
    | Some e => fail_transaction e
    | None =>
        if decide (ex_tag x ≠ "ROLLBACK") then
          mret (Ok (Some (ErrorS ("unexpected command tag " +:+ ex_tag x))))
        else _ ←? checkIsInTransaction false; mret (Ok None)
    end)).

Definition ErrInFailedTransaction : error :=
  ErrorS "pq: Could not complete operation in a failed transaction".

Definition Commit : M conn (option error) :=
  unless_badE (recoverE (
    _ ←? checkIsInTransaction true;
    s ← gets txnStatus;
    if decide (s = txnStatusInFailedTransaction) then
      e ← Rollback;
      mret (Ok (Some match e with Some e => e | None => ErrInFailedTransaction end))
    else
      x ←? simpleExec "COMMIT";
      match ex_err x with
      | Some e => fail_transaction e
      | None =>
          if decide (ex_tag x ≠ "COMMIT") then
            set_bad_true;; mret (Ok (Some (ErrorS ("unexpected command tag " +:+ ex_tag x))))
          else _ ←? checkIsInTransaction false; mret (Ok None)
      end)).

(** ** Identifiers *)
Definition QuoteIdentifier (name : string) : string :=
  let name := match take_until zero name with Some (a, _) => a | None => name end in
  dquote +:+ Replace name dquote (dquote +:+ dquote) None +:+ dquote.

Definition md5s (s : string) : string := AmzSign.hex (md5_Sum s).

End conn.
End PqConn.
