(* ===== verification/PqCopy.v ===== *)
(** * lib/pq: COPY

    [src/src/github.com/lib/pq/copy.go]: bulk loading.  [prepareCopyIn] leaves a
    goroutine ([resploop]) that receives while the caller sends: a round of it is an
    operation of its own, and the rounds may come between any two calls of the
    caller.  Also [Prepare] of [conn.go], which chooses between a COPY and an
    ordinary statement. *)

From S2P Require Import Prelude GoStrings GoUrl AmqpWire AmqpOpen PqBuf PqEncode PqConn.

Module PqCopy.
Import AmqpWire PqBuf PqEncode PqConn.

Fixpoint quoted_columns (columns : list string) : string :=
  match columns with
  | [] => ""
  | [col] => QuoteIdentifier col
  | col :: columns => QuoteIdentifier col +:+ ", " +:+ quoted_columns columns
  end.
Definition CopyIn (table : string) (columns : list string) : string :=
  "COPY " +:+ QuoteIdentifier table +:+ " (" +:+ quoted_columns columns +:+ ") FROM STDIN".
Definition CopyInSchema (schema table : string) (columns : list string) : string :=
  "COPY " +:+ QuoteIdentifier schema +:+ "." +:+ QuoteIdentifier table +:+ " (" +:+
  quoted_columns columns +:+ ") FROM STDIN".

Definition errCopyInClosed : error := ErrorS "pq: copyin statement has already been closed".
Definition errBinaryCopyNotSupported : error := ErrorS "pq: only text format supported for COPY".
Definition errCopyToNotSupported : error := ErrorS "pq: COPY TO is not supported".
Definition errCopyNotSupportedOutsideTxn : error := ErrorS "pq: COPY is only allowed inside a transaction".
Definition ErrNotSupported : error := ErrorS "pq: Unsupported command".

Definition ciBufferFlushSize : Z := 63 * 1024.

Section copy.
Context {Hlib : PqLib} {T : Type} {Hnet : Net T}.
Abbreviation conn := (conn (T:=T)).
Abbreviation C A := (M conn (result A)).

(** [copyin]; [ci_done] is what the channel [done] holds, [ci_running] whether
    [resploop] still runs. *)
Record copyin := mkCopyin {
  ci_buffer : string;
  ci_done : bool;
  ci_closed : bool;
  ci_err : option error;
  ci_running : bool;
}.

(** A CopyData message without data: its identifier and room for the length. *)
Definition copy_header : string := String "d" (be 4 0).

Definition copy_fail_message (e : error) : writeBuf := w_string (error_string e) (new_writeBuf "f").

(** Waiting for the end of a COPY that was called off. *)
Fixpoint abort_copy (fuel : nat) (err : error) : C (result copyin) :=
  match fuel with
  | O => throw out_of_fuel
  | S fuel =>
      '(t, r) ←? recv1;
      if decide (t = "c"%char ∨ t = "C"%char ∨ t = "E"%char) then abort_copy fuel err
      else if decide (t = "Z"%char) then _ ←? processReadyForQuery r; mret (Ok (Err err))
      else bad_errorf ("unknown response for CopyFail: " +:+ QuoteByte t)
  end.
Definition call_off (err : error) : C (result copyin) :=
  _ ←? send (copy_fail_message err); λ c, abort_copy (msg_fuel c) err c.

Fixpoint await_copy (fuel : nat) (err : option error) : C (result copyin) :=
  match fuel with
  | O => throw out_of_fuel
  | S fuel =>
      '(t, r) ←? recv1;
      if decide (t = "G"%char) then
        b ←? on_msg r_byte r;
        if decide (b ≠ zero) then call_off errBinaryCopyNotSupported
        else mret (Ok (Ok (mkCopyin copy_header false false None true)))
      else if decide (t = "H"%char) then call_off errCopyToNotSupported
      else if decide (t = "E"%char) then
        e ←? on_msg parseError r; await_copy fuel (Some (PqError e))
      else if decide (t = "Z"%char) then
        match err with
        | None => bad_errorf "unexpected ReadyForQuery in response to COPY"
        | Some e => _ ←? processReadyForQuery r; mret (Ok (Err e))
        end
      else bad_errorf ("unknown response for copy query: " +:+ QuoteByte t)
  end.

Definition prepareCopyIn (q : string) : C (result copyin) :=
  b ← isInTransaction;
  if negb b then mret (Ok (Err errCopyNotSupportedOutsideTxn))
  else
    _ ←? send (query_message q);
    λ c, await_copy (msg_fuel c) None c.

(** [Prepare] *)
Inductive driver_stmt := DStmt (st : stmt) | DCopy (ci : copyin).
Definition is_copy (q : string) : bool :=
  bool_decide (4 ≤ String.length q)%nat && bool_decide (ToLower (split_at 4 q).1 = "copy").
Definition Prepare (q : string) : M conn (result driver_stmt) :=
  unless_badR (recoverR (
    if is_copy q then
      r ←? prepareCopyIn q;
      mret (Ok match r with Ok ci => Ok (DCopy ci) | Err e => Err e end)
    else
      name ← gname;
      st ←? prepareTo q name;
      mret (Ok (Ok (DStmt st))))).

(** ** The goroutine *)
Definition setError (e : error) (ci : copyin) : copyin :=
  mkCopyin (ci_buffer ci) (ci_done ci) (ci_closed ci)
    (match ci_err ci with None => Some e | Some e' => Some e' end) (ci_running ci).
(** [ci.done <- true; return] *)
Definition signal (ci : copyin) : copyin :=
  mkCopyin (ci_buffer ci) true (ci_closed ci) (ci_err ci) false.

(** One round of [resploop].  No one recovers a panic here: it ends the process. *)
Definition uncaught {A} (m : C A) : M conn A := λ c,
  match m c with
  | (Ret (Ok a), c') => (Ret a, c')
  | (Ret (Err e), c') => (Crash (Fatal (error_string e)), c')
  | (Crash (Panic s), c') | (Crash (Fatal s), c') => (Crash (Fatal s), c')
  end.
Definition resploop_round (ci : copyin) : M conn copyin := λ c,
  match recvMessage c with
  | (Crash (Panic s), c') | (Crash (Fatal s), c') => (Crash (Fatal s), c')
  | (Ret (Err e), c') => (Ret (signal (setError e ci)), set_bad true c')
  | (Ret (Ok (t, r)), c') =>
      if decide (t = "C"%char ∨ t = "N"%char) then (Ret ci, c')
      else if decide (t = "Z"%char) then
        (uncaught (processReadyForQuery r) ;; mret (signal ci)) c'
      else if decide (t = "E"%char) then
        (e ← uncaught (on_msg parseError r); mret (setError (PqError e) ci)) c'
      else (Ret (signal (setError (ErrorS ("unknown response during CopyIn: " +:+ QuoteByte t)) ci)),
            set_bad true c')
  end.

(** [resploop] until it returns. *)
Fixpoint resploop_go (fuel : nat) (ci : copyin) : M conn copyin :=
  match fuel with
  | O => throw out_of_fuel
  | S fuel =>
      if ci_running ci then ci ← resploop_round ci; resploop_go fuel ci else mret ci
  end.

(** ** The caller *)

(** [flush] *)
Definition flush_bytes (b : string) : string :=
  match split_at 1 b with
  | (id, p) => id +:+ be 4 (Z.of_nat (String.length p)) +:+ (split_at 4 p).2
  end.
Definition flush (b : string) : C () :=
  e ← conn_Write (flush_bytes b);
  match e with None => mret (Ok tt) | Some e => mret (Err e) end.

(** [flush] writes the length into the buffer itself. *)
Definition set_buffer (b : string) (ci : copyin) : copyin :=
  mkCopyin b (ci_done ci) (ci_closed ci) (ci_err ci) (ci_running ci).
Definition set_closed (ci : copyin) : copyin :=
  mkCopyin (ci_buffer ci) (ci_done ci) true (ci_err ci) (ci_running ci).
(** [<-ci.done] *)
Definition take_done (ci : copyin) : copyin :=
  mkCopyin (ci_buffer ci) false (ci_closed ci) (ci_err ci) (ci_running ci).

(** [copyin.Close].  While it waits for [done] only [resploop] runs; when that has
    already returned and its signal was taken, the call never returns. *)
Definition blocks_forever : crash := Fatal "all goroutines are asleep - deadlock!".
Definition copy_Close (ci : copyin) : M conn (option error * copyin) :=
  if ci_closed ci then mret (Some errCopyInClosed, ci)
  else
    b ← gets bad;
    if b : bool then mret (Some ErrBadConn, ci)
    else
      let unflushed := ci_buffer ci in
      let ci := if decide (unflushed = "") then ci else set_buffer (flush_bytes unflushed) ci in
      errRecover fst (λ e, (Some e, ci)) (
        _ ←? (if decide (unflushed = "") then mret (Ok tt) else flush unflushed);
        e ← sendSimpleMessage "c";
        match e with
        | Some e => mret (Ok (Some e, ci))
        | None =>
            ci ← (λ c, resploop_go (msg_fuel c) ci c);
            if ci_done ci then mret (Ok (ci_err ci, take_done ci)) else throw blocks_forever
        end).

Definition copy_NumInput : Z := -1.
Definition copy_Query : option error := Some ErrNotSupported.

Fixpoint append_values (g : globals) (ps : parameterStatus) (buffer : string) (v : list value) : result string :=
  match v with
  | [] => Ok buffer
  | [x] => appendEncodedText g ps buffer x
  | x :: v =>
      match appendEncodedText g ps buffer x with
      | Ok buffer => append_values g ps (buffer +:+ String "009" "") v
      | Err e => Err e
      end
  end.
(** When a value cannot be encoded, the buffer keeps the part of the row before it. *)
Fixpoint append_partial (g : globals) (ps : parameterStatus) (buffer : string) (v : list value) : string :=
  match v with
  | [] => buffer
  | x :: v =>
      match appendEncodedText g ps buffer x with
      | Ok buffer => append_partial g ps (match v with [] => buffer | _ => buffer +:+ String "009" "" end) v
      | Err e => buffer
      end
  end.

(** [copyin.Exec] *)
Definition copy_Exec (ci : copyin) (v : list value) : M conn (option error * copyin) :=
  if ci_closed ci then mret (Some errCopyInClosed, ci)
  else
    b ← gets bad;
    if b : bool then mret (Some ErrBadConn, ci)
    else
      match ci_err ci with
      | Some e => errRecover fst (λ e, (Some e, ci)) (mret (Ok (Some e, ci)))
      | None =>
          if decide (v = []) then
            errRecover fst (λ e, (Some e, ci))
              ('(e, ci) ← copy_Close ci; mret (Ok (e, set_closed ci)))
          else
            g ← gets c_globals; ps ← gets c_status;
            let partial := set_buffer (append_partial g ps (ci_buffer ci) v) ci in
            match append_values g ps (ci_buffer ci) v with
            | Err e => errRecover fst (λ e, (Some e, partial)) (mret (Err e))
            | Ok buffer =>
                let buffer := buffer +:+ nl in
                let flushed := set_buffer (flush_bytes buffer) ci in
                errRecover fst (λ e, (Some e, flushed)) (
                  if decide (ciBufferFlushSize < Z.of_nat (String.length buffer))%Z then
                    _ ←? flush buffer;
                    mret (Ok (None, set_buffer (split_at 5 (flush_bytes buffer)).1 ci))
                  else mret (Ok (None, set_buffer buffer ci)))
            end
      end.

End copy.
End PqCopy.
