(* ===== verification/PqSession.v ===== *)
(** * lib/pq: following a session

    What the receiving functions of [conn.go] do with a stream of well-formed
    messages, asynchronous ones among them, and what a conforming server may answer. *)

From S2P Require Import Prelude GoStrings AmqpWire AmqpOpen PqBuf PqEncode PqConn.

Module PqSession.
Import AmqpWire PqBuf PqEncode PqConn.

Abbreviation msg := (ascii * string)%type.

(** Messages on the wire. *)
Fixpoint frames (ms : list msg) : string :=
  match ms with [] => "" | m :: ms => frame m.1 m.2 +:+ frames ms end.
Definition sized (m : msg) : bool := bool_decide (4 + Z.of_nat (String.length m.2) < 2 ^ 32)%Z.

(** The parameters a client follows. *)
Definition followed (param : string) : bool := bool_decide (param = "server_version" ∨ param = "TimeZone").
(** A message that may come at any time and changes nothing: a notification, a
    notice, or a parameter that the client does not follow. *)
Definition async (m : msg) : bool :=
  match m.1 with
  | "A"%char | "N"%char => true
  | "S"%char => match take_until zero m.2 with Some (param, _) => negb (followed param) | None => false end
  | _ => false
  end.
(** A message that answers something. *)
Definition answer (m : msg) : bool := negb (has_char m.1 (String zero "ANS")).
Definition wf_msg (m : msg) : bool := sized m && (async m || answer m).
Definition answers (ms : list msg) : list msg := List.filter answer ms.

Lemma frames_app a b : frames (a ++ b) = frames a +:+ frames b.
Proof. induction a as [|m a IH]; [done|]. by rewrite /= IH str_app_assoc. Qed.

Lemma async_not_answer m : async m = true → answer m = false.
Proof.
  destruct m as [t p]. rewrite /async /answer /=. intros H. apply negb_false_iff.
  destruct t as [[] [] [] [] [] [] [] []]; try discriminate H; by vm_compute.
Qed.

(** Decides the comparisons of known message types. *)
Ltac dchar :=
  match goal with
  | |- context [@decide ?P ?i] =>
      first [destruct (@decide P i) as [_|[]]; [|solve [reflexivity | by left | by right; left | by right; right]]
            |destruct (@decide P i) as [?|_]; [exfalso; solve [discriminate | by intuition discriminate]|]]
  end; cbv beta iota.
Ltac dchars := cbv beta iota; repeat dchar.

Section session.
Context {Hlib : PqLib} {T : Type} {Hnet : Net T}.
Implicit Types (c : conn (T:=T)).
Abbreviation C A := (M (conn (T:=T)) (result A)).

(** What waits to be received on a connection: the messages [ms] and then [rest]. *)
Definition pending c (ms : list msg) (rest : string) : Prop :=
  (saveMessageType c = zero ∧ c_inp c = frames ms +:+ rest) ∨
  (saveMessageType c ≠ zero ∧ ∃ ms', ms = (saveMessageType c, saveMessageBuffer c) :: ms' ∧
     c_inp c = frames ms' +:+ rest).

(** [c'] differs from [c] in what waits, in the state [t] of the other end and in
    the transaction status [s]. *)
Definition moved (t : T) (s : ascii) c c' : Prop :=
  ∃ st sb inp, c' = set_txnStatus s (set_saved st sb (set_net t inp c)).
(** ... in what waits only. *)
Definition same c c' : Prop := moved (c_net c) (txnStatus c) c c'.

(** The answers [l] wait, with asynchronous messages among them. *)
Definition ahead c (l : list msg) (rest : string) : Prop :=
  ∃ ms, pending c ms rest ∧ forallb wf_msg ms = true ∧ answers ms = l.

Lemma moved_intro c c' :
  namei c' = namei c → c_status c' = c_status c → bad c' = bad c → c_globals c' = c_globals c →
  disablePreparedBinaryResult c' = disablePreparedBinaryResult c →
  binaryParameters c' = binaryParameters c → moved (c_net c') (txnStatus c') c c'.
Proof.
  intros. exists (saveMessageType c'), (saveMessageBuffer c'), (c_inp c').
  destruct c, c'; simpl in *; by simplify_eq.
Qed.
Lemma moved_trans t1 s1 t2 s2 c1 c2 c3 : moved t1 s1 c1 c2 → moved t2 s2 c2 c3 → moved t2 s2 c1 c3.
Proof. intros (st & sb & i & ->) (st' & sb' & i' & ->). by exists st', sb', i'. Qed.
Lemma moved_fields t s c c' : moved t s c c' →
  c_net c' = t ∧ txnStatus c' = s ∧ namei c' = namei c ∧ c_status c' = c_status c ∧ bad c' = bad c ∧
  c_globals c' = c_globals c ∧ disablePreparedBinaryResult c' = disablePreparedBinaryResult c ∧
  binaryParameters c' = binaryParameters c.
Proof. by intros (st & sb & i & ->). Qed.
Lemma same_intro c c' :
  c_net c' = c_net c → txnStatus c' = txnStatus c →
  namei c' = namei c → c_status c' = c_status c → bad c' = bad c → c_globals c' = c_globals c →
  disablePreparedBinaryResult c' = disablePreparedBinaryResult c →
  binaryParameters c' = binaryParameters c → same c c'.
Proof. rewrite /same => <- <- *. by apply moved_intro. Qed.
Lemma same_refl c : same c c.
Proof. by apply same_intro. Qed.
Lemma same_moved t s c c1 c2 : same c c1 → moved t s c1 c2 → moved t s c c2.
Proof. apply moved_trans. Qed.
Lemma moved_same t s c c1 c2 : moved t s c c1 → same c1 c2 → moved t s c c2.
Proof.
  intros H1 H2. destruct (moved_fields _ _ _ _ H1) as (Ht & Hs & _).
  rewrite /same Ht Hs in H2. by eapply moved_trans.
Qed.
Lemma same_trans c1 c2 c3 : same c1 c2 → same c2 c3 → same c1 c3.
Proof. apply moved_same. Qed.

Lemma conn_ReadFull_app n a rest c :
  c_inp c = a +:+ rest → n = String.length a → conn_ReadFull n c = (Ret (Ok a), set_inp rest c).
Proof.
  intros Hc ->. rewrite /conn_ReadFull Hc decide_True; [|rewrite str_length_app; lia].
  by rewrite split_at_app.
Qed.

Lemma recvMessage_wire m inp c :
  saveMessageType c = zero → c_inp c = frame m.1 m.2 +:+ inp → sized m = true →
  recvMessage c = (Ret (Ok m), set_inp inp c).
Proof.
  destruct m as [t p]. intros Hs Hc Hz. apply bool_decide_eq_true in Hz. cbn [fst snd] in *.
  rewrite /recvMessage /mbind /M_bind /get decide_False; [|tauto]. rewrite /bindR /mbind /M_bind.
  rewrite (conn_ReadFull_app 5 (String t (be 4 (Z.of_nat (4 + String.length p)))) (p +:+ inp));
    [|by rewrite Hc /frame str_app_cons -str_app_assoc|by cbn [String.length]; rewrite be_length].
  rewrite be_num_be Z.mul_0_l Z.add_0_l Z.mod_small; [|simpl; lia].
  rewrite decide_False; [|lia].
  rewrite (conn_ReadFull_app _ p inp); [done|done|]. lia.
Qed.

Lemma recvMessage_pending m ms rest c :
  pending c (m :: ms) rest → wf_msg m = true →
  ∃ c', recvMessage c = (Ret (Ok m), c') ∧ pending c' ms rest ∧ same c c' ∧ saveMessageType c' = zero.
Proof.
  intros [[Hs Hc]|(Hs & ms' & [= -> ->] & Hc)] [Hz _]%andb_true_iff.
  - exists (set_inp (frames ms +:+ rest) c). split_and!.
    + apply recvMessage_wire; [done| |done]. by rewrite Hc /= str_app_assoc.
    + by left.
    + by apply same_intro.
    + done.
  - exists (set_saved zero "" c). split_and!.
    + rewrite /recvMessage /mbind /M_bind /get decide_True //.
    + by left.
    + by apply same_intro.
    + done.
Qed.

(** More rounds than messages. *)
Lemma frames_length ms : (length ms ≤ String.length (frames ms))%nat.
Proof. induction ms as [|m ms IH]; simpl; [lia|]. rewrite !str_length_app. lia. Qed.
Lemma pending_fuel c ms rest : pending c ms rest → (length ms < msg_fuel c)%nat.
Proof.
  rewrite /msg_fuel. intros [[_ ->]|(_ & ms' & -> & ->)]; rewrite str_length_app /=.
  - pose proof (frames_length ms). lia.
  - pose proof (frames_length ms'). lia.
Qed.
Lemma answers_length ms : (length (answers ms) ≤ length ms)%nat.
Proof. rewrite /answers. apply List.filter_length_le. Qed.
Lemma ahead_fuel c l rest : ahead c l rest → (length l < msg_fuel c)%nat.
Proof.
  intros (ms & Hp & _ & <-). pose proof (pending_fuel _ _ _ Hp). pose proof (answers_length ms). lia.
Qed.

(** A parameter that is not followed. *)
Lemma processParameterStatus_other p c :
  async ("S"%char, p) = true → processParameterStatus p c = (Ret (Ok tt), c).
Proof.
  rewrite /async /=. destruct (take_until zero p) as [[param v]|] eqn:E; [|done].
  intros Hf%negb_true_iff. apply bool_decide_eq_false in Hf.
  rewrite /processParameterStatus /bindR /mbind /M_bind /on_msg /r_string E /=.
  rewrite decide_False //= /gets decide_False; [|tauto]. rewrite decide_False; [|tauto]. done.
Qed.

(** [recv1] yields the next answer, past what is asynchronous. *)
Lemma recv1_go_answer n ms m l rest c :
  pending c ms rest → forallb wf_msg ms = true → answers ms = m :: l → (length ms < n)%nat →
  ∃ c' ms', recv1_go n c = (Ret (Ok m), c') ∧ pending c' ms' rest ∧ forallb wf_msg ms' = true ∧
    answers ms' = l ∧ same c c' ∧ saveMessageType c' = zero.
Proof.
  revert n c. induction ms as [|x ms IH]; intros [|n] c Hp Hwf Ha Hn; try (simpl in *; lia || done).
  simpl in Hwf. apply andb_true_iff in Hwf as [Hx Hms].
  destruct (recvMessage_pending x ms rest c Hp Hx) as (c1 & Hr & Hp1 & Hs1 & Hz1).
  cbn [recv1_go]. rewrite /bindR /mbind /M_bind Hr.
  destruct x as [t p]. cbv beta iota. rewrite /answers /= in Ha. destruct (answer (t, p)) eqn:Et.
  - injection Ha as -> Ha. exists c1, ms. split_and!; [|done|done|done|done|done].
    apply negb_true_iff in Et. cbn in Et.
    rewrite decide_False; [|intros [-> | ->]; done]. rewrite decide_False; [|intros ->; done]. done.
  - assert (async (t, p) = true) as Has.
    { apply andb_true_iff in Hx as [_ Hx]. by rewrite Et orb_false_r in Hx. }
    cbn [length] in Hn.
    destruct (IH n c1) as (c' & ms' & Hgo & H1 & H2 & H3 & H4 & H5); [done|done|done|lia|].
    exists c', ms'. split_and!; [|done|done|done|by eapply same_trans|done].
    destruct (decide (t = "A"%char ∨ t = "N"%char)) as [Ht|Ht]; [done|].
    assert (t = "S"%char) as ->.
    { clear -Has Ht. rewrite /async /= in Has.
      destruct t as [[] [] [] [] [] [] [] []]; try discriminate Has; tauto. }
    destruct (decide ("S"%char = "S"%char)) as [_|[]]; [|done].
    by rewrite processParameterStatus_other.
Qed.

Lemma recv1_answer m l rest c :
  ahead c (m :: l) rest →
  ∃ c', recv1 c = (Ret (Ok m), c') ∧ ahead c' l rest ∧ same c c' ∧ saveMessageType c' = zero.
Proof.
  intros (ms & Hp & Hwf & Ha).
  destruct (recv1_go_answer (msg_fuel c) ms m l rest c) as (c' & ms' & Hr & ? & ? & ? & ? & ?);
    [done|done|done|by eapply pending_fuel|].
  exists c'. split_and!; [done| |done|done]. by exists ms'.
Qed.

(** ** Running a step *)
Lemma bindR_run {W A B} (m : M W (result A)) (k : A → M W (result B)) w a w' :
  m w = (Ret (Ok a), w') → bindR m k w = k a w'.
Proof. rewrite /bindR /mbind /M_bind => ->. done. Qed.
Lemma bindR_err {W A B} (m : M W (result A)) (k : A → M W (result B)) w e w' :
  m w = (Ret (Err e), w') → bindR m k w = (Ret (Err e), w').
Proof. rewrite /bindR /mbind /M_bind => ->. done. Qed.
Lemma on_msg_run {A} (p : P A) r a rest c :
  p r = (Ret (Ok a), rest) → on_msg p r c = (Ret (Ok a), c).
Proof. rewrite /on_msg => ->. done. Qed.

(** ** Messages of the server *)
Definition ready (s : ascii) : msg := ("Z"%char, String s "").
Definition error_msg (fs : list (ascii * string)) : msg := ("E"%char, error_payload fs).
Definition complete (tag : string) : msg := ("C"%char, tag +:+ String zero "").

(** A column: its name, the six bytes that say where it comes from, its type, the
    six bytes of its size and modifier, its format. *)
Record column := mkColumn {
  co_name : string;
  co_origin : string;
  co_type : Z;
  co_mod : string;
  co_format : Z;
}.
Definition wf_column (x : column) : bool :=
  negb (has_char zero (co_name x)) && bool_decide (String.length (co_origin x) = 6) &&
  bool_decide (String.length (co_mod x) = 6) && in_u 4 (co_type x) && in_u 2 (co_format x).
Definition column_bytes (x : column) : string :=
  co_name x +:+ String zero (co_origin x +:+ be 4 (co_type x) +:+ co_mod x +:+ be 2 (co_format x)).

(** Values one after the other, with their number before them. *)
Fixpoint listed {A} (enc : A → string) (l : list A) : string :=
  match l with [] => "" | x :: l => enc x +:+ listed enc l end.
Definition counted_bytes {A} (enc : A → string) (l : list A) : string :=
  be 2 (Z.of_nat (length l)) +:+ listed enc l.
Definition row_desc (cols : list column) : msg := ("T"%char, counted_bytes column_bytes cols).
Definition param_desc (typs : list Z) : msg := ("t"%char, counted_bytes (be 4) typs).

Definition datum_bytes (v : option string) : string :=
  match v with None => be 4 (-1) | Some s => be 4 (Z.of_nat (String.length s)) +:+ s end.
Definition wf_datum (v : option string) : bool :=
  match v with None => true | Some s => shorter (2 ^ 31) s end.
Definition data_row (vs : list (option string)) : msg := ("D"%char, counted_bytes datum_bytes vs).

Lemma repeatP_listed {A B} (p : P B) (enc : A → string) (f : A → B) l rest :
  (∀ x rest, x ∈ l → p (enc x +:+ rest) = (Ret (Ok (f x)), rest)) →
  repeatP (length l) p (listed enc l +:+ rest) = (Ret (Ok (f <$> l)), rest).
Proof.
  induction l as [|x l IH]; intros Hp; [done|].
  cbn [repeatP length listed]. rewrite -str_app_assoc.
  rewrite (bindR_run _ _ _ _ _ (Hp x _ ltac:(set_solver))).
  rewrite (bindR_run _ _ _ _ _ (IH ltac:(set_solver))). done.
Qed.

Lemma counted_listed {A B} (p : P B) (enc : A → string) (f : A → B) l rest :
  (Z.of_nat (length l) < 65536)%Z → (∀ x rest, x ∈ l → p (enc x +:+ rest) = (Ret (Ok (f x)), rest)) →
  counted p (counted_bytes enc l +:+ rest) = (Ret (Ok (f <$> l)), rest).
Proof.
  intros Hl Hp. rewrite /counted /counted_bytes -str_app_assoc.
  rewrite (bindR_run _ _ _ _ _ (r_int16_be (Z.of_nat (length l)) _ ltac:(lia))) Nat2Z.id. by apply repeatP_listed.
Qed.

Lemma wf_column_inv x : wf_column x = true →
  has_char zero (co_name x) = false ∧ String.length (co_origin x) = 6 ∧
  String.length (co_mod x) = 6 ∧ (0 ≤ co_type x < 2 ^ 32)%Z ∧ (0 ≤ co_format x < 65536)%Z.
Proof.
  rewrite /wf_column /in_u !andb_true_iff negb_true_iff !bool_decide_eq_true. intros; split_and!; naive_solver lia.
Qed.

Lemma read_column_bytes x rest : wf_column x = true →
  read_column (column_bytes x +:+ rest) = (Ret (Ok (co_name x, co_type x, co_format x)), rest).
Proof.
  intros (Hn & Ho & Hm & Ht & Hf)%wf_column_inv. rewrite /column_bytes /read_column.
  rewrite -str_app_assoc str_app_cons (bindR_run _ _ _ _ _ (r_string_app _ _ Hn)) -!str_app_assoc.
  rewrite (bindR_run _ _ _ _ _ (r_next_app 6 (co_origin x) _ ltac:(by rewrite Ho))).
  rewrite (bindR_run _ _ _ _ _ (r_oid_be _ _ Ht)).
  rewrite (bindR_run _ _ _ _ _ (r_next_app 6 (co_mod x) _ ltac:(by rewrite Hm))).
  by rewrite (bindR_run _ _ _ _ _ (r_int16_be _ _ Hf)).
Qed.

Lemma read_column_skip_bytes x rest : wf_column x = true →
  read_column_skip (column_bytes x +:+ rest) = (Ret (Ok (co_name x, co_type x)), rest).
Proof.
  intros (Hn & Ho & Hm & Ht & Hf)%wf_column_inv. rewrite /column_bytes /read_column_skip.
  rewrite -str_app_assoc str_app_cons (bindR_run _ _ _ _ _ (r_string_app _ _ Hn)) -!str_app_assoc.
  rewrite (bindR_run _ _ _ _ _ (r_next_app 6 (co_origin x) _ ltac:(by rewrite Ho))).
  rewrite (bindR_run _ _ _ _ _ (r_oid_be _ _ Ht)).
  rewrite (bindR_run _ _ _ _ _ (r_next_app 6 (co_mod x) _ ltac:(by rewrite Hm))).
  by rewrite (bindR_run _ _ _ _ _ (r_next_app 2 (be 2 (co_format x)) _ ltac:(by rewrite be_length))).
Qed.

Definition wf_columns (cols : list column) : Prop :=
  (Z.of_nat (length cols) < 65536)%Z ∧ Forall (λ x, wf_column x = true) cols.

Lemma parsePortal_desc cols rest : wf_columns cols →
  parsePortalRowDescribe ((row_desc cols).2 +:+ rest) =
  (Ret (Ok (co_name <$> cols, format_of ∘ co_format <$> cols, co_type <$> cols)), rest).
Proof.
  intros [Hl Hw]. rewrite /parsePortalRowDescribe.
  erewrite bindR_run; [|apply (counted_listed read_column column_bytes
    (λ x, (co_name x, co_type x, co_format x)) cols rest Hl)].
  - by rewrite -!list_fmap_compose.
  - intros x r Hx. apply read_column_bytes. by eapply Forall_forall in Hw.
Qed.

Lemma parseStatement_desc cols rest : wf_columns cols →
  parseStatementRowDescribe ((row_desc cols).2 +:+ rest) =
  (Ret (Ok (co_name <$> cols, co_type <$> cols)), rest).
Proof.
  intros [Hl Hw]. rewrite /parseStatementRowDescribe.
  erewrite bindR_run; [|apply (counted_listed read_column_skip column_bytes
    (λ x, (co_name x, co_type x)) cols rest Hl)].
  - by rewrite -!list_fmap_compose.
  - intros x r Hx. apply read_column_skip_bytes. by eapply Forall_forall in Hw.
Qed.

Definition wf_types (typs : list Z) : Prop :=
  (Z.of_nat (length typs) < 65536)%Z ∧ Forall (λ z, 0 ≤ z < 2 ^ 32)%Z typs.

Lemma counted_oids typs : wf_types typs → counted r_oid (param_desc typs).2 = (Ret (Ok typs), "").
Proof.
  intros [Hl Hw]. rewrite -(str_app_nil_r (param_desc typs).2).
  etransitivity; [apply (counted_listed r_oid (be 4) id typs "" Hl)|by rewrite list_fmap_id].
  intros x r Hx. apply r_oid_be. by eapply Forall_forall in Hw.
Qed.

(** A run that receives the answers up to [l] and changes nothing else. *)
Definition reaches {A} (m : C A) c (t : T) (s : ascii) (l : list msg) rest (r : result A) : Prop :=
  ∃ c', m c = (Ret r, c') ∧ ahead c' l rest ∧ moved t s c c'.

Lemma reaches_recv1 {A} (k : msg → C A) c m l l' rest t s r :
  ahead c (m :: l) rest →
  (∀ c', ahead c' l rest → same c c' → saveMessageType c' = zero → reaches (k m) c' t s l' rest r) →
  reaches (bindR recv1 k) c t s l' rest r.
Proof.
  intros Ha Hk. destruct (recv1_answer _ _ _ _ Ha) as (c1 & Hr & Ha1 & Hs1 & Hz).
  destruct (Hk c1 Ha1 Hs1 Hz) as (c2 & Hk2 & Ha2 & Hm2).
  exists c2. rewrite (bindR_run _ _ _ _ _ Hr). split_and!; [done|done|by eapply same_moved].
Qed.

Lemma reaches_bindR {A B} (m : C A) (k : A → C B) c t1 s1 l1 a t s l rest r :
  reaches m c t1 s1 l1 rest (Ok a) →
  (∀ c', ahead c' l1 rest → moved t1 s1 c c' → reaches (k a) c' t s l rest r) →
  reaches (bindR m k) c t s l rest r.
Proof.
  intros (c1 & Hm & Ha1 & Hm1) Hk. destruct (Hk c1 Ha1 Hm1) as (c2 & Hk2 & Ha2 & Hm2).
  exists c2. rewrite (bindR_run _ _ _ _ _ Hm). split_and!; [done|done|by eapply moved_trans].
Qed.

Lemma reaches_bindR_err {A B} (m : C A) (k : A → C B) c t s l rest e :
  reaches m c t s l rest (Err e) → reaches (bindR m k) c t s l rest (Err e).
Proof.
  intros (c1 & Hm & Ha1 & Hm1). exists c1. by rewrite (bindR_err _ _ _ _ _ Hm).
Qed.

Lemma reaches_ret {A} (r : result A) c l rest :
  ahead c l rest → reaches (mret r) c (c_net c) (txnStatus c) l rest r.
Proof. intros. exists c. split_and!; [done|done|apply same_refl]. Qed.

Lemma reaches_on_msg {A B} (p : P A) r a (k : A → C B) c t s l rest x :
  (p r).1 = Ret (Ok a) → reaches (k a) c t s l rest x → reaches (bindR (on_msg p r) k) c t s l rest x.
Proof.
  intros Hp (c' & Hk & H). exists c'. split; [|done].
  rewrite /bindR /mbind /M_bind /on_msg Hp. done.
Qed.

(** *** ReadyForQuery, and errors up to it *)
Lemma reaches_ready_payload s c l rest :
  ahead c l rest → reaches (processReadyForQuery (ready s).2) c (c_net c) s l rest (Ok tt).
Proof.
  intros Ha. exists (set_txnStatus s c). split_and!; [done| |by apply (moved_intro c (set_txnStatus s c))].
  destruct Ha as (ms & Hp & Hw & Hl). by exists ms.
Qed.

Lemma reaches_ready s c l rest :
  ahead c (ready s :: l) rest → reaches readReadyForQuery c (c_net c) s l rest (Ok tt).
Proof.
  intros Ha. eapply reaches_recv1; [exact Ha|]. intros c' Ha' Hs _.
  destruct (moved_fields _ _ _ _ Hs) as [<- _]. by apply reaches_ready_payload.
Qed.

Lemma reaches_fail {A} fs s c l rest :
  forallb wf_error_field fs = true → ahead c (ready s :: l) rest →
  reaches (fail_after_sync (A:=A) (error_msg fs).2) c (c_net c) s l rest (Err (PqError (error_of fs))).
Proof.
  intros Hf Ha. eapply reaches_on_msg.
  { rewrite -(str_app_nil_r (error_msg fs).2) parseError_fields //. }
  eapply reaches_bindR; [by apply reaches_ready|]. intros c' Ha' Hm.
  destruct (moved_fields _ _ _ _ Hm) as (<- & <- & _). by apply reaches_ret.
Qed.

(** *** Answers to Parse, Describe and Bind *)
Ltac same_fields Hs :=
  let H := fresh in
  pose proof (moved_fields _ _ _ _ Hs) as H; destruct H as (<- & <- & _).

Lemma reaches_parse c l rest : ahead c (("1"%char, "") :: l) rest →
  reaches readParseResponse c (c_net c) (txnStatus c) l rest (Ok tt).
Proof.
  intros Ha. eapply reaches_recv1; [exact Ha|]. intros c' Ha' Hs _. same_fields Hs. by apply reaches_ret.
Qed.
Lemma reaches_bind c l rest : ahead c (("2"%char, "") :: l) rest →
  reaches readBindResponse c (c_net c) (txnStatus c) l rest (Ok tt).
Proof.
  intros Ha. eapply reaches_recv1; [exact Ha|]. intros c' Ha' Hs _. same_fields Hs. by apply reaches_ret.
Qed.
Lemma reaches_parse_error fs s c l rest :
  forallb wf_error_field fs = true → ahead c (error_msg fs :: ready s :: l) rest →
  reaches readParseResponse c (c_net c) s l rest (Err (PqError (error_of fs))).
Proof.
  intros Hf Ha. eapply reaches_recv1; [exact Ha|]. intros c' Ha' Hs _.
  pose proof (moved_fields _ _ _ _ Hs) as (<- & _). by apply reaches_fail.
Qed.
Lemma reaches_bind_error fs s c l rest :
  forallb wf_error_field fs = true → ahead c (error_msg fs :: ready s :: l) rest →
  reaches readBindResponse c (c_net c) s l rest (Err (PqError (error_of fs))).
Proof.
  intros Hf Ha. eapply reaches_recv1; [exact Ha|]. intros c' Ha' Hs _.
  pose proof (moved_fields _ _ _ _ Hs) as (<- & _). by apply reaches_fail.
Qed.

(** What a statement's description can be: columns, or no data. *)
Definition desc_msg (cols : list column) : msg :=
  match cols with [] => ("n"%char, "") | _ => row_desc cols end.

Lemma reaches_describe typs cols c l rest :
  wf_types typs → wf_columns cols → ahead c (param_desc typs :: desc_msg cols :: l) rest →
  reaches readStatementDescribeResponse c (c_net c) (txnStatus c) l rest
    (Ok (typs, co_name <$> cols, co_type <$> cols)).
Proof.
  intros Ht Hc Ha. rewrite /readStatementDescribeResponse /reaches.
  pose proof (ahead_fuel _ _ _ Ha) as Hf. destruct (msg_fuel c) as [|[|n]]; [simpl in Hf; lia..|].
  change (reaches (readStatementDescribe_go (S (S n)) []) c (c_net c) (txnStatus c) l rest
    (Ok (typs, co_name <$> cols, co_type <$> cols))).
  eapply reaches_recv1; [exact Ha|]. intros c1 Ha1 Hs1 _. cbv beta iota. same_fields Hs1.
  eapply reaches_on_msg; [by rewrite counted_oids|].
  eapply reaches_recv1; [exact Ha1|]. intros c2 Ha2 Hs2 _. cbv beta iota. same_fields Hs2.
  destruct cols as [|x cols]; [by apply reaches_ret|].
  eapply (reaches_on_msg _ _ (co_name <$> x :: cols, co_type <$> x :: cols)); [|by apply reaches_ret].
  pose proof (parseStatement_desc (x :: cols) "" Hc) as E. rewrite str_app_nil_r in E. exact (f_equal fst E).
Qed.

(** *** Sending *)
Lemma reaches_send m c ms t l :
  ahead c l "" → forallb wf_msg ms = true → net_write (wrap m) (c_net c) = (None, frames ms, t) →
  reaches (send m) c t (txnStatus c) (l ++ answers ms) "" (Ok tt).
Proof.
  intros (ms0 & Hp & Hw & Hl) Hwf Hn.
  exists (set_net t (c_inp c +:+ frames ms) c). split_and!.
  - rewrite /send /mbind /M_bind /conn_Write Hn. done.
  - exists (ms0 ++ ms). split_and!.
    + destruct Hp as [[Hz Hi]|(Hz & ms' & -> & Hi)]; [left|right].
      * split; [done|]. rewrite /= Hi !str_app_nil_r frames_app. done.
      * split; [done|]. exists (ms' ++ ms). split; [done|]. rewrite /= Hi !str_app_nil_r frames_app. done.
    + by rewrite forallb_app Hw Hwf.
    + by rewrite /answers List.filter_app -Hl.
  - by apply (moved_intro c (set_net t (c_inp c +:+ frames ms) c)).
Qed.

(** *** Saving the first message of an execution *)
Lemma reaches_save m l rest c :
  ahead c l rest → saveMessageType c = zero → m.1 ≠ zero → wf_msg m = true → answer m = true →
  reaches (saveMessage m.1 m.2) c (c_net c) (txnStatus c) (m :: l) rest (Ok tt).
Proof.
  intros (ms & Hp & Hw & Hl) Hz Hm Hwf Ha.
  destruct Hp as [[_ Hi]|(Hz' & _)]; [|done].
  exists (set_saved m.1 m.2 c). split_and!.
  - rewrite /saveMessage /gets /mbind /M_bind /modify. rewrite decide_False; [done|tauto].
  - exists (m :: ms). split_and!.
    + right. split; [done|]. exists ms. by destruct m.
    + by rewrite /= Hwf Hw.
    + by rewrite /answers /= Ha -/(answers ms) Hl.
  - by apply same_intro.
Qed.

Lemma ahead_wf c m l rest : ahead c (m :: l) rest → wf_msg m = true ∧ answer m = true.
Proof.
  intros (ms & _ & Hw & Hl).
  assert (m ∈ answers ms) as Hin by (rewrite Hl; set_solver).
  apply list_elem_of_In, filter_In in Hin as [Hin Ha]. split; [|done].
  by eapply forallb_forall in Hw.
Qed.

Lemma reaches_workaround m l rest c :
  ahead c (m :: l) rest → has_char m.1 "CDI" = true →
  reaches postExecuteWorkaround c (c_net c) (txnStatus c) (m :: l) rest (Ok tt).
Proof.
  intros Ha Hm. destruct (ahead_wf _ _ _ _ Ha) as [Hw Hans].
  eapply reaches_recv1; [exact Ha|]. intros c' Ha' Hs Hz. same_fields Hs.
  destruct m as [t p]. cbn [fst snd] in *. cbv beta iota.
  assert (t = "C"%char ∨ t = "D"%char ∨ t = "I"%char) as Ht.
  { cbn in Hm. rewrite !orb_true_iff !bool_decide_eq_true in Hm. naive_solver. }
  rewrite decide_False; [|naive_solver]. rewrite decide_True //.
  apply (reaches_save (t, p)); try done. naive_solver.
Qed.

Lemma reaches_workaround_error fs s c l rest :
  forallb wf_error_field fs = true → ahead c (error_msg fs :: ready s :: l) rest →
  reaches postExecuteWorkaround c (c_net c) s l rest (Err (PqError (error_of fs))).
Proof.
  intros Hf Ha. eapply reaches_recv1; [exact Ha|]. intros c' Ha' Hs _.
  pose proof (moved_fields _ _ _ _ Hs) as (<- & _). by apply reaches_fail.
Qed.

End session.
End PqSession.
