(* ===== verification/PqRows.v ===== *)
(** * lib/pq: queries and their rows

    The messages a query sends, what [Query], [Exec] and the methods of [rows] make
    of a conforming server's answers, and the loop of [database/sql] that reads all
    rows of a query. *)

From S2P Require Import Prelude GoStrings AmqpWire AmqpOpen PqBuf PqEncode PqConn PqSession.

Module PqRows.
Import AmqpWire PqBuf PqEncode PqConn PqSession.

(** ** Requests on the wire *)
Definition cstr (s : string) : string := s +:+ String zero "".

Ltac builds_step :=
  first [apply builds_new | apply builds_bytes | apply builds_next].
(** The text of a message that was built, without the empty parts. *)
Ltac wire :=
  etransitivity; [eapply wrap_builds; repeat builds_step|];
  unfold cstr; rewrite ?str_app_nil_l -?str_app_assoc ?str_app_nil_r; reflexivity.

Definition simple_request (q : string) : string := frame "Q" (cstr q).
Definition prepare_request (q name : string) : string :=
  frame "P" (cstr name +:+ cstr q +:+ be 2 0) +:+ frame "D" ("S" +:+ cstr name) +:+ frame "S" "".
Definition execute_request (bind : string) : string :=
  frame "B" bind +:+ frame "E" (String zero "" +:+ be 4 0) +:+ frame "S" "".
(** The parameters of a Bind: all in text, a null or length and bytes each, and the
    formats of the result. *)
Definition bind_payload (name : string) (n : nat) (params fmts : string) : string :=
  String zero "" +:+ cstr name +:+ be 2 0 +:+ be 2 (Z.of_nat n) +:+ params +:+ fmts.

Lemma wrap_query q : wrap (query_message q) = simple_request q.
Proof. rewrite /simple_request. wire. Qed.
Lemma wrap_prepare q name : wrap (prepare_message q name) = prepare_request q name.
Proof. rewrite /prepare_request. wire. Qed.

Section rows.
Context {Hlib : PqLib} {T : Type} {Hnet : Net T}.
Implicit Types (c : conn (T:=T)).
Abbreviation C A := (M (conn (T:=T)) (result A)).

Lemma wrap_bind (st : stmt) n params fmts :
  wrap (execute_message (w_bytes fmts (w_bytes params (w_int16 n (w_int16 0 (bind_message st)))))) =
  execute_request (String zero "" +:+ cstr (st_name st) +:+ be 2 0 +:+ be 2 n +:+ params +:+ fmts).
Proof. rewrite /execute_request. wire. Qed.

(** ** The extended protocol *)
Lemma reaches_prepareTo q name c ms t typs cols s :
  ahead c [] "" → net_write (prepare_request q name) (c_net c) = (None, frames ms, t) →
  forallb wf_msg ms = true → wf_types typs → wf_columns cols →
  answers ms = [("1"%char, ""); param_desc typs; desc_msg cols; ready s] →
  reaches (prepareTo q name) c t s [] ""
    (Ok (let '(fmts, data) := decideColumnFormats (co_type <$> cols) (disablePreparedBinaryResult c) in
         mkStmt name (co_name <$> cols) fmts data (co_type <$> cols) typs false)).
Proof.
  intros Ha Hn Hw Ht Hc Hms. rewrite /prepareTo.
  eapply reaches_bindR; [eapply reaches_send; [done|done|by rewrite wrap_prepare]|].
  rewrite Hms. intros c1 Ha1 Hm1. pose proof (moved_fields _ _ _ _ Hm1) as (<- & Hs1 & _ & _ & _ & _ & Hd1 & _).
  eapply reaches_bindR; [by apply reaches_parse|]. intros c2 Ha2 Hm2.
  pose proof (moved_fields _ _ _ _ Hm2) as (<- & Hs2 & _ & _ & _ & _ & Hd2 & _).
  eapply reaches_bindR; [by eapply reaches_describe|]. intros c3 Ha3 Hm3.
  pose proof (moved_fields _ _ _ _ Hm3) as (<- & Hs3 & _ & _ & _ & _ & Hd3 & _).
  cbv beta iota. rewrite -Hd1 -Hd2 -Hd3.
  destruct (decideColumnFormats (co_type <$> cols) (disablePreparedBinaryResult c3)) as [fmts data] eqn:E.
  destruct (reaches_ready s c3 [] "" Ha3) as (c4 & Hr & Ha4 & Hm4).
  exists c4. split_and!; [|done|done].
  rewrite /gets /mbind /M_bind E. by rewrite (bindR_run _ _ _ _ _ Hr).
Qed.

Lemma reaches_stmt_exec st v c ms t params m l :
  (Z.of_nat (length v) < 65536)%Z → length v = length (st_paramTyps st) → binaryParameters c = false →
  data ((λ typ x, encode (c_globals c) (c_status c) x typ) <$> st_paramTyps st) v = Ok params →
  ahead c [] "" →
  net_write (execute_request (bind_payload (st_name st) (length v) params (st_colFmtData st))) (c_net c) =
    (None, frames ms, t) →
  forallb wf_msg ms = true → answers ms = ("2"%char, "") :: m :: l → has_char m.1 "CDI" = true →
  reaches (stmt_exec st v) c t (txnStatus c) (m :: l) "" (Ok tt).
Proof.
  intros Hlen Hp Hb Hd Ha Hn Hw Hms Hm. rewrite /stmt_exec decide_False; [|lia].
  rewrite decide_False; [|tauto].
  set (b := w_bytes params (w_int16 (Z.of_nat (length v)) (w_int16 0 (bind_message st)))).
  assert (reaches (bindR (send (execute_message (w_bytes (st_colFmtData st) b)))
    (λ _, bindR readBindResponse (λ _, postExecuteWorkaround))) c t (txnStatus c) (m :: l) "" (Ok tt))
    as (c' & Hrun & H').
  { eapply reaches_bindR; [eapply reaches_send; [done|done|by rewrite wrap_bind]|].
    rewrite Hms. intros c1 Ha1 Hm1. pose proof (moved_fields _ _ _ _ Hm1) as (<- & Hs1 & _).
    eapply reaches_bindR; [by apply reaches_bind|]. intros c2 Ha2 Hm2.
    pose proof (moved_fields _ _ _ _ Hm2) as (<- & Hs2 & _).
    rewrite -Hs1 -Hs2. by apply reaches_workaround. }
  exists c'. split; [|done].
  rewrite /gets /mbind /M_bind Hb /bindR /mbind /M_bind /lift_result Hd. exact Hrun.
Qed.

(** ** Rows *)

(** What the columns of a row are decoded to. *)
Fixpoint decode_vals (ps : parameterStatus) (typs : list Z) (fmts : list format)
    (vals : list (option string)) {struct vals} :
    M globals (result (list value)) :=
  match vals, typs, fmts with
  | [], _, _ => mret (Ok [])
  | None :: vals, _ :: typs, _ :: fmts =>
      vs ←? decode_vals ps typs fmts vals; mret (Ok (VNil :: vs))
  | Some b :: vals, typ :: typs, f :: fmts =>
      v ←? decode ps b typ f; vs ←? decode_vals ps typs fmts vals; mret (Ok (v :: vs))
  | _, _, _ => throw index_panic
  end.

Lemma on_globals_run {A} (m : M globals A) c a g :
  m (c_globals c) = (Ret a, g) → on_globals m c = (Ret a, set_globals g c).
Proof. by rewrite /on_globals => ->. Qed.

Lemma r_datum_length s rest : (Z.of_nat (String.length s) < 2 ^ 31)%Z →
  r_int32 (be 4 (Z.of_nat (String.length s)) +:+ rest) = (Ret (Ok (Z.of_nat (String.length s))), rest).
Proof. intros. apply r_int32_be. lia. Qed.

Lemma decode_row_vals typs fmts vals (dest : list value) c rest vs g :
  Forall (λ v, wf_datum v = true) vals → length dest = length vals →
  decode_vals (c_status c) typs fmts vals (c_globals c) = (Ret (Ok vs), g) →
  decode_row typs fmts dest (listed datum_bytes vals +:+ rest) c = (Ret (Ok vs), set_globals g c).
Proof.
  revert typs fmts dest c vs. induction vals as [|v vals IH]; intros typs fmts dest c vs Hw Hl Hd.
  - destruct dest; [|done]. cbn [decode_vals] in Hd. rewrite /mret /M_ret in Hd. simplify_eq.
    by destruct c.
  - destruct dest as [|x dest]; [done|]. injection Hl as Hl.
    apply Forall_cons in Hw as [Hv Hw].
    cbn [decode_row listed]. rewrite -str_app_assoc.
    destruct v as [b|].
    + rewrite /datum_bytes -str_app_assoc r_datum_length; [|by apply bool_decide_eq_true in Hv].
      rewrite decide_False; [|lia]. rewrite r_next_app //.
      destruct typs as [|typ typs]; [done|]. destruct fmts as [|f fmts]; [done|].
      cbn [decode_vals] in Hd. rewrite /gets. unfold mbind at 1, M_bind at 1.
      destruct (decode (c_status c) b typ f (c_globals c)) as [[[v|e]|e] g1] eqn:E1;
        [|by rewrite (bindR_err _ _ _ _ _ E1) in Hd|by rewrite /bindR /mbind /M_bind E1 in Hd].
      rewrite (bindR_run _ _ _ _ _ E1) in Hd.
      rewrite (bindR_run _ _ _ _ _ (on_globals_run _ _ _ _ E1)).
      destruct (decode_vals (c_status c) typs fmts vals g1) as [[[vs'|e]|e] g2] eqn:E2;
        [|by rewrite (bindR_err _ _ _ _ _ E2) in Hd|by rewrite /bindR /mbind /M_bind E2 in Hd].
      rewrite (bindR_run _ _ _ _ _ E2) in Hd. rewrite /mret /M_ret in Hd. simplify_eq.
      by rewrite (bindR_run _ _ _ _ _ (IH typs fmts dest (set_globals g1 c) vs' Hw Hl E2)).
    + rewrite /datum_bytes r_int32_be //.
      destruct (decide (-1 = -1)%Z) as [_|[]]; [|done].
      destruct typs as [|typ typs]; [done|]. destruct fmts as [|f fmts]; [done|].
      cbn [decode_vals] in Hd.
      destruct (decode_vals (c_status c) typs fmts vals (c_globals c)) as [[[vs'|e]|e] g2] eqn:E2;
        [|by rewrite (bindR_err _ _ _ _ _ E2) in Hd|by rewrite /bindR /mbind /M_bind E2 in Hd].
      rewrite (bindR_run _ _ _ _ _ E2) in Hd. rewrite /mret /M_ret in Hd. simplify_eq.
      by rewrite (bindR_run _ _ _ _ _ (IH typs fmts dest c vs' Hw Hl E2)).
Qed.


(** [c'] is [c] with other package variables, up to what waits and the status. *)
Definition moved_g (t : T) (s : ascii) (g : globals) c c' : Prop := moved t s (set_globals g c) c'.

Lemma moved_g_of t s c c1 g : moved t s c c1 → moved_g t s g c (set_globals g c1).
Proof. intros (st & sb & i & ->). by exists st, sb, i. Qed.
Lemma moved_g_trans t1 s1 g1 t2 s2 g2 c1 c2 c3 :
  moved_g t1 s1 g1 c1 c2 → moved_g t2 s2 g2 c2 c3 → moved_g t2 s2 g2 c1 c3.
Proof. intros (st & sb & i & ->) (st' & sb' & i' & ->). by exists st', sb', i'. Qed.
Lemma moved_moved_g t s c c' : moved t s c c' → moved_g t s (c_globals c) c c'.
Proof. rewrite /moved_g. by destruct c. Qed.
Lemma moved_g_fields t s g c c' : moved_g t s g c c' →
  c_net c' = t ∧ txnStatus c' = s ∧ c_globals c' = g ∧ c_status c' = c_status c ∧ bad c' = bad c ∧
  namei c' = namei c ∧ binaryParameters c' = binaryParameters c.
Proof. by intros (st & sb & i & ->). Qed.
Lemma ahead_globals c l rest g : ahead c l rest → ahead (set_globals g c) l rest.
Proof. intros (ms & Hp & H). by exists ms. Qed.

(** [Next] with its guards passed. *)
Lemma Next_run rs dest c err done dest' c' :
  r_done rs = false → bad c = false → err ≠ Some ErrBadConn →
  Next_go (msg_fuel c) rs dest None c = (Ret (Ok (err, done, dest')), c') →
  Next rs dest c = (Ret (err, if done then done_rows rs else rs, dest'), c').
Proof.
  intros Hd Hb He Hgo. rewrite /Next Hd /mbind /M_bind /gets Hb /errRecover.
  rewrite (bindR_run (λ c, Next_go (msg_fuel c) rs dest None c) _ _ _ _ Hgo) /=. by rewrite decide_False.
Qed.

Lemma Next_row rs vals dest c l rest vs g :
  r_done rs = false → bad c = false → ahead c (data_row vals :: l) rest →
  (Z.of_nat (length vals) < 65536)%Z → Forall (λ v, wf_datum v = true) vals → length dest = length vals →
  decode_vals (c_status c) (r_colTyps rs) (r_colFmts rs) vals (c_globals c) = (Ret (Ok vs), g) →
  ∃ c', Next rs dest c = (Ret (None, rs, vs), c') ∧ ahead c' l rest ∧
    moved_g (c_net c) (txnStatus c) g c c'.
Proof.
  intros Hd Hb Ha Hn Hw Hl Hv.
  destruct (recv1_answer _ _ _ _ Ha) as (c1 & Hr & Ha1 & Hs1 & _).
  exists (set_globals g c1). split_and!; [|by apply ahead_globals|by apply moved_g_of].
  apply (Next_run rs dest c None false); [done|done|done|].
  pose proof (ahead_fuel _ _ _ Ha) as Hf. destruct (msg_fuel c) as [|n]; [lia|].
  cbn [Next_go]. rewrite (bindR_run _ _ _ _ _ Hr) /data_row. dchars.
  rewrite /counted_bytes r_int16_be; [|lia]. rewrite Nat2Z.id Hl Nat.min_id.
  rewrite firstn_all2; [|lia]. rewrite drop_ge; [|lia].
  rewrite -(str_app_nil_r (listed datum_bytes vals)).
  destruct (moved_fields _ _ _ _ Hs1) as (_ & _ & _ & Hst & _ & Hg & _).
  erewrite bindR_run; [|apply decode_row_vals; [done|done|by rewrite Hst Hg]].
  by rewrite app_nil_r.
Qed.

(** The end of the rows, after the CommandComplete. *)
Lemma Next_end rs tag s dest c l rest :
  r_done rs = false → bad c = false → ahead c (complete tag :: ready s :: l) rest →
  ∃ c', Next rs dest c = (Ret (Some EOF, done_rows rs, dest), c') ∧ ahead c' l rest ∧ moved (c_net c) s c c'.
Proof.
  intros Hd Hb Ha.
  destruct (recv1_answer _ _ _ _ Ha) as (c1 & Hr1 & Ha1 & Hs1 & _).
  destruct (recv1_answer _ _ _ _ Ha1) as (c2 & Hr2 & Ha2 & Hs2 & _).
  exists (set_txnStatus s c2). split_and!.
  - apply (Next_run rs dest c (Some EOF) true); [done|done|done|].
    pose proof (ahead_fuel _ _ _ Ha) as Hf. destruct (msg_fuel c) as [|[|n]]; [simpl in Hf; lia..|].
    cbn [Next_go]. rewrite (bindR_run _ _ _ _ _ Hr1) /complete. dchars.
    rewrite (bindR_run _ _ _ _ _ Hr2) /ready. by dchars.
  - destruct Ha2 as (ms & Hp & H). by exists ms.
  - pose proof (same_trans _ _ _ Hs1 Hs2) as (st & sb & i & ->). by exists st, sb, i.
Qed.

(** An error in the middle of the rows ends them. *)
Lemma Next_error rs fs s dest c l rest :
  r_done rs = false → bad c = false → forallb wf_error_field fs = true →
  ahead c (error_msg fs :: ready s :: l) rest →
  ∃ c', Next rs dest c = (Ret (Some (PqError (error_of fs)), done_rows rs, dest), c') ∧
    ahead c' l rest ∧ moved (c_net c) s c c'.
Proof.
  intros Hd Hb Hf Ha.
  destruct (recv1_answer _ _ _ _ Ha) as (c1 & Hr1 & Ha1 & Hs1 & _).
  destruct (recv1_answer _ _ _ _ Ha1) as (c2 & Hr2 & Ha2 & Hs2 & _).
  exists (set_txnStatus s c2). split_and!.
  - apply (Next_run rs dest c (Some (PqError (error_of fs))) true); [done|done|done|].
    pose proof (ahead_fuel _ _ _ Ha) as Hf'. destruct (msg_fuel c) as [|[|n]]; [simpl in Hf'; lia..|].
    cbn [Next_go]. rewrite (bindR_run _ _ _ _ _ Hr1) /error_msg. dchars.
    erewrite bindR_run; [|eapply on_msg_run; rewrite -(str_app_nil_r (error_payload fs)); by apply parseError_fields].
    rewrite (bindR_run _ _ _ _ _ Hr2) /ready. by dchars.
  - destruct Ha2 as (ms & Hp & H). by exists ms.
  - pose proof (same_trans _ _ _ Hs1 Hs2) as (st & sb & i & ->). by exists st, sb, i.
Qed.

(** ** Reading all rows

    [for rows.Next() { ... }] of [database/sql]: [rowsi.Next] into one slice of as
    many values as there are columns, until it fails, and then [rowsi.Close]. *)
Fixpoint fetch_go (fuel : nat) (rs : rows) (dest : list value) :
    M (conn (T:=T)) (list (list value) * option error) :=
  match fuel with
  | O => throw out_of_fuel
  | S fuel =>
      '(err, rs, dest) ← Next rs dest;
      match err with
      | None => '(l, e) ← fetch_go fuel rs dest; mret (dest :: l, e)
      | Some EOF => rows_Close rs;; mret ([], None)
      | Some e => rows_Close rs;; mret ([], Some e)
      end
  end.
Definition fetch (rs : rows) : M (conn (T:=T)) (list (list value) * option error) := λ c,
  fetch_go (msg_fuel c) rs (replicate (length (r_colNames rs)) VNil) c.

(** What the rows of a result are decoded to, one after the other. *)
Fixpoint decode_rows (ps : parameterStatus) (typs : list Z) (fmts : list format)
    (data : list (list (option string))) : M globals (result (list (list value))) :=
  match data with
  | [] => mret (Ok [])
  | vals :: data =>
      vs ←? decode_vals ps typs fmts vals; l ←? decode_rows ps typs fmts data; mret (Ok (vs :: l))
  end.

Definition wf_row (n : nat) (vals : list (option string)) : Prop :=
  length vals = n ∧ Forall (λ v, wf_datum v = true) vals.

Lemma rows_Close_done rs c : r_done rs = true → rows_Close rs c = (Ret (None, rs), c).
Proof. intros H. rewrite /rows_Close /msg_fuel /= /mbind /M_bind /Next H. done. Qed.

Lemma decode_vals_length ps typs fmts vals g vs g' :
  decode_vals ps typs fmts vals g = (Ret (Ok vs), g') → length vs = length vals.
Proof.
  revert typs fmts g vs. induction vals as [|v vals IH]; intros typs fmts g vs H.
  - cbn [decode_vals] in H. rewrite /mret /M_ret in H. by simplify_eq.
  - destruct v as [b|], typs as [|typ typs], fmts as [|f fmts]; try done; cbn [decode_vals] in H.
    + destruct (decode ps b typ f g) as [[[v|e]|e] g1] eqn:E1;
        [|by rewrite (bindR_err _ _ _ _ _ E1) in H|by rewrite /bindR /mbind /M_bind E1 in H].
      rewrite (bindR_run _ _ _ _ _ E1) in H.
      destruct (decode_vals ps typs fmts vals g1) as [[[l|e]|e] g2] eqn:E2;
        [|by rewrite (bindR_err _ _ _ _ _ E2) in H|by rewrite /bindR /mbind /M_bind E2 in H].
      rewrite (bindR_run _ _ _ _ _ E2) /mret /M_ret in H. simplify_eq. cbn. f_equal. by eapply IH.
    + destruct (decode_vals ps typs fmts vals g) as [[[l|e]|e] g2] eqn:E2;
        [|by rewrite (bindR_err _ _ _ _ _ E2) in H|by rewrite /bindR /mbind /M_bind E2 in H].
      rewrite (bindR_run _ _ _ _ _ E2) /mret /M_ret in H. simplify_eq. cbn. f_equal. by eapply IH.
Qed.

(** How the rows of a result can end: with the tag of the command, or with an error,
    which is then what [rows.Err] says. *)
Definition ending_msg (e : list (ascii * string) + string) : msg :=
  match e with inl fs => error_msg fs | inr tag => complete tag end.
Definition wf_ending (e : list (ascii * string) + string) : Prop :=
  match e with inl fs => forallb wf_error_field fs = true | inr _ => True end.
Definition ending_err (e : list (ascii * string) + string) : option error :=
  match e with inl fs => Some (PqError (error_of fs)) | inr _ => None end.

Lemma Next_ending rs e s dest c l rest :
  r_done rs = false → bad c = false → wf_ending e → ahead c (ending_msg e :: ready s :: l) rest →
  ∃ c', Next rs dest c = (Ret (Some (default EOF (ending_err e)), done_rows rs, dest), c') ∧
    ahead c' l rest ∧ moved (c_net c) s c c'.
Proof. destruct e as [fs|tag]; intros Hd Hb Hw Ha; [by apply Next_error|by eapply Next_end]. Qed.

Lemma fetch_go_rows n k rs dest rows_ e s c rest l g :
  (Z.of_nat k < 65536)%Z → r_done rs = false → bad c = false → length dest = k → Forall (wf_row k) rows_ →
  wf_ending e → ahead c ((data_row <$> rows_) ++ [ending_msg e; ready s]) rest →
  decode_rows (c_status c) (r_colTyps rs) (r_colFmts rs) rows_ (c_globals c) = (Ret (Ok l), g) →
  (length rows_ < n)%nat →
  ∃ c', fetch_go n rs dest c = (Ret (l, ending_err e), c') ∧ ahead c' [] rest ∧ moved_g (c_net c) s g c c'.
Proof.
  intros Hk Hd. revert n dest c l. induction rows_ as [|vals rows_ IH]; intros [|n] dest c l Hb Hl Hw He Ha Hr Hn;
    try (simpl in Hn; lia); cbn [fetch_go].
  - rewrite /= /mret /M_ret in Hr. simplify_eq.
    destruct (Next_ending rs e s dest c [] rest Hd Hb He Ha) as (c' & HN & Ha' & Hm).
    exists c'. split_and!; [|done|by apply moved_moved_g].
    rewrite (bind_run _ _ _ _ _ HN). cbv beta iota.
    destruct e; by rewrite /= (bind_run _ _ _ _ _ (rows_Close_done (done_rows rs) c' eq_refl)).
  - apply Forall_cons in Hw as [[Hlen Hv] Hw]. cbn [decode_rows] in Hr.
    destruct (decode_vals (c_status c) (r_colTyps rs) (r_colFmts rs) vals (c_globals c)) as [[[vs|e1]|e1] g1] eqn:E1;
      [|by rewrite (bindR_err _ _ _ _ _ E1) in Hr|by rewrite /bindR /mbind /M_bind E1 in Hr].
    rewrite (bindR_run _ _ _ _ _ E1) in Hr.
    destruct (decode_rows (c_status c) (r_colTyps rs) (r_colFmts rs) rows_ g1) as [[[l'|e1]|e1] g2] eqn:E2;
      [|by rewrite (bindR_err _ _ _ _ _ E2) in Hr|by rewrite /bindR /mbind /M_bind E2 in Hr].
    rewrite (bindR_run _ _ _ _ _ E2) /mret /M_ret in Hr. simplify_eq.
    destruct (Next_row rs vals dest c ((data_row <$> rows_) ++ [ending_msg e; ready s]) rest vs g1)
      as (c1 & HN & Ha1 & Hm1); [done|done|done|lia|done|lia|done|].
    destruct (moved_g_fields _ _ _ _ _ Hm1) as (Hnet1 & _ & Hg1 & Hst1 & Hb1 & _).
    destruct (IH n vs c1 l') as (c2 & Hf & Ha2 & Hm2);
      [by rewrite Hb1| |done|done|done|by rewrite Hst1 Hg1|simpl in Hn; lia|].
    { rewrite (decode_vals_length _ _ _ _ _ _ _ E1). lia. }
    exists c2. split_and!; [|done|rewrite -Hnet1; by eapply moved_g_trans].
    rewrite (bind_run _ _ _ _ _ HN). cbv beta iota. by rewrite (bind_run _ _ _ _ _ Hf).
Qed.

Lemma fetch_rows rs data e s c l g :
  (Z.of_nat (length (r_colNames rs)) < 65536)%Z → r_done rs = false → bad c = false →
  Forall (wf_row (length (r_colNames rs))) data →
  wf_ending e → ahead c ((data_row <$> data) ++ [ending_msg e; ready s]) "" →
  decode_rows (c_status c) (r_colTyps rs) (r_colFmts rs) data (c_globals c) = (Ret (Ok l), g) →
  ∃ c', fetch rs c = (Ret (l, ending_err e), c') ∧ ahead c' [] "" ∧ moved_g (c_net c) s g c c'.
Proof.
  intros Hk Hd Hb Hw He Ha Hr. eapply fetch_go_rows; try done; [by rewrite length_replicate|].
  pose proof (ahead_fuel _ _ _ Ha) as Hf. rewrite length_app length_fmap /= in Hf. lia.
Qed.

(** *** A query with arguments *)
Definition prepared (cols : list column) (typs : list Z) (forceText : bool) : stmt :=
  let '(fmts, data) := decideColumnFormats (co_type <$> cols) forceText in
  mkStmt "" (co_name <$> cols) fmts data (co_type <$> cols) typs false.

(** A first message of an execution that does not fail. *)
Definition first_result (l : list msg) : Prop := ∃ m l', l = m :: l' ∧ has_char m.1 "CDI" = true.

Lemma Query_prepared q args c ms1 t1 typs cols s1 params ms2 t2 l :
  bad c = false → binaryParameters c = false → ahead c [] "" →
  args ≠ [] → (Z.of_nat (length args) < 65536)%Z → length args = length typs →
  wf_types typs → wf_columns cols →
  net_write (prepare_request q "") (c_net c) = (None, frames ms1, t1) → forallb wf_msg ms1 = true →
  answers ms1 = [("1"%char, ""); param_desc typs; desc_msg cols; ready s1] →
  data ((λ typ x, encode (c_globals c) (c_status c) x typ) <$> typs) args = Ok params →
  net_write (execute_request (bind_payload "" (length args) params
    (st_colFmtData (prepared cols typs (disablePreparedBinaryResult c))))) t1 = (None, frames ms2, t2) →
  forallb wf_msg ms2 = true → answers ms2 = ("2"%char, "") :: l → first_result l →
  ∃ c', Query q args c = (Ret (Ok (Some (stmt_rows (prepared cols typs (disablePreparedBinaryResult c))))), c') ∧
    ahead c' l "" ∧ moved t2 s1 c c'.
Proof.
  intros Hb Hbin Ha Hargs Hlen Hlt Ht Hc Hn1 Hw1 Hm1 Hd Hn2 Hw2 Hm2 (m & l' & -> & Hm).
  destruct (reaches_prepareTo q "" c ms1 t1 typs cols s1) as (c1 & Hp1 & Ha1 & Hmv1); [done..|].
  rewrite -/(prepared cols typs (disablePreparedBinaryResult c)) in Hp1.
  set (st := prepared cols typs (disablePreparedBinaryResult c)) in *.
  assert (st_paramTyps st = typs ∧ st_name st = "") as [Hst1 Hst2].
  { rewrite /st /prepared. by destruct (decideColumnFormats _ _). }
  destruct (moved_fields _ _ _ _ Hmv1) as (Ht1 & Hs1 & _ & Hst & Hb1 & Hg & _ & Hbin1).
  destruct (reaches_stmt_exec st args c1 ms2 t2 params m l') as (c2 & Hp2 & Ha2 & Hmv2); try done.
  { by rewrite Hst1. } { by rewrite Hbin1. } { by rewrite Hg Hst Hst1. } { by rewrite Ht1 Hst2. }
  exists c2. split_and!; [|done|rewrite -Hs1; by eapply moved_trans].
  rewrite /Query /unless_badR /mbind /M_bind /gets Hb /recoverR /errRecover decide_False //.
  rewrite Hbin (bindR_run _ _ _ _ _ Hp1) (bindR_run _ _ _ _ _ Hp2). done.
Qed.
End rows.
End PqRows.
