(* ===== verification/PqSync.v ===== *)
(** * lib/pq: staying in step with the server

    A connection is in step when nothing but asynchronous messages waits on it: the
    next answer it receives belongs to the next request it makes.  Against a server
    that answers as the protocol says, with errors wherever it may report them, every
    operation leaves the connection in step or marks it as bad. *)

From S2P Require Import Prelude GoStrings AmqpWire AmqpOpen PqBuf PqEncode PqConn PqCopy PqSession PqRows.

Module PqSync.
Import AmqpWire PqBuf PqEncode PqConn PqCopy PqSession PqRows.

(** ** What the server answers *)

(** After Bind: rows, then the command tag, the sign of an empty query or an error;
    then ReadyForQuery with the transaction status [s]. *)
Inductive results : list msg → ascii → Prop :=
| results_complete tag s : has_char zero tag = false → results [complete tag; ready s] s
| results_empty s : results [("I"%char, ""); ready s] s
| results_error fs s : forallb wf_error_field fs = true → results [error_msg fs; ready s] s
| results_row p l s : (2 ≤ String.length p)%nat → results l s → results (("D"%char, p) :: l) s.

(** To Parse, Describe and Sync. *)
Inductive prepare_answer : list msg → ascii → Prop :=
| prepare_ok typs cols s : wf_types typs → wf_columns cols →
    prepare_answer [("1"%char, ""); param_desc typs; desc_msg cols; ready s] s
| prepare_parse_error fs s : forallb wf_error_field fs = true → prepare_answer [error_msg fs; ready s] s
| prepare_describe_error fs s : forallb wf_error_field fs = true →
    prepare_answer [("1"%char, ""); error_msg fs; ready s] s.

(** To Bind, Execute and Sync. *)
Inductive execute_answer : list msg → ascii → Prop :=
| execute_ok l s : results l s → execute_answer (("2"%char, "") :: l) s
| execute_error fs s : forallb wf_error_field fs = true → execute_answer [error_msg fs; ready s] s.

(** To a Query of one statement. *)
Inductive simple_answer : list msg → ascii → Prop :=
| simple_rows cols l s : wf_columns cols → results l s → simple_answer (row_desc cols :: l) s
| simple_complete tag s : has_char zero tag = false → simple_answer [complete tag; ready s] s
| simple_empty s : simple_answer [("I"%char, ""); ready s] s
| simple_error fs s : forallb wf_error_field fs = true → simple_answer [error_msg fs; ready s] s.

(** To Parse, Bind, Describe, Execute and Sync in one go. *)
Inductive binary_answer : list msg → ascii → Prop :=
| binary_ok cols l s : wf_columns cols → results l s →
    binary_answer (("1"%char, "") :: ("2"%char, "") :: desc_msg cols :: l) s
| binary_parse_error fs s : forallb wf_error_field fs = true → binary_answer [error_msg fs; ready s] s
| binary_bind_error fs s : forallb wf_error_field fs = true →
    binary_answer [("1"%char, ""); error_msg fs; ready s] s
| binary_describe_error fs s : forallb wf_error_field fs = true →
    binary_answer [("1"%char, ""); ("2"%char, ""); error_msg fs; ready s] s.

Definition binary_request (q bind : string) : string :=
  frame "P" (String zero "" +:+ cstr q +:+ be 2 0) +:+ frame "B" bind +:+
  frame "D" ("P" +:+ String zero "") +:+ frame "E" (String zero "" +:+ be 4 0) +:+ frame "S" "".
Definition close_request (name : string) : string := frame "C" ("S" +:+ cstr name).

(** A request [b] is answered, with asynchronous messages anywhere. *)
Definition replies {T : Type} {Hnet : Net T} (ok : T → Prop) (b : string) (t : T) (Q : list msg → ascii → Prop) : Prop :=
  ∃ ms s t', net_write b t = (None, frames ms, t') ∧ forallb wf_msg ms = true ∧ Q (answers ms) s ∧ ok t'.

(** A server in a state of [ok] answers every request as the protocol says and stays
    in such a state. *)
Class Conforming {T : Type} {Hnet : Net T} (ok : T → Prop) : Prop := {
  on_query q t : ok t → replies ok (simple_request q) t simple_answer;
  on_prepare q name t : ok t → replies ok (prepare_request q name) t prepare_answer;
  on_execute bind t : ok t → replies ok (execute_request bind) t execute_answer;
  on_binary q bind t : ok t → replies ok (binary_request q bind) t binary_answer;
  on_close name t : ok t → ∃ ms t1 ms' s t2,
    net_write (close_request name) t = (None, frames ms, t1) ∧
    net_write (frame "S" "") t1 = (None, frames ms', t2) ∧
    forallb wf_msg ms = true ∧ forallb wf_msg ms' = true ∧
    answers ms ++ answers ms' = [("3"%char, ""); ready s] ∧ ok t2;
}.

Section sync.
Context {Hlib : PqLib} {T : Type} {Hnet : Net T} (ok : T → Prop) {Hok : Conforming ok}.
Implicit Types (c : conn (T:=T)).
Abbreviation C A := (M (conn (T:=T)) (result A)).

(** In step, or out of use. *)
Definition in_step c : Prop := bad c = false ∧ ahead c [] "" ∧ ok (c_net c).
Definition settled c : Prop := bad c = true ∨ in_step c.

(** The answers [l] are still to come. *)
Definition awaiting c (l : list msg) : Prop := bad c = false ∧ ok (c_net c) ∧ ahead c l "".

(** A run that returns, with [Q]. *)
Definition ends {A} (m : M (conn (T:=T)) A) (Q : A → conn → Prop) c : Prop := wp m Q (λ _ _, False) c.
(** ... and leaves the connection settled. *)
Definition settles {A} (m : M (conn (T:=T)) A) c : Prop := ends m (λ _, settled) c.

Lemma ends_mono {A} (m : M (conn (T:=T)) A) Q Q' c :
  ends m Q c → (∀ a c', Q a c' → Q' a c') → ends m Q' c.
Proof. intros Hm HQ. eapply wp_mono; eauto. Qed.
Lemma ends_ret {A} (a : A) (Q : A → conn → Prop) c : Q a c → ends (mret a) Q c.
Proof. done. Qed.
Lemma ends_bind {A B} (m : M (conn (T:=T)) A) (k : A → M (conn (T:=T)) B) Q c :
  ends m (λ a c', ends (k a) Q c') c → ends (m ≫= k) Q c.
Proof. apply wp_bind. Qed.
Lemma ends_bindR {A B} (m : C A) (k : A → C B) Q c :
  ends m (λ r c', match r with Ok a => ends (k a) Q c' | Err e => Q (Err e) c' end) c →
  ends (bindR m k) Q c.
Proof. apply wp_bindR. Qed.
Lemma ends_run {A} (m : M (conn (T:=T)) A) (Q : A → conn → Prop) c a c' :
  m c = (Ret a, c') → Q a c' → ends m Q c.
Proof. rewrite /ends /wp => ->. done. Qed.

Lemma in_step_awaiting c : in_step c ↔ awaiting c [].
Proof. rewrite /in_step /awaiting. tauto. Qed.
Lemma awaiting_settled c : awaiting c [] → settled c.
Proof. intros. right. by apply in_step_awaiting. Qed.
Lemma awaiting_moved t s c c' l : awaiting c l → moved t s c c' → ok t → ∀ l', ahead c' l' "" → awaiting c' l'.
Proof.
  intros (Hb & _) Hm Ht l' Ha. destruct (moved_fields _ _ _ _ Hm) as (Hn & _ & _ & _ & Hb' & _).
  split_and!; [by rewrite Hb'|by rewrite Hn|done].
Qed.

(** *** Steps *)
Lemma ends_bad_errorf {A} msg c (Q : result A → conn → Prop) :
  (∀ e c', bad c' = true → Q (Err e) c') → ends (bad_errorf (A:=A) msg) Q c.
Proof. intros HQ. apply (ends_run _ _ _ _ _ eq_refl). by apply HQ. Qed.

Lemma ends_recv1 {A} (k : msg → C A) m l c Q :
  awaiting c (m :: l) →
  (∀ c', awaiting c' l → saveMessageType c' = zero → txnStatus c' = txnStatus c → ends (k m) Q c') →
  ends (bindR recv1 k) Q c.
Proof.
  intros Hw Hk. destruct Hw as (Hb & Ho & Ha).
  destruct (recv1_answer _ _ _ _ Ha) as (c1 & Hr & Ha1 & Hs1 & Hz).
  destruct (moved_fields _ _ _ _ Hs1) as (Hn & Hx & _ & _ & Hb' & _).
  apply ends_bindR, (ends_run _ _ _ _ _ Hr). apply Hk; [|done|done].
  split_and!; [by rewrite Hb'|by rewrite Hn|done].
Qed.

Lemma ends_on_msg {A B} (p : P A) r a (k : A → C B) c Q :
  (p r).1 = Ret (Ok a) → ends (k a) Q c → ends (bindR (on_msg p r) k) Q c.
Proof. intros Hp Hk. apply ends_bindR. rewrite /ends /wp /on_msg Hp. done. Qed.

Lemma on_msg_error fs : forallb wf_error_field fs = true →
  (parseError (error_msg fs).2).1 = Ret (Ok (error_of fs)).
Proof. intros. rewrite -(str_app_nil_r (error_msg fs).2) parseError_fields //. Qed.
Lemma on_msg_complete tag : has_char zero tag = false → (r_string (complete tag).2).1 = Ret (Ok tag).
Proof. intros. by rewrite /complete /= r_string_app. Qed.

Lemma ends_ready s l c (Q : result () → conn → Prop) :
  awaiting c l → (∀ c', awaiting c' l → txnStatus c' = s → Q (Ok tt) c') →
  ends (processReadyForQuery (ready s).2) Q c.
Proof.
  intros (Hb & Ho & ms & Hp & Hx) HQ. apply (ends_run _ _ _ (Ok tt) (set_txnStatus s c)); [done|].
  apply HQ; [|done]. split_and!; [done|done|]. by exists ms.
Qed.

Lemma ends_readReady s l c (Q : result () → conn → Prop) :
  awaiting c (ready s :: l) → (∀ c', awaiting c' l → txnStatus c' = s → Q (Ok tt) c') →
  ends readReadyForQuery Q c.
Proof. intros Hw HQ. eapply ends_recv1; [exact Hw|]. intros c' Hw' _ _. by eapply ends_ready. Qed.

Lemma ends_fail {A} fs s l c (Q : result A → conn → Prop) :
  forallb wf_error_field fs = true → awaiting c (ready s :: l) →
  (∀ c', awaiting c' l → txnStatus c' = s → Q (Err (PqError (error_of fs))) c') →
  ends (fail_after_sync (A:=A) (error_msg fs).2) Q c.
Proof.
  intros Hf Hw HQ. eapply ends_on_msg; [by apply on_msg_error|].
  apply ends_bindR. eapply ends_readReady; [exact Hw|]. intros. by apply ends_ret, HQ.
Qed.

(** A write that the server answers. *)
Lemma ends_send m c b Q (R : result () → conn → Prop) :
  awaiting c [] → wrap m = b → replies ok b (c_net c) Q →
  (∀ c' l s, awaiting c' l → Q l s → txnStatus c' = txnStatus c → R (Ok tt) c') →
  ends (send m) R c.
Proof.
  intros Hw Hb (ms & s & t' & Hn & Hwf & HQ & Ht) HR.
  destruct Hw as (Hbad & _ & Ha).
  destruct (reaches_send m c ms t' [] Ha Hwf) as (c' & Hr & Ha' & Hm); [by rewrite Hb|].
  destruct (moved_fields _ _ _ _ Hm) as (Hnet' & Hx & _ & _ & Hb' & _).
  apply (ends_run _ _ _ _ _ Hr), (HR _ (answers ms) s); [|done|done].
  split_and!; [by rewrite Hb'|by rewrite Hnet'|done].
Qed.

(** *** Recovering keeps a connection settled *)
Lemma errRecover_settles {A} (err : A → option error) failed (m : C A) c :
  settles m c → settles (errRecover err failed m) c.
Proof.
  rewrite /settles /ends /wp /errRecover. destruct (m c) as [[r|e] c']; [|done].
  intros Hs. case_decide; [by left|done].
Qed.
Lemma unless_badR_settles {A} (m : M (conn (T:=T)) (result A)) c :
  settled c → (awaiting c [] → settles m c) → settles (unless_badR m) c.
Proof.
  intros [Hb|Hi%in_step_awaiting] Hm; rewrite /settles /ends /wp /unless_badR /mbind /M_bind /gets.
  - rewrite Hb. by left.
  - pose proof Hi as (Hb & _). rewrite Hb. by apply Hm.
Qed.
Lemma unless_badE_settles (m : M (conn (T:=T)) (option error)) c :
  settled c → (awaiting c [] → settles m c) → settles (unless_badE m) c.
Proof.
  intros [Hb|Hi%in_step_awaiting] Hm; rewrite /settles /ends /wp /unless_badE /mbind /M_bind /gets.
  - rewrite Hb. by left.
  - pose proof Hi as (Hb & _). rewrite Hb. by apply Hm.
Qed.

(** ** Executions *)

(** A command tag is read, or the connection is given up. *)
Lemma parseComplete_cases tag c :
  (∃ x, parseComplete tag c = (Ret (Ok x), c)) ∨
  (∃ e, parseComplete tag c = (Ret (Err e), set_bad true c)).
Proof.
  rewrite /parseComplete. destruct (affected_rows commandsWithAffectedRows tag) as [[a t]|].
  - rewrite /bindR /mbind /M_bind /=. destruct (AmqpOpen.ParseInt t 64); eauto.
  - destruct (HasPrefix tag "INSERT "); [|left; by eexists].
    destruct (Split tag " ") as [|x1 [|x2 [|x3 [|x4 l]]]]; try (right; by eexists).
    rewrite /bindR /mbind /M_bind /=. destruct (AmqpOpen.ParseInt x3 64); eauto.
Qed.
Lemma ends_complete tag c (k : Z * string → C executed) Q :
  has_char zero tag = false → (∀ x, ends (k x) Q c) → (∀ e c', bad c' = true → Q (Err e) c') →
  ends (bindR (on_msg r_string (complete tag).2) (λ tag, bindR (parseComplete tag) k)) Q c.
Proof.
  intros Ht Hk HQ. eapply ends_on_msg; [by apply on_msg_complete|]. apply ends_bindR.
  destruct (parseComplete_cases tag c) as [[x Hx]|[e He]].
  - by apply (ends_run _ _ _ _ _ Hx).
  - apply (ends_run _ _ _ _ _ He). by apply HQ.
Qed.

(** The result of an execution whose last message is ReadyForQuery [s]. *)
Definition finished (s : ascii) (r : result executed) c : Prop :=
  bad c = true ∨ (awaiting c [] ∧ txnStatus c = s).
Lemma finished_bad s e c : bad c = true → finished s (Err e) c.
Proof. by left. Qed.

Lemma simpleExec_go_results n l s c x :
  results l s → awaiting c l → (length l < n)%nat → ends (simpleExec_go n x) (finished s) c.
Proof.
  intros Hl. revert n c x.
  assert (∀ n c x, (0 < n)%nat → awaiting c [ready s] → ends (simpleExec_go n x) (finished s) c) as Hend.
  { intros [|n] c x Hn Hw; [lia|]. cbn [simpleExec_go]. eapply ends_recv1; [exact Hw|].
    intros c1 Hw1 _ _. rewrite /ready. dchars. apply ends_bindR.
    eapply (ends_ready s); [exact Hw1|]. intros c2 Hw2 Hs. apply ends_ret. by right. }
  induction Hl as [tag s Ht|s|fs s Hf|p l s Hp Hl IH]; intros [|n] c x Hw Hn; try (simpl in Hn; lia);
    cbn [simpleExec_go]; (eapply ends_recv1; [exact Hw|]); intros c1 Hw1 _ _.
  - cbn [complete]. dchars. apply (ends_complete tag); [done| |apply finished_bad].
    intros [k t]. apply Hend; [simpl in Hn; lia|done].
  - dchars. apply Hend; [simpl in Hn; lia|done].
  - cbn [error_msg]. dchars. eapply (ends_on_msg _ _ (error_of fs)); [by apply on_msg_error|].
    apply Hend; [simpl in Hn; lia|done].
  - dchars. apply IH; [done|done|simpl in Hn; lia].
Qed.

Lemma simple_answer_results l s :
  simple_answer l s → results l s ∨ ∃ cols l', l = row_desc cols :: l' ∧ wf_columns cols ∧ results l' s.
Proof.
  intros [cols l' s' Hc Hr|tag s' Ht|s'|fs s' Hf]; [right; by eauto|left; by constructor..].
Qed.

Lemma ends_fuel {A} (f : nat → C A) Q c l :
  awaiting c l → (∀ n, (length l < n)%nat → ends (f n) Q c) → ends (λ c, f (msg_fuel c) c) Q c.
Proof. intros (_ & _ & Ha) Hf. apply Hf. by eapply ahead_fuel. Qed.

(** What [simpleExec] leaves: the server's status, in step. *)
Lemma simpleExec_finishes q c :
  awaiting c [] → ends (simpleExec q) (λ r c', ∃ s, finished s r c') c.
Proof.
  intros Hw. pose proof Hw as (_ & Ho & _). apply ends_bindR.
  eapply ends_send; [done|apply wrap_query|by apply on_query|].
  intros c1 l s Hw1 Hl _. eapply (ends_mono _ (finished s)); [|by eauto].
  eapply (ends_fuel (λ n, simpleExec_go n nothing_yet)); [exact Hw1|]. intros n Hn.
  destruct (simple_answer_results _ _ Hl) as [Hr|(cols & l' & -> & Hc & Hr)];
    [by eapply simpleExec_go_results|].
  destruct n as [|n]; [lia|]. cbn [simpleExec_go]. eapply ends_recv1; [exact Hw1|].
  intros c2 Hw2 _ _. cbn [row_desc]. dchars. eapply simpleExec_go_results; [done|done|simpl in Hn; lia].
Qed.

Lemma readExecute_end n st s c x :
  (0 < n)%nat → awaiting c [ready s] → ends (readExecute_go n st x) (finished s) c.
Proof.
  destruct n as [|n]; intros Hn Hw; [lia|]. cbn [readExecute_go]. eapply ends_recv1; [exact Hw|].
  intros c1 Hw1 _ _. rewrite /ready. dchars. apply ends_bindR.
  eapply (ends_ready s); [exact Hw1|]. intros c2 Hw2 Hs. apply ends_ret. by right.
Qed.
Lemma readExecute_go_results n st l s c x :
  results l s → awaiting c l → (length l < n)%nat → ex_err x = None →
  ends (readExecute_go n st x) (finished s) c.
Proof.
  intros Hl. revert n c x.
  induction Hl as [tag s Ht|s|fs s Hf|p l s Hp Hl IH]; intros [|n] c x Hw Hn Hx; try (simpl in Hn; lia);
    cbn [readExecute_go]; (eapply ends_recv1; [exact Hw|]); intros c1 Hw1 _ _.
  - cbn [complete]. dchars. rewrite Hx. apply (ends_complete tag); [done| |apply finished_bad].
    intros [k t]. apply readExecute_end; [simpl in Hn; lia|done].
  - dchars. rewrite Hx. apply readExecute_end; [simpl in Hn; lia|done].
  - cbn [error_msg]. dchars. eapply (ends_on_msg _ _ (error_of fs)); [by apply on_msg_error|].
    apply readExecute_end; [simpl in Hn; lia|done].
  - dchars. rewrite Hx. apply IH; [done|simpl in Hn; lia|done].
Qed.
Lemma readExecuteResponse_finishes st l s c :
  results l s → awaiting c l → ends (readExecuteResponse st) (finished s) c.
Proof.
  intros Hl Hw. rewrite /readExecuteResponse. eapply (ends_fuel (λ n, readExecute_go n st nothing_yet)); [exact Hw|].
  intros n Hn. by eapply readExecute_go_results.
Qed.

(** Rows that were handed out: closed, or with results to come. *)
Definition open_rows (rs : rows) c : Prop :=
  if r_done rs then awaiting c [] else ∃ l s, results l s ∧ awaiting c l.

(** ** Closing rows drains them *)
(** What [Next] on no destination leaves: the end, or fewer results than [n]. *)
Definition stepped (s : ascii) (n : nat) (r : result (option error * bool * list value)) c : Prop :=
  (∃ e, r = Ok (Some e, true, []) ∧ e ≠ ErrBadConn ∧ awaiting c []) ∨
  (r = Ok (None, false, []) ∧ ∃ l, results l s ∧ awaiting c l ∧ (length l < n)%nat).

Lemma Next_go_end n rs s k c err :
  (0 < n)%nat → awaiting c [ready s] → err ≠ Some ErrBadConn → ends (Next_go n rs [] err) (stepped s k) c.
Proof.
  destruct n as [|n]; intros Hn Hw He; [lia|]. cbn [Next_go]. eapply ends_recv1; [exact Hw|].
  intros c1 Hw1 _ _. rewrite /ready. dchars. apply ends_bindR.
  eapply (ends_ready s); [exact Hw1|]. intros c2 Hw2 Hs. apply ends_ret. left.
  eexists. split; [done|]. destruct err; naive_solver.
Qed.

Lemma Next_go_results n rs l s c :
  results l s → awaiting c l → (length l < n)%nat → ends (Next_go n rs [] None) (stepped s (length l)) c.
Proof.
  intros Hl Hw Hn. destruct n as [|n]; [lia|]. cbn [Next_go].
  destruct Hl as [tag s Ht|s|fs s Hf|p l s Hp Hl]; (eapply ends_recv1; [exact Hw|]); intros c1 Hw1 _ _.
  - cbn [complete]. dchars. apply Next_go_end; [simpl in Hn; lia|done|done].
  - dchars. apply Next_go_end; [simpl in Hn; lia|done|done].
  - cbn [error_msg]. dchars. eapply (ends_on_msg _ _ (error_of fs)); [by apply on_msg_error|].
    apply Next_go_end; [simpl in Hn; lia|done|done].
  - dchars. rewrite /r_int16 /get_be decide_False; [|lia].
    destruct (split_at 2 p) as [a b]. cbv beta iota. rewrite Nat.min_0_r /=.
    apply ends_ret. right. split; [done|]. exists l. split_and!; [done|done|simpl; lia].
Qed.

Lemma Close_go_results n rs l s c :
  results l s → awaiting c l → (length l < n)%nat → r_done rs = false →
  ends (Close_go n rs) (λ r c', awaiting c' []) c.
Proof.
  revert l c. induction n as [|n IH]; intros l c Hl Hw Hn Hd; [lia|]. cbn [Close_go].
  pose proof Hw as (Hb & _ & Ha). apply ends_bind.
  assert (ends (Next_go (msg_fuel c) rs [] None) _ c) as HN
    by (eapply Next_go_results; [exact Hl|exact Hw|by eapply ahead_fuel]).
  rewrite /ends /wp in HN.
  destruct (Next_go (msg_fuel c) rs [] None c) as [[r|e] c1] eqn:E; [|done].
  destruct HN as [(e & -> & He & Hw1)|(-> & l' & Hl' & Hw1 & Hlt)].
  - apply (ends_run _ _ _ _ _ (Next_run rs [] c (Some e) true [] c1 Hd Hb ltac:(naive_solver) E)).
    cbv beta iota. destruct e; by apply ends_ret.
  - apply (ends_run _ _ _ _ _ (Next_run rs [] c None false [] c1 Hd Hb ltac:(naive_solver) E)).
    cbv beta iota. eapply IH; [exact Hl'|exact Hw1|lia|done].
Qed.

Lemma rows_Close_drains rs c : open_rows rs c → ends (rows_Close rs) (λ _ c', awaiting c' []) c.
Proof.
  rewrite /open_rows. destruct (r_done rs) eqn:Hd.
  - intros Hw. by apply (ends_run _ _ _ _ _ (rows_Close_done rs c Hd)).
  - intros (l & s & Hl & Hw). pose proof Hw as (_ & _ & Ha).
    eapply Close_go_results; [exact Hl|exact Hw|by eapply ahead_fuel|done].
Qed.

(** ** Queries *)
Lemma wf_columns_desc cols : wf_columns cols →
  (parsePortalRowDescribe (row_desc cols).2).1 =
  Ret (Ok (co_name <$> cols, format_of ∘ co_format <$> cols, co_type <$> cols)).
Proof. intros Hc. rewrite -(str_app_nil_r (row_desc cols).2) parsePortal_desc //. Qed.

(** What [Query] may return. *)
Definition queried (r : result (result (option rows))) c : Prop :=
  match r with
  | Ok (Ok (Some rs)) => open_rows rs c
  | Ok (Ok None) => False
  | Ok (Err e) | Err e => settled c
  end.

(** After the last result: ReadyForQuery. *)
Lemma simpleQuery_end n s c res err :
  (0 < n)%nat → awaiting c [ready s] →
  match err with None => ∃ rs, res = Some rs ∧ r_done rs = true | Some _ => True end →
  ends (simpleQuery_go n res err) queried c.
Proof.
  destruct n as [|n]; intros Hn Hw Hres; [lia|]. cbn [simpleQuery_go]. eapply ends_recv1; [exact Hw|].
  intros c1 Hw1 _ _. rewrite /ready. dchars. apply ends_bindR.
  eapply (ends_ready s); [exact Hw1|]. intros c2 Hw2 Hs. apply ends_ret.
  destruct err as [e|]; [by apply awaiting_settled|]. destruct Hres as (rs & -> & Hd). by rewrite /= /open_rows Hd.
Qed.

Lemma simpleQuery_go_results n l s c res :
  results l s → awaiting c l → (length l < n)%nat →
  (∀ p l', l = ("D"%char, p) :: l' → ∃ rs, res = Some rs ∧ r_done rs = false) →
  ends (simpleQuery_go n res None) queried c.
Proof.
  intros Hl Hw Hn Hres. destruct n as [|n]; [lia|]. cbn [simpleQuery_go].
  destruct Hl as [tag s Ht|s|fs s Hf|p l s Hp Hl]; (eapply ends_recv1; [exact Hw|]); intros c1 Hw1 Hz _.
  - cbn [complete]. dchars. eapply simpleQuery_end; [simpl in Hn; lia|done|by eexists].
  - dchars. eapply simpleQuery_end; [simpl in Hn; lia|done|by eexists].
  - cbn [error_msg]. dchars. eapply (ends_on_msg _ _ (error_of fs)); [by apply on_msg_error|].
    eapply simpleQuery_end; [simpl in Hn; lia|done|done].
  - dchars. destruct (Hres p l eq_refl) as (rs & -> & Hd).
    destruct Hw as (Hb & Ho & Ha). destruct (ahead_wf _ _ _ _ Ha) as [Hwf Hans].
    destruct Hw1 as (Hb1 & Ho1 & Ha1).
    destruct (reaches_save ("D"%char, p) l "" c1 Ha1 Hz ltac:(done) Hwf Hans) as (c2 & Hr & Ha2 & Hm2).
    destruct (moved_fields _ _ _ _ Hm2) as (Hn2 & _ & _ & _ & Hb2 & _).
    apply ends_bindR, (ends_run _ _ _ _ _ Hr), ends_ret. rewrite /queried /open_rows Hd.
    exists (("D"%char, p) :: l), s. split; [by constructor|].
    split_and!; [by rewrite Hb2|by rewrite Hn2|done].
Qed.

Lemma simpleQuery_body q c : awaiting c [] →
  ends (bindR (send (query_message q)) (λ _ c, simpleQuery_go (msg_fuel c) None None c)) queried c.
Proof.
  intros Hw. pose proof Hw as (_ & Ho & _). apply ends_bindR.
  eapply ends_send; [done|apply wrap_query|by apply on_query|]. intros c1 l s Hw1 Hl _.
  eapply (ends_fuel (λ n, simpleQuery_go n None None)); [exact Hw1|]. intros n Hn.
  destruct Hl as [cols l s Hc Hr|tag s Ht|s|fs s Hf].
  - destruct n as [|n]; [lia|]. cbn [simpleQuery_go]. eapply ends_recv1; [exact Hw1|].
    intros c2 Hw2 _ _. cbn [row_desc]. dchars.
    eapply (ends_on_msg _ _ (_, _, _)); [by apply wf_columns_desc|]. cbv beta iota.
    eapply simpleQuery_go_results; [exact Hr|done|simpl in Hn; lia|by eauto].
  - eapply simpleQuery_go_results; [by constructor|done|done|done].
  - eapply simpleQuery_go_results; [by constructor|done|done|done].
  - eapply simpleQuery_go_results; [by constructor|done|done|done].
Qed.

(** Recovering from a run that may hand out rows. *)
Definition queried_out (r : result (option rows)) c : Prop :=
  match r with
  | Ok (Some rs) => open_rows rs c
  | Ok None => False
  | Err e => settled c
  end.
Lemma recoverR_queried m c : ends m queried c → ends (recoverR m) queried_out c.
Proof.
  rewrite /ends /wp /recoverR /errRecover. destruct (m c) as [[[[[rs|]|e]|e]|e] c']; try done.
  all: intros Hs; simpl; case_decide; [by left|done].
Qed.

(** *** Parse and Describe *)
Lemma ends_readParse_ok l c (Q : result () → conn → Prop) :
  awaiting c (("1"%char, "") :: l) → (∀ c', awaiting c' l → Q (Ok tt) c') → ends readParseResponse Q c.
Proof. intros Hw HQ. eapply ends_recv1; [exact Hw|]. intros c' Hw' _ _. dchars. by apply ends_ret, HQ. Qed.
Lemma ends_readBind_ok l c (Q : result () → conn → Prop) :
  awaiting c (("2"%char, "") :: l) → (∀ c', awaiting c' l → Q (Ok tt) c') → ends readBindResponse Q c.
Proof. intros Hw HQ. eapply ends_recv1; [exact Hw|]. intros c' Hw' _ _. dchars. by apply ends_ret, HQ. Qed.

(** An error answer ends a run in step. *)
Definition ok_or_settled {A} (Q : A → conn (T:=T) → Prop) (r : result A) c : Prop :=
  match r with Ok a => Q a c | Err _ => settled c end.
Lemma ends_error {A} fs s c Q :
  forallb wf_error_field fs = true → awaiting c [ready s] →
  ends (fail_after_sync (A:=A) (error_msg fs).2) (ok_or_settled Q) c.
Proof. intros Hf Hw. eapply ends_fail; [done|exact Hw|]. intros. by apply awaiting_settled. Qed.

Lemma ends_fail_settled {A} fs s c (Q : result A → conn → Prop) :
  forallb wf_error_field fs = true → awaiting c [ready s] → (∀ e c', settled c' → Q (Err e) c') →
  ends (fail_after_sync (A:=A) (error_msg fs).2) Q c.
Proof. intros Hf Hw HQ. eapply ends_fail; [done|exact Hw|]. intros. by apply HQ, awaiting_settled. Qed.

Lemma prepareTo_ends q name c : awaiting c [] →
  ends (prepareTo q name) (ok_or_settled (λ _ c', awaiting c' [])) c.
Proof.
  intros Hw. pose proof Hw as (_ & Ho & _). apply ends_bindR.
  eapply ends_send; [done|apply wrap_prepare|by apply on_prepare|]. intros c1 l s Hw1 Hl _.
  apply ends_bindR. destruct Hl as [typs cols s Ht Hc|fs s Hf|fs s Hf].
  - eapply ends_readParse_ok; [exact Hw1|]. intros c2 Hw2. apply ends_bindR.
    pose proof Hw2 as (Hb2 & Ho2 & Ha2).
    destruct (reaches_describe typs cols c2 [ready s] "" Ht Hc Ha2) as (c3 & Hr & Ha3 & Hm3).
    apply (ends_run _ _ _ _ _ Hr). cbv beta iota. rewrite /gets. apply ends_bind.
    eapply ends_run; [reflexivity|]. destruct (decideColumnFormats (co_type <$> cols) (disablePreparedBinaryResult c3)) as [f d].
    apply ends_bindR. eapply ends_readReady; [by eapply awaiting_moved|]. intros c4 Hw4 _. by apply ends_ret.
  - eapply ends_recv1; [exact Hw1|]. intros c2 Hw2 _ _. cbn [error_msg]. dchars.
    by eapply ends_fail_settled.
  - eapply ends_readParse_ok; [exact Hw1|]. intros c2 Hw2. apply ends_bindR.
    rewrite /readStatementDescribeResponse.
    eapply (ends_fuel (λ n, readStatementDescribe_go n [])); [exact Hw2|]. intros [|n] Hn; [lia|].
    cbn [readStatementDescribe_go]. eapply ends_recv1; [exact Hw2|]. intros c3 Hw3 _ _. cbn [error_msg]. dchars.
    by eapply ends_fail_settled.
Qed.

(** *** Bind and Execute *)
Lemma results_first l s : results l s →
  (∃ m l', l = m :: l' ∧ has_char m.1 "CDI" = true) ∨
  (∃ fs, l = [error_msg fs; ready s] ∧ forallb wf_error_field fs = true).
Proof. intros []; [left; by eexists _, _..|right; by eauto|left; by eexists _, _]. Qed.

Lemma workaround_ends l s c : results l s → awaiting c l →
  ends postExecuteWorkaround (ok_or_settled (λ _ c', awaiting c' l)) c.
Proof.
  intros Hl Hw. destruct (results_first l s Hl) as [(m & l' & -> & Hm)|(fs & -> & Hf)].
  - pose proof Hw as (Hb & Ho & Ha).
    destruct (reaches_workaround m l' "" c Ha Hm) as (c' & Hr & Ha' & Hm').
    apply (ends_run _ _ _ _ _ Hr). by eapply awaiting_moved.
  - eapply ends_recv1; [exact Hw|]. intros c2 Hw2 _ _. cbn [error_msg]. dchars. by eapply ends_error.
Qed.

(** A portal that was bound is executing. *)
Definition executing (c : conn (T:=T)) : Prop := ∃ l s, results l s ∧ awaiting c l.

Lemma execute_answer_ends l s c : execute_answer l s → awaiting c l →
  ends (bindR readBindResponse (λ _, postExecuteWorkaround)) (ok_or_settled (λ _, executing)) c.
Proof.
  intros Hl Hw. apply ends_bindR. destruct Hl as [l s Hl|fs s Hf].
  - eapply ends_readBind_ok; [exact Hw|]. intros c2 Hw2.
    eapply ends_mono; [by eapply workaround_ends|]. intros [a|e] c' H; [by exists l, s|done].
  - eapply ends_recv1; [exact Hw|]. intros c2 Hw2 _ _. cbn [error_msg]. dchars.
    by eapply ends_fail_settled.
Qed.

(** The parameters do not change the connection. *)
Lemma sendBinaryParameters_run b args c done t p : builds b done t p →
  ∃ r, sendBinaryParameters b args c = (Ret r, c) ∧
    match r with Ok b' => ∃ p', builds b' done t p' | Err _ => True end.
Proof.
  intros Hb. rewrite /sendBinaryParameters /gets /mbind /M_bind.
  destruct (data _ args) as [d|e] eqn:E; rewrite /bindR /mbind /M_bind /lift_result; [|by exists (Err e)].
  eexists. split; [done|].
  destruct (existsb is_bytes args); eexists; repeat apply builds_bytes; exact Hb.
Qed.

Lemma wrap_execute b done p : builds b done "B" p →
  wrap (execute_message b) = done +:+ execute_request p.
Proof.
  intros Hb. rewrite /execute_request. etransitivity.
  { eapply wrap_builds. apply builds_next, builds_bytes, builds_bytes, builds_next, Hb. }
  by rewrite -!str_app_assoc str_app_nil_l.
Qed.
Lemma builds_bind_message st : builds (bind_message st) "" "B" (String zero "" +:+ cstr (st_name st)).
Proof.
  pose proof (builds_new "B") as H. apply (builds_bytes _ _ _ _ (String zero "")) in H.
  by apply (builds_bytes _ _ _ _ (cstr (st_name st))) in H.
Qed.

Lemma stmt_exec_ends st v c : awaiting c [] → ends (stmt_exec st v) (ok_or_settled (λ _, executing)) c.
Proof.
  intros Hw. pose proof Hw as (_ & Ho & _). rewrite /stmt_exec.
  case_decide; [apply (ends_run _ _ _ _ _ eq_refl); by apply awaiting_settled|].
  case_decide; [apply (ends_run _ _ _ _ _ eq_refl); by apply awaiting_settled|].
  apply ends_bind, (ends_run _ _ _ _ _ eq_refl).
  assert (∀ (m : C writeBuf), (∃ r, m c = (Ret r, c) ∧
    match r with Ok b' => ∃ p', builds b' "" "B" p' | Err _ => True end) →
    ends (bindR m (λ b, bindR (send (execute_message (w_bytes (st_colFmtData st) b)))
      (λ _, bindR readBindResponse (λ _, postExecuteWorkaround)))) (ok_or_settled (λ _, executing)) c) as Hsend.
  { intros m (r & Hm & Hr). apply ends_bindR, (ends_run _ _ _ _ _ Hm).
    destruct r as [b|e]; [|by apply awaiting_settled]. destruct Hr as [p' Hb]. apply ends_bindR.
    eapply ends_send; [done| |by apply on_execute|].
    { erewrite wrap_execute; [|by apply builds_bytes]. apply str_app_nil_l. }
    intros c1 l s Hw1 Hl _. by eapply execute_answer_ends. }
  apply Hsend. destruct (binaryParameters c).
  - eapply sendBinaryParameters_run. apply builds_bind_message.
  - rewrite /gets /mbind /M_bind /bindR /mbind /M_bind /lift_result.
    destruct (data _ v) as [d|e]; [|by exists (Err e)]. eexists. split; [done|].
    eexists. apply builds_bytes, builds_bytes, builds_bytes, builds_bind_message.
Qed.

(** *** Everything in one go *)
Lemma wrap_binary b q p : builds b (frame "P" (String zero "" +:+ cstr q +:+ be 2 0)) "B" p →
  wrap (execute_message (w_byte zero (w_byte "P" (w_next "D" b)))) = binary_request q p.
Proof.
  intros Hb. rewrite /binary_request. etransitivity.
  { eapply wrap_builds.
    apply builds_next, builds_bytes, builds_bytes, builds_next, builds_bytes, builds_bytes, builds_next, Hb. }
  by rewrite -!str_app_assoc !str_app_nil_l.
Qed.

Lemma binary_answer_ends {A} l s c (k : list string * list format * list Z → C A) Q :
  binary_answer l s → awaiting c l →
  (∀ d l s c', results l s → awaiting c' l → ends (k d) Q c') → (∀ e c', settled c' → Q (Err e) c') →
  ends (bindR readParseResponse (λ _, bindR readBindResponse (λ _, bindR readPortalDescribeResponse k))) Q c.
Proof.
  intros Hl Hw Hk HQ. apply ends_bindR. destruct Hl as [cols l s Hc Hl|fs s Hf|fs s Hf|fs s Hf].
  - eapply ends_readParse_ok; [exact Hw|]. intros c1 Hw1. apply ends_bindR.
    eapply ends_readBind_ok; [exact Hw1|]. intros c2 Hw2. apply ends_bindR.
    eapply ends_recv1; [exact Hw2|]. intros c3 Hw3 _ _. destruct cols as [|x cols].
    + cbn [desc_msg]. dchars. apply ends_ret. by eapply Hk.
    + cbn [desc_msg row_desc]. dchars. rewrite {1}/ends /wp /on_msg.
      pose proof (wf_columns_desc (x :: cols) Hc) as E. cbn [row_desc snd] in E. rewrite E. by eapply Hk.
  - eapply ends_recv1; [exact Hw|]. intros c2 Hw2 _ _. cbn [error_msg]. dchars.
    by eapply ends_fail_settled.
  - eapply ends_readParse_ok; [exact Hw|]. intros c1 Hw1. apply ends_bindR.
    eapply ends_recv1; [exact Hw1|]. intros c2 Hw2 _ _. cbn [error_msg]. dchars.
    by eapply ends_fail_settled.
  - eapply ends_readParse_ok; [exact Hw|]. intros c1 Hw1. apply ends_bindR.
    eapply ends_readBind_ok; [exact Hw1|]. intros c2 Hw2. apply ends_bindR.
    eapply ends_recv1; [exact Hw2|]. intros c3 Hw3 _ _. cbn [error_msg]. dchars.
    by eapply ends_fail_settled.
Qed.

Lemma sendBinaryModeQuery_ends q args c : awaiting c [] →
  ends (sendBinaryModeQuery q args)
    (ok_or_settled (λ _ c', ∃ l s, binary_answer l s ∧ awaiting c' l)) c.
Proof.
  intros Hw. pose proof Hw as (_ & Ho & _). rewrite /sendBinaryModeQuery.
  case_decide; [apply (ends_run _ _ _ _ _ eq_refl); by apply awaiting_settled|].
  apply ends_bindR.
  assert (builds (w_int16 0 (w_next "B" (w_int16 0 (w_string q (w_byte zero (new_writeBuf "P"))))))
    (frame "P" (String zero "" +:+ cstr q +:+ be 2 0)) "B" (be 2 0)) as Hb.
  { pose proof (builds_bytes _ _ _ _ (be 2 0) (builds_next _ _ _ _ "B" (builds_bytes _ _ _ _ (be 2 0)
      (builds_bytes _ _ _ _ (cstr q) (builds_bytes _ _ _ _ (String zero "") (builds_new "P")))))) as H'.
    rewrite !str_app_nil_l /cstr -!str_app_assoc in H'. rewrite /cstr -!str_app_assoc. exact H'. }
  destruct (sendBinaryParameters_run _ args c _ _ _ Hb) as (r & Hr & Hb').
  apply (ends_run _ _ _ _ _ Hr). destruct r as [b|e]; [|by apply awaiting_settled].
  destruct Hb' as [p Hb']. eapply ends_send; [done| |by apply on_binary|].
  { by eapply wrap_binary, builds_bytes. }
  intros c1 l s Hw1 Hl _. by exists l, s.
Qed.

(** ** The operations *)
Lemma Query_ends q args c : awaiting c [] → ends (Query q args) queried_out c.
Proof.
  intros Hw. pose proof Hw as (Hb & _). rewrite /Query /unless_badR. apply ends_bind.
  apply (ends_run _ _ _ false c); [by rewrite /gets Hb|]. cbv beta iota. apply recoverR_queried.
  case_decide.
  - apply ends_bind. eapply ends_mono; [apply recoverR_queried, simpleQuery_body, Hw|].
    by intros [[rs|]|e] c' Hq.
  - apply ends_bind, (ends_run _ _ _ _ _ eq_refl). destruct (binaryParameters c).
    + apply ends_bindR. eapply ends_mono; [by apply sendBinaryModeQuery_ends|].
      intros [[]|e] c1; [|done]. intros (l & s & Hl & Hw1).
      eapply binary_answer_ends; [exact Hl|exact Hw1| |done].
      intros [[names fmts] typs] l' s' c2 Hl2 Hw2. apply ends_bindR.
      eapply ends_mono; [by eapply workaround_ends|]. intros [a|e] c3 Hw3; [|done].
      apply ends_ret. by exists l', s'.
    + apply ends_bindR. eapply ends_mono; [by apply prepareTo_ends|].
      intros [st|e] c1 Hw1; [|done]. apply ends_bindR.
      eapply ends_mono; [by apply stmt_exec_ends|]. intros [[]|e] c2 Hx; [|done]. by apply ends_ret.
Qed.

(** An execution that was finished leaves the connection settled. *)
Lemma finished_settled s r c : finished s r c → settled c.
Proof. intros [Hb|[Hw _]]; [by left|by apply awaiting_settled]. Qed.

Lemma executing_response st c : executing c →
  settles (bindR (readExecuteResponse st) (λ x, mret (Ok (executed_result x)))) c.
Proof.
  intros (l & s & Hl & Hw). apply ends_bindR.
  eapply ends_mono; [by eapply readExecuteResponse_finishes|].
  intros [x|e] c' Hf; [apply ends_ret|]; by eapply finished_settled.
Qed.

Lemma stmt_Exec_settles st v c : settled c → settles (stmt_Exec st v) c.
Proof.
  intros Hs. apply unless_badR_settles; [done|]. intros Hw. apply errRecover_settles, ends_bindR.
  eapply ends_mono; [by apply stmt_exec_ends|]. intros [[]|e] c1 Hx; [|done]. by apply executing_response.
Qed.

Lemma Exec_settles q args c : settled c → settles (Exec q args) c.
Proof.
  intros Hs. apply unless_badR_settles; [done|]. intros Hw. apply errRecover_settles. case_decide.
  - apply ends_bindR. eapply ends_mono; [by apply simpleExec_finishes|].
    intros [x|e] c' [s Hf]; [apply ends_ret|]; by eapply finished_settled.
  - apply ends_bind, (ends_run _ _ _ _ _ eq_refl). destruct (binaryParameters c).
    + apply ends_bindR. eapply ends_mono; [by apply sendBinaryModeQuery_ends|].
      intros [[]|e] c1; [|done]. intros (l & s & Hl & Hw1).
      eapply binary_answer_ends; [exact Hl|exact Hw1| |done].
      intros d l' s' c2 Hl2 Hw2. apply ends_bindR.
      eapply ends_mono; [by eapply workaround_ends|]. intros [a|e] c3 Hw3; [|done].
      apply executing_response. by exists l', s'.
    + apply ends_bindR. eapply ends_mono; [by apply prepareTo_ends|].
      intros [st|e] c1 Hw1; [|done]. apply ends_bindR.
      eapply ends_mono; [apply stmt_Exec_settles, awaiting_settled, Hw1|].
      intros [r|e] c2 Hs2; [by apply ends_ret|done].
Qed.

(** A query whose rows are closed. *)
Definition close_queried (r : result (option rows)) : M (conn (T:=T)) () :=
  match r with
  | Ok (Some rs) => rows_Close rs;; mret tt
  | Ok None => throw nil_deref
  | Err _ => mret tt
  end.
Lemma close_queried_settles r c : queried_out r c → settles (close_queried r) c.
Proof.
  destruct r as [[rs|]|e]; [|done|by apply ends_ret]. intros Ho. apply ends_bind.
  eapply ends_mono; [by apply rows_Close_drains|]. intros a c' Hw. by apply ends_ret, awaiting_settled.
Qed.

Lemma bad_stays {A} (m : M (conn (T:=T)) (result A)) c : bad c = true → unless_badR m c = (Ret (Err ErrBadConn), c).
Proof. intros Hb. by rewrite /unless_badR /mbind /M_bind /gets Hb. Qed.
Lemma bad_staysE (m : M (conn (T:=T)) (option error)) c : bad c = true → unless_badE m c = (Ret (Some ErrBadConn), c).
Proof. intros Hb. by rewrite /unless_badE /mbind /M_bind /gets Hb. Qed.

Lemma Query_Close_settles q args c : settled c → settles (Query q args ≫= close_queried) c.
Proof.
  intros [Hb|Hw%in_step_awaiting]; apply ends_bind.
  - apply (ends_run _ _ _ _ _ (bad_stays _ _ Hb)), ends_ret. by left.
  - eapply ends_mono; [by apply Query_ends|]. intros r c'. apply close_queried_settles.
Qed.

Definition close_rows (r : result rows) : M (conn (T:=T)) () :=
  match r with Ok rs => rows_Close rs;; mret tt | Err _ => mret tt end.
Lemma stmt_Query_Close_settles st v c : settled c → settles (stmt_Query st v ≫= close_rows) c.
Proof.
  intros [Hb|Hw%in_step_awaiting]; apply ends_bind.
  - apply (ends_run _ _ _ _ _ (bad_stays _ _ Hb)), ends_ret. by left.
  - pose proof Hw as (Hb & _). rewrite /stmt_Query /unless_badR. apply ends_bind.
    apply (ends_run _ _ _ false c); [by rewrite /gets Hb|]. cbv beta iota.
    pose proof (stmt_exec_ends st v c Hw) as Hx. rewrite /ends /wp in Hx.
    rewrite /ends /wp /recoverR /errRecover.
    destruct (stmt_exec st v c) as [[[[]|e]|e] c1] eqn:E; [| |done].
    + rewrite (bindR_run _ _ _ _ _ E) /=.
      eapply (ends_bind (rows_Close _)), ends_mono; [apply rows_Close_drains; exact Hx|].
      intros a c' Hw'. by apply ends_ret, awaiting_settled.
    + rewrite (bindR_err _ _ _ _ _ E) /=. case_decide; [by left|done].
Qed.

Lemma awaiting_namei n c l : awaiting c l → awaiting (set_namei n c) l.
Proof. intros (Hb & Ho & ms & Hp & H). split_and!; [done|done|]. by exists ms. Qed.

Lemma Prepare_settles q c : is_copy q = false → settled c → settles (Prepare q) c.
Proof.
  intros Hq Hs. apply unless_badR_settles; [done|]. intros Hw. apply errRecover_settles. rewrite Hq.
  apply ends_bind, (ends_run _ _ _ (AmqpOpen.FormatInt (namei c + 1)) (set_namei (namei c + 1) c)); [done|].
  apply ends_bindR. eapply ends_mono; [by apply prepareTo_ends, awaiting_namei|].
  intros [st|e] c1 Hw1; [|done]. by apply ends_ret, awaiting_settled.
Qed.

Lemma stmt_Close_settles st c : settled c → settles (stmt_Close st) c.
Proof.
  intros Hs. rewrite /stmt_Close. destruct (st_closed st); [by apply ends_ret|].
  destruct Hs as [Hb|Hw%in_step_awaiting].
  { apply ends_bind, (ends_run _ _ _ true c); [by rewrite /gets Hb|]. apply ends_ret. by left. }
  pose proof Hw as (Hb & Ho & Ha).
  apply ends_bind, (ends_run _ _ _ false c); [by rewrite /gets Hb|]. cbv beta iota.
  apply errRecover_settles. rewrite /stmt_Close_body.
  destruct (on_close (st_name st) (c_net c) Ho) as (ms & t1 & ms' & s & t2 & Hn1 & Hn2 & Hw1 & Hw2 & Hans & Ho2).
  destruct (reaches_send (close_message st) c ms t1 [] Ha Hw1) as (c1 & Hr1 & Ha1 & Hm1).
  { by rewrite -Hn1. }
  destruct (moved_fields _ _ _ _ Hm1) as (Ht1 & Hs1 & _ & _ & Hb1 & _).
  destruct (reaches_send (new_writeBuf "S") c1 ms' t2 (answers ms) Ha1 Hw2) as (c2 & Hr2 & Ha2 & Hm2).
  { by rewrite Ht1 -Hn2. }
  destruct (moved_fields _ _ _ _ Hm2) as (Ht2 & Hs2 & _ & _ & Hb2 & _).
  apply ends_bindR, (ends_run _ _ _ _ _ Hr1), ends_bindR, (ends_run _ _ _ _ _ Hr2).
  rewrite Hans in Ha2.
  assert (awaiting c2 [("3"%char, ""); ready s]) as Hw2'
    by (split_and!; [by rewrite Hb2 Hb1|by rewrite Ht2|done]).
  eapply ends_recv1; [exact Hw2'|]. intros c3 Hw3 _ _. dchars.
  assert (ends close_ready
    (λ r c', r = Ok tt ∧ awaiting c' []) c3) as Hr.
  { eapply ends_recv1; [exact Hw3|]. intros c4 Hw4 _ _. rewrite /ready.
    cbv beta iota. destruct (decide ("Z"%char ≠ "Z"%char)); [done|].
    eapply (ends_ready s); [exact Hw4|]. done. }
  rewrite /ends /wp in Hr |- *.
  destruct (close_ready c3) as [[r|e] c5]; [|done].
  destruct Hr as [-> Hw5]. by apply awaiting_settled.
Qed.

(** *** Transactions *)
Lemma checkIsInTransaction_cases b c :
  (checkIsInTransaction b c = (Ret (Ok tt), c) ∧ is_in_transaction (txnStatus c) = b) ∨
  (∃ e, checkIsInTransaction b c = (Ret (Err e), set_bad true c)).
Proof.
  rewrite /checkIsInTransaction /isInTransaction /gets /mbind /M_bind.
  case_decide as Hd; [right; by eexists|]. left. split; [done|].
  destruct (is_in_transaction (txnStatus c)), b; try done; by destruct Hd.
Qed.
Lemma ends_check {A} b c (k : () → C A) Q :
  (is_in_transaction (txnStatus c) = b → ends (k tt) Q c) → (∀ e c', bad c' = true → Q (Err e) c') →
  ends (bindR (checkIsInTransaction b) k) Q c.
Proof.
  intros Hk HQ. apply ends_bindR. destruct (checkIsInTransaction_cases b c) as [[Hr Hb]|[e Hr]].
  - apply (ends_run _ _ _ _ _ Hr). by apply Hk.
  - apply (ends_run _ _ _ _ _ Hr). by apply HQ.
Qed.
Lemma fail_transaction_settles e c : settled c → settles (fail_transaction e) c.
Proof.
  intros Hs. apply ends_bind, (ends_run _ _ _ _ _ eq_refl).
  destruct (is_in_transaction (txnStatus c)); apply (ends_run _ _ _ _ _ eq_refl); [by left|done].
Qed.

Lemma Begin_settles c : settled c → settles Begin c.
Proof.
  intros Hs. apply unless_badE_settles; [done|]. intros Hw. apply errRecover_settles.
  apply ends_check; [|by left]. intros _. apply ends_bindR.
  eapply ends_mono; [by apply simpleExec_finishes|].
  intros [x|e] c1 [s Hf%finished_settled]; [|done]. destruct (ex_err x); [by apply ends_ret|].
  apply ends_bind, (ends_run _ _ _ _ _ eq_refl).
  case_decide; [apply (ends_run _ _ _ _ _ eq_refl); by left|].
  case_decide; [apply (ends_run _ _ _ _ _ eq_refl); by left|]. by apply ends_ret.
Qed.

Lemma Rollback_settles c : settled c → settles Rollback c.
Proof.
  intros Hs. apply unless_badE_settles; [done|]. intros Hw. apply errRecover_settles.
  apply ends_check; [|by left]. intros _. apply ends_bindR.
  eapply ends_mono; [by apply simpleExec_finishes|].
  intros [x|e] c1 [s Hf%finished_settled]; [|done]. destruct (ex_err x); [by apply fail_transaction_settles|].
  case_decide; [by apply ends_ret|]. apply ends_check; [|by left]. intros _. by apply ends_ret.
Qed.

Lemma Commit_settles c : settled c → settles Commit c.
Proof.
  intros Hs. apply unless_badE_settles; [done|]. intros Hw. apply errRecover_settles.
  apply ends_check; [|by left]. intros _. apply ends_bind, (ends_run _ _ _ _ _ eq_refl). case_decide.
  { apply ends_bind. eapply ends_mono; [by apply Rollback_settles|]. intros e c1 Hs1. by apply ends_ret. }
  apply ends_bindR. eapply ends_mono; [by apply simpleExec_finishes|].
  intros [x|e] c1 [s Hf%finished_settled]; [|done]. destruct (ex_err x); [by apply fail_transaction_settles|].
  case_decide; [apply (ends_run _ _ _ _ _ eq_refl); by left|].
  apply ends_check; [|by left]. intros _. by apply ends_ret.
Qed.

(** ** Sequences of operations *)
Inductive op :=
| OExec (q : string) (args : list value)
| OQuery (q : string) (args : list value)
| OPrepare (q : string)
| OStmtExec (i : nat) (args : list value)
| OStmtQuery (i : nat) (args : list value)
| OStmtClose (i : nat)
| OBegin
| OCommit
| ORollback.

(** An operation of [database/sql] on the connection and its prepared statements;
    the rows of a query are closed. *)
Definition run_op (o : op) (sts : list stmt) : M (conn (T:=T)) (list stmt) :=
  match o with
  | OExec q args => Exec q args;; mret sts
  | OQuery q args => (Query q args ≫= close_queried);; mret sts
  | OPrepare q =>
      r ← Prepare q; mret match r with Ok (DStmt st) => sts ++ [st] | _ => sts end
  | OStmtExec i args => match sts !! i with Some st => stmt_Exec st args;; mret sts | None => mret sts end
  | OStmtQuery i args =>
      match sts !! i with Some st => (stmt_Query st args ≫= close_rows);; mret sts | None => mret sts end
  | OStmtClose i =>
      match sts !! i with
      | Some st => '(_, st) ← stmt_Close st; mret (<[i := st]> sts)
      | None => mret sts
      end
  | OBegin => Begin;; mret sts
  | OCommit => Commit;; mret sts
  | ORollback => Rollback;; mret sts
  end.
Fixpoint run_ops (os : list op) (sts : list stmt) : M (conn (T:=T)) (list stmt) :=
  match os with
  | [] => mret sts
  | o :: os => sts ← run_op o sts; run_ops os sts
  end.

(** COPY is not among them. *)
Definition no_copy (o : op) : bool := match o with OPrepare q => negb (is_copy q) | _ => true end.

Lemma seq_settles {A B} (m : M (conn (T:=T)) A) (f : A → B) c :
  settles m c → settles (a ← m; mret (f a)) c.
Proof. intros Hm. apply ends_bind. eapply ends_mono; [exact Hm|]. intros. by apply ends_ret. Qed.

Lemma run_op_settles o sts c : no_copy o = true → settled c → settles (run_op o sts) c.
Proof.
  intros Hc Hs. destruct o as [q args|q args|q|i args|i args|i| | |]; cbn [run_op].
  - by apply (seq_settles _ (λ _, sts)), Exec_settles.
  - by apply (seq_settles _ (λ _, sts)), Query_Close_settles.
  - apply (seq_settles _ (λ r, match r with Ok (DStmt st) => sts ++ [st] | _ => sts end)), Prepare_settles; [|done].
    by apply negb_true_iff.
  - destruct (sts !! i); [by apply (seq_settles _ (λ _, sts)), stmt_Exec_settles|by apply ends_ret].
  - destruct (sts !! i); [by apply (seq_settles _ (λ _, sts)), stmt_Query_Close_settles|by apply ends_ret].
  - destruct (sts !! i); [|by apply ends_ret].
    apply ends_bind. eapply ends_mono; [by apply stmt_Close_settles|]. intros [e st] c' Hs'. by apply ends_ret.
  - by apply (seq_settles _ (λ _, sts)), Begin_settles.
  - by apply (seq_settles _ (λ _, sts)), Commit_settles.
  - by apply (seq_settles _ (λ _, sts)), Rollback_settles.
Qed.

Lemma run_ops_settles os sts c : forallb no_copy os = true → settled c → settles (run_ops os sts) c.
Proof.
  revert sts c. induction os as [|o os IH]; intros sts c Hc Hs; [by apply ends_ret|].
  apply andb_true_iff in Hc as [Ho Hc]. apply ends_bind.
  eapply ends_mono; [by apply run_op_settles|]. intros sts' c' Hs'. by apply IH.
Qed.
End sync.
End PqSync.
