(* ===== verification/PqCodec.v ===== *)
(** * lib/pq: encodings and their inverses

    What the encodings of [encode.go] and the texts of [copy.go] and [conn.go] mean
    to the server: readers for the text format of COPY and for quoted identifiers,
    and the facts that the package's writers are inverted by them, and by its own
    readers. *)

From S2P Require Import Prelude GoStrings GoUrl GoFloat Memcache AmqpWire AmzSign AmqpOpen PqBuf PqEncode PqConn PqCopy PqSession.

Module PqCodec.
Import AmqpWire PqBuf PqEncode PqConn PqCopy PqSession.

(** ** [bytea] *)
Lemma hex_char c s :
  hex_Decode (String (hexd AmzSign.hex_lower (N.shiftr (N_of_ascii c) 4))
    (String (hexd AmzSign.hex_lower (N.land (N_of_ascii c) 15)) s)) =
  match hex_Decode s with Ok r => Ok (String c r) | Err e => Err e end.
Proof.
  cbn [hex_Decode].
  assert (fromHexChar (hexd AmzSign.hex_lower (N.shiftr (N_of_ascii c) 4)) = Some (N.shiftr (N_of_ascii c) 4)
    ∧ fromHexChar (hexd AmzSign.hex_lower (N.land (N_of_ascii c) 15)) = Some (N.land (N_of_ascii c) 15)
    ∧ ascii_of_N (N.lor (N.shiftl (N.shiftr (N_of_ascii c) 4) 4) (N.land (N_of_ascii c) 15)) = c)
    as (-> & -> & Hc).
  { all_bytes c. }
  by rewrite Hc.
Qed.
Lemma hex_Decode_hex s : hex_Decode (AmzSign.hex s) = Ok s.
Proof.
  induction s as [|c s IH]; [done|].
  change (AmzSign.hex (String c s)) with
    (String (hexd AmzSign.hex_lower (N.shiftr (N_of_ascii c) 4))
      (String (hexd AmzSign.hex_lower (N.land (N_of_ascii c) 15)) (AmzSign.hex s))).
  by rewrite hex_char IH.
Qed.

(** A byte that the legacy format leaves as it is. *)
Definition raw (c : ascii) : bool := bool_decide (escape_byte c = String c "").
Lemma flat_raw s : all_chars raw s = true → flat_map_str escape_byte s = s.
Proof.
  induction s as [|c s IH]; [done|]. cbn. intros [Hc Hs]%andb_true_iff.
  apply bool_decide_eq_true in Hc. rewrite Hc IH //.
Qed.
Lemma raw_backslash s : all_chars raw s = true → has_char backslash s = false.
Proof. intros H. by eapply all_chars_has. Qed.
Lemma take_until_None c s : has_char c s = false → take_until c s = None.
Proof.
  induction s as [|d s IH]; [done|]. cbn. intros [Hd Hs]%orb_false_iff.
  apply bool_decide_eq_false in Hd. rewrite decide_False; [|naive_solver]. by rewrite IH.
Qed.
Lemma span_raw s : ∃ r u, s = r +:+ u ∧ all_chars raw r = true ∧
  (u = "" ∨ ∃ c u', u = String c u' ∧ raw c = false).
Proof.
  induction s as [|c s (r & u & -> & Hr & Hu)]; [by exists "", ""; eauto|].
  destruct (raw c) eqn:Hc.
  - exists (String c r), u. split_and!; [done|by rewrite /= Hc Hr|done].
  - exists "", (String c (r +:+ u)). split_and!; [done|done|]. right. by eexists _, _.
Qed.
(** Three octal digits read back as the byte they stand for. *)
Definition octal_reads (c : ascii) : bool :=
  match octal c with
  | String x (String a (String b (String d ""))) =>
      bool_decide (x = backslash) && negb (bool_decide (a = backslash)) &&
      match ParseIntBase (String a (String b (String d ""))) 8 9 with
      | Ok z => bool_decide (byte_of z = c)
      | Err _ => false end
  | _ => false
  end.
Lemma octal_ok c : octal_reads c = true.
Proof. all_bytes c. Qed.
Lemma octal_parts c : ∃ a b d z, octal c = String backslash (String a (String b (String d ""))) ∧
  a ≠ backslash ∧ ParseIntBase (String a (String b (String d ""))) 8 9 = Ok z ∧ byte_of z = c.
Proof.
  pose proof (octal_ok c) as H. rewrite /octal_reads in H. cbn in H.
  apply andb_true_iff in H as [[_ Ha]%andb_true_iff H]. rewrite /octal.
  match type of H with match ?p with _ => _ end = true => destruct p as [z|e] eqn:E end; [|done].
  eexists _, _, _, z. split; [done|]. split; [by apply negb_true_iff, bool_decide_eq_false in Ha|].
  split; [exact E|]. by apply bool_decide_eq_true in H.
Qed.

(** An escaped byte begins with a backslash and is read back. *)
Lemma parse_escaped c n s acc : raw c = false →
  parseBytea_go (S n) (escape_byte c +:+ s) acc = parseBytea_go n s (acc +:+ String c "").
Proof.
  rewrite /raw /escape_byte. case_decide as Hc.
  { intros _. subst c. by cbn. }
  case_decide; [|by rewrite bool_decide_eq_true_2]. intros _.
  destruct (octal_parts c) as (a & b & d & z & -> & Ha & Hp & Hz).
  cbn [parseBytea_go]. rewrite !str_app_cons str_app_nil_l.
  destruct (decide (backslash = backslash)) as [_|[]]; [|done].
  destruct (decide (a = backslash)) as [?|_]; [done|].
  match goal with |- context [@decide ?P ?i] => destruct (@decide P i) as [Hl|_]; [exfalso; cbn in Hl; lia|] end.
  change (String a (String b (String d s))) with (String a (String b (String d "")) +:+ s).
  change 3 with (String.length (String a (String b (String d "")))). rewrite split_at_app. by rewrite Hp Hz.
Qed.
Lemma escaped_backslash c : raw c = false → ∃ t, escape_byte c = String backslash t.
Proof.
  rewrite /raw /escape_byte. case_decide; [by eexists|]. case_decide; [|by rewrite bool_decide_eq_true_2].
  intros _. destruct (octal_parts c) as (a & b & d & z & -> & _). by eexists.
Qed.

Lemma parseBytea_go_flat k s n acc :
  (String.length s ≤ k)%nat → (String.length (flat_map_str escape_byte s) < n)%nat →
  parseBytea_go n (flat_map_str escape_byte s) acc = Ret (Ok (acc +:+ s)).
Proof.
  revert s n acc. induction k as [|k IH]; intros s n acc Hk Hn.
  { destruct s; [|simpl in Hk; lia]. destruct n; [simpl in Hn; lia|]. by rewrite /= str_app_nil_r. }
  destruct (span_raw s) as (r & u & -> & Hr & Hu). rewrite flat_map_str_app (flat_raw r Hr) in Hn |- *.
  rewrite str_length_app in Hn. rewrite str_length_app in Hk.
  assert (∀ n acc, (String.length (flat_map_str escape_byte u) < n)%nat → (String.length u ≤ S k)%nat →
    parseBytea_go n (flat_map_str escape_byte u) acc = Ret (Ok (acc +:+ u))) as Hu'.
  { clear Hn Hk n acc. intros n acc Hn Hk. destruct Hu as [-> |(c & u' & -> & Hc)].
    { destruct n; [simpl in Hn; lia|]. by rewrite /= str_app_nil_r. }
    destruct n as [|n]; [simpl in Hn; lia|]. cbn [flat_map_str] in Hn |- *. rewrite parse_escaped //.
    destruct (escaped_backslash c Hc) as [t Ht]. rewrite Ht str_length_app /= in Hn.
    rewrite IH; [|simpl in *; lia..]. by rewrite -str_app_assoc. }
  destruct r as [|x r].
  { rewrite !str_app_nil_l. apply Hu'; simpl in *; lia. }
  pose proof (raw_backslash _ Hr) as Hb. destruct n as [|n]; [lia|].
  assert (x ≠ backslash) as Hx by (intros ->; discriminate Hb).
  rewrite str_app_cons. cbn [parseBytea_go]. destruct (decide (x = backslash)) as [?|_]; [done|].
  rewrite -str_app_cons.
  destruct Hu as [-> |(c & u' & -> & Hc)].
  - cbn [flat_map_str]. rewrite !str_app_nil_r. by rewrite take_until_None.
  - destruct (escaped_backslash c Hc) as [t Ht]. rewrite {1}/flat_map_str -/flat_map_str Ht.
    rewrite (str_app_cons backslash t) take_until_app //.
    rewrite -(str_app_cons backslash t) -Ht -/(flat_map_str escape_byte (String c u')).
    rewrite Hu'; [|simpl in *; lia..]. by rewrite -!str_app_assoc.
Qed.

Lemma parseBytea_encodeBytea v s : parseBytea (encodeBytea v s) = Ret (Ok s).
Proof.
  rewrite /encodeBytea. case_decide.
  - rewrite /parseBytea strip_prefix_app hex_Decode_hex //.
  - rewrite /parseBytea. destruct (strip_prefix "\x" (flat_map_str escape_byte s)) as [h|] eqn:E.
    + exfalso. apply strip_prefix_Some in E. destruct s as [|c s]; [done|]. cbn [flat_map_str] in E.
      revert E. rewrite /escape_byte. case_decide; [done|]. case_decide as Ho.
      * destruct (octal_parts c) as (a & b & d & z & Hoc & _ & Hp & _).
        rewrite Hoc !str_app_cons. intros [= -> _]. by cbn in Hp.
      * rewrite str_app_cons. intros [= -> _]. done.
    + rewrite (parseBytea_go_flat (String.length s)); [done|lia..].
Qed.

(** ** The text format of COPY *)

(** What the server makes of a field: [\N] is a null; otherwise a backslash and the
    byte after it stand for one byte. *)
Fixpoint unescape (s : string) : string :=
  match s with
  | "" => ""
  | String c t =>
      if decide (c = backslash) then
        match t with
        | "" => String c ""
        | String d t' =>
            String (if decide (d = "n"%char) then "010"%char else if decide (d = "r"%char) then "013"%char
                    else if decide (d = "t"%char) then "009"%char else d) (unescape t')
        end
      else String c (unescape t)
  end.
Definition copy_field (s : string) : option string := if decide (s = "\N") then None else Some (unescape s).
Definition copy_line (s : string) : list (option string) := copy_field <$> Split s "009".
(** All complete lines of a text. *)
Definition copy_lines (s : string) : list (list (option string)) :=
  copy_line <$> removelast (Split s "010").

Lemma appendEscapedText_flat buf s : appendEscapedText buf s = buf +:+ flat_map_str escape_char s.
Proof.
  rewrite /appendEscapedText.
  assert (∀ s, let '(clean, rest) := clean_prefix s in
    s = clean +:+ rest ∧ flat_map_str escape_char clean = clean) as Hc.
  { clear. induction s as [|c s IH]; [done|]. cbn [clean_prefix].
    destruct (needs_escape c) eqn:E; [done|]. destruct (clean_prefix s) as [a b].
    destruct IH as [-> IH]. split; [done|]. cbn [flat_map_str]. rewrite IH.
    assert (escape_char c = String c "") as ->; [|done].
    revert E. clear. all_bytes c. }
  specialize (Hc s). destruct (clean_prefix s) as [clean rest]. destruct Hc as [-> Hc].
  rewrite flat_map_str_app Hc. case_decide as H; [subst rest; by rewrite /= !str_app_nil_r|done].
Qed.

Lemma unescape_escape s : unescape (flat_map_str escape_char s) = s.
Proof.
  induction s as [|c s IH]; [done|]. cbn [flat_map_str].
  rewrite -{2}IH. generalize (flat_map_str escape_char s). intros t.
  rewrite /escape_char. case_decide; [by subst|]. case_decide; [by subst|]. case_decide; [by subst|].
  case_decide; [by subst|]. rewrite str_app_cons str_app_nil_l. cbn [unescape]. by rewrite decide_False.
Qed.
Lemma escape_no_tab s : has_char "009" (flat_map_str escape_char s) = false.
Proof. eapply (all_chars_has (λ c, negb (bool_decide (c = "009"%char)))); [|done]. apply (all_chars_flat (λ _, true)); [|apply all_chars_any]. intros c _. all_bytes c. Qed.
Lemma escape_no_newline s : has_char "010" (flat_map_str escape_char s) = false.
Proof. eapply (all_chars_has (λ c, negb (bool_decide (c = "010"%char)))); [|done]. apply (all_chars_flat (λ _, true)); [|apply all_chars_any]. intros c _. all_bytes c. Qed.
Lemma escape_not_null s : flat_map_str escape_char s ≠ "\N".
Proof.
  destruct s as [|c s]; [done|]. cbn [flat_map_str]. rewrite /escape_char.
  do 4 (case_decide; [by subst|]). rewrite str_app_cons str_app_nil_l. intros [= -> _]. done.
Qed.

(** A text with nothing to escape in it. *)
Definition clean (s : string) : bool := all_chars (λ c, negb (needs_escape c)) s.
Lemma clean_escape s : clean s = true → flat_map_str escape_char s = s.
Proof.
  induction s as [|c s IH]; [done|]. cbn. intros [Hc Hs]%andb_true_iff. rewrite IH //.
  assert (escape_char c = String c "") as ->; [|done]. revert Hc. clear. all_bytes c.
Qed.
Lemma clean_FormatInt z : clean (AmqpOpen.FormatInt z) = true.
Proof.
  assert (∀ s, all_chars Memcache.is_dec s = true → clean s = true) as Hd.
  { induction s as [|c s IH]; [done|].
    cbn. intros [Hc Hs]%andb_true_iff. rewrite -/(clean s) IH // andb_true_r. revert Hc. clear. all_bytes c. }
  rewrite /AmqpOpen.FormatInt. destruct z as [|p|p]; [done|apply Hd, Memcache.pretty_chars|].
  change (pretty (Z.neg p)) with ("-" +:+ pretty (Npos p)). rewrite /clean all_chars_app.
  change (clean (pretty (Npos p)) = true). apply Hd, Memcache.pretty_chars.
Qed.

Lemma no_char_Join c l sep :
  has_char c sep = false → Forall (λ x, has_char c x = false) l → has_char c (Join l sep) = false.
Proof.
  intros Hsep Hl. induction Hl as [|x l Hx Hl IH]; [done|]. destruct l; [done|].
  cbn [Join]. by rewrite !has_char_app Hx Hsep.
Qed.

Section copy.
Context {Hlib : PqLib}.

(** The text of a value; a null has none. *)
Definition value_text (g : globals) (ps : parameterStatus) (x : value) : option string :=
  match x with
  | VNil | VOther _ => None
  | VInt v => Some (AmqpOpen.FormatInt v)
  | VFloat v => Some (FormatFloat v)
  | VBool v => Some (FormatBool v)
  | VBytes v => Some (encodeBytea (serverVersion ps) v)
  | VString v => Some v
  | VTime v => Some (formatTs g v)
  end.
(** A value that can be copied; the texts of floats and times are the standard
    library's. *)
Definition copyable (g : globals) (x : value) : bool :=
  match x with
  | VFloat v => clean (FormatFloat v)
  | VTime v => clean (formatTs g v)
  | VOther _ => false
  | _ => true
  end.

(** The bytes that stand for a value. *)
Definition field_bytes (g : globals) (ps : parameterStatus) (x : value) : string :=
  match value_text g ps x with None => "\N" | Some s => flat_map_str escape_char s end.

Lemma appendEncodedText_field g ps buf x :
  copyable g x = true → appendEncodedText g ps buf x = Ok (buf +:+ field_bytes g ps x).
Proof.
  rewrite /field_bytes. destruct x; cbn [copyable appendEncodedText value_text]; intros H; try done.
  - by rewrite clean_escape // clean_FormatInt.
  - by rewrite clean_escape.
  - by destruct b.
  - by rewrite appendEscapedText_flat.
  - by rewrite appendEscapedText_flat.
  - by rewrite clean_escape.
Qed.

Lemma field_bytes_read g ps x : copyable g x = true →
  copy_field (field_bytes g ps x) = value_text g ps x ∧
  has_char "009" (field_bytes g ps x) = false ∧ has_char "010" (field_bytes g ps x) = false.
Proof.
  intros _. rewrite /field_bytes /copy_field. destruct (value_text g ps x) as [s|]; [|done].
  rewrite decide_False; [|apply escape_not_null]. rewrite unescape_escape.
  split_and!; [done|apply escape_no_tab|apply escape_no_newline].
Qed.

(** A row: its fields with tabs between them. *)
Definition row_bytes (g : globals) (ps : parameterStatus) (v : list value) : string :=
  Join (field_bytes g ps <$> v) (String "009" "").

Lemma append_values_row g ps buf v :
  forallb (copyable g) v = true → append_values g ps buf v = Ok (buf +:+ row_bytes g ps v).
Proof.
  rewrite /row_bytes. revert buf. induction v as [|x v IH]; intros buf; [by rewrite /= str_app_nil_r|].
  intros [Hx Hv]%andb_true_iff. destruct v as [|y v].
  - cbn. by apply appendEncodedText_field.
  - transitivity (match appendEncodedText g ps buf x with
      | Ok b => append_values g ps (b +:+ String "009" "") (y :: v) | Err e => Err e end); [done|].
    rewrite appendEncodedText_field // IH // -!str_app_assoc. done.
Qed.

Lemma row_bytes_line g ps v : v ≠ [] → forallb (copyable g) v = true →
  copy_line (row_bytes g ps v) = value_text g ps <$> v ∧ has_char "010" (row_bytes g ps v) = false.
Proof.
  intros Hv Hc.
  assert (Forall (λ x, copyable g x = true) v) as Hall by (apply Forall_forall; intros x Hx; eapply forallb_forall; [exact Hc|by apply list_elem_of_In]).
  split.
  - rewrite /copy_line /row_bytes Split_Join; [|by destruct v|].
    + rewrite -list_fmap_compose. apply Forall_fmap_ext_1. eapply Forall_impl; [exact Hall|].
      intros x Hx. by apply field_bytes_read.
    + apply Forall_fmap. eapply Forall_impl; [exact Hall|]. intros x Hx. by apply field_bytes_read.
  - apply no_char_Join; [done|]. apply Forall_fmap. eapply Forall_impl; [exact Hall|].
    intros x Hx. by apply field_bytes_read.
Qed.

(** *** What a COPY sends *)
Definition line_bytes (g : globals) (ps : parameterStatus) (v : list value) : string := row_bytes g ps v +:+ nl.
Fixpoint concat_str (l : list string) : string := match l with [] => "" | s :: l => s +:+ concat_str l end.
Lemma concat_str_app a b : concat_str (a ++ b) = concat_str a +:+ concat_str b.
Proof. induction a as [|s a IH]; [done|]. by rewrite /= IH str_app_assoc. Qed.

Lemma copy_lines_text g ps (rs : list (list value)) :
  Forall (λ v, v ≠ [] ∧ forallb (copyable g) v = true) rs →
  copy_lines (concat_str (line_bytes g ps <$> rs)) = (λ v : list value, value_text g ps <$> v) <$> rs.
Proof.
  intros Hrs. rewrite /copy_lines.
  assert (Split (concat_str (line_bytes g ps <$> rs)) "010" = (row_bytes g ps <$> rs) ++ [""]) as ->.
  { induction Hrs as [|v rs [Hv Hc] Hrs IH]; [done|]. cbn [fmap list_fmap concat_str app].
    rewrite /line_bytes -str_app_assoc. change (nl +:+ ?x) with (String "010" x).
    rewrite Split_app; [by f_equal|]. by apply row_bytes_line. }
  rewrite removelast_last -list_fmap_compose. apply Forall_fmap_ext_1. eapply Forall_impl; [exact Hrs|].
  intros v [Hv Hc]. by apply row_bytes_line.
Qed.

Section session.
Context {T : Type} {Hnet : Net T} (log : T → list string).
(** A server that takes what it is sent, and what it was sent. *)
Definition taking (answer : string → string) : Prop :=
  ∀ b t, ∃ t', net_write b t = (None, answer b, t') ∧ log t' = log t ++ [b].

(** The rows one after the other, as a caller of [Exec] sends them. *)
Fixpoint copy_all (ci : copyin) (rs : list (list value)) : M (conn (T:=T)) (option error * copyin) :=
  match rs with
  | [] => mret (None, ci)
  | v :: rs =>
      '(e, ci) ← copy_Exec ci v;
      match e with None => copy_all ci rs | Some e => mret (Some e, ci) end
  end.

(** An open COPY with the data [pend] not sent yet. *)
Definition holds (ci : copyin) (pend : string) : Prop :=
  ci_closed ci = false ∧ ci_err ci = None ∧ ∃ len, String.length len = 4 ∧ ci_buffer ci = String "d" (len +:+ pend).

Lemma flush_bytes_frame len pend : String.length len = 4 →
  flush_bytes (String "d" (len +:+ pend)) = frame "d" pend.
Proof.
  intros Hl. rewrite /flush_bytes split_at_1 -{2}Hl split_at_app str_length_app Hl. done.
Qed.

(** A row goes to the buffer, or the buffer goes out with it. *)
Lemma copy_Exec_row answer ci pend v (c : conn (T:=T)) :
  taking answer → (∀ p, answer (frame "d" p) = "") → bad c = false → holds ci pend → v ≠ [] →
  forallb (copyable (c_globals c)) v = true →
  ∃ c' ci' sent pend', copy_Exec ci v c = (Ret (None, ci'), c') ∧ holds ci' pend' ∧
    log (c_net c') = log (c_net c) ++ (frame "d" <$> sent) ∧
    concat_str sent +:+ pend' = pend +:+ line_bytes (c_globals c) (c_status c) v ∧
    c' = set_net (c_net c') (c_inp c) c ∧ ci_running ci' = ci_running ci ∧ ci_done ci' = ci_done ci.
Proof.
  intros Ht Hans Hb (Hcl & He & len & Hlen & Hbuf) Hv Hc.
  rewrite /copy_Exec Hcl /mbind /M_bind /gets Hb He decide_False //.
  rewrite append_values_row // Hbuf !str_app_cons -!str_app_assoc.
  rewrite -/(line_bytes (c_globals c) (c_status c) v). set (new := pend +:+ line_bytes _ _ v).
  rewrite (flush_bytes_frame len new Hlen).
  rewrite /errRecover. case_decide as Hsz.
  - destruct (Ht (frame "d" new) (c_net c)) as (t' & Hn & Hlog).
    rewrite /bindR /mbind /M_bind /flush /mbind /M_bind /conn_Write (flush_bytes_frame len new Hlen) Hn Hans /=.
    eexists _, _, [new], "". split; [done|]. split.
    { split_and!; [done|done|]. exists (be 4 (Z.of_nat (4 + String.length new))).
      by rewrite be_length str_app_nil_r. }
    split_and!; [done|by rewrite /= !str_app_nil_r|by rewrite /= str_app_nil_r|done|done].
  - eexists _, _, [], new. split; [done|]. split.
    { split_and!; [done|done|]. by exists len. }
    split_and!; [by rewrite app_nil_r|done|by destruct c|done|done].
Qed.

Lemma copy_all_rows answer ci pend rs (c : conn (T:=T)) :
  taking answer → (∀ p, answer (frame "d" p) = "") → bad c = false → holds ci pend →
  Forall (λ v, v ≠ [] ∧ forallb (copyable (c_globals c)) v = true) rs →
  ∃ c' ci' sent pend', copy_all ci rs c = (Ret (None, ci'), c') ∧ holds ci' pend' ∧
    log (c_net c') = log (c_net c) ++ (frame "d" <$> sent) ∧
    concat_str sent +:+ pend' = pend +:+ concat_str (line_bytes (c_globals c) (c_status c) <$> rs) ∧
    c' = set_net (c_net c') (c_inp c) c ∧ ci_running ci' = ci_running ci ∧ ci_done ci' = ci_done ci.
Proof.
  intros Ht Hans. revert ci pend c. induction rs as [|v rs IH]; intros ci pend c Hb Hh Hrs.
  { exists c, ci, [], pend. rewrite /= app_nil_r str_app_nil_r. split_and!; try done; [apply Hh..|by destruct c]. }
  apply Forall_cons in Hrs as [[Hv Hc] Hrs].
  destruct (copy_Exec_row answer ci pend v c) as (c1 & ci1 & s1 & p1 & Hr1 & Hh1 & Hl1 & Hp1 & Hc1 & Hrun1 & Hd1); try done.
  destruct (IH ci1 p1 c1) as (c2 & ci2 & s2 & p2 & Hr2 & Hh2 & Hl2 & Hp2 & Hc2 & Hrun2 & Hd2);
    [by rewrite Hc1|done|by rewrite Hc1|].
  exists c2, ci2, (s1 ++ s2), p2. split_and!; [|apply Hh2..| | | | |].
  - cbn [copy_all]. rewrite (bind_run _ _ _ _ _ Hr1). exact Hr2.
  - by rewrite Hl2 Hl1 fmap_app app_assoc.
  - rewrite concat_str_app -str_app_assoc Hp2 str_app_assoc Hp1 Hc1 /= -!str_app_assoc. done.
  - rewrite Hc2 Hc1. done.
  - by rewrite Hrun2.
  - by rewrite Hd2.
Qed.

(** The end of a COPY: the rest of the data, CopyDone, and the server's answer. *)
Lemma copy_Close_done answer ci pend tag s (c : conn (T:=T)) :
  taking answer → (∀ p, answer (frame "d" p) = "") → answer (frame "c" "") = frames [complete tag; ready s] →
  sized (complete tag) = true → bad c = false → saveMessageType c = zero → c_inp c = "" →
  holds ci pend → ci_running ci = true →
  ∃ c' ci', copy_Close ci c = (Ret (None, ci'), c') ∧ ci_running ci' = false ∧
    log (c_net c') = log (c_net c) ++ [frame "d" pend; frame "c" ""] ∧
    bad c' = false ∧ c_inp c' = "" ∧ saveMessageType c' = zero ∧ txnStatus c' = s.
Proof.
  intros Ht Hd Hdone Hsz Hb Hsv Hi (Hcl & He & len & Hlen & Hbuf) Hrun.
  rewrite /copy_Close Hcl /mbind /M_bind /gets Hb Hbuf.
  match goal with |- context [@decide ?P ?i] => destruct (@decide P i) as [?|_]; [done|] end.
  rewrite /errRecover.
  rewrite (flush_bytes_frame len pend Hlen).
  destruct (Ht (frame "d" pend) (c_net c)) as (t1 & Hn1 & Hl1).
  destruct (Ht (frame "c" "") t1) as (t2 & Hn2 & Hl2).
  rewrite {1}/bindR /mbind /M_bind /flush /mbind /M_bind /conn_Write (flush_bytes_frame len pend Hlen) Hn1 Hd.
  rewrite /sendSimpleMessage /conn_Write. change (String "c" (be 4 4)) with (frame "c" "").
  rewrite {1}/mret /M_ret. cbv beta iota. cbn [c_net set_net c_inp]. rewrite Hn2 Hdone Hi !str_app_nil_l.
  set (c2 := set_net t2 (frames [complete tag; ready s]) (set_net t1 "" c)).
  set (ci2 := set_buffer (frame "d" pend) ci).
  assert (resploop_go (msg_fuel c2) ci2 c2 = (Ret (signal ci2), set_txnStatus s (set_inp "" c2))) as Hloop.
  { assert (recvMessage c2 = (Ret (Ok (complete tag)), set_inp (frames [ready s]) c2)) as H1
      by by apply recvMessage_wire.
    assert (recvMessage (set_inp (frames [ready s]) c2) = (Ret (Ok (ready s)), set_inp "" c2)) as H2
      by by apply (recvMessage_wire (ready s) "" (set_inp (frames [ready s]) c2)).
    assert (∃ n, msg_fuel c2 = S (S (S n))) as [n ->].
    { rewrite /msg_fuel /c2 /=. by eexists. }
    cbn [resploop_go]. rewrite (_ : ci_running ci2 = true) //.
    rewrite /mbind /M_bind {1}/resploop_round H1 /complete. dchars. rewrite (_ : ci_running ci2 = true) //.
    rewrite {1}/resploop_round H2 /ready. dchars. done. }
  rewrite Hloop /=. rewrite He /=. eexists _, _. split; [done|].
  rewrite /= Hl2 Hl1 -app_assoc. done.
Qed.
End session.
End copy.
End PqCodec.

(** ** Identifiers and ranges

    How PostgreSQL reads a quoted identifier, and the ranges of its integers. *)
Module PqValues.
Import AmqpWire PqBuf PqEncode PqConn PqSession PqCodec.

(** ** Identifiers *)

(** How the server reads a quoted identifier, after its first quote: two quotes are
    one, a single quote ends it. *)
Definition quote : ascii := ascii_of_nat 34.
Fixpoint lex_quoted (s : string) : option (string * string) :=
  match s with
  | "" => None
  | String c t =>
      if decide (c = quote) then
        match t with
        | String d t' =>
            if decide (d = quote) then '(a, b) ← lex_quoted t'; Some (String quote a, b) else Some ("", t)
        | "" => Some ("", "")
        end
      else '(a, b) ← lex_quoted t; Some (String c a, b)
  end.
Definition read_identifier (s : string) : option (string * string) :=
  match s with String c t => if decide (c = quote) then lex_quoted t else None | "" => None end.

Definition before_zero (name : string) : string :=
  match take_until zero name with Some (a, _) => a | None => name end.

Lemma Replace_quote s : Replace s dquote (dquote +:+ dquote) None =
  flat_map_str (λ c, if decide (c = quote) then dquote +:+ dquote else String c "") s.
Proof.
  rewrite /Replace. induction s as [|c s IH]; [done|]. cbn [replace_go flat_map_str].
  change (String.prefix dquote (String c s)) with
    (if ascii_dec quote c then String.prefix "" s else false).
  destruct (ascii_dec quote c) as [<-|Hc]; destruct (decide _) as [|]; try congruence; cbn.
  - by rewrite -IH; destruct s.
  - by rewrite IH.
Qed.

Lemma lex_quoted_flat s rest : HasPrefix rest dquote = false →
  lex_quoted (flat_map_str (λ c, if decide (c = quote) then dquote +:+ dquote else String c "") s +:+ dquote +:+ rest) =
  Some (s, rest).
Proof.
  intros Hr. induction s as [|c s IH].
  - cbn [flat_map_str]. rewrite str_app_nil_l. destruct rest as [|d rest]; [done|].
    change (dquote +:+ String d rest) with (String quote (String d rest)). cbn [lex_quoted].
    destruct (decide (quote = quote)) as [_|[]]; [|done].
    destruct (decide (d = quote)) as [->|_]; [|done]. by destruct rest.
  - cbn [flat_map_str]. rewrite -str_app_assoc.
    destruct (decide (c = quote)) as [->|Hc].
    + change ((dquote +:+ dquote) +:+ ?x) with (String quote (String quote x)). cbn [lex_quoted].
      destruct (decide (quote = quote)) as [_|[]]; [|done]. by rewrite IH.
    + change (String c "" +:+ ?x) with (String c x). cbn [lex_quoted]. rewrite decide_False // IH. done.
Qed.

Lemma QuoteIdentifier_read name rest : HasPrefix rest dquote = false →
  read_identifier (QuoteIdentifier name +:+ rest) = Some (before_zero name, rest).
Proof.
  intros Hr. rewrite /QuoteIdentifier -/(before_zero name) Replace_quote -!str_app_assoc.
  change (dquote +:+ ?x) with (String quote x) at 1. cbn [read_identifier].
  destruct (decide (quote = quote)) as [_|[]]; [|done]. by apply lex_quoted_flat.
Qed.

(** ** Ranges *)
Definition in_bits (n : Z) (z : Z) : Prop := (- 2 ^ (n - 1) ≤ z < 2 ^ (n - 1))%Z.
End PqValues.
