(* ===== verification/PqTime.v ===== *)
(** * lib/pq: the timestamps of PostgreSQL

    How PostgreSQL prints a timestamp with the DateStyle that the package asks for,
    and that [parseTs] of [encode.go] reads such a text as the time it says. *)

From S2P Require Import Prelude GoStrings GoUrl GoFloat AmqpWire AmqpOpen PqBuf PqEncode PqSession.

Module PqTime.
Import AmqpWire PqBuf PqEncode PqSession.

(** ** Texts *)
Definition digit (n : Z) : ascii := ascii_of_N (Z.to_N (48 + n)).
Definition d2 (n : Z) : string := String (digit (n / 10)) (String (digit (n mod 10)) "").
Definition two (n : Z) : Prop := (0 ≤ n < 100)%Z.

(** A number of 1 to 18 digits, which may begin with zeros. *)
Definition digits (s : string) : Prop := all_chars is_digit s = true ∧ (1 ≤ String.length s ≤ 18)%nat.
Definition digits_val (s : string) : Z := (read_digits s 0 0).1.1.

(** A zone offset: the sign, hours, and possibly minutes, and then seconds. *)
Record zone := mkZone { z_neg : bool; z_hours : Z; z_rest : option (Z * option Z) }.
Definition zone_text (z : zone) : string :=
  (if z_neg z then "-" else "+") +:+ d2 (z_hours z) +:+
  match z_rest z with
  | None => ""
  | Some (m, None) => ":" +:+ d2 m
  | Some (m, Some s) => ":" +:+ d2 m +:+ ":" +:+ d2 s
  end.
Definition zone_offset (z : zone) : Z :=
  ((if z_neg z then -1 else 1) *
   (z_hours z * 60 * 60 + match z_rest z with None => 0 | Some (m, None) => m * 60 | Some (m, Some s) => m * 60 + s end))%Z.
Definition wf_zone (z : zone) : Prop :=
  two (z_hours z) ∧ match z_rest z with
                    | None => True
                    | Some (m, o) => two m ∧ match o with None => True | Some s => two s end end.

(** A timestamp: the digits of its year, the other parts, the digits of a fraction of
    a second, a zone offset, and whether the year is before Christ. *)
Record stamp := mkStamp {
  s_year : string;
  s_month : Z;
  s_day : Z;
  s_hour : Z;
  s_minute : Z;
  s_second : Z;
  s_frac : option string;
  s_zone : option zone;
  s_bc : bool;
}.
Definition wf_stamp (x : stamp) : Prop :=
  digits (s_year x) ∧ two (s_month x) ∧ two (s_day x) ∧ two (s_hour x) ∧ two (s_minute x) ∧ two (s_second x) ∧
  match s_frac x with None => True | Some f => digits f end ∧
  match s_zone x with None => True | Some z => wf_zone z end.

Definition frac_text (f : option string) : string := match f with None => "" | Some f => "." +:+ f end.
Definition tz_text (z : option zone) : string := match z with None => "" | Some z => zone_text z end.
Definition era_text (bc : bool) : string := if bc then " BC" else "".
Definition clock_text (x : stamp) : string := " " +:+ d2 (s_hour x) +:+ ":" +:+ d2 (s_minute x) +:+ ":" +:+ d2 (s_second x).
Definition date_text (x : stamp) : string := s_year x +:+ "-" +:+ d2 (s_month x) +:+ "-" +:+ d2 (s_day x).
Definition stamp_text (x : stamp) : string :=
  date_text x +:+ clock_text x +:+ frac_text (s_frac x) +:+ tz_text (s_zone x) +:+ era_text (s_bc x).

(** The nanoseconds of a fraction; more than nine digits are cut off to nothing. *)
Definition frac_nanos (f : option string) : Z :=
  match f with
  | None => 0
  | Some f => (digits_val f * (1000000000 `quot` 10 ^ Z.of_nat (String.length f)))%Z
  end.
Definition tz_offset (z : option zone) : Z := match z with None => 0 | Some z => zone_offset z end.
Definition iso_year (x : stamp) : Z :=
  if s_bc x then (1 - digits_val (s_year x))%Z else digits_val (s_year x).

(** ** Reading them *)
Lemma slice_mid {W} str pre mid post a b (w : W) :
  str = pre +:+ mid +:+ post → a = Z.of_nat (String.length pre) → b = (a + Z.of_nat (String.length mid))%Z →
  slice str a b w = (Ret (Ok mid), w).
Proof.
  intros -> -> ->. rewrite /slice decide_False; [|rewrite !str_length_app; lia].
  rewrite Nat2Z.id split_at_app. replace (Z.to_nat _) with (String.length mid) by lia. by rewrite split_at_app.
Qed.

Lemma read_digits_all s acc n : all_chars is_digit s = true →
  ∃ v, read_digits s acc n = (v, (n + String.length s)%nat, "") ∧
    (0 ≤ acc → 0 ≤ v < (acc + 1) * 10 ^ Z.of_nat (String.length s))%Z.
Proof.
  revert acc n. induction s as [|c s IH]; intros acc n Hs.
  { exists acc. rewrite /= Nat.add_0_r. split; [done|]. simpl. lia. }
  cbn in Hs. apply andb_true_iff in Hs as [Hc Hs]. cbn [read_digits]. rewrite Hc.
  destruct (IH (acc * 10 + digit_val c)%Z (S n) Hs) as (v & Hv & Hb). exists v.
  rewrite Hv. split; [do 2 f_equal; simpl; lia|]. intros Ha.
  assert (0 ≤ digit_val c ≤ 9)%Z.
  { clear -Hc. rewrite /is_digit in Hc. apply bool_decide_eq_true in Hc. rewrite /digit_val. lia. }
  specialize (Hb ltac:(lia)). cbn [String.length]. rewrite Nat2Z.inj_succ Z.pow_succ_r; [|lia].
  assert (0 < 10 ^ Z.of_nat (String.length s))%Z by (apply Z.pow_pos_nonneg; lia). nia.
Qed.

Lemma ParseInt_digits s : digits s → AmqpOpen.ParseInt s 64 = Ok (digits_val s).
Proof.
  intros [Hs Hl]. destruct (read_digits_all s 0 0 Hs) as (v & Hv & Hb). specialize (Hb ltac:(lia)).
  assert (10 ^ Z.of_nat (String.length s) ≤ 10 ^ 18)%Z by (apply Z.pow_le_mono_r; lia).
  rewrite /AmqpOpen.ParseInt /digits_val Hv.
  assert (match s with
          | "" => (false, s)
          | String c t => if decide (c = "-"%char) then (true, t) else if decide (c = "+"%char) then (false, t) else (false, s)
          end = (false, s)) as ->.
  { destruct s as [|c s]; [done|]. cbn in Hs. apply andb_true_iff in Hs as [Hc _].
    rewrite !decide_False //; intros ->; done. }
  rewrite Hv. destruct (0 + String.length s)%nat eqn:E; [lia|]. rewrite decide_True //; lia.
Qed.
Lemma mustAtoi_digits {W} s (w : W) : digits s → mustAtoi s w = (Ret (Ok (digits_val s)), w).
Proof. intros. by rewrite /mustAtoi ParseInt_digits. Qed.

Definition d2_ok (n : Z) : bool := all_chars is_digit (d2 n) && bool_decide (digits_val (d2 n) = n).
Lemma d2_digits n : two n → digits (d2 n) ∧ digits_val (d2 n) = n.
Proof.
  intros Hn. assert (d2_ok n = true) as H.
  { assert (forallb (λ k, d2_ok (Z.of_nat k)) (seq 0 100) = true) as Hall by (vm_compute; reflexivity).
    rewrite forallb_forall in Hall. specialize (Hall (Z.to_nat n)).
    rewrite Z2Nat.id in Hall; [|by destruct Hn]. apply Hall. apply in_seq. destruct Hn. lia. }
  apply andb_true_iff in H as [H1 H2%bool_decide_eq_true]. split; [|done]. split; [done|]. simpl. lia.
Qed.
Lemma mustAtoi_d2 {W} n (w : W) : two n → mustAtoi (d2 n) w = (Ret (Ok n), w).
Proof. intros [Hd Hv]%d2_digits. rewrite mustAtoi_digits // Hv. done. Qed.

Lemma expect_mid {W} str pre char post a (w : W) :
  str = pre +:+ char +:+ post → String.length char = 1 → a = Z.of_nat (String.length pre) →
  expect str char a w = (Ret (Ok tt), w).
Proof.
  intros Hs Hc Ha. rewrite /expect.
  rewrite (bindR_run _ _ _ _ _ (slice_mid str pre char post a (a + 1) w Hs Ha ltac:(rewrite Hc; lia))).
  rewrite decide_False; [done|tauto].
Qed.

(** Runs a slice and an expected byte at known places of a text. *)
Ltac lengths := rewrite ?str_length_app; cbn [String.length d2]; lia.
Ltac at_slice E pre mid post :=
  erewrite bindR_run; [|eapply (slice_mid _ pre mid post); [by rewrite E -?str_app_assoc ?str_app_nil_r|lengths|lengths]].
Ltac at_expect E pre post :=
  erewrite bindR_run; [|eapply (expect_mid _ pre _ post); [by rewrite E -!str_app_assoc|done|lengths]].
(** A comparison of two different texts. *)
Ltac dstr := match goal with |- context [@decide ?P ?i] => destruct (@decide P i) as [?|_]; [naive_solver|] end.
Ltac at_number H := erewrite bindR_run; [|by apply (mustAtoi_d2 _ _ H)].

Lemma parse_clock_text {W} x str pre tail monSep timeSep (w : W) :
  two (s_hour x) → two (s_minute x) → two (s_second x) →
  str = pre +:+ clock_text x +:+ tail → timeSep = Z.of_nat (String.length pre) →
  (monSep + 6 < Z.of_nat (String.length str))%Z →
  parse_clock str monSep timeSep w = (Ret (Ok (s_hour x, s_minute x, s_second x)), w).
Proof.
  intros Hh Hm Hs Hstr Hts Hlen. rewrite /parse_clock decide_True; [|lia]. rewrite /clock_text in Hstr.
  set (h := d2 (s_hour x)) in *. set (mi := d2 (s_minute x)) in *. set (se := d2 (s_second x)) in *.
  assert (String.length h = 2 ∧ String.length mi = 2 ∧ String.length se = 2) as (Hlh & Hlm & Hls) by done.
  at_expect Hstr pre (h +:+ ":" +:+ mi +:+ ":" +:+ se +:+ tail).
  at_expect Hstr (pre +:+ " " +:+ h) (mi +:+ ":" +:+ se +:+ tail).
  at_slice Hstr (pre +:+ " ") h (":" +:+ mi +:+ ":" +:+ se +:+ tail). at_number Hh.
  at_expect Hstr (pre +:+ " " +:+ h +:+ ":" +:+ mi) (se +:+ tail).
  at_slice Hstr (pre +:+ " " +:+ h +:+ ":") mi (":" +:+ se +:+ tail). at_number Hm.
  at_slice Hstr (pre +:+ " " +:+ h +:+ ":" +:+ mi +:+ ":") se tail. by at_number Hs.
Qed.

(** What may follow the seconds or their fraction: nothing, a sign or a space. *)
Definition delimited (tail : string) : Prop :=
  tail = "" ∨ ∃ c t, tail = String c t ∧ has_char c "-+ " = true.

Lemma index_where_digits f tail : all_chars is_digit f = true → delimited tail →
  index_where (λ c, has_char c "-+ ") (f +:+ tail) = (if decide (tail = "") then None else Some (String.length f)).
Proof.
  intros Hf Ht. induction f as [|c f IH].
  - rewrite str_app_nil_l. destruct Ht as [-> |(c & t & -> & Hc)]; [done|]. cbn [index_where]. by rewrite Hc.
  - cbn in Hf. apply andb_true_iff in Hf as [Hc Hf]. rewrite str_app_cons. cbn [index_where].
    assert (has_char c "-+ " = false) as -> by (revert Hc; clear; all_bytes c).
    rewrite (IH Hf). by case_decide.
Qed.

Lemma parse_fraction_text {W} f str pre tail (w : W) :
  match f with None => True | Some f => digits f end → delimited tail →
  str = pre +:+ frac_text f +:+ tail →
  parse_fraction str (Z.of_nat (String.length pre)) w =
    (Ret (Ok (frac_nanos f, Z.of_nat (String.length (pre +:+ frac_text f)))), w).
Proof.
  intros Hf Ht Hstr. rewrite /parse_fraction. destruct f as [f|]; cbn [frac_text frac_nanos] in *.
  - rewrite decide_True; [|rewrite Hstr; lengths].
    at_slice Hstr pre "." (f +:+ tail). destruct (decide ("." = ".")) as [_|[]]; [|done].
    rewrite /slice_from. assert (String.length str = String.length pre + 1 + String.length f + String.length tail)%nat
      as Hls by (rewrite Hstr; lengths).
    at_slice Hstr (pre +:+ ".") (f +:+ tail) "". pose proof Hf as [Hd _]. rewrite index_where_digits //.
    assert (match (if decide (tail = "") then None else Some (String.length f)) with
            | Some i => Z.of_nat i
            | None => (Z.of_nat (String.length str) - (Z.of_nat (String.length pre) + 1))%Z end
            = Z.of_nat (String.length f)) as ->.
    { case_decide; [subst tail; cbn in Hls; lia|done]. }
    at_slice Hstr (pre +:+ ".") f tail. erewrite bindR_run; [|by apply mustAtoi_digits].
    rewrite /mret /M_ret. do 4 f_equal. lengths.
  - rewrite str_app_nil_l in Hstr. rewrite str_app_nil_r. case_decide; [|done].
    destruct Ht as [-> |(c & t & -> & Hc)]; [rewrite Hstr str_app_nil_r in H; lia|].
    at_slice Hstr pre (String c "") t. rewrite decide_False; [done|]. intros [= ->]. done.
Qed.

Lemma parse_offset_part_some {W} n str pre tail rem (w : W) :
  two n → str = pre +:+ ":" +:+ d2 n +:+ tail →
  parse_offset_part str (Z.of_nat (String.length pre)) rem w = (Ret (Ok (n, (rem + 3)%Z)), w).
Proof.
  intros Hn Hstr. rewrite /parse_offset_part decide_True; [|rewrite Hstr; lengths].
  at_slice Hstr pre ":" (d2 n +:+ tail). destruct (decide (":" = ":")) as [_|[]]; [|done].
  at_slice Hstr (pre +:+ ":") (d2 n) tail. by at_number Hn.
Qed.
Lemma parse_offset_part_none {W} str pre bc rem (w : W) k :
  str = pre +:+ era_text bc → (k = String.length pre ∨ String.length pre + 3 ≤ k)%nat →
  parse_offset_part str (Z.of_nat k) rem w = (Ret (Ok (0%Z, rem)), w).
Proof.
  intros Hstr Hk. rewrite /parse_offset_part. case_decide as Hlt; [|done].
  rewrite Hstr str_length_app in Hlt. destruct bc; [|simpl in Hlt; lia].
  destruct Hk as [-> |Hk]; [|simpl in Hlt; lia].
  at_slice Hstr pre " " "BC". by dstr.
Qed.

Lemma parse_zone_text {W} z bc str pre (w : W) :
  match z with None => True | Some z => wf_zone z end → str = pre +:+ tz_text z +:+ era_text bc →
  parse_zone str (Z.of_nat (String.length pre)) w =
    (Ret (Ok (tz_offset z, Z.of_nat (String.length (pre +:+ tz_text z)))), w).
Proof.
  intros Hz Hstr. rewrite /parse_zone. destruct z as [[neg h rest]|]; cbn [tz_text tz_offset] in *.
  - destruct Hz as [Hh Hrest]. cbn [z_hours z_rest z_neg] in *.
    set (sign := if neg then "-" else "+") in *.
    assert (String.length sign = 1) as Hsl by by destruct neg.
    rewrite /zone_text /zone_offset in Hstr |- *. cbn [z_neg z_hours z_rest] in *. fold sign in Hstr |- *.
    set (rt := match rest with None => "" | Some (m, None) => ":" +:+ d2 m
                             | Some (m, Some s) => ":" +:+ d2 m +:+ ":" +:+ d2 s end) in *.
    rewrite -!str_app_assoc in Hstr.
    rewrite decide_True; [|rewrite Hstr; lengths].
    at_slice Hstr pre sign (d2 h +:+ rt +:+ era_text bc).
    rewrite decide_True; [|destruct neg; by auto].
    assert ((if decide (sign = "-") then (-1)%Z else 1%Z) = (if neg then (-1)%Z else 1%Z)) as ->
      by by destruct neg.
    at_slice Hstr (pre +:+ sign) (d2 h) (rt +:+ era_text bc). at_number Hh.
    set (p1 := pre +:+ sign +:+ d2 h).
    assert (Z.of_nat (String.length pre) + 3 = Z.of_nat (String.length p1))%Z as Hp1 by (rewrite /p1; lengths).
    rewrite Hp1. destruct rest as [[m o]|].
    + destruct Hrest as [Hm Ho].
      assert (Z.of_nat (String.length pre) + 6 = Z.of_nat (String.length (p1 +:+ ":" +:+ d2 m)))%Z as Hp2
        by (rewrite /p1; lengths). rewrite Hp2.
      destruct o as [se|].
      * erewrite bindR_run; [|apply (parse_offset_part_some m _ p1 (":" +:+ d2 se +:+ era_text bc)); [done|]];
          [|by rewrite Hstr /p1 /rt -!str_app_assoc]. cbv beta iota.
        erewrite bindR_run; [|apply (parse_offset_part_some se _ (p1 +:+ ":" +:+ d2 m) (era_text bc)); [done|]];
          [|by rewrite Hstr /p1 /rt -!str_app_assoc].
        rewrite /mret /M_ret. do 4 f_equal; rewrite /p1 /rt; lengths.
      * erewrite bindR_run; [|apply (parse_offset_part_some m _ p1 (era_text bc)); [done|]];
          [|by rewrite Hstr /p1 /rt -!str_app_assoc]. cbv beta iota.
        erewrite bindR_run; [|apply (parse_offset_part_none _ (p1 +:+ ":" +:+ d2 m) bc); [|by left]];
          [|by rewrite Hstr /p1 /rt -!str_app_assoc].
        rewrite /mret /M_ret. do 4 f_equal; rewrite /p1 /rt; lengths.
    + erewrite bindR_run; [|apply (parse_offset_part_none _ p1 bc); [|by left]];
        [|by rewrite Hstr /p1 /rt -!str_app_assoc]. cbv beta iota.
      assert (Z.of_nat (String.length pre) + 6 = Z.of_nat (String.length p1 + 3))%Z as -> by lia.
      erewrite bindR_run; [|apply (parse_offset_part_none _ p1 bc); [|right; lia]];
        [|by rewrite Hstr /p1 /rt -!str_app_assoc].
      rewrite /mret /M_ret. do 4 f_equal; rewrite /p1 /rt; lengths.
  - rewrite str_app_nil_l in Hstr. rewrite str_app_nil_r. case_decide as Hlt; [|done].
    rewrite Hstr str_length_app in Hlt. destruct bc; [|simpl in Hlt; lia].
    at_slice Hstr pre " " "BC". by dstr.
Qed.

Lemma parse_era_text {W} bc year str pre (w : W) :
  str = pre +:+ era_text bc →
  parse_era str year (Z.of_nat (String.length pre)) w = (Ret (Ok (if bc then (1 - year)%Z else year)), w).
Proof.
  intros Hstr. assert (String.length str = String.length pre + if bc then 3 else 0)%nat as Hl
    by (rewrite Hstr str_length_app; by destruct bc).
  rewrite /parse_era. destruct bc; cbn [era_text] in Hstr.
  - rewrite decide_True; [|lia]. erewrite bindR_run; [|].
    2:{ at_slice Hstr pre " BC" "". by destruct (decide (" BC" = " BC")) as [_|[]]. }
    cbv beta iota. rewrite decide_False; [done|lia].
  - rewrite !decide_False; [|lia..]. erewrite bindR_run; [|done]. cbv beta iota. rewrite decide_False; [done|lia].
Qed.

Lemma index_where_year y tail : all_chars is_digit y = true →
  index_where (is_char "-") (y +:+ "-" +:+ tail) = Some (String.length y).
Proof.
  induction y as [|c y IH]; [done|]. intros Hcy. cbn in Hcy. apply andb_true_iff in Hcy as [Hc Hy].
  rewrite str_app_cons. cbn [index_where String.length].
  assert (is_char "-" c = false) as -> by (revert Hc; clear; all_bytes c). by rewrite IH.
Qed.

Section stamps.
Context {Hlib : PqLib}.

(** The time that a timestamp says. *)
Definition stamp_time (x : stamp) : Time :=
  time_Date (iso_year x) (s_month x) (s_day x) (s_hour x) (s_minute x) (s_second x) (frac_nanos (s_frac x))
    (time_FixedZone (tz_offset (s_zone x))).
(** In the zone of the session, if that zone has the same offset then. *)
Definition localized (loc : option Location) (off : Z) (t : Time) : Time :=
  match loc with
  | Some l => if decide (time_Zone (time_In t l) = off) then time_In t l else t
  | None => t
  end.
(** The cached zones are what they were made for. *)
Definition wf_cache (g : globals) : Prop := ∀ off l, locationCache g !! off = Some l → l = time_FixedZone off.

Lemma getLocation_zone off g : wf_cache g →
  ∃ g', getLocation off g = (Ret (time_FixedZone off), g') ∧ wf_cache g'.
Proof.
  intros Hg. rewrite /getLocation. destruct (locationCache g !! off) as [l|] eqn:E.
  - exists g. by rewrite (Hg _ _ E).
  - eexists. split; [done|]. intros o l. rewrite /= lookup_insert_Some. naive_solver.
Qed.

Lemma stamp_not_infinite x : wf_stamp x → stamp_text x ≠ "infinity" ∧ stamp_text x ≠ "-infinity".
Proof.
  intros ([Hy Hl] & _). rewrite /stamp_text /date_text -!str_app_assoc.
  destruct (s_year x) as [|c y]; [simpl in Hl; lia|]. cbn in Hy. apply andb_true_iff in Hy as [Hc _].
  rewrite str_app_cons. split; intros [= -> _]; done.
Qed.

Lemma delimited_tail z bc : delimited (tz_text z +:+ era_text bc).
Proof.
  destruct z as [[[] h r]|]; [right; by eexists _, _..|]. destruct bc; [right; by eexists _, _|by left].
Qed.

Lemma parseTs_stamp loc x g : wf_stamp x → wf_cache g →
  ∃ g', parseTs loc (stamp_text x) g =
    (Ret (Ok (VTime (localized loc (tz_offset (s_zone x)) (stamp_time x)))), g') ∧ wf_cache g'.
Proof.
  intros Hx Hg. destruct (stamp_not_infinite x Hx) as [Hi1 Hi2].
  destruct Hx as (Hy & Hmo & Hd & Hh & Hmi & Hs & Hf & Hz).
  destruct (getLocation_zone (tz_offset (s_zone x)) g Hg) as (g' & Hloc & Hg').
  exists g'. split; [|done]. rewrite /parseTs /get. unfold mbind at 1, M_bind at 1.
  rewrite !decide_False //.
  set (str := stamp_text x) in *.
  set (tail := clock_text x +:+ frac_text (s_frac x) +:+ tz_text (s_zone x) +:+ era_text (s_bc x)).
  assert (str = s_year x +:+ "-" +:+ d2 (s_month x) +:+ "-" +:+ d2 (s_day x) +:+ tail) as Hstr.
  { rewrite /str /stamp_text /date_text -!str_app_assoc. done. }
  assert (index_where (is_char "-") str = Some (String.length (s_year x))) as ->.
  { rewrite Hstr. apply index_where_year, Hy. }
  at_slice Hstr "" (s_year x) ("-" +:+ d2 (s_month x) +:+ "-" +:+ d2 (s_day x) +:+ tail).
  erewrite bindR_run; [|by apply mustAtoi_digits].
  at_slice Hstr (s_year x +:+ "-") (d2 (s_month x)) ("-" +:+ d2 (s_day x) +:+ tail). at_number Hmo.
  at_expect Hstr (s_year x +:+ "-" +:+ d2 (s_month x)) (d2 (s_day x) +:+ tail).
  at_slice Hstr (s_year x +:+ "-" +:+ d2 (s_month x) +:+ "-") (d2 (s_day x)) tail. at_number Hd.
  erewrite bindR_run; [|apply (parse_clock_text x _ (date_text x) (frac_text (s_frac x) +:+ tz_text (s_zone x) +:+ era_text (s_bc x)));
    [done..| |rewrite /date_text; lengths|rewrite Hstr /tail /clock_text; lengths]];
    [|by rewrite /str /stamp_text].
  cbv beta iota.
  assert (Z.of_nat (String.length (s_year x)) + 14 + 1 = Z.of_nat (String.length (date_text x +:+ clock_text x)))%Z as ->
    by (rewrite /date_text /clock_text; lengths).
  erewrite bindR_run; [|apply (parse_fraction_text (s_frac x) _ _ (tz_text (s_zone x) +:+ era_text (s_bc x)));
    [done|apply delimited_tail|by rewrite /str /stamp_text -!str_app_assoc]]. cbv beta iota.
  erewrite bindR_run; [|apply (parse_zone_text (s_zone x) (s_bc x)); [done|by rewrite /str /stamp_text -!str_app_assoc]].
  cbv beta iota.
  erewrite bindR_run; [|apply (parse_era_text (s_bc x)); by rewrite /str /stamp_text -!str_app_assoc].
  rewrite (bind_run _ _ _ _ _ Hloc). rewrite /stamp_time /iso_year. by destruct loc.
Qed.

End stamps.
End PqTime.
