(* ===== verification/GoUtf8.v ===== *)
(** * UTF-8 and runes

    Go's conversions between strings and [[]rune], and [unicode.IsSpace].  A byte
    that is not part of a well-formed sequence becomes U+FFFD, on its own. *)

From S2P Require Import Prelude GoStrings.

Definition byteZ (c : ascii) : Z := Z.of_N (N_of_ascii c).
Definition zbyte (z : Z) : ascii := ascii_of_N (Z.to_N (z mod 256)).
Definition in_range (lo hi z : Z) : bool := bool_decide (lo ≤ z ≤ hi)%Z.
Definition continuation (z : Z) : bool := in_range 128 191 z.
Definition RuneError : Z := 65533.

(** The rune at the start of a string and the number of its bytes. *)
Definition DecodeRune (s : string) : Z * nat :=
  match s with
  | "" => (RuneError, 0)
  | String c0 t =>
      let b0 := byteZ c0 in
      if decide (b0 < 128)%Z then (b0, 1)
      else
        match t with
        | "" => (RuneError, 1)
        | String c1 t1 =>
            let b1 := byteZ c1 in
            if in_range 194 223 b0 then
              if continuation b1 then (((b0 - 192) * 64 + (b1 - 128))%Z, 2) else (RuneError, 1)
            else
              match t1 with
              | "" => (RuneError, 1)
              | String c2 t2 =>
                  let b2 := byteZ c2 in
                  if in_range 224 239 b0 then
                    let lo := if decide (b0 = 224)%Z then 160%Z else 128%Z in
                    let hi := if decide (b0 = 237)%Z then 159%Z else 191%Z in
                    if in_range lo hi b1 && continuation b2
                    then (((b0 - 224) * 4096 + (b1 - 128) * 64 + (b2 - 128))%Z, 3) else (RuneError, 1)
                  else
                    match t2 with
                    | "" => (RuneError, 1)
                    | String c3 _ =>
                        let b3 := byteZ c3 in
                        let lo := if decide (b0 = 240)%Z then 144%Z else 128%Z in
                        let hi := if decide (b0 = 244)%Z then 143%Z else 191%Z in
                        if in_range 240 244 b0 && in_range lo hi b1 && continuation b2 && continuation b3
                        then (((b0 - 240) * 262144 + (b1 - 128) * 4096 + (b2 - 128) * 64 + (b3 - 128))%Z, 4)
                        else (RuneError, 1)
                    end
              end
        end
  end.

Fixpoint drop_bytes (n : nat) (s : string) : string :=
  match n, s with S n, String _ s => drop_bytes n s | _, _ => s end.
Fixpoint runes_go (fuel : nat) (s : string) : list Z :=
  match fuel, s with
  | S fuel, String _ _ => let '(r, n) := DecodeRune s in r :: runes_go fuel (drop_bytes n s)
  | _, _ => []
  end.
(** [[]rune(s)] *)
Definition runes (s : string) : list Z := runes_go (String.length s) s.

(** [utf8.EncodeRune] *)
Definition EncodeRune (r : Z) : string :=
  let r := if in_range 0 55295 r || in_range 57344 1114111 r then r else RuneError in
  if decide (r < 128)%Z then String (zbyte r) ""
  else if decide (r < 2048)%Z then String (zbyte (192 + r / 64)) (String (zbyte (128 + r mod 64)) "")
  else if decide (r < 65536)%Z then
    String (zbyte (224 + r / 4096)) (String (zbyte (128 + r / 64 mod 64)) (String (zbyte (128 + r mod 64)) ""))
  else
    String (zbyte (240 + r / 262144)) (String (zbyte (128 + r / 4096 mod 64))
      (String (zbyte (128 + r / 64 mod 64)) (String (zbyte (128 + r mod 64)) ""))).
(** [string(rs)] *)
Fixpoint string_of_runes (rs : list Z) : string :=
  match rs with [] => "" | r :: rs => EncodeRune r +:+ string_of_runes rs end.

(** [unicode.IsSpace] *)
Definition IsSpace (r : Z) : bool :=
  bool_decide (r ∈ [9; 10; 11; 12; 13; 32; 133; 160; 5760; 8232; 8233; 8239; 8287; 12288]%Z) ||
  in_range 8192 8202 r.

(** ** ASCII *)
Definition is_ascii (c : ascii) : bool := bool_decide (N_of_ascii c < 128)%N.
Fixpoint ascii_runes (s : string) : list Z :=
  match s with "" => [] | String c s => byteZ c :: ascii_runes s end.

Lemma runes_ascii s : all_chars is_ascii s = true → runes s = ascii_runes s.
Proof.
  rewrite /runes. induction s as [|c s IH]; [done|]. cbn. intros [Hc Hs]%andb_true_iff.
  apply bool_decide_eq_true in Hc. rewrite decide_True; [|rewrite /byteZ; lia]. by rewrite IH.
Qed.
Lemma EncodeRune_ascii c : is_ascii c = true → EncodeRune (byteZ c) = String c "".
Proof. destruct c as [[] [] [] [] [] [] [] []]; vm_compute; done. Qed.
Lemma string_of_ascii_runes s : all_chars is_ascii s = true → string_of_runes (ascii_runes s) = s.
Proof.
  induction s as [|c s IH]; [done|]. cbn [all_chars ascii_runes string_of_runes]. intros [Hc Hs]%andb_true_iff.
  by rewrite EncodeRune_ascii // IH.
Qed.
Lemma ascii_runes_app a b : ascii_runes (a +:+ b) = ascii_runes a ++ ascii_runes b.
Proof. induction a as [|c a IH]; [done|]. by rewrite /= IH. Qed.
