(* ===== verification/PqOpen.v ===== *)
(** * lib/pq: opening a connection

    [src/src/github.com/lib/pq]: connection strings ([parseOpts] and [parseEnviron]
    of [conn.go], [url.go]), the settings and their defaults ([DialOpen]), dialling,
    TLS and the start of a session ([ssl], [startup], [auth]), and [userCurrent] of
    [user_posix.go].

    What the operating system, the network and TLS do is the class [Env]; parsing a
    URL is Go's [net/url].  Go visits a map in an arbitrary order: the order in which
    the settings are sent is the argument [iter]. *)

From stdpp Require Import sorting.
From S2P Require Import Prelude GoStrings GoUrl GoPath AmqpWire AmzSign AmqpOpen PqBuf PqEncode PqConn GoUtf8.

(** Certificates and keys are opaque. *)
Record tlsConfig := mkTlsConfig {
  InsecureSkipVerify : bool;
  ServerName : string;
  tls_cert : option string;
  tls_roots : option string;
}.

Class Env (T : Type) := {
  net_Dial : string → string → result T;
  net_DialTimeout : string → string → Z → result T;
  (** [SetDeadline]: after so many nanoseconds from now, or never *)
  net_SetDeadline : option Z → T → option error * T;
  os_Environ : list string;
  (** [user.Current()]: name and home directory *)
  user_Current : result (string * string);
  os_Getenv : string → string;
  (** The permission bits of a file *)
  os_Stat : string → result Z;
  ioutil_ReadFile : string → result string;
  LoadX509KeyPair : string → string → result string;
  (** [AppendCertsFromPEM] into an empty pool *)
  CertsFromPEM : string → option string;
  (** A byte read before TLS begins *)
  net_ReadByte : T → result ascii * T;
  tls_Client : tlsConfig → T → T;
  (** [verifyCA]: the handshake and the check of the certificates *)
  tls_verify : tlsConfig → T → option error * T;
}.

Module PqOpen.
Import AmqpWire PqBuf PqEncode PqConn.

(** ** Settings *)
Abbreviation values := (gmap string string).
Definition vs_Set (k v : string) (o : values) : values := <[k := v]> o.
Definition vs_Get (k : string) (o : values) : string := default "" (o !! k).
Definition vs_Isset (k : string) (o : values) : bool := bool_decide (is_Some (o !! k)).

(** *** Connection strings: the scanner is the list of the runes not read yet *)
Definition eq_rune : Z := 61.
Definition quote_rune : Z := 39.
Definition backslash_rune : Z := 92.

(** [Next]: at the end the rune is 0 and [ok] false. *)
Definition Next (s : list Z) : Z * bool * list Z :=
  match s with [] => (0%Z, false, []) | r :: s => (r, true, s) end.
Fixpoint SkipSpaces (s : list Z) : Z * bool * list Z :=
  match s with
  | [] => (0%Z, false, [])
  | r :: s' => if IsSpace r then SkipSpaces s' else (r, true, s')
  end.

(** The key from its first rune [r] on: its runes, and the rune after them. *)
Fixpoint scan_key (r : Z) (s : list Z) (key : list Z) : list Z * Z * bool * list Z :=
  if IsSpace r || bool_decide (r = eq_rune) then (key, r, true, s)
  else match s with
       | [] => (key ++ [r], 0%Z, false, [])
       | r' :: s' => scan_key r' s' (key ++ [r])
       end.

(** A value without quotes, from its first rune [r] on. *)
Fixpoint scan_plain (n : nat) (r : Z) (s : list Z) (val : list Z) : result (list Z * list Z) :=
  match n with
  | O => Err (ErrorS "out of fuel")
  | S n =>
      if IsSpace r then Ok (val, s)
      else
        let continue_ r s :=
          match s with
          | [] => Ok (val ++ [r], [])
          | r' :: s' => scan_plain n r' s' (val ++ [r])
          end in
        if decide (r = backslash_rune) then
          match s with
          | [] => Err (ErrorS "missing character after backslash")
          | r' :: s' => continue_ r' s'
          end
        else continue_ r s
  end.

(** A value in quotes, after the first of them. *)
Fixpoint scan_quoted (n : nat) (s : list Z) (val : list Z) : result (list Z * list Z) :=
  match n with
  | O => Err (ErrorS "out of fuel")
  | S n =>
      match s with
      | [] => Err (ErrorS "unterminated quoted string literal in connection string")
      | r :: s =>
          if decide (r = quote_rune) then Ok (val, s)
          else if decide (r = backslash_rune) then
            let '(r', _, s') := Next s in scan_quoted n s' (val ++ [r'])
          else scan_quoted n s (val ++ [r])
      end
  end.

Section open.
Context {Hlib : PqLib}.

(** [parseOpts]: every round takes a rune or more. *)
Fixpoint parseOpts_go (n : nat) (s : list Z) (o : values) : result values :=
  match n with
  | O => Err (ErrorS "out of fuel")
  | S n =>
      let '(r, ok, s) := SkipSpaces s in
      if negb ok then Ok o
      else
        let '(key, r, ok, s) := scan_key r s [] in
        let '(r, ok, s) := if decide (r ≠ eq_rune) then SkipSpaces s else (r, ok, s) in
        if bool_decide (r ≠ eq_rune) || negb ok then
          Err (ErrorS ("missing " +:+ dquote +:+ "=" +:+ dquote +:+ " after " +:+ Quote (string_of_runes key) +:+
                       " in connection info string" +:+ dquote))
        else
          let '(r, ok, s) := SkipSpaces s in
          if negb ok then Ok (vs_Set (string_of_runes key) "" o)
          else
            match (if decide (r ≠ quote_rune) then scan_plain (S (length s)) r s []
                   else scan_quoted (S (length s)) s []) with
            | Err e => Err e
            | Ok (val, s) => parseOpts_go n s (vs_Set (string_of_runes key) (string_of_runes val) o)
            end
  end.
Definition parseOpts (name : string) (o : values) : result values :=
  let s := runes name in parseOpts_go (S (length s)) s o.

(** *** URLs *)

(** A URL as [net/url] takes it apart; of each query key the first value, in the
    order the loop visits them. *)
Record pgURL := mkPgURL {
  pu_Scheme : string;
  pu_User : option (string * option string);
  pu_Host : string;
  pu_Path : string;
  pu_Query : list (string * string);
}.

Definition escape_setting (c : ascii) : string :=
  if has_char c (String " " (String "'" (String backslash ""))) then String backslash (String c "") else String c "".
Definition accrue (k v : string) : list string :=
  if decide (v ≠ "") then [k +:+ "=" +:+ flat_map_str escape_setting v] else [].

(** The settings of a URL, each once. *)
Definition url_settings (u : pgURL) : list (string * string) :=
  match pu_User u with
  | Some (name, pass) => [("user", name); ("password", default "" pass)]
  | None => []
  end ++
  match take_until ":" (pu_Host u) with
  | None => [("host", pu_Host u)]
  | Some (h, p) => [("host", h); ("port", p)]
  end ++
  match pu_Path u with "" => [] | String _ p => [("dbname", p)] end ++
  pu_Query u.

Definition ParseURL (url_Parse : string → result pgURL) (url : string) : result string :=
  match url_Parse url with
  | Err e => Err e
  | Ok u =>
      if decide (pu_Scheme u ≠ "postgres" ∧ pu_Scheme u ≠ "postgresql") then
        Err (ErrorS ("invalid connection protocol: " +:+ pu_Scheme u))
      else Ok (Join (AmzSign.sort_Strings (mjoin ((λ kv, accrue kv.1 kv.2) <$> url_settings u))) " ")
  end.

(** *** Environment variables *)
Definition environ_names : list (string * option string) :=
  [("PGHOST", Some "host"); ("PGHOSTADDR", None); ("PGPORT", Some "port"); ("PGDATABASE", Some "dbname");
   ("PGUSER", Some "user"); ("PGPASSWORD", Some "password"); ("PGPASSFILE", None); ("PGSERVICE", None);
   ("PGSERVICEFILE", None); ("PGREALM", None); ("PGOPTIONS", Some "options"); ("PGAPPNAME", Some "application_name");
   ("PGSSLMODE", Some "sslmode"); ("PGSSLCERT", Some "sslcert"); ("PGSSLKEY", Some "sslkey");
   ("PGSSLROOTCERT", Some "sslrootcert"); ("PGREQUIRESSL", None); ("PGSSLCRL", None); ("PGREQUIREPEER", None);
   ("PGKRBSRVNAME", None); ("PGGSSLIB", None); ("PGCONNECT_TIMEOUT", Some "connect_timeout");
   ("PGCLIENTENCODING", Some "client_encoding"); ("PGDATESTYLE", Some "datestyle"); ("PGTZ", Some "timezone");
   ("PGGEQO", Some "geqo"); ("PGSYSCONFDIR", None); ("PGLOCALEDIR", None)].
Fixpoint assoc {A} (k : string) (l : list (string * A)) : option A :=
  match l with [] => None | (k', a) :: l => if decide (k = k') then Some a else assoc k l end.

Fixpoint parseEnviron (env : list string) (out : values) : outcome values :=
  match env with
  | [] => Ret out
  | v :: env =>
      let '(name, value) := match take_until "=" v with Some (a, b) => (a, Some b) | None => (v, None) end in
      match assoc name environ_names with
      | None => parseEnviron env out
      | Some None => Crash (Panic ("setting " +:+ name +:+ " not supported"))
      | Some (Some key) =>
          match value with
          | None => Crash index_panic
          | Some b => parseEnviron env (vs_Set key b out)
          end
      end
  end.

(** *** Checks *)
Definition alnumLowerASCII (c : ascii) : string :=
  let n := N_of_ascii c in
  if decide (65 ≤ n ≤ 90)%N then String (ascii_of_N (n + 32)) ""
  else if decide (97 ≤ n ≤ 122 ∨ 48 ≤ n ≤ 57)%N then String c "" else "".
(** [isUTF8]: no rune beyond ASCII is kept, so the bytes can be mapped. *)
Definition isUTF8 (name : string) : bool :=
  let s := flat_map_str alnumLowerASCII name in bool_decide (s = "utf8" ∨ s = "unicode").

Definition boolSetting (o : values) (key : string) (dflt : bool) : result bool :=
  let value := vs_Get key o in
  if decide (value = "") then Ok dflt
  else if decide (value = "yes") then Ok true
  else if decide (value = "no") then Ok false
  else Err (ErrorS ("unrecognized value " +:+ Quote value +:+ " for " +:+ key)).
Definition handleDriverSettings (o : values) : result (bool * bool) :=
  match boolSetting o "disable_prepared_binary_result" false with
  | Err e => Err e
  | Ok d => match boolSetting o "binary_parameters" false with Err e => Err e | Ok b => Ok (d, b) end
  end.

Definition driver_settings : list string :=
  ["host"; "port"; "password"; "sslmode"; "sslcert"; "sslkey"; "sslrootcert"; "fallback_application_name";
   "connect_timeout"; "disable_prepared_binary_result"; "binary_parameters"].
Definition isDriverSetting (key : string) : bool := bool_decide (key ∈ driver_settings).

Definition network (o : values) : string * string :=
  let host := vs_Get "host" o in
  if HasPrefix host "/" then ("unix", PathJoin [host; ".s.PGSQL." +:+ vs_Get "port" o])
  else ("tcp", host +:+ ":" +:+ vs_Get "port" o).

Context {T : Type} {Hnet : Net T} {Henv : Env T}.
Abbreviation conn := (conn (T:=T)).
Abbreviation C A := (M conn (result A)).

Definition ErrCouldNotDetectUsername : error :=
  ErrorS "pq: Could not detect default username. Please provide one explicitly.".
Definition userCurrent : result string :=
  match user_Current with
  | Ok (name, _) => Ok name
  | Err _ => if decide (os_Getenv "USER" ≠ "") then Ok (os_Getenv "USER") else Err ErrCouldNotDetectUsername
  end.

(** ** Dialling *)
Definition has_timeout (o : values) : bool :=
  let timeout := vs_Get "connect_timeout" o in negb (bool_decide (timeout = "" ∨ timeout = "0")).
Definition dial (o : values) : result T * values :=
  let '(ntw, addr) := network o in
  let o := if decide (ntw = "unix") then vs_Set "sslmode" "disable" o else o in
  (if has_timeout o then
     match AmqpOpen.ParseInt (vs_Get "connect_timeout" o) 64 with
     | Err e => Err (ErrorS ("invalid value for parameter connect_timeout: " +:+ error_string e))
     | Ok seconds =>
         let duration := wrap64 (seconds * 1000000000) in
         match net_DialTimeout ntw addr duration with
         | Err e => Err e
         | Ok t => match net_SetDeadline (Some duration) t with
                   | (None, t) => Ok t
                   | (Some e, _) => Err e end
         end
     end
   else net_Dial ntw addr, o).

(** ** TLS *)
Definition ErrSSLNotSupported : error := ErrorS "pq: SSL is not enabled on the server".
Definition ErrSSLKeyHasWorldPermissions : error :=
  ErrorS "pq: Private key file has group or world access. Permissions should be u=rw (0600) or less.".

Definition setupSSLClientCertificates (conf : tlsConfig) (o : values) : result tlsConfig :=
  let sslkey := vs_Get "sslkey" o in
  let sslcert := vs_Get "sslcert" o in
  let load sslkey sslcert (missingOk : bool) :=
    match os_Stat sslkey with
    | Err e => if missingOk then Ok conf else Err e
    | Ok kmode =>
        match os_Stat sslcert with
        | Err e => if missingOk then Ok conf else Err e
        | Ok _ =>
            if decide (kmode ≠ Z.land kmode 384) then Err ErrSSLKeyHasWorldPermissions
            else match LoadX509KeyPair sslcert sslkey with
                 | Err e => Err e
                 | Ok cert => Ok (mkTlsConfig (InsecureSkipVerify conf) (ServerName conf) (Some cert) (tls_roots conf))
                 end
        end
    end in
  if decide (sslkey ≠ "" ∧ sslcert ≠ "") then load sslkey sslcert false
  else
    match user_Current with
    | Err _ => Ok conf
    | Ok (_, home) => load (PathJoin [home; ".postgresql"; "postgresql.key"])
                        (PathJoin [home; ".postgresql"; "postgresql.crt"]) true
    end.

Definition setupSSLCA (conf : tlsConfig) (o : values) : result tlsConfig :=
  let sslrootcert := vs_Get "sslrootcert" o in
  if decide (sslrootcert = "") then Ok conf
  else match ioutil_ReadFile sslrootcert with
       | Err e => Err e
       | Ok pem =>
           match CertsFromPEM pem with
           | None => Err (errorf_error "couldn't parse pem in sslrootcert")
           | Some roots => Ok (mkTlsConfig (InsecureSkipVerify conf) (ServerName conf) (tls_cert conf) (Some roots))
           end
       end.

(** A startup packet has no type: [wrap] without the first byte. *)
Definition sendStartupPacket (m : writeBuf) : C () :=
  match wrap m with
  | String c b =>
      if decide (c ≠ zero) then throw (Panic "oops")
      else e ← conn_Write b; match e with None => mret (Ok tt) | Some e => mret (Err e) end
  | "" => throw index_panic
  end.

Definition verifyCA (conf : tlsConfig) : C () := λ c,
  let '(e, t) := tls_verify conf (c_net c) in
  (Ret (match e with None => Ok tt | Some e => Err e end), set_net t (c_inp c) c).

(** [ssl]: whether the session is under TLS is the state of the other end. *)
Definition ssl_mode (o : values) : result (option (tlsConfig * bool)) :=
  let mode := vs_Get "sslmode" o in
  if decide (mode = "require" ∨ mode = "") then Ok (Some (mkTlsConfig true "" None None, false))
  else if decide (mode = "verify-ca") then Ok (Some (mkTlsConfig true "" None None, true))
  else if decide (mode = "verify-full") then Ok (Some (mkTlsConfig false (vs_Get "host" o) None None, false))
  else if decide (mode = "disable") then Ok None
  else Err (errorf_error ("unsupported sslmode " +:+ Quote mode +:+ "; only " +:+ dquote +:+ "require" +:+ dquote +:+
              " (default), " +:+ dquote +:+ "verify-full" +:+ dquote +:+ ", and " +:+ dquote +:+ "disable" +:+
              dquote +:+ " supported")).
Definition ssl (o : values) : C () :=
  m ←? mret (ssl_mode o);
  match m with
  | None => mret (Ok tt)
  | Some (conf, verifyCaOnly) =>
      conf ←? mret (setupSSLClientCertificates conf o);
      conf ←? mret (setupSSLCA conf o);
      _ ←? sendStartupPacket (w_int32 80877103 (new_writeBuf zero));
      b ←? (λ c, let '(r, t) := net_ReadByte (c_net c) in (Ret r, set_net t (c_inp c) c));
      if decide (b ≠ "S"%char) then mret (Err ErrSSLNotSupported)
      else
        modify (λ c, set_net (tls_Client conf (c_net c)) (c_inp c) c);;
        if verifyCaOnly : bool then verifyCA conf else mret (Ok tt)
  end.

(** ** The start of a session *)
Definition password_message (s : string) : writeBuf := w_string s (new_writeBuf "p").
(** The answer to a password. *)
Definition read_password_response : C () :=
  '(t, r) ←? recv;
  if decide (t ≠ "R"%char) then errorf ("unexpected password response: " +:+ QuoteByte t)
  else code ←? on_msg r_int32 r;
       if decide (code ≠ 0)%Z then errorf ("unexpected authentication response: " +:+ QuoteByte t)
       else mret (Ok tt).
Definition md5_password (o : values) (salt : string) : string :=
  "md5" +:+ md5s (md5s (vs_Get "password" o +:+ vs_Get "user" o) +:+ salt).
Definition auth (r : string) (o : values) : C () :=
  match r_int32 r with
  | (Crash c, _) => throw c
  | (Ret (Err e), _) => mret (Err e)
  | (Ret (Ok code), r) =>
      if decide (code = 0)%Z then mret (Ok tt)
      else if decide (code = 3)%Z then
        _ ←? send (password_message (vs_Get "password" o)); read_password_response
      else if decide (code = 5)%Z then
        s ←? on_msg (r_next 4) r;
        _ ←? send (password_message (md5_password o s)); read_password_response
      else errorf ("unknown authentication response: " +:+ pretty code)
  end.

(** The settings that go to the server, under the names it knows them by. *)
Fixpoint startup_params (l : list (string * string)) (b : writeBuf) : writeBuf :=
  match l with
  | [] => b
  | (k, v) :: l =>
      if isDriverSetting k then startup_params l b
      else startup_params l (w_string v (w_string (if decide (k = "dbname") then "database" else k) b))
  end.
Definition startup_message (l : list (string * string)) : writeBuf :=
  w_string "" (startup_params l (w_int32 196608 (new_writeBuf zero))).

(** The server decides how long this goes on; [fuel] bounds the messages. *)
Fixpoint startup_go (fuel : nat) (o : values) : C () :=
  match fuel with
  | O => throw out_of_fuel
  | S fuel =>
      '(t, r) ←? recv;
      if decide (t = "K"%char) then startup_go fuel o
      else if decide (t = "S"%char) then _ ←? processParameterStatus r; startup_go fuel o
      else if decide (t = "R"%char) then _ ←? auth r o; startup_go fuel o
      else if decide (t = "Z"%char) then processReadyForQuery r
      else errorf ("unknown response for startup: " +:+ QuoteByte t)
  end.
Definition startup (iter : values → list (string * string)) (fuel : nat) (o : values) : C () :=
  _ ←? sendStartupPacket (startup_message (iter o)); startup_go fuel o.

(** ** [DialOpen] *)

(** The settings before dialling: defaults, environment, connection string. *)
Definition default_settings : values :=
  vs_Set "extra_float_digits" "2" (vs_Set "port" "5432" (vs_Set "host" "localhost" ∅)).
Definition is_url (name : string) : bool := HasPrefix name "postgres://" || HasPrefix name "postgresql://".
Definition complete_settings (o : values) : outcome (result values) :=
  let fallback := vs_Get "fallback_application_name" o in
  let o := if decide (fallback ≠ "") then
             if vs_Isset "application_name" o then o else vs_Set "application_name" fallback o
           else o in
  let enc := vs_Get "client_encoding" o in
  if bool_decide (enc ≠ "") && negb (isUTF8 enc) then
    Ret (Err (ErrorS "client_encoding must be absent or 'UTF8'"))
  else
    let o := vs_Set "client_encoding" "UTF8" o in
    let datestyle := vs_Get "datestyle" o in
    if decide (datestyle ≠ "" ∧ datestyle ≠ "ISO, MDY") then
      Crash (Panic ("setting datestyle must be absent or ISO, MDY; got " +:+ datestyle))
    else
      let o := if decide (datestyle ≠ "") then o else vs_Set "datestyle" "ISO, MDY" o in
      if decide (vs_Get "user" o = "") then
        match userCurrent with Err e => Ret (Err e) | Ok u => Ret (Ok (vs_Set "user" u o)) end
      else Ret (Ok o).
Definition open_settings (url_Parse : string → result pgURL) (name : string) : outcome (result values) :=
  match parseEnviron os_Environ ∅ with
  | Crash c => Crash c
  | Ret env =>
      let o := env ∪ default_settings in
      match (if is_url name then ParseURL url_Parse name else Ok name) with
      | Err e => Ret (Err e)
      | Ok name =>
          match parseOpts name o with
          | Err e => Ret (Err e)
          | Ok o => complete_settings o
          end
      end
  end.

(** [errRecoverNoErrBadConn]: a panic of the run time is an error, any other value
    is reported as one. *)
Definition panic_error (s : string) : error :=
  if decide (s = "index out of range" ∨ s = "slice bounds out of range") then ErrorS ("runtime error: " +:+ s)
  else ErrorS ("pq: unexpected error: " +:+ Quote s).

Definition new_conn (t : T) (g : globals) (disable binary : bool) : conn :=
  mkConn t "" 0 zero (mkParameterStatus 0 None) zero "" false disable binary g.

(** The connection once it is dialled. *)
Definition open_session (iter : values → list (string * string)) (fuel : nat) (o : values) : C (option error) :=
  _ ←? ssl o;
  _ ←? startup iter fuel o;
  if has_timeout o then
    λ c, let '(e, t) := net_SetDeadline None (c_net c) in (Ret (Ok e), set_net t (c_inp c) c)
  else mret (Ok None).

Definition DialOpen (url_Parse : string → result pgURL) (iter : values → list (string * string)) (fuel : nat)
    (g : globals) (name : string) : outcome (result conn) :=
  match open_settings url_Parse name with
  | Crash (Panic s) => Ret (Err (panic_error s))
  | Crash c => Crash c
  | Ret (Err e) => Ret (Err e)
  | Ret (Ok o) =>
      match handleDriverSettings o with
      | Err e => Ret (Err e)
      | Ok (disable, binary) =>
          match dial o with
          | (Err e, _) => Ret (Err e)
          | (Ok t, o) =>
              match open_session iter fuel o (new_conn t g disable binary) with
              | (Ret (Ok None), c) => Ret (Ok c)
              | (Ret (Ok (Some e)), _) | (Ret (Err e), _) => Ret (Err e)
              | (Crash (Panic s), _) => if decide (s = "out of fuel") then Crash out_of_fuel else Ret (Err (panic_error s))
              | (Crash c, _) => Crash c
              end
          end
      end
  end.

End open.
End PqOpen.
