(* ===== verification/PqSettings.v ===== *)
(** * lib/pq: connection strings

    A URL that [ParseURL] turns into a connection string is read by [parseOpts] as
    the settings it had. *)

From stdpp Require Import sorting.
From S2P Require Import Prelude GoStrings GoUrl AmqpWire AmzSign PqBuf PqEncode PqConn GoUtf8 PqOpen.

Module PqSettings.
Import PqBuf PqEncode PqOpen.

(** The whitespace that [parseOpts] ends a value at, but [ParseURL] does not escape. *)
Definition other_space (c : ascii) : bool := has_char c (String "009" (String "010" (String "011" (String "012" (String "013" ""))))).
Definition value_char (c : ascii) : bool := is_ascii c && negb (other_space c).
Definition key_char (c : ascii) : bool := value_char c && negb (has_char c " =").

Definition wf_setting (kv : string * string) : Prop :=
  kv.1 ≠ "" ∧ all_chars key_char kv.1 = true ∧ all_chars value_char kv.2 = true.

Lemma key_char_rune c : key_char c = true → IsSpace (byteZ c) = false ∧ byteZ c ≠ eq_rune.
Proof. destruct c as [[] [] [] [] [] [] [] []]; vm_compute; try done; intros _; by split. Qed.
Lemma value_plain c : value_char c = true → has_char c (String " " (String "'" (String backslash ""))) = false →
  IsSpace (byteZ c) = false ∧ byteZ c ≠ backslash_rune ∧ byteZ c ≠ quote_rune.
Proof. destruct c as [[] [] [] [] [] [] [] []]; vm_compute; try done; intros _ _; by split_and!. Qed.

(** [scan_plain] on what is left of a value. *)
Definition plain_from (n : nat) (rest val : list Z) : result (list Z * list Z) :=
  match rest with [] => Ok (val, []) | r :: s => scan_plain n r s val end.
Definition after_space (tail : list Z) : list Z := match tail with [] => [] | _ :: t => t end.

Lemma scan_plain_value v n val tail :
  all_chars value_char v = true → (tail = [] ∨ ∃ t, tail = 32%Z :: t) → (length (ascii_runes v) + (length tail `min` 1) ≤ n)%nat →
  plain_from n (ascii_runes (flat_map_str escape_setting v) ++ tail) val =
  Ok (val ++ ascii_runes v, after_space tail).
Proof.
  revert n val. induction v as [|c v IH]; intros n val Hv Ht Hn.
  { cbn [flat_map_str ascii_runes app]. rewrite app_nil_r. destruct Ht as [-> |[t ->]]; [done|].
    destruct n; [simpl in Hn; lia|]. done. }
  cbn in Hv. apply andb_true_iff in Hv as [Hc Hv]. destruct n as [|n]; [simpl in Hn; lia|].
  cbn [flat_map_str]. rewrite ascii_runes_app -app_assoc.
  specialize (IH n (val ++ [byteZ c]) Hv Ht ltac:(simpl in Hn; lia)).
  rewrite -app_assoc /= in IH. rewrite -IH.
  rewrite /escape_setting. destruct (has_char c (String " " (String "'" (String backslash "")))) eqn:E.
  - cbn [ascii_runes app plain_from scan_plain].
    rewrite (_ : IsSpace (byteZ backslash) = false) //.
  - destruct (value_plain c Hc E) as (H1 & H2 & _). cbn [ascii_runes app plain_from scan_plain].
    rewrite H1. rewrite decide_False //.
Qed.

Lemma scan_key_text k r s key : all_chars key_char (String r k) = true →
  scan_key (byteZ r) (ascii_runes k ++ eq_rune :: s) key =
  (key ++ ascii_runes (String r k), eq_rune, true, s).
Proof.
  revert r key. induction k as [|c k IH]; intros r key Hk; cbn in Hk; apply andb_true_iff in Hk as [Hr Hk];
    destruct (key_char_rune r Hr) as [H1 H2].
  - cbn [ascii_runes app scan_key]. rewrite H1 bool_decide_eq_false_2 //. by destruct s.
  - cbn [ascii_runes app scan_key]. rewrite H1 bool_decide_eq_false_2 //. cbn [orb].
    rewrite IH; [|done]. by rewrite -app_assoc.
Qed.

Section settings.
Context {Hlib : PqLib}.

(** A setting as it stands in a connection string. *)
Definition setting_text (kv : string * string) : string := kv.1 +:+ "=" +:+ flat_map_str escape_setting kv.2.
Definition set_all (l : list (string * string)) (o : values) : values := foldl (λ o kv, vs_Set kv.1 kv.2 o) o l.

Lemma key_ascii k : all_chars key_char k = true → all_chars is_ascii k = true.
Proof.
  induction k as [|c k IH]; [done|]. cbn. intros [[[Hc _]%andb_true_iff _]%andb_true_iff Hk]%andb_true_iff.
  by rewrite Hc IH.
Qed.
Lemma value_ascii v : all_chars value_char v = true → all_chars is_ascii v = true.
Proof.
  induction v as [|c v IH]; [done|]. cbn. intros [[Hc _]%andb_true_iff Hv]%andb_true_iff. by rewrite Hc IH.
Qed.

(** One setting is read, up to the space after it. *)
Lemma parseOpts_setting n kv tail o :
  wf_setting kv → kv.2 ≠ "" → (tail = [] ∨ ∃ t, tail = 32%Z :: t) →
  parseOpts_go (S n) (ascii_runes (setting_text kv) ++ tail) o =
  parseOpts_go n (after_space tail) (vs_Set kv.1 kv.2 o).
Proof.
  destruct kv as [k v]. intros (Hne & Hk & Hv) Hve Ht. cbn [fst snd] in *.
  destruct k as [|r k]; [done|]. pose proof Hk as Hk'. cbn in Hk'. apply andb_true_iff in Hk' as [Hr _].
  destruct (key_char_rune r Hr) as [H1 H2].
  rewrite /setting_text. cbn [fst snd]. rewrite !ascii_runes_app -!app_assoc.
  cbn [ascii_runes app parseOpts_go SkipSpaces]. rewrite H1. cbn [negb].
  rewrite (scan_key_text k r _ []); [|done]. cbn [app].
  destruct (decide (eq_rune ≠ eq_rune)) as [[]|_]; [done|].
  rewrite bool_decide_eq_false_2; [|tauto]. cbn [orb negb].
  destruct v as [|c v]; [done|].
  assert (∃ r1 s1, ascii_runes (flat_map_str escape_setting (String c v)) ++ tail = r1 :: s1 ∧
    IsSpace r1 = false ∧ r1 ≠ quote_rune ∧ (length (ascii_runes (String c v)) + (length tail `min` 1) ≤ S (length s1))%nat) as (r1 & s1 & E & Hsp & Hq & Hlen).
  { cbn in Hv. apply andb_true_iff in Hv as [Hc Hv].
    assert (∀ v, length (ascii_runes v) ≤ length (ascii_runes (flat_map_str escape_setting v)))%nat as Hl.
    { clear. induction v as [|c v IH]; [done|]. cbn [flat_map_str]. rewrite ascii_runes_app length_app /=.
      assert (1 ≤ length (ascii_runes (escape_setting c)))%nat.
      { rewrite /escape_setting. destruct (has_char _ _); simpl; lia. } lia. }
    specialize (Hl v). cbn [flat_map_str]. rewrite ascii_runes_app -app_assoc. rewrite {1}/escape_setting.
    destruct (has_char c (String " " (String "'" (String backslash "")))) eqn:Ec.
    - cbn [ascii_runes app]. eexists _, _. split; [done|]. split_and!; [done|done|].
      cbn [length]. rewrite length_app. lia.
    - destruct (value_plain c Hc Ec) as (Hs & _ & Hq). cbn [ascii_runes app]. eexists _, _. split; [done|].
      split_and!; [done|done|]. cbn [length]. rewrite length_app. lia. }
  rewrite E. cbn [SkipSpaces]. rewrite Hsp. cbn [negb]. rewrite decide_True //.
  pose proof (scan_plain_value (String c v) (S (length s1)) [] tail Hv Ht Hlen) as Hp.
  rewrite E in Hp. cbn [plain_from app] in Hp. rewrite Hp.
  rewrite string_of_ascii_runes; [|by apply key_ascii]. by rewrite string_of_ascii_runes; [|by apply value_ascii].
Qed.

Lemma parseOpts_settings n l o :
  Forall (λ kv, wf_setting kv ∧ kv.2 ≠ "") l → (length l < n)%nat →
  parseOpts_go n (ascii_runes (Join (setting_text <$> l) " ")) o = Ok (set_all l o).
Proof.
  intros Hl. revert n o. induction Hl as [|kv l [Hw Hv] Hl IH]; intros [|n] o Hn; try (simpl in Hn; lia); [done|].
  destruct l as [|kv' l].
  - cbn [fmap list_fmap Join]. rewrite -(app_nil_r (ascii_runes _)).
    rewrite parseOpts_setting //; [|by left]. by destruct n; [simpl in Hn; lia|].
  - change (Join (setting_text <$> kv :: kv' :: l) " ") with
      (setting_text kv +:+ (" " +:+ Join (setting_text <$> kv' :: l) " ")).
    rewrite ascii_runes_app. change (ascii_runes (" " +:+ ?x)) with (32%Z :: ascii_runes x).
    rewrite parseOpts_setting //; [|right; by eexists]. cbn [after_space].
    rewrite (IH n); [done|]. simpl in *. lia.
Qed.

Lemma all_ascii_Join l : Forall (λ kv, wf_setting kv) l → all_chars is_ascii (Join (setting_text <$> l) " ") = true.
Proof.
  intros Hl. apply all_chars_Join; [done|]. apply Forall_fmap. eapply Forall_impl; [exact Hl|].
  intros [k v] (_ & Hk & Hv). rewrite /setting_text /= !all_chars_app key_ascii //=.
  apply (all_chars_flat value_char); [|done]. intros c. all_bytes c.
Qed.

Lemma setting_text_length kv : (1 ≤ String.length (setting_text kv))%nat.
Proof. rewrite /setting_text !str_length_app /=. lia. Qed.
Lemma Join_length l : (length l ≤ String.length (Join (setting_text <$> l) " "))%nat.
Proof.
  induction l as [|kv l IH]; [done|]. pose proof (setting_text_length kv). destruct l as [|kv' l]; [simpl; lia|].
  cbn [fmap list_fmap Join] in *. rewrite !str_length_app. simpl in *. lia.
Qed.
Lemma ascii_runes_length s : length (ascii_runes s) = String.length s.
Proof. induction s; simpl; congruence. Qed.

Lemma parseOpts_Join l o : Forall (λ kv, wf_setting kv ∧ kv.2 ≠ "") l →
  parseOpts (Join (setting_text <$> l) " ") o = Ok (set_all l o).
Proof.
  intros Hl. assert (Forall wf_setting l) as Hw by (eapply Forall_impl; [exact Hl|]; by intros ? []).
  rewrite /parseOpts runes_ascii; [|by apply all_ascii_Join]. apply parseOpts_settings; [done|].
  rewrite ascii_runes_length. pose proof (Join_length l). lia.
Qed.

Lemma set_all_lookup l o : NoDup l.*1 → set_all l o = list_to_map l ∪ o.
Proof.
  revert o. induction l as [|[k v] l IH]; intros o Hnd; [by rewrite /= left_id_L|].
  cbn in Hnd. apply NoDup_cons in Hnd as [Hk Hnd]. cbn [set_all foldl fst snd].
  rewrite -/(set_all l _) IH // /vs_Set. cbn [list_to_map foldr uncurry].
  apply map_eq. intros i. rewrite !lookup_union. destruct (decide (i = k)) as [->|Hi].
  - rewrite !lookup_insert_eq. rewrite not_elem_of_list_to_map_1 //.
    by destruct (o !! k).
  - by rewrite !lookup_insert_ne.
Qed.

(** The settings of a URL that are not empty. *)
Definition given (u : pgURL) : list (string * string) := List.filter (λ kv, negb (bool_decide (kv.2 = ""))) (url_settings u).
Lemma accrue_given u : mjoin ((λ kv, accrue kv.1 kv.2) <$> url_settings u) = setting_text <$> given u.
Proof.
  rewrite /given. induction (url_settings u) as [|[k v] l IH]; [done|]. cbn [fmap list_fmap mjoin list_join List.filter fst snd].
  rewrite /accrue. case_decide as Hv; cbn.
  - rewrite bool_decide_eq_false_2 //=. f_equal. exact IH.
  - rewrite bool_decide_eq_true_2; [exact IH|]. by destruct (decide (v = "")).
Qed.

Lemma ParseURL_parseOpts url_Parse url u o :
  url_Parse url = Ok u → pu_Scheme u = "postgres" ∨ pu_Scheme u = "postgresql" →
  Forall wf_setting (given u) → NoDup (given u).*1 →
  ∃ s, ParseURL url_Parse url = Ok s ∧ parseOpts s o = Ok (list_to_map (given u) ∪ o).
Proof.
  intros Hu Hs Hw Hnd. rewrite /ParseURL Hu decide_False; [|naive_solver]. eexists. split; [done|].
  rewrite accrue_given /AmzSign.sort_Strings.
  pose proof (merge_sort_Permutation String.le (setting_text <$> given u)) as Hsort.
  destruct (Permutation_map_inv _ _ Hsort) as (l & El & Hp).
  rewrite El -/(setting_text <$> l). rewrite parseOpts_Join.
  - rewrite set_all_lookup; [|by rewrite -Hp]. do 2 f_equal. apply list_to_map_proper; [by rewrite -Hp|by symmetry].
  - rewrite -Hp. apply Forall_forall. intros kv Hin. split; [by eapply Forall_forall in Hw|].
    apply list_elem_of_In, filter_In in Hin as [_ Hn]. by apply negb_true_iff, bool_decide_eq_false in Hn.
Qed.
End settings.
End PqSettings.
