(* ===== verification/PqStartup.v ===== *)
(** * lib/pq: the start of a session

    What [startup] and [auth] of [conn.go] send, and the connection that [DialOpen]
    makes with a server that asks for no password, for a password in clear text or
    for its MD5 hash. *)

From S2P Require Import Prelude GoStrings GoUrl AmqpWire AmqpOpen AmzSign PqBuf PqEncode PqConn PqSession PqRows GoUtf8 PqOpen.

Module PqStartup.
Import AmqpWire PqBuf PqEncode PqConn PqSession PqRows PqOpen.

(** ** Messages *)

(** A message at the start of a session: the key for cancelling, or a parameter and
    its value. *)
Definition start_msg (m : msg) : bool :=
  sized m &&
  match m.1 with
  | "K"%char => true
  | "S"%char => match take_until zero m.2 with
                | Some (_, v) => bool_decide (is_Some (take_until zero v))
                | None => false end
  | _ => false
  end.

(** How a server asks for a password, and how it is told that it is right. *)
Inductive method := Trust | Cleartext | Md5 (salt : string).
#[export] Instance method_eq_dec : EqDecision method.
Proof. solve_decision. Defined.
Definition wf_method (m : method) : Prop := match m with Md5 salt => String.length salt = 4 | _ => True end.
Definition auth_ok : msg := ("R"%char, be 4 0).
Definition auth_request (m : method) : msg :=
  match m with
  | Trust => auth_ok
  | Cleartext => ("R"%char, be 4 3)
  | Md5 salt => ("R"%char, be 4 5 +:+ salt)
  end.

Section startup.
Context {Hlib : PqLib} {T : Type} {Hnet : Net T} {Henv : Env T}.
Implicit Types (c : conn (T:=T)).

(** What PostgreSQL expects of a client that is asked for an MD5 password: the text md5
    and the hash, in hexadecimal digits, of the salt after the hash, in hexadecimal
    digits, of the user's name after the password. *)
Definition hex_of (s : string) : string :=
  flat_map_str (λ d, let n := nat_of_ascii d in
    String (default "0"%char (String.get (n / 16) "0123456789abcdef"))
      (String (default "0"%char (String.get (n mod 16) "0123456789abcdef")) "")) s.
Definition md5_answer (user password salt : string) : string :=
  "md5" +:+ hex_of (md5_Sum (hex_of (md5_Sum (password +:+ user)) +:+ salt)).

Lemma hex_of_hex s : AmzSign.hex s = hex_of s.
Proof. induction s as [|c s IH]; [done|]. cbn [AmzSign.hex hex_of flat_map_str]. f_equal; [all_bytes c|exact IH]. Qed.
Lemma md5_password_answer o salt :
  md5_password o salt = md5_answer (vs_Get "user" o) (vs_Get "password" o) salt.
Proof. by rewrite /md5_password /md5s !hex_of_hex. Qed.

(** The password message a method asks for. *)
Definition credentials (m : method) (o : values) : string :=
  match m with
  | Trust => ""
  | Cleartext => vs_Get "password" o
  | Md5 salt => md5_answer (vs_Get "user" o) (vs_Get "password" o) salt
  end.

(** *** The startup packet *)
Fixpoint params_bytes (l : list (string * string)) : string :=
  match l with
  | [] => ""
  | (k, v) :: l =>
      if isDriverSetting k then params_bytes l
      else cstr (if decide (k = "dbname") then "database" else k) +:+ cstr v +:+ params_bytes l
  end.
Definition startup_payload (l : list (string * string)) : string := be 4 196608 +:+ params_bytes l +:+ cstr "".
Definition startup_packet (l : list (string * string)) : string :=
  be 4 (Z.of_nat (4 + String.length (startup_payload l))) +:+ startup_payload l.

Lemma builds_params l b done t p : builds b done t p → builds (startup_params l b) done t (p +:+ params_bytes l).
Proof.
  revert b p. induction l as [|[k v] l IH]; intros b p Hb; cbn [startup_params params_bytes].
  - by rewrite str_app_nil_r.
  - destruct (isDriverSetting k); [by apply IH|]. rewrite /cstr !str_app_assoc -(str_app_assoc p).
    apply IH. rewrite -(str_app_assoc _ v). by apply builds_bytes, builds_bytes.
Qed.
Lemma wrap_startup l : wrap (startup_message l) = String zero (startup_packet l).
Proof.
  rewrite (wrap_builds _ "" zero (startup_payload l)); [done|].
  rewrite /startup_payload str_app_assoc. apply builds_bytes, builds_params.
  apply (builds_bytes _ _ _ "" (be 4 196608)), builds_new.
Qed.

(** *** Receiving *)
Lemma recv_go_message n m ms rest c :
  pending c (m :: ms) rest → sized m = true → has_char m.1 (String zero "EN") = false → (0 < n)%nat →
  ∃ c', recv_go n c = (Ret (Ok m), c') ∧ pending c' ms rest ∧ same c c'.
Proof.
  intros Hp Hs Hm Hn. destruct n as [|n]; [lia|].
  assert (∃ c', recvMessage c = (Ret (Ok m), c') ∧ pending c' ms rest ∧ same c c') as (c' & Hr & Hp' & Hsame).
  { destruct Hp as [[Hz Hi]|(Hz & ms' & [= -> ->] & Hi)].
    - exists (set_inp (frames ms +:+ rest) c). split_and!; [|by left|by apply same_intro].
      apply recvMessage_wire; [done| |done]. by rewrite Hi /= str_app_assoc.
    - exists (set_saved zero "" c). split_and!; [|by left|by apply same_intro].
      rewrite /recvMessage /mbind /M_bind /get decide_True //. }
  exists c'. split_and!; [|done|done]. cbn [recv_go]. rewrite (bindR_run _ _ _ _ _ Hr).
  destruct m as [t p]. cbn in Hm. cbv beta iota.
  rewrite decide_False; [|intros ->; done]. rewrite decide_False; [done|intros ->; done].
Qed.
Lemma recv_message m ms rest c :
  pending c (m :: ms) rest → sized m = true → has_char m.1 (String zero "EN") = false →
  ∃ c', recv c = (Ret (Ok m), c') ∧ pending c' ms rest ∧ same c c'.
Proof. intros. rewrite /recv. apply recv_go_message; try done. rewrite /msg_fuel. lia. Qed.


(** [c'] is [c] but for what waits, the other end, the transaction status and the
    parameters. *)
Definition started (t : T) (s : ascii) c c' : Prop :=
  c_net c' = t ∧ txnStatus c' = s ∧ bad c' = bad c ∧ namei c' = namei c ∧ c_globals c' = c_globals c ∧
  disablePreparedBinaryResult c' = disablePreparedBinaryResult c ∧ binaryParameters c' = binaryParameters c.
Lemma started_trans t1 s1 t2 s2 c1 c2 c3 : started t1 s1 c1 c2 → started t2 s2 c2 c3 → started t2 s2 c1 c3.
Proof. rewrite /started. intros (? & ? & ? & ? & ? & ? & ?) (? & ? & ? & ? & ? & ? & ?). split_and!; congruence. Qed.
Lemma moved_started t s c c' : moved t s c c' → started t s c c'.
Proof. intros (? & ? & ? & ? & ? & ? & ? & ?)%moved_fields. done. Qed.

Lemma processParameterStatus_any p c : start_msg ("S"%char, p) = true →
  ∃ c', processParameterStatus p c = (Ret (Ok tt), c') ∧ started (c_net c) (txnStatus c) c c' ∧
    c_inp c' = c_inp c ∧ saveMessageType c' = saveMessageType c ∧ saveMessageBuffer c' = saveMessageBuffer c.
Proof.
  rewrite /start_msg. intros [_ Hp]%andb_true_iff. cbn [fst snd] in Hp.
  destruct (take_until zero p) as [[param v]|] eqn:E; [|done]. apply bool_decide_eq_true in Hp as [[v1 v2] Ev].
  rewrite /processParameterStatus /bindR /mbind /M_bind /on_msg /r_string E.
  destruct (decide (param = "server_version" ∨ param = "TimeZone")) as [Hf|Hf]; cbn.
  - rewrite Ev /gets /=. case_decide.
    + destruct (scan_version v1) as [[[a b] d]|]; eexists; by split_and!.
    + case_decide; eexists; by split_and!.
  - rewrite /gets /= decide_False; [|tauto]. rewrite decide_False; [|tauto]. eexists. by split_and!.
Qed.

Lemma pending_nil c : pending c [] "" → c_inp c = "" ∧ saveMessageType c = zero.
Proof. intros [[Hz Hi]|(_ & ms & ? & _)]; [by rewrite Hi|done]. Qed.

Lemma startup_go_params n l s o c :
  forallb start_msg l = true → pending c (l ++ [ready s]) "" → (length l < n)%nat →
  ∃ c', startup_go n o c = (Ret (Ok tt), c') ∧ pending c' [] "" ∧ started (c_net c) s c c'.
Proof.
  revert n c. induction l as [|m l IH]; intros [|n] c Hl Hp Hn; try (simpl in Hn; lia).
  - destruct (recv_message (ready s) [] "" c Hp ltac:(done) ltac:(done)) as (c1 & Hr & Hp1 & Hs1).
    exists (set_txnStatus s c1). split_and!; [|done|].
    + cbn [startup_go]. rewrite (bindR_run _ _ _ _ _ Hr) /ready. by dchars.
    + destruct (moved_started _ _ _ _ Hs1) as (? & ? & ?). by split.
  - cbn in Hl. apply andb_true_iff in Hl as [Hm Hl]. pose proof Hm as [Hsz Hty]%andb_true_iff.
    destruct m as [t p]. cbn [fst] in Hty.
    assert (t = "K"%char ∨ t = "S"%char) as Ht.
    { clear -Hty. destruct t as [[] [] [] [] [] [] [] []]; try discriminate Hty; tauto. }
    destruct (recv_message (t, p) (l ++ [ready s]) "" c Hp Hsz) as (c1 & Hr & Hp1 & Hs1); [by destruct Ht as [-> | ->]|].
    pose proof (moved_started _ _ _ _ Hs1) as Hst1. pose proof Hst1 as (Hn1 & _).
    cbn [startup_go]. rewrite (bindR_run _ _ _ _ _ Hr). destruct Ht as [-> | ->]; dchars.
    + destruct (IH n c1 Hl Hp1 ltac:(simpl in Hn; lia)) as (c2 & Hgo & Hp2 & Hst2).
      exists c2. split_and!; [done|done|]. rewrite -Hn1. by eapply started_trans.
    + destruct (processParameterStatus_any p c1 Hm) as (c2 & Hps & Hst2 & Hi2 & Hz2 & Hb2).
      assert (pending c2 (l ++ [ready s]) "") as Hp2 by by rewrite /pending Hi2 Hz2 Hb2.
      destruct (IH n c2 Hl Hp2 ltac:(simpl in Hn; lia)) as (c3 & Hgo & Hp3 & Hst3).
      exists c3. rewrite (bindR_run _ _ _ _ _ Hps). split_and!; [done|done|].
      pose proof Hst2 as (Hn2 & _). rewrite -Hn1 -Hn2.
      eapply started_trans; [exact Hst1|]. by eapply started_trans.
Qed.

(** A write on a connection where nothing waits. *)
Lemma send_pending m c t ms : pending c [] "" → net_write (wrap m) (c_net c) = (None, frames ms, t) →
  ∃ c', send m c = (Ret (Ok tt), c') ∧ pending c' ms "" ∧ started t (txnStatus c) c c'.
Proof.
  intros [Hi Hz]%pending_nil Hn. exists (set_net t (frames ms) c). split_and!; [|left|done].
  - rewrite /send /mbind /M_bind /conn_Write Hn Hi str_app_nil_l. done.
  - by rewrite str_app_nil_r.
Qed.

(** The answer to a password that is right. *)
Lemma password_accepted c ms : pending c (auth_ok :: ms) "" →
  ∃ c', read_password_response c = (Ret (Ok tt), c') ∧ pending c' ms "" ∧ same c c'.
Proof.
  intros Hp. destruct (recv_message auth_ok ms "" c Hp ltac:(done) ltac:(done)) as (c1 & Hr & Hp1 & Hs1).
  exists c1. split_and!; [|done|done]. rewrite /read_password_response (bindR_run _ _ _ _ _ Hr) /auth_ok.
  cbv beta iota. destruct (decide ("R"%char ≠ "R"%char)) as [[]|_]; [done|]. done.
Qed.

Lemma auth_password m o c t ms : wf_method m → m ≠ Trust → pending c [] "" →
  net_write (frame "p" (cstr (credentials m o))) (c_net c) = (None, frames (auth_ok :: ms), t) →
  ∃ c', auth (auth_request m).2 o c = (Ret (Ok tt), c') ∧ pending c' ms "" ∧ started t (txnStatus c) c c'.
Proof.
  intros Hw Hm Hp Hn.
  assert (wrap (password_message (credentials m o)) = frame "p" (cstr (credentials m o))) as Hwrap
    by (unfold cstr; wire).
  destruct (send_pending (password_message (credentials m o)) c t (auth_ok :: ms) Hp) as (c1 & Hs & Hp1 & Hst1);
    [by rewrite Hwrap|].
  destruct (password_accepted c1 ms Hp1) as (c2 & Hr & Hp2 & Hs2).
  exists c2. split_and!; [|done|].
  2:{ pose proof Hst1 as (Hn1 & Hx1 & _). pose proof (moved_started _ _ _ _ Hs2) as Hst2.
      rewrite Hn1 Hx1 in Hst2. by eapply started_trans. }
  destruct m as [| |salt]; [done| |]; rewrite /auth; cbn [auth_request snd].
  - rewrite -(str_app_nil_r (be 4 3)) r_int32_be //.
    destruct (decide (3 = 0)%Z) as [?|_]; [done|]. destruct (decide (3 = 3)%Z) as [_|[]]; [|done].
    rewrite (bindR_run _ _ _ _ _ Hs). exact Hr.
  - rewrite r_int32_be //.
    destruct (decide (5 = 0)%Z) as [?|_]; [done|]. destruct (decide (5 = 3)%Z) as [?|_]; [done|].
    destruct (decide (5 = 5)%Z) as [_|[]]; [|done].
    assert (r_next 4 salt = (Ret (Ok salt), "")) as Hsalt
      by (rewrite -{1}(str_app_nil_r salt); apply r_next_app; by rewrite Hw).
    erewrite bindR_run; [|by eapply on_msg_run]. rewrite md5_password_answer.
    rewrite (bindR_run _ _ _ _ _ Hs). exact Hr.
Qed.

(** What a server with a method does: it asks, and accepts the right password. *)
Definition serves (m : method) (iter : values → list (string * string)) (o : values)
    (t : T) (l : list msg) (s : ascii) (t' : T) : Prop :=
  match m with
  | Trust => net_write (startup_packet (iter o)) t = (None, frames (auth_ok :: l ++ [ready s]), t')
  | _ => ∃ t1, net_write (startup_packet (iter o)) t = (None, frames [auth_request m], t1) ∧
               net_write (frame "p" (cstr (credentials m o))) t1 = (None, frames (auth_ok :: l ++ [ready s]), t')
  end.

Lemma startup_serves m iter o c l s t' n :
  wf_method m → forallb start_msg l = true → serves m iter o (c_net c) l s t' → pending c [] "" →
  (S (length l) < n)%nat →
  ∃ c', startup iter n o c = (Ret (Ok tt), c') ∧ pending c' [] "" ∧ started t' s c c'.
Proof.
  intros Hm Hl Hsv Hp Hn. destruct n as [|n]; [lia|].
  assert (∀ t ms, net_write (startup_packet (iter o)) (c_net c) = (None, frames ms, t) →
    ∃ c1, sendStartupPacket (startup_message (iter o)) c = (Ret (Ok tt), c1) ∧ pending c1 ms "" ∧
      started t (txnStatus c) c c1) as Hsend.
  { intros t ms Hw. pose proof (pending_nil _ Hp) as [Hi Hz].
    exists (set_net t (frames ms) c). split_and!; [|left; by rewrite str_app_nil_r|done].
    rewrite /sendStartupPacket wrap_startup. destruct (decide (zero ≠ zero)) as [[]|_]; [done|].
    rewrite /mbind /M_bind /conn_Write Hw Hi str_app_nil_l. done. }
  assert (auth (auth_ok).2 o = mret (Ok tt)) as Hok.
  { rewrite /auth. cbn [auth_ok snd]. rewrite -(str_app_nil_r (be 4 0)) r_int32_be //. }
  assert (m ≠ Trust → ∃ t1, net_write (startup_packet (iter o)) (c_net c) = (None, frames [auth_request m], t1) ∧
    net_write (frame "p" (cstr (credentials m o))) t1 = (None, frames (auth_ok :: l ++ [ready s]), t')) as Hsv'
    by by destruct m.
  rewrite /startup. destruct (decide (m = Trust)) as [->|Hmt].
  - destruct (Hsend _ _ Hsv) as (c1 & Hs & Hp1 & Hst1). rewrite (bindR_run _ _ _ _ _ Hs).
    destruct (recv_message _ _ _ _ Hp1 ltac:(done) ltac:(done)) as (c2 & Hr & Hp2 & Hs2).
    pose proof Hst1 as (Hn1 & _). pose proof (moved_started _ _ _ _ Hs2) as Hst2. pose proof Hst2 as (Hn2 & _).
    destruct (startup_go_params n l s o c2 Hl Hp2 ltac:(lia)) as (c3 & Hgo & Hp3 & Hst3).
    exists c3. split_and!; [|done|]; [|rewrite -Hn1 -Hn2; eapply started_trans; [exact Hst1|]; by eapply started_trans].
    cbn [startup_go]. rewrite (bindR_run _ _ _ _ _ Hr). cbn [auth_ok]. dchars. cbn [auth_ok snd] in Hok.
    rewrite Hok. exact Hgo.
  - destruct (Hsv' Hmt) as (t1 & Hw1 & Hw2).
    destruct (Hsend _ _ Hw1) as (c1 & Hs & Hp1 & Hst1). rewrite (bindR_run _ _ _ _ _ Hs).
    destruct (recv_message (auth_request m) [] "" c1 Hp1) as (c2 & Hr & Hp2 & Hs2).
    { destruct m as [| |salt]; [done|done|]. apply bool_decide_eq_true. cbn [auth_request snd].
      rewrite str_length_app be_length Hm. done. }
    { by destruct m. }
    pose proof Hst1 as (Hn1 & _). pose proof (moved_started _ _ _ _ Hs2) as Hst2. pose proof Hst2 as (Hn2 & Hx2 & _).
    destruct (auth_password m o c2 t' (l ++ [ready s]) Hm Hmt Hp2) as (c3 & Ha & Hp3 & Hst3); [by rewrite Hn2 Hn1|].
    destruct (startup_go_params n l s o c3 Hl Hp3 ltac:(lia)) as (c4 & Hgo & Hp4 & Hst4).
    pose proof Hst3 as (Hn3 & _).
    exists c4. split_and!; [|done|].
    + cbn [startup_go]. rewrite (bindR_run _ _ _ _ _ Hr).
      destruct (auth_request m) as [ty pay] eqn:Eq. assert (ty = "R"%char) as -> by (destruct m; cbn in Eq; unfold auth_ok in Eq; congruence).
      dchars. rewrite (bindR_run _ _ _ _ _ Ha). exact Hgo.
    + rewrite -Hn3. eapply started_trans; [exact Hst1|]. eapply started_trans; [exact Hst2|].
      by eapply started_trans.
Qed.

(** The connection that [DialOpen] yields without TLS and without a time limit. *)
Lemma DialOpen_session url_Parse iter n g name o disable binary t m l s t' :
  open_settings url_Parse name = Ret (Ok o) → handleDriverSettings o = Ok (disable, binary) →
  dial o = (Ok t, o) → vs_Get "sslmode" o = "disable" → has_timeout o = false →
  wf_method m → forallb start_msg l = true → serves m iter o t l s t' → (S (length l) < n)%nat →
  ∃ c, DialOpen url_Parse iter n g name = Ret (Ok c) ∧ ahead c [] "" ∧ bad c = false ∧
    txnStatus c = s ∧ c_net c = t' ∧ c_globals c = g ∧
    disablePreparedBinaryResult c = disable ∧ binaryParameters c = binary.
Proof.
  intros Ho Hd Hdial Hssl Hto Hm Hl Hsv Hn.
  destruct (startup_serves m iter o (new_conn t g disable binary) l s t' n Hm Hl Hsv ltac:(by left) Hn)
    as (c & Hr & Hp & Hnet' & Hst & Hb & Hi & Hg & Hdis & Hbin).
  exists c. split_and!; [|by exists []|done..].
  rewrite /DialOpen Ho Hd Hdial /open_session.
  assert (ssl o (new_conn t g disable binary) = (Ret (Ok tt), new_conn t g disable binary)) as Hs.
  { rewrite /ssl /ssl_mode Hssl. done. }
  by rewrite (bindR_run _ _ _ _ _ Hs) (bindR_run _ _ _ _ _ Hr) Hto.
Qed.
End startup.
End PqStartup.
