(* ===== verification/PqSql.v ===== *)
(** * The file table's queries over lib/pq

    The interface [PgOps] that the bundler's file table ([db.go]) is verified against
    promises rows for a statement and its arguments.  Here that promise is kept by the
    driver: [pq_query] is a query through [database/sql] on a connection of lib/pq,
    the server is an engine that executes statements ([Engine]) behind the wire
    protocol ([Postgres]), and what the query returns is what the engine says. *)

From S2P Require Import Prelude GoStrings GoFloat Services Memcache AmqpWire AmqpTransfer AmqpOpen PqBuf PqEncode PqConn PqCodec PqSession PqRows.

(** What the server does with a statement: the types of its parameters and its
    columns, or the fields of an error; for arguments some rows and then the command
    tag, or the fields of an error that ended the execution. *)
Class Engine (E : Type) := {
  eng_describe : string → E → list (ascii * string) + list Z * list PqSession.column;
  eng_exec : string → list string → E → (list (list sqlval) * (list (ascii * string) + string)) * E;
}.

Module PqSql.
Import AmqpWire PqBuf PqEncode PqConn PqSession PqRows PqValues.

(** ** [database/sql] *)
Section client.
Context {Hlib : PqLib} {T : Type} {Hnet : Net T}.

(** The values that the bundler's [Scan]s take: texts, integers and nulls. *)
Definition to_sqlval (v : value) : option sqlval :=
  match v with
  | VBytes s | VString s => Some (SText s)
  | VInt z => Some (SInt z)
  | VNil => Some SNull
  | _ => None
  end.

Definition unsupported : error := ErrorS "sql: Scan error".
(** [db.Query(sql, args...)] and the loop over its rows. *)
Definition pq_query (sql : string) (args : list string) : M (conn (T:=T)) (result sqlrows) :=
  r ← Query sql (VString <$> args);
  match r with
  | Err e => mret (Err e)
  | Ok None => throw nil_deref
  | Ok (Some rs) =>
      '(l, err) ← fetch rs;
      mret match mapM (mapM to_sqlval) l with
           | Some data => Ok (Services.mkRows data err)
           | None => Err unsupported
           end
  end.
End client.

(** ** Formats of a result *)

(** What the format codes of a Bind mean for [n] columns: none is text, one is for all
    of them, otherwise one for each. *)
Definition spread (n : nat) (codes : list Z) : list format :=
  match codes with
  | [] => replicate n formatText
  | [c] => replicate n (format_of c)
  | _ => format_of <$> codes
  end.
(** There are none, one, or as many as there are columns. *)
Definition wf_codes (n : nat) (codes : list Z) : Prop := (length codes ≤ 1)%nat ∨ length codes = n.
Definition read_codes : P (list Z) := counted r_int16.

Lemma format_codes_listed fs : format_codes fs = listed (be 2) (format_code <$> fs).
Proof. induction fs as [|f fs IH]; [done|]. by rewrite fmap_cons /= IH. Qed.
Lemma fmap_const {A B} (f : A → B) b (l : list A) : (∀ x, x ∈ l → f x = b) → f <$> l = replicate (length l) b.
Proof.
  induction l as [|x l IH]; intros Hl; [done|]. rewrite fmap_cons (Hl x); [|set_solver].
  cbn. f_equal. apply IH. set_solver.
Qed.

(** The formats the driver decodes with are the ones it asks for. *)
Lemma decideColumnFormats_read typs force : (Z.of_nat (length typs) < 65536)%Z →
  ∃ codes, read_codes (decideColumnFormats typs force).2 = (Ret (Ok codes), "") ∧
    wf_codes (length typs) codes ∧ spread (length typs) codes = (decideColumnFormats typs force).1.
Proof.
  intros Hl. rewrite /decideColumnFormats. destruct (decide (typs = [])) as [->|Hn].
  { exists []. split_and!; [done|left; simpl; lia|done]. }
  destruct force.
  { exists []. split_and!; [done|left; simpl; lia|]. cbn. symmetry. by apply fmap_const. }
  destruct (forallb binary_type typs) eqn:Eb.
  { exists [1%Z]. split_and!; [done|left; simpl; lia|]. cbn. symmetry. apply fmap_const. intros x Hx.
    rewrite forallb_forall in Eb. rewrite Eb //. by apply list_elem_of_In. }
  destruct (forallb (λ o, negb (binary_type o)) typs) eqn:Et.
  { exists []. split_and!; [done|left; simpl; lia|]. cbn. symmetry. apply fmap_const. intros x Hx.
    rewrite forallb_forall in Et. specialize (Et x ltac:(by apply list_elem_of_In)).
    by destruct (binary_type x). }
  set (fmts := (λ o, if binary_type o then formatBinary else formatText) <$> typs).
  exists (format_code <$> fmts). split_and!; [|right; by rewrite !length_fmap|].
  - cbn [snd]. rewrite format_codes_listed -(str_app_nil_r (_ +:+ _)).
    rewrite -(length_fmap format_code fmts) /read_codes. etransitivity; [apply (counted_listed r_int16 (be 2) id (format_code <$> fmts) "")|by rewrite list_fmap_id].
    + rewrite !length_fmap. lia.
    + intros x r Hx. apply r_int16_be. apply list_elem_of_fmap in Hx as (f & -> & Hf).
      apply list_elem_of_fmap in Hf as (o & -> & _). destruct (binary_type o); simpl; lia.
  - assert (format_of <$> (format_code <$> fmts) = fmts) as Hf.
    { rewrite /fmts -!list_fmap_compose. apply list_fmap_ext. intros i o _. cbn. by destruct (binary_type o). }
    destruct typs as [|x [|y typs]]; [done| |exact Hf].
    simpl in Eb, Et. rewrite andb_true_r in Eb. rewrite andb_true_r in Et. by destruct (binary_type x).
Qed.

(** ** Values on the wire *)
Definition wire_val (f : format) (v : sqlval) : option string :=
  match v with
  | SNull => None
  | SText s => Some s
  | SInt z => Some match f with formatBinary => be 8 z | _ => pretty z end
  end.
(** The values of a column's type. *)
Definition fits (typ : Z) (v : sqlval) : Prop :=
  match v with
  | SNull => True
  | SText s => typ ∈ [T_text; T_varchar] ∧ shorter (2 ^ 31) s = true
  | SInt z => typ = T_int8 ∧ in_bits 64 z
  end.

Lemma read_digits_dec s a n b :
  Memcache.dec_go s a = Some b → read_digits s (Z.of_N a) n = (Z.of_N b, (n + String.length s)%nat, "").
Proof.
  revert a n. induction s as [|c s IH]; intros a n H.
  - injection H as <-. by rewrite Nat.add_0_r.
  - cbn [Memcache.dec_go] in H. cbn [read_digits]. rewrite /is_digit.
    destruct (bool_decide _) eqn:E; [|done]. apply bool_decide_eq_true in E.
    replace (Z.of_N a * 10 + digit_val c)%Z with (Z.of_N (a * 10 + N.of_nat (nat_of_ascii c - 48)));
      [|rewrite /digit_val; lia].
    rewrite (IH _ _ H). cbn [String.length]. do 2 f_equal. lia.
Qed.
Lemma dec_go_pretty_N (x : N) : Memcache.dec_go (pretty x) 0 = Some x.
Proof. rewrite /pretty /pretty_N. case_decide; [by subst|]. apply Memcache.dec_go_pretty. Qed.
Lemma pretty_digits (x : N) : ∃ k, read_digits (pretty x) 0 0 = (Z.of_N x, S k, "").
Proof.
  rewrite (read_digits_dec _ 0 0 _ (dec_go_pretty_N x)). pose proof (Memcache.pretty_not_empty x).
  destruct (pretty x); [done|]. by eexists.
Qed.
Lemma ParseInt_pretty z : in_bits 64 z → AmqpOpen.ParseInt (pretty z) 64 = Ok z.
Proof.
  intros Hz. rewrite /AmqpOpen.ParseInt. rewrite /in_bits in Hz.
  assert (∀ x : N, ∃ c t, pretty x = String c t ∧ c ≠ "-"%char ∧ c ≠ "+"%char) as Hd.
  { intros x. pose proof (Memcache.pretty_chars x) as Hc. pose proof (Memcache.pretty_not_empty x).
    destruct (pretty x) as [|c t]; [done|]. exists c, t. cbn in Hc. apply andb_true_iff in Hc as [Hc _].
    split; [done|]. split; intros ->; done. }
  destruct z as [|p|p]; [done| |].
  - change (pretty (Z.pos p)) with (pretty (N.pos p)). destruct (Hd (N.pos p)) as (c & t & E & H1 & H2).
    destruct (pretty_digits (N.pos p)) as (k & Hk). rewrite E in Hk |- *. rewrite !decide_False // Hk.
    rewrite decide_True //.
  - change (pretty (Z.neg p)) with (String "-"%char (pretty (N.pos p))).
    destruct (pretty_digits (N.pos p)) as (k & Hk). cbv beta iota.
    destruct (decide ("-"%char = "-"%char)) as [_|[]]; [|done]. rewrite Hk decide_True //.
Qed.

Lemma pretty_go_length k (x : N) s :
  (x < 2 ^ N.of_nat k)%N → (String.length (pretty_N_go x s) ≤ k + String.length s)%nat.
Proof.
  revert x s. induction k as [|k IH]; intros x s Hx.
  - assert (x = 0)%N as -> by (simpl in Hx; lia). by rewrite pretty_N_go_0.
  - destruct (decide (x = 0)%N) as [->|Hn]; [rewrite pretty_N_go_0; lia|].
    rewrite pretty_N_go_step; [|lia]. etransitivity; [apply IH|simpl; lia].
    rewrite Nat2N.inj_succ N.pow_succ_r' in Hx. apply N.Div0.div_lt_upper_bound. lia.
Qed.
Lemma pretty_length z : in_bits 64 z → (String.length (pretty z) ≤ 66)%nat.
Proof.
  intros Hz. rewrite /in_bits in Hz.
  assert (∀ p, (N.pos p < 2 ^ N.of_nat 65)%N → (String.length (pretty (N.pos p)) ≤ 65)%nat) as Hp.
  { intros p Hlt. rewrite /pretty /pretty_N. case_decide; [done|].
    pose proof (pretty_go_length 65 (N.pos p) "" Hlt) as Hk. simpl in Hk. lia. }
  destruct z as [|p|p]; [vm_compute; lia| |].
  - change (pretty (Z.pos p)) with (pretty (N.pos p)). specialize (Hp p ltac:(lia)). lia.
  - change (pretty (Z.neg p)) with (String "-"%char (pretty (N.pos p))). specialize (Hp p ltac:(lia)). simpl. lia.
Qed.

Section typed.
Context {Hlib : PqLib}.

Lemma binaryDecode_int8 z g : in_bits 64 z → binaryDecode (be 8 z) T_int8 g = (Ret (Ok (VInt z)), g).
Proof.
  intros Hz. pose proof (be_length 8 z) as Hl. pose proof (be_num_be 8 0 z) as Hn.
  rewrite Z.mul_0_l Z.add_0_l in Hn.
  revert Hl Hn. generalize (be 8 z). intros s Hl Hn. rewrite /binaryDecode.
  destruct (decide (T_int8 = T_bytea)) as [?|_]; [done|].
  destruct (decide (T_int8 = T_int8)) as [_|[]]; [|done].
  destruct (decide (String.length s < 8)%nat) as [?|_]; [lia|].
  rewrite AmqpTransfer.split_at_over; [|lia]. cbn [fst]. by rewrite Hn signed_mod.
Qed.

(** A value of a column is decoded to itself, in the format that was asked for. *)
Lemma decode_wire ps typ f v b g : fits typ v → wire_val f v = Some b →
  f = formatText ∨ (f = formatBinary ∧ binary_type typ = true) →
  ∃ x, decode ps b typ f g = (Ret (Ok x), g) ∧ to_sqlval x = Some v.
Proof.
  destruct v as [s|z|]; cbn [fits wire_val]; [| |done].
  - intros [Ht _] [= <-] [->|[-> Hb]].
    + exists (VBytes s). split; [|done].
      apply elem_of_cons in Ht as [->|Ht]; [|apply list_elem_of_singleton in Ht as ->]; done.
    + apply elem_of_cons in Ht as [->|Ht]; [|apply list_elem_of_singleton in Ht as ->]; done.
  - intros [-> Hz] [= <-] [->|[-> _]]; exists (VInt z); (split; [|done]); cbn [decode].
    + rewrite /textDecode. cbv [T_int8 T_bytea T_timestamptz T_timestamp T_date T_time T_timetz T_bool T_int4 T_int2].
      repeat match goal with |- context [decide ?P] =>
        first [destruct (decide P) as [H|_]; [exfalso; clear -H; naive_solver|]
              |destruct (decide P) as [_|H]; [|exfalso; clear -H; naive_solver]] end.
      by rewrite ParseInt_pretty.
    + by apply binaryDecode_int8.
Qed.

(** The rows of an engine as the server sends them. *)
Definition wire_row (fmts : list format) (r : list sqlval) : list (option string) := zip_with wire_val fmts r.

(** Formats a column may be asked in. *)
Definition askable (typ : Z) (f : format) : Prop := f = formatText ∨ (f = formatBinary ∧ binary_type typ = true).

Lemma decode_wire_row ps typs fmts r g : Forall2 fits typs r → Forall2 askable typs fmts →
  ∃ vs, decode_vals ps typs fmts (wire_row fmts r) g = (Ret (Ok vs), g) ∧ mapM to_sqlval vs = Some r.
Proof.
  intros Hr. revert fmts. induction Hr as [|typ v typs r Hv Hr IH]; intros fmts Hf.
  { apply Forall2_nil_inv_l in Hf as ->. by exists []. }
  apply Forall2_cons_inv_l in Hf as (f & fmts' & Hf & Hfs & ->).
  destruct (IH fmts' Hfs) as (vs & Hd & Hvs). rewrite /wire_row. cbn [zip_with].
  destruct (wire_val f v) as [b|] eqn:E; cbn [decode_vals].
  - destruct (decode_wire ps typ f v b g Hv E Hf) as (x & Hx & Hxv). exists (x :: vs).
    rewrite (bindR_run _ _ _ _ _ Hx) (bindR_run _ _ _ _ _ Hd). split; [done|]. by rewrite /= Hxv Hvs.
  - destruct v; try done. exists (VNil :: vs). rewrite (bindR_run _ _ _ _ _ Hd). split; [done|]. by rewrite /= Hvs.
Qed.
Lemma decode_wire_rows ps typs fmts rs g : Forall (Forall2 fits typs) rs → Forall2 askable typs fmts →
  ∃ l, decode_rows ps typs fmts (wire_row fmts <$> rs) g = (Ret (Ok l), g) ∧ mapM (mapM to_sqlval) l = Some rs.
Proof.
  intros Hr Hf. induction Hr as [|r rs Hr Hrs (l & Hd & Hl)]; [by exists []|].
  destruct (decode_wire_row ps typs fmts r g Hr Hf) as (vs & Hv & Hvs). exists (vs :: l).
  rewrite fmap_cons. cbn [decode_rows]. rewrite (bindR_run _ _ _ _ _ Hv) (bindR_run _ _ _ _ _ Hd).
  split; [done|]. by rewrite /= Hvs Hl.
Qed.
Lemma wire_row_wf typs fmts r : Forall2 fits typs r → length fmts = length typs →
  wf_row (length typs) (wire_row fmts r).
Proof.
  intros Hr Hl. split; [rewrite length_zip_with (Forall2_length _ _ _ Hr) in Hl |- *; lia|].
  revert fmts Hl. induction Hr as [|typ v typs r Hv Hr IH]; intros [|f fmts] Hl; try done.
  constructor; [|apply IH; simpl in Hl; lia].
  destruct v as [s|z|]; cbn [wire_val wf_datum]; [by destruct Hv| |done].
  destruct Hv as [_ Hz]. apply bool_decide_eq_true. pose proof (pretty_length z Hz).
  destruct f; rewrite ?be_length; lia.
Qed.

Lemma decideColumnFormats_askable typs force : Forall2 askable typs (decideColumnFormats typs force).1.
Proof.
  rewrite /decideColumnFormats. destruct (decide (typs = [])) as [->|Hn]; [done|].
  assert (Forall2 askable typs ((λ o, if binary_type o then formatBinary else formatText) <$> typs)).
  { clear. induction typs as [|o typs IH]; constructor; [|done].
    destruct (binary_type o) eqn:E; [by right|by left]. }
  destruct force; [|by destruct (forallb binary_type typs), (forallb (λ o, negb (binary_type o)) typs)].
  clear. induction typs as [|o typs IH]; constructor; [by left|done].
Qed.
End typed.

(** ** The server *)

(** What an engine says is well formed: descriptions and errors that fit the
    protocol, and rows of the types of their columns. *)
Class EngineLaws (E : Type) {Heng : Engine E} : Prop := {
  describe_laws sql e :
    match eng_describe sql e with
    | inl fs => forallb wf_error_field fs = true
    | inr (typs, cols) => wf_types typs ∧ wf_columns cols ∧ T_bytea ∉ typs
    end;
  exec_laws sql args e typs cols :
    eng_describe sql e = inr (typs, cols) →
    let '(rs, ending) := (eng_exec sql args e).1 in
    Forall (Forall2 fits (co_type <$> cols)) rs ∧ wf_ending ending;
}.

(** The wire protocol of a server: [db t] is the state of its engine and
    [holds t o] says that its unnamed statement is [o].  It answers to requests of
    less than a gigabyte, with asynchronous messages anywhere.  An error ends the
    execution of a statement before its parameters are bound, before the first row or
    after any number of rows. *)
Definition small (b : string) : Prop := (Z.of_nat (String.length b) < 2 ^ 30)%Z.

Class Postgres {E : Type} {Heng : Engine E} {T : Type} {Hnet : Net T}
    (db : T → E) (holds : T → option string → Prop) : Prop := {
  pg_prepare sql t o :
    holds t o → has_char zero sql = false → small (prepare_request sql "") →
    ∃ ms s t', net_write (prepare_request sql "") t = (None, frames ms, t') ∧ forallb wf_msg ms = true ∧
      db t' = db t ∧
      match eng_describe sql (db t) with
      | inl fs => answers ms = [error_msg fs; ready s] ∧ holds t' None
      | inr (typs, cols) =>
          answers ms = [("1"%char, ""); param_desc typs; desc_msg cols; ready s] ∧ holds t' (Some sql)
      end;
  pg_execute sql args bind codes t typs cols :
    holds t (Some sql) → eng_describe sql (db t) = inr (typs, cols) → length args = length typs →
    read_codes bind = (Ret (Ok codes), "") → wf_codes (length cols) codes →
    let b := execute_request (bind_payload "" (length args) (listed datum_bytes (Some <$> args)) bind) in
    small b →
    ∃ ms s t', net_write b t = (None, frames ms, t') ∧ forallb wf_msg ms = true ∧
      db t' = (eng_exec sql args (db t)).2 ∧ holds t' (Some sql) ∧
      let '(rs, ending) := (eng_exec sql args (db t)).1 in
      answers ms = ("2"%char, "") ::
        (data_row <$> (wire_row (spread (length cols) codes) <$> rs)) ++ [ending_msg ending; ready s] ∨
      (∃ fs, rs = [] ∧ ending = inl fs ∧ answers ms = [error_msg fs; ready s]);
}.

(** What a query is meant to return. *)
Definition pg_error {A} (fs : list (ascii * string)) : result A := Err (recover_error (PqError (error_of fs))).
Definition eng_query {E : Type} {Heng : Engine E} (sql : string) (args : list string) (e : E) :
    result sqlrows * E :=
  match eng_describe sql e with
  | inl fs => (pg_error fs, e)
  | inr _ =>
      match eng_exec sql args e with
      | ([], inl fs, e') => (pg_error fs, e')
      | (rs, ending, e') => (Ok (Services.mkRows rs (ending_err ending)), e')
      end
  end.

Section refinement.
Context {Hlib : PqLib} {T : Type} {Hnet : Net T} {E : Type} {Heng : Engine E} {Hlaws : EngineLaws E}.
Context (db : T → E) (holds : T → option string → Prop) {Hpg : Postgres db holds}.
Implicit Types (c : conn (T:=T)).

(** A connection that waits for the next request, in text mode for its parameters. *)
Definition idle c : Prop :=
  bad c = false ∧ binaryParameters c = false ∧ ahead c [] "" ∧ ∃ o, holds (c_net c) o.

(** A statement and arguments that the server takes. *)
Definition callable (sql : string) (args : list string) c : Prop :=
  has_char zero sql = false ∧ small (prepare_request sql "") ∧ args ≠ [] ∧
  (Z.of_nat (length args) < 65536)%Z ∧
  ∀ typs cols, eng_describe sql (db (c_net c)) = inr (typs, cols) →
    length args = length typs ∧
    small (execute_request (bind_payload "" (length args) (listed datum_bytes (Some <$> args))
      (st_colFmtData (prepared cols typs (disablePreparedBinaryResult c))))).

(** After a query: idle again, or given up after a fatal error. *)
Definition after (r : result sqlrows) c' : Prop := (bad c' = true ∧ r = Err ErrBadConn) ∨ idle c'.

Lemma data_strings g ps typs args : T_bytea ∉ typs → length args = length typs →
  data ((λ typ x, encode g ps x typ) <$> typs) (VString <$> args) = Ok (listed datum_bytes (Some <$> args)).
Proof.
  revert args. induction typs as [|typ typs IH]; intros [|a args] Hb Hl; try done.
  rewrite !fmap_cons. cbn [data listed]. rewrite IH; [|set_solver|simpl in Hl; lia].
  cbn [datum encode datum_bytes]. rewrite decide_False; [done|set_solver].
Qed.

Lemma prepared_fields cols typs force :
  let st := prepared cols typs force in
  st_name st = "" ∧ st_paramTyps st = typs ∧ st_colNames st = co_name <$> cols ∧ st_colTyps st = co_type <$> cols ∧
  st_colFmtData st = (decideColumnFormats (co_type <$> cols) force).2 ∧
  st_colFmts st = (decideColumnFormats (co_type <$> cols) force).1.
Proof. rewrite /prepared. by destruct (decideColumnFormats _ _). Qed.

(** [Query] that the server refuses, at once or after it was described. *)
Lemma Query_fails sql args c c' e :
  bad c = false → binaryParameters c = false → args ≠ [] →
  (prepareTo sql "" c = (Ret (Err e), c') ∨
   ∃ st c1, prepareTo sql "" c = (Ret (Ok st), c1) ∧ stmt_exec st args c1 = (Ret (Err e), c')) →
  Query sql args c =
    (Ret (Err (recover_error e)), if decide (recover_error e = ErrBadConn) then set_bad true c' else c').
Proof.
  intros Hb Hbin Hargs Hrun.
  rewrite /Query /unless_badR /mbind /M_bind /gets Hb /recoverR /errRecover decide_False // Hbin.
  destruct Hrun as [Hp|(st & c1 & Hp & Hx)].
  - rewrite (bindR_err _ _ _ _ _ Hp). cbn. repeat case_decide; congruence.
  - rewrite (bindR_run _ _ _ _ _ Hp) (bindR_err _ _ _ _ _ Hx). cbn. repeat case_decide; congruence.
Qed.

Lemma prepareTo_refused sql c ms t fs s :
  ahead c [] "" → net_write (prepare_request sql "") (c_net c) = (None, frames ms, t) →
  forallb wf_msg ms = true → forallb wf_error_field fs = true → answers ms = [error_msg fs; ready s] →
  reaches (prepareTo sql "") c t s [] "" (Err (PqError (error_of fs))).
Proof.
  intros Ha Hn Hw Hf Hms. rewrite /prepareTo.
  eapply reaches_bindR; [eapply reaches_send; [done|done|by rewrite wrap_prepare]|].
  rewrite Hms. intros c1 Ha1 Hm1. destruct (moved_fields _ _ _ _ Hm1) as [<- _].
  by apply reaches_bindR_err, reaches_parse_error.
Qed.

Lemma stmt_exec_refused st v c ms t params fs s :
  (Z.of_nat (length v) < 65536)%Z → length v = length (st_paramTyps st) → binaryParameters c = false →
  data ((λ typ x, encode (c_globals c) (c_status c) x typ) <$> st_paramTyps st) v = Ok params →
  ahead c [] "" →
  net_write (execute_request (bind_payload (st_name st) (length v) params (st_colFmtData st))) (c_net c) =
    (None, frames ms, t) →
  forallb wf_msg ms = true → forallb wf_error_field fs = true →
  answers ms = [("2"%char, ""); error_msg fs; ready s] ∨ answers ms = [error_msg fs; ready s] →
  reaches (stmt_exec st v) c t s [] "" (Err (PqError (error_of fs))).
Proof.
  intros Hlen Hp Hb Hd Ha Hn Hw Hf Hms. rewrite /stmt_exec decide_False; [|lia].
  rewrite decide_False; [|tauto].
  set (b := w_bytes params (w_int16 (Z.of_nat (length v)) (w_int16 0 (bind_message st)))).
  assert (reaches (bindR (send (execute_message (w_bytes (st_colFmtData st) b)))
    (λ _, bindR readBindResponse (λ _, postExecuteWorkaround))) c t s [] "" (Err (PqError (error_of fs))))
    as (c' & Hrun & H').
  { eapply reaches_bindR; [eapply reaches_send; [done|done|by rewrite wrap_bind]|].
    intros c1 Ha1 Hm1. destruct (moved_fields _ _ _ _ Hm1) as [<- _].
    destruct Hms as [Hms|Hms]; rewrite Hms in Ha1; [|by apply reaches_bindR_err, reaches_bind_error].
    eapply reaches_bindR; [by apply reaches_bind|]. intros c2 Ha2 Hm2.
    destruct (moved_fields _ _ _ _ Hm2) as [<- _]. by apply reaches_workaround_error. }
  exists c'. split; [|done].
  rewrite /gets /mbind /M_bind Hb /bindR /mbind /M_bind /lift_result Hd. exact Hrun.
Qed.

(** The connection after an error of the server. *)
Lemma after_error c c' fs s o t :
  idle c → ahead c' [] "" → moved t s c c' → holds t o → 
  let e := recover_error (PqError (error_of fs)) in
  let c'' := if decide (e = ErrBadConn) then set_bad true c' else c' in
  c_net c'' = t ∧ after (pg_error fs) c''.
Proof.
  intros (Hb & Hbin & _ & _) Ha Hm Ho. destruct (moved_fields _ _ _ _ Hm) as (Hn & _ & _ & _ & Hb' & _ & _ & Hbin').
  cbv zeta. case_decide as He; (split; [done|]).
  - left. by rewrite /pg_error He.
  - right. split_and!; [congruence|congruence|done|]. exists o. by rewrite Hn.
Qed.

Lemma pq_query_error sql args c fs c' :
  Query sql (VString <$> args) c = (Ret (pg_error fs), c') → pq_query sql args c = (Ret (pg_error fs), c').
Proof. intros H. rewrite /pq_query. by rewrite (bind_run _ _ _ _ _ H). Qed.

(** A statement that fails when it is executed. *)
Lemma pq_query_rejected sql args c ms1 t1 typs cols s1 ms2 t2 fs s2 :
  let st := prepared cols typs (disablePreparedBinaryResult c) in
  idle c → args ≠ [] → (Z.of_nat (length args) < 65536)%Z → length args = length typs →
  wf_types typs → wf_columns cols → T_bytea ∉ typs →
  net_write (prepare_request sql "") (c_net c) = (None, frames ms1, t1) → forallb wf_msg ms1 = true →
  answers ms1 = [("1"%char, ""); param_desc typs; desc_msg cols; ready s1] →
  net_write (execute_request (bind_payload "" (length args) (listed datum_bytes (Some <$> args)) (st_colFmtData st))) t1 =
    (None, frames ms2, t2) → forallb wf_msg ms2 = true →
  answers ms2 = [("2"%char, ""); error_msg fs; ready s2] ∨ answers ms2 = [error_msg fs; ready s2] →
  forallb wf_error_field fs = true → holds t2 (Some sql) →
  ∃ c', pq_query sql args c = (Ret (pg_error fs), c') ∧ c_net c' = t2 ∧ after (pg_error fs) c'.
Proof.
  intros st Hi Hne Hlen Hlt Hwt Hwc Hby Hw1 Hwf1 Hms1 Hw2 Hwf2 Hms2 Hfs Ho2. pose proof Hi as (Hb & Hbin & Ha & _).
  destruct (prepared_fields cols typs (disablePreparedBinaryResult c)) as (Hst1 & Hst2 & _). fold st in Hst1, Hst2.
  destruct (reaches_prepareTo sql "" c ms1 t1 typs cols s1) as (c1 & Hp & Ha1 & Hm1); [done..|].
  rewrite -/(prepared cols typs (disablePreparedBinaryResult c)) -/st in Hp.
  destruct (moved_fields _ _ _ _ Hm1) as (Hn1 & _ & _ & Hst & _ & Hg & _ & Hbin1).
  destruct (stmt_exec_refused st (VString <$> args) c1 ms2 t2 (listed datum_bytes (Some <$> args)) fs s2)
    as (c2 & Hx & Ha2 & Hm2); try done.
  { by rewrite length_fmap. } { by rewrite length_fmap Hst2. } { by rewrite Hbin1. }
  { by rewrite Hg Hst Hst2 data_strings. } { by rewrite length_fmap Hst1 Hn1. }
  destruct (after_error c c2 fs s2 (Some sql) t2 Hi Ha2 (moved_trans _ _ _ _ _ _ _ Hm1 Hm2) Ho2) as [Hn Haft].
  eexists. split; [|by split; [exact Hn|exact Haft]].
  apply pq_query_error, Query_fails; [done|done|by destruct args|right; by exists st, c1].
Qed.

(** All rows of a result, read and converted. *)
Lemma fetch_wire cols typs force rs e s c :
  let st := prepared cols typs force in
  wf_columns cols → Forall (Forall2 fits (co_type <$> cols)) rs → bad c = false →
  wf_ending e → ahead c ((data_row <$> (wire_row (st_colFmts st) <$> rs)) ++ [ending_msg e; ready s]) "" →
  ∃ l c', fetch (stmt_rows st) c = (Ret (l, ending_err e), c') ∧ mapM (mapM to_sqlval) l = Some rs ∧
    ahead c' [] "" ∧ moved_g (c_net c) s (c_globals c) c c'.
Proof.
  intros st Hwc Hfit Hb He Ha.
  destruct (prepared_fields cols typs force) as (_ & _ & Hst3 & Hst4 & _ & Hst6). fold st in Hst3, Hst4, Hst6.
  pose proof (decideColumnFormats_askable (co_type <$> cols) force) as Hask. rewrite -Hst6 in Hask.
  destruct (decode_wire_rows (c_status c) (co_type <$> cols) (st_colFmts st) rs (c_globals c)) as (l & Hl & Hmap);
    [done..|].
  destruct (fetch_rows (stmt_rows st) (wire_row (st_colFmts st) <$> rs) e s c l (c_globals c))
    as (c2 & Hf & Ha2 & Hm2); try done.
  - cbn. rewrite Hst3 length_fmap. by destruct Hwc.
  - cbn. rewrite Hst3 length_fmap. apply Forall_fmap. eapply Forall_impl; [exact Hfit|]. intros r Hr.
    rewrite -(length_fmap co_type). apply wire_row_wf; [done|]. symmetry. by eapply Forall2_length.
  - cbn. by rewrite Hst4.
  - by exists l, c2.
Qed.

(** A statement that is executed, to its end or to an error after some rows. *)
Lemma pq_query_rows sql args c ms1 t1 typs cols s1 ms2 t2 rs ending s2 :
  let st := prepared cols typs (disablePreparedBinaryResult c) in
  idle c → args ≠ [] → (Z.of_nat (length args) < 65536)%Z → length args = length typs →
  wf_types typs → wf_columns cols → T_bytea ∉ typs →
  net_write (prepare_request sql "") (c_net c) = (None, frames ms1, t1) → forallb wf_msg ms1 = true →
  answers ms1 = [("1"%char, ""); param_desc typs; desc_msg cols; ready s1] →
  net_write (execute_request (bind_payload "" (length args) (listed datum_bytes (Some <$> args)) (st_colFmtData st))) t1 =
    (None, frames ms2, t2) → forallb wf_msg ms2 = true →
  Forall (Forall2 fits (co_type <$> cols)) rs → wf_ending ending → rs ≠ [] ∨ (∃ tag, ending = inr tag) →
  answers ms2 = ("2"%char, "") ::
    (data_row <$> (wire_row (st_colFmts st) <$> rs)) ++ [ending_msg ending; ready s2] →
  holds t2 (Some sql) →
  ∃ c', pq_query sql args c = (Ret (Ok (Services.mkRows rs (ending_err ending))), c') ∧ c_net c' = t2 ∧ idle c'.
Proof.
  intros st Hi Hne Hlen Hlt Hwt Hwc Hby Hw1 Hwf1 Hms1 Hw2 Hwf2 Hfit Hend Hfirst Hms2 Ho2.
  pose proof Hi as (Hb & Hbin & Ha & _).
  pose proof (data_strings (c_globals c) (c_status c) typs args Hby Hlt) as Hdata.
  destruct (Query_prepared sql (VString <$> args) c ms1 t1 typs cols s1 (listed datum_bytes (Some <$> args)) ms2 t2
    ((data_row <$> (wire_row (st_colFmts st) <$> rs)) ++ [ending_msg ending; ready s2]))
    as (c1 & Hq & Ha1 & Hm1); try done.
  { by destruct args. } { by rewrite length_fmap. } { by rewrite length_fmap. } { by rewrite length_fmap. }
  { destruct rs; [destruct Hfirst as [?|[tag ->]]; [done|]|]; by eexists _, _. }
  destruct (moved_fields _ _ _ _ Hm1) as (Hn1 & _ & _ & Hst & Hb1 & Hg & _ & Hbin1).
  destruct (fetch_wire cols typs (disablePreparedBinaryResult c) rs ending s2 c1) as (l & c2 & Hf & Hmap & Ha2 & Hm2);
    [done|done|by rewrite Hb1|done|done|].
  destruct (moved_g_fields _ _ _ _ _ Hm2) as (Hn2 & _ & _ & _ & Hb2 & _ & Hbin2).
  exists c2. split_and!; [|congruence|].
  - rewrite /pq_query (bind_run _ _ _ _ _ Hq). cbv beta iota. rewrite (bind_run _ _ _ _ _ Hf). by rewrite Hmap.
  - split_and!; [congruence|congruence|done|]. exists (Some sql). by rewrite Hn2 Hn1.
Qed.

Lemma pq_query_refines sql args c :
  idle c → callable sql args c →
  ∃ r c', pq_query sql args c = (Ret r, c') ∧
    eng_query sql args (db (c_net c)) = (r, db (c_net c')) ∧ after r c'.
Proof.
  intros Hi (Hz & Hsm & Hne & Hlen & Hcall). pose proof Hi as (Hb & Hbin & Ha & o & Ho).
  assert (VString <$> args ≠ []) as Hne' by by destruct args.
  destruct (pg_prepare sql _ _ Ho Hz Hsm) as (ms1 & s1 & t1 & Hw1 & Hwf1 & Hdb1 & Hd).
  pose proof (describe_laws sql (db (c_net c))) as Hdl. rewrite /eng_query.
  destruct (eng_describe sql (db (c_net c))) as [fs|[typs cols]] eqn:Edesc.
  { destruct Hd as [Hms Ho1].
    destruct (prepareTo_refused sql c ms1 t1 fs s1) as (c1 & Hp & Ha1 & Hm1); [done..|].
    destruct (after_error c c1 fs s1 None t1 Hi Ha1 Hm1 Ho1) as [Hn Haft].
    eexists (pg_error fs), _. split; [eapply pq_query_error, Query_fails; [done|done|done|left; exact Hp]|].
    split; [by rewrite Hn Hdb1|exact Haft]. }
  destruct Hd as [Hms1 Ho1]. destruct Hdl as (Hwt & Hwc & Hby).
  destruct (Hcall typs cols eq_refl) as [Hlt Hsm2].
  set (st := prepared cols typs (disablePreparedBinaryResult c)) in *.
  destruct (prepared_fields cols typs (disablePreparedBinaryResult c)) as (Hst1 & Hst2 & Hst3 & Hst4 & Hst5 & Hst6).
  fold st in Hst1, Hst2, Hst3, Hst4, Hst5, Hst6.
  destruct (decideColumnFormats_read (co_type <$> cols) (disablePreparedBinaryResult c)) as (codes & Hcodes & Hwfc & Hspread).
  { rewrite length_fmap. by destruct Hwc. }
  rewrite -Hst5 in Hcodes. rewrite -Hst6 length_fmap in Hspread. rewrite length_fmap in Hwfc.
  destruct (pg_execute sql args (st_colFmtData st) codes t1 typs cols) as (ms2 & s2 & t2 & Hw2 & Hwf2 & Hdb2 & Ho2 & Hms2);
    [done|by rewrite Hdb1|done|done|done|done|].
  pose proof (exec_laws sql args _ _ _ Edesc) as Hel. rewrite Hdb1 in Hdb2, Hms2.
  pose proof (data_strings (c_globals c) (c_status c) typs args Hby Hlt) as Hdata.
  destruct (eng_exec sql args (db (c_net c))) as [[rs ending] e'] eqn:Ee; cbn [fst snd] in *.
  destruct Hel as [Hfit Hend]. rewrite Hspread in Hms2.
  assert (rs ≠ [] ∨ (∃ tag, ending = inr tag) →
    answers ms2 = ("2"%char, "") :: (data_row <$> (wire_row (st_colFmts st) <$> rs)) ++ [ending_msg ending; ready s2] →
    ∃ r c', pq_query sql args c = (Ret r, c') ∧
      (Ok (Services.mkRows rs (ending_err ending)), e') = (r, db (c_net c')) ∧ after r c') as Hrows.
  { intros Hfirst Hms.
    destruct (pq_query_rows sql args c ms1 t1 typs cols s1 ms2 t2 rs ending s2) as (c2 & Hq & Hn & Hidle); [done..|].
    eexists _, c2. split_and!; [exact Hq|by rewrite Hn Hdb2|by right]. }
  destruct rs as [|row rs]; [destruct ending as [fs|tag]|].
  - destruct (pq_query_rejected sql args c ms1 t1 typs cols s1 ms2 t2 fs s2) as (c2 & Hq & Hn & Haft); try done.
    { destruct Hms2 as [Hms2|(fs' & _ & [= <-] & Hms2)]; [by left|by right]. }
    exists (pg_error fs), c2. split_and!; [done|by rewrite Hn Hdb2|done].
  - destruct Hms2 as [Hms2|(? & _ & ? & _)]; [|done]. apply Hrows; [right; by exists tag|done].
  - destruct Hms2 as [Hms2|(? & ? & _)]; [|done]. apply Hrows; [by left|done].
Qed.
End refinement.
End PqSql.
