(* ===== verification/PqDecode.v ===== *)
(** * lib/pq: what the values of PostgreSQL are decoded to

    How PostgreSQL sends the values of its types, in the text and in the binary format,
    and that [decode] of [encode.go] yields the value that was sent. *)

From S2P Require Import Prelude GoStrings GoUrl AmqpWire AmqpOpen AmqpTransfer AmzSign PqBuf PqEncode PqConn PqSession PqCodec PqTime PqSql.

Module PqDecode.
Import AmqpWire PqBuf PqEncode PqConn PqSession PqCodec PqValues PqTime PqSql.

(** ** Values of the server *)
Inductive pgval :=
| PInt (z : Z)
| PBool (b : bool)
| PBytea (b : string)
| PStamp (x : stamp)
| PText (s : string).

(** The output of [bytea]: two hexadecimal digits for each byte after [\x], or, with
    bytea_output = escape (and before version 9.0), backslashes doubled and bytes that
    are not printable as a backslash and three octal digits. *)
Definition nth_digit (n : Z) : ascii := default "0"%char (String.get (Z.to_nat n) "0123456789abcdef").
Definition code (c : ascii) : Z := Z.of_nat (nat_of_ascii c).
Definition hex_output (b : string) : string :=
  "\x" +:+ flat_map_str (λ c, String (nth_digit (code c / 16)) (String (nth_digit (code c mod 16)) "")) b.
Definition escape_output (b : string) : string :=
  flat_map_str (λ c,
    if decide (code c = 92)%Z then "\\"
    else if decide (32 ≤ code c ≤ 126)%Z then String c ""
    else "\" +:+ String (nth_digit (code c / 64)) (String (nth_digit (code c / 8 mod 8))
                   (String (nth_digit (code c mod 8)) ""))) b.

(** The bytes that an integer type has. *)
Definition int_size (typ : Z) : option nat :=
  if decide (typ = T_int8) then Some 8 else if decide (typ = T_int4) then Some 4
  else if decide (typ = T_int2) then Some 2 else None.

(** The types whose texts the driver passes on as they are: not those that it
    converts. *)
Definition converted : list Z :=
  [T_bytea; T_timestamptz; T_timestamp; T_date; T_time; T_timetz; T_bool; T_int8; T_int4; T_int2; T_float4; T_float8].

(** [text] is how the server sends [v] in a column of type [typ] and format [f].
    PostgreSQL prints at most six digits of a fraction of a second. *)
Definition sent_as (typ : Z) (f : format) (v : pgval) (text : string) : Prop :=
  match v with
  | PInt z => ∃ k, int_size typ = Some k ∧ in_bits (8 * Z.of_nat k) z ∧
      text = match f with formatBinary => be k z | _ => pretty z end
  | PBool b => typ = T_bool ∧ f = formatText ∧ text = (if b then "t" else "f")
  | PBytea b => typ = T_bytea ∧
      match f with
      | formatBinary => text = b
      | _ => text = hex_output b ∨ text = escape_output b
      end
  | PStamp x => (typ = T_timestamptz ∨ typ = T_timestamp) ∧ f = formatText ∧ wf_stamp x ∧
      match s_frac x with Some d => (String.length d ≤ 6)%nat | None => True end ∧ text = stamp_text x
  | PText s => typ ∉ converted ∧ f = formatText ∧ text = s
  end.

Section decode.
Context {Hlib : PqLib}.

(** The point in time that a timestamp says: its fraction in nanoseconds, its year
    counted through zero, in the zone of its offset. *)
Definition nanos (frac : option string) : Z :=
  match frac with None => 0 | Some d => (digits_val d * 10 ^ (9 - Z.of_nat (String.length d)))%Z end.
Definition moment (x : stamp) : Time :=
  time_Date (iso_year x) (s_month x) (s_day x) (s_hour x) (s_minute x) (s_second x) (nanos (s_frac x))
    (time_FixedZone (tz_offset (s_zone x))).

(** What it means to a Go program. *)
Definition go_value (ps : parameterStatus) (typ : Z) (v : pgval) : value :=
  match v with
  | PInt z => VInt z
  | PBool b => VBool b
  | PBytea b => VBytes b
  | PText s => VBytes s
  | PStamp x => VTime (localized (if decide (typ = T_timestamptz) then currentLocation ps else None)
                         (tz_offset (s_zone x)) (moment x))
  end.

(** ** Decoding *)
Lemma flat_map_str_ext (f g : ascii → string) s : (∀ c, f c = g c) → flat_map_str f s = flat_map_str g s.
Proof. intros E. induction s as [|c s IH]; [done|]. cbn [flat_map_str]. by rewrite E IH. Qed.
Lemma hex_output_encode b : hex_output b = encodeBytea 90000 b.
Proof.
  rewrite /hex_output /encodeBytea. destruct (decide (90000 ≤ 90000)%Z) as [_|[]]; [|done].
  f_equal. apply flat_map_str_ext. intros c. all_bytes c.
Qed.
Lemma escape_output_encode b : escape_output b = encodeBytea 0 b.
Proof.
  rewrite /escape_output /encodeBytea. destruct (decide (90000 ≤ 0)%Z) as [?|_]; [done|].
  apply flat_map_str_ext. intros c. all_bytes c.
Qed.

Lemma binaryDecode_int k typ z g : int_size typ = Some (S k) → in_bits (8 * Z.of_nat (S k)) z →
  binaryDecode (be (S k) z) typ g = (Ret (Ok (VInt z)), g).
Proof.
  intros Ht Hz. pose proof (be_length (S k) z) as Hl. pose proof (be_num_be (S k) 0 z) as Hn.
  rewrite Z.mul_0_l Z.add_0_l in Hn. revert Hl Hn. generalize (be (S k) z). intros s Hl Hn.
  assert ((if decide (String.length s < S k)%nat then throw index_panic
           else mret (Ok (VInt (signed (S k) (be_num 0 (split_at (S k) s).1))))) g = (Ret (Ok (VInt z)), g)) as Hr.
  { destruct (decide (String.length s < S k)%nat) as [?|_]; [lia|].
    rewrite AmqpTransfer.split_at_over; [|lia]. cbn [fst]. by rewrite Hn signed_mod. }
  rewrite /binaryDecode. rewrite /int_size in Ht.
  destruct (decide (typ = T_bytea)) as [->|_]; [done|].
  destruct (decide (typ = T_int8)) as [_|_]; [injection Ht as <-; exact Hr|].
  destruct (decide (typ = T_int4)) as [_|_]; [injection Ht as <-; exact Hr|].
  destruct (decide (typ = T_int2)) as [_|_]; [injection Ht as <-; exact Hr|done].
Qed.

(** Decides the comparisons of a known type with the types that are converted. *)
Ltac dtyp :=
  rewrite /textDecode; repeat match goal with |- context [@decide ?P ?i] =>
    first [destruct (@decide P i) as [Hp|_]; [exfalso; clear -Hp; by naive_solver|]
          |destruct (@decide P i) as [_|Hp]; [|exfalso; clear -Hp; by naive_solver]] end.

Lemma textDecode_int ps typ k z g : int_size typ = Some k → in_bits 64 z →
  textDecode ps (pretty z) typ g = (Ret (Ok (VInt z)), g).
Proof.
  intros Ht Hz. assert (typ = T_int8 ∨ typ = T_int4 ∨ typ = T_int2) as Hty.
  { rewrite /int_size in Ht. repeat case_decide; auto. done. }
  destruct Hty as [->|[->| ->]]; dtyp; by rewrite ParseInt_pretty.
Qed.
Lemma textDecode_bytea ps v b g : textDecode ps (encodeBytea v b) T_bytea g = (Ret (Ok (VBytes b)), g).
Proof. dtyp. by rewrite parseBytea_encodeBytea. Qed.
Lemma textDecode_text ps s typ g : typ ∉ converted → textDecode ps s typ g = (Ret (Ok (VBytes s)), g).
Proof.
  intros Ht. rewrite /textDecode. rewrite /converted in Ht.
  repeat (rewrite decide_False; [|set_solver]). done.
Qed.

Lemma frac_nanos_exact frac :
  match frac with Some d => (String.length d ≤ 6)%nat | None => True end → frac_nanos frac = nanos frac.
Proof.
  destruct frac as [d|]; [|done]. cbn. intros Hd. f_equal.
  destruct (String.length d) as [|[|[|[|[|[|[|n]]]]]]]; try done. lia.
Qed.

Lemma decode_sent ps typ f v text g : wf_cache g → sent_as typ f v text →
  ∃ g', decode ps text typ f g = (Ret (Ok (go_value ps typ v)), g') ∧ wf_cache g'.
Proof.
  intros Hg. destruct v as [z|b|b|x|s]; cbn [sent_as go_value].
  - intros (k & Hk & Hz & ->). exists g. split; [|done].
    assert (∃ k', k = S k' ∧ in_bits 64 z) as (k' & -> & H64).
    { rewrite /int_size in Hk. rewrite /in_bits in Hz |- *. repeat case_decide; simplify_eq; eexists; (split; [done|]); lia. }
    destruct f; cbn [decode]; [by eapply textDecode_int|by apply binaryDecode_int|by eapply textDecode_int].
  - intros (-> & -> & ->). exists g. split; [|done]. cbn [decode]. dtyp. by destruct b.
  - intros [-> Ht]. exists g. split; [|done]. destruct f; cbn [decode].
    + destruct Ht as [->| ->]; rewrite ?hex_output_encode ?escape_output_encode; apply textDecode_bytea.
    + by subst.
    + destruct Ht as [->| ->]; rewrite ?hex_output_encode ?escape_output_encode; apply textDecode_bytea.
  - intros (Ht & -> & Hx & Hf & ->). rewrite /moment -(frac_nanos_exact _ Hf) -/(stamp_time x). cbn [decode].
    destruct Ht as [->| ->]; dtyp; by apply parseTs_stamp.
  - intros (Ht & -> & ->). exists g. split; [|done]. by apply textDecode_text.
Qed.
End decode.
End PqDecode.
