(* ===== verification/PqCorrect.v ===== *)
(** * lib/pq: properties

    What the package promises, over the lemmas of the other files, with servers that
    the hypotheses hold of. *)

From S2P Require Import Prelude GoStrings GoFloat Services AmqpWire AmqpOpen PqBuf PqEncode PqConn PqCopy PqSession PqRows PqSync PqCodec PqTime GoUtf8 PqOpen PqSettings PqStartup PqSql PqDecode.

Module PqCorrect.
Import AmqpWire PqBuf PqEncode PqConn PqCopy PqSession PqRows PqSync PqOpen.

(** ** A library and servers to try the properties on *)

(** Times as the fields they were made of, with the offset of their zone. *)
#[local] Instance sample_lib : PqLib := {|
  Time := list Z;
  Location := Z;
  time_Date y m d h mi s n off := [y; m; d; h; mi; s; n; off];
  time_FixedZone off := off;
  time_In t off := take 7 t ++ [off];
  time_Zone t := List.last t 0%Z;
  time_Year t := hd 0%Z t;
  time_AddDate t y m d := t;
  time_Format _ _ := "";
  time_Parse _ _ := Err (ErrorS "time");
  time_After _ _ := false;
  time_Before _ _ := false;
  time_LoadLocation _ := Err (ErrorS "zone");
  ParseFloat _ _ := Ok 0%Z;
  FormatFloat _ := "0";
  md5_Sum s := s;
  QuoteByte c := String c "";
  Quote s := s;
|}.
Definition no_globals : globals := mkGlobals false None None ∅.
Definition no_status : parameterStatus := mkParameterStatus 90000 None.

(** A server that keeps the requests it was sent and answers each by its first
    letter. *)
Record peer := mkPeer { p_log : list string }.
Definition reply (answer : string → string) : Net peer := {|
  net_write b t := (None, answer b, mkPeer (p_log t ++ [b]));
  net_end _ := EOF;
  net_close t := (None, t);
|}.
Definition fresh_conn {T} (t : T) : conn (T:=T) :=
  mkConn t "" 0 "I" no_status zero "" false false false no_globals.

Lemma fresh_ahead {T} (t : T) : ahead (fresh_conn t) [] "".
Proof. exists []. split_and!; [by left|done|done]. Qed.

(** A server that refuses to parse and executes everything else. *)
Definition refusing (b : string) : string :=
  match b with
  | String "Q" _ => frames [complete "BEGIN"; ready "I"]
  | String "P" _ => frames [error_msg [("S"%char, "ERROR"); ("M"%char, "no")]; ready "I"]
  | String "B" _ => frames [("2"%char, ""); complete "SELECT 0"; ready "I"]
  | String "C" _ => frames [("3"%char, "")]
  | _ => frames [ready "I"]
  end.
Definition refusing_net : Net peer := reply refusing.

Lemma refusing_conforms : @Conforming _ refusing_net (λ _, True).
Proof.
  split; intros.
  - eexists _, "I"%char, _. split_and!; [reflexivity|done|by constructor|done].
  - eexists _, "I"%char, _. split_and!; [reflexivity|done|by apply prepare_parse_error|done].
  - eexists _, "I"%char, _. split_and!; [reflexivity|done|by repeat constructor|done].
  - eexists _, "I"%char, _. split_and!; [reflexivity|done|by apply binary_parse_error|done].
  - eexists _, _, _, "I"%char, _. split_and!; [reflexivity|reflexivity|done..].
Qed.

(** An engine with one table of files, and a server for it. *)
Definition file_columns : list column :=
  [mkColumn "filename" "000000" 25 "000000" 0; mkColumn "hash" "000000" 1043 "000000" 0].
Definition file_rows : list (list sqlval) :=
  [[SText "index.ios.js"; SText "3a5b"]; [SText "a b"; SNull]].
#[local] Instance files_engine : Engine () := {|
  eng_describe _ _ := inr ([25%Z], file_columns);
  eng_exec _ _ e := ((file_rows, inr "SELECT 2"), e);
|}.
Lemma files_engine_laws : PqSql.EngineLaws ().
Proof.
  split.
  - intros sql e. split_and!; [split; [done|by repeat constructor]..|]. cbn. set_solver.
  - intros sql args e typs cols [= <- <-]. split; [|done]. repeat constructor; cbn; set_solver.
Qed.
Definition serving (b : string) : string :=
  match b with
  | String "P" _ => frames [("1"%char, ""); param_desc [25%Z]; desc_msg file_columns; ready "I"]
  | String "B" _ =>
      frames ([("2"%char, "")] ++ (data_row <$> [[Some "index.ios.js"; Some "3a5b"]; [Some "a b"; None]]) ++
              [complete "SELECT 2"; ready "I"])
  | _ => frames [ready "I"]
  end.
Definition serving_net : Net peer := reply serving.
Lemma serving_postgres : @PqSql.Postgres () _ peer serving_net (λ _, tt) (λ _ _, True).
Proof.
  split.
  - intros sql t o _ Hz _. eexists _, "I"%char, _. split_and!; [reflexivity|done|done|done].
  - intros sql args bind codes t typs cols _ [= <- <-] Hl _ Hc b _.
    eexists _, "I"%char, _. split_and!; [reflexivity|done|done|done|]. left.
    destruct Hc as [Hc|Hc]; destruct codes as [|x [|y [|z codes]]]; try done; cbn in Hc; lia.
Qed.

(** ** Queries *)

(** C16: a query with at least one argument, whose parameters are no byte strings and
    whose columns are texts and eight-byte integers (as those of the bundler's
    statements are), on a connection that sends its parameters as text, to a server
    that follows the protocol and stays reachable: it returns the rows that the server's
    engine yields, all of them when the statement ended well and with the error in
    [rows.Err] when it failed after some of them, or the error of the engine when there
    are no rows; afterwards the connection is ready for the next request, or, after a
    fatal error, given up. *)
Theorem query_refines_engine {Hlib : PqLib} {T : Type} {Hnet : Net T} {E : Type} {Heng : Engine E}
    {Hlaws : PqSql.EngineLaws E} (db : T → E) (holds : T → option string → Prop)
    {Hpg : PqSql.Postgres db holds} (sql : string) (args : list string) (c : conn (T:=T)) :
  PqSql.idle holds c → PqSql.callable db sql args c →
  ∃ r c', PqSql.pq_query sql args c = (Ret r, c') ∧
    PqSql.eng_query sql args (db (c_net c)) = (r, db (c_net c')) ∧ PqSql.after holds r c'.
Proof. intros Hi Hc. by apply (PqSql.pq_query_refines db holds). Qed.

Lemma query_refines_engine_witness :
  ∃ r c', @PqSql.pq_query sample_lib peer serving_net "SELECT filename, hash FROM files WHERE app_id = $1" ["7"]
      (fresh_conn (mkPeer [])) = (Ret r, c') ∧
    PqSql.eng_query "SELECT filename, hash FROM files WHERE app_id = $1" ["7"] tt = (r, tt) ∧
    PqSql.after (λ _ _, True) r c'.
Proof.
  apply (@query_refines_engine sample_lib peer serving_net () files_engine files_engine_laws
    (λ _, tt) (λ _ _, True) serving_postgres "SELECT filename, hash FROM files WHERE app_id = $1" ["7"] (fresh_conn (mkPeer []))).
  - split_and!; [done|done|apply fresh_ahead|by exists None].
  - split_and!; [done|vm_compute; done|done|done|]. intros typs cols [= <- <-]. split; [done|vm_compute; done].
Defined.

(** C17: whatever operations other than COPY are made on a connection, with a server
    that stays reachable, answers a query without arguments with the result of one
    statement and follows the protocol otherwise, errors wherever it may report them
    included: none of them panics, and after each the connection is in step with the
    server, or marked as bad and refused from then on.  (The results of several
    statements in one query leave the connection out of step.) *)
Theorem session_in_step {Hlib : PqLib} {T : Type} {Hnet : Net T} (ok : T → Prop) {Hok : Conforming ok}
    (os : list op) (sts : list stmt) (c : conn (T:=T)) :
  forallb no_copy os = true → settled ok c →
  ∃ sts' c', run_ops os sts c = (Ret sts', c') ∧ settled ok c' ∧
    (bad c' = true → ∀ q args, Query q args c' = (Ret (Err ErrBadConn), c')).
Proof.
  intros Ho Hs. pose proof (run_ops_settles ok os sts c Ho Hs) as H. rewrite /settles /ends /wp in H.
  destruct (run_ops os sts c) as [[sts'|e] c'] eqn:E; [|done]. exists sts', c'. split_and!; [done|done|].
  intros Hb q args. by apply bad_stays.
Qed.

Lemma session_in_step_witness :
  ∃ sts' c', @run_ops sample_lib peer refusing_net [OBegin; OQuery "SELECT 1" []; OPrepare "x"; ORollback] []
      (fresh_conn (mkPeer [])) = (Ret sts', c') ∧ settled (λ _, True) c' ∧
    (bad c' = true → ∀ q args, @Query sample_lib peer refusing_net q args c' = (Ret (Err ErrBadConn), c')).
Proof.
  apply (@session_in_step sample_lib peer refusing_net (λ _, True) refusing_conforms
    [OBegin; OQuery "SELECT 1" []; OPrepare "x"; ORollback] [] (fresh_conn (mkPeer []))); [done|].
  right. split_and!; [done|apply fresh_ahead|done].
Defined.

(** ** COPY *)

(** The rows, and then [Close]. *)
Definition copy_rows {Hlib : PqLib} {T : Type} {Hnet : Net T} (ci : copyin) (rs : list (list value)) :
    M (conn (T:=T)) (option error * copyin) :=
  '(e, ci) ← PqCodec.copy_all ci rs;
  match e with None => copy_Close ci | Some e => mret (Some e, ci) end.

(** C18: the data messages of a COPY, read as PostgreSQL reads the text format, are
    the rows that were given to it, however they are spread over messages; they are
    followed by CopyDone, and [Close] returns when the server has confirmed. *)
Theorem copy_transfers_rows {Hlib : PqLib} {T : Type} {Hnet : Net T} (log : T → list string)
    (answer : string → string) (ci : copyin) (rs : list (list value)) (tag : string) (s : ascii) (c : conn (T:=T)) :
  PqCodec.taking log answer → (∀ p, answer (frame "d" p) = "") →
  answer (frame "c" "") = frames [complete tag; ready s] → sized (complete tag) = true →
  bad c = false → saveMessageType c = zero → c_inp c = "" → PqCodec.holds ci "" → ci_running ci = true →
  Forall (λ v, v ≠ [] ∧ forallb (PqCodec.copyable (c_globals c)) v = true) rs →
  ∃ ci' c' sent, copy_rows ci rs c = (Ret (None, ci'), c') ∧
    log (c_net c') = log (c_net c) ++ (frame "d" <$> sent) ++ [frame "c" ""] ∧
    PqCodec.copy_lines (PqCodec.concat_str sent) =
      (λ v : list value, PqCodec.value_text (c_globals c) (c_status c) <$> v) <$> rs ∧
    bad c' = false ∧ c_inp c' = "" ∧ saveMessageType c' = zero ∧ txnStatus c' = s.
Proof.
  intros Ht Hd Hc Hs Hb Hz Hi Hh Hr Hrs.
  destruct (PqCodec.copy_all_rows log answer ci "" rs c Ht Hd Hb Hh Hrs)
    as (c1 & ci1 & sent & pend & Hall & Hh1 & Hl1 & Hsent & Hc1 & Hr1 & _).
  destruct (PqCodec.copy_Close_done log answer ci1 pend tag s c1) as (c2 & ci2 & Hcl & _ & Hl2 & H2);
    [done..|by rewrite Hc1|by rewrite Hc1|by rewrite Hc1|done|by rewrite Hr1|].
  exists ci2, c2, (sent ++ [pend]). split_and!; try tauto.
  - rewrite /copy_rows (bind_run _ _ _ _ _ Hall). exact Hcl.
  - by rewrite Hl2 Hl1 fmap_app -!app_assoc.
  - rewrite PqCodec.concat_str_app /= str_app_nil_r Hsent str_app_nil_l. by apply PqCodec.copy_lines_text.
Qed.

Definition confirming (b : string) : string :=
  match b with String "c" _ => frames [complete "COPY 2"; ready "T"] | _ => "" end.
Definition confirming_net : Net peer := reply confirming.

Lemma copy_transfers_rows_witness :
  ∃ ci' c' sent,
    @copy_rows sample_lib peer confirming_net (mkCopyin copy_header false false None true)
      [[VString "a	b"; VInt (-3)]; [VNil; VBool true]] (fresh_conn (mkPeer [])) = (Ret (None, ci'), c') ∧
    p_log (c_net c') = [] ++ (frame "d" <$> sent) ++ [frame "c" ""] ∧
    PqCodec.copy_lines (PqCodec.concat_str sent) = [[Some "a	b"; Some "-3"]; [None; Some "true"]] ∧
    bad c' = false ∧ c_inp c' = "" ∧ saveMessageType c' = zero ∧ txnStatus c' = "T"%char.
Proof.
  apply (@copy_transfers_rows sample_lib peer confirming_net p_log confirming
    (mkCopyin copy_header false false None true) [[VString "a	b"; VInt (-3)]; [VNil; VBool true]]
    "COPY 2" "T" (fresh_conn (mkPeer []))); try done.
  - intros b t. by eexists.
  - split_and!; [done|done|]. by exists (be 4 0).
  - repeat constructor; done.
Defined.

(** ** Values *)

(** a byte string that is sent as the text of a bytea, in the format that the
    server's version reads, is what a column with that text is decoded to. *)
Theorem bytea_roundtrip {Hlib : PqLib} (g : globals) (ps : parameterStatus) (b : string) :
  ∃ text, encode g ps (VBytes b) T_bytea = Ok text ∧
    decode ps text T_bytea formatText g = (Ret (Ok (VBytes b)), g).
Proof.
  eexists. split; [done|]. destruct (decide (T_bytea = T_bytea)) as [_|[]]; [|done].
  cbn [decode]. rewrite /textDecode. destruct (decide (T_bytea = T_bytea)) as [_|[]]; [|done].
  by rewrite PqCodec.parseBytea_encodeBytea.
Qed.

(** C21: a value that PostgreSQL sends in the text or the binary format is decoded to
    that value: integers of two, four and eight bytes, booleans, byte strings in the
    hexadecimal and in the escaped output, timestamps with and without a zone in the ISO
    style (as the time they say), and the texts of the types that are not converted.
    Dates and times of day alone, floats and infinite timestamps are not part of this. *)
Theorem decoded_values_exact {Hlib : PqLib} (ps : parameterStatus) (g : globals) (typ : Z) (f : format)
    (v : PqDecode.pgval) (text : string) :
  PqTime.wf_cache g → PqDecode.sent_as typ f v text →
  ∃ g', decode ps text typ f g = (Ret (Ok (PqDecode.go_value ps typ v)), g') ∧ PqTime.wf_cache g'.
Proof. apply PqDecode.decode_sent. Qed.

Lemma decoded_values_exact_witness :
  (∃ g', @decode sample_lib no_status (be 4 (-5)) T_int4 formatBinary no_globals = (Ret (Ok (VInt (-5))), g') ∧
     PqTime.wf_cache g') ∧
  (∃ g', @decode sample_lib no_status "\x0a5c" T_bytea formatText no_globals =
     (Ret (Ok (VBytes (String "010" (String backslash "")))), g') ∧ PqTime.wf_cache g').
Proof.
  assert (@PqTime.wf_cache sample_lib no_globals) as Hc by (intros off l Hl; done).
  split.
  - apply (@decoded_values_exact sample_lib no_status no_globals T_int4 formatBinary (PqDecode.PInt (-5)) (be 4 (-5)) Hc).
    exists 4. split_and!; [reflexivity|vm_compute; by split|reflexivity].
  - apply (@decoded_values_exact sample_lib no_status no_globals T_bytea formatText
      (PqDecode.PBytea (String "010" (String backslash ""))) "\x0a5c" Hc).
    split; [reflexivity|]. left. reflexivity.
Defined.

(** every timestamp that PostgreSQL prints in the ISO style, with any number of
    digits in its year, with or without a fraction and a zone, before or after Christ,
    is read as the time it says; the cached zones stay what they were made for. *)
Theorem timestamps_read {Hlib : PqLib} (loc : option Location) (x : PqTime.stamp) (g : globals) :
  PqTime.wf_stamp x → PqTime.wf_cache g →
  ∃ g', parseTs loc (PqTime.stamp_text x) g =
    (Ret (Ok (VTime (PqTime.localized loc (PqTime.tz_offset (PqTime.s_zone x)) (PqTime.stamp_time x)))), g') ∧
    PqTime.wf_cache g'.
Proof. apply PqTime.parseTs_stamp. Qed.

Definition sample_stamp : PqTime.stamp :=
  PqTime.mkStamp "0044" 3 15 12 30 5 (Some "25") (Some (PqTime.mkZone true 5 (Some (30, None))))%Z true.
Lemma timestamps_read_witness :
  ∃ g', @parseTs sample_lib None "0044-03-15 12:30:05.25-05:30 BC" no_globals =
    (Ret (Ok (VTime [-43; 3; 15; 12; 30; 5; 250000000; -19800]%Z)), g') ∧ PqTime.wf_cache g'.
Proof.
  apply (@timestamps_read sample_lib None sample_stamp no_globals).
  - repeat split; first [done|vm_compute; lia].
  - intros off l H. done.
Defined.

(** a quoted identifier is read by PostgreSQL as the name it was made from, up to
    its first zero byte, and nothing of the name is read as SQL. *)
Theorem identifiers_quoted {Hlib : PqLib} (name rest : string) :
  HasPrefix rest dquote = false →
  PqValues.read_identifier (QuoteIdentifier name +:+ rest) = Some (PqValues.before_zero name, rest).
Proof. apply PqValues.QuoteIdentifier_read. Qed.

Lemma identifiers_quoted_witness :
  PqValues.read_identifier (QuoteIdentifier (dquote +:+ "; DROP TABLE files; --") +:+ " FROM STDIN") =
  Some (dquote +:+ "; DROP TABLE files; --", " FROM STDIN").
Proof. by apply (@identifiers_quoted sample_lib (dquote +:+ "; DROP TABLE files; --") " FROM STDIN"). Defined.

(** ** Opening a connection *)

(** C20: the settings of a connection URL, when they are ASCII, have no white space but
    spaces in their values, no spaces or equals signs in their names, and no two have the
    same name, come back from the text that [ParseURL] makes of them, spaces, quotes and
    backslashes in their values included.  (Other white space is not escaped and cuts a
    value.) *)
Theorem url_settings_roundtrip {Hlib : PqLib} (url_Parse : string → result pgURL) (url : string) (u : pgURL) (o : values) :
  url_Parse url = Ok u → pu_Scheme u = "postgres" ∨ pu_Scheme u = "postgresql" →
  Forall PqSettings.wf_setting (PqSettings.given u) → NoDup (PqSettings.given u).*1 →
  ∃ s, ParseURL url_Parse url = Ok s ∧ parseOpts s o = Ok (list_to_map (PqSettings.given u) ∪ o).
Proof. apply PqSettings.ParseURL_parseOpts. Qed.

Definition sample_url : pgURL :=
  mkPgURL "postgres" (Some ("bundler", Some "it's a \ secret")) "db:5432" "/siphon" [("sslmode", "disable")].
Lemma url_settings_roundtrip_witness :
  ∃ s, ParseURL (λ _, Ok sample_url) "postgres://..." = Ok s ∧
    parseOpts s ∅ = Ok (list_to_map (PqSettings.given sample_url) ∪ ∅).
Proof.
  apply (@url_settings_roundtrip sample_lib (λ _, Ok sample_url) "postgres://..." sample_url ∅).
  - done.
  - by left.
  - repeat constructor; done.
  - by vm_compute; repeat constructor; set_solver.
Defined.

(** C19: with sslmode=disable and without a connection timeout, a server that can be
    dialled, that asks for no password, for the password or for its MD5 hash and that
    accepts the right one is connected to: [DialOpen] sends the startup packet with the
    settings that are not the driver's own and the password, or its hash as PostgreSQL
    documents it, and returns a connection that waits for its first request. *)
Theorem session_opens {Hlib : PqLib} {T : Type} {Hnet : Net T} {Henv : Env T} (url_Parse : string → result pgURL)
    (iter : values → list (string * string)) (n : nat) (g : globals) (name : string) (o : values)
    (disable binary : bool) (t : T) (m : PqStartup.method) (l : list msg) (s : ascii) (t' : T) :
  open_settings url_Parse name = Ret (Ok o) → handleDriverSettings o = Ok (disable, binary) →
  dial o = (Ok t, o) → vs_Get "sslmode" o = "disable" → has_timeout o = false →
  PqStartup.wf_method m → forallb PqStartup.start_msg l = true → PqStartup.serves m iter o t l s t' →
  (S (length l) < n)%nat →
  ∃ c, DialOpen url_Parse iter n g name = Ret (Ok c) ∧ ahead c [] "" ∧ bad c = false ∧
    txnStatus c = s ∧ c_net c = t' ∧ c_globals c = g ∧
    disablePreparedBinaryResult c = disable ∧ binaryParameters c = binary.
Proof. apply PqStartup.DialOpen_session. Qed.

(** A server that asks for the MD5 hash of the password and accepts only the right one. *)
Definition greeting : list msg := [("S"%char, "server_version" +:+ String zero "9.4.5" +:+ String zero ""); ("K"%char, "12345678")].
Definition asking (b : string) : string :=
  match b with
  | String "p" _ =>
      if decide (b = frame "p" (cstr (PqStartup.md5_answer "bundler" "s e c" "salt")))
      then frames (PqStartup.auth_ok :: greeting ++ [ready "I"])
      else frames [error_msg [("S"%char, "FATAL"); ("C"%char, "28P01")]]
  | _ => frames [PqStartup.auth_request (PqStartup.Md5 "salt")]
  end.
Definition asking_net : Net peer := reply asking.
Definition sample_env : Env peer := {|
  net_Dial _ _ := Ok (mkPeer []);
  net_DialTimeout _ _ _ := Ok (mkPeer []);
  net_SetDeadline _ t := (None, t);
  os_Environ := ["PGDATABASE=siphon"];
  user_Current := Ok ("bundler", "/home/bundler");
  os_Getenv _ := "";
  os_Stat _ := Err (ErrorS "stat");
  ioutil_ReadFile _ := Err (ErrorS "read");
  LoadX509KeyPair _ _ := Err (ErrorS "pair");
  CertsFromPEM _ := None;
  net_ReadByte t := (Ok "N"%char, t);
  tls_Client _ t := t;
  tls_verify _ t := (None, t);
|}.
Definition sample_dsn : string := "user=bundler password='s e c' host=db sslmode=disable".
Definition sample_settings : values :=
  match @open_settings sample_lib peer sample_env (λ _, Err EOF) sample_dsn with Ret (Ok o) => o | _ => ∅ end.

Lemma sample_opened : @open_settings sample_lib peer sample_env (λ _, Err EOF) sample_dsn = Ret (Ok sample_settings).
Proof.
  assert (match @open_settings sample_lib peer sample_env (λ _, Err EOF) sample_dsn with Ret (Ok _) => true | _ => false end = true)
    as H by (vm_compute; reflexivity).
  rewrite /sample_settings. by destruct (open_settings _ _) as [[o|e]|e].
Qed.
Lemma sample_no_timeout : has_timeout sample_settings = false.
Proof. vm_compute. reflexivity. Qed.
Lemma sample_dialled : @dial peer sample_env sample_settings = (Ok (mkPeer []), sample_settings).
Proof.
  assert (network sample_settings = ("tcp", "db:5432")) as H by (vm_compute; reflexivity).
  rewrite /dial H. destruct (decide ("tcp" = "unix")) as [?|_]; [done|]. by rewrite sample_no_timeout.
Qed.

Lemma session_opens_witness :
  ∃ c t, @DialOpen sample_lib peer asking_net sample_env (λ _, Err EOF) map_to_list 9 no_globals sample_dsn = Ret (Ok c) ∧
    ahead c [] "" ∧ bad c = false ∧ txnStatus c = "I"%char ∧ c_net c = t ∧ c_globals c = no_globals ∧
    disablePreparedBinaryResult c = false ∧ binaryParameters c = false.
Proof.
  edestruct (@session_opens sample_lib peer asking_net sample_env (λ _, Err EOF) map_to_list 9 no_globals sample_dsn
    sample_settings false false (mkPeer []) (PqStartup.Md5 "salt") greeting "I") as (c & H).
  - exact sample_opened.
  - vm_compute. reflexivity.
  - exact sample_dialled.
  - vm_compute. reflexivity.
  - exact sample_no_timeout.
  - reflexivity.
  - vm_compute. reflexivity.
  - eexists. split; reflexivity.
  - cbn. lia.
  - eexists c, _. exact H.
Defined.
End PqCorrect.
