(* ===== verification/PqNotify.v ===== *)
(** * lib/pq: LISTEN and NOTIFY on a connection

    [ListenerConn] of [src/src/github.com/lib/pq/notify.go]: one goroutine receives
    from the server, others send queries; they share the state of the protocol, an
    error and a channel of replies.  A run is a sequence of actions, one for every
    access to what is shared, in any order ([act]); what the server sends is part of
    the actions and arbitrary.  The query goroutine is the one that holds
    [senderLock]: the others wait for it. *)

From S2P Require Import Prelude GoStrings AmqpWire PqBuf PqEncode PqConn.

Module PqNotify.
Import AmqpWire PqBuf PqEncode PqConn.

(** ** Data *)
Record Notification := mkNotification { BePid : Z; Channel : string; Extra : string }.
Definition recvNotification : P Notification :=
  bePid ←? r_int32; channel ←? r_string; extra ←? r_string;
  mret (Ok (mkNotification bePid channel extra)).

Inductive connState := connStateIdle | connStateExpectResponse | connStateExpectReadyForQuery.
#[export] Instance connState_eq_dec : EqDecision connState.
Proof. solve_decision. Defined.
Record message := mkMessage { m_typ : ascii; m_err : option error }.

Definition errListenerConnClosed : error := ErrorS "pq: ListenerConn has been closed".

(** [setState]: whether the state may become [new], and the state. *)
Definition expectedState (new : connState) : connState :=
  match new with
  | connStateIdle => connStateExpectReadyForQuery
  | connStateExpectResponse => connStateIdle
  | connStateExpectReadyForQuery => connStateExpectResponse
  end.
Definition setState (new cur : connState) : bool * connState :=
  if decide (cur = expectedState new) then (true, new) else (false, cur).

Section listener.
Context {Hlib : PqLib}.

(** [errRecoverNoErrBadConn]: a panic becomes the error. *)
Definition caught {A} (o : outcome (result A)) : result A :=
  match o with
  | Ret r => r
  | Crash (Panic s) | Crash (Fatal s) => Err (ErrorS s)
  end.

(** One round of [listenerConnLoop], up to what it does with the message: it waits for
    the next one, sends on a channel, or returns. *)
Inductive reaction := Continue | Notify (n : Notification) | Reply (m : message) | Return (e : error).
Definition loop_round (x : result (ascii * string)) (cur : connState) : reaction * connState :=
  match x with
  | Err e => (Return e, cur)
  | Ok (t, r) =>
      if decide (t = "A"%char) then
        (match caught (recvNotification r).1 with Ok n => Notify n | Err e => Return e end, cur)
      else if decide (t = "T"%char ∨ t = "D"%char) then (Continue, cur)
      else if decide (t = "E"%char) then
        let '(ok, cur) := setState connStateExpectReadyForQuery cur in
        (match caught (parseError r).1 with
         | Err e => Return e
         | Ok e => if ok : bool then Reply (mkMessage t (Some (PqError e))) else Return (PqError e)
         end, cur)
      else if decide (t = "C"%char ∨ t = "I"%char) then
        let '(ok, cur) := setState connStateExpectReadyForQuery cur in
        (if ok : bool then Continue else Return (ErrorS "unexpected CommandComplete"), cur)
      else if decide (t = "Z"%char) then
        let '(ok, cur) := setState connStateIdle cur in
        (if ok : bool then Reply (mkMessage t None) else Return (ErrorS "unexpected ReadyForQuery"), cur)
      else if decide (t = "N"%char ∨ t = "S"%char) then (Continue, cur)
      else (Return (ErrorS ("unexpected message " +:+ QuoteByte t +:+ " from server in listenerConnLoop")), cur)
  end.

(** ** State *)

(** Where the receiving goroutine is: at [recvMessage], about to send on one of the
    two channels, and then in [listenerConnMain]. *)
Inductive receiver :=
| RReceive | RNotify (n : Notification) | RReply (m : message)
| REnd (e : error) | RCloseReply | RCloseNotify | RDone.
(** Where the goroutine that holds [senderLock] is in [ExecSimpleQuery], if one does. *)
Inductive sender :=
| SFree | SLocked (q : string) | SReady (q : string) | SWrite (q : string)
| SFail (e : error) | SClose (e : error) | SWait (err : option error).

Record lconn := mkLconn {
  l_err : option error;
  l_state : connState;
  l_reply : list message;
  l_replyClosed : bool;
  l_notify : list Notification;
  l_notifyClosed : bool;
  l_open : bool;
  l_recv : receiver;
  l_send : sender;
}.
(** [NewListenerConn], once the connection is open *)
Definition new_lconn : lconn := mkLconn None connStateIdle [] false [] false true RReceive SFree.

Definition set_recv (r : receiver) (l : lconn) : lconn :=
  mkLconn (l_err l) (l_state l) (l_reply l) (l_replyClosed l) (l_notify l) (l_notifyClosed l) (l_open l) r (l_send l).
Definition set_send (s : sender) (l : lconn) : lconn :=
  mkLconn (l_err l) (l_state l) (l_reply l) (l_replyClosed l) (l_notify l) (l_notifyClosed l) (l_open l) (l_recv l) s.
Definition set_state (x : connState) (l : lconn) : lconn :=
  mkLconn (l_err l) x (l_reply l) (l_replyClosed l) (l_notify l) (l_notifyClosed l) (l_open l) (l_recv l) (l_send l).
Definition set_reply (q : list message) (l : lconn) : lconn :=
  mkLconn (l_err l) (l_state l) q (l_replyClosed l) (l_notify l) (l_notifyClosed l) (l_open l) (l_recv l) (l_send l).
Definition set_notify (q : list Notification) (l : lconn) : lconn :=
  mkLconn (l_err l) (l_state l) (l_reply l) (l_replyClosed l) q (l_notifyClosed l) (l_open l) (l_recv l) (l_send l).
(** [if l.err == nil { l.err = err }] *)
Definition set_err (e : error) (l : lconn) : lconn :=
  mkLconn (match l_err l with None => Some e | Some e' => Some e' end) (l_state l) (l_reply l) (l_replyClosed l)
    (l_notify l) (l_notifyClosed l) (l_open l) (l_recv l) (l_send l).
Definition close_net (l : lconn) : lconn :=
  mkLconn (l_err l) (l_state l) (l_reply l) (l_replyClosed l) (l_notify l) (l_notifyClosed l) false (l_recv l) (l_send l).
Definition close_reply (l : lconn) : lconn :=
  mkLconn (l_err l) (l_state l) (l_reply l) true (l_notify l) (l_notifyClosed l) (l_open l) (l_recv l) (l_send l).
Definition close_notify (l : lconn) : lconn :=
  mkLconn (l_err l) (l_state l) (l_reply l) (l_replyClosed l) (l_notify l) true (l_open l) (l_recv l) (l_send l).

(** ** Actions *)

(** The buffers of the channels: [replyChan], and the one that [connect] makes. *)
Definition reply_cap : nat := 2.
Definition notify_cap : nat := 32.

(** What can be seen of a run: a query is sent, the server has answered it, with an
    error or without, and is ready again; a call of [ExecSimpleQuery] returns. *)
Inductive label :=
| LSilent | LSend (q : string) | LAnswer (err : option error) | LReady | LReturn (executed : bool) (err : option error).

Definition answer_label (x : result (ascii * string)) (cur cur' : connState) (r : reaction) : label :=
  if decide (cur = cur') then LSilent
  else match cur', r with
       | connStateIdle, _ => LReady
       | _, Reply m => LAnswer (m_err m)
       | _, _ => LAnswer None
       end.

(** [listenerConnMain] after the loop has returned [e]: the error and the connection
    under [connectionLock], then the two channels. *)
Definition after_loop (e : error) (l : lconn) : lconn := set_recv RCloseReply (close_net (set_err e l)).

(** The receiving goroutine; [None] when it cannot move. *)
Definition receive (x : result (ascii * string)) (l : lconn) : option (label * lconn) :=
  match l_recv l with
  | RReceive =>
      let '(r, cur) := loop_round x (l_state l) in
      let l' := set_state cur l in
      Some (answer_label x (l_state l) cur r,
            match r with
            | Continue => l'
            | Notify n => set_recv (RNotify n) l'
            | Reply m => set_recv (RReply m) l'
            | Return e => set_recv (REnd e) l'
            end)
  | RNotify n =>
      if decide (length (l_notify l) < notify_cap)%nat
      then Some (LSilent, set_recv RReceive (set_notify (l_notify l ++ [n]) l)) else None
  | RReply m =>
      if decide (length (l_reply l) < reply_cap)%nat
      then Some (LSilent, set_recv RReceive (set_reply (l_reply l ++ [m]) l)) else None
  | REnd e => Some (LSilent, after_loop e l)
  | RCloseReply => Some (LSilent, set_recv RCloseNotify (close_reply l))
  | RCloseNotify => Some (LSilent, set_recv RDone (close_notify l))
  | RDone => None
  end.

(** [acquireSenderLock], once [senderLock] is held *)
Definition acquireSenderLock (q : string) (l : lconn) : label * lconn :=
  match l_err l with
  | Some e => (LReturn false (Some e), set_send SFree l)
  | None => (LSilent, set_send (SReady q) l)
  end.

(** [sendSimpleQuery]: the state of the protocol first, and then the write, which
    returned [w]. *)
Definition two_queries : error := ErrorS "pq: unexpected error: two queries running at the same time".
Definition begin_query (q : string) (l : lconn) : label * lconn :=
  let '(ok, cur) := setState connStateExpectResponse (l_state l) in
  if ok : bool then (LSend q, set_send (SWrite q) (set_state cur l))
  else (LSilent, set_send (SFail two_queries) l).
Definition write_query (w : option error) (l : lconn) : lconn :=
  set_send (match w with None => SWait None | Some e => SFail e end) l.

(** The loop of [ExecSimpleQuery] that waits for the reply: it cannot move while the
    channel is empty and open.  Its two sanity checks on [m.err] are left out: a message
    gets an error exactly when it is an E (see [loop_round]). *)
Definition await_reply (err : option error) (l : lconn) : option (label * lconn) :=
  match l_reply l with
  | m :: rest =>
      let l := set_reply rest l in
      Some (if decide (m_typ m = "Z"%char) then (LReturn true err, set_send SFree l)
            else if decide (m_typ m = "E"%char) then (LSilent, set_send (SWait (m_err m)) l)
            else (LReturn false (Some (ErrorS ("unknown response for simple query: " +:+ QuoteByte (m_typ m)))),
                  set_send SFree l))
  | [] => if l_replyClosed l then Some (LReturn false (l_err l), set_send SFree l) else None
  end.

(** [ExecSimpleQuery]: [q] is the query when it is called, [w] what a write returns. *)
Definition query (q : string) (w : option error) (l : lconn) : option (label * lconn) :=
  match l_send l with
  | SFree => Some (LSilent, set_send (SLocked q) l)
  | SLocked q => Some (acquireSenderLock q l)
  | SReady q => Some (begin_query q l)
  | SWrite q => Some (LSilent, write_query w l)
  | SFail e => Some (LSilent, set_send (SClose e) (set_err e l))
  | SClose e => Some (LReturn false (Some e), set_send SFree (close_net l))
  | SWait err => await_reply err l
  end.

(** [Close] *)
Definition close_conn (l : lconn) : option error * lconn :=
  match l_err l with
  | Some _ => (Some errListenerConnClosed, l)
  | None => (None, close_net (set_err errListenerConnClosed l))
  end.

(** The [Listener] takes a notification. *)
Definition take_notification (l : lconn) : option (label * lconn) :=
  match l_notify l with [] => None | _ :: rest => Some (LSilent, set_notify rest l) end.

Inductive action :=
| AReceive (x : result (ascii * string))
| AQuery (q : string) (w : option error)
| AClose
| ATake.
Definition act (a : action) (l : lconn) : option (label * lconn) :=
  match a with
  | AReceive x => receive x l
  | AQuery q w => query q w l
  | AClose => Some (LSilent, (close_conn l).2)
  | ATake => take_notification l
  end.
Fixpoint run (xs : list action) (l : lconn) : option (list label * lconn) :=
  match xs with
  | [] => Some ([], l)
  | x :: xs =>
      '(a, l) ← act x l; '(tr, l) ← run xs l; Some (a :: tr, l)
  end.

(** *** The queries of [ListenerConn] *)
Definition listen_query (channel : string) : string := "LISTEN " +:+ QuoteIdentifier channel.
Definition unlisten_query (channel : string) : string := "UNLISTEN " +:+ QuoteIdentifier channel.
Definition unlisten_all_query : string := "UNLISTEN *".
Definition ping_query : string := "".
(** [Ping], given what the query returned: it panics with an error of the server. *)
Definition ping_result (executed : bool) (err : option error) : outcome (option error) :=
  if executed then match err with Some e => Crash (Panic (error_string e)) | None => Ret None end
  else Ret err.
End listener.
End PqNotify.
