(* ===== verification/PqNotifyCorrect.v ===== *)
(** * lib/pq: what [ListenerConn] promises

    The documentation of [ExecSimpleQuery] as a specification of what can be seen of a
    run ([spec_step]), and that every run of the goroutines of [ListenerConn] is one
    that it allows, whatever the server sends: a query that was executed returns the
    answer of the server to that query, and after one that was not none is sent again.
    On the way: the buffer of [replyChan] is never full when the receiver sends on it,
    and no query finds another one running. *)

From S2P Require Import Prelude GoStrings AmqpWire PqBuf PqEncode PqConn PqCorrect PqNotify.

Module PqNotifyCorrect.
Import AmqpWire PqBuf PqEncode PqConn PqNotify.

(** ** Specification *)

(** No query is running, one was sent, the server answered it, the server is ready
    again; or a call has returned that the query was not executed. *)
Inductive phase := Free | Asked | Answered (err : option error) | Complete (err : option error) | Broken.

Inductive spec_step : phase → label → phase → Prop :=
| spec_silent p : spec_step p LSilent p
| spec_send q : spec_step Free (LSend q) Asked
| spec_answer err : spec_step Asked (LAnswer err) (Answered err)
| spec_ready err : spec_step (Answered err) LReady (Complete err)
| spec_return err : spec_step (Complete err) (LReturn true err) Free
| spec_fail p e : spec_step p (LReturn false (Some e)) Broken
| spec_late err : spec_step Broken (LAnswer err) Broken
| spec_late_ready : spec_step Broken LReady Broken.

Inductive spec_run : phase → list label → phase → Prop :=
| spec_nil p : spec_run p [] p
| spec_cons p a p' tr p'' : spec_step p a p' → spec_run p' tr p'' → spec_run p (a :: tr) p''.

(** ** Simulation *)
Definition error_reply (err : option error) : list message :=
  match err with None => [] | Some e => [mkMessage "E" (Some e)] end.
Definition ready_reply : message := mkMessage "Z" None.

(** The replies that have not been received: in the channel, and about to be. *)
Definition in_flight (l : lconn) : list message :=
  l_reply l ++ match l_recv l with RReply m => [m] | _ => [] end.

(** The replies [ms] are for the goroutine that sent the query, which has not taken
    any or has taken the error. *)
Definition due (l : lconn) (err : option error) (ms : list message) : Prop :=
  match l_send l with
  | SWait (Some e) => err = Some e ∧ in_flight l = ms
  | SWait None | SWrite _ | SFail _ | SClose _ => in_flight l = error_reply err ++ ms
  | _ => False
  end.

(** How many replies there can be when nobody waits for them. *)
Definition stale_bound (s : connState) : nat :=
  match s with
  | connStateExpectResponse => 0 | connStateExpectReadyForQuery => 1 | connStateIdle => 2
  end.

Definition related (l : lconn) (p : phase) : Prop :=
  match p with
  | Free => l_state l = connStateIdle ∧ in_flight l = [] ∧
            match l_send l with SFree | SLocked _ | SReady _ => True | _ => False end
  | Asked => l_state l = connStateExpectResponse ∧ due l None []
  | Answered err => l_state l = connStateExpectReadyForQuery ∧ due l err []
  | Complete err => l_state l = connStateIdle ∧ due l err [ready_reply]
  | Broken => l_err l ≠ None ∧ (length (in_flight l) ≤ stale_bound (l_state l))%nat ∧
              match l_send l with SFree | SLocked _ => True | _ => False end
  end.

(** The error is set before the channels are closed, and before a query that failed
    returns. *)
Definition orderly (l : lconn) : Prop :=
  match l_recv l with
  | RCloseReply => l_err l ≠ None ∧ l_replyClosed l = false
  | RCloseNotify | RDone => l_err l ≠ None ∧ l_replyClosed l = true
  | _ => l_replyClosed l = false
  end ∧
  match l_send l with SClose _ => l_err l ≠ None | _ => True end.

Definition sim (l : lconn) (p : phase) : Prop := orderly l ∧ related l p.

Lemma sim_new : sim new_lconn Free.
Proof. done. Qed.

Lemma due_length l err ms : due l err ms → (length (in_flight l) ≤ 1 + length ms)%nat.
Proof.
  rewrite /due. assert (length (error_reply err) ≤ 1)%nat by (destruct err; simpl; lia).
  destruct (l_send l) as [| | | | | |[e|]]; try done; [intros ->|intros ->|intros ->|intros [_ ->]|intros ->];
    rewrite ?length_app; lia.
Qed.
Lemma in_flight_bound l p : sim l p → (length (in_flight l) ≤ 2)%nat.
Proof.
  intros [_ Hr]. destruct p as [| |err|err|]; cbn [related] in Hr.
  - destruct Hr as (_ & -> & _). simpl. lia.
  - destruct Hr as [_ Hd%due_length]. simpl in Hd. lia.
  - destruct Hr as [_ Hd%due_length]. simpl in Hd. lia.
  - destruct Hr as [_ Hd%due_length]. simpl in Hd. lia.
  - destruct Hr as (_ & Hb & _). destruct (l_state l); simpl in Hb; lia.
Qed.

Section listener.
Context {Hlib : PqLib}.

(** The receiver never waits for room in [replyChan]. *)
Lemma reply_has_room l p m : sim l p → l_recv l = RReply m → (length (l_reply l) < reply_cap)%nat.
Proof.
  intros Hs Hm. pose proof (in_flight_bound l p Hs) as Hb. rewrite /in_flight Hm length_app /= in Hb.
  rewrite /reply_cap. lia.
Qed.

(** What a round of the loop does to the state of the protocol. *)
Inductive round_effect : connState → reaction → connState → label → Prop :=
| round_none cur r : (∀ m, r ≠ Reply m) → round_effect cur r cur LSilent
| round_error e : round_effect connStateExpectResponse (Reply (mkMessage "E" (Some e))) connStateExpectReadyForQuery (LAnswer (Some e))
| round_answer r : (∀ m, r ≠ Reply m) → round_effect connStateExpectResponse r connStateExpectReadyForQuery (LAnswer None)
| round_ready : round_effect connStateExpectReadyForQuery (Reply ready_reply) connStateIdle LReady.

Lemma loop_round_effect x cur :
  round_effect cur (loop_round x cur).1 (loop_round x cur).2
    (answer_label x cur (loop_round x cur).2 (loop_round x cur).1).
Proof.
  assert (∀ r, (∀ m, r ≠ Reply m) → round_effect cur r cur (answer_label x cur cur r)) as Hnone.
  { intros r Hr. rewrite /answer_label decide_True //. by constructor. }
  destruct x as [[t r]|e]; [|by apply Hnone]. cbn [loop_round].
  case_decide; [apply Hnone; by destruct (caught _)|].
  case_decide; [by apply Hnone|].
  case_decide; [subst t|].
  { rewrite /setState. case_decide as Hc; cbn [fst snd].
    - subst cur. destruct (caught _) as [e|e]; cbn; [by constructor|by constructor].
    - apply Hnone. by destruct (caught _). }
  case_decide.
  { rewrite /setState. case_decide as Hc; cbn [fst snd]; [|by apply Hnone]. subst cur. by constructor. }
  case_decide; [subst t|].
  { rewrite /setState. case_decide as Hc; cbn [fst snd]; [|by apply Hnone]. subst cur. by constructor. }
  case_decide; by apply Hnone.
Qed.

Lemma related_ext l l' p :
  l_state l' = l_state l → in_flight l' = in_flight l → l_send l' = l_send l → (l_err l ≠ None → l_err l' ≠ None) →
  related l p → related l' p.
Proof.
  intros Hst Hf Hse He. destruct p; cbn [related]; rewrite /due Hst Hf Hse; try done. intros (? & ? & ?). auto.
Qed.

(** The receiver's part of a round. *)
Definition reacted (r : reaction) (l : lconn) : lconn :=
  match r with
  | Continue => l | Notify n => set_recv (RNotify n) l | Reply m => set_recv (RReply m) l
  | Return e => set_recv (REnd e) l
  end.
Lemma in_flight_reacted r cur l : l_recv l = RReceive →
  in_flight (reacted r (set_state cur l)) = in_flight l ++ match r with Reply m => [m] | _ => [] end.
Proof. rewrite /in_flight. intros Hr. destruct r; cbn; by rewrite ?Hr ?app_nil_r. Qed.
Lemma orderly_reacted r cur l : orderly l → l_recv l = RReceive → orderly (reacted r (set_state cur l)).
Proof. rewrite /orderly. intros [H1 H2] Hr. rewrite Hr in H1. by destruct r; cbn; rewrite ?Hr. Qed.
Lemma reacted_fields r cur l :
  l_state (reacted r (set_state cur l)) = cur ∧ l_send (reacted r (set_state cur l)) = l_send l ∧
  l_err (reacted r (set_state cur l)) = l_err l.
Proof. by destruct r. Qed.

Lemma round_sim cur r cur' lab l p :
  round_effect cur r cur' lab → l_state l = cur → l_recv l = RReceive → sim l p →
  ∃ p', spec_step p lab p' ∧ sim (reacted r (set_state cur' l)) p'.
Proof.
  intros He Hst Hre [Ho Hr].
  pose proof (in_flight_reacted r cur' l Hre) as Hf. pose proof (orderly_reacted r cur' l Ho Hre) as Ho'.
  destruct (reacted_fields r cur' l) as (Hst' & Hse' & Her').
  set (l' := reacted r (set_state cur' l)) in *.
  assert (∀ err ms x, due l err ms → in_flight l' = in_flight l ++ x → due l' err (ms ++ x)) as Hdue.
  { intros err ms x. rewrite /due Hse'. destruct (l_send l) as [| | | | | |[e|]]; try done;
      try (intros -> ->; by rewrite app_assoc). intros [-> ->] ->. done. }
  destruct He as [cur r Hn|e|r Hn|].
  - exists p. split; [constructor|]. split; [done|]. eapply related_ext; [| |exact Hse'|by rewrite Her'|exact Hr].
    + by rewrite Hst' Hst.
    + rewrite Hf. destruct r; rewrite ?app_nil_r //. by destruct (Hn m).
  - destruct p as [| |err|err|]; cbn [related] in Hr; try (destruct Hr as [? _]; congruence).
    + exists (Answered (Some e)). split; [constructor|]. split; [done|]. split; [done|].
      destruct Hr as [_ Hd]. rewrite /due Hse' Hf. rewrite /due in Hd.
      destruct (l_send l) as [| | | | | |[e'|]]; try done; [by rewrite Hd..|by destruct Hd|by rewrite Hd].
    + exists Broken. split; [constructor|]. split; [done|]. destruct Hr as (H1 & H2 & H3).
      rewrite Hst in H2. cbn [related]. rewrite Her' Hse' Hst' Hf length_app /=. simpl in H2. auto with lia.
  - assert (in_flight l' = in_flight l) as Hf'.
    { rewrite Hf. destruct r; rewrite ?app_nil_r //. by destruct (Hn m). }
    destruct p as [| |err|err|]; cbn [related] in Hr; try (destruct Hr as [? _]; congruence).
    + exists (Answered None). split; [constructor|]. split; [done|]. split; [done|].
      destruct Hr as [_ Hd]. apply (Hdue None [] []); [done|]. by rewrite app_nil_r.
    + exists Broken. split; [constructor|]. split; [done|]. destruct Hr as (H1 & H2 & H3).
      rewrite Hst in H2. cbn [related]. rewrite Her' Hse' Hst' Hf'. simpl in H2. split_and!; [done|simpl; lia|done].
  - destruct p as [| |err|err|]; cbn [related] in Hr; try (destruct Hr as [? _]; congruence).
    + exists (Complete err). split; [constructor|]. split; [done|]. split; [done|].
      destruct Hr as [_ Hd]. by apply (Hdue err [] [ready_reply]).
    + exists Broken. split; [constructor|]. split; [done|]. destruct Hr as (H1 & H2 & H3).
      rewrite Hst in H2. cbn [related]. rewrite Her' Hse' Hst' Hf length_app /=. simpl in H2. auto with lia.
Qed.

(** A step that shows nothing and changes neither the state nor who is where in
    [ExecSimpleQuery]. *)
Lemma silent_sim l l' p :
  sim l p → orderly l' → l_state l' = l_state l → in_flight l' = in_flight l → l_send l' = l_send l →
  (l_err l ≠ None → l_err l' ≠ None) → ∃ p', spec_step p LSilent p' ∧ sim l' p'.
Proof. intros [_ Hr] Ho Hst Hf Hse He. exists p. split; [constructor|]. split; [done|]. by eapply related_ext. Qed.

Lemma set_err_some e l : l_err (set_err e l) ≠ None.
Proof. by cbn; destruct (l_err l). Qed.

Lemma receive_sim x l lab l' p :
  receive x l = Some (lab, l') → sim l p → ∃ p', spec_step p lab p' ∧ sim l' p'.
Proof.
  intros Hx Hs. pose proof Hs as [[Ho1 Ho2] _]. rewrite /receive in Hx.
  destruct (l_recv l) as [|n|m|e| | |] eqn:Hre; cbn in Hx.
  - pose proof (loop_round_effect x (l_state l)) as He.
    destruct (loop_round x (l_state l)) as [r cur]. injection Hx as <- <-. cbn [fst snd] in He.
    destruct (round_sim _ r cur _ l p He eq_refl Hre Hs) as (p' & H1 & H2). exists p'. split; [done|].
    by destruct r.
  - case_decide; [|done]. injection Hx as <- <-. apply (silent_sim l _ p Hs); try done.
    by rewrite /in_flight Hre /=.
  - case_decide; [|done]. injection Hx as <- <-. apply (silent_sim l _ p Hs); try done.
    by rewrite /in_flight Hre /= app_nil_r.
  - injection Hx as <- <-. apply (silent_sim l _ p Hs); try done.
    + split; [split; [apply set_err_some|done]|]. cbn. destruct (l_send l); try done. by destruct (l_err l).
    + by rewrite /in_flight Hre.
    + intros _. apply set_err_some.
  - injection Hx as <- <-. apply (silent_sim l _ p Hs); try done; [by destruct Ho1|by rewrite /in_flight Hre].
  - injection Hx as <- <-. apply (silent_sim l _ p Hs); try done. by rewrite /in_flight Hre.
  - done.
Qed.

(** [l'] is [l] with the sender elsewhere. *)
Lemma orderly_send l s : orderly l → (∀ e, s = SClose e → l_err l ≠ None) → orderly (set_send s l).
Proof. intros [H1 H2] Hs. split; [done|]. cbn. destruct s; try done. by eapply Hs. Qed.

(** The replies there can be in each state of the protocol. *)
Lemma state_bound l p : sim l p → (length (in_flight l) ≤ stale_bound (l_state l))%nat.
Proof.
  intros Hs. pose proof (in_flight_bound _ _ Hs) as Hb. destruct Hs as [_ Hr].
  destruct p as [| |err|err|]; cbn [related] in Hr; [destruct Hr as (-> & -> & _); simpl; lia| | | |tauto];
    destruct Hr as [Hst Hd]; rewrite Hst; cbn [stale_bound].
  - rewrite /due in Hd. destruct (l_send l) as [| | | | | |[e|]]; try done; try (by rewrite Hd). by destruct Hd.
  - apply due_length in Hd. simpl in Hd. lia.
  - done.
Qed.

(** A call returns that the query was not executed. *)
Lemma failed_sim l l' p e :
  sim l p → orderly l' → l_err l' ≠ None → l_state l' = l_state l → in_flight l' = in_flight l →
  l_send l' = SFree → ∃ p', spec_step p (LReturn false (Some e)) p' ∧ sim l' p'.
Proof.
  intros Hs Ho He Hst Hf Hse. exists Broken. split; [constructor|]. split; [done|]. cbn [related].
  rewrite Hse Hst Hf. split_and!; [done|by eapply state_bound|done].
Qed.

(** The sender takes a reply. *)
Lemma take_reply_sim l p err m rest :
  sim l p → l_send l = SWait err → l_reply l = m :: rest →
  (m = ready_reply ∧ p = Complete err ∧ in_flight (set_reply rest l) = []) ∨
  (∃ e ms, m = mkMessage "E" (Some e) ∧ err = None ∧ in_flight (set_reply rest l) = ms ∧
     ((p = Answered (Some e) ∧ ms = []) ∨ (p = Complete (Some e) ∧ ms = [ready_reply]))).
Proof.
  intros [_ Hr] Hse Hre.
  assert (in_flight l = m :: in_flight (set_reply rest l)) as Hf by by rewrite /in_flight Hre.
  revert Hf. generalize (in_flight (set_reply rest l)). intros fl Hf.
  destruct p as [| |a|a|]; cbn [related] in Hr; rewrite ?Hse /due ?Hse ?Hf in Hr.
  - tauto.
  - by destruct err as [e|], Hr as [_ Hd]; [destruct Hd|].
  - destruct Hr as [_ Hd]. destruct err as [e|]; [by destruct Hd|]. destruct a as [e|]; [|done].
    injection Hd as -> Hd. right. exists e, fl. split_and!; try done. left. by rewrite Hd.
  - destruct Hr as [_ Hd]. destruct err as [e|].
    + destruct Hd as [-> [= -> ->]]. left. done.
    + destruct a as [e|]; cbn in Hd; injection Hd as -> Hd; [|left; by rewrite Hd].
      right. exists e, fl. split_and!; try done. by right.
  - tauto.
Qed.

Lemma query_sim q w l lab l' p :
  query q w l = Some (lab, l') → sim l p → ∃ p', spec_step p lab p' ∧ sim l' p'.
Proof.
  intros Hx Hs. pose proof Hs as [Ho Hr].
  rewrite /query /acquireSenderLock /begin_query /write_query /await_reply in Hx.
  destruct (l_send l) as [|q'|q'|q'|e|e|err] eqn:Hse.
  - injection Hx as <- <-. exists p. split; [constructor|]. split; [by apply orderly_send|].
    destruct p as [| |a|a|]; cbn in Hr |- *; rewrite /due Hse in Hr; tauto.
  - destruct (l_err l) as [e|] eqn:He; injection Hx as <- <-.
    + apply (failed_sim l _ p e Hs); try done; [by apply orderly_send|by rewrite /= He].
    + exists p. split; [constructor|]. split; [by apply orderly_send|].
      destruct p as [| |a|a|]; cbn in Hr |- *; rewrite /due Hse ?He in Hr; tauto.
  - destruct p as [| |a|a|]; cbn [related] in Hr; rewrite /due Hse in Hr; try tauto.
    destruct Hr as (Hst & Hf & _). rewrite Hst in Hx. injection Hx as <- <-.
    exists Asked. split; [constructor|]. split; [by apply (orderly_send (set_state _ l))|]. done.
  - injection Hx as <- <-. exists p. split; [constructor|].
    split; [apply orderly_send; [done|by destruct w]|].
    destruct p as [| |a|a|]; cbn [related] in Hr |- *; rewrite /due Hse in Hr; try tauto;
      rewrite /due; by destruct w.
  - injection Hx as <- <-. exists p. split; [constructor|].
    split; [apply (orderly_send (set_err e l)); [|intros; apply set_err_some]|].
    { destruct Ho as [H1 H2]. split; [|by rewrite /= Hse]. cbn. destruct (l_recv l), (l_err l); naive_solver. }
    destruct p as [| |a|a|]; cbn [related] in Hr |- *; rewrite /due Hse in Hr; tauto.
  - injection Hx as <- <-. apply (failed_sim l _ p e Hs); try done.
    + split; [by destruct Ho|done].
    + destruct Ho as [_ H2]. by rewrite Hse in H2.
  - destruct (l_reply l) as [|m rest] eqn:Hre.
    { destruct (l_replyClosed l) eqn:Hcl; [|done]. injection Hx as <- <-.
      assert (l_err l ≠ None) as He by (destruct Ho as [H1 _]; rewrite Hcl in H1; destruct (l_recv l); try done; by destruct H1).
      destruct (l_err l) as [e|] eqn:E; [|done]. apply (failed_sim l _ p e Hs); try done; [|by rewrite /= E].
      by apply orderly_send. }
    destruct (take_reply_sim l p err m rest Hs Hse Hre) as [(-> & -> & Hf)|(e & ms & -> & -> & Hf & Hp)].
    + destruct (decide (m_typ ready_reply = "Z"%char)) as [_|[]]; [|done]. injection Hx as <- <-.
      exists Free. split; [constructor|]. split; [by apply (orderly_send (set_reply rest l))|].
      split_and!; [by destruct Hr|done|done].
    + cbn [m_typ] in Hx. destruct (decide ("E"%char = "Z"%char)) as [?|_]; [done|].
      destruct (decide ("E"%char = "E"%char)) as [_|[]]; [|done]. injection Hx as <- <-.
      exists p. split; [constructor|]. split; [by apply (orderly_send (set_reply rest l))|].
      destruct Hp as [[-> ->]|[-> ->]]; (split; [by destruct Hr|]); by split.
Qed.

Lemma act_sim a l lab l' p : act a l = Some (lab, l') → sim l p → ∃ p', spec_step p lab p' ∧ sim l' p'.
Proof.
  intros Ha Hs. destruct a as [x|q w| |]; cbn [act] in Ha.
  - by eapply receive_sim.
  - by eapply query_sim.
  - injection Ha as <- <-. rewrite /close_conn. pose proof Hs as [[Ho1 Ho2] _].
    destruct (l_err l) as [e|] eqn:He.
    { apply (silent_sim l _ p Hs); try done. by destruct Hs. }
    apply (silent_sim l _ p Hs); try done. split; cbn; rewrite He.
    + destruct (l_recv l); try done; naive_solver.
    + by destruct (l_send l).
  - rewrite /take_notification in Ha. destruct (l_notify l) as [|n rest]; [done|]. injection Ha as <- <-.
    apply (silent_sim l _ p Hs); try done. by destruct Hs.
Qed.

Lemma run_sim xs l tr l' p : run xs l = Some (tr, l') → sim l p → ∃ p', spec_run p tr p' ∧ sim l' p'.
Proof.
  revert l tr p. induction xs as [|x xs IH]; intros l tr p Hr Hs; cbn [run] in Hr.
  - injection Hr as <- <-. exists p. split; [constructor|done].
  - destruct (act x l) as [[a l1]|] eqn:Ea; [|done]. cbn in Hr.
    destruct (run xs l1) as [[tr1 l2]|] eqn:Er; [|done]. injection Hr as <- <-.
    destruct (act_sim _ _ _ _ _ Ea Hs) as (p1 & H1 & Hs1).
    destruct (IH _ _ _ Er Hs1) as (p2 & H2 & Hs2). exists p2. split; [by econstructor|done].
Qed.

(** ** Properties *)

(** C22: whatever the server sends and however the goroutines are interleaved, what can
    be seen of a [ListenerConn] is what its documentation says: queries run one at a
    time; one that is reported as executed returns the error, or none, with which the
    server answered that very query; one that is not has an error, and after it no
    query is sent any more. *)
Theorem listener_conn_refines (xs : list action) (tr : list label) (l : lconn) :
  run xs new_lconn = Some (tr, l) → ∃ p, spec_run Free tr p.
Proof. intros Hr. destruct (run_sim _ _ _ _ _ Hr sim_new) as (p & Hp & _). by exists p. Qed.

(** C23: the buffer of two replies is enough: the receiver never waits to send one, a
    query never finds another one running, and a query that waits can go on as soon as
    there is a reply or the receiver has returned; until then the receiver itself can
    go on, unless the channel of notifications is full. *)
Theorem listener_conn_progress (xs : list action) (tr : list label) (l : lconn) :
  run xs new_lconn = Some (tr, l) →
  (∀ m x, l_recv l = RReply m → is_Some (receive x l)) ∧
  (∀ q, l_send l = SReady q → l_state l = connStateIdle) ∧
  (∀ err, l_send l = SWait err →
     (∀ q w, is_Some (query q w l)) ∨ (∀ x, is_Some (receive x l)) ∨
     (∃ n, l_recv l = RNotify n ∧ length (l_notify l) ≥ notify_cap)%nat).
Proof.
  intros Hr. destruct (run_sim _ _ _ _ _ Hr sim_new) as (p & _ & Hs).
  assert (∀ m x, l_recv l = RReply m → is_Some (receive x l)) as Hreply.
  { intros m x Hm. rewrite /receive Hm decide_True; [by eexists|]. by eapply reply_has_room. }
  split_and!; [done| |].
  - intros q Hq. destruct Hs as [_ Hr']. destruct p; cbn [related] in Hr'; rewrite /due Hq in Hr'; tauto.
  - intros err Hw. destruct (l_recv l) as [|n|m|e| | |] eqn:Hre.
    + right. left. intros x. rewrite /receive Hre. destruct (loop_round x (l_state l)). by eexists.
    + destruct (decide (length (l_notify l) < notify_cap)%nat) as [Hn|Hn].
      * right. left. intros x. rewrite /receive Hre decide_True //.
      * right. right. exists n. split; [done|lia].
    + right. left. intros x. by eapply Hreply.
    + right. left. intros x. rewrite /receive Hre. by eexists.
    + right. left. intros x. rewrite /receive Hre. by eexists.
    + right. left. intros x. rewrite /receive Hre. by eexists.
    + left. intros q w. rewrite /query Hw /await_reply. destruct (l_reply l); [|by eexists].
      destruct Hs as [[H1 _] _]. rewrite Hre in H1. destruct H1 as [_ ->]. by eexists.
Qed.
End listener.

(** A query that the server refuses and one that it does not, with a notification in
    between, until the connection breaks. *)
Definition sample_error : string := String "S" ("ERROR" +:+ String zero (String zero "")).
Definition sample_run : list action :=
  [AQuery "LISTEN a" None; AQuery "" None; AQuery "" None; AQuery "" None;
   AReceive (Ok ("E"%char, sample_error)); AReceive (Ok ("A"%char, be 4 7 +:+ String "a" (String zero (String zero ""))));
   AReceive (Ok ("A"%char, be 4 7 +:+ String "a" (String zero (String zero ""))));
   AReceive (Ok ("Z"%char, "I")); AReceive (Ok ("Z"%char, "I")); AReceive (Ok ("Z"%char, "I")); ATake;
   AQuery "" None; AQuery "" None;
   AQuery "LISTEN b" None; AQuery "" None; AQuery "" None; AReceive (Ok ("C"%char, "")); AReceive (Err EOF)].
Definition sample_result : list label * lconn :=
  match @run PqCorrect.sample_lib sample_run new_lconn with Some x => x | None => ([], new_lconn) end.

Lemma listener_conn_refines_witness : ∃ p, spec_run Free sample_result.1 p.
Proof.
  apply (@listener_conn_refines PqCorrect.sample_lib sample_run sample_result.1 sample_result.2).
  vm_compute. reflexivity.
Defined.

Lemma listener_conn_progress_witness :
  let l := sample_result.2 in
  (∀ m x, l_recv l = RReply m → is_Some (@receive PqCorrect.sample_lib x l)) ∧
  (∀ q, l_send l = SReady q → l_state l = connStateIdle) ∧
  (∀ err, l_send l = SWait err →
     (∀ q w, is_Some (@query PqCorrect.sample_lib q w l)) ∨ (∀ x, is_Some (@receive PqCorrect.sample_lib x l)) ∨
     (∃ n, l_recv l = RNotify n ∧ length (l_notify l) ≥ notify_cap)%nat).
Proof.
  apply (@listener_conn_progress PqCorrect.sample_lib sample_run sample_result.1 sample_result.2).
  vm_compute. reflexivity.
Defined.
End PqNotifyCorrect.
