(* ===== verification/PqListener.v ===== *)
(** * lib/pq: the listener

    [Listener] of [src/src/github.com/lib/pq/notify.go]: it keeps a [ListenerConn]
    open, opens another one when it breaks, and keeps the server listening on the
    channels that were asked for.  Every operation holds [l.lock], so it is one action
    of a run; [Listen] gives the lock up while there is no connection.  What a query on
    the connection returns is part of the actions. *)

From S2P Require Import Prelude GoStrings AmqpWire PqBuf PqEncode PqConn PqCodec PqNotify.

Module PqListener.
Import AmqpWire PqBuf PqEncode PqConn PqCodec PqValues PqNotify.

(** ** Data *)
Definition errListenerClosed : error := ErrorS "pq: Listener has been closed".
Definition ErrChannelAlreadyOpen : error := ErrorS "pq: channel is already open".
Definition ErrChannelNotOpen : error := ErrorS "pq: channel is not open".

Inductive ListenerEventType :=
| ListenerEventConnected | ListenerEventDisconnected | ListenerEventReconnected
| ListenerEventConnectionAttemptFailed.

(** What [ExecSimpleQuery] returns: whether the query was executed, and the error. *)
Definition reply : Type := bool * option error.
(** A query that was not executed has an error. *)
Definition wf_reply (o : reply) : Prop := o.1 = false → o.2 ≠ None.

(** A connection: the texts of the queries that the server has executed on it, and
    whether there is none of which this is not known. *)
Record lcn := mkLcn { cn_log : list string; cn_sound : bool; cn_closed : bool }.
Definition new_lcn : lcn := mkLcn [] true false.
Definition close_lcn (cn : lcn) : lcn := mkLcn (cn_log cn) (cn_sound cn) true.
(** [ExecSimpleQuery(q)] on a connection, when it returns [o] *)
Definition exec_query (q : string) (o : reply) (cn : lcn) : lcn :=
  match o with
  | (true, None) => mkLcn (cn_log cn ++ [q]) (cn_sound cn) (cn_closed cn)
  | (true, Some _) => cn
  | (false, _) => mkLcn (cn_log cn) false (cn_closed cn)
  end.

(** Where [listenerConnLoop] is: at [connect], after it failed, after it succeeded,
    receiving notifications, after the connection was lost, asleep. *)
Inductive main :=
| MConnect | MFailed (e : error) | MConnected | MForward | MLost (e : error) | MSleep | MDone.

Record listener := mkListener {
  li_min : Z;
  li_max : Z;
  li_isClosed : bool;
  li_cn : option lcn;
  li_channels : gset string;
  li_waiting : list string;
  li_woken : list string;
  li_Notify : list (option Notification);
  li_events : list (ListenerEventType * option error);
  li_interval : Z;
  li_reconnect : bool;
  li_main : main;
}.
(** [NewListener] *)
Definition NewListener (min max : Z) : listener :=
  mkListener min max false None ∅ [] [] [] [] min false MConnect.

Definition with_cn (cn : option lcn) (chs : gset string) (l : listener) : listener :=
  mkListener (li_min l) (li_max l) (li_isClosed l) cn chs (li_waiting l) (li_woken l) (li_Notify l) (li_events l)
    (li_interval l) (li_reconnect l) (li_main l).
Definition with_waiting (w wk : list string) (l : listener) : listener :=
  mkListener (li_min l) (li_max l) (li_isClosed l) (li_cn l) (li_channels l) w wk (li_Notify l) (li_events l)
    (li_interval l) (li_reconnect l) (li_main l).
Definition with_main (m : main) (l : listener) : listener :=
  mkListener (li_min l) (li_max l) (li_isClosed l) (li_cn l) (li_channels l) (li_waiting l) (li_woken l)
    (li_Notify l) (li_events l) (li_interval l) (li_reconnect l) m.
Definition with_interval (i : Z) (r : bool) (l : listener) : listener :=
  mkListener (li_min l) (li_max l) (li_isClosed l) (li_cn l) (li_channels l) (li_waiting l) (li_woken l)
    (li_Notify l) (li_events l) i r (li_main l).
Definition set_isClosed (l : listener) : listener :=
  mkListener (li_min l) (li_max l) true (li_cn l) (li_channels l) (li_waiting l) (li_woken l) (li_Notify l)
    (li_events l) (li_interval l) (li_reconnect l) (li_main l).
Definition push_notification (n : option Notification) (l : listener) : listener :=
  mkListener (li_min l) (li_max l) (li_isClosed l) (li_cn l) (li_channels l) (li_waiting l) (li_woken l)
    (li_Notify l ++ [n]) (li_events l) (li_interval l) (li_reconnect l) (li_main l).
Definition emitEvent (e : ListenerEventType) (err : option error) (l : listener) : listener :=
  mkListener (li_min l) (li_max l) (li_isClosed l) (li_cn l) (li_channels l) (li_waiting l) (li_woken l)
    (li_Notify l) (li_events l ++ [(e, err)]) (li_interval l) (li_reconnect l) (li_main l).

(** ** Operations *)

(** What a call returned; [Blocked] when it waits for [reconnectCond]. *)
Inductive called := Returned (err : option error) | Blocked | Panicked (s : string).

(** [if gotResponse && err != nil { return err }] *)
Definition server_error (o : reply) : option error := if o.1 then o.2 else None.

Definition Listen (channel : string) (o : reply) (l : listener) : called * listener :=
  if li_isClosed l then (Returned (Some errListenerClosed), l)
  else if decide (channel ∈ li_channels l) then (Returned (Some ErrChannelAlreadyOpen), l)
  else
    match li_cn l with
    | Some cn =>
        let cn := exec_query (listen_query channel) o cn in
        match server_error o with
        | Some e => (Returned (Some e), with_cn (Some cn) (li_channels l) l)
        | None => (Returned None, with_cn (Some cn) ({[channel]} ∪ li_channels l) l)
        end
    | None =>
        (Blocked, with_waiting (channel :: li_waiting l) (li_woken l) (with_cn None ({[channel]} ∪ li_channels l) l))
    end.
(** A call of [Listen] that [Broadcast] has woken. *)
Definition resume (l : listener) : option (called * listener) :=
  match li_woken l with
  | [] => None
  | channel :: woken =>
      let l := with_waiting (li_waiting l) woken l in
      Some (if li_isClosed l then (Returned (Some errListenerClosed), l)
            else match li_cn l with
                 | None => (Blocked, with_waiting (channel :: li_waiting l) woken l)
                 | Some _ => (Returned None, l)
                 end)
  end.

Definition Unlisten (channel : string) (o : reply) (l : listener) : called * listener :=
  if li_isClosed l then (Returned (Some errListenerClosed), l)
  else if decide (channel ∉ li_channels l) then (Returned (Some ErrChannelNotOpen), l)
  else
    let rest := li_channels l ∖ {[channel]} in
    match li_cn l with
    | Some cn =>
        let cn := exec_query (unlisten_query channel) o cn in
        match server_error o with
        | Some e => (Returned (Some e), with_cn (Some cn) (li_channels l) l)
        | None => (Returned None, with_cn (Some cn) rest l)
        end
    | None => (Returned None, with_cn None rest l)
    end.

Definition UnlistenAll (o : reply) (l : listener) : called * listener :=
  if li_isClosed l then (Returned (Some errListenerClosed), l)
  else
    match li_cn l with
    | Some cn =>
        let cn := exec_query unlisten_all_query o cn in
        match server_error o with
        | Some e => (Returned (Some e), with_cn (Some cn) (li_channels l) l)
        | None => (Returned None, with_cn (Some cn) ∅ l)
        end
    | None => (Returned None, with_cn None ∅ l)
    end.

Definition Ping (o : reply) (l : listener) : called * listener :=
  if li_isClosed l then (Returned (Some errListenerClosed), l)
  else
    match li_cn l with
    | None => (Returned (Some (ErrorS "no connection")), l)
    | Some cn =>
        let l := with_cn (Some (exec_query ping_query o cn)) (li_channels l) l in
        match ping_result o.1 o.2 with
        | Ret err => (Returned err, l)
        | Crash (Panic s) | Crash (Fatal s) => (Panicked s, l)
        end
    end.

Definition Close (l : listener) : called * listener :=
  if li_isClosed l then (Returned (Some errListenerClosed), l)
  else (Returned None, set_isClosed (with_cn (close_lcn <$> li_cn l) (li_channels l) l)).

(** ** The main loop *)

(** [resync]: the channels in the order in which the map is visited, with what each
    query returned, and the error of the connection. *)
Fixpoint resync (chs : list string) (os : list reply) (cerr : error) (cn : lcn) : option error * lcn :=
  match chs, os with
  | ch :: chs, o :: os =>
      let cn := exec_query (listen_query ch) o cn in
      match o with
      | (true, Some e) => (Some e, cn)
      | (_, Some _) => (Some cerr, cn)
      | (_, None) => resync chs os cerr cn
      end
  | _, _ => (None, cn)
  end.

(** [connect], when [NewListenerConn] returned [opened] *)
Definition connect (opened : option error) (chs : list string) (os : list reply) (cerr : error) (l : listener) :
    option error * listener :=
  match opened with
  | Some e => (Some e, l)
  | None =>
      match resync chs os cerr new_lcn with
      | (Some e, _) => (Some e, l)
      | (None, cn) => (None, with_waiting [] (li_woken l ++ li_waiting l) (with_cn (Some cn) (li_channels l) l))
      end
  end.

(** [reconnectInterval *= 2], and not more than the greatest interval; a
    [time.Duration] has 64 bits. *)
Definition next_interval (max i : Z) : Z :=
  let i := wrap64 (i * 2) in if decide (max < i)%Z then max else i.

(** [disconnectCleanup]; the error is [cn.Err()]. *)
Definition disconnectCleanup (l : listener) : listener := with_cn None (li_channels l) l.
(** [closed] *)
Definition closed (l : listener) : bool := li_isClosed l.

(** The events of the loop: [connect] returns, a notification arrives or the channel is
    closed, and otherwise the next statement. *)
Inductive tick :=
| TConnect (opened : option error) (chs : list string) (os : list reply) (cerr : error)
| TNotification (n : Notification) | TLost (e : error) | TStep.

Definition main_step (t : tick) (l : listener) : option listener :=
  match li_main l, t with
  | MConnect, TConnect opened chs os cerr =>
      if decide (chs ≡ₚ elements (li_channels l) ∧ length os = length chs) then
        Some match connect opened chs os cerr l with
             | (None, l) => with_main MConnected l
             | (Some e, l) => with_main (MFailed e) l
             end
      else None
  | MFailed e, TStep =>
      Some (if closed l then with_main MDone l
            else with_main MConnect (with_interval (next_interval (li_max l) (li_interval l)) (li_reconnect l)
                   (emitEvent ListenerEventConnectionAttemptFailed (Some e) l)))
  | MConnected, TStep =>
      Some (with_main MForward (with_interval (li_min l) true
        (if li_reconnect l then push_notification None (emitEvent ListenerEventReconnected None l)
         else emitEvent ListenerEventConnected None l)))
  | MForward, TNotification n => Some (push_notification (Some n) l)
  | MForward, TLost e => Some (with_main (MLost e) (disconnectCleanup l))
  | MLost e, TStep =>
      Some (if closed l then with_main MDone l
            else with_main MSleep (emitEvent ListenerEventDisconnected (Some e) l))
  | MSleep, TStep => Some (with_main MConnect l)
  | _, _ => None
  end.

(** ** Runs *)
Inductive action :=
| AListen (channel : string) (o : reply) | AUnlisten (channel : string) (o : reply) | AUnlistenAll (o : reply)
| APing (o : reply) | AClose | AResume | AMain (t : tick).
Definition act (a : action) (l : listener) : option (option called * listener) :=
  let call x := Some (Some x.1, x.2) in
  match a with
  | AListen channel o => call (Listen channel o l)
  | AUnlisten channel o => call (Unlisten channel o l)
  | AUnlistenAll o => call (UnlistenAll o l)
  | APing o => call (Ping o l)
  | AClose => call (Close l)
  | AResume => '(c, l) ← resume l; Some (Some c, l)
  | AMain t => l ← main_step t l; Some (None, l)
  end.
Fixpoint run (xs : list action) (l : listener) : option (list (option called) * listener) :=
  match xs with
  | [] => Some ([], l)
  | x :: xs => '(c, l) ← act x l; '(cs, l) ← run xs l; Some (c :: cs, l)
  end.
(** ** The server *)

(** How PostgreSQL reads a channel name: a quoted identifier, of which it keeps 63
    bytes. *)
Definition NAMEDATALEN : nat := 64.
Definition clip (name : string) : string := String.substring 0 (NAMEDATALEN - 1) name.
Definition channel_of (text : string) : option string :=
  match read_identifier text with Some (name, "") => Some (clip name) | _ => None end.
(** What a statement does to the channels that a session listens on. *)
Definition pg_listen (q : string) (s : gset string) : gset string :=
  match strip_prefix "LISTEN " q with
  | Some text => match channel_of text with Some ch => {[ch]} ∪ s | None => s end
  | None =>
      match strip_prefix "UNLISTEN " q with
      | Some text =>
          if decide (text = "*") then ∅
          else match channel_of text with Some ch => s ∖ {[ch]} | None => s end
      | None => s
      end
  end.
(** The channels that the server sends notifications of to a connection. *)
Definition served (cn : lcn) : gset string := foldl (λ s q, pg_listen q s) ∅ (cn_log cn).

(** A name that PostgreSQL takes as it is. *)
Definition plain_name (ch : string) : Prop :=
  has_char zero ch = false ∧ (String.length ch < NAMEDATALEN)%nat ∧ ch ≠ "".

Lemma clip_plain ch : (String.length ch < NAMEDATALEN)%nat → clip ch = ch.
Proof.
  rewrite /clip /NAMEDATALEN. change (64 - 1) with 63. generalize 63 as n.
  intros n Hn. assert (String.length ch ≤ n)%nat as Hl by (cbn in *; lia). clear Hn. revert n Hl.
  induction ch as [|c ch IH]; intros [|n] Hl; simpl in *; try done; [lia|]. by rewrite IH; [|lia].
Qed.
Lemma channel_of_quoted ch : plain_name ch → channel_of (QuoteIdentifier ch) = Some ch.
Proof.
  intros (Hz & Hl & _). pose proof (QuoteIdentifier_read ch "" eq_refl) as Hr. rewrite str_app_nil_r in Hr.
  rewrite /channel_of Hr /before_zero take_until_None // clip_plain //.
Qed.
Lemma pg_listen_listen ch s : plain_name ch → pg_listen (listen_query ch) s = {[ch]} ∪ s.
Proof. intros Hc. rewrite /pg_listen /listen_query strip_prefix_app channel_of_quoted //. Qed.
Lemma pg_listen_unlisten ch s : plain_name ch → pg_listen (unlisten_query ch) s = s ∖ {[ch]}.
Proof.
  intros Hc. rewrite /pg_listen /unlisten_query.
  rewrite (_ : strip_prefix "LISTEN " ("UNLISTEN " +:+ QuoteIdentifier ch) = None) // strip_prefix_app.
  cbv beta iota. destruct (decide (QuoteIdentifier ch = "*")) as [E|_]; [discriminate E|].
  by rewrite channel_of_quoted.
Qed.

(** ** In step with the server *)
Definition wf_action (a : action) : Prop :=
  match a with
  | AListen ch o | AUnlisten ch o => plain_name ch ∧ wf_reply o
  | AUnlistenAll o | APing o => wf_reply o
  | AMain (TConnect _ _ os _) => Forall wf_reply os
  | _ => True
  end.

Definition in_sync (l : listener) : Prop :=
  (∀ ch, ch ∈ li_channels l → plain_name ch) ∧
  ∀ cn, li_cn l = Some cn → cn_sound cn = true → served cn = li_channels l.

Lemma served_exec q o cn : o = (true, None) → served (exec_query q o cn) = pg_listen q (served cn).
Proof. intros ->. by rewrite /served /= foldl_app. Qed.

Lemma exec_query_sync q o cn chs :
  served cn = chs ∨ cn_sound cn = false → wf_reply o → cn_sound (exec_query q o cn) = true →
  match server_error o with
  | Some _ => served (exec_query q o cn) = chs
  | None => served (exec_query q o cn) = pg_listen q chs
  end.
Proof.
  intros Hs Hw. destruct o as [[] [e|]]; cbn [exec_query server_error fst snd cn_sound]; intros Hsound; try done.
  - destruct Hs; [done|congruence].
  - rewrite -/(exec_query q (true, None) cn) served_exec //. destruct Hs as [->|]; [done|congruence].
Qed.

Lemma sync_or_broken l cn : in_sync l → li_cn l = Some cn → served cn = li_channels l ∨ cn_sound cn = false.
Proof. intros [_ Hs] Hcn. destruct (cn_sound cn) eqn:E; [left; by apply Hs|by right]. Qed.

(** An operation that queries the server and changes the channels in the same way. *)
Lemma changed_sync q o l cn chs :
  in_sync l → li_cn l = Some cn → wf_reply o → chs = pg_listen q (li_channels l) →
  (∀ ch, ch ∈ chs → plain_name ch) →
  in_sync (match server_error o with
           | Some e => (Returned (Some e), with_cn (Some (exec_query q o cn)) (li_channels l) l)
           | None => (Returned None, with_cn (Some (exec_query q o cn)) chs l)
           end).2.
Proof.
  intros Hs Hcn Hw -> Hp.
  pose proof (exec_query_sync q o cn (li_channels l) (sync_or_broken _ _ Hs Hcn) Hw) as Hx.
  destruct (server_error o); (split; [first [exact Hp|apply Hs]|]); intros cn' Hcn' Hsound; cbn in Hcn' |- *;
    injection Hcn' as <-; by apply Hx.
Qed.
Lemma in_sync_none chs l : (∀ ch, ch ∈ chs → plain_name ch) → in_sync (with_cn None chs l).
Proof. intros Hp. split; [done|]. intros cn Hcn. done. Qed.

Lemma resync_served chs os cerr cn cn' :
  resync chs os cerr cn = (None, cn') → length os = length chs → Forall wf_reply os → Forall plain_name chs →
  cn_sound cn = true → cn_sound cn' = true ∧ served cn' = list_to_set chs ∪ served cn.
Proof.
  revert os cn. induction chs as [|ch chs IH]; intros [|o os] cn Hr Hl Hw Hp Hs; try done; cbn [resync] in Hr.
  - injection Hr as <-. split; [done|set_solver].
  - apply Forall_cons in Hw as [Ho Hw]. apply Forall_cons in Hp as [Hch Hp].
    destruct o as [b [e|]]; [by destruct b|]. destruct b; [|by destruct (Ho eq_refl)].
    destruct (IH _ _ Hr) as [H1 H2]; [simpl in Hl; lia|done|done|done|]. split; [done|].
    rewrite H2 served_exec // pg_listen_listen //. set_solver.
Qed.

Lemma connect_sync opened chs os cerr l e l' :
  connect opened chs os cerr l = (e, l') → chs ≡ₚ elements (li_channels l) → length os = length chs →
  Forall wf_reply os → in_sync l → in_sync l'.
Proof.
  intros Hc Hp Hl Hw Hs. rewrite /connect in Hc. destruct opened as [e'|]; [by injection Hc as <- <-|].
  destruct (resync chs os cerr new_lcn) as [[e'|] cn] eqn:E; injection Hc as <- <-; [done|].
  destruct Hs as [Hpl Hs].
  assert (Forall plain_name chs) as Hpc.
  { rewrite Hp. apply Forall_forall. intros ch. rewrite elem_of_elements. apply Hpl. }
  destruct (resync_served _ _ _ _ _ E Hl Hw Hpc eq_refl) as [H1 H2].
  split; [done|]. intros cn' [= <-] _. cbn [li_channels with_waiting with_cn].
  rewrite H2 (_ : served new_lcn = ∅) // right_id_L Hp. apply list_to_set_elements_L.
Qed.

(** The listener with other fields than its channels and its connection changed. *)
Lemma in_sync_same l l' : li_cn l' = li_cn l → li_channels l' = li_channels l → in_sync l → in_sync l'.
Proof. rewrite /in_sync. by intros -> ->. Qed.

Lemma main_sync t l l' : main_step t l = Some l' → wf_action (AMain t) → in_sync l → in_sync l'.
Proof.
  intros E Hw Hs. rewrite /main_step /closed in E.
  destruct (li_main l) as [|e| | |e| |], t as [opened chs os cerr|n|e'|]; try done.
  - case_decide as Hd; [|done]. destruct Hd as [Hp Hl]. injection E as <-.
    destruct (connect opened chs os cerr l) as [e l2] eqn:Ec.
    pose proof (connect_sync _ _ _ _ _ _ _ Ec Hp Hl Hw Hs). by destruct e; eapply in_sync_same.
  - injection E as <-. destruct (li_isClosed l); by eapply in_sync_same.
  - injection E as <-. destruct (li_reconnect l); by eapply in_sync_same.
  - injection E as <-. by eapply in_sync_same.
  - injection E as <-. eapply in_sync_same; [..|by apply (in_sync_none (li_channels l) l), Hs]; done.
  - injection E as <-. destruct (li_isClosed l); by eapply in_sync_same.
  - injection E as <-. by eapply in_sync_same.
Qed.

Lemma act_sync a l c l' : act a l = Some (c, l') → wf_action a → in_sync l → in_sync l'.
Proof.
  intros Ha Hw Hs. destruct a as [ch o|ch o|o|o| | |t]; cbn [act] in Ha.
  - destruct Hw as [Hch Hw]. injection Ha as <- <-. rewrite /Listen. destruct (li_isClosed l); [done|].
    case_decide; [done|].
    assert (∀ x, x ∈ {[ch]} ∪ li_channels l → plain_name x) as Hp.
    { intros x [->%elem_of_singleton|Hx]%elem_of_union; [done|]. by apply Hs. }
    destruct (li_cn l) as [cn|] eqn:Hcn; [apply changed_sync; try done; by rewrite pg_listen_listen|].
    eapply in_sync_same; [..|by apply (in_sync_none ({[ch]} ∪ li_channels l) l)]; done.
  - destruct Hw as [Hch Hw]. injection Ha as <- <-. rewrite /Unlisten. destruct (li_isClosed l); [done|].
    case_decide; [done|].
    assert (∀ x, x ∈ li_channels l ∖ {[ch]} → plain_name x) as Hp.
    { intros x [Hx _]%elem_of_difference. by apply Hs. }
    destruct (li_cn l) as [cn|] eqn:Hcn; [apply changed_sync; try done; by rewrite pg_listen_unlisten|].
    by apply in_sync_none.
  - injection Ha as <- <-. rewrite /UnlistenAll. destruct (li_isClosed l); [done|].
    assert (∀ x : string, x ∈ (∅ : gset string) → plain_name x) as Hp by set_solver.
    destruct (li_cn l) as [cn|] eqn:Hcn; [by apply changed_sync|]. by apply in_sync_none.
  - injection Ha as <- <-. rewrite /Ping. destruct (li_isClosed l); [done|].
    destruct (li_cn l) as [cn|] eqn:Hcn; [|done].
    assert (in_sync (with_cn (Some (exec_query ping_query o cn)) (li_channels l) l)).
    { pose proof (changed_sync ping_query o l cn (li_channels l) Hs Hcn Hw eq_refl (proj1 Hs)) as Hx.
      by destruct (server_error o). }
    by destruct (ping_result o.1 o.2) as [|[]].
  - injection Ha as <- <-. rewrite /Close. destruct (li_isClosed l); [done|]. destruct Hs as [Hp Hs].
    split; [done|]. intros cn' Hcn'. cbn in Hcn' |- *. destruct (li_cn l) as [cn|] eqn:Hcn; [|done].
    injection Hcn' as <-. exact (Hs cn eq_refl).
  - rewrite /resume in Ha. destruct (li_woken l) as [|ch woken]; [done|]. cbn in Ha.
    destruct (li_isClosed l); [injection Ha as <- <-; by eapply in_sync_same|].
    destruct (li_cn l) as [cn|] eqn:Hcn; injection Ha as <- <-; by eapply in_sync_same.
  - destruct (main_step t l) as [l1|] eqn:E; [|done]. injection Ha as <- <-. by eapply main_sync.
Qed.

(** *** Intervals *)
Definition paced (min max : Z) (l : listener) : Prop :=
  li_min l = min ∧ li_max l = max ∧ (min ≤ li_interval l ≤ max)%Z.

Lemma wrap64_small z : (0 ≤ z < 2 ^ 63)%Z → wrap64 z = z.
Proof. intros Hz. rewrite /wrap64 Z.mod_small; [|lia]. rewrite /signed. rewrite decide_True //. simpl. lia. Qed.
Lemma next_interval_range lo max i : (0 < lo)%Z → (lo ≤ i ≤ max)%Z → (max < 2 ^ 62)%Z → (lo ≤ next_interval max i ≤ max)%Z.
Proof. intros Hl Hi Hm. rewrite /next_interval wrap64_small; [|lia]. case_decide; lia. Qed.

(** The settings and the interval. *)
Definition pace (l : listener) : Z * Z * Z := (li_min l, li_max l, li_interval l).
Lemma connect_pace opened chs os cerr l : pace (connect opened chs os cerr l).2 = pace l.
Proof. rewrite /connect. destruct opened; [done|]. by destruct (resync chs os cerr new_lcn) as [[]]. Qed.
Lemma called_pace a l c l' : act a l = Some (c, l') → (∀ t, a ≠ AMain t) → pace l' = pace l.
Proof.
  intros Ha Hn. destruct a as [ch o|ch o|o|o| | |t]; cbn [act] in Ha; [..|by destruct (Hn t)].
  - injection Ha as <- <-. rewrite /Listen. destruct (li_isClosed l); [done|]. case_decide; [done|].
    by destruct (li_cn l), (server_error o).
  - injection Ha as <- <-. rewrite /Unlisten. destruct (li_isClosed l); [done|]. case_decide; [done|].
    by destruct (li_cn l), (server_error o).
  - injection Ha as <- <-. rewrite /UnlistenAll. destruct (li_isClosed l); [done|].
    by destruct (li_cn l), (server_error o).
  - injection Ha as <- <-. rewrite /Ping. destruct (li_isClosed l); [done|].
    destruct (li_cn l); [|done]. by destruct (ping_result o.1 o.2) as [|[]].
  - injection Ha as <- <-. rewrite /Close. by destruct (li_isClosed l).
  - rewrite /resume in Ha. destruct (li_woken l) as [|ch woken]; [done|]. cbn in Ha.
    by destruct (li_isClosed l); [|destruct (li_cn l)]; injection Ha as <- <-.
Qed.

Section paced.
Context (min max : Z) (Hmin : (0 < min ≤ max)%Z) (Hmax : (max < 2 ^ 62)%Z).
Lemma paced_ext l l' : pace l' = pace l → paced min max l → paced min max l'.
Proof. intros [= H1 H2 H3]. by rewrite /paced H1 H2 H3. Qed.
Lemma main_paced t l l' : main_step t l = Some l' → paced min max l → paced min max l'.
Proof.
  intros E Hp. rewrite /main_step /closed in E.
  destruct (li_main l) as [|e| | |e| |], t as [opened chs os cerr|n|e'|]; try done.
  - case_decide as Hd; [|done]. injection E as <-. eapply paced_ext; [|exact Hp].
    rewrite -(connect_pace opened chs os cerr l). by destruct (connect opened chs os cerr l) as [[]].
  - injection E as <-. destruct (li_isClosed l); [done|]. destruct Hp as (H1 & H2 & H3). split; [done|]. split; [done|].
    cbn -[next_interval]. rewrite H2. apply next_interval_range; lia.
  - injection E as <-. destruct Hp as (H1 & H2 & H3). destruct (li_reconnect l); split_and!; cbn; lia.
  - by injection E as <-.
  - by injection E as <-.
  - injection E as <-. by destruct (li_isClosed l).
  - by injection E as <-.
Qed.
Lemma act_paced a l c l' : act a l = Some (c, l') → paced min max l → paced min max l'.
Proof.
  intros Ha Hp. destruct a as [ch o|ch o|o|o| | |t]; try (eapply paced_ext; [by eapply called_pace|done]).
  cbn in Ha. destruct (main_step t l) as [l1|] eqn:E; [|done]. injection Ha as <- <-. by eapply main_paced.
Qed.
End paced.

Lemma run_invariant (P : action → Prop) (I : listener → Prop) xs l cs l' :
  (∀ a l c l', act a l = Some (c, l') → P a → I l → I l') →
  run xs l = Some (cs, l') → Forall P xs → I l → I l'.
Proof.
  intros Hact. revert l cs. induction xs as [|x xs IH]; intros l cs Hr Hw Hi; cbn [run] in Hr.
  - by injection Hr as <- <-.
  - apply Forall_cons in Hw as [Hx Hw]. destruct (act x l) as [[c l1]|] eqn:Ea; [|done]. cbn in Hr.
    destruct (run xs l1) as [[cs1 l2]|] eqn:Er; [|done]. injection Hr as <- <-.
    eapply IH; [exact Er|done|]. by eapply Hact.
Qed.

(** ** Properties *)

(** C24: for channel names that PostgreSQL takes as they are (not empty, without a zero
    byte, of at most 63 bytes): however the operations of a [Listener] and its
    reconnections are interleaved and whatever its queries return, as long as every
    query on the current connection was executed, the server, reading the texts of these
    queries (LISTEN and UNLISTEN with a quoted name, UNLISTEN with a star), listens for
    that connection on exactly the channels that were asked for; and with a greatest
    interval below 2^62 nanoseconds the interval between two attempts to connect stays
    between its bounds. *)
Theorem listener_in_sync (min max : Z) (xs : list action) (cs : list (option called)) (l : listener) :
  (0 < min ≤ max)%Z → (max < 2 ^ 62)%Z → Forall wf_action xs → run xs (NewListener min max) = Some (cs, l) →
  (∀ cn, li_cn l = Some cn → cn_sound cn = true → served cn = li_channels l) ∧
  (min ≤ li_interval l ≤ max)%Z.
Proof.
  intros Hm Hx Hw Hr. split.
  - refine (proj2 (run_invariant wf_action in_sync _ _ _ _ act_sync Hr Hw _)). split; [set_solver|]. by intros cn ?.
  - apply (run_invariant wf_action (paced min max) xs (NewListener min max) cs l); [|done..|].
    + intros a l1 c l2 Ha _. by eapply act_paced.
    + split_and!; try done; cbn; lia.
Qed.

Definition sample_reply : reply := (true, None).
Definition sample_session : list action :=
  [AMain (TConnect (Some EOF) [] [] EOF); AMain TStep; AListen "a" sample_reply;
   AMain (TConnect None ["a"] [sample_reply] EOF); AMain TStep; AResume; AListen "b" sample_reply;
   AUnlisten "a" sample_reply; AMain (TNotification (mkNotification 7 "b" "x")); APing sample_reply].
Definition sample_listener : list (option called) * listener :=
  match run sample_session (NewListener 10 80) with Some x => x | None => ([], NewListener 10 80) end.
Lemma sample_session_runs : run sample_session (NewListener 10 80) = Some sample_listener.
Proof.
  assert (match run sample_session (NewListener 10 80) with Some _ => true | None => false end = true) as H
    by (vm_compute; reflexivity).
  rewrite /sample_listener. by destruct (run _ _).
Qed.

Lemma listener_in_sync_witness :
  (∀ cn, li_cn sample_listener.2 = Some cn → cn_sound cn = true → served cn = li_channels sample_listener.2) ∧
  (10 ≤ li_interval sample_listener.2 ≤ 80)%Z.
Proof.
  apply (listener_in_sync 10 80 sample_session sample_listener.1 sample_listener.2); [lia|lia|by repeat constructor|].
  rewrite sample_session_runs. by destruct sample_listener.
Defined.

(** Closed, with the main loop gone and [w] waiting for it. *)
Definition abandoned (w : list string) (l : listener) : Prop :=
  li_isClosed l = true ∧ li_main l = MDone ∧ li_woken l = [] ∧ li_waiting l = w.
Lemma act_abandoned w a l c l' : act a l = Some (c, l') → True → abandoned w l → abandoned w l'.
Proof.
  intros Ha _ (Hc & Hm & Hk & Hw). destruct a as [ch o|ch o|o|o| | |t]; cbn [act] in Ha.
  - injection Ha as <- <-. by rewrite /Listen Hc.
  - injection Ha as <- <-. by rewrite /Unlisten Hc.
  - injection Ha as <- <-. by rewrite /UnlistenAll Hc.
  - injection Ha as <- <-. by rewrite /Ping Hc.
  - injection Ha as <- <-. by rewrite /Close Hc.
  - by rewrite /resume Hk in Ha.
  - by rewrite /main_step Hm in Ha.
Qed.

Definition abandoning : list action :=
  [AListen "a" sample_reply; AClose; AMain (TConnect (Some EOF) ["a"] [sample_reply] EOF); AMain TStep].
Definition leaking : list action := [AClose; AMain (TConnect None [] [] EOF)].

(** a [Listen] that waits for a connection is not woken when the listener is closed
    while its main loop fails to connect: it never returns, whatever happens then; and a
    [Close] while the main loop connects leaves the new connection open, and no later
    [Close] closes it. *)
Theorem close_while_disconnected :
  (∃ xs cs l, run xs (NewListener 10 80) = Some (cs, l) ∧ li_isClosed l = true ∧
     ∀ xs' cs' l', run xs' l = Some (cs', l') → li_waiting l' = ["a"]) ∧
  (∃ xs cs l cn, run xs (NewListener 10 80) = Some (cs, l) ∧ li_isClosed l = true ∧ li_cn l = Some cn ∧
     cn_closed cn = false ∧ Close l = (Returned (Some errListenerClosed), l)).
Proof.
  split.
  - destruct (run abandoning (NewListener 10 80)) as [[cs l]|] eqn:E; [|vm_compute in E; done].
    assert (abandoned ["a"] l) as Ha.
    { assert (match run abandoning (NewListener 10 80) with
              | Some (_, l) => li_isClosed l && bool_decide (li_woken l = []) && bool_decide (li_waiting l = ["a"]) &&
                               match li_main l with MDone => true | _ => false end
              | None => false end = true) as H by (vm_compute; reflexivity).
      rewrite E !andb_true_iff !bool_decide_eq_true in H. destruct H as [[[? ?] ?] ?].
      split_and!; try done. by destruct (li_main l). }
    exists abandoning, cs, l. split_and!; [done|by destruct Ha|]. intros xs' cs' l' Hr.
    assert (abandoned ["a"] l') as (_ & _ & _ & Hw); [|done].
    apply (run_invariant (λ _, True) (abandoned ["a"]) _ _ _ _ (act_abandoned ["a"]) Hr); [|done].
    by apply Forall_true.
  - eexists leaking, _, _, _. split_and!; [cbv; reflexivity|done|done|done|done].
Qed.
End PqListener.
